(* ===== verification/_CoqProject ===== *)
-Q . S2P
Prelude.v
Kmem.v
Rdxtree.v
RdxtreeInv.v
RdxtreeOps.v
RdxtreeSpec.v
RdxtreeWalk.v
RdxtreeMap.v
Rbtree.v
RbtreeInv.v
RbtreeStep.v
RbtreeInsert.v
RbtreeRemove.v
RbtreeWalk.v
RbtreeSpec.v
RbtreeDestroy.v
Slab.v
SlabAlign.v
SlabInv.v
SlabFrame.v
SlabTree.v
SlabRun.v
SlabAlloc.v
SlabFree.v
SlabPages.v
SlabCreate.v
SlabGrow.v
SlabCache.v
SlabCollect.v
SlabInit.v
SlabSystem.v
SlabKalloc.v
SlabClaims.v
SlabRdxtree.v
BpfFilter.v
BpfSpec.v
RwLock.v
RwLockSpec.v
IpcTypes.v
IpcEntry.v
IpcPort.v
IpcMarequest.v
IpcRight.v
IpcObject.v
IpcSpace.v
MachPort.v
IpcBits.v
IpcInv.v
IpcUpdate.v
IpcDn.v
IpcMar.v
IpcStep.v
IpcRelease.v
IpcCheck.v
IpcCircular.v
IpcVacate.v
IpcDealloc.v
IpcDelta.v
IpcCopyin.v
IpcClear.v
IpcReceive.v
IpcCopyout.v
IpcDestroy.v
IpcEnd.v
IpcDiscard.v
IpcPset.v
IpcAlloc.v
IpcTransfer.v
IpcAllocName.v
IpcCreate.v
IpcRightEnd.v
IpcDemo.v
IpcClaims.v
IpcAttr.v
MachPortSpec.v
MachPortNames.v
IpcDnRequest.v
IpcSystem.v
IpcTheorems.v
IpcFinding.v
