(* ===== verification/Prelude.v ===== *)
(** * A verification of parts of the Mach kernel

    The kernel is a set of C subsystems that call each other.  This development
    translates several of them, routine by routine, and proves what their clients
    rely on.  Names are those of the source; paths are relative to its root.

    ** How C becomes Rocq

    A routine is a function in the monad [M S] over an explicit store (this
    file): it returns a value and a new store, or [None] for a failed assertion, a
    panic, a dangling dereference or undefined arithmetic.  Return codes are
    ordinary values.  A structure is a record, a pointer an address into a finite
    map of records, a machine integer a number of [N] or [Z] with its wrap-around
    written out.  A theorem in the form [wp c Q s], or about a run [c s = Some r],
    says that the routine does return, so that nothing of what [None] stands for
    happens.

    ** The parts

    - [Kmem]: the interface of the object caches of kern/slab.c ([KmemCache]),
      which the radix tree and the IPC code allocate from.  What a cache promises
      is a class.  A free-list cache is a small instance, and the slab allocator
      is another one.
    - [Rdxtree], [RdxtreeInv], [RdxtreeOps], [RdxtreeSpec], [RdxtreeWalk],
      [RdxtreeMap]: the radix tree of kern/rdxtree.c on its own representation
      (tagged words, parent pointers, bitmaps).  [RdxtreeInv] has the shape
      invariant and the store transformations that keep it, [RdxtreeOps] the
      internal routines, [RdxtreeSpec] the public operations, [RdxtreeWalk] the
      iteration.  [RdxtreeMap] states the interface [KeyMap] (a finite map with
      key allocation and iteration), proves that the tree is an instance and that
      whole runs refine a finite map, and shows on concrete trees where key
      allocation and iteration leave that contract.
    - [Rbtree], [RbtreeInv], [RbtreeStep], [RbtreeInsert], [RbtreeRemove],
      [RbtreeWalk], [RbtreeSpec], [RbtreeDestroy]: the red-black trees of
      kern/rbtree.c, rbtree.h and rbtree_i.h, nodes in a heap with the colour in
      the parent word.  Insertion and removal keep order and balance, searches and
      walks agree with the order and take logarithmically many steps, and the
      destruction of a tree touches no node that its user may have freed.
    - [Slab]: the slab allocator of kern/slab.c: caches of objects on slabs of
      pages, free buffers linked through their own memory, descriptors inside or
      outside of the slab, the red-black tree of active slabs ([Rbtree]), garbage
      collection, and [kalloc].  Pages come from the class [PageSource].
    - [SlabAlign], [SlabInv], [SlabFrame], [SlabTree], [SlabRun]: the alignment
      macros, the invariant [SlabInv] with its ghost free lists, what it
      says about buffers in memory, and rules for the state changes.
    - [SlabAlloc], [SlabFree], [SlabPages], [SlabCreate], [SlabGrow], [SlabCache],
      [SlabCollect], [SlabInit], [SlabKalloc]: each routine keeps the
      invariant and does its part.
    - [SlabSystem], [SlabClaims]: the abstract heap, runs of calls that refine it,
      and the theorems on runs.
    - [SlabRdxtree]: a cache of the slab allocator is a
      [KmemCache], so that the radix tree on top of it is a finite map, and its
      nodes are the objects of the cache.
    - [BpfFilter], [BpfSpec]: the packet filters of device/net_io.c, two small
      languages whose programs come from users and run in the kernel: validators,
      interpreters, what the validators guarantee and what they miss.
    - [RwLock], [RwLockSpec]: the readers/writer locks of kern/lock.c run by any
      number of threads.  A stretch of code under the interlock is one step of the
      relation [lock_step].  Mutual exclusion and the absence of lost wakeups are
      proved by induction over reachable states.
    - [IpcTypes], [IpcEntry], [IpcPort], [IpcMarequest], [IpcRight], [IpcObject],
      [IpcSpace], [MachPort]: the capability system, ipc/ipc_entry.c, ipc_port.c,
      ipc_pset.c, ipc_table.c, ipc_marequest.c, ipc_right.c, ipc_object.c,
      ipc_space.c, mach_port.c and the inline routines of their headers.  A task
      has a space, whose radix tree (any [KeyMap]) maps names to entries; an entry
      holds rights for a port, a port set or a dead name.
    - [IpcBits], [IpcInv], [IpcUpdate], [IpcDn], [IpcMar], [IpcStep],
      [IpcRelease]: the invariant [Inv K G n] and its tools.  The ghost table [G]
      says which capability each entry stands for, [n] counts the references and
      rights that no entry holds; the invariant says that the trees, free lists,
      reverse maps, reference counts, send and send-once counts, dead-name,
      port-destroyed and msg-accepted requests, queues and port sets of [K] are
      those of [G] and [n], and that no receive right is in a message to itself.
      [IpcStep] has the tactics that execute a routine symbolically.
    - [IpcCheck], [IpcVacate], [IpcDealloc], [IpcDelta], [IpcCopyin], [IpcClear],
      [IpcReceive], [IpcCopyout], [IpcAlloc], [IpcTransfer], [IpcAllocName],
      [IpcCreate]: each operation that examines, gives up, moves or makes a right
      implements a function on capabilities and keeps the invariant.
    - [IpcCircular], [IpcDestroy], [IpcEnd], [IpcDiscard], [IpcPset],
      [IpcRightEnd]: the end of ports, port sets and rights.  [IpcCircular] has
      the chains of receive rights in transit, [IpcDestroy] the death of a port or
      its way to the backup, [IpcEnd] and [IpcRightEnd] the end of a receive right
      and of a name, [IpcDiscard] that of a right in a message.
    - [IpcDemo], [IpcClaims]: a concrete kernel that satisfies the invariant, and
      the theorems about the transfer of rights stated on runs.
    - [IpcAttr], [MachPortSpec], [MachPortNames], [IpcDnRequest]: the calls that
      tasks make on names: translation of names, attributes of ports, listings,
      requests for notifications and the growth of their tables.
    - [IpcSystem]: any sequence of calls by any tasks, with rights in transit
      between them: it never goes wrong, and every count stays right.
    - [IpcTheorems]: the theorems about the operations that translate, make,
      request and end rights.
    - [IpcFinding]: the one case that a call of [IpcSystem] must avoid, and the
      send right that is lost in it.

    ** Fuel and bounds

    Loops that follow pointers take fuel from the size of the store they walk
    (the number of nodes, entries or objects), one more than the longest path
    without a repetition; theorems show that the result is reached.  The BPF
    interpreter takes its fuel as an argument, and the theorem bounds it by the
    length of the program.  Keys of the radix tree have 32 bits, user references
    16, lock counters 16 and 12; the iteration of the tree is proved up to the 5
    levels that 30 bits of key need, because the sixth level makes the code shift
    by more than the width.  The loops of [ipc_right_dnrequest] and
    [mach_port_get_set_status] get two iterations, and theorems show that the
    second one ends.  An allocation from a cache gets two iterations as well, since
    the one after the growth of the cache finds a buffer, and the loop for the
    size of a slab one for each page of a buffer and three more.  A thread may
    wait for a page for ever; [ready] says that it does not.  Runs of IPC calls
    assume that reference counts stay below 32 bits and that fresh memory and
    names do not collide with what exists ([plenty]).

    ** Not modelled

    - Locks inside the IPC and radix-tree code: those parts are sequential, one
      routine at a time, and a loop that retries after it dropped a lock runs once.
    - The previous no-senders and dead-name requests that a new one returns are
      not followed as rights in transit; they stay counted.
    - Notifications, wake-ups of threads and the destruction of messages at the
      end of an IPC routine are recorded as calls in their order and not run.
    - Of the slab allocator: pools per CPU, which are compiled out, the debugging
      mode, and the accounting around [kalloc].  It is sequential too: another
      thread that empties a cache between the iterations is not considered.
    - Message bodies and the message trap (ipc/ipc_kmsg.c, ipc/mach_msg.c),
      scheduling, virtual memory, the device layer other than packet filters:
      they block and switch threads inside of a routine, which needs a model of
      interleaving as in [RwLock] for each of them.
    - Assembly, page tables, interrupts, drivers, the debugger: hardware I/O.
    - Console output, statistics and code that the build leaves out. *)

(** ** This file

    The state-and-failure monad in which the C routines are written, its
    weakest-precondition calculus, the kernel return codes, machine-word
    arithmetic, counting over finite maps, and the list, bit and option lemmas
    that several components use. *)

From Stdlib Require Export NArith ZArith Lia.
From stdpp Require Export base option list gmap numbers.

#[global] Set Default Goal Selector "!".

(** ** A C routine as a state transformer that can go wrong

    [M S A] is a computation over a store of type [S].  [None] is a routine
    that went wrong: a failed [assert], a [panic], a dangling dereference or
    any other undefined behaviour.  Error {e codes} are ordinary values. *)

Definition M (S A : Type) : Type := S → option (A * S).

#[export] Instance M_ret {S} : MRet (M S) := λ A a s, Some (a, s).
#[export] Instance M_bind {S} : MBind (M S) := λ A B k c s,
  match c s with
  | Some (a, s') => k a s'
  | None => None
  end.

Definition get {S} : M S S := λ s, Some (s, s).
Definition put {S} (s : S) : M S unit := λ _, Some (tt, s).
Definition modify {S} (f : S → S) : M S unit := λ s, Some (tt, f s).
Definition wrong {S A} : M S A := λ _, None.
(** [assert(b)]. *)
Definition check {S} (b : bool) : M S unit := if b then mret tt else wrong.
(** Read through a pointer or an index that may be invalid. *)
Definition deref {S A} (o : option A) : M S A :=
  match o with Some a => mret a | None => wrong end.

Declare Scope mach_scope.
Delimit Scope mach_scope with mach.
Notation "c1 ;; c2" := (mbind (λ _ : unit, c2) c1)
  (at level 100, c2 at level 200, right associativity) : mach_scope.
Open Scope mach_scope.

(** ** Weakest preconditions

    [wp c Q s]: started in [s], [c] does not go wrong and ends with a result
    and a store that satisfy [Q]. *)

Definition wp {S A} (c : M S A) (Q : A → S → Prop) (s : S) : Prop :=
  match c s with
  | Some (a, s') => Q a s'
  | None => False
  end.

Section Wp.
Context {S : Type}.
Implicit Types s : S.

Lemma wp_ret {A} (a : A) Q s : Q a s → wp (mret a) Q s.
Proof. done. Qed.

Lemma wp_bind {A B} (c : M S A) (k : A → M S B) Q s :
  wp c (λ a, wp (k a) Q) s → wp (c ≫= k) Q s.
Proof. unfold wp, mbind, M_bind. by destruct (c s) as [[a s']|]. Qed.

Lemma wp_bind_inv {A B} (c : M S A) (k : A → M S B) Q s :
  wp (c ≫= k) Q s → wp c (λ a, wp (k a) Q) s.
Proof. unfold wp, mbind, M_bind. by destruct (c s) as [[a s']|]. Qed.

Lemma wp_get Q s : Q s s → wp get Q s.
Proof. done. Qed.

Lemma wp_put (s' : S) Q s : Q tt s' → wp (put s') Q s.
Proof. done. Qed.

Lemma wp_seq {A B D} (c : M S A) (d : A → M S B) (k : B → M S D) Q s :
  wp (x ← c; d x) (λ y, wp (k y) Q) s → wp (x ← c; y ← d x; k y) Q s.
Proof. unfold wp, mbind, M_bind. destruct (c s) as [[x s']|]; [|done]. by destruct (d x s') as [[y s'']|]. Qed.

Lemma wp_modify (f : S → S) Q s : Q tt (f s) → wp (modify f) Q s.
Proof. done. Qed.

Lemma wp_check (b : bool) (Q : unit → S → Prop) s :
  b = true → Q tt s → wp (check b) Q s.
Proof. by intros ->. Qed.

Lemma wp_deref {A} (o : option A) a (Q : A → S → Prop) s :
  o = Some a → Q a s → wp (deref o) Q s.
Proof. by intros ->. Qed.

Lemma wp_mono {A} (c : M S A) (Q Q' : A → S → Prop) s :
  wp c Q s → (∀ a s', Q a s' → Q' a s') → wp c Q' s.
Proof. unfold wp. destruct (c s) as [[a s']|]; auto. Qed.

(** A routine that satisfies a postcondition returns, and its result does. *)
Lemma wp_run {A} (c : M S A) (Q : A → S → Prop) s :
  wp c Q s ↔ ∃ a s', c s = Some (a, s') ∧ Q a s'.
Proof.
  unfold wp. destruct (c s) as [[a s']|]; split; try done.
  - eauto.
  - by intros (? & ? & [= -> ->] & ?).
  - by intros (? & ? & ? & ?).
Qed.

Lemma wp_elim {A} (c : M S A) (Q : A → S → Prop) s a s' :
  wp c Q s → c s = Some (a, s') → Q a s'.
Proof. unfold wp. intros HQ Hc. by rewrite Hc in HQ. Qed.
End Wp.

Create HintDb wp discriminated.
#[export] Hint Resolve wp_ret wp_get wp_put wp_modify : wp.

(** One step of a [wp] proof. *)
Ltac wp_step :=
  match goal with
  | |- wp (mbind _ _) _ _ => apply wp_bind
  | |- wp (mret _) _ _ => apply wp_ret
  | |- wp get _ _ => apply wp_get
  | |- wp (put _) _ _ => apply wp_put
  | |- wp (modify _) _ _ => apply wp_modify
  | |- wp (check _) _ _ => apply wp_check
  | |- wp (let _ := _ in _) _ _ => cbv zeta
  end.
Ltac wp_steps := repeat wp_step.

(** ** Kernel return codes (include/mach/kern_return.h) *)

Definition kern_return_t := N.
Definition KERN_SUCCESS : kern_return_t := 0%N.
Definition KERN_NO_SPACE : kern_return_t := 3%N.
Definition KERN_INVALID_ARGUMENT : kern_return_t := 4%N.
Definition KERN_RESOURCE_SHORTAGE : kern_return_t := 6%N.
Definition KERN_NOT_IN_SET : kern_return_t := 12%N.
Definition KERN_NAME_EXISTS : kern_return_t := 13%N.
Definition KERN_INVALID_NAME : kern_return_t := 15%N.
Definition KERN_INVALID_TASK : kern_return_t := 16%N.
Definition KERN_INVALID_RIGHT : kern_return_t := 17%N.
Definition KERN_INVALID_VALUE : kern_return_t := 18%N.
Definition KERN_UREFS_OVERFLOW : kern_return_t := 19%N.
Definition KERN_INVALID_CAPABILITY : kern_return_t := 20%N.
Definition KERN_RIGHT_EXISTS : kern_return_t := 21%N.

(** ** Machine words *)

Definition wrap (w : N) (x : N) : N := (x mod 2 ^ w)%N.
Definition u32 (x : N) : N := wrap 32 x.
Definition u64 (x : N) : N := wrap 64 x.
(** [a - b] on [unsigned int] and on [unsigned long]. *)
Definition u32_sub (a b : N) : N := u32 (a + (2 ^ 32 - u32 b)).
Definition u64_sub (a b : N) : N := u64 (a + (2 ^ 64 - u64 b)).

(** [bits & mask] as a condition. *)
Definition has (bits mask : N) : bool := negb (N.land bits mask =? 0)%N.

(** Pages of 4 kB (include/mach/vm_param.h, i386). *)
Definition PAGE_SIZE : N := 4096.
Definition PAGE_MASK : N := PAGE_SIZE - 1.
Definition round_page (x : N) : N := N.ldiff (u64 (x + PAGE_MASK)) PAGE_MASK.

(** ** Bits *)

Section Bits.
Local Open Scope N_scope.

Lemma land_pow2_testbit (x i : N) : negb (N.land x (N.shiftl 1 i) =? 0) = N.testbit x i.
Proof.
  destruct (N.eqb_spec (N.land x (N.shiftl 1 i)) 0) as [E|E]; simpl.
  - assert (N.testbit (N.land x (N.shiftl 1 i)) i = false) as Hb by (by rewrite E, N.bits_0).
    rewrite N.land_spec, N.shiftl_1_l, N.pow2_bits_true, andb_true_r in Hb. done.
  - destruct (N.testbit x i) eqn:Hx; [done|]. destruct E.
    apply N.bits_inj. intros j. rewrite N.land_spec, N.bits_0, N.shiftl_1_l.
    destruct (decide (j = i)) as [->|].
    + by rewrite Hx.
    + by rewrite N.pow2_bits_false, andb_false_r.
Qed.

Lemma lor_pow2_testbit (x i j : N) :
  N.testbit (N.lor x (N.shiftl 1 i)) j = if decide (i = j) then true else N.testbit x j.
Proof.
  rewrite N.lor_spec, N.shiftl_1_l. case_decide; subst.
  - by rewrite N.pow2_bits_true, orb_true_r.
  - by rewrite N.pow2_bits_false, orb_false_r.
Qed.

Lemma ldiff_pow2_testbit (x i j : N) :
  N.testbit (N.ldiff x (N.shiftl 1 i)) j = if decide (i = j) then false else N.testbit x j.
Proof.
  rewrite N.ldiff_spec, N.shiftl_1_l. case_decide; subst.
  - by rewrite N.pow2_bits_true, andb_false_r.
  - by rewrite N.pow2_bits_false, andb_true_r.
Qed.

Lemma bits_below_lt (x w : N) : (∀ j, w ≤ j → N.testbit x j = false) ↔ x < 2 ^ w.
Proof.
  split.
  - intros Hx. apply N.mod_small_iff; [lia|]. rewrite <- N.land_ones.
    apply N.bits_inj. intros j. rewrite N.land_spec.
    destruct (N.lt_ge_cases j w).
    + by rewrite N.ones_spec_low, andb_true_r.
    + by rewrite N.ones_spec_high, andb_false_r, Hx.
  - intros Hx j Hj. destruct (N.eq_dec x 0) as [->|]; [apply N.bits_0|].
    apply N.bits_above_log2. apply N.log2_lt_pow2 in Hx; lia.
Qed.

Lemma testbit_all_zero (x w : N) :
  x < 2 ^ w → (∀ j, j < w → N.testbit x j = false) → x = 0.
Proof.
  intros Hx Hj. apply N.bits_inj. intros j. rewrite N.bits_0.
  destruct (N.lt_ge_cases j w); [auto|]. by apply (bits_below_lt x w).
Qed.

Lemma testbit_all_ones (x w : N) :
  x < 2 ^ w → (∀ j, j < w → N.testbit x j = true) → x = N.ones w.
Proof.
  intros Hx Hj. apply N.bits_inj. intros j.
  destruct (N.lt_ge_cases j w).
  - by rewrite Hj, N.ones_spec_low.
  - rewrite N.ones_spec_high by done. by apply (bits_below_lt x w).
Qed.

(** A word below [2 ^ w] other than 0 has a set bit, one other than
    [2 ^ w - 1] a clear bit. *)
Lemma testbit_some_one (x w : N) : x < 2 ^ w → x ≠ 0 → ∃ j, j < w ∧ N.testbit x j = true.
Proof.
  intros Hx H0. exists (N.log2 x). split; [by apply N.log2_lt_pow2; [lia|]|].
  by apply N.bit_log2.
Qed.
End Bits.

(** ** Lists *)

(** Number of non-zero words. *)
Definition count_nz (l : list N) : nat := length (filter (λ e, e ≠ 0%N) l).

Section Lists.
Lemma count_nz_le l : count_nz l ≤ length l.
Proof. apply length_filter. Qed.

Lemma count_nz_app l k : count_nz (l ++ k) = count_nz l + count_nz k.
Proof. unfold count_nz. by rewrite list.filter_app, length_app. Qed.

Lemma count_nz_cons e l : count_nz (e :: l) = (if decide (e ≠ 0%N) then 1 else 0) + count_nz l.
Proof. unfold count_nz. rewrite filter_cons. by case_decide. Qed.

Lemma count_nz_insert l i e e' :
  l !! i = Some e →
  count_nz (<[i := e']> l) + (if decide (e ≠ 0%N) then 1 else 0) =
  count_nz l + (if decide (e' ≠ 0%N) then 1 else 0).
Proof.
  intros Hi. rewrite (insert_take_drop l i e' (lookup_lt_Some _ _ _ Hi)).
  rewrite <- (take_drop_middle l i e Hi) at 3.
  rewrite !count_nz_app, !count_nz_cons. lia.
Qed.

Lemma count_nz_zero l : count_nz l = 0 ↔ ∀ i e, l !! i = Some e → e = 0%N.
Proof.
  induction l as [|x l IH]; [done|]. rewrite count_nz_cons. case_decide as Hx.
  - split; [lia|]. intros Hl. destruct Hx. by apply (Hl 0).
  - split.
    + intros Heq [|i] e; simpl; [|by apply IH].
      by intros [= <-].
    + intros Hl. apply IH. intros i e. apply (Hl (S i)).
Qed.

Lemma count_nz_full l : count_nz l = length l ↔ ∀ i e, l !! i = Some e → e ≠ 0%N.
Proof.
  induction l as [|x l IH]; [done|]. rewrite count_nz_cons. simpl.
  pose proof (count_nz_le l). case_decide as Hx.
  - split.
    + intros Heq. assert (count_nz l = length l) as Hl by lia.
      intros [|i] e; simpl; [by intros [= <-]|]. by apply IH.
    + intros Hl. rewrite (proj2 IH); [done|]. intros i e. apply (Hl (S i)).
  - split; [lia|]. intros Hl. by destruct (Hl 0 x).
Qed.

Lemma count_nz_not_full l : count_nz l ≠ length l → ∃ i, l !! i = Some 0%N.
Proof.
  induction l as [|x l IH]; [done|]. rewrite count_nz_cons. simpl. case_decide as Hx.
  - intros Hne. destruct IH as [i Hi]; [lia|]. by exists (S i).
  - intros _. exists 0. by rewrite Hx.
Qed.

Lemma count_nz_replicate n : count_nz (replicate n 0%N) = 0.
Proof. apply count_nz_zero. intros i e [-> _]%lookup_replicate. done. Qed.
End Lists.

(** ** Counting in finite maps *)

Section Counting.
#[local] Open Scope N_scope.

Definition Nb (b : bool) : N := if b then 1 else 0.

Section Count.
Context {A : Type} (P : A → bool).

Definition count (m : gmap N A) : N := N.of_nat (size (filter (λ x : N * A, P x.2 = true) m)).

Lemma count_empty : count ∅ = 0.
Proof. unfold count. by rewrite map_filter_empty, map_size_empty. Qed.

Lemma count_fresh m i x : m !! i = None → count (<[i := x]> m) = count m + Nb (P x).
Proof.
  intros Hi. unfold count. destruct (P x) eqn:HP; cbn [Nb].
  - rewrite map_filter_insert_True by done.
    rewrite map_size_insert_None; [lia|]. apply map_lookup_filter_None. by left.
  - rewrite map_filter_insert_False by (cbn; congruence). rewrite delete_id by done. lia.
Qed.

Lemma count_delete m i x : m !! i = Some x → count (delete i m) + Nb (P x) = count m.
Proof.
  intros Hi. rewrite <- (count_fresh _ i) by apply lookup_delete_eq. by rewrite insert_delete_id.
Qed.

Lemma count_update m i x y :
  m !! i = Some x → count (<[i := y]> m) + Nb (P x) = count m + Nb (P y).
Proof.
  intros Hi. rewrite <- insert_delete_eq, (count_fresh _ i) by apply lookup_delete_eq.
  pose proof (count_delete m i x Hi). lia.
Qed.

Lemma count_pos m i x : m !! i = Some x → P x = true → 0 < count m.
Proof. intros Hi HP. pose proof (count_delete m i x Hi). rewrite HP in *. cbn [Nb] in *. lia. Qed.

Lemma count_zero m : count m = 0 ↔ ∀ i x, m !! i = Some x → P x = false.
Proof.
  split.
  - intros H0 i x Hi. destruct (P x) eqn:HP; [|done]. pose proof (count_pos m i x Hi HP). lia.
  - intros Hm. unfold count. replace (filter (λ x : N * A, P x.2 = true) m) with (∅ : gmap N A); [done|].
    symmetry. apply map_empty. intros i. apply map_lookup_filter_None. right.
    intros x Hi. cbn. by rewrite (Hm i x Hi).
Qed.

(** Two elements are two. *)
Lemma count_two m i j x y :
  m !! i = Some x → m !! j = Some y → i ≠ j → P x = true → P y = true → 2 ≤ count m.
Proof.
  intros Hi Hj Hij Hx Hy. pose proof (count_delete m i x Hi) as E. rewrite Hx in E. cbn [Nb] in E.
  assert (delete i m !! j = Some y) as Hj' by (by rewrite lookup_delete_ne).
  pose proof (count_pos _ j y Hj' Hy). lia.
Qed.

Lemma count_some m : 0 < count m → ∃ i x, m !! i = Some x ∧ P x = true.
Proof.
  intros Hc. destruct (decide (map_Exists (λ _ x, P x = true) m)) as [(i & x & ? & ?)|Hn]; [by eauto|].
  rewrite (proj2 (count_zero m)) in Hc; [lia|]. intros i x Hi. destruct (P x) eqn:HP; [|done].
  destruct Hn. by exists i, x.
Qed.
End Count.

Lemma count_ext {A} (P Q : A → bool) m : (∀ i x, m !! i = Some x → P x = Q x) → count P m = count Q m.
Proof.
  intros HPQ. unfold count. do 2 f_equal. apply map_filter_ext. intros i x Hi. cbn. by rewrite (HPQ i x Hi).
Qed.

Lemma count_mono {A} (P Q : A → bool) m :
  (∀ i x, m !! i = Some x → P x = true → Q x = true) → count P m ≤ count Q m.
Proof.
  intros HPQ. unfold count. assert (filter (λ x : N * A, P x.2 = true) m ⊆ filter (λ x : N * A, Q x.2 = true) m) as Hsub.
  { apply map_filter_subseteq_ext. intros i x Hi. by apply HPQ with i. }
  apply map_subseteq_size in Hsub. lia.
Qed.

(** Counting sees only the elements that satisfy the predicate. *)
Lemma count_sub {A} (P : A → bool) m m' :
  (∀ i x, m !! i = Some x → P x = true → ∃ y, m' !! i = Some y ∧ P y = true) → count P m ≤ count P m'.
Proof.
  intros Hm. unfold count. rewrite <- !size_dom.
  assert (dom (filter (λ x : N * A, P x.2 = true) m) ⊆ dom (filter (λ x : N * A, P x.2 = true) m')) as Hsub%subseteq_size.
  { intros i. rewrite !elem_of_dom. intros [x [Hx HP]%map_lookup_filter_Some].
    destruct (Hm i x Hx HP) as (y & Hy & HPy). exists y. by apply map_lookup_filter_Some. }
  lia.
Qed.

(** The sum of a number of every element. *)
Definition total {A} (f : A → N) (m : gmap N A) : N := map_fold (λ _ x acc, f x + acc) 0 m.

Lemma total_fresh {A} (f : A → N) m i x : m !! i = None → total f (<[i := x]> m) = f x + total f m.
Proof. intros Hi. unfold total. apply (map_fold_insert_L (λ _ y acc, f y + acc)); [lia|done]. Qed.

Lemma total_update {A} (f : A → N) m i x y : m !! i = Some x → total f (<[i := y]> m) + f x = total f m + f y.
Proof.
  intros Hi. rewrite <- insert_delete_eq, total_fresh by apply lookup_delete_eq.
  rewrite <- (insert_delete_id m i x Hi) at 2. rewrite total_fresh by apply lookup_delete_eq. lia.
Qed.

Lemma total_elem {A} (f : A → N) m i x : m !! i = Some x → f x ≤ total f m.
Proof. intros Hi. rewrite <- (insert_delete_id m i x Hi). rewrite total_fresh by apply lookup_delete_eq. lia. Qed.

Lemma total_two {A} (f : A → N) m i j x y : m !! i = Some x → m !! j = Some y → i ≠ j → f x + f y ≤ total f m.
Proof.
  intros Hi Hj Hne. rewrite <- (insert_delete_id m i x Hi). rewrite total_fresh by apply lookup_delete_eq.
  pose proof (total_elem f (delete i m) j y). rewrite lookup_delete_ne in * by done. specialize (H Hj). lia.
Qed.

Lemma total_fmap {A} (f : A → N) (g : A → A) m : (∀ x, f (g x) = f x) → total f (g <$> m) = total f m.
Proof.
  intros Hg. induction m as [|i x m Hi IH] using map_ind; [by rewrite fmap_empty|].
  rewrite fmap_insert, !total_fresh by (try done; by rewrite lookup_fmap, Hi). by rewrite Hg, IH.
Qed.

Lemma count_fmap {A} (P : A → bool) (g : A → A) m : (∀ x, P (g x) = P x) → count P (g <$> m) = count P m.
Proof.
  intros Hg. induction m as [|i x m Hi IH] using map_ind; [by rewrite fmap_empty|].
  rewrite fmap_insert, !count_fresh by (try done; by rewrite lookup_fmap, Hi). by rewrite Hg, IH.
Qed.

Lemma total_zero {A} (f : A → N) m : (∀ i x, m !! i = Some x → f x = 0) → total f m = 0.
Proof.
  induction m as [|i x m Hi IH] using map_ind; [done|]. intros Hm. rewrite total_fresh by done.
  rewrite (Hm i x), IH; [done| |by rewrite lookup_insert_eq]. intros j y Hj. apply (Hm j). rewrite lookup_insert_ne; congruence.
Qed.

Lemma total_nonzero {A} (f : A → N) m : total f m ≠ 0 → ∃ i x, m !! i = Some x ∧ f x ≠ 0.
Proof.
  induction m as [|i x m Hi IH] using map_ind; [done|]. rewrite total_fresh by done. intros Hn.
  destruct (decide (f x = 0)) as [H0|H0]; [|exists i, x; by rewrite lookup_insert_eq].
  destruct IH as (j & y & Hj & Hy); [lia|]. exists j, y. rewrite lookup_insert_ne by congruence. done.
Qed.

(** Different elements of a list that satisfy a predicate in a map. *)
Lemma NoDup_below (l : list N) k : NoDup l → (∀ x, x ∈ l → x < k) → N.of_nat (length l) ≤ k.
Proof.
  intros Hnd Hl. assert ((N.to_nat <$> l) ⊆+ seq 0 (N.to_nat k)) as Hs%submseteq_length.
  { apply NoDup_submseteq; [by apply (NoDup_fmap_2 N.to_nat)|]. intros i (x & -> & Hx%Hl)%list_elem_of_fmap. apply elem_of_seq. lia. }
  rewrite length_fmap, length_seq in Hs. lia.
Qed.

Lemma count_at_least {A} (P : A → bool) (m : gmap N A) (l : list N) :
  NoDup l → (∀ x, x ∈ l → ∃ s, m !! x = Some s ∧ P s = true) → N.of_nat (length l) ≤ count P m.
Proof.
  intros Hnd Hl. unfold count. rewrite <- size_dom, <- (size_list_to_set (C := gset N) l) by done.
  assert (list_to_set (C := gset N) l ⊆ dom (filter (λ x : N * A, P x.2 = true) m)) as Hs%subseteq_size; [|lia].
  intros x [s [Hs HP]]%elem_of_list_to_set%Hl. apply elem_of_dom. exists s. by apply map_lookup_filter_Some.
Qed.

End Counting.
