(* ===== verification/Kmem.v ===== *)
(** The object-cache interface of the kernel ([kmem_cache_alloc] and
    [kmem_cache_free]) as the data structures use it: what a client may rely
    on, stated as a class, and a free-list cache that meets it.  The slab
    allocator meets it as well ([SlabRdxtree]). *)

From S2P Require Import Prelude.

Open Scope N_scope.

(** Objects are identified by their address.  [km_live] is the set of
    addresses handed out and not yet given back.  An allocation either fails
    ([None], a null pointer in C) or returns an address that is not in use, is
    not null and is aligned on eight bytes. *)
Class KmemCache (C : Type) := {
  kmem_cache_alloc : C → option N * C;
  kmem_cache_free : C → N → C;
  km_live : C → gset N;
  kmem_alloc_some c a c' :
    kmem_cache_alloc c = (Some a, c') →
    a ∉ km_live c ∧ a ≠ 0 ∧ N.land a 7 = 0 ∧ km_live c' = {[a]} ∪ km_live c;
  kmem_alloc_none c c' :
    kmem_cache_alloc c = (None, c') → km_live c' = km_live c;
  kmem_free_live c a :
    a ∈ km_live c → km_live (kmem_cache_free c a) = km_live c ∖ {[a]};
}.

(** A cache over a fixed pool of [fl_size] slots of [2 ^ 10] bytes: [fl_free]
    lists the free slot numbers. *)
Record free_list := FreeList {
  fl_free : list N;
  fl_used : gset N;
}.

Definition slot_addr (i : N) : N := N.shiftl (i + 1) 10.
Definition addr_slot (a : N) : N := N.pred (N.shiftr a 10).

Definition fl_alloc (c : free_list) : option N * free_list :=
  match fl_free c with
  | [] => (None, c)
  | i :: r =>
      let a := slot_addr i in
      if decide (a ∈ fl_used c) then (None, FreeList r (fl_used c))
      else (Some a, FreeList r ({[a]} ∪ fl_used c))
  end.

Definition fl_release (c : free_list) (a : N) : free_list :=
  FreeList (addr_slot a :: fl_free c) (fl_used c ∖ {[a]}).

(** The pool with [n] free slots. *)
Definition fl_init (n : nat) : free_list := FreeList (N.of_nat <$> seq 0 n) ∅.

Lemma slot_addr_ok i : slot_addr i ≠ 0 ∧ N.land (slot_addr i) 7 = 0.
Proof.
  unfold slot_addr. split.
  - rewrite N.shiftl_mul_pow2. lia.
  - change 7 with (N.ones 3). rewrite N.land_ones, N.shiftl_mul_pow2.
    replace ((i + 1) * 2 ^ 10) with ((i + 1) * 2 ^ 7 * 2 ^ 3) by lia.
    by apply N.Div0.mod_mul.
Qed.

#[export] Program Instance free_list_cache : KmemCache free_list := {|
  kmem_cache_alloc := fl_alloc;
  kmem_cache_free := fl_release;
  km_live := fl_used;
|}.
Next Obligation.
  intros c a c'. unfold fl_alloc. destruct (fl_free c) as [|i r]; [done|].
  case_decide; intros [= <- <-]. destruct (slot_addr_ok i). done.
Qed.
Next Obligation.
  intros c c'. unfold fl_alloc. destruct (fl_free c) as [|i r]; [by intros [= <-]|].
  case_decide; by intros [= <-].
Qed.
Next Obligation. done. Qed.
