(* ===== verification/Rdxtree.v ===== *)
(** The radix tree of kern/rdxtree.c, which maps port names to capability
    entries in every IPC space.

    The model keeps the C representation: nodes live in a heap indexed by
    address, entries are machine words whose low bit tells a node from a stored
    pointer, every node has a parent pointer, an entry count and an allocation
    bitmap.  Keys are 32-bit: the build defines RDXTREE_KEY_32. *)

From S2P Require Import Prelude Kmem.

Open Scope N_scope.

(** ** Constants *)

Definition ERR_SUCCESS : N := KERN_SUCCESS.
Definition ERR_BUSY : N := KERN_INVALID_ARGUMENT.
Definition ERR_NOMEM : N := KERN_RESOURCE_SHORTAGE.

Definition RDXTREE_RADIX : N := 6.
Definition RDXTREE_RADIX_SIZE : N := N.shiftl 1 RDXTREE_RADIX.
Definition RDXTREE_RADIX_MASK : N := RDXTREE_RADIX_SIZE - 1.
(** [rdxtree_bm_t] is [unsigned long long]. *)
Definition RDXTREE_BM_SIZE : N := 64.
Definition RDXTREE_BM_EMPTY : N := 0.
Definition RDXTREE_BM_FULL : N :=
  N.shiftr (N.ones RDXTREE_BM_SIZE) (RDXTREE_BM_SIZE - RDXTREE_RADIX_SIZE).
(** Width of [rdxtree_key_t]. *)
Definition KEY_BITS : N := 32.
Definition key_wrap (k : N) : N := wrap KEY_BITS k.

(** ** Data *)

Record rdxtree_node := RNode {
  parent : N;
  index : N;
  node_height : N;
  nr_entries : N;
  alloc_bm : N;
  entries : list N;
}.

Record rdxtree := RTree {
  height : N;
  root : N;
}.

(** The tree descriptor, the nodes and the node cache. *)
Record store (C : Type) := Store {
  tree : rdxtree;
  nodes : gmap N rdxtree_node;
  cache : C;
}.
Arguments Store {C} _ _ _.
Arguments tree {C} _.
Arguments nodes {C} _.
Arguments cache {C} _.

(** [void **]: the address of a stored pointer. *)
Inductive slot :=
  | slot_root
  | slot_entry (node i : N).

Record rdxtree_iter := RIter {
  iter_node : N;
  iter_key : N;
}.

(** ** Tagged entries *)

(** [x & RDXTREE_ENTRY_ADDR_MASK], the mask being [~0x3UL]. *)
Definition rdxtree_entry_addr (entry : N) : N := N.ldiff entry 3.
Definition rdxtree_check_alignment (ptr : N) : bool := N.land ptr 3 =? 0.
Definition rdxtree_entry_is_node (entry : N) : bool := negb (N.land entry 1 =? 0).
Definition rdxtree_node_to_entry (node : N) : N := N.lor node 1.

Definition rdxtree_max_key (h : N) : N :=
  let shift := RDXTREE_RADIX * h in
  if shift <? KEY_BITS then N.shiftl 1 shift - 1 else N.ones KEY_BITS.

(** [(unsigned int)(key >> shift) & RDXTREE_RADIX_MASK]. *)
Definition key_index (key shift : N) : N := N.land (N.shiftr key shift) RDXTREE_RADIX_MASK.

(** [__builtin_ffsll(x) - 1]; [None] is the unsigned wrap of [-1]. *)
Fixpoint pos_ctz (p : positive) : N :=
  match p with
  | (q~0)%positive => N.succ (pos_ctz q)
  | _ => 0
  end.
Definition rdxtree_ffs_pred (x : N) : option N :=
  match x with 0 => None | N.pos p => Some (pos_ctz p) end.

(** ** Nodes *)

(** Field updates. *)
Definition node_set_parent (p : N) (n : rdxtree_node) : rdxtree_node :=
  RNode p (index n) (node_height n) (nr_entries n) (alloc_bm n) (entries n).
Definition node_set_link (p i : N) (n : rdxtree_node) : rdxtree_node :=
  RNode p i (node_height n) (nr_entries n) (alloc_bm n) (entries n).
Definition node_set_bm (bm : N) (n : rdxtree_node) : rdxtree_node :=
  RNode (parent n) (index n) (node_height n) (nr_entries n) bm (entries n).
Definition node_set_entry (nr i e : N) (n : rdxtree_node) : rdxtree_node :=
  RNode (parent n) (index n) (node_height n) nr (alloc_bm n)
    (<[N.to_nat i := e]> (entries n)).

Definition bm_bit_set (bm i : N) : N := N.lor bm (N.shiftl 1 i).
Definition bm_bit_clear (bm i : N) : N := N.ldiff bm (N.shiftl 1 i).
Definition rdxtree_node_full (n : rdxtree_node) : bool := nr_entries n =? RDXTREE_RADIX_SIZE.
Definition rdxtree_node_empty (n : rdxtree_node) : bool := nr_entries n =? 0.
Definition rdxtree_node_bm_is_set (n : rdxtree_node) (i : N) : bool :=
  negb (N.land (alloc_bm n) (N.shiftl 1 i) =? 0).
Definition rdxtree_node_bm_empty (n : rdxtree_node) : bool := alloc_bm n =? RDXTREE_BM_EMPTY.
Definition rdxtree_node_bm_first (n : rdxtree_node) : option N := rdxtree_ffs_pred (alloc_bm n).

(** The loop of [rdxtree_node_find]: the first non-null entry at or after
    [i]. *)
Fixpoint node_find_from (l : list N) (i : N) : option (N * N) :=
  match l with
  | [] => None
  | e :: r =>
      let ptr := rdxtree_entry_addr e in
      if ptr =? 0 then node_find_from r (i + 1) else Some (ptr, i)
  end.
Definition rdxtree_node_find (n : rdxtree_node) (i : N) : option (N * N) :=
  node_find_from (drop (N.to_nat i) (entries n)) i.

Section Operations.
Context {C : Type} `{!KmemCache C}.
(** Content of the [index] field of a node fresh out of the cache, which
    [rdxtree_node_create] does not initialise. *)
Context (garbage : N).

#[local] Abbreviation R := (M (store C)).

(** *** Memory *)

Definition load (a : N) : R rdxtree_node := s ← get; deref (nodes s !! a).

Definition update (a : N) (f : rdxtree_node → rdxtree_node) : R unit :=
  s ← get;
  n ← deref (nodes s !! a);
  put (Store (tree s) (<[a := f n]> (nodes s)) (cache s)).

Definition get_tree : R rdxtree := s ← get; mret (tree s).
Definition set_root (r : N) : R unit :=
  modify (λ s, Store (RTree (height (tree s)) r) (nodes s) (cache s)).
Definition set_height (h : N) : R unit :=
  modify (λ s, Store (RTree h (root (tree s))) (nodes s) (cache s)).

Definition entry_at (n : rdxtree_node) (i : N) : R N := deref (entries n !! N.to_nat i).

Definition rdxtree_init : R unit :=
  modify (λ s, Store (RTree 0 0) (nodes s) (cache s)).

(** [None] is ERR_NOMEM. *)
Definition rdxtree_node_create (h : N) : R (option N) :=
  s ← get;
  match kmem_cache_alloc (cache s) with
  | (None, c) => put (Store (tree s) (nodes s) c);; mret None
  | (Some a, c) =>
      check (rdxtree_check_alignment a);;
      let n := RNode 0 garbage h 0 RDXTREE_BM_FULL
                 (replicate (N.to_nat RDXTREE_RADIX_SIZE) 0) in
      put (Store (tree s) (<[a := n]> (nodes s)) c);;
      mret (Some a)
  end.

Definition rdxtree_node_schedule_destruction (node : N) : R unit :=
  s ← get;
  _ ← deref (nodes s !! node);
  put (Store (tree s) (delete node (nodes s)) (kmem_cache_free (cache s) node)).

Definition rdxtree_node_link (node par i : N) : R unit := update node (node_set_link par i).

Definition rdxtree_node_unlink (node : N) : R unit :=
  n ← load node;
  check (negb (parent n =? 0));;
  update node (node_set_parent 0).

Definition rdxtree_node_insert (node i entry : N) : R unit :=
  n ← load node;
  check (i <? RDXTREE_RADIX_SIZE);;
  old ← entry_at n i;
  check (old =? 0);;
  update node (node_set_entry (nr_entries n + 1) i entry).

Definition rdxtree_node_insert_node (node i child : N) : R unit :=
  rdxtree_node_insert node i (rdxtree_node_to_entry child).

Definition rdxtree_node_remove (node i : N) : R unit :=
  n ← load node;
  check (i <? RDXTREE_RADIX_SIZE);;
  old ← entry_at n i;
  check (negb (old =? 0));;
  update node (node_set_entry (nr_entries n - 1) i 0).

Definition rdxtree_node_bm_set (node i : N) : R unit :=
  update node (λ n, node_set_bm (bm_bit_set (alloc_bm n) i) n).
Definition rdxtree_node_bm_clear (node i : N) : R unit :=
  update node (λ n, node_set_bm (bm_bit_clear (alloc_bm n) i) n).

(** *** Resizing

    Loops over the levels of the tree take a fuel; running out of it is going
    wrong, so the theorems below also show that it is enough. *)

Fixpoint rdxtree_shrink_loop (fuel : nat) : R unit :=
  match fuel with
  | O => wrong
  | S fuel =>
      t ← get_tree;
      if height t =? 0 then mret tt else
      let node := rdxtree_entry_addr (root t) in
      n ← load node;
      if negb (nr_entries n =? 1) then mret tt else
      entry ← entry_at n 0;
      if entry =? 0 then mret tt else
      set_height (height t - 1);;
      (if 0 <? height t - 1 then rdxtree_node_unlink (rdxtree_entry_addr entry)
       else mret tt);;
      set_root entry;;
      rdxtree_node_schedule_destruction node;;
      rdxtree_shrink_loop fuel
  end.
Definition rdxtree_shrink : R unit :=
  t ← get_tree; rdxtree_shrink_loop (S (N.to_nat (height t))).

(** [while (key > rdxtree_max_key(new_height)) new_height++]. *)
Fixpoint grow_height (fuel : nat) (key new_height : N) : option N :=
  match fuel with
  | O => None
  | S fuel =>
      if rdxtree_max_key new_height <? key then grow_height fuel key (new_height + 1)
      else Some new_height
  end.
(** Levels needed for the widest key, and one more for the last test. *)
Definition grow_fuel : nat := 7.

Fixpoint rdxtree_grow_loop (fuel : nat) (new_height rt : N) : R N :=
  match fuel with
  | O => wrong
  | S fuel =>
      t ← get_tree;
      r ← rdxtree_node_create (height t);
      match r with
      | None => rdxtree_shrink;; mret ERR_NOMEM
      | Some node =>
          (if height t =? 0 then rdxtree_node_bm_clear node 0
           else
             rdxtree_node_link rt node 0;;
             n ← load rt;
             if rdxtree_node_bm_empty n then rdxtree_node_bm_clear node 0 else mret tt);;
          rdxtree_node_insert node 0 (root t);;
          set_height (height t + 1);;
          set_root (rdxtree_node_to_entry node);;
          if height t + 1 <? new_height then rdxtree_grow_loop fuel new_height node
          else mret ERR_SUCCESS
      end
  end.

Definition rdxtree_grow (key : N) : R N :=
  t ← get_tree;
  new_height ← deref (grow_height grow_fuel key (height t + 1));
  if root t =? 0 then set_height new_height;; mret ERR_SUCCESS
  else rdxtree_grow_loop (N.to_nat new_height) new_height (rdxtree_entry_addr (root t)).

Fixpoint rdxtree_cleanup_loop (fuel : nat) (node : N) : R unit :=
  match fuel with
  | O => wrong
  | S fuel =>
      n ← load node;
      if negb (rdxtree_node_empty n) then
        if parent n =? 0 then rdxtree_shrink else mret tt
      else if parent n =? 0 then
        set_height 0;; set_root 0;; rdxtree_node_schedule_destruction node
      else
        let up := parent n in
        rdxtree_node_unlink node;;
        rdxtree_node_remove up (index n);;
        rdxtree_node_schedule_destruction node;;
        rdxtree_cleanup_loop fuel up
  end.
Definition rdxtree_cleanup (node : N) : R unit :=
  t ← get_tree; rdxtree_cleanup_loop (N.to_nat (height t)) node.

(** *** Insertion *)

Fixpoint rdxtree_insert_bm_clear_loop (fuel : nat) (node i : N) : R unit :=
  match fuel with
  | O => wrong
  | S fuel =>
      rdxtree_node_bm_clear node i;;
      n ← load node;
      if negb (rdxtree_node_full n) || (parent n =? 0) then mret tt
      else rdxtree_insert_bm_clear_loop fuel (parent n) (index n)
  end.
Definition rdxtree_insert_bm_clear (node i : N) : R unit :=
  t ← get_tree; rdxtree_insert_bm_clear_loop (N.to_nat (height t)) node i.

(** The descent of [rdxtree_insert_common]: [inl err] is an early return,
    [inr (prev, index, node)] the state after the loop. *)
Fixpoint insert_descend (levels : nat) (key ht shift node prev i : N)
    : R (N + N * N * N) :=
  match levels with
  | O => mret (inr (prev, i, node))
  | S levels =>
      r ← (if node =? 0 then
             c ← rdxtree_node_create (ht - 1);
             match c with
             | None =>
                 (if prev =? 0 then set_height 0 else rdxtree_cleanup prev);;
                 mret None
             | Some node =>
                 (if prev =? 0 then set_root (rdxtree_node_to_entry node)
                  else
                    rdxtree_node_link node prev i;;
                    rdxtree_node_insert_node prev i node);;
                 mret (Some node)
             end
           else mret (Some node));
      match r with
      | None => mret (inl ERR_NOMEM)
      | Some node =>
          let prev := node in
          let i := key_index key shift in
          n ← load prev;
          e ← entry_at n i;
          insert_descend levels key (ht - 1) (u32_sub shift RDXTREE_RADIX)
            (rdxtree_entry_addr e) prev i
      end
  end.

Definition rdxtree_insert_common (key ptr : N) : R (N * option slot) :=
  check (negb (ptr =? 0));;
  check (rdxtree_check_alignment ptr);;
  t ← get_tree;
  error ← (if rdxtree_max_key (height t) <? key then rdxtree_grow key else mret ERR_SUCCESS);
  if negb (error =? 0) then mret (error, None) else
  t ← get_tree;
  let ht := height t in
  if ht =? 0 then
    if negb (root t =? 0) then mret (ERR_BUSY, None)
    else set_root ptr;; mret (ERR_SUCCESS, Some slot_root)
  else
    r ← insert_descend (N.to_nat ht) key ht ((ht - 1) * RDXTREE_RADIX)
          (rdxtree_entry_addr (root t)) 0 0;
    match r with
    | inl error => mret (error, None)
    | inr (prev, i, node) =>
        if negb (node =? 0) then mret (ERR_BUSY, None)
        else
          rdxtree_node_insert prev i ptr;;
          rdxtree_insert_bm_clear prev i;;
          mret (ERR_SUCCESS, Some (slot_entry prev i))
    end.

(** The descent of [rdxtree_insert_alloc_common].  [alloc_grow] carries the
    local [height] at the [goto grow]. *)
Inductive alloc_result :=
  | alloc_error (e : N)
  | alloc_grow (ht : N)
  | alloc_found (prev i key : N).

Fixpoint insert_alloc_descend (levels : nat) (ht shift key node prev i : N)
    : R alloc_result :=
  match levels with
  | O => mret (alloc_found prev i key)
  | S levels =>
      r ← (if node =? 0 then
             c ← rdxtree_node_create (ht - 1);
             match c with
             | None => rdxtree_cleanup prev;; mret None
             | Some node =>
                 (rdxtree_node_link node prev i;;
                  rdxtree_node_insert_node prev i node);;
                 mret (Some node)
             end
           else mret (Some node));
      match r with
      | None => mret (alloc_error ERR_NOMEM)
      | Some node =>
          n ← load node;
          match rdxtree_node_bm_first n with
          | None => mret (alloc_grow ht)
          | Some i =>
              e ← entry_at n i;
              insert_alloc_descend levels (ht - 1) (u32_sub shift RDXTREE_RADIX)
                (N.lor key (key_wrap (N.shiftl i shift)))
                (rdxtree_entry_addr e) node i
          end
      end
  end.

Definition rdxtree_insert_alloc_grow (ht ptr : N) : R (N * option (N * slot)) :=
  let key := key_wrap (rdxtree_max_key ht + 1) in
  '(error, sl) ← rdxtree_insert_common key ptr;
  match sl with
  | Some sl => mret (error, Some (key, sl))
  | None => mret (error, None)
  end.

Definition rdxtree_insert_alloc_common (ptr : N) : R (N * option (N * slot)) :=
  check (negb (ptr =? 0));;
  check (rdxtree_check_alignment ptr);;
  t ← get_tree;
  let ht := height t in
  if ht =? 0 then
    if root t =? 0 then set_root ptr;; mret (ERR_SUCCESS, Some (0, slot_root))
    else rdxtree_insert_alloc_grow ht ptr
  else
    r ← insert_alloc_descend (N.to_nat ht) ht ((ht - 1) * RDXTREE_RADIX) 0
          (rdxtree_entry_addr (root t)) 0 0;
    match r with
    | alloc_error error => mret (error, None)
    | alloc_grow ht => rdxtree_insert_alloc_grow ht ptr
    | alloc_found prev i key =>
        rdxtree_node_insert prev i ptr;;
        rdxtree_insert_bm_clear prev i;;
        mret (ERR_SUCCESS, Some (key, slot_entry prev i))
    end.

(** *** Removal *)

Fixpoint rdxtree_remove_bm_set_loop (fuel : nat) (node i : N) : R unit :=
  match fuel with
  | O => wrong
  | S fuel =>
      rdxtree_node_bm_set node i;;
      n ← load node;
      if parent n =? 0 then mret tt
      else
        p ← load (parent n);
        if rdxtree_node_bm_is_set p (index n) then mret tt
        else rdxtree_remove_bm_set_loop fuel (parent n) (index n)
  end.
Definition rdxtree_remove_bm_set (node i : N) : R unit :=
  t ← get_tree; rdxtree_remove_bm_set_loop (N.to_nat (height t)) node i.

(** The descent shared by [rdxtree_remove] and [rdxtree_lookup_common]:
    [None] when a node on the path is missing. *)
Fixpoint descend (levels : nat) (key shift node prev i : N) : R (option (N * N * N)) :=
  match levels with
  | O => mret (Some (prev, i, node))
  | S levels =>
      if node =? 0 then mret None
      else
        n ← load node;
        let i := key_index key shift in
        e ← entry_at n i;
        descend levels key (u32_sub shift RDXTREE_RADIX) (rdxtree_entry_addr e) node i
  end.

(** The removed pointer, or 0. *)
Definition rdxtree_remove (key : N) : R N :=
  t ← get_tree;
  let ht := height t in
  if rdxtree_max_key ht <? key then mret 0 else
  let node := rdxtree_entry_addr (root t) in
  if ht =? 0 then set_root 0;; mret node
  else
    r ← descend (N.to_nat ht) key ((ht - 1) * RDXTREE_RADIX) node 0 0;
    match r with
    | None => mret 0
    | Some (prev, i, node) =>
        if node =? 0 then mret 0
        else
          rdxtree_node_remove prev i;;
          rdxtree_remove_bm_set prev i;;
          rdxtree_cleanup prev;;
          mret node
    end.

(** *** Lookup *)

Definition rdxtree_lookup_common (key : N) : R (option (N * slot)) :=
  t ← get_tree;
  let entry := root t in
  let node := if entry =? 0 then 0 else rdxtree_entry_addr entry in
  ht ← (if entry =? 0 then mret 0
        else if rdxtree_entry_is_node entry then n ← load node; mret (node_height n + 1)
        else mret 0);
  if rdxtree_max_key ht <? key then mret None
  else if ht =? 0 then
    if node =? 0 then mret None else mret (Some (node, slot_root))
  else
    r ← descend (N.to_nat ht) key ((ht - 1) * RDXTREE_RADIX) node 0 0;
    match r with
    | None => mret None
    | Some (prev, i, node) =>
        if node =? 0 then mret None else mret (Some (node, slot_entry prev i))
    end.

(** [get_slot = 0]: the pointer, or 0. *)
Definition rdxtree_lookup (key : N) : R N :=
  r ← rdxtree_lookup_common key;
  mret (match r with Some (p, _) => p | None => 0 end).

(** [get_slot = 1]. *)
Definition rdxtree_lookup_slot (key : N) : R (option slot) :=
  r ← rdxtree_lookup_common key;
  mret (snd <$> r).

Definition rdxtree_insert (key ptr : N) : R N :=
  '(error, _) ← rdxtree_insert_common key ptr; mret error.

Definition rdxtree_insert_alloc (ptr : N) : R (N * option N) :=
  '(error, r) ← rdxtree_insert_alloc_common ptr; mret (error, fst <$> r).

Definition slot_read (sl : slot) : R N :=
  match sl with
  | slot_root => t ← get_tree; mret (root t)
  | slot_entry a i => n ← load a; entry_at n i
  end.
Definition slot_write (sl : slot) (v : N) : R unit :=
  match sl with
  | slot_root => set_root v
  | slot_entry a i => update a (λ n, node_set_entry (nr_entries n) i v n)
  end.

Definition rdxtree_replace_slot (sl : slot) (ptr : N) : R N :=
  check (negb (ptr =? 0));;
  check (rdxtree_check_alignment ptr);;
  old ← slot_read sl;
  check (negb (old =? 0));;
  check (rdxtree_check_alignment old);;
  slot_write sl ptr;;
  mret old.
End Operations.
