(* ===== verification/RdxtreeInv.v ===== *)
(** The shape invariant of the radix tree and the store transformations that
    keep it: linking and removing a node, storing and removing a pointer,
    flipping an allocation bit, adding and removing a level.

    Every node is given a ghost position [(h, p)]: its height and the key
    prefix it covers.  The invariant relates each node to its entries, its
    parent and its allocation bitmap; two holes, used only while an operation is
    in progress, exempt one node from being non-empty and one bit from being up
    to date. *)

From S2P Require Import Prelude Kmem Rdxtree.

Open Scope N_scope.

(** ** Words and keys *)

Definition aligned (a : N) : Prop := N.land a 3 = 0.

Lemma check_alignment_true a : rdxtree_check_alignment a = true ↔ aligned a.
Proof. apply N.eqb_eq. Qed.

Lemma aligned_bits a : aligned a ↔ ∀ i, i < 2 → N.testbit a i = false.
Proof.
  unfold aligned. change 3 with (N.ones 2). split.
  - intros Ha i Hi. assert (N.testbit (N.land a (N.ones 2)) i = false) as Hb
      by (by rewrite Ha, N.bits_0).
    by rewrite N.land_spec, N.ones_spec_low, andb_true_r in Hb.
  - intros Ha. apply N.bits_inj. intros i. rewrite N.land_spec, N.bits_0.
    destruct (N.lt_ge_cases i 2).
    + by rewrite Ha.
    + by rewrite N.ones_spec_high, andb_false_r.
Qed.

Lemma aligned_8 a : N.land a 7 = 0 → aligned a.
Proof.
  intros Ha. unfold aligned. replace 3 with (N.land 7 3) by done.
  by rewrite N.land_assoc, Ha.
Qed.

Lemma entry_addr_aligned a : aligned a → rdxtree_entry_addr a = a.
Proof.
  intros Ha. apply N.bits_inj. intros i. unfold rdxtree_entry_addr.
  rewrite N.ldiff_spec. change 3 with (N.ones 2). destruct (N.lt_ge_cases i 2).
  - rewrite (proj1 (aligned_bits a) Ha i); done.
  - by rewrite N.ones_spec_high, andb_true_r.
Qed.

Lemma entry_addr_tag a : aligned a → rdxtree_entry_addr (rdxtree_node_to_entry a) = a.
Proof.
  intros Ha. rewrite <- (entry_addr_aligned a Ha) at 2.
  unfold rdxtree_entry_addr, rdxtree_node_to_entry. apply N.bits_inj. intros i.
  rewrite !N.ldiff_spec, N.lor_spec. destruct (N.eq_dec i 0) as [->|].
  - by rewrite !andb_false_r.
  - change 1 with (2 ^ 0). by rewrite (N.pow2_bits_false 0 i), orb_false_r by lia.
Qed.

Lemma entry_is_node_tag a : rdxtree_entry_is_node (rdxtree_node_to_entry a) = true.
Proof.
  unfold rdxtree_entry_is_node, rdxtree_node_to_entry.
  change 1 with (N.shiftl 1 0). rewrite land_pow2_testbit, lor_pow2_testbit.
  by rewrite decide_True.
Qed.

Lemma entry_is_node_aligned a : aligned a → rdxtree_entry_is_node a = false.
Proof.
  intros Ha. unfold rdxtree_entry_is_node. change 1 with (N.shiftl 1 0).
  rewrite land_pow2_testbit. by apply (proj1 (aligned_bits a) Ha).
Qed.

Lemma tag_nonzero a : rdxtree_node_to_entry a ≠ 0.
Proof. intros E. pose proof (entry_is_node_tag a) as Ht. by rewrite E in Ht. Qed.

Lemma tag_inj a b :
  aligned a → aligned b → rdxtree_node_to_entry a = rdxtree_node_to_entry b → a = b.
Proof. intros Ha Hb E. by rewrite <- (entry_addr_tag a Ha), E, entry_addr_tag. Qed.

#[export] Hint Resolve tag_nonzero : core.

(** Keys below a node of height [h] have [6 * (h + 1)] significant bits. *)
Definition span (h : N) : N := 2 ^ (6 * h).

Lemma span_pos h : 0 < span h.
Proof. unfold span. lia. Qed.

Lemma span_succ h : span (h + 1) = span h * 64.
Proof.
  unfold span. replace (6 * (h + 1)) with (6 * h + 6) by lia. by rewrite N.pow_add_r.
Qed.

Lemma key_index_mod key h : key_index key (6 * h) = (key / span h) mod 64.
Proof.
  unfold key_index, RDXTREE_RADIX_MASK, RDXTREE_RADIX_SIZE, RDXTREE_RADIX.
  change (N.shiftl 1 6 - 1) with (N.ones 6).
  by rewrite N.land_ones, N.shiftr_div_pow2.
Qed.

Lemma key_index_lt key h : key_index key (6 * h) < 64.
Proof. rewrite key_index_mod. by apply N.mod_lt. Qed.

Lemma key_prefix_step key h :
  key / span h = key / span (h + 1) * 64 + key_index key (6 * h).
Proof.
  rewrite key_index_mod, span_succ, <- N.Div0.div_div.
  pose proof (N.Div0.div_mod (key / span h) 64). lia.
Qed.

Lemma span_0 key : key / span 0 = key.
Proof. apply N.div_1_r. Qed.

Lemma prefix_div p i : i < 64 → (p * 64 + i) / 64 = p ∧ (p * 64 + i) mod 64 = i.
Proof.
  intros Hi. split.
  - rewrite N.div_add_l, N.div_small by done. lia.
  - rewrite N.add_comm, N.Div0.mod_add. by apply N.mod_small.
Qed.

Lemma prefix_eq p q i j : i < 64 → j < 64 → p * 64 + i = q * 64 + j → p = q ∧ i = j.
Proof. lia. Qed.

Lemma prefix_inv q : q = q / 64 * 64 + q mod 64.
Proof. pose proof (N.Div0.div_mod q 64). lia. Qed.

(** Keys that a tree of [h] levels can hold. *)
Lemma max_key_bound h : h ≤ 5 → rdxtree_max_key h = span h - 1.
Proof.
  intros Hh. unfold rdxtree_max_key, RDXTREE_RADIX, KEY_BITS, span.
  destruct (N.ltb_spec (6 * h) 32); [|lia]. by rewrite N.shiftl_1_l.
Qed.

Lemma max_key_top h : 6 ≤ h → rdxtree_max_key h = 2 ^ 32 - 1.
Proof.
  intros Hh. unfold rdxtree_max_key, RDXTREE_RADIX, KEY_BITS.
  by destruct (N.ltb_spec (6 * h) 32); [lia|].
Qed.

Lemma max_key_div h key :
  h ≤ 6 → key < 2 ^ 32 → rdxtree_max_key h <? key = false → key / span h = 0.
Proof.
  intros Hh Hk Hle%N.ltb_ge. apply N.div_small. pose proof (span_pos h).
  destruct (N.lt_ge_cases h 6) as [H6|H6].
  - rewrite max_key_bound in Hle by lia. lia.
  - replace h with 6 by lia. unfold span. change (2 ^ (6 * 6)) with (2 ^ 36). lia.
Qed.

Lemma max_key_div_gt h key :
  h ≤ 6 → key < 2 ^ 32 → rdxtree_max_key h <? key = true → h ≤ 5 ∧ key / span h ≠ 0.
Proof.
  intros Hh Hk Hlt%N.ltb_lt. destruct (N.lt_ge_cases h 6) as [H6|H6].
  - split; [lia|]. rewrite max_key_bound in Hlt by lia. pose proof (span_pos h).
    intros E%N.div_small_iff; lia.
  - rewrite max_key_top in Hlt by done. lia.
Qed.

(** ** The invariant *)

Implicit Types (ns : gmap N rdxtree_node) (pos : gmap N (N * N)).

(** The allocation bit [b] of an entry [e] of a node of height [h]: set for a
    null entry, clear for a stored pointer; for a child node, set only if the
    child has a set bit and clear only if it has a clear one. *)
Definition bit_ok ns (h e : N) (b : bool) : Prop :=
  if decide (e = 0) then b = true
  else if decide (h = 0) then b = false
  else ∀ nc, ns !! rdxtree_entry_addr e = Some nc →
         if b then alloc_bm nc ≠ 0 else alloc_bm nc ≠ RDXTREE_BM_FULL.

(** A non-null entry [e] at index [i] of the node [a] at position [(h, p)]. *)
Definition entry_ok ns pos (a h p i e : N) : Prop :=
  if decide (h = 0) then aligned e ∧ p * 64 + i < 2 ^ 32
  else ∃ c nc, e = rdxtree_node_to_entry c ∧ ns !! c = Some nc ∧
         pos !! c = Some (h - 1, p * 64 + i) ∧ parent nc = a ∧ index nc = i.

(** A node is the root or is linked from its parent. *)
Definition link_ok (H rt : N) ns pos (a : N) (n : rdxtree_node) (h p : N) : Prop :=
  (h + 1 = H ∧ p = 0 ∧ parent n = 0 ∧ rt = rdxtree_node_to_entry a) ∨
  (∃ nb, ns !! parent n = Some nb ∧ pos !! parent n = Some (h + 1, p / 64) ∧
     index n = p mod 64 ∧ entries nb !! N.to_nat (p mod 64) = Some (rdxtree_node_to_entry a)).

Record node_ok (H rt : N) ns pos (eh : option N) (bh : option (N * N))
    (a : N) (n : rdxtree_node) (h p : N) : Prop := {
  ok_nonnull : a ≠ 0;
  ok_aligned : aligned a;
  ok_height : node_height n = h;
  ok_below : h < H;
  ok_length : length (entries n) = 64%nat;
  ok_count : nr_entries n = N.of_nat (count_nz (entries n));
  ok_nonempty : eh ≠ Some a → nr_entries n ≠ 0;
  ok_bm : alloc_bm n < 2 ^ 64;
  ok_entry i e : entries n !! N.to_nat i = Some e → e ≠ 0 → entry_ok ns pos a h p i e;
  ok_link : link_ok H rt ns pos a n h p;
  ok_bit i e : bh ≠ Some (a, i) → entries n !! N.to_nat i = Some e →
    bit_ok ns h e (N.testbit (alloc_bm n) i);
}.

(** The nodes of a tree of [H > 0] levels. *)
Record tree_ok (H rt : N) ns pos (eh : option N) (bh : option (N * N)) : Prop := {
  t_height : 0 < H ≤ 6;
  t_dom a : is_Some (pos !! a) ↔ is_Some (ns !! a);
  t_root : ∃ r, rt = rdxtree_node_to_entry r ∧ pos !! r = Some (H - 1, 0);
  t_node a n h p : ns !! a = Some n → pos !! a = Some (h, p) →
    node_ok H rt ns pos eh bh a n h p;
}.

Arguments ok_nonnull {_ _ _ _ _ _ _ _ _ _} _.
Arguments ok_aligned {_ _ _ _ _ _ _ _ _ _} _.
Arguments ok_height {_ _ _ _ _ _ _ _ _ _} _.
Arguments ok_below {_ _ _ _ _ _ _ _ _ _} _.
Arguments ok_length {_ _ _ _ _ _ _ _ _ _} _.
Arguments ok_count {_ _ _ _ _ _ _ _ _ _} _.
Arguments ok_nonempty {_ _ _ _ _ _ _ _ _ _} _ _.
Arguments ok_bm {_ _ _ _ _ _ _ _ _ _} _.
Arguments ok_entry {_ _ _ _ _ _ _ _ _ _} _ _ _ _ _.
Arguments ok_link {_ _ _ _ _ _ _ _ _ _} _.
Arguments ok_bit {_ _ _ _ _ _ _ _ _ _} _ _ _ _ _.
Arguments t_height {_ _ _ _ _ _} _.
Arguments t_dom {_ _ _ _ _ _} _ _.
Arguments t_root {_ _ _ _ _ _} _.
Arguments t_node {_ _ _ _ _ _} _ _ _ _ _ _ _.

(** The key [k] is bound to [v] in a leaf. *)
Definition leaf_binds ns pos (k v : N) : Prop :=
  ∃ a n, pos !! a = Some (0, k / 64) ∧ ns !! a = Some n ∧
    entries n !! N.to_nat (k mod 64) = Some v ∧ v ≠ 0.

Section Shape.
Context {H rt : N} {ns : gmap N rdxtree_node} {pos : gmap N (N * N)}
  {eh : option N} {bh : option (N * N)}.
Context (Ht : tree_ok H rt ns pos eh bh).

Lemma t_pos a n : ns !! a = Some n → ∃ h p, pos !! a = Some (h, p).
Proof.
  intros Ha. destruct (proj2 (t_dom Ht a)) as [[h p] Hp]; eauto.
Qed.

Lemma t_lookup a h p : pos !! a = Some (h, p) →
  ∃ n, ns !! a = Some n ∧ node_ok H rt ns pos eh bh a n h p.
Proof.
  intros Ha. destruct (proj1 (t_dom Ht a)) as [n Hn]; [eauto|].
  exists n. split; [done|]. by apply Ht.
Qed.

Lemma t_entry_exists a n h p i :
  node_ok H rt ns pos eh bh a n h p → i < 64 → ∃ e, entries n !! N.to_nat i = Some e.
Proof. intros Hn Hi. apply lookup_lt_is_Some. rewrite (ok_length Hn). lia. Qed.

(** The root is the only node of height [H - 1]. *)
Lemma t_top a n h p :
  ns !! a = Some n → pos !! a = Some (h, p) → h + 1 = H →
  p = 0 ∧ parent n = 0 ∧ rt = rdxtree_node_to_entry a.
Proof.
  intros Ha Hp Hh. pose proof (t_node Ht _ _ _ _ Ha Hp) as Hn.
  destruct (ok_link Hn) as [(_ & ? & ? & ?)|(nb & Hb & Hpb & _)]; [done|].
  apply (t_node Ht _ _ _ _ Hb) in Hpb. apply ok_below in Hpb. lia.
Qed.

(** A node whose parent pointer is null is the root. *)
Lemma t_no_parent a n h p :
  ns !! a = Some n → pos !! a = Some (h, p) → parent n = 0 →
  h + 1 = H ∧ p = 0 ∧ rt = rdxtree_node_to_entry a.
Proof.
  intros Ha Hp Hpar. pose proof (t_node Ht _ _ _ _ Ha Hp) as Hn.
  destruct (ok_link Hn) as [(? & ? & ? & ?)|(nb & Hb & Hpb & _)]; [done|].
  rewrite Hpar in Hb, Hpb. apply (t_node Ht _ _ _ _ Hb) in Hpb.
  by apply ok_nonnull in Hpb.
Qed.

Lemma t_parent a n h p :
  ns !! a = Some n → pos !! a = Some (h, p) → parent n ≠ 0 →
  ∃ nb, ns !! parent n = Some nb ∧ pos !! parent n = Some (h + 1, p / 64) ∧
    index n = p mod 64 ∧ entries nb !! N.to_nat (p mod 64) = Some (rdxtree_node_to_entry a).
Proof.
  intros Ha Hp Hpar. pose proof (t_node Ht _ _ _ _ Ha Hp) as Hn.
  by destruct (ok_link Hn) as [(? & ? & ? & ?)|?].
Qed.

(** A position belongs to one node. *)
Lemma t_pos_inj_aux (d : nat) a b h p :
  N.to_nat (H - 1 - h) = d → pos !! a = Some (h, p) → pos !! b = Some (h, p) → a = b.
Proof.
  revert a b h p. induction d as [|d IH]; intros a b h p Hd Ha Hb;
    destruct (t_lookup a h p Ha) as (na & Hna & Oa);
    destruct (t_lookup b h p Hb) as (nb & Hnb & Ob);
    pose proof (ok_below Oa);
    pose proof (ok_aligned Oa);
    pose proof (ok_aligned Ob).
  - destruct (t_top a na h p) as (_ & _ & Ea); [done|done|lia|].
    destruct (t_top b nb h p) as (_ & _ & Eb); [done|done|lia|].
    rewrite Ea in Eb. by apply tag_inj in Eb.
  - destruct (ok_link Oa) as [(? & _)|(ma & Hma & Hpa & _ & Ea)]; [lia|].
    destruct (ok_link Ob) as [(? & _)|(mb & Hmb & Hpb & _ & Eb)]; [lia|].
    assert (parent na = parent nb) as Epar by (apply (IH _ _ (h + 1) (p / 64)); [lia|done|done]).
    rewrite Epar, Hmb in Hma. injection Hma as <-. rewrite Ea in Eb. injection Eb as Eb.
    by apply tag_inj in Eb.
Qed.

Lemma t_pos_inj a b h p : pos !! a = Some (h, p) → pos !! b = Some (h, p) → a = b.
Proof. by eapply t_pos_inj_aux. Qed.

Lemma leaf_binds_det k v w : leaf_binds ns pos k v → leaf_binds ns pos k w → v = w.
Proof.
  intros (a & n & Ha & Hn & Hv & _) (b & m & Hb & Hm & Hw & _).
  rewrite (t_pos_inj _ _ _ _ Hb Ha) in Hm. congruence.
Qed.

(** The child at a non-null entry of an inner node. *)
Lemma t_child a n h p i e :
  ns !! a = Some n → pos !! a = Some (h, p) → h ≠ 0 → i < 64 →
  entries n !! N.to_nat i = Some e → e ≠ 0 →
  ∃ nc, e = rdxtree_node_to_entry (rdxtree_entry_addr e) ∧
    ns !! rdxtree_entry_addr e = Some nc ∧
    pos !! rdxtree_entry_addr e = Some (h - 1, p * 64 + i) ∧
    parent nc = a ∧ index nc = i ∧ rdxtree_entry_addr e ≠ 0.
Proof.
  intros Ha Hp Hh Hi He Hne. pose proof (t_node Ht _ _ _ _ Ha Hp) as Hn.
  pose proof (ok_entry Hn _ _ He Hne) as Hc.
  unfold entry_ok in Hc. rewrite decide_False in Hc by done.
  destruct Hc as (c & nc & -> & Hc & Hpc & Hpar & Hidx).
  destruct (t_lookup _ _ _ Hpc) as (nc' & Hnc' & Oc).
  rewrite entry_addr_tag by apply Oc. exists nc. split_and!; try done. by eapply ok_nonnull.
Qed.
End Shape.

(** ** Store transformations *)

(** A node that an operation leaves alone, its link to its parent excepted,
    keeps its constraints if its children keep their positions, links and
    bitmaps. *)
Lemma node_ok_relink {H rt ns pos eh bh} H' rt' ns' pos' eh' bh' x nx par i hx px :
  tree_ok H rt ns pos eh bh → ns !! x = Some nx → pos !! x = Some (hx, px) →
  hx < H' →
  (eh' ≠ Some x → eh ≠ Some x) → (∀ i, bh' ≠ Some (x, i) → bh ≠ Some (x, i)) →
  (∀ c nc q, ns !! c = Some nc → pos !! c = Some q → parent nc = x →
     ∃ nc', ns' !! c = Some nc' ∧ pos' !! c = Some q ∧ parent nc' = x ∧
       index nc' = index nc ∧ (alloc_bm nc' = alloc_bm nc ∨ bh' = Some (x, index nc))) →
  link_ok H' rt' ns' pos' x (node_set_link par i nx) hx px →
  node_ok H' rt' ns' pos' eh' bh' x (node_set_link par i nx) hx px.
Proof.
  intros Ht Hx Hpx Hlt Heh Hbh Hch Hlink. pose proof (t_node Ht _ _ _ _ Hx Hpx) as Ox.
  split; try (by apply Ox); try done; simpl.
  - intros He. apply Ox. auto.
  - intros j e Hj He. pose proof (ok_entry Ox _ _ Hj He) as Hoe. unfold entry_ok in *.
    case_decide; [done|]. destruct Hoe as (c & nc & -> & Hc & Hpc & Hpar & Hidx).
    destruct (Hch c nc _ Hc Hpc Hpar) as (nc' & ? & ? & ? & ? & _). exists c, nc'.
    split_and!; congruence.
  - intros j e Hj He. pose proof (ok_bit Ox j e (Hbh _ Hj) He) as Hb.
    unfold bit_ok in *. case_decide as E0; [done|]. case_decide as Eh; [done|].
    assert (j < 64) as Hj64.
    { apply lookup_lt_Some in He. rewrite (ok_length Ox) in He. lia. }
    destruct (t_child Ht _ _ _ _ j e Hx Hpx Eh Hj64 He E0) as (nc & _ & Hc & Hpc & Hpar & Hidx & _).
    destruct (Hch _ nc _ Hc Hpc Hpar) as (nc' & Hc' & _ & _ & _ & [Ebm|Ebm]); [|congruence].
    rewrite Hc'. intros ? [= <-]. rewrite Ebm. by apply Hb.
Qed.

Lemma node_ok_frame {H rt ns pos eh bh} H' rt' ns' pos' eh' bh' x nx hx px :
  tree_ok H rt ns pos eh bh → ns !! x = Some nx → pos !! x = Some (hx, px) →
  hx < H' →
  (eh' ≠ Some x → eh ≠ Some x) → (∀ i, bh' ≠ Some (x, i) → bh ≠ Some (x, i)) →
  (∀ c nc q, ns !! c = Some nc → pos !! c = Some q → parent nc = x →
     ∃ nc', ns' !! c = Some nc' ∧ pos' !! c = Some q ∧ parent nc' = x ∧
       index nc' = index nc ∧ (alloc_bm nc' = alloc_bm nc ∨ bh' = Some (x, index nc))) →
  link_ok H' rt' ns' pos' x nx hx px →
  node_ok H' rt' ns' pos' eh' bh' x nx hx px.
Proof.
  intros Ht Hx Hpx Hlt Heh Hbh Hch Hlink.
  assert (nx = node_set_link (parent nx) (index nx) nx) as E by (by destruct nx).
  rewrite E in Hlink |- *. by eapply (node_ok_relink H').
Qed.

Lemma link_ok_frame {H rt ns pos} ns' pos' x nx hx px :
  link_ok H rt ns pos x nx hx px →
  (∀ nb q, ns !! parent nx = Some nb → pos !! parent nx = Some q →
     entries nb !! N.to_nat (px mod 64) = Some (rdxtree_node_to_entry x) →
     ∃ nb', ns' !! parent nx = Some nb' ∧ pos' !! parent nx = Some q ∧
       entries nb' !! N.to_nat (px mod 64) = Some (rdxtree_node_to_entry x)) →
  link_ok H rt ns' pos' x nx hx px.
Proof.
  intros [?|(nb & Hb & Hpb & Hi & He)] Hfr; [by left|right].
  destruct (Hfr nb _ Hb Hpb He) as (nb' & ? & ? & ?). by exists nb'.
Qed.

(** Rewriting one node in place: links to its parent and to its children stay,
    and its bitmap may change only if the bit that summarises it is exempted. *)
Lemma tree_ok_update H rt ns pos eh eh' bh bh' a n n' h p :
  tree_ok H rt ns pos eh bh → ns !! a = Some n → pos !! a = Some (h, p) →
  parent n' = parent n → index n' = index n →
  (h ≠ 0 → ∀ j e, entries n !! j = Some e → e ≠ 0 → entries n' !! j = Some e) →
  (alloc_bm n' = alloc_bm n ∨ parent n = 0 ∨ bh' = Some (parent n, index n)) →
  (∀ x, x ≠ a → eh' ≠ Some x → eh ≠ Some x) →
  (∀ x i, x ≠ a → bh' ≠ Some (x, i) → bh ≠ Some (x, i)) →
  node_ok H rt (<[a := n']> ns) pos eh' bh' a n' h p →
  tree_ok H rt (<[a := n']> ns) pos eh' bh'.
Proof.
  intros Ht Ha Hp Hpar Hidx Hent Hbm Heh Hbh Hok. split; try apply Ht.
  - intros x. rewrite (t_dom Ht), lookup_insert_is_Some'. split; [by right|].
    intros [->|]; eauto.
  - intros x nx hx px Hx Hpx. destruct (decide (x = a)) as [->|Hne].
    { rewrite lookup_insert_eq in Hx. by simplify_eq. }
    rewrite lookup_insert_ne in Hx by done. pose proof (t_node Ht _ _ _ _ Hx Hpx) as Ox.
    eapply (node_ok_frame H rt); eauto using ok_below.
    + intros c nc q Hc Hpc Hparc. destruct (decide (c = a)) as [->|].
      * simplify_eq. exists n'. rewrite lookup_insert_eq. split_and!; try done.
        destruct Hbm as [|[E|]]; [by left| |by right]. by destruct (ok_nonnull Ox).
      * exists nc. rewrite lookup_insert_ne by done. split_and!; auto.
    + eapply link_ok_frame; [apply Ox|]. intros nb q Hb Hpb He.
      destruct (decide (parent nx = a)) as [E|].
      * rewrite E, Ha in Hb. injection Hb as <-. exists n'. rewrite E, lookup_insert_eq, <- E.
        split_and!; try done. apply Hent; auto.
        destruct (ok_link Ox) as [(_ & _ & E0 & _)|(nb & _ & Hpb' & _)].
        -- destruct (ok_nonnull (t_node Ht _ _ _ _ Ha Hp)). congruence.
        -- rewrite E, Hp in Hpb'. injection Hpb' as ??. lia.
      * exists nb. by rewrite lookup_insert_ne.
Qed.

(** The hole in the bitmaps closes when the bit is right. *)
Lemma tree_ok_bit_close H rt ns pos eh a n h p i e :
  tree_ok H rt ns pos eh (Some (a, i)) → ns !! a = Some n → pos !! a = Some (h, p) →
  entries n !! N.to_nat i = Some e → bit_ok ns h e (N.testbit (alloc_bm n) i) →
  tree_ok H rt ns pos eh None.
Proof.
  intros Ht Ha Hp He Hb. split; try apply Ht.
  intros x nx hx px Hx Hpx. pose proof (t_node Ht _ _ _ _ Hx Hpx) as Ox.
  split; try (by apply Ox). intros j f _ Hf.
  destruct (decide ((x, j) = (a, i))) as [E|].
  - injection E as -> ->. rewrite Ha in Hx. injection Hx as <-.
    rewrite Hp in Hpx. injection Hpx as <- <-. rewrite He in Hf. by injection Hf as <-.
  - apply Ox; [congruence|done].
Qed.

(** The hole in the entry counts closes when the node has an entry. *)
Lemma tree_ok_count_close H rt ns pos bh a n :
  tree_ok H rt ns pos (Some a) bh → ns !! a = Some n → nr_entries n ≠ 0 →
  tree_ok H rt ns pos None bh.
Proof.
  intros Ht Ha Hnr. split; try apply Ht.
  intros x nx hx px Hx Hpx. pose proof (t_node Ht _ _ _ _ Hx Hpx) as Ox.
  split; try (by apply Ox). intros _.
  destruct (decide (x = a)) as [->|]; [congruence|]. apply Ox. congruence.
Qed.

Lemma tree_ok_count_open H rt ns pos bh a :
  tree_ok H rt ns pos None bh → tree_ok H rt ns pos (Some a) bh.
Proof.
  intros Ht. split; try apply Ht.
  intros x nx hx px Hx Hpx. pose proof (t_node Ht _ _ _ _ Hx Hpx) as Ox.
  split; try (by apply Ox). intros _. by apply Ox.
Qed.

Lemma bm_set_bound bm i : i < 64 → bm < 2 ^ 64 → bm_bit_set bm i < 2 ^ 64.
Proof.
  intros Hi Hbm. apply bits_below_lt. intros j Hj. unfold bm_bit_set.
  rewrite lor_pow2_testbit, decide_False by lia. by apply (bits_below_lt bm 64).
Qed.

Lemma bm_clear_bound bm i : bm < 2 ^ 64 → bm_bit_clear bm i < 2 ^ 64.
Proof.
  intros Hbm. apply bits_below_lt. intros j Hj. unfold bm_bit_clear.
  rewrite ldiff_pow2_testbit. case_decide; [done|]. by apply (bits_below_lt bm 64).
Qed.

(** What the constraints of a node become when that node alone is rewritten. *)
Section SelfUpdate.
Context {H rt : N} {ns : gmap N rdxtree_node} {pos : gmap N (N * N)}
  {eh : option N} {bh : option (N * N)} {a : N} {n : rdxtree_node} {h p : N}.
Context (Ht : tree_ok H rt ns pos eh bh) (Ha : ns !! a = Some n) (Hp : pos !! a = Some (h, p)).

Lemma index_lt i e : entries n !! N.to_nat i = Some e → i < 64.
Proof.
  intros Hi%lookup_lt_Some. rewrite (ok_length (t_node Ht _ _ _ _ Ha Hp)) in Hi. lia.
Qed.

Lemma parent_ne_self : parent n ≠ a.
Proof.
  pose proof (t_node Ht _ _ _ _ Ha Hp) as Oa.
  intros E. destruct (decide (parent n = 0)) as [E0|E0].
  - apply (ok_nonnull Oa). congruence.
  - destruct (t_parent Ht _ _ _ _ Ha Hp E0) as (nb & _ & Hpb & _).
    rewrite E, Hp in Hpb. injection Hpb as ??. lia.
Qed.

Lemma child_ne_self i e :
  entries n !! N.to_nat i = Some e → e ≠ 0 → h ≠ 0 → rdxtree_entry_addr e ≠ a.
Proof.
  intros Hi He Hh E.
  destruct (t_child Ht _ _ _ _ i e Ha Hp Hh (index_lt _ _ Hi)) as (nc & _ & _ & Hpc & _); [done..|].
  rewrite E, Hp in Hpc. injection Hpc as ??. lia.
Qed.

Lemma self_entry n' i e :
  entries n !! N.to_nat i = Some e → e ≠ 0 → entry_ok (<[a := n']> ns) pos a h p i e.
Proof.
  intros Hi He. pose proof (ok_entry (t_node Ht _ _ _ _ Ha Hp) _ _ Hi He) as Hoe.
  unfold entry_ok in *. case_decide; [done|].
  destruct Hoe as (c & nc & -> & Hc & Hpc & Hparc & Hidxc).
  exists c, nc. split_and!; try done. rewrite lookup_insert_ne; [done|].
  intros <-. rewrite Hp in Hpc. injection Hpc as ??. lia.
Qed.

Lemma self_link n' :
  parent n' = parent n → index n' = index n → link_ok H rt (<[a := n']> ns) pos a n' h p.
Proof.
  intros Ep Ei. destruct (ok_link (t_node Ht _ _ _ _ Ha Hp)) as [?|(nb & Hb & Hpb & Hib & Heb)].
  - left. by rewrite Ep.
  - right. exists nb. rewrite Ep, Ei, lookup_insert_ne; [done|]. apply not_eq_sym, parent_ne_self.
Qed.

Lemma self_bit n' i e b :
  entries n !! N.to_nat i = Some e → bit_ok ns h e b → bit_ok (<[a := n']> ns) h e b.
Proof.
  intros Hi. unfold bit_ok. case_decide as E1; [done|]. case_decide as E2; [done|].
  intros Hold nc Hnc'. rewrite lookup_insert_ne in Hnc'; [by apply Hold|].
  by apply not_eq_sym, (child_ne_self i).
Qed.
End SelfUpdate.

(** Where the bitmap of [n] is summarised. *)
Definition summary (n : rdxtree_node) : option (N * N) :=
  if decide (parent n = 0) then None else Some (parent n, index n).

(** Setting the exempted bit right moves the hole to its summary. *)
Lemma tree_ok_set_bm H rt ns pos eh a n h p i e bm :
  tree_ok H rt ns pos eh (Some (a, i)) → ns !! a = Some n → pos !! a = Some (h, p) →
  entries n !! N.to_nat i = Some e → bm < 2 ^ 64 →
  (∀ j, j ≠ i → N.testbit bm j = N.testbit (alloc_bm n) j) →
  bit_ok ns h e (N.testbit bm i) →
  tree_ok H rt (<[a := node_set_bm bm n]> ns) pos eh (summary n).
Proof.
  intros Ht Ha Hp He Hlt Hbits Hb. pose proof (t_node Ht _ _ _ _ Ha Hp) as Oa.
  eapply tree_ok_update; try done.
  - unfold summary. case_decide; auto.
  - congruence.
  - split; try (by apply Oa); try done; simpl.
    + intros c f. apply (self_entry Ht Ha Hp).
    + by apply (self_link Ht Ha Hp).
    + intros j f _ Hf. apply (self_bit Ht Ha Hp _ j); [done|]. destruct (decide (j = i)) as [->|].
      * rewrite He in Hf. by injection Hf as <-.
      * rewrite Hbits by done. apply Oa; [congruence|done].
Qed.

(** Storing a pointer in a leaf, or removing one; the bit is left behind. *)
Lemma tree_ok_leaf_store H rt ns pos eh a n p i e v :
  tree_ok H rt ns pos eh None → (eh = None ∨ eh = Some a) →
  ns !! a = Some n → pos !! a = Some (0, p) →
  entries n !! N.to_nat i = Some e → aligned v → (v ≠ 0 → p * 64 + i < 2 ^ 32) →
  tree_ok H rt
    (<[a := node_set_entry (N.of_nat (count_nz (<[N.to_nat i := v]> (entries n)))) i v n]> ns)
    pos (if decide (v = 0) then Some a else None) (Some (a, i)).
Proof.
  intros Ht Heh Ha Hp He Hv Hk. pose proof (t_node Ht _ _ _ _ Ha Hp) as Oa.
  pose proof (index_lt Ht Ha Hp _ _ He) as Hi.
  assert (N.to_nat i < length (entries n))%nat as Hil by (rewrite (ok_length Oa); lia).
  eapply tree_ok_update; try done.
  - by left.
  - intros x Hx. destruct Heh as [->| ->]; congruence.
  - split; try (by apply Oa); try done; simpl.
    + by rewrite length_insert, (ok_length Oa).
    + case_decide; [congruence|]. intros _.
      pose proof (count_nz_insert (entries n) (N.to_nat i) e v He) as Hc.
      rewrite (decide_True (P := v ≠ 0)) in Hc by done.
      destruct (decide (e ≠ 0)); [|lia].
      pose proof (proj1 (count_nz_zero (entries n))) as Hz.
      destruct (count_nz (entries n)) eqn:Ecz; [|lia]. by destruct (Hz eq_refl _ _ He).
    + intros j f Hf Hf0. destruct (decide (N.to_nat j = N.to_nat i)) as [E|E].
      * rewrite E, list_lookup_insert_eq in Hf by done. injection Hf as <-.
        apply N2Nat.inj in E as ->. unfold entry_ok. rewrite decide_True by done. auto.
      * rewrite list_lookup_insert_ne in Hf by done. by apply (self_entry Ht Ha Hp).
    + by apply (self_link Ht Ha Hp).
    + intros j f Hne Hf. rewrite list_lookup_insert_ne in Hf by (intros ?%N2Nat.inj; congruence).
      apply (self_bit Ht Ha Hp _ j); [done|]. by apply Oa.
Qed.

(** Replacing a pointer stored in a leaf. *)
Lemma tree_ok_leaf_replace H rt ns pos a n p i e v :
  tree_ok H rt ns pos None None → ns !! a = Some n → pos !! a = Some (0, p) →
  entries n !! N.to_nat i = Some e → e ≠ 0 → aligned v → v ≠ 0 →
  tree_ok H rt (<[a := node_set_entry (nr_entries n) i v n]> ns) pos None None.
Proof.
  intros Ht Ha Hp He He0 Hv Hv0. pose proof (t_node Ht _ _ _ _ Ha Hp) as Oa.
  pose proof (index_lt Ht Ha Hp _ _ He) as Hi.
  assert (N.to_nat i < length (entries n))%nat as Hil by (rewrite (ok_length Oa); lia).
  pose proof (ok_entry Oa _ _ He He0) as Hoe. unfold entry_ok in Hoe.
  rewrite decide_True in Hoe by done.
  eapply tree_ok_update; try done.
  - by left.
  - split; try (by apply Oa); try done; simpl.
    + by rewrite length_insert, (ok_length Oa).
    + rewrite (ok_count Oa). pose proof (count_nz_insert (entries n) (N.to_nat i) e v He) as Hc.
      rewrite !decide_True in Hc by done. lia.
    + intros j f Hf Hf0. destruct (decide (N.to_nat j = N.to_nat i)) as [E|E].
      * rewrite E, list_lookup_insert_eq in Hf by done. injection Hf as <-.
        apply N2Nat.inj in E as ->. unfold entry_ok. rewrite decide_True by done. by destruct Hoe.
      * rewrite list_lookup_insert_ne in Hf by done. by apply (self_entry Ht Ha Hp).
    + by apply (self_link Ht Ha Hp).
    + intros j f Hne Hf. destruct (decide (N.to_nat j = N.to_nat i)) as [E|E].
      * rewrite E, list_lookup_insert_eq in Hf by done. injection Hf as <-.
        apply N2Nat.inj in E as ->. pose proof (ok_bit Oa i e Hne He) as Hb.
        unfold bit_ok in *. rewrite decide_False, decide_True by done.
        by rewrite decide_False, decide_True in Hb by done.
      * rewrite list_lookup_insert_ne in Hf by done.
        apply (self_bit Ht Ha Hp _ j); [done|]. by apply Oa.
Qed.

(** A node just created, once it is linked. *)
Definition fresh_node (par i h : N) : rdxtree_node :=
  RNode par i h 0 RDXTREE_BM_FULL (replicate (N.to_nat RDXTREE_RADIX_SIZE) 0).

Lemma bm_full_ones : RDXTREE_BM_FULL = N.ones 64.
Proof. done. Qed.

Lemma fresh_node_bits ns par i h j e b :
  entries (fresh_node par i h) !! N.to_nat j = Some e →
  b = N.testbit RDXTREE_BM_FULL j → bit_ok ns h e b.
Proof.
  intros Hj ->. apply lookup_replicate in Hj as [-> Hj].
  unfold bit_ok. rewrite decide_True by done. rewrite bm_full_ones, N.ones_spec_low; [done|].
  change (N.to_nat RDXTREE_RADIX_SIZE) with 64%nat in Hj. lia.
Qed.


(** *** Linking a fresh node below a null entry *)

Section AddChild.
Context {H rt : N} {ns : gmap N rdxtree_node} {pos : gmap N (N * N)}
  {eh : option N} {a : N} {n : rdxtree_node} {h p i c : N}.
Context (Ht : tree_ok H rt ns pos eh None) (Heh : eh = None ∨ eh = Some a)
  (Ha : ns !! a = Some n) (Hp : pos !! a = Some (h, p)) (Hh : h ≠ 0)
  (He : entries n !! N.to_nat i = Some 0)
  (Hc : ns !! c = None) (Hc0 : c ≠ 0) (Hcal : aligned c).

Let n' := node_set_entry (nr_entries n + 1) i (rdxtree_node_to_entry c) n.
Let ns' := <[a := n']> (<[c := fresh_node a i (h - 1)]> ns).
Let pos' := <[c := (h - 1, p * 64 + i)]> pos.

Lemma add_child_ne x nx : ns !! x = Some nx → c ≠ x.
Proof. congruence. Qed.

Lemma add_child_pos x q : pos !! x = Some q → pos' !! x = Some q.
Proof.
  intros Hx. unfold pos'. rewrite lookup_insert_ne; [done|]. intros <-.
  destruct (proj1 (t_dom Ht c)); [eauto|congruence].
Qed.

Lemma add_child_lookup x nx : ns !! x = Some nx → x ≠ a → ns' !! x = Some nx.
Proof.
  intros Hx Hxa. unfold ns'. rewrite !lookup_insert_ne; [done| |done].
  by eapply add_child_ne.
Qed.

Lemma add_child_self_lookup : ns' !! a = Some n'.
Proof. apply lookup_insert_eq. Qed.

Lemma add_child_new_lookup : ns' !! c = Some (fresh_node a i (h - 1)).
Proof. unfold ns'. rewrite lookup_insert_ne, lookup_insert_eq; [done|congruence]. Qed.

Lemma add_child_entry j :
  entries n' !! j =
    if decide (j = N.to_nat i) then Some (rdxtree_node_to_entry c) else entries n !! j.
Proof.
  pose proof (t_node Ht _ _ _ _ Ha Hp) as Oa. pose proof (index_lt Ht Ha Hp _ _ He).
  simpl. case_decide; subst.
  - apply list_lookup_insert_eq. rewrite (ok_length Oa). lia.
  - by apply list_lookup_insert_ne.
Qed.

Lemma add_child_new : node_ok H rt ns' pos' (Some c) None c (fresh_node a i (h - 1)) (h - 1) (p * 64 + i).
Proof.
  pose proof (t_node Ht _ _ _ _ Ha Hp) as Oa. pose proof (ok_below Oa).
  destruct (prefix_div p i (index_lt Ht Ha Hp _ _ He)) as [Hq1 Hq2].
  split; try done.
  - lia.
  - intros j e [-> _]%lookup_replicate. done.
  - right. exists n'. rewrite Hq1, Hq2. split_and!; try done.
    + apply add_child_self_lookup.
    + replace (h - 1 + 1) with h by lia. by apply add_child_pos.
    + rewrite add_child_entry. by rewrite decide_True.
  - intros j e _ Hj. by eapply fresh_node_bits.
Qed.

Lemma add_child_self : node_ok H rt ns' pos' (Some c) None a n' h p.
Proof.
  pose proof (t_node Ht _ _ _ _ Ha Hp) as Oa.
  split; try (by apply Oa); simpl.
  - by rewrite length_insert, (ok_length Oa).
  - rewrite (ok_count Oa). pose proof (count_nz_insert _ _ _ (rdxtree_node_to_entry c) He) as Hcnt.
    rewrite decide_False, decide_True in Hcnt by auto. lia.
  - lia.
  - intros j e Hj He0. change (entries n' !! N.to_nat j = Some e) in Hj.
    rewrite add_child_entry in Hj. unfold entry_ok. rewrite decide_False by done.
    case_decide as E.
    + apply N2Nat.inj in E as ->. injection Hj as <-. exists c, (fresh_node a i (h - 1)).
      split_and!; try done; [apply add_child_new_lookup|apply lookup_insert_eq].
    + destruct (t_child Ht _ _ _ _ j e Ha Hp Hh (index_lt Ht Ha Hp _ _ Hj)) as (nc & ? & ? & ? & ? & ? & _); [done..|].
      exists (rdxtree_entry_addr e), nc. split_and!; try done; [|by apply add_child_pos].
      apply add_child_lookup; [done|]. by apply (child_ne_self Ht Ha Hp j).
  - eapply link_ok_frame; [apply Oa|]. simpl. intros nb q Hb Hpb Hent. exists nb.
    split_and!; try done; [|by apply add_child_pos].
    apply add_child_lookup; [done|]. apply (parent_ne_self Ht Ha Hp).
  - intros j e _ Hj. change (entries n' !! N.to_nat j = Some e) in Hj.
    rewrite add_child_entry in Hj. case_decide as E.
    + apply N2Nat.inj in E as ->. injection Hj as <-.
      pose proof (ok_bit Oa i 0 ltac:(done) He) as Hb.
      unfold bit_ok in *. rewrite decide_True in Hb by done. rewrite Hb, !decide_False by auto.
      intros nc'. rewrite entry_addr_tag, add_child_new_lookup by done. by intros [= <-].
    + pose proof (ok_bit Oa j e ltac:(done) Hj) as Hb. unfold bit_ok in *.
      case_decide as E1; [done|]. rewrite decide_False in * by done. intros nc'.
      destruct (t_child Ht _ _ _ _ j e Ha Hp Hh (index_lt Ht Ha Hp _ _ Hj)) as (nc & _ & Hnc' & _); [done..|].
      rewrite (add_child_lookup _ _ Hnc') by (by apply (child_ne_self Ht Ha Hp j)).
      intros [= <-]. by apply Hb.
Qed.

Lemma tree_ok_add_child : tree_ok H rt ns' pos' (Some c) None.
Proof.
  split; try apply Ht.
  - intros x. unfold ns', pos'. rewrite !lookup_insert_is_Some', (t_dom Ht).
    split; [intros [->|?]; auto|]. intros [->|?]; [right; eauto|done].
  - destruct (t_root Ht) as (r & Er & Hr). exists r. split; [done|]. by apply add_child_pos.
  - intros x nx hx px Hx Hpx. destruct (decide (x = c)) as [->|Hxc].
    { rewrite add_child_new_lookup in Hx. injection Hx as <-.
      unfold pos' in Hpx. rewrite lookup_insert_eq in Hpx. injection Hpx as <- <-. apply add_child_new. }
    unfold pos' in Hpx. rewrite lookup_insert_ne in Hpx by done.
    destruct (decide (x = a)) as [->|Hxa].
    { rewrite add_child_self_lookup in Hx. injection Hx as <-.
      rewrite Hp in Hpx. injection Hpx as <- <-. apply add_child_self. }
    unfold ns' in Hx. rewrite !lookup_insert_ne in Hx by done.
    pose proof (t_node Ht _ _ _ _ Hx Hpx) as Ox.
    eapply (node_ok_frame H rt); eauto using ok_below.
    + intros _. destruct Heh; congruence.
    + intros c' nc q Hc' Hpc' Hpar. destruct (decide (c' = a)) as [->|].
      * rewrite Ha in Hc'. injection Hc' as <-. exists n'.
        split_and!; auto using add_child_self_lookup, add_child_pos.
      * exists nc. split_and!; auto using add_child_lookup, add_child_pos.
    + eapply link_ok_frame; [apply Ox|]. intros nb q Hb Hpb Hent.
      destruct (decide (parent nx = a)) as [E|].
      * rewrite E in *. rewrite Ha in Hb. injection Hb as <-. exists n'.
        split_and!; auto using add_child_self_lookup, add_child_pos.
        rewrite add_child_entry. case_decide as E'; [|done]. rewrite E', He in Hent.
        injection Hent as Hent. by destruct (tag_nonzero x).
      * exists nb. split_and!; auto using add_child_lookup, add_child_pos.
Qed.
End AddChild.

(** *** Unlinking an empty node *)

Lemma t_empty_bm {H rt ns pos eh a n h p} :
  tree_ok H rt ns pos eh None → ns !! a = Some n → pos !! a = Some (h, p) →
  nr_entries n = 0 →
  alloc_bm n = RDXTREE_BM_FULL ∧ ∀ j e, entries n !! j = Some e → e = 0.
Proof.
  intros Ht Ha Hp Hnr. pose proof (t_node Ht _ _ _ _ Ha Hp) as Oa.
  assert (∀ j e, entries n !! j = Some e → e = 0) as Hz.
  { apply count_nz_zero. pose proof (ok_count Oa). lia. }
  split; [|done]. rewrite bm_full_ones. apply testbit_all_ones; [apply Oa|]. intros j Hj.
  destruct (t_entry_exists _ _ _ _ j Oa Hj) as [e He].
  pose proof (ok_bit Oa j e ltac:(done) He) as Hb. unfold bit_ok in Hb.
  rewrite decide_True in Hb by eauto. done.
Qed.

Section RemoveChild.
Context {H rt : N} {ns : gmap N rdxtree_node} {pos : gmap N (N * N)}
  {c : N} {nc n : rdxtree_node} {h q : N}.
Context (Ht : tree_ok H rt ns pos (Some c) None)
  (Hc : ns !! c = Some nc) (Hpc : pos !! c = Some (h, q)) (Hnr : nr_entries nc = 0)
  (Hpar : parent nc ≠ 0) (Ha : ns !! parent nc = Some n).

Let n' := node_set_entry (nr_entries n - 1) (index nc) 0 n.
Let ns' := <[parent nc := n']> (delete c ns).
Let pos' := delete c pos.

Lemma remove_child_parent :
  pos !! parent nc = Some (h + 1, q / 64) ∧ index nc = q mod 64 ∧
  entries n !! N.to_nat (index nc) = Some (rdxtree_node_to_entry c).
Proof.
  destruct (t_parent Ht _ _ _ _ Hc Hpc Hpar) as (nb & Hb & Hpb & Hi & He).
  rewrite Ha in Hb. injection Hb as <-. by rewrite Hi.
Qed.

Lemma remove_child_ne : parent nc ≠ c.
Proof. apply (parent_ne_self Ht Hc Hpc). Qed.

Lemma remove_child_entry j :
  entries n' !! j = if decide (j = N.to_nat (index nc)) then Some 0 else entries n !! j.
Proof.
  destruct remove_child_parent as (_ & _ & He). simpl. case_decide; subst.
  - apply list_lookup_insert_eq. by eapply lookup_lt_Some.
  - by apply list_lookup_insert_ne.
Qed.

Lemma remove_child_lookup x nx : ns !! x = Some nx → x ≠ c → x ≠ parent nc → ns' !! x = Some nx.
Proof. intros Hx ??. unfold ns'. by rewrite lookup_insert_ne, lookup_delete_ne. Qed.

Lemma remove_child_pos x y : pos !! x = Some y → x ≠ c → pos' !! x = Some y.
Proof. intros Hx ?. unfold pos'. by rewrite lookup_delete_ne. Qed.

(** The other entries of the parent lead to other children. *)
Lemma remove_child_sibling j e :
  entries n !! N.to_nat j = Some e → e ≠ 0 → N.to_nat j ≠ N.to_nat (index nc) →
  ∃ sib, e = rdxtree_node_to_entry (rdxtree_entry_addr e) ∧
    ns' !! rdxtree_entry_addr e = Some sib ∧ ns !! rdxtree_entry_addr e = Some sib ∧
    pos' !! rdxtree_entry_addr e = Some (h, q / 64 * 64 + j) ∧
    parent sib = parent nc ∧ index sib = j.
Proof.
  destruct remove_child_parent as (Hpa & _ & _). intros Hj He Hne.
  destruct (t_child Ht _ _ _ _ j e Ha Hpa ltac:(lia) (index_lt Ht Ha Hpa _ _ Hj) Hj He)
    as (m & Etag & Hm & Hpm & Hparm & Him & _).
  replace (h + 1 - 1) with h in Hpm by lia.
  assert (rdxtree_entry_addr e ≠ c) by (intros E; rewrite E in *; congruence).
  exists m. split_and!; try done.
  - apply remove_child_lookup; [done|done|].
    by apply (child_ne_self Ht Ha Hpa j); [| |lia].
  - by apply remove_child_pos.
Qed.

Lemma remove_child_self :
  node_ok H rt ns' pos' (Some (parent nc)) None (parent nc) n' (h + 1) (q / 64).
Proof.
  destruct remove_child_parent as (Hpa & _ & He).
  pose proof (t_node Ht _ _ _ _ Ha Hpa) as Oa.
  destruct (t_empty_bm Ht Hc Hpc Hnr) as [Hbm Hz].
  split; try (by apply Oa); try done; simpl.
  - by rewrite length_insert, (ok_length Oa).
  - rewrite (ok_count Oa). pose proof (count_nz_insert _ _ _ 0 He) as Hcnt.
    rewrite decide_True, decide_False in Hcnt by auto. lia.
  - intros j e Hj He0. change (entries n' !! N.to_nat j = Some e) in Hj.
    rewrite remove_child_entry in Hj. case_decide as E; [congruence|].
    destruct (remove_child_sibling j e Hj He0 E) as (m & ? & ? & ? & ? & ? & ?).
    unfold entry_ok. rewrite decide_False by lia. exists (rdxtree_entry_addr e), m.
    replace (h + 1 - 1) with h by lia. done.
  - eapply link_ok_frame; [apply Oa|]. simpl. intros nb y Hb Hpb Hent.
    assert (parent n ≠ c) by (intros E; rewrite E, Hc in Hb; injection Hb as <-;
      apply Hz in Hent; by destruct (tag_nonzero (parent nc))).
    exists nb. split_and!; auto using remove_child_pos.
    apply remove_child_lookup; [done|done|]. apply (parent_ne_self Ht Ha Hpa).
  - intros j e _ Hj. change (entries n' !! N.to_nat j = Some e) in Hj.
    rewrite remove_child_entry in Hj. case_decide as E.
    + injection Hj as <-. unfold bit_ok. rewrite decide_True by done.
      apply N2Nat.inj in E as ->. pose proof (ok_bit Oa _ _ ltac:(done) He) as Hb.
      unfold bit_ok in Hb. rewrite !decide_False in Hb by (auto; lia).
      rewrite entry_addr_tag in Hb by apply (t_node Ht _ _ _ _ Hc Hpc).
      specialize (Hb nc Hc). by destruct (N.testbit _ _).
    + pose proof (ok_bit Oa j e ltac:(done) Hj) as Hb. unfold bit_ok in *.
      case_decide as E1; [done|]. rewrite decide_False in * by lia. intros m'.
      destruct (remove_child_sibling j e Hj E1 E) as (m & _ & -> & Hm & _).
      intros [= <-]. by apply Hb.
Qed.

Lemma tree_ok_remove_child : tree_ok H rt ns' pos' (Some (parent nc)) None.
Proof.
  destruct remove_child_parent as (Hpa & _ & He).
  destruct (t_empty_bm Ht Hc Hpc Hnr) as [Hbm Hz]. pose proof remove_child_ne as Hne.
  split; try apply Ht.
  - intros x. unfold ns', pos'. rewrite lookup_insert_is_Some', !lookup_delete_is_Some, (t_dom Ht).
    split; [by right|]. intros [<-|?]; [split; eauto|done].
  - destruct (t_root Ht) as (r & Er & Hr). exists r. split; [done|]. apply remove_child_pos; [done|].
    intros ->. destruct (t_top Ht _ _ _ _ Hc Hr) as (_ & ? & _); [|done].
    pose proof (t_height Ht). lia.
  - intros x nx hx px Hx Hpx. unfold pos' in Hpx. apply lookup_delete_Some in Hpx as [Hxc Hpx].
    destruct (decide (x = parent nc)) as [->|Hxa].
    { unfold ns' in Hx. rewrite lookup_insert_eq in Hx. injection Hx as <-.
      rewrite Hpa in Hpx. injection Hpx as <- <-. apply remove_child_self. }
    unfold ns' in Hx. rewrite lookup_insert_ne, lookup_delete_ne in Hx by done.
    pose proof (t_node Ht _ _ _ _ Hx Hpx) as Ox.
    eapply (node_ok_frame H rt); eauto using ok_below.
    + congruence.
    + intros d nd y Hd Hpd Hpard. assert (d ≠ c) by congruence.
      destruct (decide (d = parent nc)) as [->|].
      * rewrite Ha in Hd. injection Hd as <-. exists n'. unfold ns'. rewrite lookup_insert_eq.
        split_and!; auto using remove_child_pos.
      * exists nd. split_and!; auto using remove_child_pos, remove_child_lookup.
    + eapply link_ok_frame; [apply Ox|]. intros nb y Hb Hpb Hent.
      assert (parent nx ≠ c) by (intros E; rewrite E, Hc in Hb; injection Hb as <-;
        apply Hz in Hent; by destruct (tag_nonzero x)).
      destruct (decide (parent nx = parent nc)) as [E|].
      * rewrite E in *. rewrite Ha in Hb. injection Hb as <-. exists n'. unfold ns'.
        rewrite lookup_insert_eq. split_and!; auto using remove_child_pos.
        rewrite remove_child_entry. case_decide as E'; [|done]. rewrite E', He in Hent.
        injection Hent as Hent. apply tag_inj in Hent; [done|apply (t_node Ht _ _ _ _ Hc Hpc)|apply Ox].
      * exists nb. split_and!; auto using remove_child_pos, remove_child_lookup.
Qed.
End RemoveChild.

(** *** Adding and removing a level *)

Lemma count_nz_one l i j e f :
  count_nz l = 1%nat → l !! i = Some e → e ≠ 0 → l !! j = Some f → f ≠ 0 → i = j.
Proof.
  intros Hc Hi He Hj Hf. destruct (decide (i = j)) as [|Hij]; [done|exfalso].
  pose proof (count_nz_insert l i e 0 Hi) as H1.
  rewrite decide_True, decide_False in H1 by auto.
  assert (count_nz (<[i := 0]> l) = 0%nat) as H0 by lia.
  apply Hf. apply (proj1 (count_nz_zero _) H0 j). by rewrite list_lookup_insert_ne.
Qed.

(** The root that [rdxtree_grow] puts above an old root [e]. *)
Definition grown_node (g h bm e : N) : rdxtree_node :=
  RNode 0 g h 1 bm (<[0%nat := e]> (replicate (N.to_nat RDXTREE_RADIX_SIZE) 0)).

Lemma grown_node_lookup g h bm e j f :
  entries (grown_node g h bm e) !! j = Some f → f ≠ 0 → j = 0%nat ∧ f = e.
Proof.
  intros Hj Hf. destruct j as [|j]; [by injection Hj as <-|].
  cbn [entries grown_node] in Hj. rewrite list_lookup_insert_ne in Hj by done.
  apply lookup_replicate in Hj as [-> _]. done.
Qed.

Lemma grown_node_count e : e ≠ 0 → count_nz (<[0%nat := e]> (replicate (N.to_nat RDXTREE_RADIX_SIZE) 0)) = 1%nat.
Proof.
  intros He. pose proof (count_nz_insert (replicate (N.to_nat RDXTREE_RADIX_SIZE) 0) 0 0 e) as Hc.
  rewrite (decide_True (P := e ≠ 0)) in Hc by done. rewrite count_nz_replicate in Hc.
  rewrite decide_False in Hc by auto. specialize (Hc eq_refl). lia.
Qed.

Lemma bm_full_bit j : j < 64 → N.testbit RDXTREE_BM_FULL j = true.
Proof. intros Hj. by rewrite bm_full_ones, N.ones_spec_low. Qed.

Lemma grown_node_ok H ns pos c g h bm e :
  h < H → h + 1 = H → c ≠ 0 → aligned c → e ≠ 0 →
  bm = RDXTREE_BM_FULL ∨ bm = bm_bit_clear RDXTREE_BM_FULL 0 →
  entry_ok ns pos c h 0 0 e → bit_ok ns h e (N.testbit bm 0) →
  node_ok H (rdxtree_node_to_entry c) ns pos None None c (grown_node g h bm e) h 0.
Proof.
  intros Hlt HH Hc Hcal He Hbm Hent Hbit. split; try done.
  - cbn [grown_node nr_entries entries]. by rewrite grown_node_count.
  - cbn [grown_node alloc_bm]. by destruct Hbm as [->| ->]; vm_compute.
  - intros i f Hi Hf. apply grown_node_lookup in Hi as [Hi ->]; [|done].
    by replace i with 0 by lia.
  - left. done.
  - intros i f _ Hi. destruct (decide (f = 0)) as [->|Hf].
    + unfold bit_ok. rewrite decide_True by done. cbn [grown_node alloc_bm].
      assert (i ≠ 0 ∧ i < 64) as [Hi0 Hi64].
      { split.
        - intros ->. injection Hi as Hi. congruence.
        - apply lookup_lt_Some in Hi. cbn [entries grown_node] in Hi.
          rewrite length_insert, length_replicate in Hi.
          change (N.to_nat RDXTREE_RADIX_SIZE) with 64%nat in Hi. lia. }
      destruct Hbm as [->| ->]; [by apply bm_full_bit|].
      unfold bm_bit_clear. rewrite ldiff_pow2_testbit, decide_False by done. by apply bm_full_bit.
    + apply grown_node_lookup in Hi as [Hi ->]; [|done]. by replace i with 0 by lia.
Qed.

(** From a stored pointer at the root to a leaf. *)
Lemma tree_ok_grow_leaf c g e :
  c ≠ 0 → aligned c → e ≠ 0 → aligned e →
  tree_ok 1 (rdxtree_node_to_entry c)
    {[c := grown_node g 0 (bm_bit_clear RDXTREE_BM_FULL 0) e]} {[c := (0, 0)]} None None.
Proof.
  intros Hc Hcal He Heal. split; try done.
  - intros x. by rewrite !lookup_singleton_is_Some.
  - exists c. by rewrite lookup_singleton_eq.
  - intros x nx hx px [<- <-]%lookup_singleton_Some [_ [= <- <-]]%lookup_singleton_Some.
    apply grown_node_ok; try done; [by right|unfold bit_ok]. by rewrite decide_False, decide_True.
Qed.

Section Grow.
Context {H : N} {ns : gmap N rdxtree_node} {pos : gmap N (N * N)} {r c g : N} {nr : rdxtree_node}.
Context (Ht : tree_ok H (rdxtree_node_to_entry r) ns pos None None) (HH : H < 6)
  (Hr : ns !! r = Some nr) (Hpr : pos !! r = Some (H - 1, 0))
  (Hc : ns !! c = None) (Hc0 : c ≠ 0) (Hcal : aligned c).

Let bm := if alloc_bm nr =? 0 then bm_bit_clear RDXTREE_BM_FULL 0 else RDXTREE_BM_FULL.
Let nc := grown_node g H bm (rdxtree_node_to_entry r).
Let ns' := <[c := nc]> (<[r := node_set_link c 0 nr]> ns).
Let pos' := <[c := (H, 0)]> pos.

Lemma grow_pos x y : pos !! x = Some y → pos' !! x = Some y.
Proof.
  intros Hx. unfold pos'. rewrite lookup_insert_ne; [done|]. intros <-.
  destruct (proj1 (t_dom Ht c)); [eauto|congruence].
Qed.

Lemma grow_lookup x nx : ns !! x = Some nx → x ≠ r → ns' !! x = Some nx.
Proof. intros Hx ?. unfold ns'. rewrite !lookup_insert_ne; [done|done|congruence]. Qed.

Lemma grow_root_lookup : ns' !! r = Some (node_set_link c 0 nr).
Proof. unfold ns'. rewrite lookup_insert_ne, lookup_insert_eq; [done|congruence]. Qed.

(** Only the new root is the parent of the old one. *)
Lemma grow_children x d nd y : x ≠ 0 →
  ns !! d = Some nd → pos !! d = Some y → parent nd = x →
  ∃ nd', ns' !! d = Some nd' ∧ pos' !! d = Some y ∧ parent nd' = x ∧
    index nd' = index nd ∧ (alloc_bm nd' = alloc_bm nd ∨ @None (N * N) = Some (x, index nd)).
Proof.
  intros Hx Hd Hpd Hpard. exists nd. split_and!; auto using grow_pos.
  apply grow_lookup; [done|]. intros ->.
  destruct (t_top Ht _ _ _ _ Hr Hpr) as (_ & E & _); [pose proof (t_height Ht); lia|].
  rewrite Hr in Hd. injection Hd as <-. congruence.
Qed.

Lemma grow_new_root : node_ok (H + 1) (rdxtree_node_to_entry c) ns' pos' None None c nc H 0.
Proof.
  pose proof (t_node Ht _ _ _ _ Hr Hpr) as Or. pose proof (t_height Ht) as HH0.
  apply grown_node_ok; auto; try lia.
  - unfold bm. destruct (_ =? _); auto.
  - unfold entry_ok. rewrite decide_False by lia. exists r, (node_set_link c 0 nr).
    split_and!; auto using grow_root_lookup, grow_pos.
  - unfold bit_ok. rewrite !decide_False by (auto; lia).
    rewrite entry_addr_tag, grow_root_lookup by apply Or. intros ? [= <-]. simpl.
    unfold bm. by destruct (N.eqb_spec (alloc_bm nr) 0) as [->|].
Qed.

Lemma tree_ok_grow : tree_ok (H + 1) (rdxtree_node_to_entry c) ns' pos' None None.
Proof.
  pose proof (t_node Ht _ _ _ _ Hr Hpr) as Or. pose proof (t_height Ht) as HH0.
  split.
  - lia.
  - intros x. unfold ns', pos'. rewrite !lookup_insert_is_Some', (t_dom Ht).
    split; [intros [->|?]; auto|]. intros [->|[->|?]]; eauto.
  - exists c. split; [done|]. unfold pos'. rewrite lookup_insert_eq. do 2 f_equal. lia.
  - intros x nx hx px Hx Hpx. destruct (decide (x = c)) as [->|Hxc].
    { unfold ns' in Hx. unfold pos' in Hpx. rewrite lookup_insert_eq in Hx.
      rewrite lookup_insert_eq in Hpx. injection Hx as <-. injection Hpx as <- <-.
      apply grow_new_root. }
    unfold pos' in Hpx. rewrite lookup_insert_ne in Hpx by done.
    destruct (decide (x = r)) as [->|Hxr].
    + rewrite grow_root_lookup in Hx. injection Hx as <-. rewrite Hpr in Hpx. injection Hpx as <- <-.
      eapply (node_ok_relink (H + 1)); eauto; [lia| |].
      * intros. eapply grow_children; eauto. apply Or.
      * right. exists nc. unfold ns', pos'. simpl. rewrite !lookup_insert_eq.
        replace (H - 1 + 1) with H by lia. done.
    + unfold ns' in Hx. rewrite !lookup_insert_ne in Hx by done.
      pose proof (t_node Ht _ _ _ _ Hx Hpx) as Ox. pose proof (ok_below Ox).
      eapply (node_ok_frame (H + 1)); eauto; [lia| |].
      * intros. eapply grow_children; eauto. apply Ox.
      * destruct (ok_link Ox) as [(_ & _ & _ & E)|(nb & Hb & Hpb & Hi & He)].
        { apply tag_inj in E; [done|apply Or|apply Ox]. }
        right. destruct (decide (parent nx = r)) as [E|].
        -- rewrite E in *. exists (node_set_link c 0 nr).
           rewrite Hr in Hb. injection Hb as <-. auto using grow_root_lookup, grow_pos.
        -- exists nb. auto using grow_lookup, grow_pos.
Qed.
End Grow.

Section Shrink.
Context {H rt : N} {ns : gmap N rdxtree_node} {pos : gmap N (N * N)}
  {r e : N} {nr nc : rdxtree_node}.
Context (Ht : tree_ok H rt ns pos None None) (HH : 1 < H)
  (Hr : ns !! r = Some nr) (Hpr : pos !! r = Some (H - 1, 0))
  (Hone : nr_entries nr = 1) (He : entries nr !! 0%nat = Some e) (He0 : e ≠ 0)
  (Hc : ns !! rdxtree_entry_addr e = Some nc).

Let c := rdxtree_entry_addr e.
Let ns' := delete r (<[c := node_set_link 0 (index nc) nc]> ns).
Let pos' := delete r pos.

Lemma shrink_child :
  e = rdxtree_node_to_entry c ∧ pos !! c = Some (H - 2, 0) ∧ parent nc = r ∧ c ≠ r.
Proof.
  destruct (t_child Ht _ _ _ _ 0 e Hr Hpr ltac:(lia) ltac:(lia) He He0)
    as (m & Etag & Hm & Hpm & Hparm & Him & _).
  rewrite Hc in Hm. injection Hm as <-. split_and!; try done.
  - unfold c. rewrite Hpm. do 2 f_equal. lia.
  - apply (child_ne_self Ht Hr Hpr 0); [done|done|lia].
Qed.

Lemma shrink_root_parent : parent nr = 0 ∧ rt = rdxtree_node_to_entry r.
Proof. by destruct (t_top Ht _ _ _ _ Hr Hpr) as (_ & ? & ?); [lia|]. Qed.

Lemma shrink_lookup x nx : ns !! x = Some nx → x ≠ r → x ≠ c → ns' !! x = Some nx.
Proof. intros ???. unfold ns'. by rewrite lookup_delete_ne, lookup_insert_ne. Qed.

Lemma shrink_child_lookup : ns' !! c = Some (node_set_link 0 (index nc) nc).
Proof. destruct shrink_child as (_ & _ & _ & ?). unfold ns'. by rewrite lookup_delete_ne, lookup_insert_eq. Qed.

Lemma shrink_pos x y : pos !! x = Some y → x ≠ r → pos' !! x = Some y.
Proof. intros ??. unfold pos'. by rewrite lookup_delete_ne. Qed.

(** The old root has no other child. *)
Lemma shrink_only_child x nx hx px :
  ns !! x = Some nx → pos !! x = Some (hx, px) → parent nx = r → x = c.
Proof.
  intros Hx Hpx Hpar. pose proof (t_node Ht _ _ _ _ Hx Hpx) as Ox.
  pose proof (t_node Ht _ _ _ _ Hr Hpr) as Or. destruct shrink_child as (Etag & Hpc & _).
  destruct (t_parent Ht _ _ _ _ Hx Hpx) as (nb & Hb & _ & _ & Hent).
  { rewrite Hpar. apply Or. }
  rewrite Hpar, Hr in Hb. injection Hb as <-. pose proof (ok_count Or).
  assert (N.to_nat (px mod 64) = 0%nat) as E0.
  { symmetry. eapply count_nz_one; [|exact He|done|exact Hent|auto]. lia. }
  rewrite E0, He in Hent. injection Hent as Hent. rewrite Etag in Hent.
  apply tag_inj in Hent; [done| |apply Ox]. apply (t_node Ht _ _ _ _ Hc Hpc).
Qed.

Lemma shrink_children x d nd y : x ≠ r → x ≠ 0 →
  ns !! d = Some nd → pos !! d = Some y → parent nd = x →
  ∃ nd', ns' !! d = Some nd' ∧ pos' !! d = Some y ∧ parent nd' = x ∧
    index nd' = index nd ∧ (alloc_bm nd' = alloc_bm nd ∨ @None (N * N) = Some (x, index nd)).
Proof.
  destruct shrink_root_parent as [Hpar _]. destruct shrink_child as (_ & _ & Hparc & _).
  intros Hxr Hx0 Hd Hpd Hpard.
  assert (d ≠ r) by congruence. assert (d ≠ c) by (intros ->; unfold c in *; congruence).
  exists nd. split_and!; auto using shrink_lookup, shrink_pos.
Qed.

Lemma tree_ok_shrink : tree_ok (H - 1) e ns' pos' None None.
Proof.
  destruct shrink_child as (Etag & Hpc & Hparc & Hcr). pose proof (t_height Ht).
  destruct shrink_root_parent as [Hrpar Hrt].
  split.
  - lia.
  - intros x. unfold ns', pos'. rewrite !lookup_delete_is_Some, lookup_insert_is_Some', (t_dom Ht).
    split; [intros [? ?]; auto|]. intros [? [<-|?]]; [split; [done|]|done]. unfold c. eauto.
  - exists c. split; [done|]. replace (H - 1 - 1) with (H - 2) by lia. by apply shrink_pos.
  - intros x nx hx px Hx Hpx. unfold pos' in Hpx. apply lookup_delete_Some in Hpx as [Hxr Hpx].
    assert (∀ m, ns !! x = Some m → hx < H - 1) as Hlt.
    { intros m Hm. pose proof (ok_below (t_node Ht _ _ _ _ Hm Hpx)).
      destruct (decide (hx + 1 = H)); [|lia]. exfalso. apply Hxr.
      assert (px = 0) as -> by (by destruct (t_top Ht _ _ _ _ Hm Hpx)).
      apply (t_pos_inj Ht r x hx 0); [|done]. rewrite Hpr. do 2 f_equal. lia. }
    destruct (decide (x = c)) as [->|Hxc].
    + rewrite shrink_child_lookup in Hx. injection Hx as <-.
      rewrite Hpc in Hpx. injection Hpx as <- <-.
      eapply (node_ok_relink (H - 1)); eauto.
      * intros. eapply shrink_children; eauto. apply (t_node Ht _ _ _ _ Hc Hpc).
      * left. split_and!; try done. lia.
    + unfold ns' in Hx. rewrite lookup_delete_ne, lookup_insert_ne in Hx by done.
      pose proof (t_node Ht _ _ _ _ Hx Hpx) as Ox.
      eapply (node_ok_frame (H - 1)); eauto.
      * intros. eapply shrink_children; eauto. apply Ox.
      * destruct (ok_link Ox) as [(? & _)|(nb & Hb & Hpb & Hi & Hent)].
        { specialize (Hlt _ Hx). lia. }
        right. assert (parent nx ≠ r) as Hpr' by (intros E; by eapply Hxc, shrink_only_child).
        destruct (decide (parent nx = c)) as [E|].
        -- rewrite E in *. exists (node_set_link 0 (index nc) nc).
           unfold c in Hb. rewrite Hc in Hb. injection Hb as <-.
           auto using shrink_child_lookup, shrink_pos.
        -- exists nb. auto using shrink_lookup, shrink_pos.
Qed.
End Shrink.

(** A tree of one level is its root. *)
Lemma t_single H rt ns pos eh bh r nr x nx :
  tree_ok H rt ns pos eh bh → H = 1 → ns !! r = Some nr → ns !! x = Some nx → x = r.
Proof.
  intros Ht -> Hr Hx. destruct (t_pos Ht _ _ Hr) as (h1 & p1 & Hp1).
  destruct (t_pos Ht _ _ Hx) as (h2 & p2 & Hp2).
  pose proof (ok_below (t_node Ht _ _ _ _ Hr Hp1)). pose proof (ok_below (t_node Ht _ _ _ _ Hx Hp2)).
  assert (p1 = 0) as -> by (destruct (t_top Ht _ _ _ _ Hr Hp1); [lia|done]).
  assert (p2 = 0) as -> by (destruct (t_top Ht _ _ _ _ Hx Hp2); [lia|done]).
  apply (t_pos_inj Ht _ _ 0 0); [rewrite Hp2|rewrite Hp1]; do 2 f_equal; lia.
Qed.

(** A tree whose root is empty is its root. *)
Lemma t_empty_root H rt ns pos eh r nr x nx :
  tree_ok H rt ns pos eh None → ns !! r = Some nr → parent nr = 0 → nr_entries nr = 0 →
  ns !! x = Some nx → x = r.
Proof.
  intros Ht Hr Hpar Hnr Hx. destruct (t_pos Ht _ _ Hr) as (h1 & p1 & Hp1).
  destruct (t_empty_bm Ht Hr Hp1 Hnr) as [_ Hz].
  destruct (t_no_parent Ht _ _ _ _ Hr Hp1 Hpar) as (Hh1 & -> & _).
  destruct (t_pos Ht _ _ Hx) as (h2 & p2 & Hp2).
  remember (N.to_nat (H - 1 - h2)) as d eqn:Hd. revert x nx h2 p2 Hx Hp2 Hd.
  induction d as [|d IH]; intros x nx h2 p2 Hx Hp2 Hd;
    pose proof (ok_below (t_node Ht _ _ _ _ Hx Hp2)).
  - assert (p2 = 0) as -> by (destruct (t_top Ht _ _ _ _ Hx Hp2); [lia|done]).
    apply (t_pos_inj Ht _ _ h1 0); [|done]. rewrite Hp2. do 2 f_equal. lia.
  - destruct (ok_link (t_node Ht _ _ _ _ Hx Hp2)) as [(? & _)|(nb & Hb & Hpb & _ & Hent)]; [lia|].
    rewrite (IH _ _ _ _ Hb Hpb) in Hb by lia. rewrite Hr in Hb. injection Hb as <-.
    apply Hz in Hent. by destruct (tag_nonzero x).
Qed.

Lemma only_node_delete ns r :
  (∀ x nx, ns !! x = Some nx → x = r) → delete r ns = ∅.
Proof.
  intros Ho. apply map_eq. intros x. rewrite lookup_empty.
  destruct (decide (x = r)) as [->|]; [apply lookup_delete_eq|].
  rewrite lookup_delete_ne by done. destruct (ns !! x) eqn:E; [|done]. by apply Ho in E.
Qed.

(** The first node of a tree that has a height but no root yet. *)
Lemma tree_ok_first H c g :
  0 < H ≤ 6 → c ≠ 0 → aligned c →
  tree_ok H (rdxtree_node_to_entry c) {[c := fresh_node 0 g (H - 1)]} {[c := (H - 1, 0)]}
    (Some c) None.
Proof.
  intros HH Hc Hcal. split; try done.
  - intros x. by rewrite !lookup_singleton_is_Some.
  - exists c. by rewrite lookup_singleton_eq.
  - intros x nx hx px [<- <-]%lookup_singleton_Some [_ [= <- <-]]%lookup_singleton_Some.
    split; try done; [lia| | |].
    + intros j e [-> _]%lookup_replicate. done.
    + left. split_and!; try done. lia.
    + intros j e _ Hj. by eapply fresh_node_bits.
Qed.
