(* ===== verification/RdxtreeOps.v ===== *)
(** The internal routines of the radix tree against its invariant: what
    shrinking, growing, cleaning up and maintaining the bitmaps do to a store
    that represents a finite map. *)

From S2P Require Import Prelude Kmem Rdxtree RdxtreeInv.

Open Scope N_scope.

(** ** Bindings under the store transformations *)

Lemma leaf_binds_frame ns pos ns' pos' k v :
  (∀ a n q j e, ns !! a = Some n → pos !! a = Some (0, q) →
     entries n !! j = Some e → e ≠ 0 →
     ∃ n', ns' !! a = Some n' ∧ pos' !! a = Some (0, q) ∧ entries n' = entries n) →
  leaf_binds ns pos k v → leaf_binds ns' pos' k v.
Proof.
  intros Hfr (a & n & Hp & Ha & He & Hv).
  destruct (Hfr a n _ _ v Ha Hp He Hv) as (n' & ? & ? & E). exists a, n'. by rewrite E.
Qed.

Lemma leaf_binds_same_entries ns pos a n n' k v :
  ns !! a = Some n → entries n' = entries n →
  leaf_binds (<[a := n']> ns) pos k v ↔ leaf_binds ns pos k v.
Proof.
  intros Ha He. split; apply leaf_binds_frame; intros b m q j e Hb Hq _ _.
  - apply lookup_insert_Some in Hb as [[<- <-]|[_ Hb]]; eauto.
  - destruct (decide (a = b)) as [<-|].
    + rewrite Ha in Hb. injection Hb as <-. exists n'. by rewrite lookup_insert_eq.
    + exists m. by rewrite lookup_insert_ne.
Qed.

(** Storing [v] at index [i] of the leaf at [p]. *)
Lemma leaf_binds_store H rt ns pos eh bh a n p i e v nr k w :
  tree_ok H rt ns pos eh bh → ns !! a = Some n → pos !! a = Some (0, p) →
  entries n !! N.to_nat i = Some e →
  leaf_binds (<[a := node_set_entry nr i v n]> ns) pos k w ↔
  if decide (k = p * 64 + i) then w = v ∧ v ≠ 0 else leaf_binds ns pos k w.
Proof.
  intros Ht Ha Hp He. pose proof (index_lt Ht Ha Hp _ _ He) as Hi.
  destruct (prefix_div p i Hi) as [Hd Hm]. assert (N.to_nat i < length (entries n))%nat
    by (by eapply lookup_lt_Some). case_decide as Ek.
  - subst k. unfold leaf_binds. rewrite Hd, Hm. split.
    + intros (b & m & Hpb & Hb & Hw & ?). rewrite (t_pos_inj Ht _ _ _ _ Hpb Hp) in Hb.
      rewrite lookup_insert_eq in Hb. injection Hb as <-. simpl in Hw.
      rewrite list_lookup_insert_eq in Hw by done. by injection Hw as <-.
    + intros [-> ?]. exists a. eexists. rewrite lookup_insert_eq. split_and!; try done. simpl.
      by rewrite list_lookup_insert_eq.
  - unfold leaf_binds. split.
    + intros (b & m & Hpb & Hb & Hw & ?). apply lookup_insert_Some in Hb as [[<- <-]|[_ Hb]]; [|eauto 6].
      exists a, n. split_and!; try done. simpl in Hw. rewrite list_lookup_insert_ne in Hw; [done|].
      intros E%N2Nat.inj. rewrite Hp in Hpb. injection Hpb as E'. pose proof (prefix_inv k). congruence.
    + intros (b & m & Hpb & Hb & Hw & ?). destruct (decide (a = b)) as [<-|].
      * rewrite Ha in Hb. injection Hb as <-. exists a. eexists. rewrite lookup_insert_eq.
        split_and!; try done. simpl. rewrite list_lookup_insert_ne; [done|].
        intros E%N2Nat.inj. rewrite Hp in Hpb. injection Hpb as E'. pose proof (prefix_inv k). congruence.
      * exists b, m. by rewrite lookup_insert_ne.
Qed.

Lemma leaf_binds_add_child H rt ns pos eh bh a n h p i c q k v :
  tree_ok H rt ns pos eh bh → ns !! a = Some n → pos !! a = Some (h, p) → h ≠ 0 →
  ns !! c = None →
  leaf_binds (<[a := node_set_entry (nr_entries n + 1) i (rdxtree_node_to_entry c) n]>
       (<[c := fresh_node a i (h - 1)]> ns)) (<[c := q]> pos) k v ↔
  leaf_binds ns pos k v.
Proof.
  intros Ht Ha Hp Hh Hc. assert (a ≠ c) by congruence.
  assert (pos !! c = None) as Hpc.
  { destruct (pos !! c) eqn:E; [|done]. destruct (proj1 (t_dom Ht c)); [eauto|congruence]. }
  split; apply leaf_binds_frame; intros b m y j e Hb Hy Hj He.
  - destruct (decide (b = c)) as [->|].
    { rewrite lookup_insert_ne, lookup_insert_eq in Hb by done. injection Hb as <-.
      apply lookup_replicate in Hj as [-> _]. done. }
    rewrite lookup_insert_ne in Hy by done.
    destruct (decide (b = a)) as [->|]; [congruence|].
    rewrite !lookup_insert_ne in Hb by done. eauto.
  - assert (b ≠ a) by congruence. assert (b ≠ c) by congruence. exists m.
    by rewrite !lookup_insert_ne.
Qed.

Lemma leaf_binds_remove_child H rt ns pos eh a n n' h p c nc k v :
  tree_ok H rt ns pos eh None → ns !! a = Some n → pos !! a = Some (h, p) → h ≠ 0 →
  ns !! c = Some nc → nr_entries nc = 0 →
  leaf_binds (<[a := n']> (delete c ns)) (delete c pos) k v ↔ leaf_binds ns pos k v.
Proof.
  intros Ht Ha Hp Hh Hc Hnr.
  split; apply leaf_binds_frame; intros b m y j e Hb Hy Hj He.
  - apply lookup_delete_Some in Hy as [Hbc Hy]. destruct (decide (b = a)) as [->|]; [congruence|].
    rewrite lookup_insert_ne, lookup_delete_ne in Hb by done. eauto.
  - assert (b ≠ a) by congruence. assert (b ≠ c).
    { intros ->. rewrite Hc in Hb. injection Hb as <-.
      destruct (t_empty_bm Ht Hc Hy Hnr) as [_ Hz]. by apply Hz in Hj. }
    exists m. by rewrite lookup_insert_ne, !lookup_delete_ne.
Qed.

Lemma leaf_binds_grow ns pos r nr c nc g h k v :
  ns !! r = Some nr → ns !! c = None → pos !! c = None → h ≠ 0 → nc = node_set_link c g nr →
  ∀ n, leaf_binds (<[c := n]> (<[r := nc]> ns)) (<[c := (h, 0)]> pos) k v ↔ leaf_binds ns pos k v.
Proof.
  intros Hr Hc Hpc Hh -> n. split; apply leaf_binds_frame; intros b m y j e Hb Hy _ _.
  - destruct (decide (b = c)) as [->|]; [rewrite lookup_insert_eq in Hy; congruence|].
    rewrite lookup_insert_ne in Hb by done. rewrite lookup_insert_ne in Hy by done.
    apply lookup_insert_Some in Hb as [[<- <-]|[_ Hb]]; eauto.
  - assert (b ≠ c) by congruence. rewrite !(lookup_insert_ne _ c) by done.
    destruct (decide (b = r)) as [->|].
    + rewrite Hr in Hb. injection Hb as <-. rewrite lookup_insert_eq. eauto.
    + rewrite lookup_insert_ne by done. eauto.
Qed.

Lemma leaf_binds_shrink ns pos r nr c nc g h p k v :
  ns !! r = Some nr → pos !! r = Some (h, p) → h ≠ 0 → ns !! c = Some nc →
  leaf_binds (delete r (<[c := node_set_link 0 g nc]> ns)) (delete r pos) k v ↔ leaf_binds ns pos k v.
Proof.
  intros Hr Hpr Hh Hc. split; apply leaf_binds_frame; intros b m y j e Hb Hy _ _.
  - apply lookup_delete_Some in Hy as [Hbr Hy]. apply lookup_delete_Some in Hb as [_ Hb].
    apply lookup_insert_Some in Hb as [[<- <-]|[_ Hb]]; eauto.
  - assert (b ≠ r) by congruence. rewrite !lookup_delete_ne by done.
    destruct (decide (b = c)) as [->|].
    + rewrite Hc in Hb. injection Hb as <-. rewrite lookup_insert_eq. eauto.
    + rewrite lookup_insert_ne by done. eauto.
Qed.

(** ** Representation *)

Section Ops.
Context {C : Type} `{!KmemCache C} (garbage : N).
Implicit Types (s : store C) (m : gmap N N).

(** The tree has levels and binds the keys as [m] does; [eh] and [bh] are the
    holes of the invariant. *)
Definition levels_rep s pos m eh bh : Prop :=
  km_live (cache s) = dom (nodes s) ∧
  tree_ok (height (tree s)) (root (tree s)) (nodes s) pos eh bh ∧
  ∀ k v, m !! k = Some v ↔ leaf_binds (nodes s) pos k v.

(** The tree holds at most the key 0, at its root. *)
Definition flat_rep s m : Prop :=
  km_live (cache s) = ∅ ∧ nodes s = ∅ ∧ height (tree s) = 0 ∧ aligned (root (tree s)) ∧
  m = (if decide (root (tree s) = 0) then ∅ else {[0 := root (tree s)]}).

(** The store represents the finite map [m]. *)
Definition rep s m : Prop := flat_rep s m ∨ ∃ pos, levels_rep s pos m None None.

Lemma rep_empty (c : C) : km_live c = ∅ → rep (Store (RTree 0 0) ∅ c) ∅.
Proof. intros Hc. left. done. Qed.

(** *** Primitives *)

Lemma wp_load a n Q s : nodes s !! a = Some n → Q n s → wp (load a) Q s.
Proof. intros Ha HQ. unfold load. wp_steps. by apply (wp_deref _ n). Qed.

Lemma wp_update a n f Q s :
  nodes s !! a = Some n →
  Q tt (Store (tree s) (<[a := f n]> (nodes s)) (cache s)) → wp (update a f) Q s.
Proof. intros Ha HQ. unfold update. wp_steps. apply (wp_deref _ n); [done|]. by wp_steps. Qed.

Lemma wp_get_tree Q s : Q (tree s) s → wp get_tree Q s.
Proof. done. Qed.

Lemma wp_entry_at n i e (Q : N → store C → Prop) s :
  entries n !! N.to_nat i = Some e → Q e s → wp (entry_at n i) Q s.
Proof. intros He HQ. by apply (wp_deref _ e). Qed.

Lemma wp_destroy a n Q s :
  nodes s !! a = Some n →
  Q tt (Store (tree s) (delete a (nodes s)) (kmem_cache_free (cache s) a)) →
  wp (rdxtree_node_schedule_destruction a) Q s.
Proof.
  intros Ha HQ. unfold rdxtree_node_schedule_destruction. wp_steps.
  apply (wp_deref _ n); [done|]. by wp_steps.
Qed.

(** Creating a node: nothing but the cache changes when memory runs out. *)
Lemma wp_create h (Q : option N → store C → Prop) s :
  km_live (cache s) = dom (nodes s) →
  (∀ c, km_live c = dom (nodes s) → Q None (Store (tree s) (nodes s) c)) →
  (∀ c a, km_live c = {[a]} ∪ dom (nodes s) → a ≠ 0 → aligned a → nodes s !! a = None →
     Q (Some a) (Store (tree s) (<[a := fresh_node 0 garbage h]> (nodes s)) c)) →
  wp (rdxtree_node_create garbage h) Q s.
Proof.
  intros Hlive Hnone Hsome. unfold rdxtree_node_create. wp_steps.
  destruct (kmem_cache_alloc (cache s)) as [[a|] c] eqn:E; wp_steps.
  - destruct (kmem_alloc_some _ _ _ E) as (Hfresh & Ha0 & Ha8 & Hc).
    apply aligned_8 in Ha8. by apply check_alignment_true.
  - destruct (kmem_alloc_some _ _ _ E) as (Hfresh & Ha0 & Ha8 & Hc).
    apply Hsome; [by rewrite Hc, Hlive|done|by apply aligned_8|].
    rewrite Hlive in Hfresh. by apply not_elem_of_dom.
  - apply Hnone. by rewrite (kmem_alloc_none _ _ E).
Qed.

Lemma live_free s a n :
  km_live (cache s) = dom (nodes s) → nodes s !! a = Some n →
  km_live (kmem_cache_free (cache s) a) = dom (delete a (nodes s)).
Proof.
  intros Hlive Ha. rewrite kmem_free_live, Hlive, dom_delete_L; [done|].
  rewrite Hlive. apply elem_of_dom. eauto.
Qed.

(** *** Shrinking *)

Lemma rep_binds_zero s pos m eh bh r nr e :
  levels_rep s pos m eh bh → height (tree s) = 1 → nodes s !! r = Some nr → pos !! r = Some (0, 0) →
  nr_entries nr = 1 → entries nr !! 0%nat = Some e → e ≠ 0 → m = {[0 := e]}.
Proof.
  intros (_ & Ht & Hm) H1 Hr Hpr Hone He He0. apply map_eq. intros k.
  apply option_eq. intros v. rewrite Hm, lookup_singleton_Some.
  pose proof (t_node Ht _ _ _ _ Hr Hpr) as Or. split.
  - intros (a & n & Ha & Hn & Hv & Hv0).
    assert (a = r) as -> by (by eapply t_single). rewrite Hr in Hn. injection Hn as <-.
    rewrite Hpr in Ha. injection Ha as Ek. pose proof (ok_count Or).
    assert (0%nat = N.to_nat (k mod 64)) as E.
    { eapply count_nz_one; [|exact He|done|exact Hv|done]. lia. }
    rewrite <- E, He in Hv. pose proof (prefix_inv k). split; [lia|congruence].
  - intros [<- <-]. exists r, nr. done.
Qed.

Lemma rdxtree_shrink_loop_spec fuel s m :
  rep s m → (N.to_nat (height (tree s)) < fuel)%nat →
  wp (rdxtree_shrink_loop fuel) (λ _ s', rep s' m) s.
Proof.
  revert s. induction fuel as [|fuel IH]; intros s Hrep Hfuel; [lia|]. cbn [rdxtree_shrink_loop].
  wp_step. apply wp_get_tree. destruct (N.eqb_spec (height (tree s)) 0) as [E|E]; [by apply wp_ret|].
  destruct Hrep as [(_ & _ & ? & _)|(pos & Hlive & Ht & Hm)]; [done|].
  destruct (t_root Ht) as (r & Ert & Hpr). destruct (t_lookup Ht _ _ _ Hpr) as (nr & Hr & Or).
  rewrite Ert, entry_addr_tag by apply Or.
  wp_step. apply (wp_load _ nr); [done|].
  assert (rep s m) as Hrep by (right; by exists pos).
  destruct (N.eqb_spec (nr_entries nr) 1) as [Hone|]; cbn [negb]; [|by apply wp_ret].
  destruct (t_entry_exists _ _ _ _ 0 Or ltac:(lia)) as [e He].
  wp_step. apply (wp_entry_at _ _ e); [done|]. change (entries nr !! 0%nat = Some e) in He.
  destruct (N.eqb_spec e 0) as [|He0]; [by apply wp_ret|].
  wp_step. apply wp_modify. wp_step.
  destruct (N.ltb_spec 0 (height (tree s) - 1)) as [Hgt|Hle].
  - destruct (t_child Ht _ _ _ _ 0 e Hr Hpr ltac:(lia) ltac:(lia) He He0)
      as (nc & Etag & Hc & Hpc & Hparc & Hic & _).
    unfold rdxtree_node_unlink. wp_step. apply (wp_load _ nc); [done|]. wp_step. wp_step.
    { apply negb_true_iff, N.eqb_neq. rewrite Hparc. apply Or. }
    apply (wp_update _ nc); [done|]. wp_step. apply wp_modify. wp_step. simpl.
    assert (rdxtree_entry_addr e ≠ r) as Hne by (apply (child_ne_self Ht Hr Hpr 0); [done|done|lia]).
    apply (wp_destroy _ nr); simpl; [by rewrite lookup_insert_ne|]. apply IH; simpl; [|lia].
    right. exists (delete r pos).
    replace (node_set_parent 0 nc) with (node_set_link 0 (index nc) nc) by done.
    split_and!; simpl.
    + rewrite (live_free s r nr) by done. rewrite !dom_delete_L, dom_insert_lookup_L; eauto.
    + eapply tree_ok_shrink; try done. lia.
    + intros k v. rewrite Hm. symmetry. eapply leaf_binds_shrink; try done. lia.
  - wp_step. wp_step. apply wp_modify. wp_step. simpl. apply (wp_destroy _ nr); [done|].
    assert (height (tree s) = 1) as H1 by lia.
    assert (delete r (nodes s) = ∅) as Hdel.
    { apply only_node_delete. intros x nx Hx. by eapply t_single. }
    rewrite H1 in Hpr. apply IH; simpl; [|lia]. left. simpl. split_and!; simpl.
    + rewrite (live_free s r nr) by done. by rewrite Hdel, dom_empty_L.
    + done.
    + lia.
    + pose proof (ok_entry (t_node Ht _ _ _ _ Hr Hpr) 0 e He He0) as Hoe.
      unfold entry_ok in Hoe. rewrite decide_True in Hoe by lia. apply Hoe.
    + rewrite decide_False by done. by eapply (rep_binds_zero s).
Qed.

Lemma rdxtree_shrink_spec s m : rep s m → wp rdxtree_shrink (λ _ s', rep s' m) s.
Proof. intros Hrep. unfold rdxtree_shrink. wp_step. apply wp_get_tree. apply rdxtree_shrink_loop_spec; [done|lia]. Qed.

(** *** Node updates *)

Lemma wp_node_insert a n i e (Q : unit → store C → Prop) s :
  nodes s !! a = Some n → i < 64 → entries n !! N.to_nat i = Some 0 →
  Q tt (Store (tree s) (<[a := node_set_entry (nr_entries n + 1) i e n]> (nodes s)) (cache s)) →
  wp (rdxtree_node_insert a i e) Q s.
Proof.
  intros Ha Hi He HQ. unfold rdxtree_node_insert. wp_step. apply (wp_load _ n); [done|].
  wp_step. wp_step; [by apply N.ltb_lt|]. wp_step. apply (wp_entry_at _ _ 0); [done|].
  wp_step. wp_step; [done|]. by apply (wp_update _ n).
Qed.

Lemma wp_node_remove a n i e (Q : unit → store C → Prop) s :
  nodes s !! a = Some n → i < 64 → entries n !! N.to_nat i = Some e → e ≠ 0 →
  Q tt (Store (tree s) (<[a := node_set_entry (nr_entries n - 1) i 0 n]> (nodes s)) (cache s)) →
  wp (rdxtree_node_remove a i) Q s.
Proof.
  intros Ha Hi He He0 HQ. unfold rdxtree_node_remove. wp_step. apply (wp_load _ n); [done|].
  wp_step. wp_step; [by apply N.ltb_lt|]. wp_step. apply (wp_entry_at _ _ e); [done|].
  wp_step. wp_step; [by apply negb_true_iff, N.eqb_neq|]. by apply (wp_update _ n).
Qed.

(** *** Growing *)

Lemma grow_height_spec fuel key h :
  h ≤ 6 → key < 2 ^ 32 → (N.to_nat (6 - h) < fuel)%nat →
  ∃ h', grow_height fuel key h = Some h' ∧ h ≤ h' ≤ 6 ∧ (rdxtree_max_key h' <? key) = false.
Proof.
  revert h. induction fuel as [|fuel IH]; intros h Hh Hk Hf; [lia|]. cbn [grow_height].
  destruct (rdxtree_max_key h <? key) eqn:E; [|exists h; split_and!; [done|lia|lia|done]].
  destruct (max_key_div_gt h key Hh Hk E) as [H5 _].
  destruct (IH (h + 1)) as (h' & ? & ? & ?); [lia|done|lia|]. exists h'. split_and!; [done|lia|lia|done].
Qed.

Lemma rep_height s m : rep s m → height (tree s) ≤ 6.
Proof. intros [(_ & _ & -> & _)|(pos & _ & Ht & _)]; [lia|]. apply (t_height Ht). Qed.

Lemma grow_loop_leaf s m (Q : unit → store C → Prop) c a :
  flat_rep s m → root (tree s) ≠ 0 → a ≠ 0 → aligned a → km_live c = {[a]} →
  (∀ n, rep (Store (RTree 1 (rdxtree_node_to_entry a)) {[a := n]} c) m →
     Q tt (Store (tree s) {[a := n]} c)) →
  wp (rdxtree_node_bm_clear a 0;; rdxtree_node_insert a 0 (root (tree s))) Q
    (Store (tree s) {[a := fresh_node 0 garbage 0]} c).
Proof.
  intros (_ & Hns & Hh & Hal & Hm) Hr Ha0 Haal Hc HQ. wp_step.
  apply (wp_update _ (fresh_node 0 garbage 0)); [by apply lookup_singleton_eq|].
  cbn [tree nodes cache].
  eapply wp_node_insert; cbn [tree nodes cache]; [by rewrite lookup_insert_eq|lia|done|].
  rewrite !insert_insert_eq, insert_singleton_eq. apply HQ. right. exists {[a := (0, 0)]}.
  split_and!; cbn [tree nodes cache height root].
  - by rewrite Hc, dom_singleton_L.
  - by apply (tree_ok_grow_leaf a garbage (root (tree s))).
  - intros k v. rewrite Hm, decide_False, lookup_singleton_Some by done. split.
    + intros [<- <-]. eexists a, _. rewrite !lookup_singleton_eq. done.
    + intros (x & n & [<- [= Ek]]%lookup_singleton_Some & [_ <-]%lookup_singleton_Some & Hv & Hv0).
      apply (grown_node_lookup garbage 0 0) in Hv as [Hj ->]; [|done].
      pose proof (prefix_inv k). split; [lia|done].
Qed.

Lemma grow_loop_level s pos m (Q : unit → store C → Prop) c a r nr :
  levels_rep s pos m None None → height (tree s) < 6 →
  root (tree s) = rdxtree_node_to_entry r → nodes s !! r = Some nr →
  pos !! r = Some (height (tree s) - 1, 0) →
  a ≠ 0 → aligned a → nodes s !! a = None → km_live c = {[a]} ∪ dom (nodes s) →
  (∀ ns, rep (Store (RTree (height (tree s) + 1) (rdxtree_node_to_entry a)) ns c) m →
     Q tt (Store (tree s) ns c)) →
  wp ((rdxtree_node_link r a 0;;
       n ← load r;
       if rdxtree_node_bm_empty n then rdxtree_node_bm_clear a 0 else mret tt);;
      rdxtree_node_insert a 0 (root (tree s))) Q
    (Store (tree s) (<[a := fresh_node 0 garbage (height (tree s))]> (nodes s)) c).
Proof.
  intros (Hlive & Ht & Hm) HH Hrt Hr Hpr Ha0 Haal Ha Hc HQ. assert (r ≠ a) as Hra by congruence.
  rewrite Hrt in Ht |- *. pose proof (t_height Ht) as Hpos.
  set (bm := if alloc_bm nr =? 0 then bm_bit_clear RDXTREE_BM_FULL 0 else RDXTREE_BM_FULL).
  assert (Q tt (Store (tree s) (<[a := grown_node garbage (height (tree s)) bm (rdxtree_node_to_entry r)]>
            (<[r := node_set_link a 0 nr]> (nodes s))) c)) as HQ'.
  { apply HQ. right. exists (<[a := (height (tree s), 0)]> pos).
    split_and!; cbn [tree nodes cache height root].
    - rewrite dom_insert_L, dom_insert_lookup_L by eauto. done.
    - by apply (tree_ok_grow Ht HH).
    - intros k v. rewrite Hm. symmetry. eapply leaf_binds_grow; try done; [|lia].
      destruct (pos !! a) eqn:E; [|done]. destruct (proj1 (t_dom Ht a)); [eauto|congruence]. }
  wp_step. wp_step. apply (wp_update _ nr); cbn [tree nodes cache]; [by rewrite lookup_insert_ne|].
  wp_step. eapply wp_load; cbn [tree nodes cache]; [by apply lookup_insert_eq|].
  unfold rdxtree_node_bm_empty, RDXTREE_BM_EMPTY. cbn [alloc_bm node_set_link].
  rewrite insert_insert_ne by done.
  destruct (alloc_bm nr =? 0); [eapply wp_update|apply wp_ret]; cbn [tree nodes cache].
  - by apply lookup_insert_eq.
  - eapply wp_node_insert; cbn [tree nodes cache]; [by rewrite lookup_insert_eq|lia|done|].
    by rewrite !insert_insert_eq.
  - eapply wp_node_insert; cbn [tree nodes cache]; [by rewrite lookup_insert_eq|lia|done|].
    by rewrite !insert_insert_eq.
Qed.

Lemma rdxtree_grow_loop_spec fuel s m nh :
  rep s m → root (tree s) ≠ 0 → height (tree s) < nh ≤ 6 →
  (N.to_nat (nh - height (tree s)) ≤ fuel)%nat →
  wp (rdxtree_grow_loop garbage fuel nh (rdxtree_entry_addr (root (tree s))))
    (λ err s', rep s' m ∧ (err = ERR_NOMEM ∨
       err = ERR_SUCCESS ∧ height (tree s') = nh ∧ root (tree s') ≠ 0)) s.
Proof.
  revert s. induction fuel as [|fuel IH]; intros s Hrep Hr Hnh Hfuel; [lia|].
  cbn [rdxtree_grow_loop]. wp_step. apply wp_get_tree. wp_step.
  assert (km_live (cache s) = dom (nodes s)) as Hlive.
  { destruct Hrep as [(Hl & -> & _)|(pos & Hl & _)]; [by rewrite dom_empty_L|done]. }
  apply wp_create; [done| |].
  - intros c Hc. wp_step. apply (wp_mono _ (λ _ s', rep s' m)); [apply rdxtree_shrink_spec|].
    { destruct Hrep as [(Hl & Hns & ? & ? & ?)|(pos & Hl & ? & ?)].
      - left. rewrite Hns, dom_empty_L in Hc. done.
      - right. by exists pos. }
    intros _ s' Hs'. wp_step. auto.
  - intros c a Hc Ha0 Haal Ha.
    set (Q := λ (_ : unit) s', ∃ ns, s' = Store (tree s) ns c ∧
      rep (Store (RTree (height (tree s) + 1) (rdxtree_node_to_entry a)) ns c) m).
    apply wp_bind. eapply (wp_mono _ (λ _ s1, wp (rdxtree_node_insert a 0 (root (tree s))) Q s1)).
    + apply wp_bind_inv. destruct (N.eqb_spec (height (tree s)) 0) as [H0|H0].
      * destruct Hrep as [Hf|(pos & _ & Ht & _)]; [|pose proof (t_height Ht); lia].
        pose proof Hf as (_ & Hns & _). rewrite Hns in Hc |- *. rewrite H0.
        apply (grow_loop_leaf s m); try done.
        { by rewrite Hc, dom_empty_L, union_empty_r_L. }
        intros n Hn. exists {[a := n]}. by rewrite H0.
      * destruct Hrep as [(_ & _ & ? & _)|(pos & Hl)]; [done|].
        pose proof Hl as (_ & Ht & _). destruct (t_root Ht) as (r & Ert & Hpr).
        destruct (t_lookup Ht _ _ _ Hpr) as (nr & Hnr & Or).
        replace (rdxtree_entry_addr (root (tree s))) with r
          by (rewrite Ert; symmetry; apply entry_addr_tag, Or).
        apply (grow_loop_level s pos m _ c a r nr); try done; [lia|]. intros ns Hns. by exists ns.
    + intros _ s1 Hs1. wp_step. eapply wp_mono; [exact Hs1|]. clear s1 Hs1.
      intros _ s1 (ns & -> & Hns). wp_step. apply wp_modify. wp_step. apply wp_modify.
      cbn [tree nodes cache height root].
      destruct (N.ltb_spec (height (tree s) + 1) nh) as [Hlt|Hge].
      * pose proof (IH _ Hns) as Hgo. cbn [tree height root] in Hgo.
        rewrite entry_addr_tag in Hgo by done. apply Hgo; [apply tag_nonzero|lia|lia].
      * wp_step. cbn [tree height root]. split; [done|]. right. split_and!; [done|lia|apply tag_nonzero].
Qed.

(** The tree is empty and its height is already that of the key to come. *)
Definition vacant_rep s m : Prop :=
  km_live (cache s) = ∅ ∧ nodes s = ∅ ∧ root (tree s) = 0 ∧ 0 < height (tree s) ≤ 6 ∧ m = ∅.

Lemma rdxtree_grow_spec s m key :
  rep s m → key < 2 ^ 32 → (rdxtree_max_key (height (tree s)) <? key) = true →
  wp (rdxtree_grow garbage key)
    (λ err s', (err = ERR_NOMEM ∧ rep s' m) ∨
       (err = ERR_SUCCESS ∧ (rep s' m ∨ vacant_rep s' m) ∧ 0 < height (tree s') ∧
          (rdxtree_max_key (height (tree s')) <? key) = false)) s.
Proof.
  intros Hrep Hk Hgt. pose proof (rep_height _ _ Hrep) as H6.
  destruct (max_key_div_gt _ _ H6 Hk Hgt) as [H5 _].
  destruct (grow_height_spec grow_fuel key (height (tree s) + 1)) as (h' & Eh & Hh' & Hmax);
    [lia|done|unfold grow_fuel; lia|].
  unfold rdxtree_grow. wp_step. apply wp_get_tree. wp_step. apply (wp_deref _ h'); [done|].
  destruct (N.eqb_spec (root (tree s)) 0) as [E|E].
  - wp_step. apply wp_modify. wp_step. right. cbn [tree height root nodes cache].
    split_and!; [done|right|lia|done].
    destruct Hrep as [(? & ? & ? & ? & Hm)|(pos & _ & Ht & _)].
    + rewrite decide_True in Hm by done. split_and!; simpl; try done; lia.
    + destruct (t_root Ht) as (r & Er & _). rewrite E in Er. by destruct (tag_nonzero r).
  - eapply wp_mono; [by apply (rdxtree_grow_loop_spec _ s m); [| |lia|lia]|].
    intros err s' (Hs' & [->|(-> & Hh & _)]); [by left|right]. rewrite Hh. split_and!; [done|by left|lia|done].
Qed.

(** *** Cleaning up *)

(** [rdxtree_cleanup] from a node that may be empty: empty nodes are removed
    up to the first that is not, and the map is the same. *)
Lemma rdxtree_cleanup_loop_spec fuel s pos m a n h p :
  levels_rep s pos m (Some a) None → nodes s !! a = Some n → pos !! a = Some (h, p) →
  (N.to_nat (height (tree s) - h) ≤ fuel)%nat →
  wp (rdxtree_cleanup_loop fuel a) (λ _ s', rep s' m) s.
Proof.
  revert s pos a n h p. induction fuel as [|fuel IH]; intros s pos a n h p (Hlive & Ht & Hm) Ha Hp Hfuel;
    pose proof (ok_below (t_node Ht _ _ _ _ Ha Hp)); [lia|].
  cbn [rdxtree_cleanup_loop]. wp_step. apply (wp_load _ n); [done|].
  unfold rdxtree_node_empty. destruct (N.eqb_spec (nr_entries n) 0) as [Hnr|Hnr]; cbn [negb].
  2:{ assert (rep s m) as Hrep.
      { right. exists pos. split_and!; [done| |done]. by eapply tree_ok_count_close. }
      destruct (parent n =? 0); [by apply rdxtree_shrink_spec|by apply wp_ret]. }
  destruct (N.eqb_spec (parent n) 0) as [Hpar|Hpar].
  - wp_step. apply wp_modify. wp_step. apply wp_modify. apply (wp_destroy _ n); [done|].
    cbn [tree nodes cache height root].
    assert (delete a (nodes s) = ∅) as Hdel.
    { apply only_node_delete. intros x nx Hx. by eapply t_empty_root. }
    left. split_and!; simpl; try done.
    + rewrite (live_free s a n) by done. by rewrite Hdel, dom_empty_L.
    + apply map_eq. intros k. rewrite lookup_empty. apply eq_None_not_Some.
      intros [v (x & nx & Hpx & Hx & Hv & Hv0)%Hm].
      assert (x = a) as -> by (by eapply t_empty_root). rewrite Ha in Hx. injection Hx as <-.
      destruct (t_empty_bm Ht Ha Hp Hnr) as [_ Hz]. by apply Hz in Hv.
  - destruct (t_parent Ht _ _ _ _ Ha Hp Hpar) as (nb & Hb & Hpb & Hi & He). cbv zeta.
    unfold rdxtree_node_unlink. wp_step. wp_step. apply (wp_load _ n); [done|]. wp_step. wp_step.
    { by apply negb_true_iff, N.eqb_neq. }
    apply (wp_update _ n); [done|]. pose proof (parent_ne_self Ht Ha Hp) as Hne.
    wp_step. rewrite Hi. eapply (wp_node_remove _ nb); simpl.
    + by rewrite lookup_insert_ne.
    + by apply N.mod_lt.
    + exact He.
    + apply tag_nonzero.
    + wp_step. eapply wp_destroy; simpl; [by rewrite lookup_insert_ne, lookup_insert_eq|].
      rewrite delete_insert_ne, delete_insert_eq by done. rewrite <- Hi.
      eapply (IH _ (delete a pos)); [| | |].
      * split_and!; simpl.
        -- rewrite (live_free s a n) by done. rewrite dom_insert_lookup_L; [done|].
           rewrite lookup_delete_ne by done. eauto.
        -- by apply (tree_ok_remove_child Ht Ha Hp).
        -- intros k v. rewrite Hm. symmetry. eapply leaf_binds_remove_child; try done. lia.
      * simpl. by rewrite lookup_insert_eq.
      * rewrite lookup_delete_ne by done. exact Hpb.
      * simpl. lia.
Qed.

Lemma rdxtree_cleanup_spec s pos m eh a n h p :
  levels_rep s pos m eh None → (eh = None ∨ eh = Some a) →
  nodes s !! a = Some n → pos !! a = Some (h, p) →
  wp (rdxtree_cleanup a) (λ _ s', rep s' m) s.
Proof.
  intros (Hlive & Ht & Hm) Heh Ha Hp. unfold rdxtree_cleanup. wp_step. apply wp_get_tree.
  eapply (rdxtree_cleanup_loop_spec _ s pos); [|done|done|lia]. split_and!; [done| |done].
  destruct Heh as [->| ->]; [|done]. by apply tree_ok_count_open.
Qed.

(** *** Bitmaps *)

Lemma bm_update s pos m eh a n h p i e bm :
  levels_rep s pos m eh (Some (a, i)) → nodes s !! a = Some n → pos !! a = Some (h, p) →
  entries n !! N.to_nat i = Some e → bm < 2 ^ 64 →
  (∀ j, j ≠ i → N.testbit bm j = N.testbit (alloc_bm n) j) →
  bit_ok (nodes s) h e (N.testbit bm i) →
  levels_rep (Store (tree s) (<[a := node_set_bm bm n]> (nodes s)) (cache s)) pos m eh (summary n).
Proof.
  intros (Hlive & Ht & Hm) Ha Hp He Hbm Hbits Hb. split_and!; simpl.
  - rewrite dom_insert_lookup_L; eauto.
  - by eapply tree_ok_set_bm.
  - intros k v. rewrite Hm. symmetry. by apply (leaf_binds_same_entries _ _ _ n).
Qed.

(** Closing the hole at the parent of [a], whose bitmap was just changed to
    one that is neither empty nor full as the parent's bit requires. *)
Lemma summary_close s pos m eh a n h p nb :
  levels_rep s pos m eh (summary n) → nodes s !! a = Some n → pos !! a = Some (h, p) →
  parent n ≠ 0 → nodes s !! parent n = Some nb →
  (if N.testbit (alloc_bm nb) (index n) then alloc_bm n ≠ 0 else alloc_bm n ≠ RDXTREE_BM_FULL) →
  levels_rep s pos m eh None.
Proof.
  intros (Hlive & Ht & Hm) Ha Hp Hpar Hb Hbit. split_and!; [done| |done].
  unfold summary in Ht. rewrite decide_False in Ht by done.
  destruct (t_parent Ht _ _ _ _ Ha Hp Hpar) as (nb' & Hb' & Hpb & Hi & He).
  rewrite Hb in Hb'. injection Hb' as <-. rewrite <- Hi in He.
  eapply tree_ok_bit_close; [exact Ht|exact Hb|exact Hpb|exact He|].
  unfold bit_ok. rewrite !decide_False by (auto; lia).
  rewrite entry_addr_tag by apply (t_node Ht _ _ _ _ Ha Hp). intros nc Hc.
  rewrite Ha in Hc. by injection Hc as <-.
Qed.

Lemma bm_has_zero bm j : j < 64 → N.testbit bm j = false → bm ≠ RDXTREE_BM_FULL.
Proof. intros Hj Hb ->. by rewrite bm_full_bit in Hb. Qed.

Lemma bm_has_one bm j : N.testbit bm j = true → bm ≠ 0.
Proof. intros Hb ->. by rewrite N.bits_0 in Hb. Qed.

Lemma rdxtree_insert_bm_clear_loop_spec fuel s pos m a n h p i e :
  levels_rep s pos m None (Some (a, i)) → nodes s !! a = Some n → pos !! a = Some (h, p) →
  entries n !! N.to_nat i = Some e → bit_ok (nodes s) h e false → e ≠ 0 →
  (N.to_nat (height (tree s) - h) ≤ fuel)%nat →
  wp (rdxtree_insert_bm_clear_loop fuel a i)
    (λ _ s', levels_rep s' pos m None None ∧ tree s' = tree s) s.
Proof.
  revert s a n h p i e. induction fuel as [|fuel IH]; intros s a n h p i e Hrep Ha Hp He Hb He0 Hfuel;
    pose proof Hrep as (Hlive & Ht & Hm); pose proof (t_node Ht _ _ _ _ Ha Hp) as Oa;
    pose proof (ok_below Oa); [lia|].
  pose proof (index_lt Ht Ha Hp _ _ He) as Hi.
  cbn [rdxtree_insert_bm_clear_loop]. wp_step. unfold rdxtree_node_bm_clear.
  apply (wp_update _ n); [done|]. wp_step. eapply wp_load; [by apply lookup_insert_eq|].
  set (bm := bm_bit_clear (alloc_bm n) i).
  assert (N.testbit bm i = false) as Hbi.
  { unfold bm, bm_bit_clear. by rewrite ldiff_pow2_testbit, decide_True. }
  assert (∀ j, j ≠ i → N.testbit bm j = N.testbit (alloc_bm n) j) as Hbj.
  { intros j Hj. unfold bm, bm_bit_clear. by rewrite ldiff_pow2_testbit, decide_False. }
  pose proof (bm_update s pos m None a n h p i e bm Hrep Ha Hp He
    (bm_clear_bound _ _ (ok_bm Oa)) Hbj ltac:(by rewrite Hbi)) as Hrep'.
  set (s' := Store (tree s) (<[a := node_set_bm bm n]> (nodes s)) (cache s)) in *.
  unfold rdxtree_node_full. cbn [node_set_bm nr_entries parent index].
  destruct (N.eqb_spec (parent n) 0) as [Hpar|Hpar].
  { rewrite orb_true_r. wp_step. split; [|done].
    by replace (summary n) with (@None (N * N)) in Hrep' by (unfold summary; by rewrite decide_True). }
  pose proof (parent_ne_self Ht Ha Hp) as Hne.
  destruct (t_parent Ht _ _ _ _ Ha Hp Hpar) as (nb & Hnb & Hpb & Hidx & Hent).
  assert (nodes s' !! parent n = Some nb) as Hnb' by (simpl; by rewrite lookup_insert_ne).
  assert (nodes s' !! a = Some (node_set_bm bm n)) as Ha' by (apply lookup_insert_eq).
  rewrite orb_false_r. destruct (N.eqb_spec (nr_entries n) RDXTREE_RADIX_SIZE) as [Hfull|Hfull]; cbn [negb].
  - eapply wp_mono; [eapply (IH s'); [|exact Hnb'|exact Hpb|by rewrite Hidx| |apply tag_nonzero|simpl; lia]|by intros ? s''].
    + by replace (summary n) with (Some (parent n, index n)) in Hrep'
        by (unfold summary; by rewrite decide_False).
    + unfold bit_ok. rewrite !decide_False by (auto; lia).
      rewrite entry_addr_tag by apply Oa. rewrite Ha'. intros ? [= <-]. by eapply bm_has_zero.
  - wp_step. split; [|done]. eapply (summary_close s' pos m _ a (node_set_bm bm n)); [exact Hrep'|exact Ha'|exact Hp|done|done|].
    cbn [node_set_bm index alloc_bm].
    destruct (N.testbit (alloc_bm nb) (index n)); [|by eapply bm_has_zero].
    destruct (count_nz_not_full (entries n)) as [j Hj].
    { rewrite (ok_count Oa) in Hfull. rewrite (ok_length Oa).
      change RDXTREE_RADIX_SIZE with 64 in Hfull. lia. }
    rewrite <- (Nat2N.id j) in Hj. assert (N.of_nat j ≠ i) as Hji by (intros E; congruence).
    apply (bm_has_one _ (N.of_nat j)). rewrite Hbj by done.
    pose proof (ok_bit Oa (N.of_nat j) 0 ltac:(congruence) Hj) as Hbit. unfold bit_ok in Hbit.
    by rewrite decide_True in Hbit.
Qed.

Lemma rdxtree_insert_bm_clear_spec s pos m a n p i e :
  levels_rep s pos m None (Some (a, i)) → nodes s !! a = Some n → pos !! a = Some (0, p) →
  entries n !! N.to_nat i = Some e → e ≠ 0 →
  wp (rdxtree_insert_bm_clear a i) (λ _ s', levels_rep s' pos m None None ∧ tree s' = tree s) s.
Proof.
  intros Hrep Ha Hp He He0. unfold rdxtree_insert_bm_clear. wp_step. apply wp_get_tree.
  eapply rdxtree_insert_bm_clear_loop_spec; eauto; [|lia].
  unfold bit_ok. by rewrite decide_False, decide_True.
Qed.

Lemma rdxtree_remove_bm_set_loop_spec fuel s pos m eh a n h p i e :
  levels_rep s pos m eh (Some (a, i)) → nodes s !! a = Some n → pos !! a = Some (h, p) →
  entries n !! N.to_nat i = Some e → bit_ok (nodes s) h e true →
  (N.to_nat (height (tree s) - h) ≤ fuel)%nat →
  wp (rdxtree_remove_bm_set_loop fuel a i)
    (λ _ s', levels_rep s' pos m eh None ∧ tree s' = tree s ∧ dom (nodes s') = dom (nodes s)) s.
Proof.
  revert s a n h p i e. induction fuel as [|fuel IH]; intros s a n h p i e Hrep Ha Hp He Hb Hfuel;
    pose proof Hrep as (Hlive & Ht & Hm); pose proof (t_node Ht _ _ _ _ Ha Hp) as Oa;
    pose proof (ok_below Oa); [lia|].
  pose proof (index_lt Ht Ha Hp _ _ He) as Hi.
  cbn [rdxtree_remove_bm_set_loop]. wp_step. unfold rdxtree_node_bm_set.
  apply (wp_update _ n); [done|]. wp_step. eapply wp_load; [by apply lookup_insert_eq|].
  set (bm := bm_bit_set (alloc_bm n) i).
  assert (N.testbit bm i = true) as Hbi.
  { unfold bm, bm_bit_set. by rewrite lor_pow2_testbit, decide_True. }
  assert (∀ j, j ≠ i → N.testbit bm j = N.testbit (alloc_bm n) j) as Hbj.
  { intros j Hj. unfold bm, bm_bit_set. by rewrite lor_pow2_testbit, decide_False. }
  pose proof (bm_update s pos m eh a n h p i e bm Hrep Ha Hp He
    (bm_set_bound _ _ Hi (ok_bm Oa)) Hbj ltac:(by rewrite Hbi)) as Hrep'.
  set (s' := Store (tree s) (<[a := node_set_bm bm n]> (nodes s)) (cache s)) in *.
  assert (dom (nodes s') = dom (nodes s)) as Hdom by (simpl; rewrite dom_insert_lookup_L; eauto).
  cbn [node_set_bm parent index]. destruct (N.eqb_spec (parent n) 0) as [Hpar|Hpar].
  { wp_step. split; [|done].
    by replace (summary n) with (@None (N * N)) in Hrep' by (unfold summary; by rewrite decide_True). }
  pose proof (parent_ne_self Ht Ha Hp) as Hne.
  destruct (t_parent Ht _ _ _ _ Ha Hp Hpar) as (nb & Hnb & Hpb & Hidx & Hent).
  assert (nodes s' !! parent n = Some nb) as Hnb' by (simpl; by rewrite lookup_insert_ne).
  assert (nodes s' !! a = Some (node_set_bm bm n)) as Ha' by (apply lookup_insert_eq).
  wp_step. apply (wp_load _ nb); [done|]. unfold rdxtree_node_bm_is_set. rewrite land_pow2_testbit.
  destruct (N.testbit (alloc_bm nb) (index n)) eqn:Hbit.
  - wp_step. split; [|done]. eapply (summary_close s' pos m _ a (node_set_bm bm n)); [exact Hrep'|exact Ha'|exact Hp|done|done|].
    cbn [node_set_bm index alloc_bm]. rewrite Hbit. by eapply bm_has_one.
  - eapply wp_mono; [eapply (IH s'); [|exact Hnb'|exact Hpb|by rewrite Hidx| |simpl; lia]|].
    + by replace (summary n) with (Some (parent n, index n)) in Hrep'
        by (unfold summary; by rewrite decide_False).
    + unfold bit_ok. rewrite !decide_False by (auto; lia).
      rewrite entry_addr_tag by apply Oa. rewrite Ha'. intros ? [= <-]. by eapply bm_has_one.
    + intros _ s'' (? & Et & Ed). by rewrite Ed, Et.
Qed.

Lemma rdxtree_remove_bm_set_spec s pos m eh a n p i :
  levels_rep s pos m eh (Some (a, i)) → nodes s !! a = Some n → pos !! a = Some (0, p) →
  entries n !! N.to_nat i = Some 0 →
  wp (rdxtree_remove_bm_set a i)
    (λ _ s', levels_rep s' pos m eh None ∧ tree s' = tree s ∧ dom (nodes s') = dom (nodes s)) s.
Proof.
  intros Hrep Ha Hp He. unfold rdxtree_remove_bm_set. wp_step. apply wp_get_tree.
  eapply rdxtree_remove_bm_set_loop_spec; eauto; [|lia].
  unfold bit_ok. by rewrite decide_True.
Qed.
End Ops.
