(* ===== verification/RdxtreeSpec.v ===== *)
(** The public operations of the radix tree implement a finite map from 32-bit
    keys to pointers: on a store that represents [m], each operation terminates
    without a failed assertion or a dangling dereference and leaves a store that
    represents the updated map, also when the node cache runs out of memory. *)

From S2P Require Import Prelude Kmem Rdxtree RdxtreeInv RdxtreeOps.

Open Scope N_scope.

(** ** Paths from the root *)

Lemma prefix_up k d : k / span (d + 1) / 64 = k / span (d + 1 + 1).
Proof. rewrite N.Div0.div_div, (span_succ (d + 1)). done. Qed.

Lemma span_1 k : k / span (0 + 1) = k / 64.
Proof. done. Qed.

(** The ancestors of the leaf that binds [k] lie on the path that a descent for
    [k] follows. *)
Lemma t_ancestor {H rt ns pos eh bh} x k (d : nat) :
  tree_ok H rt ns pos eh bh → pos !! x = Some (0, k / 64) → N.of_nat d < H →
  ∃ y ny, ns !! y = Some ny ∧ pos !! y = Some (N.of_nat d, k / span (N.of_nat d + 1)) ∧
    (d ≠ O → ∃ e, entries ny !! N.to_nat (key_index k (6 * N.of_nat d)) = Some e ∧ e ≠ 0).
Proof.
  intros Ht Hx. induction d as [|d IH]; intros Hd.
  - destruct (t_lookup Ht _ _ _ Hx) as (nx & Hnx & _). exists x, nx. by rewrite span_1.
  - destruct IH as (y & ny & Hy & Hpy & _); [lia|].
    destruct (ok_link (t_node Ht _ _ _ _ Hy Hpy)) as [(? & _)|(nb & Hb & Hpb & _ & He)]; [lia|].
    exists (parent ny), nb. rewrite prefix_up in Hpb.
    replace (N.of_nat (S d)) with (N.of_nat d + 1) by lia. split_and!; [done|done|].
    intros _. exists (rdxtree_node_to_entry y). rewrite key_index_mod. auto.
Qed.

(** No leaf binds [k] below a null entry on the path of [k]. *)
Lemma t_path_end {H rt ns pos eh bh} a n h k v :
  tree_ok H rt ns pos eh bh → ns !! a = Some n → pos !! a = Some (h, k / span (h + 1)) →
  entries n !! N.to_nat (key_index k (6 * h)) = Some 0 → ¬ leaf_binds ns pos k v.
Proof.
  intros Ht Ha Hp He (x & nx & Hpx & Hx & Hv & Hv0).
  pose proof (ok_below (t_node Ht _ _ _ _ Ha Hp)) as Hlt.
  destruct (decide (h = 0)) as [->|Hh].
  - rewrite span_1 in Hp. rewrite (t_pos_inj Ht _ _ _ _ Hpx Hp) in Hx. rewrite Ha in Hx. injection Hx as <-.
    rewrite key_index_mod, span_0 in He. congruence.
  - destruct (t_ancestor x k (N.to_nat h) Ht Hpx) as (y & ny & Hy & Hpy & Hent); [lia|].
    rewrite N2Nat.id in Hpy, Hent. assert (y = a) as -> by (by eapply t_pos_inj).
    rewrite Ha in Hy. injection Hy as <-. destruct Hent as (e & He' & He0); [lia|]. congruence.
Qed.

Lemma u32_sub_radix h : h < 100 → h ≠ 0 → u32_sub (6 * h) RDXTREE_RADIX = 6 * (h - 1).
Proof.
  intros Hh H0. unfold u32_sub, u32, wrap, RDXTREE_RADIX.
  rewrite (N.mod_small 6) by done.
  replace (6 * h + (2 ^ 32 - 6)) with (6 * (h - 1) + 1 * 2 ^ 32) by lia.
  rewrite N.Div0.mod_add. apply N.mod_small. lia.
Qed.

Section Spec.
Context {C : Type} `{!KmemCache C} (garbage : N).
Implicit Types (s : store C) (m : gmap N N) (pos : gmap N (N * N)).

(** Keys beyond the reach of the tree are not bound. *)
Lemma levels_beyond s pos m eh bh key :
  levels_rep s pos m eh bh → key / span (height (tree s)) ≠ 0 → m !! key = None.
Proof.
  intros (_ & Ht & Hm) Hne. apply eq_None_not_Some. intros [v Hv].
  apply Hm in Hv as (x & nx & Hpx & _). pose proof (t_height Ht).
  destruct (t_ancestor x key (N.to_nat (height (tree s) - 1)) Ht Hpx) as (y & ny & Hy & Hpy & _); [lia|].
  rewrite N2Nat.id in Hpy. destruct (t_top Ht _ _ _ _ Hy Hpy) as (Hz & _); [lia|]. apply Hne.
  by replace (height (tree s) - 1 + 1) with (height (tree s)) in Hz by lia.
Qed.

(** ** Lookup *)

(** The leaf on the path of [key], its index there and the stored word. *)
Definition at_leaf s pos key prev i e : Prop :=
  ∃ n, nodes s !! prev = Some n ∧ pos !! prev = Some (0, key / 64) ∧ i = key mod 64 ∧
    entries n !! N.to_nat i = Some e.

Lemma descend_spec levels s pos eh bh key a h prev i :
  tree_ok (height (tree s)) (root (tree s)) (nodes s) pos eh bh →
  pos !! a = Some (h, key / span (h + 1)) → levels = S (N.to_nat h) →
  wp (descend levels key (6 * h) a prev i)
    (λ r s', s' = s ∧
       match r with
       | None => ∀ v, ¬ leaf_binds (nodes s) pos key v
       | Some (prev', i', node) => ∃ e, at_leaf s pos key prev' i' e ∧ node = rdxtree_entry_addr e
       end) s.
Proof.
  intros Ht Hp ->. revert a h prev i Hp.
  cut (∀ l a h prev i, l = N.to_nat h → pos !! a = Some (h, key / span (h + 1)) →
    wp (descend (S l) key (6 * h) a prev i)
    (λ r s', s' = s ∧
       match r with
       | None => ∀ v, ¬ leaf_binds (nodes s) pos key v
       | Some (prev', i', node) => ∃ e, at_leaf s pos key prev' i' e ∧ node = rdxtree_entry_addr e
       end) s); [eauto|].
  induction l as [|l IH]; intros a h prev i Hl Hp;
    destruct (t_lookup Ht _ _ _ Hp) as (n & Ha & Oa); cbn [descend];
    (rewrite (proj2 (N.eqb_neq a 0)) by apply Oa);
    destruct (t_entry_exists _ _ _ _ (key_index key (6 * h)) Oa (key_index_lt _ _)) as [e He];
    (wp_step; apply (wp_load _ n); [done|]; cbv zeta; wp_step; apply (wp_entry_at _ _ e); [done|]).
  - assert (h = 0) as -> by lia. cbn [descend]. wp_step. split; [done|]. exists e. split; [|done].
    exists n. rewrite span_1 in Hp. by rewrite key_index_mod, span_0 in He |- *.
  - assert (h ≠ 0) as Hh by lia.
    destruct (decide (e = 0)) as [->|He0].
    + cbn [descend]. rewrite N.eqb_refl. wp_step. split; [done|]. intros v. by eapply t_path_end.
    + destruct (t_child Ht _ _ _ _ _ e Ha Hp Hh (key_index_lt _ _) He He0) as (nc & _ & Hc & Hpc & _).
      pose proof (t_height Ht). pose proof (ok_below Oa).
      rewrite u32_sub_radix by lia. apply (IH _ (h - 1) a (key_index key (6 * h))); [lia|]. rewrite Hpc. do 2 f_equal.
      rewrite <- key_prefix_step. f_equal. f_equal. lia.
Qed.

(** The word that [key] is bound to, 0 if it is not. *)
Definition word m (key : N) : N := default 0 (m !! key).

Lemma levels_word s pos m eh bh key prev i e :
  levels_rep s pos m eh bh → at_leaf s pos key prev i e → aligned e ∧ e = word m key.
Proof.
  intros (_ & Ht & Hm) (n & Ha & Hp & -> & He). unfold word.
  destruct (decide (e = 0)) as [->|He0].
  - split; [done|]. destruct (m !! key) as [v|] eqn:E; [exfalso|done].
    apply Hm in E as (x & nx & Hpx & Hx & Hv & Hv0). rewrite (t_pos_inj Ht _ _ _ _ Hpx Hp) in Hx. congruence.
  - pose proof (ok_entry (t_node Ht _ _ _ _ Ha Hp) _ _ He He0) as Hoe. unfold entry_ok in Hoe.
    rewrite decide_True in Hoe by done. split; [apply Hoe|].
    replace (m !! key) with (Some e); [done|]. symmetry. apply Hm. exists prev, n. done.
Qed.

Lemma levels_None s pos m eh bh key :
  levels_rep s pos m eh bh → (∀ v, ¬ leaf_binds (nodes s) pos key v) → m !! key = None.
Proof. intros (_ & _ & Hm) Hno. apply eq_None_not_Some. intros [v Hv]. by apply (Hno v), Hm. Qed.

Lemma rep_root_levels s pos m eh bh :
  levels_rep s pos m eh bh →
  ∃ r nr, root (tree s) = rdxtree_node_to_entry r ∧ aligned r ∧ r ≠ 0 ∧ nodes s !! r = Some nr ∧
    pos !! r = Some (height (tree s) - 1, 0) ∧ node_height nr = height (tree s) - 1 ∧ 0 < height (tree s) ≤ 6.
Proof.
  intros (_ & Ht & _). destruct (t_root Ht) as (r & Er & Hpr).
  destruct (t_lookup Ht _ _ _ Hpr) as (nr & Hr & Or). exists r, nr.
  split_and!; try done; try apply Or; apply (t_height Ht).
Qed.

Lemma descend_root_spec s pos m key r :
  levels_rep s pos m None None → key < 2 ^ 32 →
  (rdxtree_max_key (height (tree s)) <? key) = false → pos !! r = Some (height (tree s) - 1, 0) →
  wp (descend (N.to_nat (height (tree s))) key ((height (tree s) - 1) * RDXTREE_RADIX) r 0 0)
    (λ x s', s' = s ∧
       match x with
       | None => ∀ v, ¬ leaf_binds (nodes s) pos key v
       | Some (prev, i, node) => ∃ e, at_leaf s pos key prev i e ∧ node = rdxtree_entry_addr e
       end) s.
Proof.
  intros (_ & Ht & _) Hk Hmax Hpr. pose proof (t_height Ht) as HH.
  replace ((height (tree s) - 1) * RDXTREE_RADIX) with (6 * (height (tree s) - 1))
    by (unfold RDXTREE_RADIX; lia).
  eapply (descend_spec _ s pos _ _ key r (height (tree s) - 1)); [exact Ht| |lia].
  rewrite Hpr. do 2 f_equal. symmetry.
  replace (height (tree s) - 1 + 1) with (height (tree s)) by lia.
  apply max_key_div; [lia|done|done].
Qed.

(** What a slot designates. *)
Definition slot_holds s m (key : N) (sl : slot) : Prop :=
  match sl with
  | slot_root => height (tree s) = 0 ∧ key = 0 ∧ root (tree s) = word m key
  | slot_entry a i => ∃ pos, levels_rep s pos m None None ∧ at_leaf s pos key a i (word m key)
  end.

Lemma rdxtree_lookup_common_spec s m key :
  rep s m → key < 2 ^ 32 →
  wp (rdxtree_lookup_common key)
    (λ r s', s' = s ∧
       match r with
       | None => m !! key = None
       | Some (p, sl) => m !! key = Some p ∧ p ≠ 0 ∧ slot_holds s m key sl
       end) s.
Proof.
  intros Hrep Hk. unfold rdxtree_lookup_common. wp_step. apply wp_get_tree. cbv zeta. wp_step.
  destruct Hrep as [(Hl & Hns & Hh & Hal & Hm)|(pos & Hrep)].
  - assert (wp (if root (tree s) =? 0 then mret 0 else
                if rdxtree_entry_is_node (root (tree s)) then
                  n ← load (if root (tree s) =? 0 then 0 else rdxtree_entry_addr (root (tree s)));
                  mret (node_height n + 1) else mret 0)
              (λ ht s', ht = 0 ∧ s' = s) s) as H0.
    { rewrite entry_is_node_aligned by done. by destruct (_ =? _). }
    eapply wp_mono; [exact H0|]. intros ? ? [-> ->].
    rewrite entry_addr_aligned by done. change (rdxtree_max_key 0) with 0.
    subst m. destruct (N.ltb_spec 0 key) as [Hkp|Hk0].
    + wp_step. split; [done|]. case_decide; [done|]. apply lookup_singleton_ne. lia.
    + assert (key = 0) as -> by lia. cbn [N.eqb].
      destruct (N.eqb_spec (root (tree s)) 0) as [->|Hr]; [done|].
      rewrite (proj2 (N.eqb_neq _ _)) by done. wp_step. split; [done|].
      unfold slot_holds, word. rewrite decide_False by done.
      by rewrite lookup_singleton_eq.
  - destruct (rep_root_levels _ _ _ _ _ Hrep) as (r & nr & Er & Hral & Hr0 & Hr & Hpr & Hnh & HH).
    rewrite Er, entry_is_node_tag, entry_addr_tag by done.
    rewrite (proj2 (N.eqb_neq _ _) (tag_nonzero r)).
    wp_step. apply (wp_load _ nr); [done|]. wp_step. rewrite Hnh.
    replace (height (tree s) - 1 + 1) with (height (tree s)) by lia.
    destruct (rdxtree_max_key (height (tree s)) <? key) eqn:Hmax.
    + wp_step. split; [done|]. destruct (max_key_div_gt _ _ (proj2 HH) Hk Hmax) as [_ Hne].
      by eapply levels_beyond.
    + rewrite (proj2 (N.eqb_neq _ 0)) by lia. wp_step.
      eapply wp_mono; [by eapply descend_root_spec|].
      intros [[[prev i] node]|] s' [-> Hres]; [|wp_step; split; [done|by eapply levels_None]].
      destruct Hres as (e & Hleaf & ->). destruct (levels_word _ _ _ _ _ _ _ _ _ Hrep Hleaf) as [Hal He].
      rewrite entry_addr_aligned by done.
      assert (m !! key = if decide (e = 0) then None else Some e) as Hmk.
      { rewrite He. unfold word. destruct (m !! key) as [w|] eqn:E; simpl; [|done].
        rewrite decide_False; [done|]. pose proof Hrep as (_ & _ & Hm). by apply Hm in E as (? & ? & ? & ? & ? & ?). }
      destruct (N.eqb_spec e 0) as [E0|E0]; wp_step; (split; [done|]).
      * by rewrite Hmk, decide_True.
      * rewrite Hmk, decide_False by done. split_and!; try done. exists pos. split; [done|].
        by rewrite <- He.
Qed.

(** ** Insertion *)

Lemma levels_unbound s pos m eh bh key prev i :
  levels_rep s pos m eh bh → at_leaf s pos key prev i 0 → m !! key = None.
Proof.
  intros (_ & Ht & Hm) (n & Ha & Hp & -> & He). apply eq_None_not_Some. intros [v Hv].
  apply Hm in Hv as (x & nx & Hpx & Hx & Hv & Hv0). rewrite (t_pos_inj Ht _ _ _ _ Hpx Hp) in Hx. congruence.
Qed.

(** A node with a used entry is not empty. *)
Lemma levels_close s pos m eh a n h p i e :
  levels_rep s pos m eh None → (eh = None ∨ eh = Some a) → nodes s !! a = Some n →
  pos !! a = Some (h, p) → entries n !! i = Some e → e ≠ 0 → levels_rep s pos m None None.
Proof.
  intros (Hlive & Ht & Hm) [->| ->] Ha Hp He He0; [done|]. split_and!; try done.
  eapply tree_ok_count_close; [done|done|]. rewrite (ok_count (t_node Ht _ _ _ _ Ha Hp)).
  intros E. apply He0, (proj1 (count_nz_zero (entries n)) ltac:(lia) _ _ He).
Qed.

(** Linking a new node below the null entry [i] of [a], or failing. *)
Lemma ensure_child_spec s pos m eh a n h p i :
  levels_rep s pos m eh None → (eh = None ∨ eh = Some a) →
  nodes s !! a = Some n → pos !! a = Some (h, p) → h ≠ 0 → entries n !! N.to_nat i = Some 0 →
  wp (c ← rdxtree_node_create garbage (h - 1);
      match c with
      | None => rdxtree_cleanup a;; mret None
      | Some node =>
          (rdxtree_node_link node a i;; rdxtree_node_insert_node a i node);; mret (Some node)
      end)
    (λ r s', match r with
       | None => rep s' m
       | Some c => ∃ pos', levels_rep s' pos' m (Some c) None ∧
           pos' !! c = Some (h - 1, p * 64 + i) ∧ tree s' = tree s ∧
           nodes s' !! c = Some (fresh_node a i (h - 1))
       end) s.
Proof.
  intros (Hlive & Ht & Hm) Heh Ha Hp Hh He. wp_step. apply wp_create; [done| |].
  - intros c Hc. wp_step. eapply wp_mono; [|by intros ? s' Hs'; wp_step; exact Hs'].
    by eapply (rdxtree_cleanup_spec _ pos m eh a n h p).
  - intros k c Hk Hc0 Hcal Hc. assert (a ≠ c) as Hac by congruence.
    wp_step. wp_step. eapply wp_update; [by apply lookup_insert_eq|]. cbn [tree nodes cache].
    rewrite insert_insert_eq. unfold rdxtree_node_insert_node.
    eapply (wp_node_insert a n); cbn [tree nodes cache].
    + by rewrite lookup_insert_ne.
    + by apply (index_lt Ht Ha Hp _ _ He).
    + done.
    + wp_step. exists (<[c := (h - 1, p * 64 + i)]> pos).
      change (node_set_link a i (fresh_node 0 garbage (h - 1))) with (fresh_node a i (h - 1)).
      split_and!; cbn [tree nodes cache]; [|by apply lookup_insert_eq|done
        |by rewrite lookup_insert_ne by done; apply lookup_insert_eq].
      split_and!; cbn [tree nodes cache].
      * rewrite dom_insert_lookup_L by (rewrite lookup_insert_ne; eauto). by rewrite dom_insert_L.
      * by apply (tree_ok_add_child Ht).
      * intros k' v. rewrite Hm. symmetry. by eapply leaf_binds_add_child.
Qed.

(** The outcome of a descent that creates the nodes it misses. *)
Definition descended s0 m key (r : N + N * N * N) s : Prop :=
  match r with
  | inl err => err = ERR_NOMEM ∧ rep s m
  | inr (prev, i, node) => ∃ pos eh e, levels_rep s pos m eh None ∧ (eh = None ∨ eh = Some prev) ∧
      at_leaf s pos key prev i e ∧ node = rdxtree_entry_addr e ∧ tree s = tree s0
  end.

(** The part of an iteration that follows the creation of a missing node. *)
Lemma insert_descend_body s pos m eh key a h l :
  levels_rep s pos m eh None → (eh = None ∨ eh = Some a) →
  pos !! a = Some (h, key / span (h + 1)) → l = N.to_nat h →
  wp (n ← load a;
      e ← entry_at n (key_index key (6 * h));
      insert_descend garbage l key h (u32_sub (6 * h) RDXTREE_RADIX)
        (rdxtree_entry_addr e) a (key_index key (6 * h)))
    (descended s m key) s.
Proof.
  revert s pos eh a h. induction l as [|l IH]; intros s pos eh a h Hrep Heh Hp Hl;
    pose proof Hrep as (Hlive & Ht & Hm); destruct (t_lookup Ht _ _ _ Hp) as (n & Ha & Oa);
    destruct (t_entry_exists _ _ _ _ (key_index key (6 * h)) Oa (key_index_lt _ _)) as [e He];
    (wp_step; apply (wp_load _ n); [done|]; wp_step; apply (wp_entry_at _ _ e); [done|]).
  - assert (h = 0) as -> by lia. cbn [insert_descend]. wp_step. exists pos, eh, e.
    split_and!; try done. exists n. rewrite span_1 in Hp. by rewrite key_index_mod, span_0 in He |- *.
  - assert (h ≠ 0) as Hh by lia. pose proof (t_height Ht). pose proof (ok_below Oa).
    rewrite u32_sub_radix by lia.
    assert (∀ s1 pos1 eh1 c, levels_rep s1 pos1 m eh1 None → (eh1 = None ∨ eh1 = Some c) →
      pos1 !! c = Some (h - 1, key / span (h + 1) * 64 + key_index key (6 * h)) → tree s1 = tree s →
      wp (n ← load c; e ← entry_at n (key_index key (6 * (h - 1)));
          insert_descend garbage l key (h - 1) (u32_sub (6 * (h - 1)) RDXTREE_RADIX)
            (rdxtree_entry_addr e) c (key_index key (6 * (h - 1)))) (descended s m key) s1) as Hbody.
    { intros s1 pos1 eh1 c Hrep1 Heh1 Hpc Htr. rewrite <- key_prefix_step in Hpc.
      eapply wp_mono; [eapply (IH s1 pos1 eh1 c (h - 1)); [done|done| |lia]|].
      - rewrite Hpc. do 2 f_equal. f_equal. f_equal. lia.
      - intros [err|[[prev i'] node]] s2; [done|]. intros (pos2 & eh2 & e2 & ? & ? & ? & ? & ?).
        exists pos2, eh2, e2. split_and!; congruence. }
    cbn [insert_descend]. wp_step. destruct (decide (e = 0)) as [->|He0].
    + rewrite N.eqb_refl. rewrite (proj2 (N.eqb_neq a 0)) by apply Oa.
      eapply wp_mono; [by eapply (ensure_child_spec s pos m eh a n h)|].
      intros [c|] s1.
      * intros (pos1 & Hrep1 & Hpc & Htr & _). by eapply (Hbody s1 pos1 (Some c)); [|right| |].
      * intros Hs1. by wp_step.
    + destruct (t_child Ht _ _ _ _ _ e Ha Hp Hh (key_index_lt _ _) He He0) as (nc & _ & Hc & Hpc & _ & _ & Hne).
      rewrite (proj2 (N.eqb_neq _ _) Hne). wp_step.
      apply (Hbody s pos None); [|by left|done|done]. by eapply levels_close.
Qed.

(** The descent from the root, which is created if the tree is vacant. *)
Lemma insert_descend_spec s m key :
  (rep s m ∨ vacant_rep s m) → 0 < height (tree s) → key < 2 ^ 32 →
  (rdxtree_max_key (height (tree s)) <? key) = false →
  wp (insert_descend garbage (N.to_nat (height (tree s))) key (height (tree s))
        ((height (tree s) - 1) * RDXTREE_RADIX) (rdxtree_entry_addr (root (tree s))) 0 0)
    (λ r s', match r with
       | inl err => err = ERR_NOMEM ∧ rep s' m
       | inr (prev, i, node) => ∃ pos eh e, levels_rep s' pos m eh None ∧
           (eh = None ∨ eh = Some prev) ∧ at_leaf s' pos key prev i e ∧ node = rdxtree_entry_addr e
       end) s.
Proof.
  intros Hrep HH Hk Hmax.
  replace ((height (tree s) - 1) * RDXTREE_RADIX) with (6 * (height (tree s) - 1))
    by (unfold RDXTREE_RADIX; lia).
  replace (N.to_nat (height (tree s))) with (S (N.to_nat (height (tree s) - 1))) by lia.
  set (h := height (tree s) - 1).
  assert (∀ s1 pos1 eh1 c, levels_rep s1 pos1 m eh1 None → (eh1 = None ∨ eh1 = Some c) →
    pos1 !! c = Some (h, 0) → height (tree s) ≤ 6 →
    wp (n ← load c; e ← entry_at n (key_index key (6 * h));
        insert_descend garbage (N.to_nat h) key h (u32_sub (6 * h) RDXTREE_RADIX)
          (rdxtree_entry_addr e) c (key_index key (6 * h)))
      (λ r s', match r with
       | inl err => err = ERR_NOMEM ∧ rep s' m
       | inr (prev, i, node) => ∃ pos eh e, levels_rep s' pos m eh None ∧
           (eh = None ∨ eh = Some prev) ∧ at_leaf s' pos key prev i e ∧ node = rdxtree_entry_addr e
       end) s1) as Hbody.
  { intros s1 pos1 eh1 c Hrep1 Heh1 Hpc H6.
    eapply wp_mono; [eapply (insert_descend_body s1 pos1 m eh1 key c h); [done|done| |done]|].
    - rewrite Hpc. do 2 f_equal. symmetry. unfold h.
      replace (height (tree s) - 1 + 1) with (height (tree s)) by lia. by apply max_key_div.
    - intros [err|[[prev i] node]] s2; [done|]. intros (pos2 & eh2 & e2 & ? & ? & ? & ? & ?). eauto 10. }
  cbn [insert_descend]. wp_step. change (height (tree s) - 1) with h.
  destruct Hrep as [[(_ & _ & ? & _)|(pos & Hrep)]|(Hl & Hns & Hr & H6 & Hm)]; [lia| |].
  - destruct (rep_root_levels _ _ _ _ _ Hrep) as (r & nr & Er & Hral & Hr0 & Hr & Hpr & _ & ?).
    rewrite Er, entry_addr_tag, (proj2 (N.eqb_neq _ _) Hr0) by done. wp_step.
    apply (Hbody s pos None); auto; lia.
  - rewrite Hr. change (rdxtree_entry_addr 0 =? 0) with true. cbv iota. wp_step.
    apply wp_create; [by rewrite Hl, Hns, dom_empty_L| |].
    + intros c Hc. rewrite N.eqb_refl. wp_step. apply wp_modify. wp_step. wp_step. split; [done|]. left.
      rewrite Hns, dom_empty_L in Hc. split_and!; cbn [tree root]; try done; rewrite Hr; [done|].
      by rewrite decide_True.
    + intros c a Hc Ha0 Haal Ha. rewrite N.eqb_refl. wp_step. apply wp_modify. wp_step.
      cbn [tree nodes cache]. apply (Hbody _ {[a := (h, 0)]} (Some a)); [|by right|by apply lookup_singleton_eq|lia].
      rewrite Hns in Hc |- *. split_and!; cbn [tree nodes cache height root].
      * by rewrite Hc, dom_insert_L.
      * by apply (tree_ok_first (height (tree s)) a garbage).
      * intros k v. subst m. split; [done|]. intros (x & n & _ & Hx & Hv & Hv0).
        apply lookup_singleton_Some in Hx as [_ <-]. apply lookup_replicate in Hv as [-> _]. done.
Qed.

(** Storing a word in the null entry that a descent has reached. *)
Lemma leaf_insert_spec {A} s pos m eh key prev i v (k : M (store C) A) Q :
  levels_rep s pos m eh None → (eh = None ∨ eh = Some prev) → at_leaf s pos key prev i 0 →
  aligned v → v ≠ 0 → key < 2 ^ 32 →
  (∀ s', rep s' (<[key := v]> m) → slot_holds s' (<[key := v]> m) key (slot_entry prev i) → wp k Q s') →
  wp (rdxtree_node_insert prev i v;; rdxtree_insert_bm_clear prev i;; k) Q s.
Proof.
  intros (Hlive & Ht & Hm) Heh (n & Ha & Hp & Hi & He) Hal Hv0 Hk HQ.
  pose proof (prefix_inv key) as Hkey. rewrite <- Hi in Hkey.
  pose proof (index_lt Ht Ha Hp _ _ He) as Hi64.
  pose proof (t_node Ht _ _ _ _ Ha Hp) as Oa.
  assert (N.to_nat i < length (entries n))%nat as Hlt by (by eapply lookup_lt_Some).
  wp_step. apply (wp_node_insert prev n); [done|done|done|].
  replace (nr_entries n + 1) with (N.of_nat (count_nz (<[N.to_nat i := v]> (entries n)))); cycle 1.
  { rewrite (ok_count Oa). pose proof (count_nz_insert _ _ _ v He) as Hc.
    rewrite decide_False, decide_True in Hc by auto. lia. }
  pose proof (tree_ok_leaf_store _ _ _ _ _ _ _ _ _ _ v Ht Heh Ha Hp He Hal) as Ht'.
  rewrite decide_False in Ht' by done. wp_step. eapply wp_mono.
  - eapply (rdxtree_insert_bm_clear_spec _ pos (<[key := v]> m) prev _ _ i v); cbn [nodes].
    + split_and!; cbn [tree nodes cache].
      * rewrite dom_insert_lookup_L by eauto. done.
      * apply Ht'. intros _. by rewrite <- Hkey.
      * intros j w. rewrite (leaf_binds_store _ _ _ _ _ _ _ _ _ _ _ _ _ _ _ Ht Ha Hp He), <- Hkey.
        case_decide as E; [subst j; rewrite lookup_insert_eq|rewrite lookup_insert_ne by done; apply Hm].
        split; [by intros [= <-]|by intros [-> _]].
    + by apply lookup_insert_eq.
    + done.
    + cbn [entries node_set_entry]. by apply list_lookup_insert_eq.
    + done.
  - intros ? s' [Hrep _]. apply HQ; [right; eauto|]. exists pos. split; [done|].
    unfold word. rewrite lookup_insert_eq. pose proof Hrep as (_ & Ht1 & Hm1).
    destruct (proj1 (Hm1 key v) (lookup_insert_eq m key v)) as (x & nx & Hpx & Hx & Hv & _).
    rewrite (t_pos_inj Ht1 _ _ _ _ Hpx Hp) in Hx. exists nx. by rewrite Hi.
Qed.

Lemma rdxtree_insert_common_spec s m key ptr :
  rep s m → key < 2 ^ 32 → aligned ptr → ptr ≠ 0 →
  wp (rdxtree_insert_common garbage key ptr)
    (λ r s', match r with
       | (err, Some sl) => err = ERR_SUCCESS ∧ m !! key = None ∧
           rep s' (<[key := ptr]> m) ∧ slot_holds s' (<[key := ptr]> m) key sl
       | (err, None) => rep s' m ∧ (err = ERR_BUSY ∧ is_Some (m !! key) ∨ err = ERR_NOMEM)
       end) s.
Proof.
  intros Hrep Hk Hal Hp0. unfold rdxtree_insert_common.
  wp_step. wp_step; [by apply negb_true_iff, N.eqb_neq|]. wp_step. wp_step; [by apply check_alignment_true|].
  wp_step. apply wp_get_tree. wp_step.
  eapply (wp_mono _ (λ err s', (err = ERR_NOMEM ∧ rep s' m) ∨
    (err = ERR_SUCCESS ∧ (rep s' m ∨ vacant_rep s' m ∧ 0 < height (tree s')) ∧
     (rdxtree_max_key (height (tree s')) <? key) = false))).
  { destruct (_ <? _) eqn:E; [|by wp_step; auto].
    eapply wp_mono; [by apply rdxtree_grow_spec|]. intros err s' [?|(-> & ? & ? & ?)]; [by left|right].
    split_and!; try done. tauto. }
  intros err s1 [[-> Hrep1]|(-> & Hrep1 & Hmax)].
  { change (negb (ERR_NOMEM =? 0)) with true. cbv iota. wp_step. auto. }
  change (negb (ERR_SUCCESS =? 0)) with false. cbv iota. wp_step. apply wp_get_tree. cbv zeta.
  destruct (N.eqb_spec (height (tree s1)) 0) as [H0|H0].
  - destruct Hrep1 as [[(Hl & Hns & _ & Hral & Hm)|(pos & _ & Ht & _)]|[_ ?]]; [|pose proof (t_height Ht); lia|lia].
    rewrite H0 in Hmax. apply N.ltb_ge in Hmax. change (rdxtree_max_key 0) with 0 in Hmax.
    assert (key = 0) as -> by lia.
    destruct (N.eqb_spec (root (tree s1)) 0) as [Hr|Hr]; cbn [negb].
    + rewrite decide_True in Hm by done. subst m. wp_step. apply wp_modify. wp_step.
      split_and!; [done|done|left|by unfold slot_holds, word; rewrite lookup_insert_eq].
      split_and!; cbn [tree nodes cache height root]; try done. by rewrite decide_False.
    + wp_step. rewrite decide_False in Hm by done. subst m. split; [left|left].
      * split_and!; try done. by rewrite decide_False.
      * by rewrite lookup_singleton_eq.
  - wp_step. eapply wp_mono; [apply (insert_descend_spec s1 m key); [tauto|lia|done|done]|].
    intros [err|[[prev i] node]] s2; [intros [-> ?]; wp_step; auto|].
    intros (pos & eh & e & Hrep2 & Heh & Hleaf & ->).
    destruct (levels_word _ _ _ _ _ _ _ _ _ Hrep2 Hleaf) as [Heal Hw].
    rewrite entry_addr_aligned by done. destruct (N.eqb_spec e 0) as [->|He0]; cbn [negb].
    + apply (leaf_insert_spec _ pos m eh key); try done. intros s3 Hrep3 Hsl. wp_step.
      split_and!; try done. by eapply levels_unbound.
    + wp_step. destruct Hleaf as (n & Ha & Hp & _ & He). split.
      * right. exists pos. by eapply levels_close.
      * left. split; [done|]. unfold word in Hw. destruct (m !! key); [eauto|done].
Qed.

(** *** Insertion under an allocated key *)

Lemma bm_first_testbit n i : rdxtree_node_bm_first n = Some i → N.testbit (alloc_bm n) i = true.
Proof.
  unfold rdxtree_node_bm_first. destruct (alloc_bm n) as [|q]; [done|]. cbn [rdxtree_ffs_pred].
  intros [= <-]. induction q as [q IH|q IH|]; cbn [pos_ctz]; [done| |done].
  change (N.pos q~0) with (2 * N.pos q). by rewrite N.testbit_even_succ by lia.
Qed.

Lemma bm_first_lt n i : alloc_bm n < 2 ^ 64 → rdxtree_node_bm_first n = Some i → i < 64.
Proof.
  intros Hbm Hi%bm_first_testbit. apply N.nle_gt. intros Hge.
  by rewrite (proj2 (bits_below_lt _ _) Hbm) in Hi.
Qed.

Lemma bm_first_some n : alloc_bm n ≠ 0 → ∃ i, rdxtree_node_bm_first n = Some i.
Proof. unfold rdxtree_node_bm_first. destruct (alloc_bm n); [done|]. eauto. Qed.

(** The key that the descent accumulates. *)
Lemma alloc_key_step p i h :
  i < 64 → (p * 64 + i + 1) * span h ≤ 2 ^ 32 →
  N.lor (p * span (h + 1)) (key_wrap (N.shiftl i (6 * h))) = (p * 64 + i) * span h.
Proof.
  intros Hi Hb. pose proof (span_pos h). unfold key_wrap, wrap, KEY_BITS.
  rewrite N.shiftl_mul_pow2. fold (span h). rewrite N.mod_small by nia.
  rewrite span_succ.
  assert (N.land (p * (span h * 64)) (i * span h) = 0) as Hland.
  { replace (p * (span h * 64)) with (p * 64 * span h) by lia. unfold span.
    rewrite <- !N.shiftl_mul_pow2, <- N.shiftl_land.
    change 64 with (2 ^ 6). rewrite <- N.shiftl_mul_pow2.
    apply N.bits_inj. intros j. rewrite N.bits_0.
    destruct (N.lt_ge_cases j (6 * h)); [by rewrite N.shiftl_spec_low|].
    rewrite N.shiftl_spec_high', N.land_spec by done.
    destruct (N.lt_ge_cases (j - 6 * h) 6); [by rewrite N.shiftl_spec_low|].
    rewrite (proj2 (bits_below_lt i 6) Hi) by done. apply andb_false_r. }
  rewrite <- N.lxor_lor, <- N.add_nocarry_lxor by done. lia.
Qed.

Definition alloc_descended m r s : Prop :=
  match r with
  | alloc_error err => err = ERR_NOMEM ∧ rep s m
  | alloc_grow _ => False
  | alloc_found prev i key => key < 2 ^ 32 ∧ ∃ pos eh, levels_rep s pos m eh None ∧
      (eh = None ∨ eh = Some prev) ∧ at_leaf s pos key prev i 0
  end.

Lemma insert_alloc_body s pos m eh a n h p i l :
  levels_rep s pos m eh None → (eh = None ∨ eh = Some a) →
  nodes s !! a = Some n → pos !! a = Some (h, p) → rdxtree_node_bm_first n = Some i →
  l = N.to_nat h → (p * 64 + i + 1) * span h ≤ 2 ^ 32 →
  wp (e ← entry_at n i;
      insert_alloc_descend garbage l h (u32_sub (6 * h) RDXTREE_RADIX)
        (N.lor (p * span (h + 1)) (key_wrap (N.shiftl i (6 * h)))) (rdxtree_entry_addr e) a i)
    (alloc_descended m) s.
Proof.
  revert s pos eh a n h p i. induction l as [|l IH]; intros s pos eh a n h p i Hrep Heh Ha Hp Hbm Hl Hb;
    pose proof Hrep as (Hlive & Ht & Hm); pose proof (t_node Ht _ _ _ _ Ha Hp) as Oa;
    pose proof (bm_first_lt _ _ (ok_bm Oa) Hbm) as Hi;
    destruct (t_entry_exists _ _ _ _ i Oa Hi) as [e He];
    pose proof (ok_bit Oa i e ltac:(done) He) as Hbit; rewrite (bm_first_testbit _ _ Hbm) in Hbit;
    (wp_step; apply (wp_entry_at _ _ e); [done|]); rewrite alloc_key_step by done.
  - assert (h = 0) as -> by lia. unfold span in *. change (2 ^ (6 * 0)) with 1 in *. rewrite N.mul_1_r in *.
    assert (e = 0) as ->.
    { unfold bit_ok in Hbit. case_decide; [done|]. by rewrite decide_True in Hbit. }
    cbn [insert_alloc_descend]. wp_step. split; [lia|]. exists pos, eh. split_and!; [done|done|].
    destruct (prefix_div p i Hi) as [Hd Hmo]. exists n. by rewrite Hd, Hmo.
  - assert (h ≠ 0) as Hh by lia. pose proof (t_height Ht). pose proof (ok_below Oa).
    rewrite u32_sub_radix by lia. cbn [insert_alloc_descend].
    assert (∀ s1 pos1 eh1 c nc, levels_rep s1 pos1 m eh1 None → (eh1 = None ∨ eh1 = Some c) →
      pos1 !! c = Some (h - 1, p * 64 + i) → nodes s1 !! c = Some nc → alloc_bm nc ≠ 0 →
      wp (n ← load c;
          match rdxtree_node_bm_first n with
          | None => mret (alloc_grow h)
          | Some i1 =>
              e ← entry_at n i1;
              insert_alloc_descend garbage l (h - 1) (u32_sub (6 * (h - 1)) RDXTREE_RADIX)
                (N.lor ((p * 64 + i) * span h) (key_wrap (N.shiftl i1 (6 * (h - 1)))))
                (rdxtree_entry_addr e) c i1
          end) (alloc_descended m) s1) as Hbody.
    { intros s1 pos1 eh1 c nc Hrep1 Heh1 Hpc Hc Hbmc. wp_step. apply (wp_load _ nc); [done|].
      destruct (bm_first_some _ Hbmc) as [i1 Hi1]. rewrite Hi1.
      pose proof Hrep1 as (_ & Ht1 & _).
      pose proof (bm_first_lt _ _ (ok_bm (t_node Ht1 _ _ _ _ Hc Hpc)) Hi1).
      replace (span h) with (span (h - 1 + 1)) by (f_equal; lia).
      eapply (IH s1 pos1 eh1 c nc); try done; [lia|].
      replace (span h) with (span (h - 1) * 64) in Hb by (rewrite <- span_succ; f_equal; lia). nia. }
    wp_step. destruct (decide (e = 0)) as [->|He0].
    + rewrite N.eqb_refl.
      eapply wp_mono; [by eapply (ensure_child_spec s pos m eh a n h)|].
      intros [c|] s1.
      * intros (pos1 & Hrep1 & Hpc & _ & Hc). by eapply (Hbody s1 pos1 (Some c)); [|right| | |].
      * intros Hs1. by wp_step.
    + destruct (t_child Ht _ _ _ _ _ e Ha Hp Hh Hi He He0) as (nc & _ & Hc & Hpc & _ & _ & Hne).
      rewrite (proj2 (N.eqb_neq _ _) Hne). wp_step. eapply (Hbody s pos None); [|by left|done|done|].
      * by eapply levels_close.
      * unfold bit_ok in Hbit. rewrite !decide_False in Hbit by done. by apply (Hbit nc).
Qed.

(** Key allocation stays within the key space: the tree has at most 5
    levels, or its root has a free index among the 4 that 32-bit keys can
    reach at level 6. *)
Definition alloc_safe s : Prop :=
  height (tree s) ≤ 5 ∨
  ∃ nr i, nodes s !! rdxtree_entry_addr (root (tree s)) = Some nr ∧
    rdxtree_node_bm_first nr = Some i ∧ i < 4.

Lemma insert_alloc_grow_spec s m ptr :
  rep s m → height (tree s) ≤ 5 → aligned ptr → ptr ≠ 0 →
  (height (tree s) = 0 → root (tree s) ≠ 0) →
  wp (rdxtree_insert_alloc_grow garbage (height (tree s)) ptr)
    (λ r s', match r with
       | (err, Some (key, sl)) => err = ERR_SUCCESS ∧ m !! key = None ∧ key < 2 ^ 32 ∧
           rep s' (<[key := ptr]> m) ∧ slot_holds s' (<[key := ptr]> m) key sl
       | (err, None) => rep s' m ∧ err = ERR_NOMEM
       end) s.
Proof.
  intros Hrep H5 Hal Hp0 Hroot. unfold rdxtree_insert_alloc_grow, key_wrap, wrap.
  pose proof (span_pos (height (tree s))).
  assert (span (height (tree s)) ≤ 2 ^ 30) as Hsp
    by (unfold span; apply N.pow_le_mono_r; lia).
  rewrite max_key_bound, N.sub_add by lia. change (2 ^ KEY_BITS) with (2 ^ 32).
  rewrite N.mod_small by lia.
  set (key := span (height (tree s))). assert (m !! key = None) as Hfree.
  { destruct Hrep as [(_ & _ & H0 & _ & ->)|(pos & Hrep)].
    - case_decide; [done|]. apply lookup_singleton_ne. unfold key. lia.
    - apply (levels_beyond s pos m None None); [done|]. unfold key. rewrite N.div_same by lia. done. }
  wp_step. eapply wp_mono; [apply (rdxtree_insert_common_spec s m key ptr); [done|lia|done|done]|].
  intros [err [sl|]] s'; [intros (-> & ? & ? & ?)|intros (? & [[-> [v Hv]]| ->])]; wp_step; [|congruence|done].
  split_and!; try done. lia.
Qed.

Lemma rdxtree_insert_alloc_common_spec s m ptr :
  rep s m → alloc_safe s → aligned ptr → ptr ≠ 0 →
  wp (rdxtree_insert_alloc_common garbage ptr)
    (λ r s', match r with
       | (err, Some (key, sl)) => err = ERR_SUCCESS ∧ m !! key = None ∧ key < 2 ^ 32 ∧
           rep s' (<[key := ptr]> m) ∧ slot_holds s' (<[key := ptr]> m) key sl
       | (err, None) => rep s' m ∧ err = ERR_NOMEM
       end) s.
Proof.
  intros Hrep Hsafe Hal Hp0. unfold rdxtree_insert_alloc_common.
  wp_step. wp_step; [by apply negb_true_iff, N.eqb_neq|]. wp_step. wp_step; [by apply check_alignment_true|].
  wp_step. apply wp_get_tree. cbv zeta. destruct (N.eqb_spec (height (tree s)) 0) as [H0|H0].
  - destruct (N.eqb_spec (root (tree s)) 0) as [Hr|Hr].
    + destruct Hrep as [(Hl & Hns & _ & Hral & Hm)|(pos & _ & Ht & _)]; [|pose proof (t_height Ht); lia].
      rewrite decide_True in Hm by done. subst m. wp_step. apply wp_modify. wp_step.
      split_and!; [done|done|done|left|by unfold slot_holds, word; rewrite lookup_insert_eq].
      split_and!; cbn [tree nodes cache height root]; try done. by rewrite decide_False.
    + apply insert_alloc_grow_spec; try done. lia.
  - pose proof Hrep as [(_ & _ & ? & _)|(pos & Hlev)]; [lia|].
    destruct (rep_root_levels _ _ _ _ _ Hlev) as (r & nr & Er & Hral & Hr0 & Hr & Hpr & _ & HH).
    replace ((height (tree s) - 1) * RDXTREE_RADIX) with (6 * (height (tree s) - 1))
      by (unfold RDXTREE_RADIX; lia).
    replace (N.to_nat (height (tree s))) with (S (N.to_nat (height (tree s) - 1))) by lia.
    rewrite Er, entry_addr_tag by done. cbn [insert_alloc_descend].
    rewrite (proj2 (N.eqb_neq _ _) Hr0). wp_step. wp_step. wp_step. wp_step. apply (wp_load _ nr); [done|].
    destruct (rdxtree_node_bm_first nr) as [i|] eqn:Hbm.
    + eapply wp_mono.
      * change 0 with (0 * span (height (tree s) - 1 + 1)) at 1.
        eapply (insert_alloc_body s pos m None r nr (height (tree s) - 1) 0 i); try done; [by left|].
        pose proof Hlev as (_ & Ht & _).
        pose proof (bm_first_lt _ _ (ok_bm (t_node Ht _ _ _ _ Hr Hpr)) Hbm) as Hi.
        destruct Hsafe as [H5|(nr' & i' & Hr' & Hi' & H4)].
        -- assert (span (height (tree s) - 1) ≤ 2 ^ 24) by (apply N.pow_le_mono_r; lia). nia.
        -- assert (span (height (tree s) - 1) ≤ 2 ^ 30) by (apply N.pow_le_mono_r; lia).
           rewrite Er, entry_addr_tag in Hr' by done. assert (i = i') as -> by congruence. nia.
      * intros [err|ht|prev i' key] s2; [intros [-> ?]; by wp_step|done|].
        intros (Hk & pos2 & eh2 & Hrep2 & Heh2 & Hleaf).
        apply (leaf_insert_spec _ pos2 m eh2 key); try done. intros s3 Hrep3 Hsl. wp_step.
        split_and!; try done. by eapply levels_unbound.
    + wp_step. apply insert_alloc_grow_spec; try done.
      destruct Hsafe as [?|(nr' & i & Hr' & Hi & _)]; [done|].
      rewrite Er, entry_addr_tag in Hr' by done. congruence.
Qed.

(** ** Removal *)

Lemma leaf_remove_spec {A} s pos m key prev i e (c : M (store C) A) Q :
  levels_rep s pos m None None → at_leaf s pos key prev i e → e ≠ 0 →
  (∀ s', rep s' (delete key m) → wp c Q s') →
  wp (rdxtree_node_remove prev i;; rdxtree_remove_bm_set prev i;; rdxtree_cleanup prev;; c) Q s.
Proof.
  intros (Hlive & Ht & Hm) (n & Ha & Hp & Hi & He) He0 HQ.
  pose proof (prefix_inv key) as Hkey. rewrite <- Hi in Hkey.
  pose proof (t_node Ht _ _ _ _ Ha Hp) as Oa.
  assert (N.to_nat i < length (entries n))%nat as Hlt by (by eapply lookup_lt_Some).
  wp_step. apply (wp_node_remove prev n _ e); [done|by eapply index_lt|done|done|].
  replace (nr_entries n - 1) with (N.of_nat (count_nz (<[N.to_nat i := 0]> (entries n)))); cycle 1.
  { rewrite (ok_count Oa). pose proof (count_nz_insert _ _ _ 0 He) as Hc.
    rewrite decide_True, decide_False in Hc by auto. lia. }
  pose proof (tree_ok_leaf_store _ _ _ _ _ _ _ _ _ _ 0 Ht (or_introl eq_refl) Ha Hp He) as Ht'.
  rewrite decide_True in Ht' by done. wp_step. eapply wp_mono.
  - eapply (rdxtree_remove_bm_set_spec _ pos (delete key m) (Some prev) prev _ _ i); cbn [nodes].
    + split_and!; cbn [tree nodes cache].
      * rewrite dom_insert_lookup_L by eauto. done.
      * by apply Ht'.
      * intros k w. rewrite (leaf_binds_store _ _ _ _ _ _ _ _ _ _ _ _ _ _ _ Ht Ha Hp He), <- Hkey.
        rewrite lookup_delete_Some, Hm. case_decide; [split; [by intros [? _]|by intros [_ ?]]|].
        split; [by intros [_ ?]|by split].
    + by apply lookup_insert_eq.
    + done.
    + cbn [entries node_set_entry]. by apply list_lookup_insert_eq.
  - intros ? s' (Hrep & _ & Hdom). cbn [nodes] in Hdom.
    assert (is_Some (nodes s' !! prev)) as [n' Hn'].
    { apply elem_of_dom. rewrite Hdom. apply elem_of_dom. by rewrite lookup_insert_eq. }
    wp_step. eapply wp_mono; [eapply (rdxtree_cleanup_spec s' pos _ (Some prev)); eauto|].
    intros ? s''. apply HQ.
Qed.

Lemma delete_unbound m key : m !! key = None → word m key = 0 ∧ delete key m = m.
Proof. intros E. unfold word. rewrite E. split; [done|]. by apply delete_id. Qed.

Lemma rdxtree_remove_spec s m key :
  rep s m → key < 2 ^ 32 →
  wp (rdxtree_remove key) (λ v s', v = word m key ∧ rep s' (delete key m)) s.
Proof.
  intros Hrep Hk. unfold rdxtree_remove. wp_step. apply wp_get_tree. cbv zeta.
  destruct Hrep as [(Hl & Hns & Hh & Hal & Hm)|(pos & Hrep)].
  - rewrite Hh, entry_addr_aligned by done. change (rdxtree_max_key 0) with 0.
    destruct (N.ltb_spec 0 key) as [Hkp|Hk0].
    + assert (m !! key = None) as Hmk.
      { subst m. case_decide; [done|]. apply lookup_singleton_ne. lia. }
      wp_step. destruct (delete_unbound _ _ Hmk) as [-> ->]. split; [done|]. by left.
    + assert (key = 0) as -> by lia. cbn [N.eqb]. wp_step. apply wp_modify. wp_step. split.
      * subst m. unfold word. case_decide as E; [done|]. by rewrite lookup_singleton_eq.
      * left. split_and!; cbn [tree nodes cache height root]; try done.
        subst m. case_decide; [by rewrite delete_empty|]. by rewrite delete_singleton_eq.
  - destruct (rep_root_levels _ _ _ _ _ Hrep) as (r & nr & Er & Hral & Hr0 & Hr & Hpr & Hnh & HH).
    destruct (rdxtree_max_key (height (tree s)) <? key) eqn:Hmax.
    + destruct (max_key_div_gt _ _ (proj2 HH) Hk Hmax) as [_ Hne].
      wp_step. destruct (delete_unbound _ _ (levels_beyond _ _ _ _ _ _ Hrep Hne)) as [-> ->].
      split; [done|]. right; eauto.
    + rewrite (proj2 (N.eqb_neq _ 0)) by lia. wp_step. rewrite Er, entry_addr_tag by done.
      eapply wp_mono; [by eapply descend_root_spec|].
      intros [[[prev i] node]|] s' [-> Hres]; cycle 1.
      { wp_step. destruct (delete_unbound _ _ (levels_None _ _ _ _ _ _ Hrep Hres)) as [-> ->].
        split; [done|]. right; eauto. }
      destruct Hres as (e & Hleaf & ->). destruct (levels_word _ _ _ _ _ _ _ _ _ Hrep Hleaf) as [Hal He].
      rewrite entry_addr_aligned by done. destruct (N.eqb_spec e 0) as [E0|E0].
      * subst e. rewrite E0 in Hleaf. wp_step.
        destruct (delete_unbound _ _ (levels_unbound _ _ _ _ _ _ _ _ Hrep Hleaf)) as [-> ->].
        split; [done|]. right; eauto.
      * eapply leaf_remove_spec; [done|done|done|]. intros s' ?. by wp_step.
Qed.

(** ** Replacement through a slot *)

Lemma rdxtree_replace_slot_spec s m key sl ptr :
  rep s m → slot_holds s m key sl → word m key ≠ 0 → aligned ptr → ptr ≠ 0 →
  wp (rdxtree_replace_slot sl ptr)
    (λ old s', old = word m key ∧ rep s' (<[key := ptr]> m) ∧
       slot_holds s' (<[key := ptr]> m) key sl) s.
Proof.
  intros Hrep Hsl Hw Hal Hp0. unfold rdxtree_replace_slot.
  wp_step. wp_step; [by apply negb_true_iff, N.eqb_neq|]. wp_step. wp_step; [by apply check_alignment_true|].
  assert (word (<[key := ptr]> m) key = ptr) as Hw' by (unfold word; by rewrite lookup_insert_eq).
  wp_step. destruct sl as [|a i]; cbn [slot_read slot_write slot_holds] in *.
  - destruct Hsl as (Hh & -> & Hr). wp_step. apply wp_get_tree. wp_step. rewrite Hr.
    destruct Hrep as [(Hl & Hns & _ & Hral & Hm)|(pos & _ & Ht & _)]; [|pose proof (t_height Ht); lia].
    rewrite Hr in Hral. wp_step. wp_step; [by apply negb_true_iff, N.eqb_neq|]. wp_step.
    wp_step; [by apply check_alignment_true|]. wp_step. apply wp_modify. wp_step.
    split_and!; try done. left. split_and!; cbn [tree nodes cache height root]; try done.
    rewrite decide_False in Hm by congruence. subst m. rewrite decide_False by done.
    by rewrite insert_singleton_eq.
  - destruct Hsl as (pos & Hlev & Hleaf). destruct (levels_word _ _ _ _ _ _ _ _ _ Hlev Hleaf) as [Hwal _].
    destruct Hleaf as (n & Ha & Hp & Hi & He). pose proof Hlev as (Hlive & Ht & Hm).
    pose proof (prefix_inv key) as Hkey. rewrite <- Hi in Hkey.
    assert (N.to_nat i < length (entries n))%nat as Hlt by (by eapply lookup_lt_Some).
    wp_step. apply (wp_load _ n); [done|]. apply (wp_entry_at _ _ (word m key)); [done|].
    wp_step. wp_step; [by apply negb_true_iff, N.eqb_neq|]. wp_step. wp_step; [by apply check_alignment_true|].
    wp_step. apply (wp_update _ n); [done|]. wp_step. split; [done|].
    assert (levels_rep (Store (tree s) (<[a := node_set_entry (nr_entries n) i ptr n]> (nodes s)) (cache s))
      pos (<[key := ptr]> m) None None) as Hlev'.
    { split_and!; cbn [tree nodes cache].
      - by rewrite dom_insert_lookup_L.
      - by eapply tree_ok_leaf_replace.
      - intros j w. rewrite (leaf_binds_store _ _ _ _ _ _ _ _ _ _ _ _ _ _ _ Ht Ha Hp He), <- Hkey.
        case_decide as E; [subst j; rewrite lookup_insert_eq|rewrite lookup_insert_ne by done; apply Hm].
        split; [by intros [= <-]|by intros [-> _]]. }
    split; [right; eauto|]. exists pos. split; [done|]. rewrite Hw'. eexists.
    cbn [nodes]. rewrite lookup_insert_eq. split_and!; try done.
    cbn [entries node_set_entry]. by apply list_lookup_insert_eq.
Qed.
End Spec.
