(* ===== verification/RdxtreeWalk.v ===== *)
(** Iteration over the radix tree: [rdxtree_walk_next], [rdxtree_walk], the loop
    of [rdxtree_for_each] and [rdxtree_remove_all] of kern/rdxtree.c.

    A shift by the width of a key or more is undefined in C and fails in the
    model. *)

From stdpp Require Import sorting.
From S2P Require Import Prelude Kmem Rdxtree RdxtreeInv RdxtreeOps RdxtreeSpec.

Open Scope N_scope.

(** ** Operations *)

Definition rdxtree_iter_init : rdxtree_iter := RIter 0 (N.ones KEY_BITS).

Section Operations.
Context {C : Type} `{!KmemCache C}.
#[local] Abbreviation R := (M (store C)).

(** The [do ... while] loop of [rdxtree_walk_next]: [inl key] is the
    [goto restart] with the key to restart from, [inr (prev, key, node)] the
    state after the loop. *)
Fixpoint walk_descend (levels : nat) (key shift node prev : N) : R (N + N * N * N) :=
  match levels with
  | O => mret (inr (prev, key, node))
  | S levels =>
      n ← load node;
      let orig_index := key_index key shift in
      match rdxtree_node_find n orig_index with
      | None =>
          let shift := shift + RDXTREE_RADIX in
          check (shift <? KEY_BITS);;
          mret (inl (key_wrap (N.shiftl (N.shiftr key shift + 1) shift)))
      | Some (ptr, i) =>
          let key := if i =? orig_index then key
                     else key_wrap (N.shiftl (N.shiftr key shift + (i - orig_index)) shift) in
          walk_descend levels key (u32_sub shift RDXTREE_RADIX) ptr node
      end
  end.

(** The code from the label [restart]. *)
Fixpoint walk_restart (fuel : nat) (key root : N) : R (option (N * N * N)) :=
  match fuel with
  | O => wrong
  | S fuel =>
      n ← load root;
      let ht := node_height n + 1 in
      if rdxtree_max_key ht <? key then mret None else
      r ← walk_descend (N.to_nat ht) key ((ht - 1) * RDXTREE_RADIX) root root;
      match r with
      | inl key => if key =? 0 then mret None else walk_restart fuel key root
      | inr r => mret (Some r)
      end
  end.

(** A restart moves at least one level up: 6 levels, 7 passes. *)
Definition walk_fuel : nat := 7.

(** The pointer found, or 0, and the iterator. *)
Definition rdxtree_walk_next (it : rdxtree_iter) : R (N * rdxtree_iter) :=
  t ← get_tree;
  let entry := root t in
  if entry =? 0 then mret (0, it)
  else if negb (rdxtree_entry_is_node entry) then
    if negb (iter_key it =? N.ones KEY_BITS) then mret (0, it)
    else mret (rdxtree_entry_addr entry, RIter (iter_node it) 0)
  else
    let key := key_wrap (iter_key it + 1) in
    if (key =? 0) && negb (iter_node it =? 0) then mret (0, it) else
    r ← walk_restart walk_fuel key (rdxtree_entry_addr entry);
    match r with
    | None => mret (0, it)
    | Some (prev, key, node) => mret (node, RIter prev key)
    end.

Definition rdxtree_walk (it : rdxtree_iter) : R (N * rdxtree_iter) :=
  if iter_node it =? 0 then rdxtree_walk_next it
  else
    let i := N.land (key_wrap (iter_key it + 1)) RDXTREE_RADIX_MASK in
    if negb (i =? 0) then
      n ← load (iter_node it);
      match rdxtree_node_find n i with
      | Some (ptr, i') =>
          mret (ptr, RIter (iter_node it) (key_wrap (iter_key it + (i' - i) + 1)))
      | None => rdxtree_walk_next it
      end
    else rdxtree_walk_next it.

(** [rdxtree_for_each] with a body that collects keys and pointers. *)
Fixpoint for_each_loop (fuel : nat) (it : rdxtree_iter) : R (list (N * N)) :=
  match fuel with
  | O => wrong
  | S fuel =>
      '(ptr, it) ← rdxtree_walk it;
      if ptr =? 0 then mret []
      else l ← for_each_loop fuel it; mret ((iter_key it, ptr) :: l)
  end.
Definition rdxtree_for_each (fuel : nat) : R (list (N * N)) :=
  for_each_loop fuel rdxtree_iter_init.

Fixpoint remove_all_loop (fuel : nat) : R unit :=
  match fuel with
  | O => wrong
  | S fuel =>
      '(_, it) ← rdxtree_walk_next rdxtree_iter_init;
      let node := iter_node it in
      if node =? 0 then mret tt
      else
        n ← load node;
        let parent := parent n in
        (if parent =? 0 then rdxtree_init
         else
           rdxtree_node_remove parent (index n);;
           rdxtree_remove_bm_set parent (index n);;
           rdxtree_cleanup parent;;
           update node (node_set_parent 0));;
        rdxtree_node_schedule_destruction node;;
        remove_all_loop fuel
  end.

(** Every iteration destroys a node. *)
Definition rdxtree_remove_all : R unit :=
  t ← get_tree;
  if height t =? 0 then
    if negb (root t =? 0) then set_root 0 else mret tt
  else s ← get; remove_all_loop (S (size (nodes s))).
End Operations.

(** ** The search in a node *)

Lemma node_find_from_spec l i :
  match node_find_from l i with
  | Some (ptr, i') => i ≤ i' ∧ ptr ≠ 0 ∧
      (∃ e, l !! N.to_nat (i' - i) = Some e ∧ ptr = rdxtree_entry_addr e) ∧
      (∀ j e, i ≤ j < i' → l !! N.to_nat (j - i) = Some e → rdxtree_entry_addr e = 0)
  | None => ∀ j e, i ≤ j → l !! N.to_nat (j - i) = Some e → rdxtree_entry_addr e = 0
  end.
Proof.
  revert i. induction l as [|x l IH]; intros i; simpl.
  { done. }
  assert (∀ j e, i ≤ j → j ≠ i → (x :: l) !! N.to_nat (j - i) = Some e → l !! N.to_nat (j - (i + 1)) = Some e) as Hl.
  { intros j e Hj Hne. by replace (N.to_nat (j - i)) with (S (N.to_nat (j - (i + 1)))) by lia. }
  destruct (N.eqb_spec (rdxtree_entry_addr x) 0) as [E|E].
  - specialize (IH (i + 1)). assert (∀ j e, j = i → (x :: l) !! N.to_nat (j - i) = Some e → rdxtree_entry_addr e = 0) as Hx.
    { intros j e ->. rewrite N.sub_diag. by intros [= <-]. }
    destruct (node_find_from l (i + 1)) as [[ptr i']|].
    + destruct IH as (Hi & Hp & (e & He & ->) & Hz). split_and!; [lia|done| |].
      * exists e. split; [|done]. by replace (N.to_nat (i' - i)) with (S (N.to_nat (i' - (i + 1)))) by lia.
      * intros j e' Hj He'. destruct (decide (j = i)); [by eapply Hx|]. apply (Hz j); [lia|]. apply Hl; [lia|done|done].
    + intros j e' Hj He'. destruct (decide (j = i)); [by eapply Hx|]. apply (IH j); [lia|]. by apply Hl.
  - split_and!; [lia|done| |intros; lia]. exists x. by rewrite N.sub_diag.
Qed.

(** In a well-formed node the search finds the first non-null entry. *)
Lemma node_find_spec {H rt ns pos eh bh a n h p} i :
  tree_ok H rt ns pos eh bh → ns !! a = Some n → pos !! a = Some (h, p) → i < 64 →
  match rdxtree_node_find n i with
  | Some (ptr, i') => i ≤ i' < 64 ∧ ptr ≠ 0 ∧
      (∃ e, entries n !! N.to_nat i' = Some e ∧ e ≠ 0 ∧ ptr = rdxtree_entry_addr e) ∧
      (∀ j, i ≤ j < i' → entries n !! N.to_nat j = Some 0)
  | None => ∀ j, i ≤ j < 64 → entries n !! N.to_nat j = Some 0
  end.
Proof.
  intros Ht Ha Hp Hi. pose proof (t_node Ht _ _ _ _ Ha Hp) as Oa. unfold rdxtree_node_find.
  assert (∀ j, i ≤ j → drop (N.to_nat i) (entries n) !! N.to_nat (j - i) = entries n !! N.to_nat j) as Hd.
  { intros j Hj. rewrite lookup_drop. f_equal. lia. }
  assert (∀ j e, entries n !! N.to_nat j = Some e → rdxtree_entry_addr e = 0 → e = 0) as H0.
  { intros j e He E. destruct (decide (e = 0)) as [|Hne]; [done|exfalso].
    destruct (decide (h = 0)) as [->|Hh].
    - destruct (ok_entry Oa _ _ He Hne) as [Hal _]. by rewrite entry_addr_aligned in E.
    - destruct (t_child Ht _ _ _ _ _ _ Ha Hp Hh (index_lt Ht Ha Hp _ _ He) He Hne)
        as (nc & _ & _ & _ & _ & _ & ?). done. }
  pose proof (node_find_from_spec (drop (N.to_nat i) (entries n)) i) as Hs.
  destruct (node_find_from _ i) as [[ptr i']|].
  - destruct Hs as (Hii & Hp0 & (e & He & ->) & Hz). rewrite Hd in He by done.
    pose proof (lookup_lt_Some _ _ _ He) as Hlt. rewrite (ok_length Oa) in Hlt.
    split_and!; [done|lia|done| |].
    + exists e. split_and!; [done| |done]. by intros ->.
    + intros j Hj. destruct (t_entry_exists _ _ _ _ j Oa) as [x Hx]; [lia|].
      rewrite Hx. f_equal. apply (H0 j); [done|]. apply (Hz j); [done|]. by rewrite Hd by lia.
  - intros j Hj. destruct (t_entry_exists _ _ _ _ j Oa) as [x Hx]; [lia|].
    rewrite Hx. f_equal. apply (H0 j); [done|]. apply (Hs j); [lia|]. by rewrite Hd by lia.
Qed.

Lemma row_digits a x p i i' K J :
  K = p * 64 + i → J = a * 64 + x → x < 64 → K ≤ J → J < p * 64 + i' → i' ≤ 64 →
  a = p ∧ i ≤ x < i'.
Proof. lia. Qed.

Lemma succ_same_row k : (k + 1) mod 64 ≠ 0 → (k + 1) / 64 = k / 64 ∧ (k + 1) mod 64 = k mod 64 + 1.
Proof.
  intros Hk. pose proof (N.Div0.div_mod k 64) as E. pose proof (N.Div0.div_mod (k + 1) 64) as E'.
  pose proof (N.mod_lt k 64 ltac:(done)). pose proof (N.mod_lt (k + 1) 64 ltac:(done)).
  revert Hk E E' H H0. generalize (k / 64) (k mod 64) ((k + 1) / 64) ((k + 1) mod 64). lia.
Qed.

Lemma same_row_add k i :
  (k + 1) mod 64 = k mod 64 + 1 → (k + 1) mod 64 ≤ i → k + (i - (k + 1) mod 64) + 1 = k / 64 * 64 + i.
Proof.
  intros E. rewrite E. pose proof (prefix_inv k) as Ek. revert Ek. clear E.
  generalize (k / 64) (k mod 64). lia.
Qed.

Section Walk.
Context {C : Type} `{!KmemCache C}.
Implicit Types (s : store C) (m : gmap N N) (pos : gmap N (N * N)).

(** No key of [a, b) is bound. *)
Definition gap m (a b : N) : Prop := ∀ j, a ≤ j < b → m !! j = None.

Lemma gap_join m a b c : gap m a b → gap m b c → gap m a c.
Proof. intros H1 H2 j Hj. destruct (N.lt_ge_cases j b); [apply H1|apply H2]; lia. Qed.

Lemma levels_key_lt s pos m eh bh k v : levels_rep s pos m eh bh → m !! k = Some v → k < 2 ^ 32.
Proof.
  intros (_ & Ht & Hm) Hk. apply Hm in Hk as (x & n & Hp & Hx & He & Hv).
  pose proof (ok_entry (t_node Ht _ _ _ _ Hx Hp) _ _ He Hv) as Ho. unfold entry_ok in Ho.
  rewrite decide_True in Ho by done. pose proof (prefix_inv k). lia.
Qed.

Lemma node_not_null {H rt ns pos bh} a n h p :
  tree_ok H rt ns pos None bh → ns !! a = Some n → pos !! a = Some (h, p) →
  ¬ ∀ j, j < 64 → entries n !! N.to_nat j = Some 0.
Proof.
  intros Ht Ha Hp Hz. pose proof (t_node Ht _ _ _ _ Ha Hp) as Oa.
  apply (ok_nonempty Oa); [done|]. rewrite (ok_count Oa).
  rewrite (proj2 (count_nz_zero (entries n))); [done|]. intros j e He.
  assert (j < 64)%nat by (rewrite <- (ok_length Oa); by eapply lookup_lt_Some).
  specialize (Hz (N.of_nat j)). rewrite Nat2N.id, He in Hz.
  by assert (Some e = Some 0) as [=] by (apply Hz; lia).
Qed.

(** Null entries of one node leave a gap in the keys. *)
Lemma row_gap s pos m a n h key i' :
  levels_rep s pos m None None → nodes s !! a = Some n → pos !! a = Some (h, key / span (h + 1)) →
  i' ≤ 64 → (∀ j, key_index key (6 * h) ≤ j < i' → entries n !! N.to_nat j = Some 0) →
  gap m key ((key / span (h + 1) * 64 + i') * span h).
Proof.
  intros Hrep Ha Hp Hi' Hz j Hj. pose proof Hrep as (_ & Ht & _).
  eapply levels_None; [done|]. intros v. pose proof (span_pos h).
  pose proof (key_prefix_step key h) as Hkey. pose proof (key_prefix_step j h) as Hjk.
  pose proof (key_index_lt j h) as Hlt.
  assert (key / span h ≤ j / span h) as Hle by (apply N.Div0.div_le_mono; lia).
  assert (j / span h < key / span (h + 1) * 64 + i') as Hub by (apply N.Div0.div_lt_upper_bound; rewrite N.mul_comm; apply Hj).
  destruct (row_digits _ _ _ _ _ _ _ Hkey Hjk Hlt Hle Hub Hi') as [E Hx].
  eapply (t_path_end a n h); [done|done|by rewrite E|]. by apply Hz.
Qed.

Lemma full_row s pos m a n h key :
  levels_rep s pos m None None → nodes s !! a = Some n → pos !! a = Some (h, key / span (h + 1)) →
  (∀ j, key_index key (6 * h) ≤ j < 64 → entries n !! N.to_nat j = Some 0) →
  gap m key ((key / span (h + 1) + 1) * span (h + 1)) ∧ key_index key (6 * h) ≠ 0.
Proof.
  intros Hrep Ha Hp Hz. split.
  - pose proof (row_gap _ _ _ _ _ _ _ 64 Hrep Ha Hp (N.le_refl _) Hz) as Hg.
    by replace ((key / span (h + 1) + 1) * span (h + 1)) with ((key / span (h + 1) * 64 + 64) * span h)
      by (rewrite (span_succ h); lia).
  - intros E. pose proof Hrep as (_ & Ht & _). destruct (node_not_null _ _ _ _ Ht Ha Hp).
    intros j Hj. apply Hz. lia.
Qed.

Lemma key_low_zero key z h : h < z → key mod span z = 0 → key_index key (6 * h) = 0.
Proof.
  intros Hz E. rewrite key_index_mod. pose proof (span_pos h).
  apply N.Div0.mod_divides in E as [q ->].
  replace (span z) with (span h * (64 * span (z - h - 1))); cycle 1.
  { unfold span. replace (6 * z) with (6 * h + (6 + 6 * (z - h - 1))) by lia.
    by rewrite !N.pow_add_r. }
  rewrite <- N.mul_assoc, (N.mul_comm (span h)), N.div_mul by lia.
  rewrite <- N.mul_assoc, N.mul_comm. apply N.Div0.mod_mul.
Qed.

Lemma key_skip key h i :
  key_index key (6 * h) ≤ i < 64 → (key / span (h + 1) * 64 + i) * span h < 2 ^ 32 →
  key_wrap (N.shiftl (N.shiftr key (6 * h) + (i - key_index key (6 * h))) (6 * h)) =
  (key / span (h + 1) * 64 + i) * span h.
Proof.
  intros Hi Hb. unfold key_wrap, wrap, KEY_BITS. rewrite N.shiftl_mul_pow2, N.shiftr_div_pow2.
  fold (span h). pose proof (key_prefix_step key h).
  replace (key / span h + (i - key_index key (6 * h))) with (key / span (h + 1) * 64 + i) by lia.
  by apply N.mod_small.
Qed.

Lemma row_start key h i : i < 64 →
  (key / span (h + 1) * 64 + i) * span h / span (h + 1) = key / span (h + 1) ∧
  key_index ((key / span (h + 1) * 64 + i) * span h) (6 * h) = i ∧
  (key / span (h + 1) * 64 + i) * span h / span h = key / span (h + 1) * 64 + i.
Proof.
  intros Hi. pose proof (span_pos h). rewrite key_index_mod, span_succ, <- !N.Div0.div_div.
  rewrite !N.div_mul by lia. by destruct (prefix_div (key / span h / 64) i Hi) as [-> ->].
Qed.

(** The state after the loop of [rdxtree_walk_next] started at [key]. *)
Definition walk_found s m key (r : N * N * N) : Prop :=
  let '(prev, key', node) := r in
  key ≤ key' < 2 ^ 32 ∧ gap m key key' ∧ m !! key' = Some node ∧ node ≠ 0 ∧
  ∃ pos, levels_rep s pos m None None ∧ pos !! prev = Some (0, key' / 64).

Lemma walk_found_skip s m key key' r :
  key ≤ key' → gap m key key' → walk_found s m key' r → walk_found s m key r.
Proof.
  destruct r as [[prev k] node]. intros Hle Hg ([? ?] & ? & ? & ? & ?).
  split_and!; try done; [lia|]. by eapply gap_join.
Qed.

(** Every node has a key below it. *)
Lemma has_key s pos m a h p :
  levels_rep s pos m None None → pos !! a = Some (h, p) →
  ∃ k, is_Some (m !! k) ∧ k / span (h + 1) = p.
Proof.
  intros Hrep. pose proof Hrep as (_ & Ht & Hm).
  remember (N.to_nat h) as l eqn:Hl. revert a h p Hl. induction l as [|l IH]; intros a h p Hl Hp;
    destruct (t_lookup Ht _ _ _ Hp) as (n & Ha & Oa);
    pose proof (node_find_spec 0 Ht Ha Hp ltac:(lia)) as Hfind;
    (destruct (rdxtree_node_find n 0) as [[ptr i]|];
       [|destruct (node_not_null _ _ _ _ Ht Ha Hp); intros j Hj; apply Hfind; lia]);
    destruct Hfind as ([_ Hi] & _ & (e & He & He0 & ->) & _); destruct (prefix_div p i Hi) as [Hd Hmo].
  - assert (h = 0) as -> by lia. exists (p * 64 + i). rewrite span_1, Hd. split; [|done].
    exists e. apply Hm. exists a, n. rewrite Hd, Hmo. done.
  - destruct (t_child Ht _ _ _ _ _ e Ha Hp ltac:(lia) Hi He He0) as (nc & _ & Hc & Hpc & _).
    destruct (IH _ (h - 1) _ ltac:(lia) Hpc) as (k & Hk & Hkp). exists k. split; [done|].
    replace (h - 1 + 1) with h in Hkp by lia.
    by rewrite span_succ, <- N.Div0.div_div, Hkp.
Qed.

(** A failed search in the node [a] on the path of [key]. *)
Lemma walk_fail_spec s pos m key a n h z :
  levels_rep s pos m None None → nodes s !! a = Some n → pos !! a = Some (h, key / span (h + 1)) →
  key mod span z = 0 → (h + 1 ≤ 5 ∨ ∃ k, key ≤ k ∧ is_Some (m !! k)) →
  (∀ j, key_index key (6 * h) ≤ j < 64 → entries n !! N.to_nat j = Some 0) →
  wp (check (6 * h + RDXTREE_RADIX <? KEY_BITS);;
      mret (inl (key_wrap (N.shiftl (N.shiftr key (6 * h + RDXTREE_RADIX) + 1) (6 * h + RDXTREE_RADIX)))))
    (λ r s', s' = s ∧
       match r with
       | inl key' => ∃ d, z ≤ d ≤ h ∧ d + 1 ≤ 5 ∧
           key' = key_wrap ((key / span (d + 1) + 1) * span (d + 1)) ∧
           gap m key ((key / span (d + 1) + 1) * span (d + 1))
       | inr r => walk_found s m key r
       end) s.
Proof.
  intros Hrep Ha Hp Hz Hsafe Hnull. pose proof Hrep as (_ & Ht & _).
  pose proof (t_height Ht). pose proof (ok_below (t_node Ht _ _ _ _ Ha Hp)).
  destruct (full_row _ _ _ _ _ _ _ Hrep Ha Hp Hnull) as [Hg Hi].
  assert (h + 1 ≤ 5) as H5.
  { destruct Hsafe as [|(k & Hk & [v Hv])]; [done|]. pose proof (levels_key_lt _ _ _ _ _ _ _ Hrep Hv).
    apply N.nlt_ge. intros H6. assert (h = 5) as -> by lia. rewrite Hg in Hv; [done|].
    change (span (5 + 1)) with 68719476736. split; [done|]. generalize (key / 68719476736). lia. }
  assert (6 * h + RDXTREE_RADIX = 6 * (h + 1)) as -> by (unfold RDXTREE_RADIX; lia).
  wp_step. wp_step; [apply N.ltb_lt; unfold KEY_BITS; lia|]. wp_step. split; [done|].
  exists h. rewrite N.shiftl_mul_pow2, N.shiftr_div_pow2. split_and!; try done.
  apply N.nlt_ge. intros Hlt. apply Hi. by eapply key_low_zero.
Qed.

(** The key after a successful search. *)
Lemma walk_key_spec s pos m key a n h i e :
  levels_rep s pos m None None → nodes s !! a = Some n → pos !! a = Some (h, key / span (h + 1)) →
  key < 2 ^ 32 → key_index key (6 * h) ≤ i < 64 →
  entries n !! N.to_nat i = Some e → e ≠ 0 →
  (∀ j, key_index key (6 * h) ≤ j < i → entries n !! N.to_nat j = Some 0) →
  let key' := if i =? key_index key (6 * h) then key
              else key_wrap (N.shiftl (N.shiftr key (6 * h) + (i - key_index key (6 * h))) (6 * h)) in
  key ≤ key' < 2 ^ 32 ∧ gap m key key' ∧ key' / span h = key / span (h + 1) * 64 + i ∧
  (key' = key ∨ key' mod span h = 0).
Proof.
  intros Hrep Ha Hp Hk Hi He He0 Hnull. cbv zeta. pose proof Hrep as (_ & Ht & _).
  destruct (N.eqb_spec i (key_index key (6 * h))) as [->|Hne].
  { split_and!; [lia|done|intros j ?; lia|apply key_prefix_step|by left]. }
  assert ((key / span (h + 1) * 64 + i) * span h < 2 ^ 32) as Hb.
  { destruct (decide (h = 0)) as [->|Hh].
    - pose proof (ok_entry (t_node Ht _ _ _ _ Ha Hp) _ _ He He0) as Ho. unfold entry_ok in Ho.
      rewrite decide_True in Ho by done. change (span 0) with 1. lia.
    - destruct (t_child Ht _ _ _ _ _ e Ha Hp Hh (proj2 Hi) He He0) as (nc & _ & Hc & Hpc & _).
      destruct (has_key _ _ _ _ _ _ Hrep Hpc) as (k & [v Hv] & Hkp).
      replace (h - 1 + 1) with h in Hkp by lia. rewrite <- Hkp.
      pose proof (levels_key_lt _ _ _ _ _ _ _ Hrep Hv). rewrite N.mul_comm.
      eapply N.le_lt_trans; [apply N.Div0.mul_div_le|done]. }
  rewrite key_skip by done. destruct (row_start key h i (proj2 Hi)) as (_ & _ & Hd).
  pose proof (row_gap _ _ _ _ _ _ _ i Hrep Ha Hp ltac:(lia) Hnull) as Hg.
  split_and!; [|done|done|done|right; apply N.Div0.mod_mul].
  pose proof (key_prefix_step key h) as Hs. pose proof (span_pos h).
  pose proof (N.mul_succ_div_gt key (span h) ltac:(lia)) as Hgt.
  apply N.lt_le_incl. eapply N.lt_le_trans; [exact Hgt|]. rewrite N.mul_comm.
  apply N.mul_le_mono_r. lia.
Qed.

(** [z] low digits of [key] are known to be null: the search cannot fail at
    these levels, as their nodes are not empty. *)
Lemma walk_descend_spec l s pos m key a h prev z :
  levels_rep s pos m None None → pos !! a = Some (h, key / span (h + 1)) → key < 2 ^ 32 →
  l = N.to_nat h → key mod span z = 0 → (h + 1 ≤ 5 ∨ ∃ k, key ≤ k ∧ is_Some (m !! k)) →
  wp (walk_descend (S l) key (6 * h) a prev)
    (λ r s', s' = s ∧
       match r with
       | inl key' => ∃ d, z ≤ d ≤ h ∧ d + 1 ≤ 5 ∧
           key' = key_wrap ((key / span (d + 1) + 1) * span (d + 1)) ∧
           gap m key ((key / span (d + 1) + 1) * span (d + 1))
       | inr r => walk_found s m key r
       end) s.
Proof.
  intros Hrep. revert key a h prev z. induction l as [|l IH]; intros key a h prev z Hp Hk Hl Hz Hsafe;
    pose proof Hrep as (Hlive & Ht & Hm); destruct (t_lookup Ht _ _ _ Hp) as (n & Ha & Oa);
    pose proof (node_find_spec (key_index key (6 * h)) Ht Ha Hp (key_index_lt _ _)) as Hfind;
    pose proof (t_height Ht) as HH; pose proof (ok_below Oa) as Hh;
    cbn [walk_descend]; wp_step; (apply (wp_load _ n); [done|]); cbv zeta;
    destruct (rdxtree_node_find n (key_index key (6 * h))) as [[ptr i]|].
  - destruct Hfind as (Hi & _ & (e & He & He0 & ->) & Hnull).
    destruct (walk_key_spec _ _ _ _ _ _ _ _ _ Hrep Ha Hp Hk Hi He He0 Hnull) as (Hk' & Hg & Hd & _).
    assert (h = 0) as -> by lia. cbn [walk_descend]. wp_step. split; [done|].
    rewrite span_0 in Hd. pose proof (ok_entry Oa _ _ He He0) as Ho. unfold entry_ok in Ho.
    rewrite decide_True, <- Hd in Ho by done. rewrite entry_addr_aligned by apply Ho.
    destruct (prefix_div (key / span (0 + 1)) i (proj2 Hi)) as [Hq Hr]. rewrite <- Hd in Hq, Hr.
    split_and!; [apply Hk'|apply Hk'|done| |done|].
    + apply Hm. exists a, n. by rewrite Hq, Hr.
    + exists pos. by rewrite Hq.
  - by apply (walk_fail_spec s pos m key a n h z).
  - destruct Hfind as (Hi & _ & (e & He & He0 & ->) & Hnull).
    pose proof (walk_key_spec _ _ _ _ _ _ _ _ _ Hrep Ha Hp Hk Hi He He0 Hnull) as Hkey. cbv zeta in Hkey.
    set (key' := if i =? _ then _ else _) in Hkey |- *. destruct Hkey as (Hk' & Hg & Hd & Hlow).
    assert (h ≠ 0) as Hh0 by lia.
    destruct (t_child Ht _ _ _ _ _ e Ha Hp Hh0 (proj2 Hi) He He0) as (nc & _ & Hc & Hpc & _).
    rewrite <- Hd in Hpc. rewrite u32_sub_radix by lia.
    eapply wp_mono; [apply (IH key' _ (h - 1) a (if decide (key' = key) then z else h))|].
    + rewrite Hpc. by replace (h - 1 + 1) with h by lia.
    + apply Hk'.
    + lia.
    + case_decide as E; [by rewrite E|]. by destruct Hlow.
    + left. lia.
    + intros [key''|r] s' [-> Hr]; (split; [done|]); [|by eapply walk_found_skip; [apply Hk'| |]].
      destruct Hr as (d & Hdz & Hd5 & Hr). case_decide as E; [|lia]. rewrite E in Hr.
      exists d. split_and!; try apply Hr; lia.
  - by apply (walk_fail_spec s pos m key a n h z).
Qed.

(** The key of the next restart, which is 0 past the key space. *)
Lemma next_row key d :
  key < 2 ^ 32 → d + 1 ≤ 5 →
  key < (key / span (d + 1) + 1) * span (d + 1) ∧
  (key_wrap ((key / span (d + 1) + 1) * span (d + 1)) = 0 ∧
     2 ^ 32 ≤ (key / span (d + 1) + 1) * span (d + 1) ∨
   key_wrap ((key / span (d + 1) + 1) * span (d + 1)) = (key / span (d + 1) + 1) * span (d + 1) ∧
     (key / span (d + 1) + 1) * span (d + 1) < 2 ^ 32).
Proof.
  intros Hk Hd. pose proof (span_pos (d + 1)).
  set (q := key / span (d + 1)). assert (key < (q + 1) * span (d + 1)) as Hgt.
  { rewrite N.mul_comm, (N.add_1_r q). apply N.mul_succ_div_gt. lia. }
  split; [done|]. unfold key_wrap, wrap, KEY_BITS.
  assert (2 ^ 32 = 2 ^ (32 - 6 * (d + 1)) * span (d + 1)) as E.
  { unfold span. rewrite <- N.pow_add_r. f_equal. lia. }
  assert (q < 2 ^ (32 - 6 * (d + 1))) as Hq.
  { apply N.Div0.div_lt_upper_bound. by rewrite N.mul_comm, <- E. }
  destruct (decide (q + 1 = 2 ^ (32 - 6 * (d + 1)))) as [Eq|Hne].
  - left. rewrite Eq, <- E. split; [by apply N.Div0.mod_same|done].
  - right. assert ((q + 1) * span (d + 1) < 2 ^ 32) by (rewrite E; apply N.mul_lt_mono_pos_r; lia).
    split; [by apply N.mod_small|done].
Qed.

(** Iteration reaches the end of a tree of 6 levels through an undefined
    shift. *)
Definition walk_safe s m (from : N) : Prop :=
  height (tree s) ≤ 5 ∨ ∃ k, from ≤ k ∧ is_Some (m !! k).

Lemma walk_safe_skip s m a b : gap m a b → walk_safe s m a → walk_safe s m b.
Proof.
  intros Hg [?|(k & Hk & [v Hv])]; [by left|right]. exists k. split; [|eauto].
  apply N.nlt_ge. intros Hlt. by rewrite Hg in Hv.
Qed.

Lemma walk_restart_spec fuel s pos m key r z :
  levels_rep s pos m None None → pos !! r = Some (height (tree s) - 1, 0) →
  key < 2 ^ 32 → key mod span z = 0 → z ≤ height (tree s) →
  (N.to_nat (height (tree s) + 1 - z) ≤ fuel)%nat → walk_safe s m key →
  wp (walk_restart fuel key r)
    (λ x s', s' = s ∧
       match x with
       | None => ∀ j, key ≤ j → m !! j = None
       | Some x => walk_found s m key x
       end) s.
Proof.
  intros Hrep Hpr. revert key z. induction fuel as [|fuel IH]; intros key z Hk Hz HzH Hf Hsafe; [lia|].
  pose proof Hrep as (_ & Ht & _). destruct (t_lookup Ht _ _ _ Hpr) as (n & Hr & Or).
  pose proof (t_height Ht) as HH. cbn [walk_restart]. wp_step. apply (wp_load _ n); [done|].
  rewrite (ok_height Or). cbv zeta. rewrite N.sub_add by lia.
  destruct (rdxtree_max_key (height (tree s)) <? key) eqn:Hmax.
  - destruct (max_key_div_gt _ _ (proj2 HH) Hk Hmax) as [_ Hne]. wp_step. split; [done|].
    intros j Hj. eapply levels_beyond; [done|]. pose proof (span_pos (height (tree s))).
    assert (key / span (height (tree s)) ≤ j / span (height (tree s))) by (by apply N.Div0.div_le_mono).
    intros E. apply Hne. apply N.le_0_r. by rewrite <- E.
  - replace ((height (tree s) - 1) * RDXTREE_RADIX) with (6 * (height (tree s) - 1))
      by (unfold RDXTREE_RADIX; lia).
    replace (N.to_nat (height (tree s))) with (S (N.to_nat (height (tree s) - 1))) by lia.
    wp_step. eapply wp_mono.
    { eapply (walk_descend_spec _ s pos m key r (height (tree s) - 1) r z); try done.
      - rewrite Hpr, N.sub_add by lia. by rewrite (max_key_div _ _ (proj2 HH) Hk Hmax).
      - destruct Hsafe as [?|?]; [left; lia|by right]. }
    intros [key'|x] s' [-> Hx]; [|by wp_step]. destruct Hx as (d & Hdz & Hd & -> & Hg).
    destruct (next_row key d Hk Hd) as (Hgt & [(E & Hge)|(E & Hlt)]); rewrite E.
    + rewrite N.eqb_refl. wp_step. split; [done|]. intros j Hj.
      destruct (m !! j) as [v|] eqn:Hv; [|done].
      pose proof (levels_key_lt _ _ _ _ _ _ _ Hrep Hv). by rewrite Hg in Hv by lia.
    + rewrite (proj2 (N.eqb_neq _ 0)) by lia. eapply wp_mono.
      { apply (IH _ (d + 1)); [done|apply N.Div0.mod_mul|lia|lia|by eapply walk_safe_skip]. }
      intros [x|] s' [-> Hx]; (split; [done|]); [eapply walk_found_skip; [|done|done]; lia|].
      intros j Hj. destruct (N.lt_ge_cases j ((key / span (d + 1) + 1) * span (d + 1))); [by apply Hg|by apply Hx].
Qed.

(** The iterator stands just before the key [from]. *)
Definition iter_at s m (it : rdxtree_iter) (from : N) : Prop :=
  (it = rdxtree_iter_init ∧ from = 0) ∨
  (from = iter_key it + 1 ∧ iter_key it < 2 ^ 32 ∧
   (height (tree s) = 0 ∧ iter_node it = 0 ∧ iter_key it = 0 ∨
    ∃ pos, levels_rep s pos m None None ∧ pos !! iter_node it = Some (0, iter_key it / 64))).

(** What a step of the iteration returns. *)
Definition walked s m it from (r : N * rdxtree_iter) : Prop :=
  if decide (r.1 = 0) then r.2 = it ∧ ∀ j, from ≤ j → m !! j = None
  else from ≤ iter_key r.2 ∧ gap m from (iter_key r.2) ∧ m !! iter_key r.2 = Some r.1 ∧
    iter_at s m r.2 (iter_key r.2 + 1) ∧ (height (tree s) ≠ 0 → iter_node r.2 ≠ 0).

Lemma walk_found_walked s m it from prev key node :
  walk_found s m from (prev, key, node) → walked s m it from (node, RIter prev key).
Proof.
  intros (Hk & Hg & Hv & Hn & pos & Hrep & Hp). unfold walked. cbn [fst snd iter_key iter_node].
  rewrite decide_False by done. split_and!; [apply Hk|done|done| |].
  - right. split_and!; [done|apply Hk|]. right. eauto.
  - intros _. pose proof Hrep as (_ & Ht & _). destruct (t_lookup Ht _ _ _ Hp) as (n & _ & On). apply On.
Qed.

Lemma iter_at_next s pos m it from :
  levels_rep s pos m None None → iter_at s m it from →
  from = 2 ^ 32 ∧ iter_node it ≠ 0 ∧ key_wrap (iter_key it + 1) = 0 ∨
  from < 2 ^ 32 ∧ from = key_wrap (iter_key it + 1) ∧
    ((key_wrap (iter_key it + 1) =? 0) && negb (iter_node it =? 0)) = false.
Proof.
  intros (_ & Ht0 & _) [[-> ->]|(-> & Hk & [(? & _)|(pos' & (_ & Ht & _) & Hp)])];
    [by right|pose proof (t_height Ht0); lia|].
  destruct (t_lookup Ht _ _ _ Hp) as (n & _ & On). pose proof (ok_nonnull On).
  unfold key_wrap, wrap, KEY_BITS. destruct (decide (iter_key it + 1 = 2 ^ 32)) as [E|Hne].
  - left. by rewrite E.
  - right. rewrite N.mod_small by lia. split_and!; [lia|done|].
    by rewrite (proj2 (N.eqb_neq _ 0)) by lia.
Qed.

Lemma rdxtree_walk_next_spec s m it from :
  rep s m → iter_at s m it from → walk_safe s m from →
  wp (rdxtree_walk_next it) (λ r s', s' = s ∧ walked s m it from r) s.
Proof.
  intros Hrep Hit Hsafe. unfold rdxtree_walk_next. wp_step. apply wp_get_tree. cbv zeta.
  destruct Hrep as [(Hl & Hns & Hh & Hal & Hm)|(pos & Hrep)].
  - unfold walked. destruct (N.eqb_spec (root (tree s)) 0) as [Hr|Hr].
    { wp_step. split; [done|]. subst m. by rewrite !decide_True. }
    rewrite entry_is_node_aligned by done. cbn [negb]. rewrite decide_False in Hm by done. subst m.
    destruct Hit as [[-> ->]|(-> & Hk & [(_ & Hn & E)|(pos & (_ & Ht & _) & _)])]; [| |pose proof (t_height Ht); lia].
    + rewrite N.eqb_refl. cbn [negb]. wp_step. split; [done|]. rewrite entry_addr_aligned by done.
      cbn [fst snd iter_key iter_node]. rewrite decide_False by done.
      split_and!; [done|intros j ?; lia|by apply lookup_singleton_eq| |done].
      right. split_and!; [done|done|left]. done.
    + rewrite E. change (negb (0 =? N.ones KEY_BITS)) with true. cbv iota. wp_step. split; [done|].
      cbn [fst snd]. rewrite decide_True by done. split; [done|]. intros j Hj. apply lookup_singleton_ne. lia.
  - destruct (rep_root_levels _ _ _ _ _ Hrep) as (r & nr & Er & Hral & Hr0 & Hr & Hpr & _ & HH).
    rewrite Er, entry_is_node_tag, entry_addr_tag by done.
    rewrite (proj2 (N.eqb_neq _ _) (tag_nonzero r)). cbn [negb].
    destruct (iter_at_next _ _ _ _ _ Hrep Hit) as [(-> & Hn & ->)|(Hlt & E & ->)].
    + rewrite (proj2 (N.eqb_neq _ _) Hn). cbn. split; [done|]. unfold walked. cbn [fst snd].
      rewrite decide_True by done. split; [done|]. intros j Hj. destruct (m !! j) as [v|] eqn:Hv; [|done].
      pose proof (levels_key_lt _ _ _ _ _ _ _ Hrep Hv). lia.
    + wp_step. eapply wp_mono.
      { eapply (walk_restart_spec _ s pos m _ r 0); try done; [by rewrite <- E|..].
        - change (span 0) with 1. apply N.mod_1_r.
        - lia.
        - unfold walk_fuel. lia.
        - by rewrite <- E. }
      rewrite <- E. intros [[[prev key] node]|] s' [-> Hx]; wp_step; (split; [done|]).
      * by apply walk_found_walked.
      * unfold walked. by rewrite decide_True.
Qed.

Lemma rdxtree_walk_spec s m it from :
  rep s m → iter_at s m it from → walk_safe s m from →
  wp (rdxtree_walk it) (λ r s', s' = s ∧ walked s m it from r) s.
Proof.
  intros Hrep Hit Hsafe. unfold rdxtree_walk.
  destruct (N.eqb_spec (iter_node it) 0) as [Hn|Hn]; [by apply rdxtree_walk_next_spec|].
  cbv zeta. destruct (N.eqb_spec (N.land (key_wrap (iter_key it + 1)) RDXTREE_RADIX_MASK) 0) as [Hi|Hi];
    [by apply rdxtree_walk_next_spec|]. cbn [negb].
  destruct Hit as [[-> _]|(-> & Hk & [(_ & ? & _)|(pos & Hlev & Hp)])]; [done|done|].
  change (N.land _ RDXTREE_RADIX_MASK) with (key_index (key_wrap (iter_key it + 1)) (6 * 0)) in Hi |- *.
  pose proof Hlev as (_ & Ht & Hm). destruct (t_lookup Ht _ _ _ Hp) as (n & Ha & Oa).
  wp_step. apply (wp_load _ n); [done|].
  assert (key_wrap (iter_key it + 1) = iter_key it + 1) as E.
  { unfold key_wrap, wrap, KEY_BITS in *. apply N.mod_small.
    destruct (decide (iter_key it + 1 = 2 ^ 32)) as [E|]; [|lia]. by rewrite E in Hi. }
  rewrite E in Hi |- *. rewrite key_index_mod, span_0 in Hi.
  destruct (succ_same_row _ Hi) as [Hd Hmo].
  pose proof (node_find_spec (key_index (iter_key it + 1) (6 * 0)) Ht Ha Hp (key_index_lt _ _)) as Hf.
  destruct (rdxtree_node_find n _) as [[ptr i]|] eqn:Ef.
  - destruct Hf as (Hii & Hp0 & (e & He & He0 & ->) & Hz).
    pose proof (ok_entry Oa _ _ He He0) as Ho. unfold entry_ok in Ho. rewrite decide_True in Ho by done.
    rewrite entry_addr_aligned in * by apply Ho. wp_step. split; [done|].
    pose proof (row_gap s pos m (iter_node it) n 0 (iter_key it + 1) i) as Hg.
    rewrite span_1, Hd in Hg. specialize (Hg Hlev Ha Hp ltac:(lia) Hz).
    rewrite key_index_mod, span_0 in Hii |- *. change (span 0) with 1 in Hg. rewrite N.mul_1_r in Hg.
    replace (key_wrap (iter_key it + (i - (iter_key it + 1) mod 64) + 1)) with (iter_key it / 64 * 64 + i); cycle 1.
    { rewrite same_row_add by (done || apply Hii). symmetry. apply N.mod_small, Ho. }
    destruct (prefix_div (iter_key it / 64) i (proj2 Hii)) as [Hq Hr].
    apply walk_found_walked.
    split_and!; [rewrite <- (same_row_add _ _ Hmo (proj1 Hii)); clear; lia|apply Ho|done| |done|exists pos; by rewrite Hq].
    apply Hm. exists (iter_node it), n. by rewrite Hq, Hr.
  - apply rdxtree_walk_next_spec; [by right; eauto| |done]. right. split_and!; [done|done|]. right. eauto.
Qed.

(** The bindings from [from] on. *)
Definition above m (from : N) : gmap N N := filter (λ kv, from ≤ kv.1) m.

Lemma above_split m from k v :
  from ≤ k → gap m from k → m !! k = Some v → above m from = <[k := v]> (above m (k + 1)).
Proof.
  intros Hk Hg Hv. apply map_eq. intros j. destruct (decide (j = k)) as [->|Hne].
  - rewrite lookup_insert_eq. by apply map_lookup_filter_Some.
  - rewrite lookup_insert_ne by done. apply option_eq. intros w.
    unfold above. rewrite !map_lookup_filter_Some. cbn [fst]. split; intros [Hw Hj]; (split; [done|]); [|lia].
    apply N.nlt_ge. intros Hlt. by rewrite Hg in Hw by lia.
Qed.

Lemma for_each_loop_spec fuel s m it from :
  rep s m → height (tree s) ≤ 5 → iter_at s m it from → (size (above m from) < fuel)%nat →
  wp (for_each_loop fuel it)
    (λ l s', s' = s ∧ StronglySorted (λ x y, x.1 < y.1) l ∧
       ∀ k v, (k, v) ∈ l ↔ from ≤ k ∧ m !! k = Some v) s.
Proof.
  intros Hrep H5. revert it from. induction fuel as [|fuel IH]; intros it from Hit Hf; [lia|].
  cbn [for_each_loop]. wp_step. eapply wp_mono; [apply (rdxtree_walk_spec s m it from); [done|done|by left]|].
  intros [ptr it'] s' [-> Hw]. unfold walked in Hw. cbn [fst snd] in Hw. case_decide as Ep.
  - rewrite Ep, N.eqb_refl. wp_step. split_and!; [done|constructor|]. destruct Hw as [_ Hno].
    intros k v. split; [by intros ?%not_elem_of_nil|]. intros [Hk Hv]. by rewrite Hno in Hv.
  - destruct Hw as (Hle & Hg & Hv & Hit' & _). rewrite (proj2 (N.eqb_neq _ _) Ep). wp_step.
    rewrite (above_split _ _ _ _ Hle Hg Hv), map_size_insert_None in Hf; cycle 1.
    { apply map_lookup_filter_None_2. right. intros ? _. cbn [fst]. lia. }
    eapply wp_mono; [apply (IH it' (iter_key it' + 1)); [done|lia]|].
    intros l s' (-> & Hsort & Hin). wp_step. split_and!; [done| |].
    + constructor; [done|]. apply list.Forall_forall. intros [k v] [Hk _]%Hin. cbn [fst]. lia.
    + intros k v. rewrite elem_of_cons, Hin. split.
      * intros [[= -> ->]|[Hk Hkv]]; (split; [lia|done]).
      * intros [Hk Hkv]. destruct (decide (k = iter_key it')) as [->|Hne]; [left; congruence|right].
        split; [|done]. destruct (N.lt_ge_cases k (iter_key it')); [by rewrite Hg in Hkv|lia].
Qed.
End Walk.
