(* ===== verification/RdxtreeMap.v ===== *)
(** The radix tree as a finite map: the interface that the IPC spaces rely on,
    the instance that the radix tree provides, the refinement of whole runs, and
    the inputs on which key allocation and iteration leave that contract. *)

From stdpp Require Import sorting.
From S2P Require Import Prelude Kmem Rdxtree RdxtreeInv RdxtreeOps RdxtreeSpec RdxtreeWalk.

Open Scope N_scope.

(** ** The interface *)

(** A map from 32-bit keys to non-null aligned pointers.  [km_rep t m]: the
    structure [t] represents [m]; [km_holds t m k sl]: [sl] is the slot of [k]
    in [t]; [km_iter_at t m it k]: an iteration has visited the keys below [k];
    [km_alloc_safe t], [km_walk_safe t]: a key can be allocated in [t], and an
    iteration ends; [km_fresh t]: [t] is memory without nodes, to be initialised. *)
Class KeyMap (T : Type) := {
  km_slot : Type;
  km_iter : Type;
  km_init : M T unit;
  km_lookup : N → M T N;
  km_lookup_slot : N → M T (option km_slot);
  km_slot_read : km_slot → M T N;
  km_replace_slot : km_slot → N → M T N;
  km_insert : N → N → M T N;
  km_insert_alloc : N → M T (N * option N);
  km_remove : N → M T N;
  km_iter_init : km_iter;
  km_walk : km_iter → M T (N * km_iter);
  km_remove_all : M T unit;
  km_fresh : T → Prop;
  km_rep : T → gmap N N → Prop;
  km_holds : T → gmap N N → N → km_slot → Prop;
  km_iter_at : T → gmap N N → km_iter → N → Prop;
  km_alloc_safe : T → Prop;
  km_walk_safe : T → Prop;
  km_init_law t : km_fresh t → wp km_init (λ _ t', km_rep t' ∅ ∧ km_alloc_safe t') t;
  km_lookup_law t m k :
    km_rep t m → k < 2 ^ 32 → wp (km_lookup k) (λ v t', t' = t ∧ v = word m k) t;
  km_lookup_slot_law t m k :
    km_rep t m → k < 2 ^ 32 →
    wp (km_lookup_slot k)
      (λ r t', t' = t ∧
         match r with
         | None => m !! k = None
         | Some sl => is_Some (m !! k) ∧ km_holds t m k sl
         end) t;
  km_slot_read_law t m k sl :
    km_rep t m → km_holds t m k sl → wp (km_slot_read sl) (λ v t', t' = t ∧ v = word m k) t;
  km_replace_slot_law t m k sl v :
    km_rep t m → km_holds t m k sl → word m k ≠ 0 → aligned v → v ≠ 0 →
    wp (km_replace_slot sl v) (λ old t', old = word m k ∧ km_rep t' (<[k := v]> m)) t;
  km_insert_law t m k v :
    km_rep t m → k < 2 ^ 32 → aligned v → v ≠ 0 →
    wp (km_insert k v)
      (λ err t', err = ERR_SUCCESS ∧ m !! k = None ∧ km_rep t' (<[k := v]> m) ∨
         err = ERR_BUSY ∧ is_Some (m !! k) ∧ km_rep t' m ∨
         err = ERR_NOMEM ∧ km_rep t' m) t;
  km_insert_alloc_law t m v :
    km_rep t m → km_alloc_safe t → aligned v → v ≠ 0 →
    wp (km_insert_alloc v)
      (λ r t', (∃ k, r = (ERR_SUCCESS, Some k) ∧ m !! k = None ∧ k < 2 ^ 32 ∧ km_rep t' (<[k := v]> m)) ∨
         r = (ERR_NOMEM, None) ∧ km_rep t' m) t;
  km_remove_law t m k :
    km_rep t m → k < 2 ^ 32 →
    wp (km_remove k) (λ v t', v = word m k ∧ km_rep t' (delete k m)) t;
  km_iter_init_law t m : km_iter_at t m km_iter_init 0;
  km_walk_law t m it from :
    km_rep t m → km_walk_safe t → km_iter_at t m it from →
    wp (km_walk it)
      (λ r t', t' = t ∧
         (r.1 = 0 ∧ (∀ k, from ≤ k → m !! k = None) ∨
          ∃ k, r.1 ≠ 0 ∧ from ≤ k ∧ (∀ j, from ≤ j < k → m !! j = None) ∧ m !! k = Some r.1 ∧
            km_iter_at t m r.2 (k + 1))) t;
}.

(** ** The radix tree meets it *)

Section Instance.
Context {C : Type} `{!KmemCache C} (garbage : N).

Lemma slot_read_spec (s : store C) m key sl :
  slot_holds s m key sl → wp (slot_read sl) (λ v s', s' = s ∧ v = word m key) s.
Proof.
  destruct sl as [|a i]; cbn [slot_holds slot_read].
  - intros (_ & _ & E). wp_step. apply wp_get_tree. by wp_step.
  - intros (pos & _ & n & Ha & _ & _ & He). wp_step. apply (wp_load _ n); [done|].
    by apply (wp_entry_at _ _ (word m key)).
Qed.

Lemma rdxtree_lookup_spec (s : store C) m key :
  rep s m → key < 2 ^ 32 → wp (rdxtree_lookup key) (λ v s', s' = s ∧ v = word m key) s.
Proof.
  intros Hrep Hk. unfold rdxtree_lookup. wp_step.
  eapply wp_mono; [by apply (rdxtree_lookup_common_spec s m)|].
  intros [[p sl]|] s' [-> Hr]; wp_step; (split; [done|]); unfold word.
  - by destruct Hr as (-> & _).
  - by rewrite Hr.
Qed.

Lemma rdxtree_insert_spec (s : store C) m k v :
  rep s m → k < 2 ^ 32 → aligned v → v ≠ 0 →
  wp (rdxtree_insert garbage k v)
    (λ err s', err = ERR_SUCCESS ∧ m !! k = None ∧ rep s' (<[k := v]> m) ∨
       err = ERR_BUSY ∧ is_Some (m !! k) ∧ rep s' m ∨
       err = ERR_NOMEM ∧ rep s' m) s.
Proof.
  intros Hrep Hk Hv Hv0. unfold rdxtree_insert. wp_step.
  eapply wp_mono; [by apply rdxtree_insert_common_spec|].
  intros [err [sl|]] s'; [intros (-> & ? & ? & _)|intros (? & [[-> ?]| ->])]; wp_step; auto.
Qed.

Lemma rdxtree_insert_alloc_spec (s : store C) m v :
  rep s m → alloc_safe s → aligned v → v ≠ 0 →
  wp (rdxtree_insert_alloc garbage v)
    (λ r s', (∃ k, r = (ERR_SUCCESS, Some k) ∧ m !! k = None ∧ k < 2 ^ 32 ∧ rep s' (<[k := v]> m)) ∨
       r = (ERR_NOMEM, None) ∧ rep s' m) s.
Proof.
  intros Hrep Hsafe Hv Hv0. unfold rdxtree_insert_alloc. wp_step.
  eapply wp_mono; [by apply rdxtree_insert_alloc_common_spec|].
  intros [err [[k sl]|]] s'; [intros (-> & ? & ? & ? & _)|intros (? & ->)]; wp_step; eauto.
  left. exists k. auto.
Qed.

#[export] Program Instance rdxtree_keymap : KeyMap (store C) := {|
  km_slot := slot;
  km_iter := rdxtree_iter;
  km_init := rdxtree_init;
  km_lookup := rdxtree_lookup;
  km_lookup_slot := rdxtree_lookup_slot;
  km_slot_read := slot_read;
  km_replace_slot := rdxtree_replace_slot;
  km_insert := rdxtree_insert garbage;
  km_insert_alloc := rdxtree_insert_alloc garbage;
  km_remove := rdxtree_remove;
  km_iter_init := rdxtree_iter_init;
  km_walk := rdxtree_walk;
  km_remove_all := rdxtree_remove_all;
  km_fresh := λ s, nodes s = ∅ ∧ km_live (cache s) = ∅;
  km_rep := rep;
  km_holds := slot_holds;
  km_iter_at := iter_at;
  km_alloc_safe := alloc_safe;
  km_walk_safe := λ s, height (tree s) ≤ 5;
  km_lookup_law := rdxtree_lookup_spec;
  km_insert_law := rdxtree_insert_spec;
  km_insert_alloc_law := rdxtree_insert_alloc_spec;
  km_remove_law := rdxtree_remove_spec;
|}.
Next Obligation.
  intros [t ns c] [Hn Hc]. unfold rdxtree_init. wp_step. cbn in *. subst ns.
  split; [by apply rep_empty|]. left. cbn. lia.
Qed.
Next Obligation.
  intros s m k Hrep Hk. unfold rdxtree_lookup_slot. wp_step.
  eapply wp_mono; [by apply (rdxtree_lookup_common_spec s m)|].
  intros [[p sl]|] s' [-> Hr]; wp_step; (split; [done|]); [|done]. cbn.
  destruct Hr as (-> & _ & ?). eauto.
Qed.
Next Obligation. intros s m k sl _ Hh. by apply slot_read_spec. Qed.
Next Obligation.
  intros s m k sl v Hrep Hh Hw Hv Hv0.
  eapply wp_mono; [by apply (rdxtree_replace_slot_spec s m k)|]. by intros ? ? (-> & ? & _).
Qed.
Next Obligation. by left. Qed.
Next Obligation.
  intros s m it from Hrep H5 Hit. eapply wp_mono; [apply (rdxtree_walk_spec s m it from); [done|done|by left]|].
  intros [ptr it'] s' [-> Hw]. split; [done|]. unfold walked in Hw. cbn [fst snd] in Hw. case_decide as Ep.
  - left. by destruct Hw.
  - right. destruct Hw as (Hle & Hg & Hv & Hit' & _). exists (iter_key it'). by split_and!.
Qed.
End Instance.

(** ** Runs *)

Inductive map_op :=
  | OpLookup (k : N)
  | OpInsert (k v : N)
  | OpRemove (k : N)
  | OpReplace (k v : N).

(** Keys fit the key type, pointers satisfy the assertions of the code. *)
Definition map_op_ok (op : map_op) : bool :=
  let key k := k <? 2 ^ 32 in
  let ptr v := negb (v =? 0) && rdxtree_check_alignment v in
  match op with
  | OpLookup k | OpRemove k => key k
  | OpInsert k v | OpReplace k v => key k && ptr v
  end.

(** What a map does; an insertion may also run out of memory. *)
Inductive map_step (m : gmap N N) : map_op → N → gmap N N → Prop :=
  | step_lookup k : map_step m (OpLookup k) (word m k) m
  | step_insert k v : m !! k = None → map_step m (OpInsert k v) ERR_SUCCESS (<[k := v]> m)
  | step_busy k v : is_Some (m !! k) → map_step m (OpInsert k v) ERR_BUSY m
  | step_nomem k v : map_step m (OpInsert k v) ERR_NOMEM m
  | step_remove k : map_step m (OpRemove k) (word m k) (delete k m)
  | step_replace k v : is_Some (m !! k) → map_step m (OpReplace k v) (word m k) (<[k := v]> m)
  | step_replace_none k v : m !! k = None → map_step m (OpReplace k v) 0 m.

Inductive map_run : gmap N N → list map_op → list N → gmap N N → Prop :=
  | run_nil m : map_run m [] [] m
  | run_cons m m' m'' op r ops rs :
      map_step m op r m' → map_run m' ops rs m'' → map_run m (op :: ops) (r :: rs) m''.

Section Run.
Context {C : Type} `{!KmemCache C} (garbage : N).

Definition rdx_step (op : map_op) : M (store C) N :=
  match op with
  | OpLookup k => rdxtree_lookup k
  | OpInsert k v => rdxtree_insert garbage k v
  | OpRemove k => rdxtree_remove k
  | OpReplace k v =>
      sl ← rdxtree_lookup_slot k;
      match sl with Some sl => rdxtree_replace_slot sl v | None => mret 0 end
  end.

Fixpoint rdx_run (ops : list map_op) : M (store C) (list N) :=
  match ops with
  | [] => mret []
  | op :: ops => r ← rdx_step op; rs ← rdx_run ops; mret (r :: rs)
  end.

(** A tree that has just been initialised. *)
Definition rdx_empty (c : C) : store C := Store (RTree 0 0) ∅ c.

Lemma rdx_step_spec s m op :
  rep s m → map_op_ok op = true →
  wp (rdx_step op) (λ r s', ∃ m', map_step m op r m' ∧ rep s' m') s.
Proof.
  intros Hrep Hop. destruct op as [k|k v|k|k v]; cbn [map_op_ok rdx_step] in *.
  - apply N.ltb_lt in Hop. eapply wp_mono; [by apply (rdxtree_lookup_spec s m)|].
    intros r s' [-> ->]. exists m. split; [constructor|done].
  - apply andb_true_iff in Hop as [Hk%N.ltb_lt [Hv%negb_true_iff%N.eqb_neq Hal%check_alignment_true]%andb_true_iff].
    eapply wp_mono; [by apply (rdxtree_insert_spec garbage s m)|].
    intros r s' [(-> & ? & ?)|[(-> & ? & ?)|(-> & ?)]]; eexists; (split; [by constructor|done]).
  - apply N.ltb_lt in Hop. eapply wp_mono; [by apply (rdxtree_remove_spec s m)|].
    intros r s' [-> ?]. eexists. split; [constructor|done].
  - apply andb_true_iff in Hop as [Hk%N.ltb_lt [Hv%negb_true_iff%N.eqb_neq Hal%check_alignment_true]%andb_true_iff].
    unfold rdxtree_lookup_slot. wp_step. wp_step. eapply wp_mono; [by apply (rdxtree_lookup_common_spec s m)|].
    intros [[p sl]|] s' [-> Hr]; wp_step; cbn [fmap option_fmap option_map snd].
    + destruct Hr as (Hp & Hp0 & Hsl). assert (word m k ≠ 0) by (unfold word; by rewrite Hp).
      eapply wp_mono; [by apply (rdxtree_replace_slot_spec s m k)|].
      intros r s' (-> & ? & _). eexists. split; [constructor; eauto|done].
    + wp_step. exists m. split; [by constructor|done].
Qed.

Lemma rdx_run_spec ops s m :
  rep s m → forallb map_op_ok ops = true →
  wp (rdx_run ops) (λ rs s', ∃ m', map_run m ops rs m' ∧ rep s' m') s.
Proof.
  revert s m. induction ops as [|op ops IH]; intros s m Hrep Hok; cbn [rdx_run].
  - wp_step. exists m. split; [constructor|done].
  - cbn [forallb] in Hok. apply andb_true_iff in Hok as [Hop Hops].
    wp_step. eapply wp_mono; [by apply rdx_step_spec|]. intros r s1 (m1 & Hstep & Hrep1).
    wp_step. eapply wp_mono; [by apply IH|]. intros rs s2 (m2 & Hrun & Hrep2).
    wp_step. exists m2. split; [by econstructor|done].
Qed.

(** C24.  Any sequence of lookups, insertions, removals and replacements run on
    an initialised tree returns, without a failed assertion or a dangling
    dereference, and its results are those of a finite map (an insertion may
    report a lack of memory, and then changes nothing). *)
Theorem rdxtree_refines_map ops (c : C) :
  km_live c = ∅ → forallb map_op_ok ops = true →
  ∃ rs s' m', rdx_run ops (rdx_empty c) = Some (rs, s') ∧ map_run ∅ ops rs m' ∧ rep s' m'.
Proof.
  intros Hc Hok. pose proof (rdx_run_spec ops _ _ (rep_empty c Hc) Hok) as Hwp.
  apply wp_run in Hwp as (rs & s' & E & m' & Hrun & Hrep). eauto 10.
Qed.
End Run.

Definition demo_ops : list map_op :=
  [OpInsert 70 8; OpInsert 3 16; OpInsert 70 24; OpReplace 3 40; OpInsert 4294967295 48;
   OpRemove 70; OpLookup 70; OpLookup 3; OpLookup 4294967295].

Lemma rdxtree_refines_map_witness :
  (∃ rs s' m', rdx_run 0 demo_ops (rdx_empty (fl_init 64)) = Some (rs, s') ∧
     map_run ∅ demo_ops rs m' ∧ rep s' m') ∧
  option_map fst (rdx_run 0 demo_ops (rdx_empty (fl_init 64))) = Some [0; 0; 4; 16; 0; 8; 0; 40; 48].
Proof.
  split; [apply (rdxtree_refines_map 0 demo_ops (fl_init 64)); [reflexivity|vm_compute; reflexivity]|].
  vm_compute. reflexivity.
Defined.

(** ** Key allocation and iteration *)

Section Claims.
Context {C : Type} `{!KmemCache C} (garbage : N).


(** C26.  On a tree of at most 5 levels [rdxtree_for_each] terminates and
    visits every binding exactly once, in the order of the keys. *)
Theorem rdxtree_for_each_sorted (s : store C) m :
  rep s m → height (tree s) ≤ 5 →
  ∃ l, rdxtree_for_each (S (size m)) s = Some (l, s) ∧
    StronglySorted (λ x y, x.1 < y.1) l ∧ ∀ k v, (k, v) ∈ l ↔ m !! k = Some v.
Proof.
  intros Hrep H5. pose proof (for_each_loop_spec (S (size m)) s m rdxtree_iter_init 0 Hrep H5) as Hwp.
  apply wp_run in Hwp as (l & s' & E & -> & Hsort & Hin).
  - exists l. split_and!; [done|done|]. intros k v. rewrite Hin. split; [by intros [_ ?]|]. split; [lia|done].
  - by left.
  - apply Nat.lt_succ_r, map_subseteq_size, map_filter_subseteq.
Qed.
End Claims.

(** The tree that holds one pointer in its root. *)
Definition rdx_one : store free_list := Store (RTree 0 8) ∅ (fl_init 8).

Lemma rep_one : rep rdx_one {[0 := 8]}.
Proof. left. done. Qed.


Lemma rdxtree_for_each_sorted_witness :
  ∃ l, rdxtree_for_each (S (size ({[0 := 8]} : gmap N N))) rdx_one = Some (l, rdx_one) ∧
    StronglySorted (λ x y : N * N, x.1 < y.1) l ∧
    ∀ k v, (k, v) ∈ l ↔ ({[0 := 8]} : gmap N N) !! k = Some v.
Proof. apply (rdxtree_for_each_sorted rdx_one {[0 := 8]} rep_one). vm_compute. discriminate. Defined.

(** ** Where the contract ends *)

Definition inserts (ks : list N) : list map_op := (λ k, OpInsert k 8) <$> ks.
Definition multiples (base step : N) : list N := (λ i, base + N.of_nat i * step) <$> seq 1 63.

(** Keys that fill a path of nodes from the root child that holds [base] down
    to its first leaf. *)
Definition full_path (levels : list N) (base : N) : list N :=
  concat ((λ l, multiples base (64 ^ l)) <$> levels) ++ base :: multiples base 1.

(** C38.  Where key allocation and iteration leave their contract.
    [rdxtree_insert_bm_clear] takes a node whose 64 children exist for a node
    without a free key: with 128 keys bound and 65 free below 4096,
    [rdxtree_insert_alloc] returns 4096.  As a consequence, with 1264 keys bound,
    it runs over the end of the 32-bit keys, and reports success for key 0, which
    is already bound to another pointer.  Iterating over a tree of 6 levels shifts
    a 32-bit key by 36 when it reaches the end. *)
Theorem rdxtree_limits fuel :
  option_map fst
    ((_ ← rdx_run 0 (inserts (5000 :: full_path [1] 0));
      r ← rdxtree_insert_alloc 0 8; v ← rdxtree_lookup 65; mret (r, v)) (rdx_empty (fl_init 256)))
  = Some ((ERR_SUCCESS, Some 4096), 0) ∧
  option_map fst
    ((_ ← rdx_run 0 (inserts (concat ((λ j, full_path [4; 3; 2; 1] (j * 2 ^ 30)) <$> [3; 2; 1; 0])));
      r ← rdxtree_insert_alloc 0 16; v ← rdxtree_lookup 0; mret (r, v)) (rdx_empty (fl_init 3000)))
  = Some ((ERR_SUCCESS, Some 0), 8) ∧
  (_ ← rdxtree_insert 0 (2 ^ 31) 8; rdxtree_for_each fuel) (rdx_empty (fl_init 16)) = None.
Proof. split_and!; [vm_compute; reflexivity..|]. destruct fuel as [|[|fuel]]; vm_compute; reflexivity. Qed.
