(* ===== verification/Rbtree.v ===== *)
(** The red-black trees of kern/rbtree.c, kern/rbtree.h and kern/rbtree_i.h on
    their own representation: nodes in a heap indexed by address, a word that
    holds the address of the parent and the colour, an array of two children.

    The comparison functions of the users are parameters.  Loops that follow
    pointers take their fuel from the number of nodes. *)

From S2P Require Import Prelude.

Open Scope N_scope.

(** ** Data *)

Record rbtree_node := RbNode {
  rb_parent : N;
  rb_left : N;
  rb_right : N;
}.

(** A tree and the memory with its nodes; other nodes may be there as well. *)
Record rbstore := RbStore {
  rb_root : N;
  rb_nodes : gmap N rbtree_node;
}.

Definition RBTREE_LEFT : Z := 0.
Definition RBTREE_RIGHT : Z := 1.
Definition RBTREE_COLOR_MASK : N := 1.
(** [RBTREE_PARENT_MASK] is [~0x3UL]. *)
Definition RBTREE_PARENT_LOW : N := 3.
Definition RBTREE_COLOR_RED : N := 0.
Definition RBTREE_COLOR_BLACK : N := 1.
Definition RBTREE_SLOT_INDEX_MASK : N := 1.

Definition rbtree_check_alignment (node : N) : bool := N.land node RBTREE_PARENT_LOW =? 0.
Definition rbtree_check_index (index : Z) : bool := (index =? Z.land index 1)%Z.
Definition rbtree_d2i (diff : Z) : Z := Z.b2z (negb (diff <=? 0)%Z).

(** [node->children[i]]; [None] outside of the array. *)
Definition rb_child (i : Z) (n : rbtree_node) : option N :=
  if (i =? RBTREE_LEFT)%Z then Some (rb_left n) else if (i =? RBTREE_RIGHT)%Z then Some (rb_right n) else None.
Definition rb_set_child (i : Z) (v : N) (n : rbtree_node) : option rbtree_node :=
  if (i =? RBTREE_LEFT)%Z then Some (RbNode (rb_parent n) v (rb_right n))
  else if (i =? RBTREE_RIGHT)%Z then Some (RbNode (rb_parent n) (rb_left n) v)
  else None.
Definition rb_set_parent (w : N) (n : rbtree_node) : rbtree_node := RbNode w (rb_left n) (rb_right n).

#[local] Abbreviation R := (M rbstore).

(** ** Memory *)

Definition rb_load (a : N) : R rbtree_node := s ← get; deref (rb_nodes s !! a).
Definition rb_store (a : N) (n : rbtree_node) : R unit :=
  s ← get; _ ← deref (rb_nodes s !! a); put (RbStore (rb_root s) (<[a := n]> (rb_nodes s))).
Definition get_child (a : N) (i : Z) : R N := n ← rb_load a; deref (rb_child i n).
Definition put_child (a : N) (i : Z) (v : N) : R unit := n ← rb_load a; n' ← deref (rb_set_child i v n); rb_store a n'.
Definition get_word (a : N) : R N := n ← rb_load a; mret (rb_parent n).
Definition put_word (a w : N) : R unit := n ← rb_load a; rb_store a (rb_set_parent w n).
Definition get_root : R N := s ← get; mret (rb_root s).
Definition put_root (r : N) : R unit := modify (λ s, RbStore r (rb_nodes s)).
Definition rb_fuel : R nat := s ← get; mret (S (S (size (rb_nodes s)))).

(** ** Nodes *)

Definition rbtree_parent (node : N) : R N := w ← get_word node; mret (N.ldiff w RBTREE_PARENT_LOW).

Definition rbtree_slot (parent : N) (index : Z) : R N :=
  check (rbtree_check_alignment parent);;
  check (rbtree_check_index index);;
  mret (N.lor parent (Z.to_N index)).
Definition rbtree_slot_parent (slot : N) : N := N.ldiff slot RBTREE_SLOT_INDEX_MASK.
Definition rbtree_slot_index (slot : N) : Z := Z.of_N (N.land slot RBTREE_SLOT_INDEX_MASK).

Definition rbtree_init : R unit := put_root 0.
Definition rbtree_node_init (node : N) : R unit :=
  check (rbtree_check_alignment node);;
  put_word node (N.lor node RBTREE_COLOR_RED);;
  put_child node RBTREE_LEFT 0;;
  put_child node RBTREE_RIGHT 0.
Definition rbtree_node_unlinked (node : N) : R bool := p ← rbtree_parent node; mret (p =? node).
Definition rbtree_empty : R bool := r ← get_root; mret (r =? 0).

Definition rbtree_index (node parent : N) : R Z :=
  check (negb (parent =? 0));;
  (if node =? 0 then mret tt else p ← rbtree_parent node; check (p =? parent));;
  l ← get_child parent RBTREE_LEFT;
  if l =? node then mret RBTREE_LEFT
  else
    r ← get_child parent RBTREE_RIGHT;
    check (r =? node);;
    mret RBTREE_RIGHT.

Definition rbtree_color (node : N) : R N := w ← get_word node; mret (N.land w RBTREE_COLOR_MASK).
Definition rbtree_is_red (node : N) : R bool := c ← rbtree_color node; mret (c =? RBTREE_COLOR_RED).
Definition rbtree_is_black (node : N) : R bool := c ← rbtree_color node; mret (c =? RBTREE_COLOR_BLACK).

Definition rbtree_set_parent (node parent : N) : R unit :=
  check (rbtree_check_alignment node);;
  check (rbtree_check_alignment parent);;
  w ← get_word node;
  put_word node (N.lor parent (N.land w RBTREE_COLOR_MASK)).

Definition rbtree_set_color (node color : N) : R unit :=
  check (N.ldiff color RBTREE_COLOR_MASK =? 0);;
  w ← get_word node;
  put_word node (N.lor (N.ldiff w RBTREE_PARENT_LOW) color).
Definition rbtree_set_red (node : N) : R unit := rbtree_set_color node RBTREE_COLOR_RED.
Definition rbtree_set_black (node : N) : R unit := rbtree_set_color node RBTREE_COLOR_BLACK.

(** [p != NULL ? parent->children[index(node)] = v : tree->root = v], as it
    occurs in three places. *)
Definition replace_child (parent node v : N) : R unit :=
  if parent =? 0 then put_root v
  else i ← rbtree_index node parent; put_child parent i v.

(** [node == NULL || rbtree_is_black(node)]. *)
Definition null_or_black (node : N) : R bool := if node =? 0 then mret true else rbtree_is_black node.
(** [node != NULL && rbtree_is_red(node)]. *)
Definition red_node (node : N) : R bool := if node =? 0 then mret false else rbtree_is_red node.

Definition rbtree_rotate (node : N) (direction : Z) : R unit :=
  let left := direction in
  let right := (1 - left)%Z in
  parent ← rbtree_parent node;
  rnode ← get_child node right;
  c ← get_child rnode left;
  put_child node right c;;
  c ← get_child rnode left;
  (if c =? 0 then mret tt else rbtree_set_parent c node);;
  put_child rnode left node;;
  rbtree_set_parent rnode parent;;
  replace_child parent node rnode;;
  rbtree_set_parent node rnode.

(** ** Insertion *)

(** The loop of [rbtree_insert_rebalance]. *)
Fixpoint insert_loop (fuel : nat) (parent node : N) : R unit :=
  match fuel with
  | O => wrong
  | S fuel =>
      if parent =? 0 then rbtree_set_black node else
      b ← rbtree_is_black parent;
      if (b : bool) then mret tt else
      grand_parent ← rbtree_parent parent;
      check (negb (grand_parent =? 0));;
      left ← rbtree_index parent grand_parent;
      let right := (1 - left)%Z in
      uncle ← get_child grand_parent right;
      r ← red_node uncle;
      if (r : bool) then
        rbtree_set_black uncle;;
        rbtree_set_black parent;;
        rbtree_set_red grand_parent;;
        p ← rbtree_parent grand_parent;
        insert_loop fuel p grand_parent
      else
        c ← get_child parent right;
        '(node, parent) ←
          (if c =? node then rbtree_rotate parent left;; mret (parent, node) else mret (node, parent));
        rbtree_set_black parent;;
        rbtree_set_red grand_parent;;
        rbtree_rotate grand_parent right
  end.

Definition rbtree_insert_rebalance (parent : N) (index : Z) (node : N) : R unit :=
  check (rbtree_check_alignment parent);;
  check (rbtree_check_alignment node);;
  put_word node (N.lor parent RBTREE_COLOR_RED);;
  put_child node RBTREE_LEFT 0;;
  put_child node RBTREE_RIGHT 0;;
  (if parent =? 0 then put_root node else put_child parent index node);;
  fuel ← rb_fuel;
  insert_loop fuel parent node;;
  r ← get_root;
  b ← rbtree_is_black r;
  check b.

(** ** Removal *)

Fixpoint leftmost_loop (fuel : nat) (successor : N) : R N :=
  match fuel with
  | O => wrong
  | S fuel =>
      l ← get_child successor RBTREE_LEFT;
      if l =? 0 then mret successor else leftmost_loop fuel l
  end.

(** The node has at most one child. *)
Definition unlink_child (node child : N) : R (N * N * N) :=
  color ← rbtree_color node;
  parent ← rbtree_parent node;
  (if child =? 0 then mret tt else rbtree_set_parent child parent);;
  replace_child parent node child;;
  mret (color, child, parent).

(** The node has two children: its successor replaces it. *)
Definition unlink_successor (node successor : N) : R (N * N * N) :=
  color ← rbtree_color successor;
  child ← get_child successor RBTREE_RIGHT;
  parent ← rbtree_parent node;
  replace_child parent node successor;;
  parent ← rbtree_parent successor;
  w ← get_word node;
  put_word successor w;;
  l ← get_child node RBTREE_LEFT;
  put_child successor RBTREE_LEFT l;;
  l ← get_child successor RBTREE_LEFT;
  rbtree_set_parent l successor;;
  if node =? parent then mret (color, child, successor)
  else
    r ← get_child node RBTREE_RIGHT;
    put_child successor RBTREE_RIGHT r;;
    r ← get_child successor RBTREE_RIGHT;
    rbtree_set_parent r successor;;
    put_child parent RBTREE_LEFT child;;
    (if child =? 0 then mret tt else rbtree_set_parent child parent);;
    mret (color, child, parent).

(** The part of [rbtree_remove] before the label [update_color]: the colour, the
    child and the parent where the colours are to be updated. *)
Definition remove_unlink (node : N) : R (N * N * N) :=
  l ← get_child node RBTREE_LEFT;
  if l =? 0 then r ← get_child node RBTREE_RIGHT; unlink_child node r
  else
    r ← get_child node RBTREE_RIGHT;
    if r =? 0 then l ← get_child node RBTREE_LEFT; unlink_child node l
    else
      fuel ← rb_fuel;
      successor ← leftmost_loop fuel r;
      unlink_successor node successor.

(** The condition that no child of the brother is red. *)
Definition no_red_child (brother : N) : R bool :=
  l ← get_child brother RBTREE_LEFT;
  bl ← null_or_black l;
  if (bl : bool) then r ← get_child brother RBTREE_RIGHT; null_or_black r else mret false.

(** The end of an iteration, when the brother is black: [None] to leave the
    loop, [Some (child, parent)] to repeat. *)
Definition remove_brother (parent brother : N) (left right : Z) : R (option (N * N)) :=
  nr ← no_red_child brother;
  if (nr : bool) then
    rbtree_set_red brother;;
    p ← rbtree_parent parent;
    mret (Some (parent, p))
  else
    far ← get_child brother right;
    bf ← null_or_black far;
    brother ←
      (if (bf : bool) then
         near ← get_child brother left;
         rbtree_set_black near;;
         rbtree_set_red brother;;
         rbtree_rotate brother right;;
         get_child parent right
       else mret brother);
    c ← rbtree_color parent;
    rbtree_set_color brother c;;
    rbtree_set_black parent;;
    far ← get_child brother right;
    rbtree_set_black far;;
    rbtree_rotate parent left;;
    mret None.

Fixpoint remove_loop (fuel : nat) (child parent : N) : R unit :=
  match fuel with
  | O => wrong
  | S fuel =>
      rd ← red_node child;
      if (rd : bool) then rbtree_set_black child
      else if parent =? 0 then mret tt
      else
        left ← rbtree_index child parent;
        let right := (1 - left)%Z in
        brother ← get_child parent right;
        rb ← rbtree_is_red brother;
        brother ←
          (if (rb : bool) then
             rbtree_set_black brother;;
             rbtree_set_red parent;;
             rbtree_rotate parent left;;
             get_child parent right
           else mret brother);
        again ← remove_brother parent brother left right;
        match again with
        | None => mret tt
        | Some (child, parent) => remove_loop fuel child parent
        end
  end.

Definition rbtree_remove (node : N) : R unit :=
  '(color, child, parent) ← remove_unlink node;
  if color =? RBTREE_COLOR_RED then mret tt
  else
    fuel ← rb_fuel;
    remove_loop fuel child parent;;
    r ← get_root;
    b ← null_or_black r;
    check b.

(** ** Searches *)

Section Search.
(** [cmp_fn(key, node)], with the first argument fixed. *)
Context (cmp : N → Z).

Fixpoint lookup_loop (fuel : nat) (cur : N) : R N :=
  match fuel with
  | O => wrong
  | S fuel =>
      if cur =? 0 then mret cur
      else
        let diff := cmp cur in
        if (diff =? 0)%Z then mret cur
        else c ← get_child cur (rbtree_d2i diff); lookup_loop fuel c
  end.

Definition rb_lookup : R N := fuel ← rb_fuel; cur ← get_root; lookup_loop fuel cur.

(** The same with the last node and index: [(cur, prev, index)]. *)
Fixpoint slot_loop (fuel : nat) (prev : N) (index : Z) (cur : N) : R (N * N * Z) :=
  match fuel with
  | O => wrong
  | S fuel =>
      if cur =? 0 then mret (cur, prev, index)
      else
        let diff := cmp cur in
        if (diff =? 0)%Z then mret (cur, prev, index)
        else c ← get_child cur (rbtree_d2i diff); slot_loop fuel cur (rbtree_d2i diff) c
  end.

(** The loop of [rbtree_insert], which asserts that no entry compares equal. *)
Fixpoint point_loop (fuel : nat) (prev : N) (index : Z) (cur : N) : R (N * Z) :=
  match fuel with
  | O => wrong
  | S fuel =>
      if cur =? 0 then mret (prev, index)
      else
        let diff := cmp cur in
        check (negb (diff =? 0)%Z);;
        c ← get_child cur (rbtree_d2i diff); point_loop fuel cur (rbtree_d2i diff) c
  end.

Definition rbtree_insert (node : N) : R unit :=
  fuel ← rb_fuel;
  cur ← get_root;
  '(prev, index) ← point_loop fuel 0 (-1)%Z cur;
  rbtree_insert_rebalance prev index node.

Definition rb_lookup_slot : R (N * N) :=
  fuel ← rb_fuel;
  cur ← get_root;
  '(cur, prev, index) ← slot_loop fuel 0 0%Z cur;
  slot ← rbtree_slot prev index;
  mret (cur, slot).
End Search.

Definition rbtree_insert_slot (slot node : N) : R unit :=
  rbtree_insert_rebalance (rbtree_slot_parent slot) (rbtree_slot_index slot) node.

(** ** Walks *)

Fixpoint firstlast_loop (fuel : nat) (direction : Z) (prev cur : N) : R N :=
  match fuel with
  | O => wrong
  | S fuel =>
      if cur =? 0 then mret prev
      else c ← get_child cur direction; firstlast_loop fuel direction cur c
  end.

Definition rbtree_firstlast (direction : Z) : R N :=
  check (rbtree_check_index direction);;
  fuel ← rb_fuel;
  cur ← get_root;
  firstlast_loop fuel direction 0 cur.

Fixpoint down_loop (fuel : nat) (right : Z) (node : N) : R N :=
  match fuel with
  | O => wrong
  | S fuel =>
      c ← get_child node right;
      if c =? 0 then mret node else down_loop fuel right c
  end.

Fixpoint up_loop (fuel : nat) (right : Z) (node : N) : R N :=
  match fuel with
  | O => wrong
  | S fuel =>
      parent ← rbtree_parent node;
      if parent =? 0 then mret 0
      else
        index ← rbtree_index node parent;
        if (index =? right)%Z then mret parent else up_loop fuel right parent
  end.

Definition rbtree_walk (node : N) (direction : Z) : R N :=
  check (rbtree_check_index direction);;
  let left := direction in
  let right := (1 - left)%Z in
  if node =? 0 then mret 0
  else
    c ← get_child node left;
    fuel ← rb_fuel;
    if c =? 0 then up_loop fuel right node else down_loop fuel right c.

Definition rbtree_nearest (parent : N) (index direction : Z) : R N :=
  check (rbtree_check_index direction);;
  if parent =? 0 then mret 0
  else
    check (rbtree_check_index index);;
    if (index =? direction)%Z then rbtree_walk parent direction else mret parent.

Definition rb_lookup_nearest (cmp : N → Z) (dir : Z) : R N :=
  fuel ← rb_fuel;
  cur ← get_root;
  '(cur, prev, index) ← slot_loop cmp fuel 0 (-1)%Z cur;
  if cur =? 0 then rbtree_nearest prev index dir else mret cur.

(** ** Destruction *)

Fixpoint deepest_loop (fuel : nat) (node : N) : R N :=
  match fuel with
  | O => wrong
  | S fuel =>
      l ← get_child node RBTREE_LEFT;
      if l =? 0 then
        r ← get_child node RBTREE_RIGHT;
        if r =? 0 then mret node else deepest_loop fuel r
      else deepest_loop fuel l
  end.

Definition rbtree_find_deepest (node : N) : R N :=
  check (negb (node =? 0));;
  fuel ← rb_fuel;
  deepest_loop fuel node.

Definition rbtree_postwalk_deepest : R N :=
  node ← get_root;
  if node =? 0 then mret 0 else rbtree_find_deepest node.

Definition rbtree_postwalk_unlink (node : N) : R N :=
  if node =? 0 then mret 0
  else
    l ← get_child node RBTREE_LEFT;
    check (l =? 0);;
    r ← get_child node RBTREE_RIGHT;
    check (r =? 0);;
    parent ← rbtree_parent node;
    if parent =? 0 then mret 0
    else
      index ← rbtree_index node parent;
      put_child parent index 0;;
      node ← get_child parent RBTREE_RIGHT;
      if node =? 0 then mret parent else rbtree_find_deepest node.

(** [rbtree_for_each_remove] with a body that frees the node: the nodes in the
    order in which the body runs on them. *)
Fixpoint for_each_remove_loop (fuel : nat) (node tmp : N) : R (list N) :=
  match fuel with
  | O => wrong
  | S fuel =>
      if node =? 0 then mret []
      else
        modify (λ s, RbStore (rb_root s) (delete node (rb_nodes s)));;
        tmp' ← rbtree_postwalk_unlink tmp;
        l ← for_each_remove_loop fuel tmp tmp';
        mret (node :: l)
  end.

Definition rbtree_for_each_remove : R (list N) :=
  fuel ← rb_fuel;
  node ← rbtree_postwalk_deepest;
  tmp ← rbtree_postwalk_unlink node;
  for_each_remove_loop fuel node tmp.
