(* ===== verification/RbtreeInv.v ===== *)
(** Red-black trees as terms, and the heaps that represent them.

    A position in a tree is a context: the path from the position to the root
    with the subtrees beside it.  The routines of kern/rbtree.c work at one
    position, and change the tree there. *)

From S2P Require Import Prelude Rbtree.

Open Scope N_scope.

(** ** Trees and contexts *)

Inductive colour := Red | Black.

Inductive rbt :=
  | RbE
  | RbT (c : colour) (l : rbt) (a : N) (r : rbt).

#[export] Instance colour_eq : EqDecision colour.
Proof. solve_decision. Defined.
#[export] Instance rbt_eq : EqDecision rbt.
Proof. solve_decision. Defined.

(** Sides: [false] is left. *)
Definition ix (d : bool) : Z := Z.b2z d.

(** A tree with the child [x] on the side [d] and [y] on the other. *)
Definition mk (d : bool) (c : colour) (x : rbt) (a : N) (y : rbt) : rbt := if d then RbT c y a x else RbT c x a y.
Definition mknode (d : bool) (w x y : N) : rbtree_node := if d then RbNode w y x else RbNode w x y.

Definition rbroot (t : rbt) : N := match t with RbE => 0 | RbT _ _ a _ => a end.
Definition rbcol (t : rbt) : colour := match t with RbE => Black | RbT c _ _ _ => c end.

Fixpoint inorder (t : rbt) : list N :=
  match t with RbE => [] | RbT _ l a r => inorder l ++ a :: inorder r end.

(** The position is the child on the side [f_side] of a node; [f_sib] is its
    sibling. *)
Record frame := Frame {
  f_side : bool;
  f_col : colour;
  f_addr : N;
  f_sib : rbt;
}.
Definition ctx := list frame.

Fixpoint plug (C : ctx) (t : rbt) : rbt :=
  match C with [] => t | Frame d c a y :: C => plug C (mk d c t a y) end.
Definition top (C : ctx) : N := match C with [] => 0 | f :: _ => f_addr f end.
Fixpoint croot (C : ctx) (r : N) : N := match C with [] => r | f :: C => croot C (f_addr f) end.

(** The addresses before, after, and all of a context. *)
Fixpoint pre (C : ctx) : list N :=
  match C with [] => [] | Frame d _ a y :: C => pre C ++ (if d then inorder y ++ [a] else []) end.
Fixpoint post (C : ctx) : list N :=
  match C with [] => [] | Frame d _ a y :: C => (if d then [] else a :: inorder y) ++ post C end.
Fixpoint caddrs (C : ctx) : list N :=
  match C with [] => [] | Frame _ _ a y :: C => a :: inorder y ++ caddrs C end.

Lemma ix_negb d : (1 - ix d)%Z = ix (negb d).
Proof. by destruct d. Qed.

Lemma mk_negb d c x a y : mk (negb d) c x a y = mk d c y a x.
Proof. by destruct d. Qed.

Lemma mk_side d t : t ≠ RbE → ∃ c x a y, t = mk d c x a y.
Proof. destruct t as [|c l a r]; [done|]. intros _. destruct d; [by exists c, r, a, l|by exists c, l, a, r]. Qed.

Lemma rbroot_mk d c x a y : rbroot (mk d c x a y) = a.
Proof. by destruct d. Qed.
Lemma rbcol_mk d c x a y : rbcol (mk d c x a y) = c.
Proof. by destruct d. Qed.

Lemma inorder_mk d c x a y :
  inorder (mk d c x a y) = (if d then inorder y ++ [a] else []) ++ inorder x ++ (if d then [] else a :: inorder y).
Proof. destruct d; cbn; [|done]. by rewrite app_nil_r, <- (app_assoc _ [a]). Qed.

Lemma inorder_plug C t : inorder (plug C t) = pre C ++ inorder t ++ post C.
Proof.
  revert t. induction C as [|[d c a y] C IH]; intros t; cbn; [by rewrite app_nil_r|].
  rewrite IH, inorder_mk. by rewrite <- !app_assoc.
Qed.

Lemma mk_perm d c x a y : inorder (mk d c x a y) ≡ₚ a :: inorder x ++ inorder y.
Proof. destruct d; cbn; rewrite <- Permutation_middle; [|done]. by rewrite (Permutation_app_comm (inorder y)). Qed.

Lemma plug_perm C t : inorder (plug C t) ≡ₚ inorder t ++ caddrs C.
Proof.
  revert t. induction C as [|[d c a y] C IH]; intros t; cbn; [by rewrite app_nil_r|].
  rewrite IH, mk_perm. cbn. rewrite <- Permutation_middle. by rewrite <- app_assoc.
Qed.

Lemma rbroot_plug C t : rbroot (plug C t) = croot C (rbroot t).
Proof. revert t. induction C as [|[d c a y] C IH]; intros t; cbn; [done|]. by rewrite IH, rbroot_mk. Qed.

Lemma plug_app C C' t : plug (C ++ C') t = plug C' (plug C t).
Proof. revert t. induction C as [|[d c a y] C IH]; intros t; cbn; [done|]. apply IH. Qed.

(** Same addresses in the same order. *)
Lemma inorder_plug_congr C t t' : inorder t = inorder t' → inorder (plug C t) = inorder (plug C t').
Proof. rewrite !inorder_plug. by intros ->. Qed.

Lemma inorder_rotate d c c' x a y b z : inorder (mk d c' (mk d c x a y) b z) = inorder (mk d c x a (mk d c' y b z)).
Proof. destruct d; cbn; by rewrite <- ?app_assoc. Qed.

Lemma root_in t : rbroot t ≠ 0 → rbroot t ∈ inorder t.
Proof. destruct t; [done|]. intros _. cbn. set_solver. Qed.

(** ** Words *)

Definition col (c : colour) : N := match c with Red => RBTREE_COLOR_RED | Black => RBTREE_COLOR_BLACK end.
Definition cword (p : N) (c : colour) : N := N.lor p (col c).

Definition good (a : N) : Prop := a ≠ 0 ∧ rbtree_check_alignment a = true.

Lemma rb_aligned_bits p : rbtree_check_alignment p = true → N.testbit p 0 = false ∧ N.testbit p 1 = false.
Proof.
  unfold rbtree_check_alignment, RBTREE_PARENT_LOW. intros H%N.eqb_eq.
  split; [pose proof (N.land_spec p 3 0) as E|pose proof (N.land_spec p 3 1) as E];
    rewrite H, N.bits_0 in E; by rewrite andb_true_r in E.
Qed.

Lemma word_parent p c : rbtree_check_alignment p = true → N.ldiff (cword p c) RBTREE_PARENT_LOW = p.
Proof.
  intros [H0 H1]%rb_aligned_bits. apply N.bits_inj. intros i. unfold cword. rewrite N.ldiff_spec, N.lor_spec.
  destruct (decide (i = 0)) as [->|]; [by rewrite H0, andb_false_r|]. destruct (decide (i = 1)) as [->|]; [by rewrite H1, andb_false_r|].
  replace (N.testbit RBTREE_PARENT_LOW i) with false.
  - replace (N.testbit (col c) i) with false; [by rewrite orb_false_r, andb_true_r|].
    destruct c; unfold col, RBTREE_COLOR_RED, RBTREE_COLOR_BLACK; symmetry; [apply N.bits_0|apply N.bits_above_log2; cbn; lia].
  - symmetry. unfold RBTREE_PARENT_LOW. apply N.bits_above_log2. cbn. lia.
Qed.

Lemma land_1 x : N.land x 1 = N.b2n (N.testbit x 0).
Proof. change 1 with (N.ones 1). rewrite N.land_ones, N.pow_1_r. symmetry. apply N.bit0_mod. Qed.

Lemma word_color p c : rbtree_check_alignment p = true → N.land (cword p c) RBTREE_COLOR_MASK = col c.
Proof. intros [H0 _]%rb_aligned_bits. unfold RBTREE_COLOR_MASK, cword. rewrite land_1, N.lor_spec, H0. by destruct c. Qed.

Lemma cword_red p : cword p Red = p.
Proof. apply N.lor_0_r. Qed.

(** ** Representation *)

Fixpoint Rep (h : gmap N rbtree_node) (t : rbt) (p : N) : Prop :=
  match t with
  | RbE => True
  | RbT c l a r => h !! a = Some (RbNode (cword p c) (rbroot l) (rbroot r)) ∧ Rep h l a ∧ Rep h r a
  end.

(** [r] is the root of the tree at the position. *)
Fixpoint RepC (h : gmap N rbtree_node) (C : ctx) (r : N) : Prop :=
  match C with
  | [] => True
  | Frame d c a y :: C => h !! a = Some (mknode d (cword (top C) c) r (rbroot y)) ∧ Rep h y a ∧ RepC h C a
  end.

(** The store [s] represents [t]; the memory besides is that of [F]. *)
Record RbRep (F : gmap N rbtree_node) (s : rbstore) (t : rbt) : Prop := {
  rr_nodup : NoDup (inorder t);
  rr_good : Forall good (inorder t);
  rr_root : rb_root s = rbroot t;
  rr_rep : Rep (rb_nodes s) t 0;
  rr_frame a : a ∉ inorder t → rb_nodes s !! a = F !! a;
}.

(** The same at a position. *)
Record RbFocus (F : gmap N rbtree_node) (s : rbstore) (C : ctx) (t : rbt) : Prop := {
  rf_nodup : NoDup (inorder t ++ caddrs C);
  rf_good : Forall good (inorder t ++ caddrs C);
  rf_root : rb_root s = croot C (rbroot t);
  rf_rep : Rep (rb_nodes s) t (top C);
  rf_ctx : RepC (rb_nodes s) C (rbroot t);
  rf_frame a : a ∉ inorder t ++ caddrs C → rb_nodes s !! a = F !! a;
}.

Lemma Rep_mk h d c x a y p :
  Rep h (mk d c x a y) p ↔ h !! a = Some (mknode d (cword p c) (rbroot x) (rbroot y)) ∧ Rep h x a ∧ Rep h y a.
Proof. destruct d; cbn; tauto. Qed.

Lemma Rep_plug h C t : Rep h (plug C t) 0 ↔ Rep h t (top C) ∧ RepC h C (rbroot t).
Proof.
  revert t. induction C as [|[d c a y] C IH]; intros t; cbn; [tauto|]. rewrite IH, Rep_mk, rbroot_mk. tauto.
Qed.

Lemma focus_iff F s C t : RbRep F s (plug C t) ↔ RbFocus F s C t.
Proof.
  split.
  - intros [Hn Hg Hr Hrep Hf]. rewrite Rep_plug in Hrep. rewrite rbroot_plug in Hr.
    split; [by rewrite <- plug_perm|by rewrite <- plug_perm|done|apply Hrep|apply Hrep|].
    intros a Ha. apply Hf. by rewrite plug_perm.
  - intros [Hn Hg Hr Hrep Hc Hf]. split; [by rewrite plug_perm|by rewrite plug_perm|by rewrite rbroot_plug|by rewrite Rep_plug|].
    intros a Ha. apply Hf. by rewrite <- plug_perm.
Qed.

Lemma Rep_agree h h' t p : (∀ a, a ∈ inorder t → h' !! a = h !! a) → Rep h t p → Rep h' t p.
Proof.
  revert p. induction t as [|c l IHl a r IHr]; intros p Hag; cbn; [done|]. cbn in Hag. intros (Ha & Hl & Hr).
  split_and!; [rewrite Hag by set_solver; done|apply IHl; [set_solver|done]|apply IHr; [set_solver|done]].
Qed.

Lemma RepC_agree h h' C r : (∀ a, a ∈ caddrs C → h' !! a = h !! a) → RepC h C r → RepC h' C r.
Proof.
  revert r. induction C as [|[d c a y] C IH]; intros r Hag; cbn; [done|]. cbn in Hag. intros (Ha & Hy & HC).
  split_and!; [rewrite Hag by set_solver; done|apply (Rep_agree h); [set_solver|done]|apply IH; [set_solver|done]].
Qed.

Lemma top_aligned C : Forall good (caddrs C) → rbtree_check_alignment (top C) = true.
Proof. destruct C as [|[d c a y] C]; [done|]. cbn. intros [[_ H] _]%list.Forall_cons. done. Qed.

Lemma child_mknode d w x y : rb_child (ix d) (mknode d w x y) = Some x ∧ rb_child (ix (negb d)) (mknode d w x y) = Some y.
Proof. by destruct d. Qed.
Lemma set_child_mknode d w x y v :
  rb_set_child (ix d) v (mknode d w x y) = Some (mknode d w v y) ∧ rb_set_child (ix (negb d)) v (mknode d w x y) = Some (mknode d w x v).
Proof. by destruct d. Qed.
Lemma set_parent_mknode d w w' x y : rb_set_parent w' (mknode d w x y) = mknode d w' x y.
Proof. by destruct d. Qed.
Lemma parent_mknode d w x y : rb_parent (mknode d w x y) = w.
Proof. by destruct d. Qed.
