(* ===== verification/RbtreeStep.v ===== *)
(** The elementary routines of kern/rbtree.c on a heap that represents a tree:
    reading and colouring the node at a position, replacing the tree at a
    position, rotating. *)

From S2P Require Import Prelude Rbtree RbtreeInv.

Open Scope N_scope.

(** ** Memory *)

(** Steps that need no more than an equation at hand. *)
Ltac rstep :=
  match goal with
  | |- wp (deref _) _ _ => eapply wp_deref; [done|]
  | |- wp (check _) _ _ => apply wp_check; [done|]
  | _ => wp_step
  end.

Section Raw.
Context (s : rbstore) (a : N) (n : rbtree_node) (Ha : rb_nodes s !! a = Some n).

#[local] Abbreviation stored n' := (RbStore (rb_root s) (<[a := n']> (rb_nodes s))).

Lemma wp_rb_store n' Q : Q tt (stored n') → wp (rb_store a n') Q s.
Proof. intros HQ. unfold rb_store. by repeat rstep. Qed.

Lemma wp_rb_load Q : Q n s → wp (rb_load a) Q s.
Proof. intros HQ. unfold rb_load. by repeat rstep. Qed.

Lemma wp_get_child i v Q : rb_child i n = Some v → Q v s → wp (get_child a i) Q s.
Proof. intros Hi HQ. unfold get_child. apply wp_bind, wp_rb_load. by rstep. Qed.

Lemma wp_put_child i v n' Q : rb_set_child i v n = Some n' → Q tt (stored n') → wp (put_child a i v) Q s.
Proof. intros Hi HQ. unfold put_child. apply wp_bind, wp_rb_load. do 2 rstep. by apply wp_rb_store. Qed.

Lemma wp_get_word Q : Q (rb_parent n) s → wp (get_word a) Q s.
Proof. intros HQ. unfold get_word. by apply wp_bind, wp_rb_load, wp_ret. Qed.

Lemma wp_put_word w Q : Q tt (stored (rb_set_parent w n)) → wp (put_word a w) Q s.
Proof. intros HQ. unfold put_word. by apply wp_bind, wp_rb_load, wp_rb_store. Qed.

Lemma wp_parent p c Q :
  rb_parent n = cword p c → rbtree_check_alignment p = true → Q p s → wp (rbtree_parent a) Q s.
Proof. intros Hw Hp HQ. unfold rbtree_parent. apply wp_bind, wp_get_word, wp_ret. by rewrite Hw, word_parent. Qed.

Lemma wp_set_parent p c p' Q :
  rb_parent n = cword p c → rbtree_check_alignment p = true → rbtree_check_alignment a = true → rbtree_check_alignment p' = true →
  Q tt (stored (rb_set_parent (cword p' c) n)) → wp (rbtree_set_parent a p') Q s.
Proof.
  intros Hw Hp Hga Hp' HQ. unfold rbtree_set_parent. do 4 rstep. apply wp_bind, wp_get_word, wp_put_word.
  by rewrite Hw, word_color.
Qed.
End Raw.

(** [rbtree_set_parent] on the root of a tree, when it has one. *)
Lemma wp_reparent s y p p' Q :
  Rep (rb_nodes s) y p → NoDup (inorder y) → Forall good (inorder y) → rbtree_check_alignment p = true → rbtree_check_alignment p' = true →
  (∀ h', Rep h' y p' → (∀ x, x ∉ inorder y → h' !! x = rb_nodes s !! x) → Q tt (RbStore (rb_root s) h')) →
  wp (if rbroot y =? 0 then mret tt else rbtree_set_parent (rbroot y) p') Q s.
Proof.
  intros Hrep Hnd Hg Hp Hp' HQ. destruct y as [|c l a r]; cbn.
  - apply wp_ret. destruct s. by apply HQ.
  - cbn in Hrep, Hnd, Hg. destruct Hrep as (Ha & Hl & Hr). apply list.Forall_app in Hg as [_ [[Hne Hal] _]%list.Forall_cons].
    apply list.NoDup_app in Hnd as (_ & Hd & [Har _]%list.NoDup_cons).
    destruct (N.eqb_spec a 0) as [|_]; [done|]. eapply wp_set_parent; try done. apply HQ.
    + split_and!; [by rewrite lookup_insert_eq| |];
        (eapply Rep_agree; [|done]; intros x Hx; rewrite lookup_insert_ne by set_solver; done).
    + intros x Hx. apply lookup_insert_ne. set_solver.
Qed.

Lemma wp_index s d b w a y Q :
  rb_nodes s !! b = Some (mknode d w a y) → good b → y ≠ a →
  (a = 0 ∨ ∃ n c, rb_nodes s !! a = Some n ∧ rb_parent n = cword b c) → Q (ix d) s → wp (rbtree_index a b) Q s.
Proof.
  intros Hb [Hne Hal] Hya Ha HQ. unfold rbtree_index. apply wp_bind, wp_check; [by destruct (N.eqb_spec b 0)|].
  apply wp_bind, (wp_mono _ (λ _ s', s' = s)).
  { destruct (N.eqb_spec a 0) as [|Hane]; [done|]. destruct Ha as [|(n & c & Ha & Hw)]; [done|].
    apply wp_bind. eapply wp_parent; try done. apply wp_check; [apply N.eqb_refl|done]. }
  intros [] s' ->. apply wp_bind. eapply (wp_get_child _ _ _ Hb RBTREE_LEFT (if d then y else a)); [by destruct d|].
  destruct d.
  - destruct (N.eqb_spec y a) as [|_]; [done|]. apply wp_bind. eapply (wp_get_child _ _ _ Hb RBTREE_RIGHT); [done|].
    apply wp_bind, wp_check; [apply N.eqb_refl|]. by apply wp_ret.
  - rewrite N.eqb_refl. by apply wp_ret.
Qed.

(** The node above a position gets another child. *)
Lemma wp_replace_child s C a n v c Q :
  RepC (rb_nodes s) C a → rb_nodes s !! a = Some n → rb_parent n = cword (top C) c →
  a ≠ 0 → NoDup (a :: caddrs C) → Forall good (caddrs C) →
  (∀ s', RepC (rb_nodes s') C v → rb_root s' = (if C is [] then v else rb_root s) →
    (∀ x, x ∉ caddrs C → rb_nodes s' !! x = rb_nodes s !! x) → Q tt s') →
  wp (replace_child (top C) a v) Q s.
Proof.
  intros HC Ha Hw Hne Hnd Hg HQ. unfold replace_child. destruct C as [|[d fc b y] C]; cbn [top f_addr] in *.
  - apply wp_modify. by apply HQ.
  - cbn in HC, Hnd, Hg. destruct HC as (Hb & Hy & HC). apply list.Forall_cons in Hg as [[Hbne Hba] Hg].
    apply list.NoDup_cons in Hnd as [Hnd1 [Hnd2 Hnd3]%list.NoDup_cons].
    destruct (N.eqb_spec b 0) as [|_]; [done|]. apply wp_bind. eapply wp_index; [done|done| |right; by exists n, c|].
    { intros E. apply Hnd1. rewrite <- E. pose proof (root_in y). set_solver. }
    eapply wp_put_child; [done|apply set_child_mknode|]. apply HQ; cbn.
    + split_and!; [by rewrite lookup_insert_eq| |].
      * eapply Rep_agree; [|done]. intros x Hx. rewrite lookup_insert_ne by set_solver. done.
      * eapply RepC_agree; [|done]. intros x Hx. rewrite lookup_insert_ne by set_solver. done.
    + done.
    + intros x Hx. apply lookup_insert_ne. set_solver.
Qed.

(** ** At a position *)

Section Focus.
Context (F : gmap N rbtree_node) (s : rbstore) (C : ctx).

Lemma focus_node d c x a y :
  RbFocus F s C (mk d c x a y) →
  rb_nodes s !! a = Some (mknode d (cword (top C) c) (rbroot x) (rbroot y)) ∧ rbtree_check_alignment (top C) = true ∧ good a.
Proof.
  intros H. pose proof (rf_rep _ _ _ _ H) as Hr. rewrite Rep_mk in Hr. split_and!; [apply Hr| |].
  - apply top_aligned. pose proof (rf_good _ _ _ _ H) as Hg. by apply list.Forall_app in Hg as [_ Hg].
  - pose proof (rf_good _ _ _ _ H) as Hg. rewrite mk_perm in Hg. by apply list.Forall_cons in Hg as [Hg _].
Qed.

Lemma focus_child d c x a y Q : RbFocus F s C (mk d c x a y) → Q (rbroot x) s → wp (get_child a (ix d)) Q s.
Proof. intros (Ha & _)%focus_node HQ. eapply wp_get_child; [done|apply child_mknode|done]. Qed.

Lemma focus_color d c x a y Q : RbFocus F s C (mk d c x a y) → Q (col c) s → wp (rbtree_color a) Q s.
Proof.
  intros (Ha & Hp & _)%focus_node HQ. unfold rbtree_color. apply wp_bind. eapply wp_get_word; [done|]. apply wp_ret.
  by rewrite parent_mknode, word_color.
Qed.

Lemma focus_parent d c x a y Q : RbFocus F s C (mk d c x a y) → Q (top C) s → wp (rbtree_parent a) Q s.
Proof. intros (Ha & Hp & _)%focus_node HQ. eapply wp_parent; [done|by rewrite parent_mknode|done|done]. Qed.

Lemma focus_set_color d c x a y c' Q :
  RbFocus F s C (mk d c x a y) → (∀ s', RbFocus F s' C (mk d c' x a y) → Q tt s') → wp (rbtree_set_color a (col c')) Q s.
Proof.
  intros H HQ. destruct (focus_node _ _ _ _ _ H) as (Ha & Hp & _). unfold rbtree_set_color. apply wp_bind, wp_check; [by destruct c'|].
  apply wp_bind. eapply wp_get_word; [done|]. eapply wp_put_word; [done|]. rewrite parent_mknode, word_parent, set_parent_mknode by done.
  apply HQ. destruct H as [Hn Hg Hr Hrep Hc Hf]. rewrite mk_perm in Hn, Hg. rewrite rbroot_mk in Hr, Hc. rewrite Rep_mk in Hrep.
  cbn in Hn. apply list.NoDup_cons in Hn as Hn'. destruct Hn' as [Hn1 _].
  split; rewrite ?rbroot_mk; cbn; [by rewrite mk_perm|by rewrite mk_perm|done| | |].
  - rewrite Rep_mk. split_and!; [by rewrite lookup_insert_eq| |];
      (eapply Rep_agree; [|apply Hrep]; intros b Hb; rewrite lookup_insert_ne by set_solver; done).
  - eapply RepC_agree; [|done]. intros b Hb. rewrite lookup_insert_ne by set_solver. done.
  - intros b Hb. rewrite lookup_insert_ne by (intros <-; apply Hb; rewrite mk_perm; set_solver). apply Hf. by rewrite mk_perm in *.
Qed.
End Focus.

Lemma focus_down F s d c x a y C : RbFocus F s C (mk d c x a y) ↔ RbFocus F s (Frame d c a y :: C) x.
Proof. by rewrite <- !focus_iff. Qed.
Lemma focus_down' F s d c x a y C : RbFocus F s C (mk d c x a y) ↔ RbFocus F s (Frame (negb d) c a x :: C) y.
Proof. by rewrite <- focus_down, mk_negb. Qed.

Lemma focus_index F s C t d c p y Q :
  RbFocus F s (Frame d c p y :: C) t → rbroot y ≠ rbroot t → Q (ix d) s → wp (rbtree_index (rbroot t) p) Q s.
Proof.
  intros H Hy HQ. pose proof (rf_ctx _ _ _ _ H) as (Hp & _). pose proof (rf_rep _ _ _ _ H) as Ht.
  eapply wp_index; [done| |done| |done].
  - pose proof (rf_good _ _ _ _ H) as Hg. apply list.Forall_app in Hg as [_ Hg]. by apply list.Forall_cons in Hg as [Hg _].
  - destruct t as [|tc l a r]; [by left|right]. destruct Ht as (Ha & _). by eexists _, tc.
Qed.

(** ** Rotation *)

Lemma rotate_distinct (a b : N) (x y z C : list N) :
  NoDup (a :: (x ++ b :: y ++ z) ++ C) →
  (∀ v, v ∈ x → v ≠ a ∧ v ≠ b ∧ v ∉ y ∧ v ∉ C) ∧ (∀ v, v ∈ z → v ≠ a ∧ v ≠ b ∧ v ∉ y ∧ v ∉ C) ∧
  (∀ v, v ∈ y → v ≠ a ∧ v ≠ b ∧ v ∉ C) ∧ (∀ v, v ∈ C → v ≠ a ∧ v ≠ b ∧ v ∉ y) ∧
  a ≠ b ∧ NoDup y ∧ NoDup (a :: C).
Proof.
  rewrite list.NoDup_cons, list.NoDup_app, list.NoDup_app, list.NoDup_cons, list.NoDup_app.
  intros (Ha & (Hx & Hxb & Hb & Hy & Hyz & Hz) & Hd & HC).
  split_and!; [set_solver..|done|]. apply NoDup_cons_2; [set_solver|done].
Qed.

(** The heap after a rotation. *)
Lemma rotated_focus F s C d c c' x a y b z r h :
  RbFocus F s C (mk d c x a (mk d c' y b z)) → r = (if C is [] then b else rb_root s) →
  h !! a = Some (mknode d (cword b c) (rbroot x) (rbroot y)) → h !! b = Some (mknode d (cword (top C) c') a (rbroot z)) →
  Rep h y a → RepC h C b → (∀ v, v ∉ inorder y → v ∉ caddrs C → v ≠ a → v ≠ b → h !! v = rb_nodes s !! v) →
  RbFocus F (RbStore r h) C (mk d c' (mk d c x a y) b z).
Proof.
  intros [Hn0 Hg0 Hr Hrep Hc Hf] -> Ha Hb Hy HC Hag. pose proof Hn0 as Hn. rewrite !mk_perm in Hn. rewrite rbroot_mk in Hr. rewrite !Rep_mk in Hrep.
  destruct Hrep as (_ & Hx & _ & _ & Hz). destruct (rotate_distinct _ _ _ _ _ _ Hn) as (Dx & Dz & _).
  split; rewrite ?inorder_rotate, ?rbroot_mk; cbn [rb_root rb_nodes]; try done.
  - destruct C; [done|]. by rewrite Hr.
  - rewrite !Rep_mk, rbroot_mk. split_and!; [done|done| |done|]; (eapply Rep_agree; [|done]; intros v Hv).
    + by apply Hag; apply Dx in Hv as (? & ? & ? & ?).
    + by apply Hag; apply Dz in Hv as (? & ? & ? & ?).
  - intros v Hv. rewrite <- Hf by done. rewrite !mk_perm in Hv. apply Hag; set_solver.
Qed.

Lemma focus_rotate F s C d c c' x a y b z Q :
  RbFocus F s C (mk d c x a (mk d c' y b z)) →
  (∀ s', RbFocus F s' C (mk d c' (mk d c x a y) b z) → Q tt s') → wp (rbtree_rotate a (ix d)) Q s.
Proof.
  intros H HQ. destruct (focus_node _ _ _ _ _ _ _ _ H) as (Ha & Hp & Hga & Hala). rewrite rbroot_mk in Ha.
  pose proof (proj1 (focus_down' _ _ _ _ _ _ _ _) H) as H2. destruct (focus_node _ _ _ _ _ _ _ _ H2) as (Hb & _ & Hgb & Halb). cbn in Hb.
  pose proof H as H0. destruct H as [Hn Hg Hr Hrep Hc Hf]. rewrite !mk_perm in Hn, Hg. rewrite rbroot_mk in Hr, Hc. rewrite !Rep_mk in Hrep.
  destruct Hrep as (_ & Hx & _ & Hy & Hz). cbn in Hn. destruct (rotate_distinct _ _ _ _ _ _ Hn) as (Dx & Dz & Dy & DC & Hab & Ny & NC).
  unfold rbtree_rotate. cbv zeta. rewrite ix_negb.
  apply wp_bind. eapply wp_parent; [done|apply parent_mknode|done|].
  apply wp_bind. eapply wp_get_child; [done|apply child_mknode|].
  apply wp_bind. eapply wp_get_child; [done|apply child_mknode|].
  apply wp_bind. eapply wp_put_child; [done|apply set_child_mknode|].
  apply wp_bind. eapply wp_get_child; [cbn; by rewrite lookup_insert_ne|apply child_mknode|].
  apply list.Forall_cons in Hg as [_ [[_ [_ [Hgy _]%list.Forall_app]%list.Forall_cons]%list.Forall_app HgC]%list.Forall_app].
  apply wp_bind, (wp_reparent _ y b a); try done.
  { cbn. eapply Rep_agree; [|done]. intros v Hv. rewrite lookup_insert_ne by (by apply not_eq_sym, Dy). done. }
  cbn. intros h1 Hy1 Ag1. assert (h1 !! b = Some (mknode d (cword a c') (rbroot y) (rbroot z))) as Hb1.
  { rewrite Ag1 by (intros Hv; by apply Dy in Hv as (_ & ? & _)). by rewrite lookup_insert_ne. }
  apply wp_bind. eapply wp_put_child; [done|apply set_child_mknode|]. cbn.
  apply wp_bind. eapply wp_set_parent; [cbn; apply lookup_insert_eq|apply parent_mknode|done|done|done|]. cbn.
  rewrite insert_insert_eq, set_parent_mknode. set (h2 := <[b := _]> h1).
  assert (∀ v, v ∉ inorder y → v ≠ a → v ≠ b → h2 !! v = rb_nodes s !! v) as Ag2.
  { intros v Hv1 Hv2 Hv3. unfold h2. rewrite lookup_insert_ne, Ag1, lookup_insert_ne by done. done. }
  assert (h2 !! a = Some (mknode d (cword (top C) c) (rbroot x) (rbroot y))) as Ha2.
  { unfold h2. rewrite lookup_insert_ne, Ag1, lookup_insert_eq by (try done; intros Hv; by apply Dy in Hv as [? _]). done. }
  apply wp_bind. eapply wp_replace_child; [| | |done|done|done|].
  { cbn. eapply RepC_agree; [|done]. intros v Hv. by apply Ag2; apply DC. }
  { done. }
  { apply parent_mknode. }
  cbn. intros [r3 h3] HC3 Hr3 Ag3. cbn in *.
  eapply wp_set_parent; [cbn; rewrite Ag3; [done|by apply list.NoDup_cons in NC as [? _]]|apply parent_mknode|done|done|done|].
  rewrite set_parent_mknode. cbn. set (h4 := <[a := _]> h3).
  assert (∀ v, v ∉ inorder y → v ∉ caddrs C → v ≠ a → v ≠ b → h4 !! v = rb_nodes s !! v) as Ag4.
  { intros v Hv1 Hv2 Hv3 Hv4. unfold h4. rewrite lookup_insert_ne, Ag3, Ag2 by done. done. }
  apply HQ. apply (rotated_focus _ _ _ _ _ _ _ _ _ _ _ _ _ H0); try done.
  - apply lookup_insert_eq.
  - unfold h4. rewrite lookup_insert_ne, Ag3 by (done || (intros Hv; by apply DC in Hv as (_ & ? & _))). apply lookup_insert_eq.
  - eapply Rep_agree; [|done]. intros v Hv. destruct (Dy v Hv) as (? & ? & ?). unfold h4. rewrite lookup_insert_ne, Ag3 by done.
    unfold h2. by rewrite lookup_insert_ne.
  - eapply RepC_agree; [|done]. intros v Hv. unfold h4. by rewrite lookup_insert_ne by (by apply not_eq_sym, DC).
Qed.
