(* ===== verification/RbtreeInsert.v ===== *)
(** Insertion into a red-black tree keeps the order of the nodes and the
    balance. *)

From S2P Require Import Prelude Rbtree RbtreeInv RbtreeStep.

Open Scope N_scope.

(** ** Balance *)

(** No red node has a red child, and every path has [n] black nodes. *)
Fixpoint valid (t : rbt) (n : nat) : Prop :=
  match t with
  | RbE => n = O
  | RbT Red l _ r => (rbcol l = Black ∧ rbcol r = Black) ∧ valid l n ∧ valid r n
  | RbT Black l _ r => match n with O => False | S m => valid l m ∧ valid r m end
  end.

Definition rb_ok (t : rbt) : Prop := rbcol t = Black ∧ ∃ n, valid t n.

(** The store holds a balanced tree with the nodes [l], in order. *)
Definition rb_tree (F : gmap N rbtree_node) (l : list N) (s : rbstore) : Prop := ∃ t, RbRep F s t ∧ rb_ok t ∧ inorder t = l.

(** A red tree fits under a black node only. *)
Definition allows_red (C : ctx) : Prop := match C with Frame _ Black _ _ :: _ => True | _ => False end.

(** The context of a tree with [n] black nodes on every path. *)
Fixpoint ctx_ok (C : ctx) (n : nat) : Prop :=
  match C with
  | [] => True
  | Frame _ Red _ y :: C => (rbcol y = Black ∧ valid y n) ∧ allows_red C ∧ ctx_ok C n
  | Frame _ Black _ y :: C => valid y n ∧ ctx_ok C (S n)
  end.

Lemma valid_red d x a y n : valid (mk d Red x a y) n ↔ (rbcol x = Black ∧ rbcol y = Black) ∧ valid x n ∧ valid y n.
Proof. destruct d; cbn; tauto. Qed.
Lemma valid_black d x a y n : valid (mk d Black x a y) (S n) ↔ valid x n ∧ valid y n.
Proof. destruct d; cbn; tauto. Qed.
Lemma valid_black_inv d x a y n : valid (mk d Black x a y) n → ∃ m, n = S m ∧ valid x m ∧ valid y m.
Proof. intros H. destruct n as [|m]; [by destruct d|]. exists m. by rewrite valid_black in H. Qed.

Lemma plug_ok C t n : ctx_ok C n → valid t n → (rbcol t = Red → allows_red C) → rb_ok (plug C t).
Proof.
  revert t n. induction C as [|[d c a y] C IH]; intros t n HC Ht Hr; cbn.
  - split; [|by exists n]. by destruct (rbcol t); [destruct (Hr eq_refl)|].
  - destruct c; cbn in HC.
    + destruct HC as ([Hy Hyv] & Ha & HC). apply (IH _ n); [done| |done]. rewrite valid_red.
      split; [|done]. split; [|done]. destruct (rbcol t); [by destruct Hr|done].
    + destruct HC as [Hyv HC]. apply (IH _ (S n)); [done|by rewrite valid_black|]. by rewrite rbcol_mk.
Qed.

Lemma plug_ok_inv C t : rb_ok (plug C t) → ∃ n, valid t n ∧ ctx_ok C n ∧ (rbcol t = Red → allows_red C).
Proof.
  revert t. induction C as [|[d c a y] C IH]; intros t; cbn.
  - intros [Hb [n Hn]]. exists n. split_and!; [done|done|congruence].
  - intros (n & Hv & HC & Hr)%IH. rewrite rbcol_mk in Hr. destruct c.
    + rewrite valid_red in Hv. destruct Hv as ([Hx Hy] & Hvx & Hvy). exists n. split_and!; auto; congruence.
    + apply valid_black_inv in Hv as (m & -> & Hx & Hy). exists m. done.
Qed.

(** ** More readings at a position *)

Section Readings.
Context (F : gmap N rbtree_node) (s : rbstore) (C : ctx).

Lemma focus_child' d c x a y Q : RbFocus F s C (mk d c x a y) → Q (rbroot y) s → wp (get_child a (ix (negb d))) Q s.
Proof. rewrite <- mk_negb. apply focus_child. Qed.

Definition is_red_col (c : colour) : bool := match c with Red => true | Black => false end.

Lemma focus_is_red t Q : RbFocus F s C t → t ≠ RbE → Q (is_red_col (rbcol t)) s → wp (rbtree_is_red (rbroot t)) Q s.
Proof.
  intros H Ht HQ. destruct t as [|c l a r]; [done|]. apply wp_bind. apply (focus_color F s C false c l a r); [done|].
  apply wp_ret. by destruct c.
Qed.

Lemma focus_is_black t Q : RbFocus F s C t → t ≠ RbE → Q (negb (is_red_col (rbcol t))) s → wp (rbtree_is_black (rbroot t)) Q s.
Proof.
  intros H Ht HQ. destruct t as [|c l a r]; [done|]. apply wp_bind. apply (focus_color F s C false c l a r); [done|].
  apply wp_ret. by destruct c.
Qed.

Lemma root_nonzero t : RbFocus F s C t → t ≠ RbE → rbroot t ≠ 0.
Proof. intros H Ht. destruct t as [|c l a r]; [done|]. by destruct (focus_node F s C false c l a r H) as (_ & _ & ? & _). Qed.

Lemma focus_red_node t Q : RbFocus F s C t → Q (is_red_col (rbcol t)) s → wp (red_node (rbroot t)) Q s.
Proof.
  intros H HQ. unfold red_node. destruct t as [|c l a r]; [done|].
  destruct (N.eqb_spec (rbroot (RbT c l a r)) 0) as [E|_]; [by apply root_nonzero in E|]. by apply focus_is_red.
Qed.

Lemma focus_null_or_black t Q : RbFocus F s C t → Q (negb (is_red_col (rbcol t))) s → wp (null_or_black (rbroot t)) Q s.
Proof.
  intros H HQ. unfold null_or_black. destruct t as [|c l a r]; [done|].
  destruct (N.eqb_spec (rbroot (RbT c l a r)) 0) as [E|_]; [by apply root_nonzero in E|]. by apply focus_is_black.
Qed.

Lemma sibling_ne d c a y t : RbFocus F s (Frame d c a y :: C) t → t ≠ RbE → rbroot y ≠ rbroot t.
Proof.
  intros H Ht E. pose proof (rf_nodup _ _ _ _ H) as Hn. cbn in Hn.
  assert (rbroot t ≠ 0) as H0. { intros E0. destruct t as [|tc l b r]; [done|]. pose proof (rf_good _ _ _ _ H) as Hg. cbn in Hg, E0.
    rewrite list.Forall_app, list.Forall_app, list.Forall_cons in Hg. destruct Hg as [[_ [[? _] _]] _]. done. }
  apply list.NoDup_app in Hn as (_ & Hd & _). apply (Hd (rbroot t)); [by apply root_in|].
  apply elem_of_cons. right. apply elem_of_app. left. rewrite <- E. apply root_in. by rewrite E.
Qed.

Lemma top_nonzero t : RbFocus F s C t → C ≠ [] → top C ≠ 0.
Proof.
  intros H HC. destruct C as [|[d c a y] C']; [done|]. pose proof (rf_good _ _ _ _ H) as Hg.
  rewrite list.Forall_app in Hg. destruct Hg as [_ [[? _] _]%list.Forall_cons]. done.
Qed.
End Readings.

Lemma eqb_false a b : a ≠ b → (a =? b) = false.
Proof. by intros ?%N.eqb_neq. Qed.

(** ** The loop *)

(** The end of the loop: colours and the rotation at the grand parent. *)
Lemma insert_final F s C d X q Y g u Q :
  RbFocus F s C (mk d Black (mk d Red X q Y) g u) →
  (∀ s', RbFocus F s' C (mk d Black X q (mk d Red Y g u)) → Q tt s') →
  wp (rbtree_set_black q;; rbtree_set_red g;; rbtree_rotate g (ix (negb d))) Q s.
Proof.
  intros H HQ. rewrite focus_down in H. apply wp_bind, (focus_set_color _ _ _ _ _ _ _ _ Black _ H). intros s1 H1.
  rewrite <- focus_down in H1. apply wp_bind, (focus_set_color _ _ _ _ _ _ _ _ Red _ H1). intros s2 H2.
  rewrite <- mk_negb, <- (mk_negb d Black) in H2. apply (focus_rotate _ _ _ _ _ _ _ _ _ _ _ _ H2). intros s3 H3.
  apply HQ. by rewrite !mk_negb in H3.
Qed.

(** The uncle is red: the colours are exchanged. *)
Lemma insert_flip F s C d d' t p y g ul ua ur (k : N → M rbstore unit) Q :
  RbFocus F s C (mk d' Black (mk d Red t p y) g (RbT Red ul ua ur)) →
  (∀ s', RbFocus F s' C (mk d' Red (mk d Black t p y) g (RbT Black ul ua ur)) → wp (k (top C)) Q s') →
  wp (rbtree_set_black ua;; rbtree_set_black p;; rbtree_set_red g;; (v ← rbtree_parent g; k v)) Q s.
Proof.
  intros H HQ. rewrite focus_down' in H. apply wp_bind, (focus_set_color _ _ _ false _ _ _ _ Black _ H). intros s1 H1.
  rewrite <- focus_down', focus_down in H1. apply wp_bind, (focus_set_color _ _ _ _ _ _ _ _ Black _ H1). intros s2 H2.
  rewrite <- focus_down in H2. apply wp_bind, (focus_set_color _ _ _ _ _ _ _ _ Red _ H2). intros s3 H3.
  apply wp_bind, (focus_parent _ _ _ _ _ _ _ _ _ H3). by apply HQ.
Qed.

(** The node is a right child (seen from the grand parent): it changes places
    with its parent. *)
Lemma insert_inner F s C d d' t p y g u (k : N * N → M rbstore unit) Q :
  RbFocus F s C (mk d' Black (mk d Red t p y) g u) → rbcol t = Red →
  (∀ s' X q Y node, RbFocus F s' C (mk d' Black (mk d' Red X q Y) g u) → inorder (mk d' Red X q Y) = inorder (mk d Red t p y) →
    (∀ n, rbcol y = Black → valid y n → valid t n → valid X n ∧ valid Y n ∧ rbcol Y = Black) → wp (k (node, q)) Q s') →
  wp (c ← get_child p (ix (negb d'));
      (r ← (if c =? rbroot t then rbtree_rotate p (ix d');; mret (p, rbroot t) else mret (rbroot t, p)); k r)) Q s.
Proof.
  intros H Ht HQ. assert (t ≠ RbE) as Hte by (by intros ->). pose proof (proj1 (focus_down _ _ _ _ _ _ _ _) H) as H1.
  pose proof (proj1 (focus_down _ _ _ _ _ _ _ _) H1) as H2. pose proof (sibling_ne _ _ _ _ _ _ _ _ H2 Hte) as Hy.
  destruct (decide (d = d')) as [->|Hd].
  - apply wp_bind, (focus_child' _ _ _ _ _ _ _ _ _ H1). rewrite eqb_false by done. apply wp_bind, wp_ret.
    eapply HQ; [done|done|]. auto.
  - assert (d = negb d') as -> by (by destruct d, d'). apply wp_bind, (focus_child _ _ _ _ _ _ _ _ _ H1). rewrite N.eqb_refl.
    destruct (mk_side d' t Hte) as (c & x1 & a & x2 & ->). rewrite rbcol_mk in Ht. subst c. rewrite rbroot_mk, mk_negb in *.
    apply wp_bind, wp_bind, (focus_rotate _ _ _ _ _ _ _ _ _ _ _ _ H1). intros s' H'. apply wp_ret. rewrite <- focus_down in H'.
    eapply HQ; [done|apply inorder_rotate|]. intros n Hyb Hyv. rewrite !valid_red. tauto.
Qed.

Lemma insert_loop_ok fuel F s C n t :
  (length C < fuel)%nat → RbFocus F s C t → rbcol t = Red → ctx_ok C n → valid t n →
  wp (insert_loop fuel (top C) (rbroot t)) (λ _, rb_tree F (inorder (plug C t))) s.
Proof.
  revert s C n t. induction fuel as [|fuel IH]; intros s C n t Hf H Hr HC Hv; [lia|]. cbn [insert_loop].
  assert (t ≠ RbE) as Hte by (by intros ->). destruct C as [|[d c p y] C]; cbn [top f_addr].
  { rewrite N.eqb_refl. destruct t as [|[] l a r]; [done| |done]. apply (focus_set_color _ _ _ false _ _ _ _ Black _ H). intros s1 H1.
    exists (RbT Black l a r). rewrite <- focus_iff in H1. split_and!; [done| |done]. destruct Hv as (_ & Hl & Hrr). split; [done|by exists (S n)]. }
  rewrite eqb_false by (by apply (top_nonzero _ _ _ _ H)). pose proof (proj2 (focus_down _ _ _ _ _ _ _ _) H) as H0.
  apply wp_bind. replace p with (rbroot (mk d c t p y)) at 1 by apply rbroot_mk. apply (focus_is_black _ _ _ _ _ H0); [by destruct d|]. rewrite rbcol_mk.
  destruct c; cbn [is_red_col negb].
  2:{ apply wp_ret. exists (plug (Frame d Black p y :: C) t). split_and!; [by rewrite focus_iff| |done]. by apply (plug_ok _ _ n). }
  destruct HC as ([Hy Hyv] & Ha & HC). destruct C as [|[d' [] g u] C]; [done|done|]. cbn in HC. destruct HC as [Hu HC].
  apply wp_bind, (focus_parent _ _ _ _ _ _ _ _ _ H0). cbn [top f_addr].
  apply wp_bind, wp_check; [by rewrite eqb_false by (by apply (top_nonzero _ _ _ _ H0))|].
  apply wp_bind. replace p with (rbroot (mk d Red t p y)) at 1 by apply rbroot_mk.
  apply (focus_index _ _ _ _ _ _ _ _ _ H0); [apply (sibling_ne _ _ _ _ _ _ _ _ H0); by destruct d|]. cbv zeta. rewrite ix_negb.
  pose proof (proj2 (focus_down _ _ _ _ _ _ _ _) H0) as Hg. apply wp_bind, (focus_child' _ _ _ _ _ _ _ _ _ Hg).
  pose proof (proj1 (focus_down' _ _ _ _ _ _ _ _) Hg) as Hgu. apply wp_bind, (focus_red_node _ _ _ _ _ Hgu).
  destruct (rbcol u) eqn:Eu; cbn [is_red_col].
  - destruct u as [|[] ul ua ur]; [done| |done]. apply (insert_flip _ _ _ _ _ _ _ _ _ _ _ _ _ _ Hg). intros s1 H1.
    eapply wp_mono; [|].
    + replace g with (rbroot (mk d' Red (mk d Black t p y) g (RbT Black ul ua ur))) at 1 by apply rbroot_mk.
      apply (IH _ _ (S n) _); [cbn in Hf; lia|done|apply rbcol_mk|done|]. rewrite valid_red, valid_black, rbcol_mk. cbn. by destruct Hu.
    + intros _ s' (t' & Ht' & Hok & Hin). exists t'. split_and!; [done|done|]. rewrite Hin. cbn [plug]. apply inorder_plug_congr. by destruct d, d'.
  - eapply (insert_inner _ _ _ _ _ _ _ _ _ _ _ _ Hg); [done|]. intros s1 X q Y node H1 Hin Hval. cbv beta iota.
    destruct (Hval n Hy Hyv Hv) as (HX & HY & HYb). apply (insert_final _ _ _ _ _ _ _ _ _ _ H1). intros s2 H2.
    exists (plug C (mk d' Black X q (mk d' Red Y g u))). split_and!; [by rewrite focus_iff| |].
    + apply (plug_ok _ _ (S n)); [done|by rewrite valid_black, valid_red|]. by rewrite rbcol_mk.
    + cbn [plug]. apply inorder_plug_congr. rewrite (inorder_mk d' Black (mk d Red t p y)), <- Hin. destruct d'; cbn; rewrite ?app_nil_r, <- ?app_assoc; done.
Qed.

(** ** The routine *)

(** The side of a position. *)
Definition side_ok (C : ctx) (index : Z) : Prop := match C with [] => True | f :: _ => index = ix (f_side f) end.

Lemma length_ctx C : (length C <= length (caddrs C))%nat.
Proof. induction C as [|[d c a y] C IH]; cbn; [done|]. rewrite length_app. lia. Qed.

(** There is fuel for every path of a tree. *)
Lemma size_nodes F s C t : RbFocus F s C t → (length (inorder t ++ caddrs C) <= size (rb_nodes s))%nat.
Proof.
  intros [Hn Hg Hr Hrep Hc Hf]. rewrite <- size_dom. rewrite <- (size_list_to_set (C := gset N)) by done. apply subseteq_size.
  intros a Ha%elem_of_list_to_set. apply elem_of_dom. pose proof (proj2 (focus_iff F s C t)) as Hrr.
  assert (∀ t p, Rep (rb_nodes s) t p → a ∈ inorder t → is_Some (rb_nodes s !! a)) as Hin.
  { clear. intros t. induction t as [|c l IHl b r IHr]; intros p; cbn; [by intros _ ?%elem_of_nil|].
    intros (Hb & Hl & Hr) [?|[->|?]%elem_of_cons]%elem_of_app; [by eapply IHl|by eexists|by eapply IHr]. }
  apply (Hin (plug C t) 0); [by rewrite Rep_plug|by rewrite plug_perm].
Qed.

(** The heap with a new leaf. *)
Lemma linked_focus F s C node r h :
  RbFocus F s C RbE → good node → node ∉ caddrs C → r = croot C node → h !! node = Some (RbNode (cword (top C) Red) 0 0) →
  RepC h C node → (∀ v, v ≠ node → v ∉ caddrs C → h !! v = rb_nodes s !! v) → RbFocus F (RbStore r h) C (RbT Red RbE node RbE).
Proof.
  intros [Hn Hg Hr Hrep Hc Hf] Hgood Hin -> Hh HC Hag. cbn in Hn, Hg, Hf.
  split; cbn; try done; [by apply NoDup_cons_2|by apply list.Forall_cons|].
  intros v [??]%not_elem_of_cons. rewrite Hag by done. by apply Hf.
Qed.

Lemma link_ok F s C index node h :
  RbFocus F s C RbE → side_ok C index → good node → node ∉ caddrs C →
  h = <[node := RbNode (cword (top C) Red) 0 0]> (rb_nodes s) →
  wp (if top C =? 0 then put_root node else put_child (top C) index node) (λ _ s', RbFocus F s' C (RbT Red RbE node RbE)) (RbStore (rb_root s) h).
Proof.
  intros H Hside Hgood Hin ->. set (h := <[node := _]> (rb_nodes s)). pose proof H as [Hn Hg Hr Hrep Hc Hf]. cbn in Hn, Hr, Hc.
  assert (RepC h C 0) as HC1. { eapply RepC_agree; [|done]. intros a Ha. unfold h. apply lookup_insert_ne. set_solver. }
  destruct C as [|[d c p y] C]; cbn [top f_addr].
  - rewrite N.eqb_refl. apply wp_modify. cbn. apply (linked_focus _ s); try done; [apply lookup_insert_eq|].
    intros v Hv _. by apply lookup_insert_ne.
  - rewrite eqb_false by (by apply (top_nonzero _ _ _ _ H)). cbn in Hside, HC1. destruct HC1 as (Hp & Hy & HC1). subst index.
    eapply wp_put_child; [done|apply set_child_mknode|]. cbn in Hin, Hn. apply list.NoDup_cons in Hn as [Hn1 Hn2].
    cbn. apply (linked_focus _ s); [done|done|done|done| | |].
    + rewrite lookup_insert_ne by set_solver. apply lookup_insert_eq.
    + cbn. split_and!; [apply lookup_insert_eq| |].
      * eapply Rep_agree; [|done]. intros v Hv. apply lookup_insert_ne. set_solver.
      * eapply RepC_agree; [|done]. intros v Hv. apply lookup_insert_ne. set_solver.
    + intros v Hv1 Hv2. cbn in Hv2. rewrite lookup_insert_ne by set_solver. by apply lookup_insert_ne.
Qed.

Lemma rbtree_insert_rebalance_ok F s C index node n :
  RbFocus F s C RbE → rb_ok (plug C RbE) → side_ok C index → F !! node = Some n → good node → node ∉ caddrs C →
  wp (rbtree_insert_rebalance (top C) index node)
    (λ _, rb_tree F (pre C ++ node :: post C)) s.
Proof.
  intros H Hok Hside HF Hgood Hin. pose proof H as [Hn Hg Hr Hrep Hc Hf]. cbn in Hg, Hf.
  unfold rbtree_insert_rebalance. apply wp_bind, wp_check; [by apply top_aligned|]. apply wp_bind, wp_check; [apply Hgood|].
  assert (rb_nodes s !! node = Some n) as Hs by (by rewrite Hf).
  apply wp_bind. eapply wp_put_word; [done|]. apply wp_bind. eapply wp_put_child; [cbn; apply lookup_insert_eq|done|].
  apply wp_bind. eapply wp_put_child; [cbn; apply lookup_insert_eq|done|]. cbn. rewrite !insert_insert_eq. fold (cword (top C) Red).
  apply wp_bind. eapply wp_mono; [by apply (link_ok F s)|].
  intros [] s2 H2. unfold rb_fuel. repeat wp_step. destruct (plug_ok_inv _ _ Hok) as (m & Hm & HCm & _). cbn in Hm. subst m.
  eapply wp_mono; [apply (insert_loop_ok _ F s2 C 0 (RbT Red RbE node RbE)); [|done|done|done|done]|].
  { pose proof (size_nodes _ _ _ _ H2) as Hsz. pose proof (length_ctx C). rewrite length_app in Hsz. lia. }
  intros _ s3 (t' & Ht' & Hok' & Hin'). unfold get_root. repeat wp_step. rewrite (rr_root _ _ _ Ht').
  rewrite inorder_plug in Hin'. cbn in Hin'. pose proof (proj1 (focus_iff F s3 [] t') Ht') as H3.
  apply (focus_is_black _ _ _ _ _ H3); [intros ->; by destruct (pre C)|]. destruct Hok' as [Hb Hv]. rewrite Hb.
  apply wp_check; [done|]. by exists t'.
Qed.
