(* ===== verification/RbtreeRemove.v ===== *)
(** Removal from a red-black tree keeps the order of the other nodes and the
    balance. *)

From S2P Require Import Prelude Rbtree RbtreeInv RbtreeStep RbtreeInsert.

Open Scope N_scope.

(** ** Paths inside a tree *)

(** A path whose uppermost node has the parent [p]. *)
Definition topp (C : ctx) (p : N) : N := match C with [] => p | f :: _ => f_addr f end.
Fixpoint RepP (h : gmap N rbtree_node) (C : ctx) (r p : N) : Prop :=
  match C with
  | [] => True
  | Frame d c a y :: C => h !! a = Some (mknode d (cword (topp C p) c) r (rbroot y)) ∧ Rep h y a ∧ RepP h C a p
  end.

Lemma top_app C C' : top (C ++ C') = topp C (top C').
Proof. by destruct C. Qed.

Lemma topp_app C C' p : topp (C ++ C') p = topp C (topp C' p).
Proof. by destruct C. Qed.

Lemma croot_app C C' r : croot (C ++ C') r = croot C' (croot C r).
Proof. revert r. induction C as [|f C IH]; intros r; cbn; [done|]. apply IH. Qed.

Lemma caddrs_app C C' : caddrs (C ++ C') = caddrs C ++ caddrs C'.
Proof. induction C as [|[d c a y] C IH]; cbn; [done|]. by rewrite IH, <- app_assoc. Qed.

Lemma RepC_app h C C' r : RepC h (C ++ C') r ↔ RepP h C r (top C') ∧ RepC h C' (croot C r).
Proof.
  revert r. induction C as [|[d c a y] C IH]; intros r; cbn; [tauto|]. rewrite IH, top_app. cbn. tauto.
Qed.

Lemma RepP_app h C C' r p : RepP h (C ++ C') r p ↔ RepP h C r (topp C' p) ∧ RepP h C' (croot C r) p.
Proof.
  revert r. induction C as [|[d c a y] C IH]; intros r; cbn; [tauto|]. rewrite IH, topp_app. cbn. tauto.
Qed.

Lemma Rep_plug_path h C t p : Rep h (plug C t) p ↔ Rep h t (topp C p) ∧ RepP h C (rbroot t) p.
Proof. revert t. induction C as [|[d c a y] C IH]; intros t; cbn; [tauto|]. rewrite IH, Rep_mk, rbroot_mk. tauto. Qed.

Lemma RepP_agree h h' C r p : (∀ a, a ∈ caddrs C → h' !! a = h !! a) → RepP h C r p → RepP h' C r p.
Proof.
  revert r. induction C as [|[d c a y] C IH]; intros r Hag; cbn; [done|]. cbn in Hag. intros (Ha & Hy & HC).
  split_and!; [rewrite Hag by set_solver; done|apply (Rep_agree h); [set_solver|done]|apply IH; [set_solver|done]].
Qed.

(** The uppermost node of a path gets another parent. *)
Lemma wp_reparent_path s C r p p' Q :
  RepP (rb_nodes s) C r p → C ≠ [] → NoDup (caddrs C) → Forall good (caddrs C) →
  rbtree_check_alignment p = true → rbtree_check_alignment p' = true →
  (∀ h', RepP h' C r p' → (∀ x, x ∉ caddrs C → h' !! x = rb_nodes s !! x) → Q tt (RbStore (rb_root s) h')) →
  wp (rbtree_set_parent (croot C r) p') Q s.
Proof.
  intros HP HC Hn Hg Hp Hp' HQ. destruct (exists_last HC) as (C' & [d c a y] & ->).
  rewrite croot_app. cbn [croot f_addr]. rewrite RepP_app in HP. cbn in HP. destruct HP as (HP & Ha & Hy & _).
  rewrite caddrs_app in *. cbn in *. rewrite app_nil_r in *.
  apply list.Forall_app in Hg as [_ [[Hne Hal] _]%list.Forall_cons]. apply list.NoDup_app in Hn as (_ & Hd & [Hn _]%list.NoDup_cons).
  eapply wp_set_parent; [done|apply parent_mknode|done|done|done|]. rewrite set_parent_mknode. apply HQ.
  - rewrite RepP_app. cbn. split_and!; [|by rewrite lookup_insert_eq| |done].
    + eapply RepP_agree; [|done]. intros v Hv. apply lookup_insert_ne. set_solver.
    + eapply Rep_agree; [|done]. intros v Hv. apply lookup_insert_ne. set_solver.
  - intros v Hv. apply lookup_insert_ne. set_solver.
Qed.

(** The lowest node of a path gets another child. *)
Lemma wp_put_path s d c a y C r p v Q :
  RepP (rb_nodes s) (Frame d c a y :: C) r p → NoDup (caddrs (Frame d c a y :: C)) →
  (∀ h', RepP h' (Frame d c a y :: C) v p → (∀ x, x ∉ caddrs (Frame d c a y :: C) → h' !! x = rb_nodes s !! x) →
    Q tt (RbStore (rb_root s) h')) →
  wp (put_child a (ix d) v) Q s.
Proof.
  cbn. intros (Ha & Hy & HP) [Hn _]%list.NoDup_cons HQ. eapply wp_put_child; [done|apply set_child_mknode|]. apply HQ.
  - split_and!; [by rewrite lookup_insert_eq| |].
    + eapply Rep_agree; [|done]. intros x Hx. apply lookup_insert_ne. set_solver.
    + eapply RepP_agree; [|done]. intros x Hx. apply lookup_insert_ne. set_solver.
  - intros x Hx. apply lookup_insert_ne. set_solver.
Qed.

(** ** Unlinking *)

(** A node with at most one child. *)
Lemma unlink_one F s C d c a y Q :
  RbFocus F s C (mk d c RbE a y) →
  (∀ s' n, RbFocus (<[a := n]> F) s' C y → Q (col c, rbroot y, top C) s') →
  wp (unlink_child a (rbroot y)) Q s.
Proof.
  intros H HQ. pose proof H as [Hn Hg Hr Hrep Hc Hf]. rewrite mk_perm in Hn, Hg. cbn in Hn, Hg. rewrite rbroot_mk in Hr, Hc.
  destruct (focus_node _ _ _ _ _ _ _ _ H) as (Ha & Hp & Hga). rewrite Rep_mk in Hrep. destruct Hrep as (_ & _ & Hy).
  apply list.Forall_cons in Hg as [_ [Hgy HgC]%list.Forall_app]. pose proof Hn as Hn'.
  apply list.NoDup_cons in Hn as [Han Hn]. apply list.NoDup_app in Hn as (Hny & Hd & HnC).
  apply wp_bind, (focus_color _ _ _ _ _ _ _ _ _ H). apply wp_bind, (focus_parent _ _ _ _ _ _ _ _ _ H).
  apply wp_bind, (wp_reparent _ y a (top C)); try done; [apply Hga|]. intros h1 Hy1 Ag1.
  apply wp_bind. eapply wp_replace_child; [| |apply parent_mknode|apply Hga|apply NoDup_cons_2; [set_solver|done]|done|].
  { cbn. eapply RepC_agree; [|done]. intros v Hv. apply Ag1. set_solver. }
  { cbn. rewrite Ag1 by set_solver. done. }
  cbn. intros [r2 h2] HC2 Hr2 Ag2. cbn in *. apply wp_ret. eapply HQ. split; cbn.
  - apply list.NoDup_app. done.
  - by apply list.Forall_app.
  - rewrite Hr2. destruct C; [done|]. by rewrite Hr.
  - eapply Rep_agree; [|done]. intros v Hv. apply Ag2. set_solver.
  - done.
  - intros v Hv. rewrite Ag2, Ag1 by set_solver. destruct (decide (v = a)) as [->|Hva].
    + rewrite lookup_insert_eq. done.
    + rewrite lookup_insert_ne by done. apply Hf. rewrite mk_perm. set_solver.
Qed.

Lemma leftmost_ok fuel F s C t :
  (length (inorder t) < fuel)%nat → RbFocus F s C t → t ≠ RbE →
  wp (leftmost_loop fuel (rbroot t))
    (λ b s', s' = s ∧ ∃ Cs c y, t = plug Cs (RbT c RbE b y) ∧ Forall (λ f, f_side f = false) Cs) s.
Proof.
  revert C t. induction fuel as [|fuel IH]; intros C t Hf H Ht; [lia|]. cbn [leftmost_loop].
  destruct t as [|c l a r]; [done|]. cbn [rbroot]. apply wp_bind, (focus_child F s C false c l a r); [done|].
  destruct (decide (l = RbE)) as [->|Hl]; [apply wp_ret; split; [done|]; by exists [], c, r|].
  pose proof (proj1 (focus_down _ _ false _ _ _ _ _) H) as H1. rewrite eqb_false by (by apply (root_nonzero _ _ _ _ H1)).
  cbn in Hf. rewrite length_app in Hf. cbn in Hf.
  assert (length (inorder l) < fuel)%nat as Hf' by lia. eapply wp_mono; [apply (IH _ _ Hf' H1 Hl)|].
  intros b s' (-> & Cs & cs & y & -> & HCs). split; [done|]. exists (Cs ++ [Frame false c a r]), cs, y.
  split; [by rewrite plug_app|]. apply list.Forall_app. split; [done|]. by apply Forall_singleton.
Qed.

(** A node with two children: its successor [b] takes its place. *)
Lemma splice_distinct (a b : N) (L Y K D : list N) :
  NoDup (a :: b :: L ++ Y ++ K ++ D) →
  a ≠ b ∧ (∀ v, v ∈ L → v ≠ a ∧ v ≠ b ∧ v ∉ Y ∧ v ∉ K ∧ v ∉ D) ∧ (∀ v, v ∈ Y → v ≠ a ∧ v ≠ b ∧ v ∉ L ∧ v ∉ K ∧ v ∉ D) ∧
  (∀ v, v ∈ K → v ≠ a ∧ v ≠ b ∧ v ∉ L ∧ v ∉ Y ∧ v ∉ D) ∧ (∀ v, v ∈ D → v ≠ a ∧ v ≠ b ∧ v ∉ L ∧ v ∉ Y ∧ v ∉ K) ∧
  NoDup L ∧ NoDup Y ∧ NoDup K ∧ NoDup (a :: D).
Proof.
  rewrite !list.NoDup_cons, !list.NoDup_app. intros (Ha & Hb & HL & HdL & HY & HdY & HK & HdK & HD).
  split_and!; [set_solver..|done|done|done|set_solver|done].
Qed.

(** The nodes before the change. *)
Definition spliced (Cs : ctx) (c cs : colour) (l : rbt) (a b : N) (y : rbt) : rbt :=
  RbT c l a (plug Cs (RbT cs RbE b y)).

Lemma spliced_perm C Cs c cs l a b y :
  inorder (spliced Cs c cs l a b y) ++ caddrs C ≡ₚ a :: b :: inorder l ++ inorder y ++ caddrs Cs ++ caddrs C.
Proof. unfold spliced. cbn. rewrite plug_perm. cbn. solve_Permutation. Qed.

Lemma spliced_focus F s C Cs c cs l a b y r h na :
  RbFocus F s C (spliced Cs c cs l a b y) → r = (if C is [] then b else rb_root s) → h !! a = Some na →
  h !! b = Some (RbNode (cword (top C) c) (rbroot l) (croot Cs (rbroot y))) → Rep h l b → Rep h y (topp Cs b) → RepP h Cs (rbroot y) b → RepC h C b →
  (∀ v, v ∉ a :: b :: inorder l ++ inorder y ++ caddrs Cs ++ caddrs C → h !! v = rb_nodes s !! v) →
  RbFocus (<[a := na]> F) (RbStore r h) (Cs ++ Frame true c b l :: C) y.
Proof.
  intros [Hn Hg Hr Hrep Hc Hf] -> Ha Hb Hl Hy HCs HC Hag. rewrite spliced_perm in Hn, Hg. cbn in Hr.
  assert (inorder y ++ caddrs (Cs ++ Frame true c b l :: C) ≡ₚ b :: inorder l ++ inorder y ++ caddrs Cs ++ caddrs C) as Hperm.
  { rewrite caddrs_app. cbn. solve_Permutation. }
  apply list.NoDup_cons in Hn as [Hna Hn]. apply list.Forall_cons in Hg as [Hga Hg].
  split; cbn [rb_root rb_nodes]; [by rewrite Hperm|by rewrite Hperm| | | |].
  - rewrite croot_app. cbn. destruct C; [done|]. by rewrite Hr.
  - rewrite top_app. done.
  - rewrite RepC_app. cbn. done.
  - intros v Hv. rewrite Hperm in Hv. destruct (decide (v = a)) as [->|Hva]; [by rewrite lookup_insert_eq|].
    rewrite lookup_insert_ne, <- Hf by (try done; rewrite spliced_perm; set_solver). apply Hag. set_solver.
Qed.

(** The first steps: the successor has the place of the node, with its colour
    and its left subtree. *)
Record replaced (s : rbstore) (C Cs : ctx) (c : colour) (l : rbt) (b : N) (y : rbt) (na : rbtree_node) (a : N) (s' : rbstore) : Prop := {
  rp_root : rb_root s' = (if C is [] then b else rb_root s);
  rp_ctx : RepC (rb_nodes s') C b;
  rp_left : Rep (rb_nodes s') l b;
  rp_old : rb_nodes s' !! a = Some na;
  rp_new : rb_nodes s' !! b = Some (RbNode (cword (top C) c) (rbroot l) (rbroot y));
  rp_path : RepP (rb_nodes s') Cs b a;
  rp_child : Rep (rb_nodes s') y b;
  rp_rest v : v ∉ inorder l ++ caddrs C → v ≠ b → rb_nodes s' !! v = rb_nodes s !! v;
}.

Lemma splice_start F s C Cs c cs l a b y (k : N → N → N → M rbstore (N * N * N)) Q :
  RbFocus F s C (spliced Cs c cs l a b y) → l ≠ RbE →
  (∀ s', replaced s C Cs c l b y (RbNode (cword (top C) c) (rbroot l) (croot Cs b)) a s' → wp (k (col cs) (rbroot y) (topp Cs a)) Q s') →
  wp (color ← rbtree_color b;
      child ← get_child b RBTREE_RIGHT;
      parent ← rbtree_parent a;
      replace_child parent a b;;
      (parent ← rbtree_parent b;
      w ← get_word a;
      put_word b w;;
      (l ← get_child a RBTREE_LEFT;
      put_child b RBTREE_LEFT l;;
      (l ← get_child b RBTREE_LEFT;
      rbtree_set_parent l b;;
      k color child parent)))) Q s.
Proof.
  intros H Hl HQ. pose proof H as [Hn Hg Hr Hrep Hc Hf]. rewrite spliced_perm in Hn, Hg.
  destruct (splice_distinct _ _ _ _ _ _ Hn) as (Hab & DL & DY & DK & DD & NL & NY & NK & ND).
  cbn in Hrep. rewrite rbroot_plug, Rep_plug_path in Hrep. cbn in Hrep, Hc. destruct Hrep as (Ha & HL & (Hb & _ & HY) & HP).
  rewrite !list.Forall_cons, !list.Forall_app in Hg. destruct Hg as ([Hane Haal] & [Hbne Hbal] & GL & GY & GK & GD).
  assert (rbtree_check_alignment (topp Cs a) = true) as Htop.
  { destruct Cs as [|[] ?]; [done|]. cbn in GK. by apply list.Forall_cons in GK as [[_ ?] _]. }
  assert (∀ v, v ∈ caddrs C → v ≠ a ∧ v ≠ b) as DD' by (intros v Hv; split; by apply DD).
  unfold rbtree_color at 1. apply wp_bind, wp_bind. eapply wp_get_word; [done|]. apply wp_ret. cbn [rb_parent]. rewrite word_color by done.
  apply wp_bind. eapply wp_get_child; [done|done|]. cbn [rb_right].
  apply wp_bind. eapply wp_parent; [done|done|by apply top_aligned|].
  apply wp_bind. eapply wp_replace_child; [done|done|done|done|done|done|]. intros [r1 h1] HC1 Hr1 Ag1. cbn in HC1, Hr1, Ag1.
  assert (h1 !! a = rb_nodes s !! a) as Ha1 by (apply Ag1; intros Hv; by apply DD' in Hv as [? _]).
  assert (h1 !! b = rb_nodes s !! b) as Hb1 by (apply Ag1; intros Hv; by apply DD' in Hv as [_ ?]).
  rewrite Ha in Ha1. rewrite Hb in Hb1.
  apply wp_bind. eapply wp_parent; [done|done|done|].
  apply wp_bind. eapply wp_get_word; [done|]. apply wp_bind. eapply wp_put_word; [done|]. cbn.
  apply wp_bind. eapply wp_get_child; [cbn; rewrite lookup_insert_ne; done|done|]. cbn.
  apply wp_bind. eapply wp_put_child; [cbn; apply lookup_insert_eq|done|]. cbn. rewrite insert_insert_eq.
  apply wp_bind. eapply wp_get_child; [cbn; apply lookup_insert_eq|done|]. cbn.
  set (h2 := <[b := _]> h1). apply wp_bind.
  assert (∀ v, v ∉ caddrs C → v ≠ b → h2 !! v = rb_nodes s !! v) as Ag2.
  { intros v Hv1 Hv2. unfold h2. rewrite lookup_insert_ne by done. by apply Ag1. }
  assert (rbroot l ≠ 0) as Hl0 by (by apply (root_nonzero _ _ _ _ (proj1 (focus_down _ _ false _ _ _ _ _) H))).
  epose proof (wp_reparent (RbStore r1 h2) l a b _) as Hrp. rewrite eqb_false in Hrp by done. apply Hrp; try done.
  { cbn. eapply Rep_agree; [|done]. intros v Hv. apply DL in Hv as (? & ? & ? & ? & ?). by apply Ag2. }
  clear Hrp. cbn. intros h3 HL3 Ag3. apply HQ.
  assert (∀ v, v ∉ inorder l ++ caddrs C → v ≠ b → h3 !! v = rb_nodes s !! v) as Ag4.
  { intros v [??]%not_elem_of_app Hvb. rewrite Ag3 by done. by apply Ag2. }
  split; cbn; try done.
  - eapply RepC_agree; [|done]. intros v Hv. apply DD in Hv as (? & ? & ? & ? & ?). rewrite Ag3 by done. unfold h2. by rewrite lookup_insert_ne.
  - rewrite Ag4 by (done || (rewrite not_elem_of_app; split; intros Hv; [by apply DL in Hv as [? _]|by apply DD' in Hv as [? _]])). done.
  - rewrite Ag3 by (intros Hv; by apply DL in Hv as (_ & ? & _)). apply lookup_insert_eq.
  - eapply RepP_agree; [|done]. intros v Hv. apply DK in Hv as (? & ? & ? & ? & ?). apply Ag4; [|done]. by apply not_elem_of_app.
  - eapply Rep_agree; [|done]. intros v Hv. apply DY in Hv as (? & ? & ? & ? & ?). apply Ag4; [|done]. by apply not_elem_of_app.
Qed.

(** The last steps, when the successor is further down: it takes over the right
    subtree, and leaves its own child to its parent. *)
Lemma splice_end F s s' C Cs c cs l a b y na Q :
  RbFocus F s C (spliced Cs c cs l a b y) → replaced s C Cs c l b y na a s' → rb_right na = croot Cs b →
  Forall (λ f, f_side f = false) Cs → Cs ≠ [] →
  (∀ s', RbFocus (<[a := na]> F) s' (Cs ++ Frame true c b l :: C) y → Q (col cs, rbroot y, topp Cs b) s') →
  wp (r ← get_child a RBTREE_RIGHT;
      put_child b RBTREE_RIGHT r;;
      (r ← get_child b RBTREE_RIGHT;
      rbtree_set_parent r b;;
      put_child (topp Cs b) RBTREE_LEFT (rbroot y);;
      (if rbroot y =? 0 then mret tt else rbtree_set_parent (rbroot y) (topp Cs b));;
      mret (col cs, rbroot y, topp Cs b))) Q s'.
Proof.
  intros H [Hr HC HL Ha Hb HP HY Hag] Hna Hside HCs HQ. pose proof (rf_nodup _ _ _ _ H) as Hn. pose proof (rf_good _ _ _ _ H) as Hg.
  rewrite spliced_perm in Hn, Hg. destruct (splice_distinct _ _ _ _ _ _ Hn) as (Hab & DL & DY & DK & DD & NL & NY & NK & ND).
  rewrite !list.Forall_cons, !list.Forall_app in Hg. destruct Hg as ([Hane Haal] & [Hbne Hbal] & GL & GY & GK & GD).
  apply wp_bind. eapply wp_get_child; [done|done|]. rewrite Hna.
  apply wp_bind. eapply wp_put_child; [done|done|]. apply wp_bind. eapply wp_get_child; [cbn; apply lookup_insert_eq|done|]. cbn.
  set (h1 := <[b := _]> (rb_nodes s')). assert (∀ v, v ≠ b → h1 !! v = rb_nodes s' !! v) as Ag1 by (intros v Hv; by apply lookup_insert_ne).
  apply wp_bind, (wp_reparent_path _ Cs b a b); try done.
  { cbn. eapply RepP_agree; [|done]. intros v Hv. apply DK in Hv as (? & ? & ? & ? & ?). by apply Ag1. }
  cbn. intros h2 HP2 Ag2. destruct Cs as [|[d pc p z] Cs]; [done|]. apply list.Forall_cons in Hside as [Hd _]. cbn in Hd. subst d.
  set (K := Frame false pc p z :: Cs) in *. change RBTREE_LEFT with (ix false). apply wp_bind, (wp_put_path (RbStore (rb_root s') h2) false pc p z Cs b b _ _ HP2 NK).
  fold K. cbn [rb_root rb_nodes]. intros h3 HP3 Ag3. assert (∀ v, v ∉ caddrs K → h3 !! v = h1 !! v) as Ag3' by (intros v Hv; rewrite Ag3, Ag2; done).
  apply wp_bind, (wp_reparent _ y b (topp K b)); try done; cbn [rb_root rb_nodes].
  { eapply Rep_agree; [|done]. intros v Hv. apply DY in Hv as (? & ? & ? & ? & ?). rewrite Ag3' by done. by apply Ag1. }
  { cbn in GK. by apply list.Forall_cons in GK as [[_ ?] _]. }
  intros h4 HY4 Ag4. assert (∀ v, v ∉ inorder y → v ∉ caddrs K → h4 !! v = h1 !! v) as Ag5 by (intros v ??; rewrite Ag4, Ag3'; done).
  apply wp_ret, HQ. eapply spliced_focus; [done|done|..].
  - rewrite Ag5; [rewrite Ag1 by done; done|intros Hv; by apply DY in Hv as [? _]|intros Hv; by apply DK in Hv as [? _]].
  - rewrite Ag5; [apply lookup_insert_eq|intros Hv; by apply DY in Hv as (_ & ? & _)|intros Hv; by apply DK in Hv as (_ & ? & _)].
  - eapply Rep_agree; [|done]. intros v Hv. apply DL in Hv as (? & ? & ? & ? & ?). by rewrite Ag5, Ag1.
  - done.
  - eapply RepP_agree; [|done]. intros v Hv. apply DK in Hv as (? & ? & ? & ? & ?). by apply Ag4.
  - eapply RepC_agree; [|done]. intros v Hv. apply DD in Hv as (? & ? & ? & ? & ?). by rewrite Ag5, Ag1.
  - intros v Hv. rewrite !not_elem_of_cons, !not_elem_of_app in Hv. destruct Hv as (? & ? & ? & ? & ? & ?).
    rewrite Ag5, Ag1 by done. apply Hag; [|done]. by apply not_elem_of_app.
Qed.

Lemma unlink_two F s C Cs c cs l a b y Q :
  RbFocus F s C (spliced Cs c cs l a b y) → l ≠ RbE → Forall (λ f, f_side f = false) Cs →
  (∀ s' n, RbFocus (<[a := n]> F) s' (Cs ++ Frame true c b l :: C) y → Q (col cs, rbroot y, topp Cs b) s') →
  wp (unlink_successor a b) Q s.
Proof.
  intros H Hl Hside HQ. unfold unlink_successor. apply (splice_start _ _ _ _ _ _ _ _ _ _ (λ color child parent, _) _ H Hl). intros s' Hrp.
  destruct (decide (Cs = [])) as [->|HCs].
  - cbn. rewrite N.eqb_refl. apply wp_ret. eapply HQ. destruct Hrp as [Hr HC HL Ha Hb HP HY Hag]. destruct s' as [r h]. cbn in *.
    eapply (spliced_focus _ _ _ []); try done. cbn. intros v Hv. rewrite !not_elem_of_cons, !not_elem_of_app in Hv.
    destruct Hv as (? & ? & ? & ? & ?). apply Hag; [|done]. by apply not_elem_of_app.
  - assert (∀ p, topp Cs p = topp Cs b) as E by (by destruct Cs). rewrite (E a).
    rewrite eqb_false.
    + eapply splice_end; try done. intros s1 H1. by eapply HQ.
    + intros Ea. pose proof (rf_nodup _ _ _ _ H) as Hn. rewrite spliced_perm in Hn.
      destruct (splice_distinct _ _ _ _ _ _ Hn) as (_ & _ & _ & DK & _). destruct Cs as [|[d pc p z] Cs]; [done|]. cbn in Ea. subst p.
      destruct (DK a) as [? _]; [cbn; set_solver|done].
Qed.

(** ** The loop *)

(** The tree is valid once its root is black. *)
Definition nearly (t : rbt) (n : nat) : Prop :=
  match t with RbT Red l _ r => valid l n ∧ valid r n | _ => valid t n end.

(** The context of the parent of the position. *)
Definition above_ok (c : colour) (C : ctx) (n : nat) : Prop :=
  match c with Red => allows_red C ∧ ctx_ok C n | Black => ctx_ok C (S n) end.

Lemma focus_no_red_child F s C d c u b v Q :
  RbFocus F s C (mk d c u b v) → Q (negb (is_red_col (rbcol u)) && negb (is_red_col (rbcol v))) s → wp (no_red_child b) Q s.
Proof.
  intros H HQ. assert (∃ x y, mk d c u b v = mk false c x b y ∧
    negb (is_red_col (rbcol u)) && negb (is_red_col (rbcol v)) = negb (is_red_col (rbcol x)) && negb (is_red_col (rbcol y))) as (x & y & E & E').
  { destruct d; [exists v, u|exists u, v]; split; try done. apply andb_comm. }
  rewrite E in H. rewrite E' in HQ. unfold no_red_child. apply wp_bind, (focus_child _ _ _ _ _ _ _ _ _ H).
  apply wp_bind, (focus_null_or_black _ _ _ _ _ (proj1 (focus_down _ _ _ _ _ _ _ _) H)).
  destruct (negb (is_red_col (rbcol x))); [|by apply wp_ret].
  apply wp_bind, (focus_child' _ _ _ _ _ _ _ _ _ H). by apply (focus_null_or_black _ _ _ _ _ (proj1 (focus_down' _ _ _ _ _ _ _ _) H)).
Qed.

(** The far child of the brother is red: the last rotation. *)
Lemma remove_final F s C d c y p u b v Q :
  RbFocus F s C (mk d c y p (mk d Black u b v)) → rbcol v = Red →
  (∀ s' v', RbFocus F s' C (mk d c (mk d Black y p u) b v') → inorder v' = inorder v → rbcol v' = Black →
     (∀ n, valid v n → valid v' (S n)) → Q None s') →
  wp (cl ← rbtree_color p;
      rbtree_set_color b cl;;
      rbtree_set_black p;;
      (far ← get_child b (ix (negb d));
      rbtree_set_black far;;
      rbtree_rotate p (ix d);;
      mret None)) (Q : option (N * N) → rbstore → Prop) s.
Proof.
  intros H Hv HQ. destruct v as [|[] vl va vr]; [done| |done]. apply wp_bind, (focus_color _ _ _ _ _ _ _ _ _ H).
  rewrite focus_down' in H. apply wp_bind, (focus_set_color _ _ _ _ _ _ _ _ _ _ H). intros s1 H1.
  rewrite <- focus_down' in H1. apply wp_bind, (focus_set_color _ _ _ _ _ _ _ _ Black _ H1). intros s2 H2.
  rewrite focus_down' in H2. apply wp_bind, (focus_child' _ _ _ _ _ _ _ _ _ H2).
  rewrite focus_down' in H2. apply wp_bind, (focus_set_color _ _ _ false _ _ _ _ Black _ H2). intros s3 H3.
  rewrite <- !focus_down' in H3. apply wp_bind, (focus_rotate _ _ _ _ _ _ _ _ _ _ _ _ H3). intros s4 H4. apply wp_ret.
  eapply HQ; [done|done|done|]. intros n. cbn. tauto.
Qed.

(** The near child of the brother is red, the far one is black: a rotation at
    the brother. *)
Lemma remove_near F s C d c y p u b v Q :
  RbFocus F s C (mk d c y p (mk d Black u b v)) → rbcol u = Red →
  (∀ s' u1 e u2, RbFocus F s' C (mk d c y p (mk d Black u1 e (mk d Red u2 b v))) → inorder (mk d Black u1 e (mk d Red u2 b v)) = inorder (mk d Black u b v) →
     (∀ n, valid u n → valid u1 n ∧ valid u2 n ∧ rbcol u1 = Black ∧ rbcol u2 = Black) → Q e s') →
  wp (near ← get_child b (ix d);
      rbtree_set_black near;;
      rbtree_set_red b;;
      rbtree_rotate b (ix (negb d));;
      get_child p (ix (negb d))) Q s.
Proof.
  intros H Hu HQ. assert (u ≠ RbE) as Hue by (by intros ->). destruct (mk_side d u Hue) as (cu & u1 & e & u2 & ->). rewrite rbcol_mk in Hu. subst cu.
  rewrite focus_down' in H. apply wp_bind, (focus_child _ _ _ _ _ _ _ _ _ H). rewrite rbroot_mk.
  rewrite focus_down in H. apply wp_bind, (focus_set_color _ _ _ _ _ _ _ _ Black _ H). intros s1 H1.
  rewrite <- focus_down in H1. apply wp_bind, (focus_set_color _ _ _ _ _ _ _ _ Red _ H1). intros s2 H2.
  rewrite <- (mk_negb d Red), <- (mk_negb d Black) in H2. apply wp_bind, (focus_rotate _ _ _ _ _ _ _ _ _ _ _ _ H2). intros s3 H3.
  rewrite !mk_negb, <- focus_down' in H3. apply (focus_child' _ _ _ _ _ _ _ _ _ H3). rewrite rbroot_mk.
  eapply HQ; [done| |].
  - destruct d; cbn; rewrite <- ?app_assoc; done.
  - intros n. rewrite valid_red. tauto.
Qed.

Lemma remove_end F s C d c y p u b v n (Q : option (N * N) → rbstore → Prop) :
  RbFocus F s C (mk d c y p (mk d Black u b v)) → above_ok c C (S n) → rbcol y = Black → valid y n → rbcol v = Red → valid u n → valid v n →
  (∀ s', rb_tree F (inorder (plug C (mk d c y p (mk d Black u b v)))) s' → Q None s') →
  wp (cl ← rbtree_color p; rbtree_set_color b cl;; rbtree_set_black p;;
      (far ← get_child b (ix (negb d)); rbtree_set_black far;; rbtree_rotate p (ix d);; mret None)) Q s.
Proof.
  intros H HC Hy Hyv Hv Hu1 Hv1 HQ. eapply remove_final; [done|done|]. intros s' v' H' Hin Hv' Hval. apply HQ.
  exists (plug C (mk d c (mk d Black y p u) b v')). split_and!; [by rewrite focus_iff| |].
  - assert (valid (mk d c (mk d Black y p u) b v') (match c with Red => S n | Black => S (S n) end)) as HV.
    { destruct c; [rewrite valid_red, rbcol_mk|]; rewrite !valid_black; auto. }
    destruct c; (eapply plug_ok; [apply HC|done|]); rewrite rbcol_mk; [by intros _; apply HC|done].
  - apply inorder_plug_congr. destruct d; cbn; rewrite Hin, <- ?app_assoc; done.
Qed.

Lemma remove_brother_ok F s C d c y p u b v n :
  RbFocus F s C (mk d c y p (mk d Black u b v)) → above_ok c C (S n) → rbcol y = Black → valid y n → valid u n → valid v n →
  wp (remove_brother p b (ix d) (ix (negb d)))
    (λ o s', match o with
             | None => rb_tree F (inorder (plug C (mk d c y p (mk d Black u b v)))) s'
             | Some (child, parent) => child = p ∧ parent = top C ∧ RbFocus F s' C (mk d c y p (mk d Red u b v)) ∧ rbcol u = Black ∧ rbcol v = Black
             end) s.
Proof.
  intros H HC Hy Hyv Huv Hvv. unfold remove_brother. pose proof (proj1 (focus_down' _ _ _ _ _ _ _ _) H) as Hb.
  apply wp_bind, (focus_no_red_child _ _ _ _ _ _ _ _ _ Hb).
  destruct (rbcol v) eqn:Ev.
  - rewrite andb_false_r. apply wp_bind, (focus_child' _ _ _ _ _ _ _ _ _ Hb).
    apply wp_bind, (focus_null_or_black _ _ _ _ _ (proj1 (focus_down' _ _ _ _ _ _ _ _) Hb)). rewrite Ev. cbn [negb is_red_col].
    apply wp_bind, wp_ret. by eapply remove_end.
  - destruct (rbcol u) eqn:Eu; cbn [negb andb is_red_col].
    + apply wp_bind, (focus_child' _ _ _ _ _ _ _ _ _ Hb).
      apply wp_bind, (focus_null_or_black _ _ _ _ _ (proj1 (focus_down' _ _ _ _ _ _ _ _) Hb)). rewrite Ev. cbn [negb is_red_col].
      apply wp_bind, (remove_near _ _ _ _ _ _ _ _ _ _ _ H Eu). intros s1 u1 e u2 H1 Hin Hval. destruct (Hval n Huv) as (? & ? & ? & ?).
      eapply (remove_end _ _ _ _ _ _ _ u1 e (mk d Red u2 b v) n); [done|done|done|done|apply rbcol_mk|done|by rewrite valid_red|]. intros s2 (t & Ht & Hok & Hin').
      exists t. split_and!; [done|done|]. rewrite Hin'. apply inorder_plug_congr. rewrite !(inorder_mk d c y), Hin. done.
    + apply wp_bind, (focus_set_color _ _ _ _ _ _ _ _ Red _ Hb). intros s1 H1. rewrite <- focus_down' in H1.
      apply wp_bind, (focus_parent _ _ _ _ _ _ _ _ _ H1). by apply wp_ret.
Qed.

(** The brother is red: a rotation makes it the grand parent. *)
Lemma red_brother F s C d t p u b v Q :
  RbFocus F s C (mk d Black t p (mk d Red u b v)) →
  (∀ s', RbFocus F s' (Frame d Black b v :: C) (mk d Red t p u) → Q (rbroot u) s') →
  wp (rbtree_set_black b;; rbtree_set_red p;; rbtree_rotate p (ix d);; get_child p (ix (negb d))) Q s.
Proof.
  intros H HQ. rewrite focus_down' in H. apply wp_bind, (focus_set_color _ _ _ _ _ _ _ _ Black _ H). intros s1 H1.
  rewrite <- focus_down' in H1. apply wp_bind, (focus_set_color _ _ _ _ _ _ _ _ Red _ H1). intros s2 H2.
  apply wp_bind, (focus_rotate _ _ _ _ _ _ _ _ _ _ _ _ H2). intros s3 H3. rewrite focus_down in H3.
  apply (focus_child' _ _ _ _ _ _ _ _ _ H3). by apply HQ.
Qed.

Definition remove_measure (C : ctx) (t : rbt) : nat := (length C + match rbcol t with Red => 0 | Black => 1 end)%nat.

Section Iteration.
Context (F : gmap N rbtree_node) (fuel : nat).
Context (IH : ∀ s C t n, (remove_measure C t < fuel)%nat → RbFocus F s C t → nearly t n → ctx_ok C (S n) →
  wp (remove_loop fuel (rbroot t) (top C)) (λ _, rb_tree F (inorder (plug C t))) s).

(** The iteration from the point where the brother is black. *)
Lemma black_brother s C d c y p z n :
  (length C < fuel)%nat → RbFocus F s C (mk d c y p z) → above_ok c C (S n) → rbcol y = Black → rbcol z = Black → valid y n → valid z (S n) →
  (c = Black → S (length C) < fuel)%nat →
  wp (again ← remove_brother p (rbroot z) (ix d) (ix (negb d));
      match again with None => mret tt | Some (child, parent) => remove_loop fuel child parent end)
    (λ _, rb_tree F (inorder (plug C (mk d c y p z)))) s.
Proof.
  intros Hf H HC Hy Hz Hyv Hzv Hf'. destruct (decide (z = RbE)) as [->|Hze]; [done|].
  destruct (mk_side d z Hze) as (cz & u & b & v & ->). rewrite rbcol_mk in Hz. subst cz. rewrite rbroot_mk. rewrite valid_black in Hzv. destruct Hzv as [Hu Hv].
  apply wp_bind. eapply wp_mono; [by apply (remove_brother_ok F s C d c y p u b v n)|].
  intros [[child parent]|] s' Ho; [|by apply wp_ret]. destruct Ho as (-> & -> & H' & Eu & Ev).
  assert (nearly (mk d c y p (mk d Red u b v)) (match c with Red => n | Black => S n end)) as Hnear.
  { destruct c, d; cbn; tauto. }
  eapply wp_mono.
  - replace p with (rbroot (mk d c y p (mk d Red u b v))) at 1 by apply rbroot_mk. eapply IH; [|done|done|by destruct c; apply HC].
    unfold remove_measure. rewrite rbcol_mk. destruct c; [lia|]. specialize (Hf' eq_refl). lia.
  - intros [] s1 (t & Ht & Hok & Hin). exists t. split_and!; [done|done|]. rewrite Hin. apply inorder_plug_congr. by destruct d.
Qed.
End Iteration.

Lemma remove_loop_ok F fuel s C t n :
  (remove_measure C t < fuel)%nat → RbFocus F s C t → nearly t n → ctx_ok C (S n) →
  wp (remove_loop fuel (rbroot t) (top C)) (λ _, rb_tree F (inorder (plug C t))) s.
Proof.
  revert s C t n. induction fuel as [|fuel IH]; intros s C t n Hf H Ht HC; [lia|]. cbn [remove_loop]. unfold remove_measure in Hf.
  apply wp_bind, (focus_red_node _ _ _ _ _ H). destruct (rbcol t) eqn:Ec; cbn [is_red_col].
  { destruct t as [|[] l a r]; [done| |done]. apply (focus_set_color _ _ _ false _ _ _ _ Black _ H). intros s1 H1.
    exists (plug C (RbT Black l a r)). split_and!; [by rewrite focus_iff| |by apply inorder_plug_congr]. by apply (plug_ok _ _ (S n)). }
  assert (valid t n) as Hv by (by destruct t as [|[] ? ? ?]). destruct C as [|[d c p z] C]; cbn [top f_addr].
  { apply wp_ret. exists t. split_and!; [by apply (focus_iff F s [] t)|by split; [|exists n]|done]. }
  rewrite eqb_false by (by apply (top_nonzero _ _ _ _ H)). pose proof (proj2 (focus_down _ _ _ _ _ _ _ _) H) as H0.
  pose proof (proj1 (focus_down' _ _ _ _ _ _ _ _) H0) as Hz.
  assert (valid z (S n)) as Hzv by (destruct c; apply HC). assert (z ≠ RbE) as Hze by (by intros ->).
  apply wp_bind, (focus_index _ _ _ _ _ _ _ _ _ H); [by apply not_eq_sym, (sibling_ne _ _ _ _ _ _ _ _ Hz)|].
  cbv zeta. rewrite ix_negb. apply wp_bind, (focus_child' _ _ _ _ _ _ _ _ _ H0). apply wp_bind, (focus_is_red _ _ _ _ _ Hz Hze).
  destruct (rbcol z) eqn:Ez; cbn [is_red_col].
  - destruct c; [by destruct HC as [[? _] _]; congruence|]. destruct HC as [_ HC].
    destruct (mk_side d z Hze) as (cz & u & b & v & ->). rewrite rbcol_mk in Ez. subst cz. rewrite rbroot_mk.
    rewrite valid_red in Hzv. destruct Hzv as ([Hu Hvb] & Huv & Hvv).
    apply wp_bind, (red_brother _ _ _ _ _ _ _ _ _ _ H0). intros s1 H1. eapply wp_mono.
    + eapply (black_brother F fuel IH s1 (Frame d Black b v :: C) d Red t p u n); try done; cbn in *; lia.
    + intros [] s2 (t' & Ht' & Hok & Hin). exists t'. split_and!; [done|done|]. rewrite Hin. cbn [plug]. apply inorder_plug_congr. destruct d; cbn; by rewrite <- ?app_assoc.
  - apply wp_bind, wp_ret. eapply (black_brother F fuel IH s C d c t p z n); try done; [cbn in *; lia| |cbn in *; lia].
    destruct c; [apply HC|apply HC].
Qed.

(** ** The routine *)

Lemma pre_app C C' : pre (C ++ C') = pre C' ++ pre C.
Proof. induction C as [|[d c a y] C IH]; cbn; [by rewrite app_nil_r|]. by rewrite IH, <- app_assoc. Qed.
Lemma post_app C C' : post (C ++ C') = post C ++ post C'.
Proof. induction C as [|[d c a y] C IH]; cbn; [done|]. by rewrite IH, <- app_assoc. Qed.
Lemma pre_left C : Forall (λ f, f_side f = false) C → pre C = [].
Proof. induction 1 as [|[d c a y] C Hd _ IH]; cbn in *; [done|]. by rewrite IH, Hd. Qed.

(** Contexts that differ in an address are both good. *)
Lemma ctx_ok_addr Cs d c a b l C n : ctx_ok (Cs ++ Frame d c a l :: C) n → ctx_ok (Cs ++ Frame d c b l :: C) n.
Proof.
  revert n. induction Cs as [|[e ce x y] Cs IH]; intros n; cbn; [done|]. destruct ce.
  - intros (Hy & Ha & HC). split_and!; [apply Hy..| |by apply IH]. by destruct Cs as [|[] ?].
  - intros [Hy HC]. split; [done|by apply IH].
Qed.

(** What is left to do after the node is gone. *)
Definition deficit (C : ctx) (y : rbt) (color : N) : Prop :=
  if color =? RBTREE_COLOR_RED then rb_ok (plug C y) else ∃ m, nearly y m ∧ ctx_ok C (S m).

Lemma deficit_one d c b y C n : valid (mk d c RbE b y) n → ctx_ok C n → deficit C y (col c).
Proof.
  intros Hv HC. unfold deficit. destruct c; cbn.
  - rewrite valid_red in Hv. destruct Hv as ([_ Hy] & _ & Hyv). apply (plug_ok _ _ n); [done|done|congruence].
  - apply valid_black_inv in Hv as (m & -> & _ & Hy). exists m. split; [|done]. destruct y as [|[] ? ? ?]; cbn in *; tauto.
Qed.

Lemma remove_unlink_ok F s C c l a r :
  RbFocus F s C (RbT c l a r) → rb_ok (plug C (RbT c l a r)) →
  wp (remove_unlink a) (λ '(color, child, parent) s', ∃ n C' y, RbFocus (<[a := n]> F) s' C' y ∧ child = rbroot y ∧ parent = top C' ∧
    deficit C' y color ∧ inorder (plug C' y) = pre C ++ (inorder l ++ inorder r) ++ post C) s.
Proof.
  intros H Hok. unfold remove_unlink. pose proof H as H0. change (RbT c l a r) with (mk false c l a r) in H0.
  apply wp_bind, (focus_child _ _ _ _ _ _ _ _ _ H0).
  destruct (decide (l = RbE)) as [->|Hl].
  { cbn. apply wp_bind, (focus_child' _ _ _ _ _ _ _ _ _ H0). apply (unlink_one _ _ _ _ _ _ _ _ H0). intros s' n H'.
    apply plug_ok_inv in Hok as (m & Hv & HC & _). exists n, C, r. split_and!; [done|done|done|by eapply (deficit_one false)|by rewrite inorder_plug]. }
  pose proof (proj1 (focus_down _ _ _ _ _ _ _ _) H0) as HL. rewrite eqb_false by (by apply (root_nonzero _ _ _ _ HL)).
  apply wp_bind, (focus_child' _ _ _ _ _ _ _ _ _ H0). destruct (decide (r = RbE)) as [->|Hr].
  { cbn. apply wp_bind, (focus_child _ _ _ _ _ _ _ _ _ H0). rewrite <- mk_negb in H0. apply (unlink_one _ _ _ _ _ _ _ _ H0). intros s' n H'.
    apply plug_ok_inv in Hok as (m & Hv & HC & _). exists n, C, l. rewrite app_nil_r.
    split_and!; [done|done|done|by eapply (deficit_one true)|by rewrite inorder_plug]. }
  pose proof (proj1 (focus_down' _ _ _ _ _ _ _ _) H0) as HR. rewrite eqb_false by (by apply (root_nonzero _ _ _ _ HR)).
  unfold rb_fuel. apply wp_bind, wp_bind, wp_get, wp_ret, wp_bind. eapply wp_mono; [eapply leftmost_ok; [|exact HR|exact Hr]|].
  { pose proof (size_nodes _ _ _ _ HR) as Hs. rewrite length_app in Hs. lia. }
  intros b s' (-> & Cs & cs & y & -> & HCs). apply (unlink_two _ _ _ _ _ _ _ _ _ _ _ H Hl HCs). intros s' n H'.
  exists n, (Cs ++ Frame true c b l :: C), y. split_and!; [done|done|by rewrite top_app| |].
  - change (RbT c l a (plug Cs (RbT cs RbE b y))) with (mk true c (plug Cs (RbT cs RbE b y)) a l) in Hok.
    change (rb_ok (plug (Frame true c a l :: C) (plug Cs (RbT cs RbE b y)))) in Hok. rewrite <- plug_app in Hok.
    apply plug_ok_inv in Hok as (m & Hv & HC & _). apply (ctx_ok_addr _ _ _ _ b) in HC. by eapply (deficit_one false).
  - rewrite !inorder_plug, pre_app, post_app. cbn. rewrite (pre_left _ HCs). cbn. rewrite app_nil_r, <- !app_assoc. cbn. by rewrite <- !app_assoc.
Qed.

Lemma rbtree_remove_ok F s C c l a r :
  RbFocus F s C (RbT c l a r) → rb_ok (plug C (RbT c l a r)) →
  wp (rbtree_remove a) (λ _ s', ∃ n, rb_tree (<[a := n]> F) (pre C ++ (inorder l ++ inorder r) ++ post C) s') s.
Proof.
  intros H Hok. unfold rbtree_remove. apply wp_bind. eapply wp_mono; [by apply (remove_unlink_ok F s C c l a r)|].
  intros [[color child] parent] s1 (n & C' & y & H1 & -> & -> & Hd & Hin). unfold deficit in Hd. destruct (color =? RBTREE_COLOR_RED).
  - apply wp_ret. exists n, (plug C' y). split_and!; [by rewrite focus_iff|done|done].
  - destruct Hd as (m & Hy & HC'). unfold rb_fuel. apply wp_bind, wp_bind, wp_get, wp_ret, wp_bind. eapply wp_mono; [eapply (remove_loop_ok _ _ _ _ _ m); [|done..]|].
    { unfold remove_measure. pose proof (size_nodes _ _ _ _ H1) as Hs. pose proof (length_ctx C'). rewrite length_app in Hs. destruct (rbcol y); lia. }
    intros [] s2 (t & Ht & Htok & Hint). unfold get_root. apply wp_bind, wp_bind, wp_get, wp_ret. rewrite (rr_root _ _ _ Ht).
    apply wp_bind, (focus_null_or_black _ _ _ _ _ (proj1 (focus_iff _ _ [] _) Ht)). destruct Htok as [Hb Hv]. rewrite Hb.
    apply wp_check; [done|]. exists n, t. split_and!; [done|done|]. by rewrite Hint.
Qed.
