(* ===== verification/RbtreeWalk.v ===== *)
(** Searches and walks in red-black trees, and the bound on their length. *)

From stdpp Require Import sorting.
From S2P Require Import Prelude Rbtree RbtreeInv RbtreeStep RbtreeInsert RbtreeRemove.

Open Scope N_scope.

(** ** Depth *)

Fixpoint depth (t : rbt) : nat :=
  match t with RbE => O | RbT _ l _ r => S (max (depth l) (depth r)) end.

Lemma depth_mk d c x a y : depth (mk d c x a y) = S (max (depth x) (depth y)).
Proof. destruct d; cbn; lia. Qed.

Lemma depth_length t : (depth t <= length (inorder t))%nat.
Proof. induction t as [|c l IHl a r IHr]; cbn; [done|]. rewrite length_app. cbn. lia. Qed.

(** A path has at most twice as many nodes as black ones, and there are many
    nodes where there are many black ones. *)
Lemma valid_depth t n : valid t n → (depth t <= 2 * n + match rbcol t with Red => 1 | Black => 0 end)%nat.
Proof.
  revert n. induction t as [|c l IHl a r IHr]; intros n; cbn; [lia|]. destruct c.
  - intros ([Hl Hr] & Hvl & Hvr). specialize (IHl n Hvl). specialize (IHr n Hvr). rewrite Hl in IHl. rewrite Hr in IHr. lia.
  - destruct n as [|n]; [done|]. intros [Hvl Hvr]. specialize (IHl n Hvl). specialize (IHr n Hvr). destruct (rbcol l), (rbcol r); lia.
Qed.

Lemma valid_length t n : valid t n → (2 ^ n <= length (inorder t) + 1)%nat.
Proof.
  revert n. induction t as [|c l IHl a r IHr]; intros n; cbn; [by intros ->|]. rewrite length_app. cbn. destruct c.
  - intros (_ & Hl & _). specialize (IHl n Hl). lia.
  - destruct n as [|n]; [done|]. intros [Hl Hr]. specialize (IHl n Hl). specialize (IHr n Hr). cbn. lia.
Qed.

Lemma rb_ok_depth t : rb_ok t → (depth t <= 2 * Nat.log2 (length (inorder t) + 1))%nat.
Proof.
  intros [Hb [n Hn]]. pose proof (valid_depth t n Hn) as Hd. rewrite Hb in Hd.
  pose proof (valid_length t n Hn) as Hl. apply Nat.log2_le_mono in Hl. rewrite Nat.log2_pow2 in Hl by lia. lia.
Qed.

Lemma fuel_depth F s C t : RbFocus F s C t → (depth t < S (S (size (rb_nodes s))))%nat.
Proof. intros H%size_nodes. pose proof (depth_length t). rewrite length_app in H. lia. Qed.

(** ** Searches *)

Section Search.
(** The comparison of the key with the nodes. *)
Context (cmp : N → Z).

(** Along a list in order: positive, then zero at most once, then negative. *)
Definition monotone (l : list N) : Prop := StronglySorted (λ a b, cmp a <= 0 → cmp b < 0)%Z l.

Definition found (l : list N) : option N := List.find (λ a, (cmp a =? 0)%Z) l.

Lemma found_app l k : found (l ++ k) = match found l with Some a => Some a | None => found k end.
Proof. induction l as [|a l IH]; cbn; [done|]. by destruct (cmp a =? 0)%Z. Qed.

Lemma found_none l : Forall (λ a, cmp a ≠ 0)%Z l → found l = None.
Proof. induction 1 as [|a l Ha _ IH]; cbn; [done|]. by destruct (Z.eqb_spec (cmp a) 0). Qed.

Lemma monotone_app l a r :
  monotone (l ++ a :: r) →
  monotone l ∧ monotone r ∧ (0 <= cmp a → Forall (λ x, 0 < cmp x) l)%Z ∧ (cmp a <= 0 → Forall (λ x, cmp x < 0) r)%Z.
Proof.
  intros (Hlr & Hl & [Hr Hra]%StronglySorted_inv)%StronglySorted_app. split_and!; [done|done| |].
  - intros Ha. apply list.Forall_forall. intros x Hx. specialize (Hlr x a Hx ltac:(set_solver)). cbn in Hlr. lia.
  - intros Ha. eapply list.Forall_impl; [exact Hra|]. cbn. intros x Hx. lia.
Qed.

Lemma d2i_right z : (0 < z)%Z → rbtree_d2i z = ix true.
Proof. intros H. unfold rbtree_d2i, ix. f_equal. destruct (Z.leb_spec z 0); [lia|done]. Qed.
Lemma d2i_left z : (z < 0)%Z → rbtree_d2i z = ix false.
Proof. intros H. unfold rbtree_d2i, ix. f_equal. destruct (Z.leb_spec z 0); [done|lia]. Qed.

(** The loop of [rbtree_lookup]. *)
Lemma lookup_loop_ok fuel F s C t :
  (depth t < fuel)%nat → RbFocus F s C t → monotone (inorder t) →
  wp (lookup_loop cmp fuel (rbroot t)) (λ r s', s' = s ∧ r = default 0 (found (inorder t))) s.
Proof.
  revert C t. induction fuel as [|fuel IH]; intros C t Hf H Hm; [lia|]. cbn [lookup_loop].
  destruct t as [|c l a r]; [by apply wp_ret|]. cbn [rbroot]. change (RbT c l a r) with (mk false c l a r) in H.
  destruct (focus_node _ _ _ _ _ _ _ _ H) as (_ & _ & Ha0 & _). rewrite eqb_false by done. cbn in Hf, Hm.
  apply monotone_app in Hm as (Hl & Hr & Hpos & Hneg). cbv zeta. cbn [inorder]. rewrite found_app. cbn [found List.find]. fold (found (inorder r)).
  destruct (Z.eqb_spec (cmp a) 0) as [E|E].
  - apply wp_ret. split; [done|]. rewrite found_none; [done|]. eapply list.Forall_impl; [apply Hpos; lia|]. cbn. lia.
  - destruct (decide (0 < cmp a)%Z) as [Hp|Hp].
    + rewrite d2i_right by done. apply wp_bind, (focus_child' _ _ _ _ _ _ _ _ _ H). rewrite found_none; [|eapply list.Forall_impl; [apply Hpos; lia|]; cbn; lia].
      eapply IH; [lia|by apply focus_down' in H|done].
    + rewrite d2i_left by lia. apply wp_bind, (focus_child _ _ _ _ _ _ _ _ _ H).
      rewrite (found_none (inorder r)); [|eapply list.Forall_impl; [apply Hneg; lia|]; cbn; lia].
      eapply wp_mono; [eapply IH; [lia|by apply focus_down in H|done]|]. intros x s' [-> ->]. by destruct (found (inorder l)).
Qed.

(** A position where the key belongs. *)
Record point (t : rbt) (C : ctx) : Prop := {
  pt_tree : plug C RbE = t;
  pt_pre : Forall (λ x, 0 < cmp x)%Z (pre C);
  pt_post : Forall (λ x, cmp x < 0)%Z (post C);
}.

Lemma plug_nonempty C t : t ≠ RbE → plug C t ≠ RbE.
Proof. revert t. induction C as [|[d c a y] C IH]; intros t Ht; cbn; [done|]. apply IH. by destruct d. Qed.

Lemma point_nonempty C t : t ≠ RbE → ¬ point (plug C t) [].
Proof. intros Ht Hpt. by apply (plug_nonempty C t Ht), eq_sym, (pt_tree _ _ Hpt). Qed.

(** The loops that end at an insertion point. *)
Lemma slot_loop_ok fuel F s C t index :
  (depth t < fuel)%nat → RbFocus F s C t → side_ok C index → monotone (inorder t) →
  Forall (λ x, 0 < cmp x)%Z (pre C) → Forall (λ x, cmp x < 0)%Z (post C) →
  wp (slot_loop cmp fuel (top C) index (rbroot t))
    (λ '(cur, prev, i) s', s' = s ∧ match found (inorder t) with
       | Some a => cur = a
       | None => cur = 0 ∧ ∃ C', prev = top C' ∧ side_ok C' i ∧ (C' = [] → i = index) ∧ point (plug C t) C'
       end) s.
Proof.
  revert C t index. induction fuel as [|fuel IH]; intros C t index Hf H Hs Hm Hpre Hpost; [lia|]. cbn [slot_loop].
  destruct t as [|c l a r]; [apply wp_ret; split; [done|]; split; [done|]; by exists C|].
  cbn [rbroot]. change (RbT c l a r) with (mk false c l a r) in H.
  destruct (focus_node _ _ _ _ _ _ _ _ H) as (_ & _ & Ha0 & _). rewrite eqb_false by done. cbn in Hf, Hm.
  apply monotone_app in Hm as (Hl & Hr & Hpos & Hneg). cbv zeta. cbn [inorder]. rewrite found_app. cbn [found List.find]. fold (found (inorder r)).
  destruct (Z.eqb_spec (cmp a) 0) as [E|E].
  { apply wp_ret. split; [done|]. rewrite found_none; [done|]. eapply list.Forall_impl; [apply Hpos; lia|]. cbn. lia. }
  destruct (decide (0 < cmp a)%Z) as [Hp|Hp].
  - rewrite d2i_right by done. apply wp_bind, (focus_child' _ _ _ _ _ _ _ _ _ H). rewrite found_none; [|eapply list.Forall_impl; [apply Hpos; lia|]; cbn; lia].
    apply focus_down' in H. eapply wp_mono; [apply (IH (Frame true c a l :: C) r); [lia|done|done|done| |done]|].
    { cbn. apply list.Forall_app. split; [done|]. apply list.Forall_app. split; [apply Hpos; lia|by apply Forall_singleton]. }
    intros [[cur prev] i] s' (-> & Hres). split; [done|]. destruct (found (inorder r)); [done|]. destruct Hres as (? & C' & ? & ? & Hi & Hpt).
    split; [done|]. exists C'. split_and!; [done|done| |done]. intros ->. by apply (point_nonempty C (RbT c l a r)) in Hpt.
  - rewrite d2i_left by lia. apply wp_bind, (focus_child _ _ _ _ _ _ _ _ _ H).
    rewrite (found_none (inorder r)); [|eapply list.Forall_impl; [apply Hneg; lia|]; cbn; lia].
    apply focus_down in H. eapply wp_mono; [apply (IH (Frame false c a r :: C) l); [lia|done|done|done|cbn; by rewrite app_nil_r|]|].
    { cbn. apply list.Forall_cons. split; [lia|]. apply list.Forall_app. split; [apply Hneg; lia|done]. }
    intros [[cur prev] i] s' (-> & Hres). split; [done|]. destruct (found (inorder l)); [done|]. destruct Hres as (? & C' & ? & ? & Hi & Hpt).
    split; [done|]. exists C'. split_and!; [done|done| |done]. intros ->. by apply (point_nonempty C (RbT c l a r)) in Hpt.
Qed.

(** Without an equal entry the loop of [rbtree_insert] does the same. *)
Lemma point_slot_loop fuel prev index cur s p i s' :
  slot_loop cmp fuel prev index cur s = Some (0, p, i, s') → point_loop cmp fuel prev index cur s = Some (p, i, s').
Proof.
  revert prev index cur s. induction fuel as [|fuel IH]; intros prev index cur s; [done|]. cbn [slot_loop point_loop].
  destruct (N.eqb_spec cur 0) as [->|Hc]; [by intros [= <- <- <-]|]. cbv zeta. destruct (cmp cur =? 0)%Z; [by intros [= ? _ _ _]|].
  unfold mbind, M_bind. cbn. destruct (get_child cur (rbtree_d2i (cmp cur)) s) as [[c s1]|]; [|done]. apply IH.
Qed.
End Search.

(** ** Walks *)

(** The nodes of a tree and of a context in the direction [d]. *)
Definition order (d : bool) (t : rbt) : list N := if d then inorder t else reverse (inorder t).
Definition after (d : bool) (C : ctx) : list N := if d then post C else reverse (pre C).

Lemma order_mk d c x a y : order d (mk d c x a y) = order d y ++ a :: order d x.
Proof. destruct d; unfold order; cbn [mk inorder]; [done|]. by rewrite reverse_app, reverse_cons, <- app_assoc. Qed.

Lemma after_frame d e c a y C :
  after d (Frame e c a y :: C) = (if decide (e = d) then [] else a :: order d y) ++ after d C.
Proof.
  destruct d, e; unfold after, order; cbn [pre post decide bool_eq_dec app]; rewrite ?app_nil_r; try done.
  by rewrite !reverse_app, reverse_singleton.
Qed.

Lemma hd_app_ne (l k : list N) : l ≠ [] → hd 0 (l ++ k) = hd 0 l.
Proof. by destruct l. Qed.
Lemma order_nil d t : order d t = [] ↔ t = RbE.
Proof.
  split; [|intros ->; by destruct d]. destruct t as [|c l a r]; [done|].
  destruct d; unfold order; cbn [inorder]; [by destruct (inorder l)|]. rewrite reverse_app, reverse_cons. by destruct (reverse (inorder r)).
Qed.

(** Down to the first node of a subtree. *)
Lemma down_loop_ok fuel F s C d t :
  (depth t < fuel)%nat → RbFocus F s C t → t ≠ RbE → wp (down_loop fuel (ix (negb d)) (rbroot t)) (λ r s', s' = s ∧ r = hd 0 (order d t)) s.
Proof.
  revert C t. induction fuel as [|fuel IH]; intros C t Hf H Ht; [lia|]. cbn [down_loop].
  destruct (mk_side d t Ht) as (c & x & a & y & ->). rewrite rbroot_mk. rewrite depth_mk in Hf. rewrite order_mk.
  apply wp_bind, (focus_child' _ _ _ _ _ _ _ _ _ H). apply focus_down' in H. destruct (decide (y = RbE)) as [->|Hy].
  - cbn. apply wp_ret. by destruct d.
  - rewrite eqb_false by (by apply (root_nonzero _ _ _ _ H)). rewrite hd_app_ne by (by rewrite order_nil). eapply IH; [lia|done|done].
Qed.

(** Up to the first node after a subtree. *)
Lemma up_loop_ok fuel F s C d t :
  (length C < fuel)%nat → RbFocus F s C t → t ≠ RbE → wp (up_loop fuel (ix (negb d)) (rbroot t)) (λ r s', s' = s ∧ r = hd 0 (after d C)) s.
Proof.
  revert C t. induction fuel as [|fuel IH]; intros C t Hf H Ht; [lia|]. cbn [up_loop].
  destruct t as [|tc l a r]; [done|]. apply wp_bind, (focus_parent _ _ _ false _ _ _ _ _ H).
  destruct C as [|[e c p y] C]; cbn [top f_addr]; [rewrite N.eqb_refl; apply wp_ret; by destruct d|].
  rewrite eqb_false by (by apply (top_nonzero _ _ _ _ H)).
  apply wp_bind, (focus_index _ _ _ _ _ _ _ _ _ H); [by apply (sibling_ne _ _ _ _ _ _ _ _ H)|]. rewrite after_frame.
  apply focus_down in H. destruct (decide (e = d)) as [->|He].
  - replace (ix d =? ix (negb d))%Z with false by (by destruct d). cbn [app].
    replace p with (rbroot (mk d c (RbT tc l a r) p y)) at 1 by apply rbroot_mk. eapply IH; [cbn in Hf; lia|done|by destruct d].
  - replace (ix e =? ix (negb d))%Z with true by (by destruct d, e). by apply wp_ret.
Qed.

Lemma check_index d : rbtree_check_index (ix d) = true.
Proof. by destruct d. Qed.

Lemma rbtree_walk_ok F s C d c x a y :
  RbFocus F s C (mk d c x a y) → wp (rbtree_walk a (ix d)) (λ r s', s' = s ∧ r = hd 0 (order d x ++ after d C)) s.
Proof.
  intros H. unfold rbtree_walk. apply wp_bind, wp_check; [apply check_index|]. cbv zeta. rewrite ix_negb.
  destruct (focus_node _ _ _ _ _ _ _ _ H) as (_ & _ & Ha0 & _). rewrite eqb_false by done.
  apply wp_bind, (focus_child _ _ _ _ _ _ _ _ _ H). unfold rb_fuel. apply wp_bind, wp_bind, wp_get, wp_ret.
  destruct (decide (x = RbE)) as [->|Hx].
  - change (rbroot RbE =? 0) with true. cbn [app]. replace (order d RbE) with (@nil N) by (by destruct d). cbn [app]. replace a with (rbroot (mk d c RbE a y)) by apply rbroot_mk.
    eapply up_loop_ok; [|done|by destruct d]. pose proof (size_nodes _ _ _ _ H) as Hs. pose proof (length_ctx C). rewrite length_app in Hs. lia.
  - apply focus_down in H. rewrite eqb_false by (by apply (root_nonzero _ _ _ _ H)). rewrite hd_app_ne by (by rewrite order_nil).
    eapply down_loop_ok; [by eapply fuel_depth|done|done].
Qed.

Lemma firstlast_loop_ok fuel F s C d t prev :
  (depth t < fuel)%nat → RbFocus F s C t → wp (firstlast_loop fuel (ix (negb d)) prev (rbroot t)) (λ r s', s' = s ∧ r = hd prev (order d t)) s.
Proof.
  revert C t prev. induction fuel as [|fuel IH]; intros C t prev Hf H; [lia|]. cbn [firstlast_loop].
  destruct (decide (t = RbE)) as [->|Ht]; [apply wp_ret; by destruct d|]. rewrite eqb_false by (by apply (root_nonzero _ _ _ _ H)).
  destruct (mk_side d t Ht) as (c & x & a & y & ->). rewrite rbroot_mk. rewrite depth_mk in Hf. rewrite order_mk.
  apply wp_bind, (focus_child' _ _ _ _ _ _ _ _ _ H). apply focus_down' in H.
  eapply wp_mono; [eapply IH; [lia|done]|]. intros r s' [-> ->]. split; [done|]. by destruct (order d y).
Qed.

Lemma rbtree_firstlast_ok F s t d :
  RbRep F s t → wp (rbtree_firstlast (ix d)) (λ r s', s' = s ∧ r = hd 0 (order (negb d) t)) s.
Proof.
  intros H. unfold rbtree_firstlast. apply wp_bind, wp_check; [apply check_index|]. unfold rb_fuel, get_root.
  apply wp_bind, wp_bind, wp_get, wp_ret, wp_bind, wp_bind, wp_get, wp_ret. rewrite (rr_root _ _ _ H).
  apply (focus_iff F s [] t) in H. replace d with (negb (negb d)) at 1 by apply negb_involutive.
  eapply firstlast_loop_ok; [by eapply fuel_depth|done].
Qed.

(** [rbtree_nearest] at an insertion point. *)
Lemma rbtree_nearest_ok F s C d index :
  RbFocus F s C RbE → side_ok C index → wp (rbtree_nearest (top C) index (ix d)) (λ r s', s' = s ∧ r = hd 0 (after d C)) s.
Proof.
  intros H Hs. unfold rbtree_nearest. apply wp_bind, wp_check; [apply check_index|].
  destruct C as [|[e c p y] C]; cbn [top f_addr]; [rewrite N.eqb_refl; apply wp_ret; by destruct d|].
  rewrite eqb_false by (by apply (top_nonzero _ _ _ _ H)). cbn in Hs. subst index. apply wp_bind, wp_check; [apply check_index|].
  rewrite after_frame. apply focus_down in H. destruct (decide (e = d)) as [->|He].
  - rewrite Z.eqb_refl. eapply wp_mono; [by eapply rbtree_walk_ok|]. intros r s' [-> ->]. split; [done|]. by destruct d.
  - replace (ix e =? ix d)%Z with false by (by destruct d, e). by apply wp_ret.
Qed.
