(* ===== verification/RbtreeSpec.v ===== *)
(** The red-black trees of kern/rbtree.c as ordered sets of nodes: insertion,
    removal, searches and walks, on runs. *)

From stdpp Require Import sorting.
From S2P Require Import Prelude Rbtree RbtreeInv RbtreeStep RbtreeInsert RbtreeRemove RbtreeWalk.

Open Scope N_scope.

(** ** Positions *)

Lemma locate t a : a ∈ inorder t → ∃ C c l r, t = plug C (RbT c l a r).
Proof.
  induction t as [|c l IHl b r IHr]; cbn; [by intros ?%elem_of_nil|]. intros [H|[->|H]%elem_of_cons]%elem_of_app.
  - destruct (IHl H) as (C & c' & l' & r' & ->). exists (C ++ [Frame false c b r]), c', l', r'. by rewrite plug_app.
  - by exists [], c, l, r.
  - destruct (IHr H) as (C & c' & l' & r' & ->). exists (C ++ [Frame true c b l]), c', l', r'. by rewrite plug_app.
Qed.

Lemma NoDup_split (l1 l2 k1 k2 : list N) a : NoDup (l1 ++ a :: l2) → l1 ++ a :: l2 = k1 ++ a :: k2 → l1 = k1 ∧ l2 = k2.
Proof.
  revert k1. induction l1 as [|x l1 IH]; intros k1 Hn E; destruct k1 as [|y k1]; cbn in *.
  - by injection E as ->.
  - injection E as <- ->. apply list.NoDup_cons in Hn as [[]%not_elem_of_app _]. set_solver.
  - injection E as -> _. apply list.NoDup_cons in Hn as [[]%not_elem_of_app _]. set_solver.
  - injection E as <- E. apply list.NoDup_cons in Hn as [_ Hn]. by destruct (IH k1 Hn E) as [-> ->].
Qed.

(** The position of a node, from its place in the order. *)
Lemma tree_at F l1 a l2 s :
  rb_tree F (l1 ++ a :: l2) s → ∃ C c l r, RbFocus F s C (RbT c l a r) ∧ rb_ok (plug C (RbT c l a r)) ∧
    l1 = pre C ++ inorder l ∧ l2 = inorder r ++ post C.
Proof.
  intros (t & Ht & Hok & Hin). destruct (locate t a) as (C & c & l & r & ->); [rewrite Hin; set_solver|].
  exists C, c, l, r. rewrite inorder_plug in Hin. cbn in Hin. pose proof (rr_nodup _ _ _ Ht) as Hn. rewrite inorder_plug in Hn. cbn in Hn.
  rewrite <- !app_assoc, app_assoc in Hin, Hn. cbn in Hin, Hn. destruct (NoDup_split _ _ _ _ _ Hn Hin) as [E1 E2].
  split_and!; [by rewrite <- focus_iff|done|done|done].
Qed.

(** ** Insertion and removal *)

(** The search for an insertion point. *)
Lemma insertion_point cmp F s t index :
  RbRep F s t → monotone cmp (inorder t) → found cmp (inorder t) = None →
  ∃ C i, slot_loop cmp (S (S (size (rb_nodes s)))) 0 index (rb_root s) s = Some (0, top C, i, s) ∧
    side_ok C i ∧ (C = [] → i = index) ∧ point cmp t C.
Proof.
  intros H Hm Hf. rewrite (rr_root _ _ _ H). apply (focus_iff F s [] t) in H.
  destruct (proj1 (wp_run _ _ _) (slot_loop_ok cmp _ F s [] t index (fuel_depth _ _ _ _ H) H I Hm (Forall_nil_2 _) (Forall_nil_2 _)))
    as ([[cur prev] i] & s' & Hrun & -> & Hres). rewrite Hf in Hres. destruct Hres as (-> & C & -> & Hs & Hi & Hpt). by exists C, i.
Qed.

Lemma rbtree_insert_run cmp F s t node n :
  RbRep F s t → rb_ok t → monotone cmp (inorder t) → found cmp (inorder t) = None →
  good node → F !! node = Some n → node ∉ inorder t →
  ∃ C s', point cmp t C ∧ rbtree_insert cmp node s = Some (tt, s') ∧ rb_tree F (pre C ++ node :: post C) s'.
Proof.
  intros H Hok Hm Hf Hgood Hn Hnin. destruct (insertion_point cmp F s t (-1)%Z H Hm Hf) as (C & i & Hrun & Hs & _ & Hpt).
  apply point_slot_loop in Hrun. exists C. pose proof (pt_tree _ _ _ Hpt) as <-.
  apply focus_iff in H. destruct (proj1 (wp_run _ _ _) (rbtree_insert_rebalance_ok F s C i node n H Hok Hs Hn Hgood ltac:(by rewrite plug_perm in Hnin)))
    as ([] & s' & Hins & Hs'). exists s'. split_and!; [done| |done].
  unfold rbtree_insert, mbind, M_bind. cbn [rb_fuel get_root mbind M_bind get mret M_ret]. 
  change (rb_fuel s) with (Some (S (S (size (rb_nodes s))), s)). cbn iota beta. change (get_root s) with (Some (rb_root s, s)). cbn iota beta.
  by rewrite Hrun.
Qed.

(** A node compares with the nodes of a sorted tree in a monotone way. *)
Lemma sorted_monotone (cmp : N → N → Z) node l :
  (∀ a b c, (cmp a b < 0 → cmp b c < 0 → cmp a c < 0)%Z) → StronglySorted (λ a b, (cmp a b < 0)%Z) l → (∀ a, a ∈ l → cmp node a ≠ 0%Z) →
  monotone (cmp node) l.
Proof.
  intros Htrans. induction 1 as [|a l Hs IH Ha]; intros Hne; [constructor|]. constructor; [apply IH; set_solver|].
  apply list.Forall_forall. intros b Hb Hle. specialize (Hne a ltac:(set_solver)) as Hna. rewrite list.Forall_forall in Ha.
  apply (Htrans _ a); [lia|by apply Ha].
Qed.

Lemma sorted_insert (cmp : N → N → Z) node l1 l2 :
  (∀ a b, (cmp a b < 0 ↔ 0 < cmp b a)%Z) → StronglySorted (λ a b, (cmp a b < 0)%Z) (l1 ++ l2) →
  Forall (λ x, 0 < cmp node x)%Z l1 → Forall (λ x, cmp node x < 0)%Z l2 → StronglySorted (λ a b, (cmp a b < 0)%Z) (l1 ++ node :: l2).
Proof.
  intros Hanti (H12 & H1 & H2)%StronglySorted_app Hl1 Hl2. apply StronglySorted_app. split_and!; [|done|by constructor].
  intros x y Hx [->|Hy]%elem_of_cons; [|by apply H12]. rewrite list.Forall_forall in Hl1. apply Hanti. by apply Hl1.
Qed.

(** Insertion into a sorted tree. *)
Lemma insert_sorted_run (cmp : N → N → Z) F s l node n :
  (∀ a b, (cmp a b < 0 ↔ 0 < cmp b a)%Z) → (∀ a b c, (cmp a b < 0 → cmp b c < 0 → cmp a c < 0)%Z) →
  rb_tree F l s → StronglySorted (λ a b, (cmp a b < 0)%Z) l →
  good node → F !! node = Some n → node ∉ l → (∀ a, a ∈ l → cmp node a ≠ 0%Z) →
  ∃ s' l1 l2, rbtree_insert (cmp node) node s = Some (tt, s') ∧ l = l1 ++ l2 ∧
    rb_tree F (l1 ++ node :: l2) s' ∧ StronglySorted (λ a b, (cmp a b < 0)%Z) (l1 ++ node :: l2).
Proof.
  intros Hanti Htrans (t & Ht & Hok & <-) Hsort Hgood Hn Hnin Hne.
  pose proof (sorted_monotone _ _ _ Htrans Hsort Hne) as Hm.
  destruct (rbtree_insert_run (cmp node) F s t node n) as (C & s' & [Htree Hpre Hpost] & Hrun & Hs'); try done.
  { apply found_none, list.Forall_forall, Hne. }
  exists s', (pre C), (post C). assert (inorder t = pre C ++ post C) as E by (by rewrite <- Htree, inorder_plug).
  split_and!; [done|done|done|]. rewrite E in Hsort. by apply sorted_insert.
Qed.

(** C28.  rbtree_insert on a balanced tree sorted by the comparison function: it
    returns, and the tree is again balanced and sorted and has the new node, in
    its place, besides the nodes it had; memory outside of the tree is as
    before.  The comparison function is an order; the node is in memory, aligned,
    not in the tree, and compares equal to none of its nodes, as the macro
    requires. *)
Theorem rbtree_insert_correct (cmp : N → N → Z) F s l node n :
  (∀ a b, (cmp a b < 0 ↔ 0 < cmp b a)%Z) → (∀ a b c, (cmp a b < 0 → cmp b c < 0 → cmp a c < 0)%Z) →
  rb_tree F l s → StronglySorted (λ a b, (cmp a b < 0)%Z) l →
  good node → F !! node = Some n → node ∉ l → (∀ a, a ∈ l → cmp node a ≠ 0%Z) →
  ∃ s' l1 l2, rbtree_insert (cmp node) node s = Some (tt, s') ∧ l = l1 ++ l2 ∧
    rb_tree F (l1 ++ node :: l2) s' ∧ StronglySorted (λ a b, (cmp a b < 0)%Z) (l1 ++ node :: l2).
Proof. apply insert_sorted_run. Qed.

(** Removal. *)
Lemma remove_run F s l1 a l2 :
  rb_tree F (l1 ++ a :: l2) s → ∃ s' n, rbtree_remove a s = Some (tt, s') ∧ rb_tree (<[a := n]> F) (l1 ++ l2) s'.
Proof.
  intros (C & c & l & r & H & Hok & -> & ->)%tree_at.
  destruct (proj1 (wp_run _ _ _) (rbtree_remove_ok _ _ _ _ _ _ _ H Hok)) as ([] & s' & Hrun & n & Hs').
  exists s', n. split; [done|]. by rewrite <- !app_assoc in *.
Qed.

(** C27.  rbtree_remove of a node of a balanced tree returns; the tree is again
    balanced and has the other nodes in their order.  Only the memory of the
    removed node is outside of the tree in addition. *)
Theorem rbtree_remove_correct F s l1 a l2 :
  rb_tree F (l1 ++ a :: l2) s → ∃ s' n, rbtree_remove a s = Some (tt, s') ∧ rb_tree (<[a := n]> F) (l1 ++ l2) s'.
Proof. apply remove_run. Qed.

(** ** Searches *)

(** C30.  rbtree_lookup with a comparison that is monotone along the nodes returns
    the node that compares equal, or NULL when there is none, and changes
    nothing; on [n] nodes it takes at most 2 log2 (n + 1) steps down. *)
Theorem rbtree_lookup_correct cmp F s l :
  rb_tree F l s → monotone cmp l →
  rb_lookup cmp s = Some (default 0 (found cmp l), s) ∧
  lookup_loop cmp (S (2 * Nat.log2 (length l + 1))) (rb_root s) s = Some (default 0 (found cmp l), s).
Proof.
  intros (t & Ht & Hok & <-) Hm.
  assert (∀ fuel, (depth t < fuel)%nat → lookup_loop cmp fuel (rb_root s) s = Some (default 0 (found cmp (inorder t)), s)) as Hl.
  { intros fuel Hf. rewrite (rr_root _ _ _ Ht). apply (focus_iff F s [] t) in Ht.
    by destruct (proj1 (wp_run _ _ _) (lookup_loop_ok cmp fuel F s [] t Hf Ht Hm)) as (r & s' & Hrun & -> & ->). }
  split; [|apply Hl; pose proof (rb_ok_depth t Hok); lia].
  apply (focus_iff F s [] t) in Ht. apply Hl. by eapply fuel_depth.
Qed.

(** The node before ([d = false]) or after a key. *)
Definition neighbour (cmp : N → Z) (d : bool) (l : list N) : N :=
  if d then hd 0 (filter (λ x, (cmp x < 0)%Z) l) else hd 0 (reverse (filter (λ x, (0 < cmp x)%Z) l)).

Lemma filter_all {A} (P : A → Prop) `{!∀ x, Decision (P x)} l : Forall P l → filter P l = l.
Proof. induction 1 as [|x l Hx _ IH]; [done|]. rewrite filter_cons_True by done. by rewrite IH. Qed.
Lemma filter_none {A} (P : A → Prop) `{!∀ x, Decision (P x)} l : Forall (λ x, ¬ P x) l → filter P l = [].
Proof. induction 1 as [|x l Hx _ IH]; [done|]. by rewrite filter_cons_False. Qed.

Lemma point_neighbour cmp d t C : point cmp t C → hd 0 (after d C) = neighbour cmp d (inorder t).
Proof.
  intros [<- Hpre Hpost]. rewrite inorder_plug. cbn [inorder app]. unfold neighbour, after.
  destruct d; rewrite list.filter_app.
  - rewrite (filter_none _ (pre C)), (filter_all _ (post C)) by (done || (eapply list.Forall_impl; [done|]; cbn; lia)). done.
  - rewrite (filter_all _ (pre C)), (filter_none _ (post C)), app_nil_r by (done || (eapply list.Forall_impl; [done|]; cbn; lia)). done.
Qed.

(** Searches for the nearest node. *)
Lemma nearest_run cmp d F s l :
  rb_tree F l s → monotone cmp l → rb_lookup_nearest cmp (ix d) s = Some (default (neighbour cmp d l) (found cmp l), s).
Proof.
  intros (t & Ht & Hok & <-) Hm. unfold rb_lookup_nearest, mbind, M_bind.
  change (rb_fuel s) with (Some (S (S (size (rb_nodes s))), s)). cbn iota beta. change (get_root s) with (Some (rb_root s, s)). cbn iota beta.
  pose proof (proj1 (focus_iff F s [] t) Ht) as H. destruct (found cmp (inorder t)) as [a|] eqn:Hf.
  - rewrite (rr_root _ _ _ Ht).
    destruct (proj1 (wp_run _ _ _) (slot_loop_ok cmp _ F s [] t (-1)%Z (fuel_depth _ _ _ _ H) H I Hm (Forall_nil_2 _) (Forall_nil_2 _)))
      as ([[cur prev] i] & s' & Hrun & -> & Hres). change (top []) with 0 in Hrun. rewrite Hrun. cbn iota beta. rewrite Hf in Hres. subst cur.
    rewrite eqb_false; [done|]. intros ->. unfold found in Hf. apply List.find_some in Hf as [Hin _].
    pose proof (rr_good _ _ _ Ht) as Hg. rewrite list.Forall_forall in Hg. apply list_elem_of_In, Hg in Hin as [? _]. done.
  - destruct (insertion_point cmp F s t (-1)%Z Ht Hm Hf) as (C & i & Hrun & Hs & _ & Hpt). rewrite Hrun. cbn iota beta. rewrite N.eqb_refl.
    rewrite <- (pt_tree _ _ _ Hpt) in Ht. apply focus_iff in Ht.
    destruct (proj1 (wp_run _ _ _) (rbtree_nearest_ok F s C d i Ht Hs)) as (r & s' & Hr & -> & ->). rewrite Hr. by rewrite (point_neighbour _ _ _ _ Hpt).
Qed.

(** C31.  rbtree_lookup_nearest returns the node that compares equal, and if there
    is none the first node above the key or the last one below it, as the
    direction asks, or NULL. *)
Theorem rbtree_lookup_nearest_correct cmp d F s l :
  rb_tree F l s → monotone cmp l → rb_lookup_nearest cmp (ix d) s = Some (default (neighbour cmp d l) (found cmp l), s).
Proof. apply nearest_run. Qed.

Lemma slot_of C i : Forall good (caddrs C) → side_ok C i → (C = [] → i = 0%Z) →
  ∃ slot, (∀ s, rbtree_slot (top C) i s = Some (slot, s)) ∧ rbtree_slot_parent slot = top C ∧ rbtree_slot_index slot = i.
Proof.
  intros Hg Hs Hi. pose proof (top_aligned C Hg) as Hal. assert (∃ e, i = ix e) as [e ->].
  { destruct C as [|f C]; [exists false; by apply Hi|]. by exists (f_side f). }
  exists (N.lor (top C) (Z.to_N (ix e))). split_and!.
  - intros s. unfold rbtree_slot, mbind, M_bind, check. rewrite Hal, check_index. done.
  - destruct (rb_aligned_bits _ Hal) as [H0 _]. unfold rbtree_slot_parent, RBTREE_SLOT_INDEX_MASK. apply N.bits_inj. intros j.
    rewrite N.ldiff_spec, N.lor_spec. destruct (decide (j = 0)) as [->|Hj]; [by rewrite H0, andb_false_r|].
    rewrite (N.bits_above_log2 1 j) by (cbn; lia). replace (N.testbit (Z.to_N (ix e)) j) with false; [by rewrite orb_false_r, andb_true_r|].
    symmetry. destruct e; [apply N.bits_above_log2; cbn; lia|apply N.bits_0].
  - destruct (rb_aligned_bits _ Hal) as [H0 _]. unfold rbtree_slot_index, RBTREE_SLOT_INDEX_MASK. rewrite land_1, N.lor_spec, H0. by destruct e.
Qed.

(** The first index matters in an empty tree only. *)
Lemma slot_loop_index cmp fuel prev i1 i2 cur s p i s' :
  slot_loop cmp fuel prev i1 cur s = Some (0, p, i, s') → cur ≠ 0 → slot_loop cmp fuel prev i2 cur s = Some (0, p, i, s').
Proof.
  destruct fuel as [|fuel]; [done|]. cbn [slot_loop]. intros H Hc. rewrite eqb_false in * by done. cbv zeta in *.
  by destruct (cmp cur =? 0)%Z; [injection H as ? _ _ _|].
Qed.

(** When rbtree_lookup_slot finds no entry, rbtree_insert_slot at the slot it
    returns is the same as rbtree_insert: the second search is saved. *)
Theorem rbtree_insert_slot_equiv cmp F s l node :
  rb_tree F l s → monotone cmp l → found cmp l = None →
  ∃ slot, rb_lookup_slot cmp s = Some (0, slot, s) ∧ rbtree_insert_slot slot node s = rbtree_insert cmp node s.
Proof.
  intros (t & Ht & Hok & <-) Hm Hf. destruct (insertion_point cmp F s t 0%Z Ht Hm Hf) as (C & i & Hrun & Hs & Hi & Hpt).
  pose proof Ht as Ht'. rewrite <- (pt_tree _ _ _ Hpt) in Ht'. apply focus_iff in Ht'.
  destruct (slot_of C i) as (slot & Hslot & Hsp & Hsi); [apply (rf_good _ _ _ _ Ht')|done|done|]. exists slot. split.
  - unfold rb_lookup_slot, mbind, M_bind. change (rb_fuel s) with (Some (S (S (size (rb_nodes s))), s)). cbn iota beta.
    change (get_root s) with (Some (rb_root s, s)). cbn iota beta. rewrite Hrun. cbn iota beta. by rewrite Hslot.
  - unfold rbtree_insert_slot. rewrite Hsp, Hsi. unfold rbtree_insert, mbind, M_bind.
    change (rb_fuel s) with (Some (S (S (size (rb_nodes s))), s)). cbn iota beta. change (get_root s) with (Some (rb_root s, s)). cbn iota beta.
    destruct (decide (rb_root s = 0)) as [E|E].
    + rewrite E in *. cbn [slot_loop] in Hrun. rewrite N.eqb_refl in Hrun. injection Hrun as <- <-.
      cbn [point_loop]. rewrite N.eqb_refl. done.
    + apply (slot_loop_index _ _ _ _ (-1)%Z) in Hrun; [|done]. apply point_slot_loop in Hrun. by rewrite Hrun.
Qed.

(** ** Walks *)

(** C32.  rbtree_first and rbtree_last return the first and the last node, and
    rbtree_next and rbtree_prev the neighbours of a node in the order, NULL at the
    ends; nothing changes. *)
Theorem rbtree_walk_correct F s l :
  rb_tree F l s →
  rbtree_firstlast RBTREE_LEFT s = Some (hd 0 l, s) ∧ rbtree_firstlast RBTREE_RIGHT s = Some (hd 0 (reverse l), s) ∧
  ∀ l1 a l2, l = l1 ++ a :: l2 →
    rbtree_walk a RBTREE_RIGHT s = Some (hd 0 l2, s) ∧ rbtree_walk a RBTREE_LEFT s = Some (hd 0 (reverse l1), s).
Proof.
  intros H. pose proof H as (t & Ht & _ & Hin). split_and!.
  - destruct (proj1 (wp_run _ _ _) (rbtree_firstlast_ok F s t false Ht)) as (r & s' & Hr & -> & ->). by rewrite <- Hin.
  - destruct (proj1 (wp_run _ _ _) (rbtree_firstlast_ok F s t true Ht)) as (r & s' & Hr & -> & ->). by rewrite <- Hin.
  - intros l1 a l2 ->. apply tree_at in H as (C & c & x & y & H & _ & -> & ->). split.
    + change (RbT c x a y) with (mk true c y a x) in H.
      by destruct (proj1 (wp_run _ _ _) (rbtree_walk_ok _ _ _ _ _ _ _ _ H)) as (r & s' & Hr & -> & ->).
    + change (RbT c x a y) with (mk false c x a y) in H.
      destruct (proj1 (wp_run _ _ _) (rbtree_walk_ok _ _ _ _ _ _ _ _ H)) as (r & s' & Hr & -> & ->). by rewrite reverse_app.
Qed.

(** ** A tree of three nodes, and a node besides *)

Definition demo_rb : rbstore :=
  RbStore 8 (list_to_map [(4, RbNode 8 0 0); (8, RbNode 1 4 12); (12, RbNode 8 0 0); (16, RbNode 16 0 0)]).
Definition demo_rbt : rbt := RbT Black (RbT Red RbE 4 RbE) 8 (RbT Red RbE 12 RbE).
Definition demo_cmp (a b : N) : Z := (Z.of_N a - Z.of_N b)%Z.

Lemma demo_rb_rep : RbRep (rb_nodes demo_rb) demo_rb demo_rbt.
Proof.
  split; [by apply (bool_decide_unpack _)|repeat constructor; done|done|done|done].
Qed.
Lemma demo_rb_ok : rb_tree (rb_nodes demo_rb) [4; 8; 12] demo_rb.
Proof. exists demo_rbt. split_and!; [apply demo_rb_rep|split; [done|by exists 1%nat]|done]. Qed.

Lemma demo_sorted : StronglySorted (λ a b, (demo_cmp a b < 0)%Z) [4; 8; 12].
Proof. repeat constructor. Qed.
Lemma demo_monotone k : k ∈ [6; 8; 10; 14] → monotone (demo_cmp k) [4; 8; 12].
Proof. intros Hk. repeat (apply elem_of_cons in Hk as [->|Hk]; [by repeat constructor|]). by apply elem_of_nil in Hk. Qed.

Lemma rbtree_insert_correct_witness :
  ∃ s' l1 l2, rbtree_insert (demo_cmp 16) 16 demo_rb = Some (tt, s') ∧ [4; 8; 12] = l1 ++ l2 ∧
    rb_tree (rb_nodes demo_rb) (l1 ++ 16 :: l2) s' ∧ StronglySorted (λ a b, (demo_cmp a b < 0)%Z) (l1 ++ 16 :: l2).
Proof.
  apply (rbtree_insert_correct demo_cmp (rb_nodes demo_rb) demo_rb [4; 8; 12] 16 (RbNode 16 0 0)).
  - unfold demo_cmp. lia.
  - unfold demo_cmp. lia.
  - apply demo_rb_ok.
  - apply demo_sorted.
  - done.
  - done.
  - by apply (bool_decide_unpack _).
  - intros a Ha. repeat (apply elem_of_cons in Ha as [->|Ha]; [done|]). by apply elem_of_nil in Ha.
Defined.

Lemma rbtree_remove_correct_witness :
  ∃ s' n, rbtree_remove 8 demo_rb = Some (tt, s') ∧ rb_tree (<[8 := n]> (rb_nodes demo_rb)) [4; 12] s'.
Proof. apply (rbtree_remove_correct _ _ [4] 8 [12]), demo_rb_ok. Defined.

Lemma rbtree_lookup_correct_witness : rb_lookup (demo_cmp 8) demo_rb = Some (8, demo_rb).
Proof. apply (rbtree_lookup_correct (demo_cmp 8) _ _ [4; 8; 12] demo_rb_ok), demo_monotone. set_solver. Defined.

Lemma rbtree_lookup_nearest_correct_witness : rb_lookup_nearest (demo_cmp 10) RBTREE_RIGHT demo_rb = Some (12, demo_rb).
Proof. apply (rbtree_lookup_nearest_correct (demo_cmp 10) true _ _ [4; 8; 12] demo_rb_ok), demo_monotone. set_solver. Defined.

Lemma rbtree_insert_slot_equiv_witness :
  ∃ slot, rb_lookup_slot (demo_cmp 14) demo_rb = Some (0, slot, demo_rb) ∧
    rbtree_insert_slot slot 16 demo_rb = rbtree_insert (demo_cmp 14) 16 demo_rb.
Proof. apply (rbtree_insert_slot_equiv _ _ _ [4; 8; 12] _ demo_rb_ok); [apply demo_monotone; set_solver|done]. Defined.

Lemma rbtree_walk_correct_witness : rbtree_walk 8 RBTREE_RIGHT demo_rb = Some (12, demo_rb).
Proof. apply (proj2 (proj2 (rbtree_walk_correct _ _ _ demo_rb_ok)) [4] 8 [12]). reflexivity. Defined.
