(* ===== verification/RbtreeDestroy.v ===== *)
(** The destruction of a red-black tree: [rbtree_for_each_remove] visits the
    nodes in postorder, and its body may free them. *)

From S2P Require Import Prelude Rbtree RbtreeInv RbtreeStep RbtreeInsert RbtreeRemove RbtreeWalk RbtreeSpec.

Open Scope N_scope.

Fixpoint postorder (t : rbt) : list N :=
  match t with RbE => [] | RbT _ l a r => postorder l ++ postorder r ++ [a] end.

(** What comes after a position in postorder. *)
Fixpoint pending (C : ctx) : list N :=
  match C with [] => [] | Frame d _ p y :: C => (if d then [] else postorder y) ++ p :: pending C end.

(** Right subtrees are visited when the left ones are gone. *)
Definition left_done (C : ctx) : Prop := Forall (λ f, f_side f = true → f_sib f = RbE) C.

#[local] Abbreviation leaf c a := (RbT c RbE a RbE).

Lemma deepest_loop_ok fuel F s C t :
  (depth t < fuel)%nat → RbFocus F s C t → t ≠ RbE → left_done C →
  wp (deepest_loop fuel (rbroot t)) (λ a s', s' = s ∧ ∃ C' c, plug C' (leaf c a) = plug C t ∧ left_done C' ∧ a :: pending C' = postorder t ++ pending C) s.
Proof.
  revert C t. induction fuel as [|fuel IH]; intros C t Hf H Ht HC; [lia|]. cbn [deepest_loop].
  destruct t as [|c l a r]; [done|]. cbn [rbroot]. change (RbT c l a r) with (mk false c l a r) in H. cbn in Hf.
  apply wp_bind, (focus_child _ _ _ _ _ _ _ _ _ H). destruct (decide (l = RbE)) as [->|Hl].
  - change (rbroot RbE =? 0) with true. cbn iota. apply wp_bind, (focus_child' _ _ _ _ _ _ _ _ _ H).
    destruct (decide (r = RbE)) as [->|Hr].
    + change (rbroot RbE =? 0) with true. cbn iota. apply wp_ret. split; [done|]. by exists C, c.
    + apply focus_down' in H. rewrite eqb_false by (by apply (root_nonzero _ _ _ _ H)).
      eapply wp_mono; [eapply IH; [lia|done|done|]|]; [by apply list.Forall_cons|].
      intros b s' (-> & C' & c' & Hp & HC' & Hpo). split; [done|]. exists C', c'. split_and!; [done|done|]. rewrite Hpo. cbn. by rewrite <- app_assoc.
  - apply focus_down in H. rewrite eqb_false by (by apply (root_nonzero _ _ _ _ H)).
    eapply wp_mono; [eapply IH; [lia|done|done|]|]; [by apply list.Forall_cons|].
    intros b s' (-> & C' & c' & Hp & HC' & Hpo). split; [done|]. exists C', c'. split_and!; [done|done|]. rewrite Hpo. cbn. by rewrite <- !app_assoc.
Qed.

Lemma find_deepest_ok F s C t :
  RbFocus F s C t → t ≠ RbE → left_done C →
  wp (rbtree_find_deepest (rbroot t)) (λ a s', s' = s ∧ ∃ C' c, RbFocus F s C' (leaf c a) ∧ left_done C' ∧ a :: pending C' = postorder t ++ pending C) s.
Proof.
  intros H Ht HC. unfold rbtree_find_deepest. apply wp_bind, wp_check; [by rewrite eqb_false by (by apply (root_nonzero _ _ _ _ H))|].
  unfold rb_fuel. apply wp_bind, wp_bind, wp_get, wp_ret. eapply wp_mono; [eapply deepest_loop_ok; [by eapply fuel_depth|done..]|].
  intros a s' (-> & C' & c & Hp & HC' & Hpo). split; [done|]. exists C', c. split_and!; [|done|done].
  rewrite <- focus_iff, Hp. by apply focus_iff.
Qed.

(** A leaf is unlinked from its parent. *)
Lemma unlink_leaf F s C d c p y ca a Q :
  RbFocus F s (Frame d c p y :: C) (leaf ca a) →
  (∀ s' n, RbFocus (<[a := n]> F) s' C (mk d c RbE p y) → Q tt s') →
  wp (i ← rbtree_index a p; put_child p i 0) Q s.
Proof.
  intros H HQ. pose proof H as [Hn Hg Hr Hrep Hc Hf]. cbn [inorder app] in Hn, Hg, Hf. cbn in Hrep.
  pose proof (wp_replace_child s (Frame d c p y :: C) a _ 0 ca Q Hc (proj1 Hrep) eq_refl) as Hrc.
  unfold replace_child in Hrc. cbn [top f_addr] in Hrc. rewrite eqb_false in Hrc by (by apply (top_nonzero _ _ _ _ H)).
  apply list.Forall_cons in Hg as [[Ha0 _] Hg]. apply Hrc; [done|done|done|]. intros [r' h'] HC' Hr' Hag. cbn in Hr', Hag, HC'. subst r'.
  eapply HQ. apply focus_down. apply list.NoDup_cons in Hn as [Hna Hn].
  split; cbn [inorder app rb_root rb_nodes]; [done|done|done|done|done|].
  intros v Hv. rewrite Hag by done. destruct (decide (v = a)) as [->|Hva]; [rewrite lookup_insert_eq; apply Hrep|].
  rewrite lookup_insert_ne by done. apply Hf. by apply not_elem_of_cons.
Qed.

Lemma postwalk_unlink_ok F s C c a :
  RbFocus F s C (leaf c a) → left_done C →
  wp (rbtree_postwalk_unlink a)
    (λ b s', match C with
             | [] => b = 0 ∧ s' = s
             | _ => ∃ n C' c', RbFocus (<[a := n]> F) s' C' (leaf c' b) ∧ left_done C' ∧ b :: pending C' = pending C
             end) s.
Proof.
  intros H HC. unfold rbtree_postwalk_unlink. change (leaf c a) with (mk false c RbE a RbE) in H.
  destruct (focus_node _ _ _ _ _ _ _ _ H) as (_ & _ & Ha0 & _). rewrite eqb_false by done.
  apply wp_bind, (focus_child _ _ _ _ _ _ _ _ _ H). apply wp_bind, wp_check; [done|].
  apply wp_bind, (focus_child' _ _ _ _ _ _ _ _ _ H). apply wp_bind, wp_check; [done|].
  apply wp_bind, (focus_parent _ _ _ _ _ _ _ _ _ H). destruct C as [|[d cp p y] C]; cbn [top f_addr]; [by apply wp_ret|].
  rewrite eqb_false by (by apply (top_nonzero _ _ _ _ H)). apply list.Forall_cons in HC as [Hd HC]. cbn in Hd.
  assert (∀ (k : M rbstore N) Q, wp (i ← rbtree_index a p; put_child p i 0) (λ _, wp k Q) s → wp (i ← rbtree_index a p; put_child p i 0;; k) Q s) as Hassoc.
  { intros k Q Hk. apply wp_bind_inv in Hk. apply wp_bind. eapply wp_mono; [exact Hk|]. intros i s' Hi. by apply wp_bind. }
  apply Hassoc, (unlink_leaf _ _ _ _ _ _ _ _ _ _ H). intros s1 n H1. change RBTREE_RIGHT with (ix true). destruct d.
  - rewrite (Hd eq_refl) in *. apply wp_bind, (focus_child _ _ _ _ _ _ _ _ _ H1). change (rbroot RbE =? 0) with true. cbn iota.
    apply wp_ret. by exists n, C, cp.
  - apply wp_bind, (focus_child' _ _ _ _ _ _ _ _ _ H1). destruct (decide (y = RbE)) as [->|Hy].
    + change (rbroot RbE =? 0) with true. cbn iota. apply wp_ret. by exists n, C, cp.
    + pose proof (proj1 (focus_down' _ _ _ _ _ _ _ _) H1) as H2. rewrite eqb_false by (by apply (root_nonzero _ _ _ _ H2)).
      eapply wp_mono; [eapply find_deepest_ok; [exact H2|done|by apply list.Forall_cons]|].
      intros b s' (-> & C' & c' & H' & HC' & Hpo). exists n, C', c'. split_and!; [done|done|]. rewrite Hpo. done.
Qed.

Lemma postorder_perm t : postorder t ≡ₚ inorder t.
Proof. induction t as [|c l IHl a r IHr]; cbn; [done|]. rewrite IHl, IHr. solve_Permutation. Qed.

Lemma pending_perm C : left_done C → pending C ≡ₚ caddrs C.
Proof.
  induction 1 as [|[d c a y] C Hd _ IH]; cbn in *; [done|]. rewrite IH. destruct d.
  - by rewrite (Hd eq_refl).
  - rewrite postorder_perm. solve_Permutation.
Qed.

(** ** The loop *)

(** The nodes [rest], from [tmp] on, are to be visited after [node], which is
    unlinked; other memory is as in [F]. *)
Inductive remains (F : gmap N rbtree_node) (node : N) (s : rbstore) : N → list N → Prop :=
  | remains_none : (∀ v, v ≠ node → rb_nodes s !! v = F !! v) → remains F node s 0 []
  | remains_some F' C c tmp :
      RbFocus F' s C (leaf c tmp) → left_done C → node ∉ tmp :: caddrs C → (∀ v, v ≠ node → F' !! v = F !! v) →
      remains F node s tmp (tmp :: pending C).

(** The visited node is freed. *)
Lemma focus_delete F s C t node :
  RbFocus F s C t → node ∉ inorder t ++ caddrs C → RbFocus (delete node F) (RbStore (rb_root s) (delete node (rb_nodes s))) C t.
Proof.
  intros [Hn Hg Hr Hrep Hc Hf] Hnode. assert (∀ v, v ∈ inorder t ++ caddrs C → delete node (rb_nodes s) !! v = rb_nodes s !! v) as Hag.
  { intros v Hv. apply lookup_delete_ne. by intros ->. }
  split; cbn; try done.
  - eapply Rep_agree; [|done]. intros v Hv. apply Hag. set_solver.
  - eapply RepC_agree; [|done]. intros v Hv. apply Hag. set_solver.
  - intros v Hv. destruct (decide (v = node)) as [->|Hvn]; [by rewrite !lookup_delete_eq|]. rewrite !lookup_delete_ne by done. by apply Hf.
Qed.

Lemma remains_start F s C c a b s1 :
  RbFocus F s C (leaf c a) → left_done C →
  match C with
  | [] => b = 0 ∧ s1 = s
  | _ => ∃ n C' c', RbFocus (<[a := n]> F) s1 C' (leaf c' b) ∧ left_done C' ∧ b :: pending C' = pending C
  end → remains F a s1 b (pending C).
Proof.
  intros H HC Hb. pose proof (rf_nodup _ _ _ _ H) as Hn. destruct C as [|f C].
  - destruct Hb as [-> ->]. constructor. intros v Hv. apply (rf_frame _ _ _ _ H). cbn. set_solver.
  - destruct Hb as (n & C' & c' & H' & HC' & Hpo). rewrite <- Hpo. econstructor; [exact H'|done| |].
    + rewrite <- pending_perm by done. rewrite Hpo, pending_perm by done. by apply list.NoDup_cons in Hn as [? _].
    + intros v Hv. by rewrite lookup_insert_ne by done.
Qed.

(** The next step of the loop: [tmp] becomes the node to visit. *)
Lemma remains_step F node s tmp rest :
  remains F node s tmp rest → rest ≠ [] →
  wp (rbtree_postwalk_unlink tmp) (λ tmp' s', tmp ≠ 0 ∧ remains (delete node F) tmp s' tmp' (tail rest) ∧ hd 0 rest = tmp)
    (RbStore (rb_root s) (delete node (rb_nodes s))).
Proof.
  intros Hrem Hne. destruct Hrem as [|F' C c tmp H HC Hnode HF]; [done|]. apply (focus_delete _ _ _ _ node) in H; [|by cbn].
  pose proof (root_nonzero _ _ _ _ H ltac:(done)) as H0. pose proof (rf_nodup _ _ _ _ H) as Hn.
  assert (∀ v, delete node F' !! v = delete node F !! v) as HFd.
  { intros v. destruct (decide (v = node)) as [->|Hv]; [by rewrite !lookup_delete_eq|]. rewrite !lookup_delete_ne by done. by apply HF. }
  eapply wp_mono; [by apply (postwalk_unlink_ok _ _ _ _ _ H)|]. intros b s' Hb. split_and!; [done| |done]. cbn [tail].
  apply map_eq in HFd. rewrite <- HFd. by eapply remains_start.
Qed.

Lemma remove_loop_visits fuel F node s tmp rest :
  (S (length rest) < fuel)%nat → remains F node s tmp rest → node ≠ 0 →
  wp (for_each_remove_loop fuel node tmp)
    (λ l s', l = node :: rest ∧ ∀ v, rb_nodes s' !! v = if decide (v ∈ node :: rest) then None else F !! v) s.
Proof.
  revert F node s tmp rest. induction fuel as [|fuel IH]; intros F node s tmp rest Hf Hrem H0; [lia|]. cbn [for_each_remove_loop].
  rewrite eqb_false by done. apply wp_bind, wp_modify. destruct (decide (rest = [])) as [->|Hne].
  - inversion Hrem as [Hs|]; subst. apply wp_bind. unfold rbtree_postwalk_unlink. cbn [N.eqb]. apply wp_ret.
    destruct fuel as [|fuel]; [cbn in Hf; lia|]. cbn [for_each_remove_loop N.eqb]. apply wp_bind, wp_ret, wp_ret. split; [done|].
    intros v. cbn. destruct (decide (v = node)) as [->|Hv].
    + rewrite lookup_delete_eq. by rewrite decide_True by set_solver.
    + rewrite lookup_delete_ne by done. rewrite decide_False by set_solver. by apply Hs.
  - apply wp_bind. eapply wp_mono; [by eapply remains_step|]. intros tmp' s1 (Ht0 & Hrem' & Hhd).
    destruct rest as [|x rest]; [done|]. cbn in Hhd, Hrem', Hf. subst x. apply wp_bind. eapply wp_mono; [eapply (IH _ _ _ _ rest); [lia|done|done]|].
    intros l s2 (-> & Hs2). apply wp_ret. split; [done|]. intros v. rewrite Hs2. destruct (decide (v = node)) as [->|Hv].
    + rewrite lookup_delete_eq. destruct (decide (node ∈ node :: tmp :: rest)) as [|[]]; [by case_decide|set_solver].
    + rewrite lookup_delete_ne by done. destruct (decide (v ∈ tmp :: rest)); [rewrite decide_True by set_solver|rewrite decide_False by set_solver]; done.
Qed.

(** C29.  rbtree_for_each_remove, with a body that frees each node it is given,
    returns: it visits every node of the tree exactly once, children before
    their parents, never touches a node after its visit, and leaves the rest of
    the memory alone. *)
Theorem rbtree_for_each_remove_correct F s t :
  RbRep F s t →
  ∃ s', rbtree_for_each_remove s = Some (postorder t, s') ∧ postorder t ≡ₚ inorder t ∧
    ∀ v, rb_nodes s' !! v = if decide (v ∈ inorder t) then None else F !! v.
Proof.
  intros Ht. pose proof (proj1 (focus_iff F s [] t) Ht) as H.
  assert (wp rbtree_for_each_remove (λ l s', l = postorder t ∧ ∀ v, rb_nodes s' !! v = if decide (v ∈ postorder t) then None else F !! v) s) as Hwp.
  { unfold rbtree_for_each_remove, rb_fuel. apply wp_bind, wp_bind, wp_get, wp_ret, wp_bind. unfold rbtree_postwalk_deepest, get_root.
    apply wp_bind, wp_bind, wp_get, wp_ret. rewrite (rr_root _ _ _ Ht). destruct (decide (t = RbE)) as [->|Hte].
    { cbn [rbroot N.eqb]. apply wp_ret, wp_bind. unfold rbtree_postwalk_unlink. cbn [N.eqb]. apply wp_ret. cbn [for_each_remove_loop N.eqb].
      apply wp_ret. split; [done|]. intros v. cbn. apply (rr_frame _ _ _ Ht). apply not_elem_of_nil. }
    rewrite eqb_false by (by apply (root_nonzero _ _ _ _ H)). eapply wp_mono; [eapply (find_deepest_ok _ _ [] t); [done|done|constructor]|].
    intros a s' (-> & C & c & H' & HC & Hpo). cbn in Hpo. rewrite app_nil_r in Hpo. apply wp_bind. eapply wp_mono; [by apply (postwalk_unlink_ok _ _ _ _ _ H')|].
    intros b s1 Hb. rewrite <- Hpo. eapply remove_loop_visits; [|by eapply remains_start|by apply (root_nonzero _ _ _ _ H')].
    pose proof (size_nodes _ _ _ _ H') as Hsz. rewrite <- pending_perm in Hsz by done. cbn in Hsz. lia. }
  destruct (proj1 (wp_run _ _ _) Hwp) as (l & s' & Hrun & -> & Hs'). exists s'. split_and!; [done|apply postorder_perm|].
  intros v. rewrite Hs'. apply decide_ext. by rewrite postorder_perm.
Qed.

Lemma rbtree_for_each_remove_correct_witness :
  ∃ s', rbtree_for_each_remove demo_rb = Some ([4; 12; 8], s') ∧ [4; 12; 8] ≡ₚ [4; 8; 12] ∧
    ∀ v, rb_nodes s' !! v = if decide (v ∈ [4; 8; 12]) then None else rb_nodes demo_rb !! v.
Proof. exact (rbtree_for_each_remove_correct _ _ _ demo_rb_rep). Defined.
