(* ===== verification/Slab.v ===== *)
(** The slab allocator of kern/slab.c: caches of objects of one size, carved out
    of slabs of pages, and the general allocator [kalloc] on top of them.

    A cache finds the slab of a buffer in one of three ways: the descriptor is at
    the end of the one page of the slab, or the page points to it, or it is in a
    red-black tree of slabs ordered by address (kern/rbtree.c, modelled in
    [Rbtree]).  Free buffers of a slab are linked through words inside of them.

    The configuration is that of the build: no CPU pools and no debugging mode
    ([SLAB_USE_CPU_POOLS] and [SLAB_VERIFY] are 0, and no cache is initialised
    with [KMEM_CACHE_VERIFY]).  The lists of slabs are lists of addresses.  Counters
    are of the size of an address and count what is in memory, so that they do
    not wrap. *)

From S2P Require Import Prelude Rbtree.

Open Scope N_scope.

(** ** Constants *)

Abbreviation KMEM_ALIGN_MIN := 8.
Abbreviation KMEM_BUF_SIZE_THRESHOLD := (PAGE_SIZE / 8).
Abbreviation KALLOC_FIRST_SHIFT := 5.
Abbreviation KALLOC_NR_CACHES := 13%nat.
Abbreviation KMEM_CF_SLAB_EXTERNAL := 0x01.
Abbreviation KMEM_CF_PHYSMEM := 0x02.
Abbreviation KMEM_CF_DIRECT := 0x04.
Abbreviation KMEM_CF_USE_TREE := 0x08.
Abbreviation KMEM_CF_USE_PAGE := 0x10.
Abbreviation KMEM_CACHE_NOOFFSLAB := 0x1.
Abbreviation KMEM_CACHE_PHYSMEM := 0x2.
Abbreviation KMEM_CACHE_VERIFY := 0x4.
(** Sizes of the structures on a 64-bit machine, and the place of the tree node
    in a slab descriptor. *)
Abbreviation sizeof_kmem_bufctl := 8.
Abbreviation sizeof_kmem_slab := 72.
Abbreviation offsetof_tree_node := 24.

(** ** Alignment *)

(** [-x] and [~x] on [unsigned long]. *)
Definition u64_neg (x : N) : N := u64_sub 0 x.
Definition u64_not (x : N) : N := N.lxor (u64 x) (N.ones 64).
Definition P2ALIGNED (x a : N) : bool := N.land x (u64_sub a 1) =? 0.
Definition ISP2 (x : N) : bool := P2ALIGNED x x.
Definition P2ALIGN (x a : N) : N := N.land x (u64_neg a).
Definition P2ROUND (x a : N) : N := u64_neg (N.land (u64_neg x) (u64_neg a)).
Definition P2END (x a : N) : N := u64_neg (N.land (u64_not x) (u64_neg a)).

(** ** Pages *)

(** The pages behind the slabs: [vm_page_grab], repeated after [VM_PAGE_WAIT] until
    there is a page ([None] if there never is one, and the thread waits for ever),
    [vm_page_release], and [kmem_alloc_wired], [kmem_alloc_aligned] and
    [kmem_free] on the kernel map.  [pg_live] has the address and the size of
    what was handed out; it is aligned on pages, in the address space, and shares
    no byte with anything else handed out. *)
Definition fits (live : gmap N N) (a size : N) : Prop :=
  a ≠ 0 ∧ a mod PAGE_SIZE = 0 ∧ a + size < 2 ^ 64 ∧ ∀ b s, live !! b = Some s → a + size ≤ b ∨ b + s ≤ a.

Class PageSource (P : Type) := {
  kernel_virtual_start : N;
  kernel_virtual_end : N;
  page_grab : P → option (N * P);
  page_release : P → N → P;
  kmem_alloc_wired : P → N → option N * P;
  kmem_alloc_aligned : P → N → option N * P;
  kmem_free : P → N → N → P;
  pg_live : P → gmap N N;
  page_grab_law p a p' : page_grab p = Some (a, p') → fits (pg_live p) a PAGE_SIZE ∧ pg_live p' = <[a := PAGE_SIZE]> (pg_live p);
  page_release_law p a : pg_live p !! a = Some PAGE_SIZE → pg_live (page_release p a) = delete a (pg_live p);
  alloc_wired_law p size r p' : kmem_alloc_wired p size = (r, p') →
    match r with
    | Some a => fits (pg_live p) a size ∧ kernel_virtual_start ≤ a ∧ a + size ≤ kernel_virtual_end ∧ pg_live p' = <[a := size]> (pg_live p)
    | None => pg_live p' = pg_live p
    end;
  alloc_aligned_law p size r p' : kmem_alloc_aligned p size = (r, p') →
    match r with
    | Some a => fits (pg_live p) a size ∧ kernel_virtual_start ≤ a ∧ a + size ≤ kernel_virtual_end ∧ pg_live p' = <[a := size]> (pg_live p)
    | None => pg_live p' = pg_live p
    end;
  kmem_free_law p a size : pg_live p !! a = Some size → pg_live (kmem_free p a size) = delete a (pg_live p);
}.

(** ** Data *)

(** A descriptor; the node in the tree is kept in the memory of tree nodes. *)
Record kmem_slab := KSlab {
  slab_cache : N;
  slab_nr_refs : N;
  slab_first_free : N;
  slab_addr : N;
}.

(** The part of a cache that does not change once it is initialised.  A
    constructor is what it does to memory. *)
Record kmem_layout := KLayout {
  flags : N;
  bufctl_dist : N;
  slab_size : N;
  bufs_per_slab : N;
  ctor : option (N → gmap N N → gmap N N);
  obj_size : N;
  align : N;
  buf_size : N;
  color_max : N;
}.

Record kmem_cache := KCache {
  kc_layout : kmem_layout;
  partial_slabs : list N;
  free_slabs : list N;
  active_slabs : N;
  nr_objs : N;
  nr_free_slabs : N;
  color : N;
  nr_bufs : N;
  nr_slabs : N;
}.

(** The caches, the descriptors of slabs and their tree nodes, the words in
    buffers, the private data of pages, the list of all caches, and the pages. *)
Record slab_state (P : Type) := SlabState {
  ss_caches : gmap N kmem_cache;
  ss_slabs : gmap N kmem_slab;
  ss_nodes : gmap N rbtree_node;
  ss_mem : gmap N N;
  ss_priv : gmap N N;
  kmem_cache_list : list N;
  kmem_gc_last_tick : N;
  ss_pages : P;
}.
Arguments SlabState {P} _ _ _ _ _ _ _ _.
Arguments ss_caches {P} _.
Arguments ss_slabs {P} _.
Arguments ss_nodes {P} _.
Arguments ss_mem {P} _.
Arguments ss_priv {P} _.
Arguments kmem_cache_list {P} _.
Arguments kmem_gc_last_tick {P} _.
Arguments ss_pages {P} _.

Definition set_slab_nr_refs (v : N) (r : kmem_slab) : kmem_slab :=
  KSlab (slab_cache r) v (slab_first_free r) (slab_addr r).
Definition set_slab_first_free (v : N) (r : kmem_slab) : kmem_slab :=
  KSlab (slab_cache r) (slab_nr_refs r) v (slab_addr r).
Definition set_partial_slabs (v : list N) (r : kmem_cache) : kmem_cache :=
  KCache (kc_layout r) v (free_slabs r) (active_slabs r) (nr_objs r) (nr_free_slabs r) (color r) (nr_bufs r) (nr_slabs r).
Definition set_free_slabs (v : list N) (r : kmem_cache) : kmem_cache :=
  KCache (kc_layout r) (partial_slabs r) v (active_slabs r) (nr_objs r) (nr_free_slabs r) (color r) (nr_bufs r) (nr_slabs r).
Definition set_active_slabs (v : N) (r : kmem_cache) : kmem_cache :=
  KCache (kc_layout r) (partial_slabs r) (free_slabs r) v (nr_objs r) (nr_free_slabs r) (color r) (nr_bufs r) (nr_slabs r).
Definition set_nr_objs (v : N) (r : kmem_cache) : kmem_cache :=
  KCache (kc_layout r) (partial_slabs r) (free_slabs r) (active_slabs r) v (nr_free_slabs r) (color r) (nr_bufs r) (nr_slabs r).
Definition set_nr_free_slabs (v : N) (r : kmem_cache) : kmem_cache :=
  KCache (kc_layout r) (partial_slabs r) (free_slabs r) (active_slabs r) (nr_objs r) v (color r) (nr_bufs r) (nr_slabs r).
Definition set_color (v : N) (r : kmem_cache) : kmem_cache :=
  KCache (kc_layout r) (partial_slabs r) (free_slabs r) (active_slabs r) (nr_objs r) (nr_free_slabs r) v (nr_bufs r) (nr_slabs r).
Definition set_nr_bufs (v : N) (r : kmem_cache) : kmem_cache :=
  KCache (kc_layout r) (partial_slabs r) (free_slabs r) (active_slabs r) (nr_objs r) (nr_free_slabs r) (color r) v (nr_slabs r).
Definition set_nr_slabs (v : N) (r : kmem_cache) : kmem_cache :=
  KCache (kc_layout r) (partial_slabs r) (free_slabs r) (active_slabs r) (nr_objs r) (nr_free_slabs r) (color r) (nr_bufs r) v.

Section Slab.
Context {P : Type} `{!PageSource P}.

Definition set_ss_caches (v : gmap N kmem_cache) (r : slab_state P) : slab_state P :=
  SlabState v (ss_slabs r) (ss_nodes r) (ss_mem r) (ss_priv r) (kmem_cache_list r) (kmem_gc_last_tick r) (ss_pages r).
Definition set_ss_slabs (v : gmap N kmem_slab) (r : slab_state P) : slab_state P :=
  SlabState (ss_caches r) v (ss_nodes r) (ss_mem r) (ss_priv r) (kmem_cache_list r) (kmem_gc_last_tick r) (ss_pages r).
Definition set_ss_nodes (v : gmap N rbtree_node) (r : slab_state P) : slab_state P :=
  SlabState (ss_caches r) (ss_slabs r) v (ss_mem r) (ss_priv r) (kmem_cache_list r) (kmem_gc_last_tick r) (ss_pages r).
Definition set_ss_mem (v : gmap N N) (r : slab_state P) : slab_state P :=
  SlabState (ss_caches r) (ss_slabs r) (ss_nodes r) v (ss_priv r) (kmem_cache_list r) (kmem_gc_last_tick r) (ss_pages r).
Definition set_ss_priv (v : gmap N N) (r : slab_state P) : slab_state P :=
  SlabState (ss_caches r) (ss_slabs r) (ss_nodes r) (ss_mem r) v (kmem_cache_list r) (kmem_gc_last_tick r) (ss_pages r).
Definition set_kmem_cache_list (v : list N) (r : slab_state P) : slab_state P :=
  SlabState (ss_caches r) (ss_slabs r) (ss_nodes r) (ss_mem r) (ss_priv r) v (kmem_gc_last_tick r) (ss_pages r).
Definition set_kmem_gc_last_tick (v : N) (r : slab_state P) : slab_state P :=
  SlabState (ss_caches r) (ss_slabs r) (ss_nodes r) (ss_mem r) (ss_priv r) (kmem_cache_list r) v (ss_pages r).
Definition set_ss_pages (v : P) (r : slab_state P) : slab_state P :=
  SlabState (ss_caches r) (ss_slabs r) (ss_nodes r) (ss_mem r) (ss_priv r) (kmem_cache_list r) (kmem_gc_last_tick r) v.

(** The static caches: that of slab descriptors and those of [kalloc]. *)
Context (kmem_slab_cache : N) (kalloc_caches : list N).
#[local] Abbreviation K := (M (slab_state P)).

(** ** Memory *)

Definition load_cache (a : N) : K kmem_cache := s ← get; deref (ss_caches s !! a).
Definition upd_cache (a : N) (f : kmem_cache → kmem_cache) : K unit :=
  c ← load_cache a; modify (λ s, set_ss_caches (<[a := f c]> (ss_caches s)) s).
Definition load_slab (a : N) : K kmem_slab := s ← get; deref (ss_slabs s !! a).
Definition upd_slab (a : N) (f : kmem_slab → kmem_slab) : K unit :=
  c ← load_slab a; modify (λ s, set_ss_slabs (<[a := f c]> (ss_slabs s)) s).
Definition mem_read (m : gmap N N) (a : N) : N := default 0 (m !! a).
Definition load_word (a : N) : K N := s ← get; mret (mem_read (ss_mem s) a).
Definition store_word (a v : N) : K unit := modify (λ s, set_ss_mem (<[a := v]> (ss_mem s)) s).

(** An operation on the tree of active slabs of a cache. *)
Definition on_tree {A} (cache : N) (f : M rbstore A) : K A :=
  c ← load_cache cache;
  s ← get;
  '(a, t) ← deref (f (RbStore (active_slabs c) (ss_nodes s)));
  modify (set_ss_nodes (rb_nodes t));;
  upd_cache cache (set_active_slabs (rb_root t));;
  mret a.

(** ** Pages *)

Definition kmem_pagealloc_physmem (size : N) : K N :=
  check (size =? PAGE_SIZE);;
  s ← get;
  '(a, p) ← deref (page_grab (ss_pages s));
  modify (set_ss_pages p);;
  mret a.

(** The page that a kernel address is in. *)
Definition page_of (a : N) : N := P2ALIGN a PAGE_SIZE.
(** [page != NULL], for [page = vm_page_lookup_pa(kvtophys(a))]. *)
Definition page_exists (a : N) : K bool := s ← get; mret (bool_decide (is_Some (pg_live (ss_pages s) !! page_of a))).

Definition kmem_pagefree_physmem (addr size : N) : K unit :=
  check (size =? PAGE_SIZE);;
  b ← page_exists addr;
  check b;;
  modify (λ s, set_ss_pages (page_release (ss_pages s) addr) s).

Definition kmem_pagealloc_virtual (size align : N) : K N :=
  check (PAGE_SIZE <? size);;
  let size := P2ROUND size PAGE_SIZE in
  s ← get;
  let '(r, p) := (if align <=? PAGE_SIZE then kmem_alloc_wired else kmem_alloc_aligned) (ss_pages s) size in
  modify (set_ss_pages p);;
  mret (default 0 r).

Definition kmem_pagefree_virtual (addr size : N) : K unit :=
  check (negb ((addr <? kernel_virtual_start) || (kernel_virtual_end <? addr + size)));;
  check (PAGE_SIZE <? size);;
  let size := P2ROUND size PAGE_SIZE in
  modify (λ s, set_ss_pages (kmem_free (ss_pages s) addr size) s).

Definition kmem_pagealloc (size align flags : N) : K N :=
  check (align <=? size);;
  if has flags KMEM_CF_PHYSMEM then kmem_pagealloc_physmem size else kmem_pagealloc_virtual size align.

Definition kmem_pagefree (addr size flags : N) : K unit :=
  if has flags KMEM_CF_PHYSMEM then kmem_pagefree_physmem addr size else kmem_pagefree_virtual addr size.

(** ** Slabs *)

Definition kmem_buf_to_bufctl (buf : N) (cache : kmem_layout) : N := buf + bufctl_dist cache.
Definition kmem_bufctl_to_buf (bufctl : N) (cache : kmem_layout) : N := bufctl - bufctl_dist cache.

(** The loop of [kmem_slab_create] that links the buffers. *)
Fixpoint link_buffers (buffers : nat) (slab bufctl buf_size : N) : K unit :=
  match buffers with
  | O => mret tt
  | S buffers =>
      s ← load_slab slab;
      store_word bufctl (slab_first_free s);;
      upd_slab slab (set_slab_first_free bufctl);;
      link_buffers buffers slab (bufctl + buf_size) buf_size
  end.

(** [alloc_slab] is [kmem_cache_alloc(&kmem_slab_cache)]. *)
Definition kmem_slab_create (alloc_slab : K N) (cache color : N) : K N :=
  c ← load_cache cache;
  let l := kc_layout c in
  slab_buf ← kmem_pagealloc (slab_size l) (align l) (flags l);
  if slab_buf =? 0 then mret 0 else
  slab ←
    (if has (flags l) KMEM_CF_SLAB_EXTERNAL then
       slab ← alloc_slab;
       if slab =? 0 then kmem_pagefree slab_buf (slab_size l) (flags l);; mret 0 else
       (if has (flags l) KMEM_CF_USE_PAGE then
          b ← page_exists slab_buf;
          check b;;
          modify (λ s, set_ss_priv (<[page_of slab_buf := slab]> (ss_priv s)) s)
        else mret tt);;
       mret slab
     else mret (slab_buf + slab_size l - sizeof_kmem_slab));
  if slab =? 0 then mret 0 else
  modify (λ s, set_ss_slabs (<[slab := KSlab cache 0 0 (slab_buf + color)]> (ss_slabs s)) s);;
  modify (λ s, set_ss_nodes (<[slab + offsetof_tree_node := RbNode 0 0 0]> (ss_nodes s)) s);;
  on_tree cache (rbtree_node_init (slab + offsetof_tree_node));;
  link_buffers (N.to_nat (bufs_per_slab l)) slab (kmem_buf_to_bufctl (slab_buf + color) l) (buf_size l);;
  mret slab.

(** ** Allocation of buffers *)

(** [rbtree_entry(node, struct kmem_slab, tree_node)]. *)
Definition slab_of_node (node : N) : N := node - offsetof_tree_node.

Definition kmem_slab_cmp_lookup (slabs : gmap N kmem_slab) (addr node : N) : Z :=
  match slabs !! slab_of_node node with
  | Some slab => if addr =? slab_addr slab then 0%Z else if addr <? slab_addr slab then (-1)%Z else 1%Z
  | None => 0%Z
  end.
Definition kmem_slab_cmp_insert (slabs : gmap N kmem_slab) (a b : N) : Z :=
  match slabs !! slab_of_node a with Some slab => kmem_slab_cmp_lookup slabs (slab_addr slab) b | None => 0%Z end.

(** [list_remove] of a node that is in one of the two lists of the cache. *)
Definition list_remove (slab : N) (c : kmem_cache) : kmem_cache :=
  set_partial_slabs (filter (.≠ slab) (partial_slabs c)) (set_free_slabs (filter (.≠ slab) (free_slabs c)) c).

Definition kmem_cache_alloc_from_slab (cache : N) : K N :=
  c ← load_cache cache;
  match head (partial_slabs c ++ free_slabs c) with
  | None => mret 0
  | Some slab =>
      s ← load_slab slab;
      let bufctl := slab_first_free s in
      check (negb (bufctl =? 0));;
      next ← load_word bufctl;
      upd_slab slab (set_slab_first_free next);;
      upd_slab slab (λ s, set_slab_nr_refs (slab_nr_refs s + 1) s);;
      upd_cache cache (λ c, set_nr_objs (nr_objs c + 1) c);;
      s ← load_slab slab;
      (if slab_nr_refs s =? bufs_per_slab (kc_layout c) then
         upd_cache cache (list_remove slab);;
         if slab_nr_refs s =? 1 then upd_cache cache (λ c, set_nr_free_slabs (nr_free_slabs c - 1) c) else mret tt
       else if slab_nr_refs s =? 1 then
         upd_cache cache (list_remove slab);;
         upd_cache cache (λ c, set_partial_slabs (partial_slabs c ++ [slab]) c);;
         upd_cache cache (λ c, set_nr_free_slabs (nr_free_slabs c - 1) c)
       else mret tt);;
      (if (slab_nr_refs s =? 1) && has (flags (kc_layout c)) KMEM_CF_USE_TREE then
         st ← get;
         on_tree cache (rbtree_insert (kmem_slab_cmp_insert (ss_slabs st) (slab + offsetof_tree_node)) (slab + offsetof_tree_node))
       else mret tt);;
      mret (kmem_bufctl_to_buf bufctl (kc_layout c))
  end.

(** The slab that a buffer is in. *)
Definition slab_of_buf (cache buf : N) : K N :=
  c ← load_cache cache;
  let l := kc_layout c in
  if has (flags l) KMEM_CF_DIRECT then
    check (slab_size l =? PAGE_SIZE);;
    mret (u64_sub (P2END buf (slab_size l)) sizeof_kmem_slab)
  else if has (flags l) KMEM_CF_USE_PAGE then
    b ← page_exists buf;
    check b;;
    s ← get;
    mret (default 0 (ss_priv s !! page_of buf))
  else
    check (has (flags l) KMEM_CF_USE_TREE);;
    s ← get;
    node ← on_tree cache (rb_lookup_nearest (kmem_slab_cmp_lookup (ss_slabs s) buf) RBTREE_LEFT);
    check (negb (node =? 0));;
    mret (slab_of_node node).

Definition kmem_cache_free_to_slab (cache buf : N) : K unit :=
  slab ← slab_of_buf cache buf;
  c ← load_cache cache;
  let l := kc_layout c in
  s ← load_slab slab;
  check (slab_addr s <=? buf);;
  check (buf + buf_size l <=? P2ALIGN (slab_addr s + slab_size l) PAGE_SIZE);;
  check (1 <=? slab_nr_refs s);;
  check (slab_nr_refs s <=? bufs_per_slab l);;
  let bufctl := kmem_buf_to_bufctl buf l in
  store_word bufctl (slab_first_free s);;
  upd_slab slab (set_slab_first_free bufctl);;
  upd_slab slab (λ s, set_slab_nr_refs (slab_nr_refs s - 1) s);;
  upd_cache cache (λ c, set_nr_objs (nr_objs c - 1) c);;
  s ← load_slab slab;
  if slab_nr_refs s =? 0 then
    (if has (flags l) KMEM_CF_USE_TREE then on_tree cache (rbtree_remove (slab + offsetof_tree_node)) else mret tt);;
    (if 1 <? bufs_per_slab l then upd_cache cache (list_remove slab) else mret tt);;
    upd_cache cache (λ c, set_free_slabs (slab :: free_slabs c) c);;
    upd_cache cache (λ c, set_nr_free_slabs (nr_free_slabs c + 1) c)
  else if slab_nr_refs s =? bufs_per_slab l - 1 then
    upd_cache cache (λ c, set_partial_slabs (slab :: partial_slabs c) c)
  else mret tt.

(** ** Caches *)

Definition kmem_cache_empty (c : kmem_cache) : bool := nr_objs c =? nr_bufs c.

Definition kmem_cache_grow (alloc_slab : K N) (cache : N) : K bool :=
  c ← load_cache cache;
  if negb (kmem_cache_empty c) then mret true else
  let color := color c in
  upd_cache cache (set_color (if color_max (kc_layout c) <? color + align (kc_layout c) then 0 else color + align (kc_layout c)));;
  slab ← kmem_slab_create alloc_slab cache color;
  (if negb (slab =? 0) then
     upd_cache cache (λ c, set_free_slabs (slab :: free_slabs c) c);;
     upd_cache cache (λ c, set_nr_bufs (nr_bufs c + bufs_per_slab (kc_layout c)) c);;
     upd_cache cache (λ c, set_nr_slabs (nr_slabs c + 1) c);;
     upd_cache cache (λ c, set_nr_free_slabs (nr_free_slabs c + 1) c)
   else mret tt);;
  c ← load_cache cache;
  mret (negb (kmem_cache_empty c)).

(** The iterations of [slab_alloc:].  After one that has made a slab the next
    one finds a buffer. *)
Fixpoint slab_alloc (fuel : nat) (alloc_slab : K N) (cache : N) : K N :=
  match fuel with
  | O => wrong
  | S fuel =>
      buf ← kmem_cache_alloc_from_slab cache;
      if buf =? 0 then
        filled ← kmem_cache_grow alloc_slab cache;
        if negb filled then mret 0 else slab_alloc fuel alloc_slab cache
      else
        c ← load_cache cache;
        match ctor (kc_layout c) with
        | Some f => modify (λ s, set_ss_mem (f buf (ss_mem s)) s)
        | None => mret tt
        end;;
        mret buf
  end.

(** A cache may need a descriptor from the cache of descriptors, and that one
    needs none. *)
Definition kmem_cache_alloc (cache : N) : K N := slab_alloc 2 (slab_alloc 2 wrong kmem_slab_cache) cache.
Definition kmem_cache_free (cache obj : N) : K unit := kmem_cache_free_to_slab cache obj.

Definition kmem_slab_destroy (slab cache : N) : K unit :=
  s ← load_slab slab;
  check (slab_nr_refs s =? 0);;
  check (negb (slab_first_free s =? 0));;
  c ← load_cache cache;
  let l := kc_layout c in
  let slab_buf := P2ALIGN (slab_addr s) PAGE_SIZE in
  modify (λ s, set_ss_slabs (delete slab (ss_slabs s)) s);;
  modify (λ s, set_ss_nodes (delete (slab + offsetof_tree_node) (ss_nodes s)) s);;
  (if has (flags l) KMEM_CF_SLAB_EXTERNAL then
     (if has (flags l) KMEM_CF_USE_PAGE then
        b ← page_exists slab_buf;
        check b;;
        modify (λ s, set_ss_priv (<[page_of slab_buf := 0]> (ss_priv s)) s)
      else mret tt);;
     kmem_cache_free kmem_slab_cache slab
   else mret tt);;
  kmem_pagefree slab_buf (slab_size l) (flags l).

Definition kmem_cache_reap (cache : N) (dead_slabs : list N) : K (list N) :=
  c ← load_cache cache;
  upd_cache cache (set_free_slabs []);;
  upd_cache cache (λ c, set_nr_bufs (nr_bufs c - bufs_per_slab (kc_layout c) * nr_free_slabs c) c);;
  upd_cache cache (λ c, set_nr_slabs (nr_slabs c - nr_free_slabs c) c);;
  upd_cache cache (set_nr_free_slabs 0);;
  mret (dead_slabs ++ free_slabs c).

Fixpoint reap_all (caches dead_slabs : list N) : K (list N) :=
  match caches with
  | [] => mret dead_slabs
  | cache :: caches => dead_slabs ← kmem_cache_reap cache dead_slabs; reap_all caches dead_slabs
  end.
Fixpoint destroy_all (dead_slabs : list N) : K unit :=
  match dead_slabs with
  | [] => mret tt
  | slab :: dead_slabs => s ← load_slab slab; kmem_slab_destroy slab (slab_cache s);; destroy_all dead_slabs
  end.

Definition slab_collect (elapsed_ticks gc_interval : N) : K unit :=
  s ← get;
  if elapsed_ticks <=? kmem_gc_last_tick s + gc_interval then mret tt else
  modify (set_kmem_gc_last_tick elapsed_ticks);;
  dead_slabs ← reap_all (kmem_cache_list s) [];
  destroy_all dead_slabs.

(** ** Initialisation *)

(** The loop of [kmem_cache_compute_properties]: the size of a slab, whether the
    descriptor is in it, and the size that is left for buffers. *)
Fixpoint slab_size_loop (fuel : nat) (flags buf_size slab_size : N) : K (N * bool * N) :=
  match fuel with
  | O => wrong
  | S fuel =>
      let embed := if has flags KMEM_CACHE_NOOFFSLAB then true else sizeof_kmem_slab <=? slab_size mod buf_size in
      let size := if embed then slab_size - sizeof_kmem_slab else slab_size in
      if buf_size <=? size then mret (slab_size, embed, size)
      else slab_size_loop fuel flags buf_size (slab_size + PAGE_SIZE)
  end.

(** The layout of a cache whose other fields are known. *)
Definition kmem_cache_compute_properties (l : kmem_layout) (cflags : N) : K kmem_layout :=
  let cflags := if buf_size l <? KMEM_BUF_SIZE_THRESHOLD then N.lor cflags KMEM_CACHE_NOOFFSLAB else cflags in
  '(slab_size, embed, size) ← slab_size_loop (N.to_nat (buf_size l / PAGE_SIZE) + 3) cflags (buf_size l) PAGE_SIZE;
  let color_max := size mod buf_size l in
  let color_max := if PAGE_SIZE <=? color_max then 0 else color_max in
  let f := flags l in
  let f := if embed : bool then f else N.lor f KMEM_CF_SLAB_EXTERNAL in
  f ← (if has cflags KMEM_CACHE_PHYSMEM || (slab_size =? PAGE_SIZE) then
         check (slab_size =? PAGE_SIZE);; mret (N.lor f KMEM_CF_PHYSMEM)
       else mret f);
  let f :=
    if has f KMEM_CF_SLAB_EXTERNAL then N.lor f (if has f KMEM_CF_PHYSMEM then KMEM_CF_USE_PAGE else KMEM_CF_USE_TREE)
    else N.lor f (if slab_size =? PAGE_SIZE then KMEM_CF_DIRECT else KMEM_CF_USE_TREE) in
  mret (KLayout f (bufctl_dist l) slab_size (size / buf_size l) (ctor l) (obj_size l) (align l) (buf_size l) color_max).

Definition kmem_cache_init (cache obj_size align : N) (ctor : option (N → gmap N N → gmap N N)) (flags : N) : K unit :=
  check (negb (has flags KMEM_CACHE_VERIFY));;
  let align := if align <? KMEM_ALIGN_MIN then KMEM_ALIGN_MIN else align in
  check (0 <? obj_size);;
  check (ISP2 align);;
  let buf_size := P2ROUND obj_size align in
  l ← kmem_cache_compute_properties (KLayout 0 (u64_sub buf_size sizeof_kmem_bufctl) 0 0 ctor obj_size align buf_size 0) flags;
  modify (λ s, set_ss_caches (<[cache := KCache l [] [] 0 0 0 0 0 0]> (ss_caches s)) s);;
  modify (λ s, set_kmem_cache_list (kmem_cache_list s ++ [cache]) s).

Definition slab_init : K unit := kmem_cache_init kmem_slab_cache sizeof_kmem_slab 0 None KMEM_CACHE_NOOFFSLAB.

(** ** The general allocator *)

Fixpoint kalloc_init_loop (caches : list N) (size : N) : K unit :=
  match caches with
  | [] => mret tt
  | cache :: caches => kmem_cache_init cache size 0 None 0;; kalloc_init_loop caches (N.shiftl size 1)
  end.
Definition kalloc_init : K unit := kalloc_init_loop kalloc_caches (N.shiftl 1 KALLOC_FIRST_SHIFT).

(** [64 - __builtin_clzl(size)] is the number of bits of [size]. *)
Definition kalloc_get_index (size : N) : K N :=
  check (negb (size =? 0));;
  let size := N.shiftr (size - 1) KALLOC_FIRST_SHIFT in
  mret (if size =? 0 then 0 else N.size size).

(** Accounting ([mem_track_*], [valgrind_*]) is left out. *)
Definition kalloc (size : N) : K N :=
  if size =? 0 then mret 0 else
  index ← kalloc_get_index size;
  match kalloc_caches !! N.to_nat index with
  | Some cache => kmem_cache_alloc cache
  | None => if size <=? PAGE_SIZE then kmem_pagealloc_physmem PAGE_SIZE else kmem_pagealloc_virtual size 0
  end.

Definition kfree (data size : N) : K unit :=
  if (data =? 0) || (size =? 0) then mret tt else
  index ← kalloc_get_index size;
  match kalloc_caches !! N.to_nat index with
  | Some cache => kmem_cache_free cache data
  | None => if size <=? PAGE_SIZE then kmem_pagefree_physmem data PAGE_SIZE else kmem_pagefree_virtual data size
  end.
End Slab.
