(* ===== verification/SlabAlign.v ===== *)
(** The alignment macros of kern/slab.c on 64-bit words, and the arithmetic of
    pages and sums over finite maps that the slab allocator needs. *)

From S2P Require Import Prelude Rbtree Slab.

Open Scope N_scope.

(** ** Alignment on powers of two *)

Lemma land_neg_pow2 x k : k ≤ 64 → x < 2 ^ 64 → N.land x (2 ^ 64 - 2 ^ k) = x - x mod 2 ^ k.
Proof.
  intros Hk Hx. assert (2 ^ 64 - 2 ^ k = N.ldiff (N.ones 64) (N.ones k)) as ->.
  { rewrite N.ldiff_ones_r, N.shiftr_div_pow2, N.ones_div_pow2 by done. rewrite N.shiftl_mul_pow2, N.ones_equiv.
    rewrite <- N.sub_1_r, N.mul_sub_distr_r, <- N.pow_add_r, N.mul_1_l. by replace (64 - k + k) with 64 by lia. }
  assert (N.land x (N.ldiff (N.ones 64) (N.ones k)) = N.ldiff x (N.ones k)) as ->.
  { apply N.bits_inj. intros j. rewrite N.land_spec, !N.ldiff_spec. destruct (N.lt_ge_cases j 64).
    - by rewrite (N.ones_spec_low 64).
    - by rewrite (proj2 (bits_below_lt x 64)). }
  rewrite N.ldiff_ones_r, N.shiftl_mul_pow2, N.shiftr_div_pow2, N.Div0.mod_eq, N.mul_comm. pose proof (N.Div0.mul_div_le x (2 ^ k)).
  generalize dependent (2 ^ k * (x / 2 ^ k)). intros. lia.
Qed.

Lemma u64_neg_small x : 0 < x → x ≤ 2 ^ 64 → u64_neg x = 2 ^ 64 - x.
Proof.
  intros H0 Hx. unfold u64_neg, u64_sub, u64, wrap. destruct (N.eq_dec x (2 ^ 64)) as [->|]; [done|].
  rewrite (N.mod_small x), N.add_0_l by lia. apply N.mod_small. lia.
Qed.

Lemma P2ALIGN_spec x k : k < 64 → x < 2 ^ 64 → P2ALIGN x (2 ^ k) = x - x mod 2 ^ k.
Proof.
  intros Hk Hx. unfold P2ALIGN. assert (2 ^ k < 2 ^ 64) by (by apply N.pow_lt_mono_r).
  rewrite u64_neg_small by lia. apply land_neg_pow2; lia.
Qed.

(** The complement of a multiple of a power of two. *)
Lemma neg_mod_pow2 x k : k ≤ 64 → x ≤ 2 ^ 64 → (x + (2 ^ 64 - x) mod 2 ^ k) mod 2 ^ k = 0.
Proof.
  intros Hk Hx. rewrite N.Div0.add_mod_idemp_r. replace (x + (2 ^ 64 - x)) with (2 ^ (64 - k) * 2 ^ k).
  - apply N.Div0.mod_mul.
  - rewrite <- N.pow_add_r. replace (64 - k + k) with 64 by lia. lia.
Qed.

Lemma P2ROUND_spec x k : k < 64 → 0 < x → x + 2 ^ k ≤ 2 ^ 64 →
  x ≤ P2ROUND x (2 ^ k) < x + 2 ^ k ∧ P2ROUND x (2 ^ k) mod 2 ^ k = 0.
Proof.
  intros Hk H0 Hx. assert (2 ^ k < 2 ^ 64) by (by apply N.pow_lt_mono_r). assert (0 < 2 ^ k) by lia.
  unfold P2ROUND. rewrite (u64_neg_small x), (u64_neg_small (2 ^ k)), land_neg_pow2 by lia.
  assert ((2 ^ 64 - x) mod 2 ^ k < 2 ^ k) as Hm by (apply N.mod_lt; lia).
  assert ((x + (2 ^ 64 - x) mod 2 ^ k) mod 2 ^ k = 0) as Hn by (apply neg_mod_pow2; lia).
  generalize dependent ((2 ^ 64 - x) mod 2 ^ k). intros r Hm Hn. rewrite u64_neg_small by lia.
  replace (2 ^ 64 - (2 ^ 64 - x - r)) with (x + r) by lia. split; [lia|done].
Qed.

Lemma complement_mod b c q r : r < b → b * q + b ≤ b * c → (b * c - 1 - (b * q + r)) mod b = b - 1 - r.
Proof.
  intros Hr Hq. symmetry. assert (∃ d, c = q + 1 + d) as [d ->]. { exists (c - (q + 1)). assert (q + 1 ≤ c) by nia. lia. }
  apply (N.mod_unique _ _ d); [lia|]. rewrite !N.mul_add_distr_l, N.mul_1_r. lia.
Qed.

Lemma P2END_spec x k : k < 64 → x - x mod 2 ^ k + 2 ^ k < 2 ^ 64 → P2END x (2 ^ k) = x - x mod 2 ^ k + 2 ^ k.
Proof.
  intros Hk. assert (2 ^ 64 = 2 ^ k * 2 ^ (64 - k)) as Hbc by (rewrite <- N.pow_add_r; f_equal; lia).
  assert (2 ^ k < 2 ^ 64) by (by apply N.pow_lt_mono_r). assert (0 < 2 ^ k) by lia.
  assert (x mod 2 ^ k < 2 ^ k) as Hm by (apply N.mod_lt; lia). pose proof (N.div_mod' x (2 ^ k)) as Hdm.
  pose proof (complement_mod (2 ^ k) (2 ^ (64 - k)) (x / 2 ^ k) (x mod 2 ^ k) Hm) as Hc. rewrite <- Hbc, <- Hdm in Hc.
  generalize dependent (x mod 2 ^ k). generalize dependent (x / 2 ^ k). intros q r Hm Hdm Hc Hx.
  unfold P2END, u64_not, u64, wrap. rewrite (N.mod_small x) by lia.
  assert (N.lxor x (N.ones 64) = 2 ^ 64 - 1 - x) as ->.
  { change (N.lnot x 64 = 2 ^ 64 - 1 - x). rewrite N.lnot_sub_low, N.ones_equiv; [lia|].
    destruct (N.eq_dec x 0) as [->|]; [done|]. apply N.log2_lt_pow2; lia. }
  rewrite (u64_neg_small (2 ^ k)), land_neg_pow2, Hc by lia. rewrite u64_neg_small by lia. lia.
Qed.

(** A word that [ISP2] accepts. *)
Lemma ISP2_pow2 a : 0 < a → a < 2 ^ 64 → ISP2 a = true → ∃ k, k < 64 ∧ a = 2 ^ k.
Proof.
  intros H0 Ha. unfold ISP2, P2ALIGNED. rewrite N.eqb_eq. unfold u64_sub, u64, wrap. change (1 mod 2 ^ 64) with 1.
  replace (a + (2 ^ 64 - 1)) with (a - 1 + 1 * 2 ^ 64) by lia. rewrite N.Div0.mod_add, N.mod_small by lia. intros Hl.
  exists (N.log2 a). split; [apply N.log2_lt_pow2; lia|]. destruct (N.log2_spec a H0) as [Hlo Hhi].
  destruct (N.eq_dec a (2 ^ N.log2 a)) as [|Hne]; [done|exfalso].
  assert (N.testbit (N.land a (a - 1)) (N.log2 a) = true) as Hb; [|by rewrite Hl, N.bits_0 in Hb].
  rewrite N.land_spec, N.bit_log2 by lia. cbn [andb]. replace (N.log2 a) with (N.log2 (a - 1)); [apply N.bit_log2; lia|].
  apply N.log2_unique; [lia|]. rewrite N.pow_succ_r' in *. lia.
Qed.

(** ** Pages *)

Lemma mod_mod0 x a b : x mod a = 0 → a mod b = 0 → x mod b = 0.
Proof. intros [q ->]%N.Div0.mod_divides [r ->]%N.Div0.mod_divides. rewrite <- N.mul_assoc, N.mul_comm. apply N.Div0.mod_mul. Qed.

Lemma page_of_spec x : x < 2 ^ 64 → page_of x = x - x mod PAGE_SIZE.
Proof. apply (P2ALIGN_spec x 12). done. Qed.

(** An address in a slab that starts on a page, past it by less than a page. *)
Lemma page_of_offset a d : a mod PAGE_SIZE = 0 → d < PAGE_SIZE → a + d < 2 ^ 64 → page_of (a + d) = a.
Proof.
  intros Ha Hd Hlt. rewrite page_of_spec by done. rewrite <- N.Div0.add_mod_idemp_l, Ha, N.add_0_l, N.mod_small by done. lia.
Qed.

(** ** Sums over finite maps *)

Section Sum.
Context {A : Type}.
Implicit Types (f g : N → A → N) (m : gmap N A).

Definition msum f m : N := map_fold (λ k x acc, f k x + acc) 0 m.

Lemma msum_empty f : msum f ∅ = 0.
Proof. apply map_fold_empty. Qed.
Lemma msum_fresh f m k x : m !! k = None → msum f (<[k := x]> m) = f k x + msum f m.
Proof. intros Hk. unfold msum. rewrite map_fold_insert_L; [done| |done]. intros. lia. Qed.
Lemma msum_delete f m k x : m !! k = Some x → msum f m = f k x + msum f (delete k m).
Proof. intros Hk. rewrite <- (insert_delete_id m k x Hk) at 1. apply msum_fresh, lookup_delete_eq. Qed.
Lemma msum_update f m k x y : m !! k = Some x → msum f (<[k := y]> m) + f k x = msum f m + f k y.
Proof. intros Hk. rewrite <- insert_delete_eq, msum_fresh by apply lookup_delete_eq. rewrite (msum_delete f m k x) by done. lia. Qed.
Lemma msum_ext f g m : (∀ k x, m !! k = Some x → f k x = g k x) → msum f m = msum g m.
Proof.
  induction m as [|k x m Hk IH] using map_ind; [by rewrite !msum_empty|]. intros Heq. rewrite !msum_fresh by done.
  rewrite (Heq k x), IH; [done| |by rewrite lookup_insert_eq]. intros j y Hj. apply Heq. rewrite lookup_insert_ne; [done|congruence].
Qed.
Lemma msum_filter (Q : N * A → Prop) `{!∀ p, Decision (Q p)} f m : (∀ k x, ¬ Q (k, x) → f k x = 0) → msum f m = msum f (filter Q m).
Proof.
  intros Hf. induction m as [|k x m Hk IH] using map_ind; [by rewrite map_filter_empty|]. rewrite msum_fresh by done.
  destruct (decide (Q (k, x))) as [Hq|Hq].
  - rewrite map_filter_insert_True by done. rewrite msum_fresh by (apply map_lookup_filter_None; left; done). lia.
  - rewrite map_filter_insert_False, delete_id by done. rewrite Hf by done. lia.
Qed.
Lemma msum_scale f g m n : (∀ k x, m !! k = Some x → f k x = n * g k x) → msum f m = n * msum g m.
Proof.
  induction m as [|k x m Hk IH] using map_ind; intros Hf; [rewrite !msum_empty; lia|]. rewrite !msum_fresh by done.
  rewrite (Hf k x), IH; [lia| |by rewrite lookup_insert_eq]. intros j y Hj. apply Hf. rewrite lookup_insert_ne; [done|congruence].
Qed.
(** Two functions that differ at one key. *)
Lemma msum_change f g m k x : m !! k = Some x → (∀ j y, m !! j = Some y → j ≠ k → f j y = g j y) → msum f m + g k x = msum g m + f k x.
Proof.
  intros Hk Heq. rewrite !(msum_delete _ m k x) by done. rewrite (msum_ext f g); [lia|].
  intros j y [Hj Hy]%lookup_delete_Some. by apply Heq.
Qed.
End Sum.
