(* ===== verification/SlabInv.v ===== *)
(** The invariant of the slab allocator, where it puts the buffers of slabs, and
    what changes of a slab do to the allocated objects.

    The ghost map [G] has the numbers of the free buffers of each slab, in the
    order of its free list.  [D] are slabs that were taken off their cache to be
    destroyed. *)

From stdpp Require Import sorting.
From S2P Require Import Prelude Rbtree RbtreeInv RbtreeStep RbtreeInsert RbtreeRemove RbtreeWalk RbtreeSpec Slab SlabAlign.

Open Scope N_scope.

(** ** Layout *)

Definition external (l : kmem_layout) : bool := has (flags l) KMEM_CF_SLAB_EXTERNAL.

Record layout_ok (l : kmem_layout) : Prop := {
  lo_bufs : 0 < bufs_per_slab l;
  lo_align : 0 < align l ∧ align l mod 8 = 0 ∧ buf_size l mod align l = 0 ∧ (align l ≤ PAGE_SIZE → PAGE_SIZE mod align l = 0);
  lo_buf : 8 ≤ buf_size l ∧ obj_size l ≤ buf_size l;
  lo_dist : bufctl_dist l = buf_size l - 8;
  lo_slab : slab_size l mod PAGE_SIZE = 0 ∧ slab_size l < 2 ^ 64;
  lo_fit : color_max l + bufs_per_slab l * buf_size l + (if external l then 0 else sizeof_kmem_slab) ≤ slab_size l;
  lo_color : color_max l < PAGE_SIZE;
  lo_align_size : align l ≤ slab_size l;
  lo_physmem : has (flags l) KMEM_CF_PHYSMEM = (slab_size l =? PAGE_SIZE);
  lo_direct : has (flags l) KMEM_CF_DIRECT = negb (external l) && (slab_size l =? PAGE_SIZE);
  lo_page : has (flags l) KMEM_CF_USE_PAGE = external l && (slab_size l =? PAGE_SIZE);
  lo_tree : has (flags l) KMEM_CF_USE_TREE = negb (slab_size l =? PAGE_SIZE);
  lo_ctor f : ctor l = Some f → ∀ a m w, ¬ (a ≤ w < a + obj_size l) → f a m !! w = m !! w;
}.

(** The [i]th buffer of a slab, its word on the free list, and the pages of the
    slab. *)
Definition slot (l : kmem_layout) (s : kmem_slab) (i : N) : N := slab_addr s + i * buf_size l.
Definition ctl (l : kmem_layout) (s : kmem_slab) (i : N) : N := slot l s i + bufctl_dist l.
Definition region (s : kmem_slab) : N := page_of (slab_addr s).

(** ** Slabs *)

Fixpoint free_chain (m : gmap N N) (a : N) (l : list N) : Prop :=
  match l with
  | [] => a = 0
  | x :: l => a = x ∧ free_chain m (mem_read m x) l
  end.

Record pages_ok (live : gmap N N) : Prop := {
  pg_range a n : live !! a = Some n → a ≠ 0 ∧ a mod PAGE_SIZE = 0 ∧ a + n < 2 ^ 64;
  pg_positive a n : live !! a = Some n → 0 < n;
  pg_disjoint a n b k : live !! a = Some n → live !! b = Some k → a ≠ b → a + n ≤ b ∨ b + k ≤ a;
}.

Record slab_ok (live me pr : gmap N N) (no : gmap N rbtree_node) (descr : N → Prop) (sa : N) (s : kmem_slab) (l : kmem_layout) (fl : list N) : Prop := {
  so_region : live !! region s = Some (slab_size l);
  so_addr : region s ≤ slab_addr s ≤ region s + color_max l ∧ slab_addr s mod 8 = 0 ∧ (align l ≤ PAGE_SIZE → slab_addr s mod align l = 0);
  so_embed : external l = false → sa = region s + slab_size l - sizeof_kmem_slab;
  so_ext : external l = true → descr sa;
  so_page : has (flags l) KMEM_CF_USE_PAGE = true → pr !! region s = Some sa;
  so_free : NoDup fl ∧ Forall (λ i, i < bufs_per_slab l) fl;
  so_chain : free_chain me (slab_first_free s) (ctl l s <$> fl);
  so_refs : slab_nr_refs s + N.of_nat (length fl) = bufs_per_slab l;
  so_node : is_Some (no !! (sa + offsetof_tree_node));
  so_slab : sa ≠ 0 ∧ sa mod 8 = 0;
}.

(** ** Objects *)

(** The object at [a] is allocated from the cache at [ca]. *)
Definition live_in (L : gmap N kmem_layout) (sl : gmap N kmem_slab) (G : gmap N (list N)) (ca a : N) : Prop :=
  ∃ sa s l fl i, sl !! sa = Some s ∧ slab_cache s = ca ∧ L !! ca = Some l ∧ G !! sa = Some fl ∧ i < bufs_per_slab l ∧ i ∉ fl ∧ a = slot l s i.

(** ** Caches *)

Definition refs_in (ca sa : N) (s : kmem_slab) : N := if slab_cache s =? ca then slab_nr_refs s else 0.
Definition listed_in (ca : N) (D : gset N) (sa : N) (s : kmem_slab) : N := if (slab_cache s =? ca) && negb (bool_decide (sa ∈ D)) then 1 else 0.

Definition active_node (sl : gmap N kmem_slab) (ca x : N) : Prop :=
  ∃ sa s, x = sa + offsetof_tree_node ∧ sl !! sa = Some s ∧ slab_cache s = ca ∧ 0 < slab_nr_refs s.
Definition before (sl : gmap N kmem_slab) (x y : N) : Prop := (kmem_slab_cmp_insert sl x y < 0)%Z.
Definition tree_ok (no : gmap N rbtree_node) (sl : gmap N kmem_slab) (ca root : N) : Prop :=
  ∃ l, rb_tree no l (RbStore root no) ∧ StronglySorted (before sl) l ∧ ∀ x, x ∈ l ↔ active_node sl ca x.

Record cache_ok (sl : gmap N kmem_slab) (no : gmap N rbtree_node) (D : gset N) (ca : N) (c : kmem_cache) : Prop := {
  co_layout : layout_ok (kc_layout c);
  co_color : color c ≤ color_max (kc_layout c) ∧ color c mod align (kc_layout c) = 0;
  co_nodup : NoDup (partial_slabs c) ∧ NoDup (free_slabs c);
  co_partial sa : sa ∈ partial_slabs c ↔
    ∃ s, sl !! sa = Some s ∧ slab_cache s = ca ∧ 0 < slab_nr_refs s < bufs_per_slab (kc_layout c);
  co_free sa : sa ∈ free_slabs c ↔ ∃ s, sl !! sa = Some s ∧ slab_cache s = ca ∧ slab_nr_refs s = 0 ∧ sa ∉ D;
  co_nr_free : nr_free_slabs c = N.of_nat (length (free_slabs c));
  co_objs : nr_objs c = msum (refs_in ca) sl;
  co_slabs : nr_slabs c = msum (listed_in ca D) sl;
  co_bufs : nr_bufs c = bufs_per_slab (kc_layout c) * nr_slabs c;
  co_tree : has (flags (kc_layout c)) KMEM_CF_USE_TREE = true → tree_ok no sl ca (active_slabs c);
}.

Section Inv.
Context {P : Type} `{!PageSource P} (sc : N).
Implicit Types (S : slab_state P) (G : gmap N (list N)) (D : gset N).

Definition layouts S : gmap N kmem_layout := kc_layout <$> ss_caches S.
Definition live S G (ca a : N) : Prop := live_in (layouts S) (ss_slabs S) G ca a.

(** What is larger than a page was allocated from the kernel map. *)
Definition virtual_ok (p : P) : Prop :=
  ∀ a n, pg_live p !! a = Some n → n ≠ PAGE_SIZE → kernel_virtual_start ≤ a ∧ a + n ≤ kernel_virtual_end.

Record SlabInv S G D : Prop := {
  si_pages : pages_ok (pg_live (ss_pages S));
  si_virtual : virtual_ok (ss_pages S);
  si_caches ca c : ss_caches S !! ca = Some c → cache_ok (ss_slabs S) (ss_nodes S) D ca c;
  si_slabs sa s : ss_slabs S !! sa = Some s → ∃ l fl, layouts S !! slab_cache s = Some l ∧ G !! sa = Some fl ∧
    slab_ok (pg_live (ss_pages S)) (ss_mem S) (ss_priv S) (ss_nodes S) (live S G sc) sa s l fl;
  si_regions sa sb s t : ss_slabs S !! sa = Some s → ss_slabs S !! sb = Some t → region s = region t → sa = sb;
  si_dead sa : sa ∈ D → ∃ s, ss_slabs S !! sa = Some s ∧ slab_nr_refs s = 0;
  si_descr : ∃ l, layouts S !! sc = Some l ∧ external l = false ∧ sizeof_kmem_slab ≤ buf_size l;
}.
End Inv.

(** ** Buffers *)

Section Layout.
Context (l : kmem_layout) (Hl : layout_ok l) (s : kmem_slab).

Lemma slot_ctl i : slot l s i ≤ ctl l s i ∧ ctl l s i + 8 = slot l s i + buf_size l ∧ kmem_bufctl_to_buf (ctl l s i) l = slot l s i.
Proof. destruct (lo_buf _ Hl) as [? _]. unfold ctl, kmem_bufctl_to_buf. rewrite (lo_dist _ Hl). lia. Qed.

Lemma slot_apart i j : i < j → slot l s i + buf_size l ≤ slot l s j.
Proof. intros Hij. unfold slot. pose proof (N.mul_le_mono_r (i + 1) j (buf_size l)). lia. Qed.

Lemma slot_inj i j : slot l s i = slot l s j → i = j.
Proof.
  intros E. destruct (lo_buf _ Hl) as [? _]. destruct (N.lt_trichotomy i j) as [H1|[->|H1]]; [|done|]; apply slot_apart in H1; lia.
Qed.

(** Buffers do not share bytes. *)
Lemma slot_disjoint i j w : i ≠ j → slot l s i ≤ w < slot l s i + buf_size l → ¬ (slot l s j ≤ w < slot l s j + buf_size l).
Proof. intros Hne Hw. destruct (N.lt_trichotomy i j) as [H1|[->|H1]]; [apply slot_apart in H1; lia|done|apply slot_apart in H1; lia]. Qed.

Lemma ctl_ne i j : i ≠ j → ctl l s i ≠ ctl l s j.
Proof. intros Hne E. apply Hne, slot_inj. destruct (slot_ctl i) as (_ & _ & H1), (slot_ctl j) as (_ & _ & H2). congruence. Qed.
End Layout.

Section Slab.
Context (lv me pr : gmap N N) (no : gmap N rbtree_node) (d : N → Prop) (sa : N) (s : kmem_slab) (l : kmem_layout) (fl : list N).
Context (Hpg : pages_ok lv) (Hl : layout_ok l) (Hs : slab_ok lv me pr no d sa s l fl).

Lemma region_range : region s ≠ 0 ∧ region s mod PAGE_SIZE = 0 ∧ region s + slab_size l < 2 ^ 64.
Proof. apply (pg_range _ Hpg), (so_region _ _ _ _ _ _ _ _ _ Hs). Qed.

Lemma slot_bounds i : i < bufs_per_slab l →
  region s ≤ slot l s i ∧ slot l s i + buf_size l + (if external l then 0 else sizeof_kmem_slab) ≤ region s + slab_size l.
Proof.
  intros Hi. destruct (so_addr _ _ _ _ _ _ _ _ _ Hs) as ([H1 H2] & _). pose proof (lo_fit _ Hl) as Hfit. unfold slot.
  assert (i * buf_size l + buf_size l ≤ bufs_per_slab l * buf_size l).
  { replace (i * buf_size l + buf_size l) with ((i + 1) * buf_size l) by lia. apply N.mul_le_mono_r. lia. }
  destruct (external l); lia.
Qed.

Lemma slot_ok i : i < bufs_per_slab l → slot l s i ≠ 0 ∧ slot l s i mod 8 = 0 ∧ (align l ≤ PAGE_SIZE → slot l s i mod align l = 0).
Proof.
  intros Hi. destruct (slot_bounds i Hi). pose proof region_range. split; [lia|]. unfold slot.
  destruct (so_addr _ _ _ _ _ _ _ _ _ Hs) as (_ & H8 & Ha). destruct (lo_align _ Hl) as (_ & H8' & Hb & _). split.
  - by rewrite N.Div0.add_mod, H8, N.Div0.mul_mod, (mod_mod0 (buf_size l) (align l) 8 Hb H8'), N.mul_0_r.
  - intros Hp. by rewrite N.Div0.add_mod, (Ha Hp), N.Div0.mul_mod, Hb, N.mul_0_r.
Qed.

Lemma ctl_ok i : i < bufs_per_slab l → region s ≤ ctl l s i < region s + slab_size l ∧ ctl l s i ≠ 0.
Proof.
  intros Hi. destruct (slot_bounds i Hi). pose proof region_range. destruct (slot_ctl l Hl s i) as (Hc1 & Hc2 & _). destruct (external l); lia.
Qed.

(** In slabs of one page. *)
Lemma page_of_slot i w : slab_size l = PAGE_SIZE → i < bufs_per_slab l → slot l s i ≤ w < slot l s i + buf_size l → page_of w = region s.
Proof.
  intros H1 Hi Hw. destruct (slot_bounds i Hi). pose proof region_range as (_ & Hm & Hr). rewrite H1 in *.
  replace w with (region s + (w - region s)) by lia. apply page_of_offset; [done|destruct (external l); lia|destruct (external l); lia].
Qed.
End Slab.

(** ** Free lists *)

Lemma mem_read_ne m a b v : a ≠ b → mem_read (<[a := v]> m) b = mem_read m b.
Proof. intros Hne. unfold mem_read. by rewrite lookup_insert_ne. Qed.
Lemma mem_read_eq m a v : mem_read (<[a := v]> m) a = v.
Proof. unfold mem_read. by rewrite lookup_insert_eq. Qed.

Lemma free_chain_frame m m' a l : (∀ x, x ∈ l → m' !! x = m !! x) → free_chain m a l → free_chain m' a l.
Proof.
  revert a. induction l as [|x l IH]; [done|]. intros a Hm [-> Hc]. split; [done|]. unfold mem_read. rewrite Hm by by left.
  apply IH; [|done]. intros y Hy. apply Hm. by right.
Qed.

Lemma free_chain_push m a l x : free_chain m a l → x ∉ l → free_chain (<[x := a]> m) x (x :: l).
Proof.
  intros Hc Hx. split; [done|]. rewrite mem_read_eq. eapply free_chain_frame; [|done]. intros y Hy. apply lookup_insert_ne. by intros ->.
Qed.

(** ** Allocated objects *)

Section Live.
Context (L : gmap N kmem_layout) (sl : gmap N kmem_slab) (G : gmap N (list N)) (sa : N) (s s' : kmem_slab) (l : kmem_layout) (fl : list N).
Context (Hs : sl !! sa = Some s) (HL : L !! slab_cache s = Some l) (HG : G !! sa = Some fl).
Context (Hc : slab_cache s' = slab_cache s) (Ha : slab_addr s' = slab_addr s).

Lemma slot_same i : slot l s' i = slot l s i.
Proof. unfold slot. by rewrite Ha. Qed.

Lemma live_take i fl' cb x : fl = i :: fl' → NoDup fl → i < bufs_per_slab l →
  live_in L (<[sa := s']> sl) (<[sa := fl']> G) cb x ↔ live_in L sl G cb x ∨ cb = slab_cache s ∧ x = slot l s i.
Proof.
  intros -> [Hi Hnd]%list.NoDup_cons Hib. split.
  - intros (sb & t & lt & ft & j & Ht & Hct & HLt & HGt & Hj & Hjf & ->).
    apply lookup_insert_Some in Ht as [[<- <-]|[Hne Ht]].
    + rewrite lookup_insert_eq in HGt. injection HGt as <-. assert (lt = l) as -> by congruence. rewrite slot_same.
      destruct (decide (j = i)) as [->|Hji]; [right; split; [congruence|done]|left]. exists sa, s, l, (i :: fl'), j. split_and!; try done; [congruence..|].
      by intros [?|?]%elem_of_cons.
    + rewrite lookup_insert_ne in HGt by done. left. by exists sb, t, lt, ft, j.
  - intros [(sb & t & lt & ft & j & Ht & Hct & HLt & HGt & Hj & Hjf & ->)|[-> ->]].
    + destruct (decide (sb = sa)) as [->|Hne].
      * assert (t = s) as -> by congruence. assert (lt = l) as -> by congruence. assert (ft = i :: fl') as -> by congruence.
        exists sa, s', l, fl', j. rewrite !lookup_insert_eq, slot_same. split_and!; try done; [congruence|]. intros ?. apply Hjf. by right.
      * exists sb, t, lt, ft, j. by rewrite !lookup_insert_ne.
    + exists sa, s', l, fl', i. rewrite !lookup_insert_eq, slot_same. by split_and!.
Qed.

(** [Hu]: buffers of other slabs are elsewhere. *)
Lemma live_give i cb x :
  (∀ sb t lt j, sl !! sb = Some t → L !! slab_cache t = Some lt → j < bufs_per_slab lt → slot lt t j = slot l s i → sb = sa ∧ j = i) →
  live_in L (<[sa := s']> sl) (<[sa := i :: fl]> G) cb x ↔ live_in L sl G cb x ∧ ¬ (cb = slab_cache s ∧ x = slot l s i).
Proof.
  intros Hu. split.
  - intros (sb & t & lt & ft & j & Ht & Hct & HLt & HGt & Hj & Hjf & ->).
    apply lookup_insert_Some in Ht as [[<- <-]|[Hne Ht]].
    + rewrite lookup_insert_eq in HGt. injection HGt as <-. assert (lt = l) as -> by congruence. rewrite slot_same.
      rewrite elem_of_cons in Hjf. split; [exists sa, s, l, fl, j; split_and!; try done; [congruence..|]; tauto|].
      intros [_ E]. destruct (Hu sa s l j) as [_ ->]; try done. tauto.
    + rewrite lookup_insert_ne in HGt by done. split; [by exists sb, t, lt, ft, j|]. intros [_ E]. destruct (Hu sb t lt j) as [-> _]; try done. congruence.
  - intros [(sb & t & lt & ft & j & Ht & Hct & HLt & HGt & Hj & Hjf & ->) Hno]. destruct (decide (sb = sa)) as [->|Hne].
    + assert (t = s) as -> by congruence. assert (lt = l) as -> by congruence. assert (ft = fl) as -> by congruence.
      exists sa, s', l, (i :: fl), j. rewrite !lookup_insert_eq, slot_same. split_and!; try done; [congruence|].
      intros [->|?]%elem_of_cons; [|done]. by apply Hno.
    + exists sb, t, lt, ft, j. by rewrite !lookup_insert_ne.
Qed.
End Live.

(** ** Several slabs *)

Section Several.
Context {P : Type} `{!PageSource P} (sc : N) (S : slab_state P) (G : gmap N (list N)) (D : gset N) (Hinv : SlabInv sc S G D).

Lemma inv_slab sa s : ss_slabs S !! sa = Some s → ∃ c l fl, ss_caches S !! slab_cache s = Some c ∧ kc_layout c = l ∧ layouts S !! slab_cache s = Some l ∧
  layout_ok l ∧ G !! sa = Some fl ∧ slab_ok (pg_live (ss_pages S)) (ss_mem S) (ss_priv S) (ss_nodes S) (live S G sc) sa s l fl.
Proof.
  intros Hs. destruct (si_slabs _ _ _ _ Hinv _ _ Hs) as (l & fl & HL & HG & Hok). unfold layouts in *. pose proof HL as HL'.
  rewrite lookup_fmap in HL'. apply fmap_Some in HL' as (c & Hc & ->). exists c, (kc_layout c), fl. split_and!; try done.
  apply (co_layout _ _ _ _ _ (si_caches _ _ _ _ Hinv _ _ Hc)).
Qed.

Lemma layouts_inv ca l : layouts S !! ca = Some l → ∃ c, ss_caches S !! ca = Some c ∧ kc_layout c = l ∧ layout_ok l.
Proof.
  unfold layouts. rewrite lookup_fmap. intros (c & Hc & ->)%fmap_Some. exists c. split_and!; try done.
  apply (co_layout _ _ _ _ _ (si_caches _ _ _ _ Hinv _ _ Hc)).
Qed.

(** Different slabs share no byte. *)
Lemma regions_apart sa sb s t ls lt w : ss_slabs S !! sa = Some s → ss_slabs S !! sb = Some t → sa ≠ sb →
  layouts S !! slab_cache s = Some ls → layouts S !! slab_cache t = Some lt →
  region s ≤ w < region s + slab_size ls → ¬ (region t ≤ w < region t + slab_size lt).
Proof.
  intros Hs Ht Hne HLs HLt Hw Hw'. destruct (inv_slab sa s Hs) as (_ & l1 & f1 & _ & _ & HL1 & _ & _ & Hok1).
  destruct (inv_slab sb t Ht) as (_ & l2 & f2 & _ & _ & HL2 & _ & _ & Hok2). simplify_eq.
  destruct (pg_disjoint _ (si_pages _ _ _ _ Hinv) (region s) (slab_size ls) (region t) (slab_size lt)) as [?|?]; [apply Hok1|apply Hok2| |lia..].
  intros E. apply Hne. by eapply si_regions.
Qed.

Lemma slot_unique sa sb s t ls lt i j : ss_slabs S !! sa = Some s → ss_slabs S !! sb = Some t →
  layouts S !! slab_cache s = Some ls → layouts S !! slab_cache t = Some lt →
  i < bufs_per_slab ls → j < bufs_per_slab lt → slot ls s i = slot lt t j → sa = sb ∧ i = j.
Proof.
  intros Hs Ht HLs HLt Hi Hj E. destruct (inv_slab sa s Hs) as (_ & l1 & f1 & _ & _ & HL1 & Hlo1 & _ & Hok1).
  destruct (inv_slab sb t Ht) as (_ & l2 & f2 & _ & _ & HL2 & Hlo2 & _ & Hok2). simplify_eq.
  pose proof (si_pages _ _ _ _ Hinv) as Hpg. destruct (decide (sa = sb)) as [->|Hne].
  - simplify_eq. split; [done|]. by eapply slot_inj.
  - exfalso. destruct (slot_bounds _ _ _ _ _ _ _ _ _ Hlo1 Hok1 i Hi), (slot_bounds _ _ _ _ _ _ _ _ _ Hlo2 Hok2 j Hj).
    destruct (lo_buf _ Hlo1) as [? _], (lo_buf _ Hlo2) as [? _].
    eapply (regions_apart sa sb s t ls lt (slot ls s i)); try done; [destruct (external ls); lia|]. rewrite E. destruct (external lt); lia.
Qed.
End Several.
