(* ===== verification/SlabFrame.v ===== *)
(** What the invariant of the slab allocator says of a slab or of a cache does not
    depend on the rest of the state: the change of one slab. *)

From stdpp Require Import sorting.
From S2P Require Import Prelude Rbtree RbtreeInv RbtreeInsert RbtreeSpec Slab SlabAlign SlabInv.

Open Scope N_scope.

(** ** Slabs *)

Lemma slab_ok_frame lv lv' me me' pr pr' no no' (d d' : N → Prop) sa s l fl :
  pages_ok lv → layout_ok l → slab_ok lv me pr no d sa s l fl →
  lv' !! region s = lv !! region s → (∀ w, region s ≤ w < region s + slab_size l → me' !! w = me !! w) →
  pr' !! region s = pr !! region s → is_Some (no' !! (sa + offsetof_tree_node)) → (d sa → d' sa) →
  slab_ok lv' me' pr' no' d' sa s l fl.
Proof.
  intros Hpg Hl Hs Hlv Hme Hpr Hno Hd. pose proof Hs as [? ? ? ? ? [Hnd Hlt] Hch ? ? ?]. split; auto; [congruence|rewrite Hpr; auto|].
  eapply free_chain_frame; [|done]. intros x (i & -> & Hi)%list_elem_of_fmap. rewrite list.Forall_forall in Hlt.
  apply Hme. by eapply ctl_ok, Hlt.
Qed.

(** ** Caches *)

Definition same_slabs (sl sl' : gmap N kmem_slab) (ca : N) : Prop :=
  ∀ sa s, slab_cache s = ca → sl' !! sa = Some s ↔ sl !! sa = Some s.

Lemma same_slabs_msum f sl sl' ca : same_slabs sl sl' ca → (∀ sa s, slab_cache s ≠ ca → f sa s = 0) → msum f sl' = msum f sl.
Proof.
  intros Hs Hf. rewrite (msum_filter (λ '(_, s), slab_cache s = ca) f sl), (msum_filter (λ '(_, s), slab_cache s = ca) f sl') by (intros k x; apply Hf).
  f_equal. apply map_eq. intros sa. apply option_eq. intros s. rewrite !map_lookup_filter_Some. split; intros [? ?]; split; try done; by apply (Hs sa s).
Qed.

Lemma active_frame sl sl' ca x : same_slabs sl sl' ca → active_node sl' ca x ↔ active_node sl ca x.
Proof. intros Hs. split; intros (sa & s & -> & Hsa & Hc & Hr); exists sa, s; split_and!; try done; by apply (Hs sa s). Qed.

Lemma before_frame sl sl' ca x y : same_slabs sl sl' ca → active_node sl ca x → active_node sl ca y → before sl x y → before sl' x y.
Proof.
  intros Hs (sa & s & -> & Hsa & Hc & _) (sb & t & -> & Hsb & Hcb & _). unfold before, kmem_slab_cmp_insert, kmem_slab_cmp_lookup, slab_of_node.
  rewrite !N.add_sub. rewrite Hsa, Hsb. apply Hs in Hsa, Hsb; try done. by rewrite Hsa, Hsb.
Qed.

Lemma StronglySorted_frame {A} (R R' : A → A → Prop) l : (∀ x y, x ∈ l → y ∈ l → R x y → R' x y) → StronglySorted R l → StronglySorted R' l.
Proof.
  intros HR. induction 1 as [|x l Hs IH Hx]; constructor.
  - apply IH. intros y z Hy Hz. apply HR; by right.
  - rewrite list.Forall_forall in *. intros y Hy. apply HR; [by left|by right|by apply Hx].
Qed.

Lemma rb_tree_frame no no' l root : (∀ x, x ∈ l → no' !! x = no !! x) → rb_tree no l (RbStore root no) → rb_tree no' l (RbStore root no').
Proof. intros Hx (t & [? ? ? Hrep ?] & Hok & <-). exists t. split_and!; [|done..]. split; try done. by eapply Rep_agree. Qed.

Lemma tree_ok_frame no no' sl sl' ca root : same_slabs sl sl' ca → (∀ x, active_node sl ca x → no' !! x = no !! x) →
  tree_ok no sl ca root → tree_ok no' sl' ca root.
Proof.
  intros Hs Hno (l & Ht & Hsort & Hl). exists l. split_and!.
  - eapply rb_tree_frame; [|done]. intros x Hx. by apply Hno, Hl.
  - eapply StronglySorted_frame; [|done]. intros x y Hx Hy. apply (before_frame _ _ ca); [done|by apply Hl..].
  - intros x. by rewrite Hl, (active_frame sl sl').
Qed.

Lemma cache_ok_frame sl sl' no no' D D' ca c : same_slabs sl sl' ca → (∀ x, active_node sl ca x → no' !! x = no !! x) →
  (∀ sa s, sl !! sa = Some s → slab_cache s = ca → sa ∈ D' ↔ sa ∈ D) → cache_ok sl no D ca c → cache_ok sl' no' D' ca c.
Proof.
  intros Hs Hno HD [Hlo Hcol Hnd Hpart Hfree Hnf Hobj Hsl Hbuf Htree].
  assert (msum (listed_in ca D') sl' = msum (listed_in ca D) sl) as Hlisted.
  { rewrite (same_slabs_msum _ sl sl' ca); [|done|].
    - apply msum_ext. intros sa s Hsa. unfold listed_in. destruct (N.eqb_spec (slab_cache s) ca) as [E|]; [|done]. cbn.
      by rewrite (bool_decide_ext _ _ (HD sa s Hsa E)).
    - intros sa s Hc. unfold listed_in. by destruct (N.eqb_spec (slab_cache s) ca). }
  split; try done.
  - intros sa. rewrite Hpart. f_equiv. intros s. split; intros (Hsa & Hc & ? & ?); (split_and!; [by apply (Hs sa s)|done..]).
  - intros sa. rewrite Hfree. f_equiv. intros s. split; intros (Hsa & Hc & Hr & Hd); (split_and!; [by apply (Hs sa s)|done..|]).
    + by rewrite HD.
    + rewrite <- HD; [done| |done]. by apply (Hs sa s).
  - rewrite Hobj. symmetry. apply (same_slabs_msum _ _ _ ca); [done|]. intros sa s Hc. unfold refs_in. by destruct (N.eqb_spec (slab_cache s) ca).
  - by rewrite Hlisted.
  - intros Hu. eapply tree_ok_frame; eauto.
Qed.

(** ** The change of a slab *)

Section Change.
Context {P : Type} `{!PageSource P} (sc : N).
Implicit Types (S : slab_state P) (G : gmap N (list N)) (D : gset N).

(** The slab [t] at [sb] of a layout [l] is left alone by an operation on the
    cache [ca]. *)
Record left_alone S G D S' G' D' (ca sb : N) (t : kmem_slab) (l : kmem_layout) : Prop := {
  la_slab : ss_slabs S' !! sb = Some t;
  la_free : G' !! sb = G !! sb;
  la_pages : pg_live (ss_pages S') !! region t = pg_live (ss_pages S) !! region t;
  la_mem w : region t ≤ w < region t + slab_size l → ss_mem S' !! w = ss_mem S !! w;
  la_priv : ss_priv S' !! region t = ss_priv S !! region t;
  la_node : is_Some (ss_nodes S' !! (sb + offsetof_tree_node));
  la_tree : slab_cache t ≠ ca → ss_nodes S' !! (sb + offsetof_tree_node) = ss_nodes S !! (sb + offsetof_tree_node);
  la_descr : live S G sc sb → live S' G' sc sb;
  la_dead : slab_cache t ≠ ca → sb ∈ D' ↔ sb ∈ D;
}.

Lemma inv_change sa ca c c' S G D S' G' D' :
  SlabInv sc S G D → ss_caches S !! ca = Some c → kc_layout c' = kc_layout c → ss_caches S' = <[ca := c']> (ss_caches S) →
  pages_ok (pg_live (ss_pages S')) → virtual_ok (ss_pages S') → cache_ok (ss_slabs S') (ss_nodes S') D' ca c' →
  (∀ s, ss_slabs S !! sa = Some s → slab_cache s = ca) → (∀ sb, sb ≠ sa → ss_slabs S' !! sb = ss_slabs S !! sb) →
  (∀ sb t l, sb ≠ sa → ss_slabs S !! sb = Some t → layouts S !! slab_cache t = Some l → left_alone S G D S' G' D' ca sb t l) →
  (∀ s, ss_slabs S' !! sa = Some s → slab_cache s = ca ∧ (∃ fl, G' !! sa = Some fl ∧
     slab_ok (pg_live (ss_pages S')) (ss_mem S') (ss_priv S') (ss_nodes S') (live S' G' sc) sa s (kc_layout c) fl) ∧
     ∀ sb t, sb ≠ sa → ss_slabs S !! sb = Some t → region t ≠ region s) →
  (∀ sb, sb ∈ D' → ∃ s, ss_slabs S' !! sb = Some s ∧ slab_nr_refs s = 0) →
  SlabInv sc S' G' D'.
Proof.
  intros Hinv Hc Hlay Hcaches Hpg Hvirt Hco Hold Hother Hla Hnew Hdead.
  assert (layouts S' = layouts S) as HL.
  { unfold layouts. rewrite Hcaches, fmap_insert, Hlay. apply insert_id. by rewrite lookup_fmap, Hc. }
  split; [done|done|..|done|rewrite HL; apply Hinv].
  - intros cb c0. rewrite Hcaches. intros [[<- <-]|[Hne Hcb]]%lookup_insert_Some; [done|].
    eapply cache_ok_frame; [..|by apply (si_caches _ _ _ _ Hinv)].
    + intros sb t Ht. destruct (decide (sb = sa)) as [->|Hsb]; [|by rewrite Hother]. split; intros E.
      * destruct (Hnew _ E) as [? _]. congruence.
      * apply Hold in E. congruence.
    + intros x (sb & t & -> & Ht & Htc & _). destruct (inv_slab _ _ _ _ Hinv _ _ Ht) as (_ & l & _ & _ & _ & HLt & _).
      destruct (decide (sb = sa)) as [->|Hsb]; [apply Hold in Ht; congruence|]. apply (la_tree _ _ _ _ _ _ _ _ _ _ (Hla sb t l Hsb Ht HLt)). congruence.
    + intros sb t Ht Htc. destruct (inv_slab _ _ _ _ Hinv _ _ Ht) as (_ & l & _ & _ & _ & HLt & _).
      destruct (decide (sb = sa)) as [->|Hsb]; [apply Hold in Ht; congruence|]. apply (la_dead _ _ _ _ _ _ _ _ _ _ (Hla sb t l Hsb Ht HLt)). congruence.
  - intros sb t Ht. rewrite HL. destruct (decide (sb = sa)) as [->|Hsb].
    + destruct (Hnew t Ht) as (-> & (fl & HG & Hok) & _). exists (kc_layout c), fl. split_and!; try done. unfold layouts. by rewrite lookup_fmap, Hc.
    + rewrite Hother in Ht by done. destruct (inv_slab _ _ _ _ Hinv _ _ Ht) as (c0 & l & fl & _ & _ & HLt & Hlok & HG & Hok).
      destruct (Hla sb t l Hsb Ht HLt) as [Ha1 Ha2 Ha3 Ha4 Ha5 Ha6 Ha7 Ha8 Ha9]. exists l, fl. split_and!; [done|congruence|].
      exact (slab_ok_frame _ _ _ _ _ _ _ _ _ _ _ _ _ _ (si_pages _ _ _ _ Hinv) Hlok Hok Ha3 Ha4 Ha5 Ha6 Ha8).
  - intros sb sd t u Ht Hu E. destruct (decide (sb = sa)) as [->|Hsb], (decide (sd = sa)) as [->|Hsd]; [done|..].
    + rewrite Hother in Hu by done. destruct (Hnew t Ht) as (_ & _ & Hr). by destruct (Hr sd u).
    + rewrite Hother in Ht by done. destruct (Hnew u Hu) as (_ & _ & Hr). by destruct (Hr sb t).
    + rewrite !Hother in Ht, Hu by done. by eapply (si_regions _ _ _ _ Hinv).
Qed.
End Change.
