(* ===== verification/SlabTree.v ===== *)
(** The tree of active slabs of a cache: what kern/rbtree.c is used for here. *)

From stdpp Require Import sorting.
From S2P Require Import Prelude Rbtree RbtreeInv RbtreeInsert RbtreeWalk RbtreeSpec Slab SlabAlign SlabInv SlabFrame.

Open Scope N_scope.

(** ** The order *)

Definition addr_of (sl : gmap N kmem_slab) (x : N) : option N := slab_addr <$> sl !! slab_of_node x.

Lemma cmp_insert_neg sl x y : before sl x y ↔ ∃ a b, addr_of sl x = Some a ∧ addr_of sl y = Some b ∧ a < b.
Proof.
  unfold before, addr_of, kmem_slab_cmp_insert, kmem_slab_cmp_lookup. destruct (sl !! slab_of_node x) as [s|], (sl !! slab_of_node y) as [t|]; cbn;
    [|split; [lia|intros (? & ? & ? & ? & ?); done]..].
  split.
  - intros Hlt. exists (slab_addr s), (slab_addr t). split_and!; try done. destruct (N.eqb_spec (slab_addr s) (slab_addr t)); [lia|].
    destruct (N.ltb_spec (slab_addr s) (slab_addr t)); lia.
  - intros (? & ? & [= <-] & [= <-] & Hlt). destruct (N.eqb_spec (slab_addr s) (slab_addr t)); [lia|].
    destruct (N.ltb_spec (slab_addr s) (slab_addr t)); lia.
Qed.

Lemma cmp_insert_antisym sl x y : (kmem_slab_cmp_insert sl x y < 0 ↔ 0 < kmem_slab_cmp_insert sl y x)%Z.
Proof.
  unfold kmem_slab_cmp_insert, kmem_slab_cmp_lookup. destruct (sl !! slab_of_node x) as [s|], (sl !! slab_of_node y) as [t|]; try done.
  rewrite (N.eqb_sym (slab_addr t)). destruct (N.eqb_spec (slab_addr s) (slab_addr t)); [done|].
  destruct (N.ltb_spec (slab_addr s) (slab_addr t)), (N.ltb_spec (slab_addr t) (slab_addr s)); lia.
Qed.

Lemma cmp_insert_trans sl x y z : before sl x y → before sl y z → before sl x z.
Proof. rewrite !cmp_insert_neg. intros (a & b & Ha & Hb & ?) (b' & d & Hb' & Hd & ?). exists a, d. split_and!; try done. simplify_eq. lia. Qed.

Lemma cmp_insert_ne sl sa sb s t : sl !! sa = Some s → sl !! sb = Some t → slab_addr s ≠ slab_addr t →
  kmem_slab_cmp_insert sl (sa + offsetof_tree_node) (sb + offsetof_tree_node) ≠ 0%Z.
Proof.
  intros Hs Ht Hne. unfold kmem_slab_cmp_insert, kmem_slab_cmp_lookup, slab_of_node. rewrite !N.add_sub, Hs, Ht.
  destruct (N.eqb_spec (slab_addr s) (slab_addr t)); [done|]. by destruct (_ <? _).
Qed.

(** ** Trees *)

Lemma StronglySorted_all {A} (R : A → A → Prop) (Q : A → Prop) l : (∀ x y, Q x → Q y → R x y) → Forall Q l → StronglySorted R l.
Proof. intros HR. induction 1 as [|x l Hx Hl IH]; constructor; [done|]. eapply list.Forall_impl; [done|]. auto. Qed.

Lemma Rep_some h t p x : Rep h t p → x ∈ inorder t → is_Some (h !! x).
Proof.
  revert p. induction t as [|c l IHl a r IHr]; intros p; cbn; [by intros _ ?%elem_of_nil|]. intros (Ha & Hl & Hr).
  rewrite elem_of_app, elem_of_cons. intros [?|[->|?]]; eauto.
Qed.

Lemma rb_tree_inv F l s : rb_tree F l s → rb_tree (rb_nodes s) l (RbStore (rb_root s) (rb_nodes s)) ∧
  (∀ x, x ∉ l → rb_nodes s !! x = F !! x) ∧ (∀ x, x ∈ l → is_Some (rb_nodes s !! x)).
Proof.
  intros (t & [? ? ? Hrep Hfr] & Hok & <-). split_and!; [|done|intros x; by eapply Rep_some].
  exists t. split_and!; [|done..]. by split.
Qed.

Lemma active_update sl ca sa s' x : slab_cache s' = ca →
  active_node (<[sa := s']> sl) ca x ↔ x = sa + offsetof_tree_node ∧ 0 < slab_nr_refs s' ∨ x ≠ sa + offsetof_tree_node ∧ active_node sl ca x.
Proof.
  intros Hc'. split.
  - intros (sb & t & -> & Hb & Htc & Hr). apply lookup_insert_Some in Hb as [[<- <-]|[Hne Hb]]; [by left|right]. split; [lia|by exists sb, t].
  - intros [[-> Hr]|[Hne (sb & t & -> & Hb & Htc & Hr)]]; [exists sa, s'; by rewrite lookup_insert_eq|]. exists sb, t.
    split_and!; [done| |done..]. rewrite lookup_insert_ne; [done|]. by intros ->.
Qed.

Section Tree.
Context (no : gmap N rbtree_node) (sl : gmap N kmem_slab) (ca root sa : N) (s : kmem_slab).
Context (Ht : tree_ok no sl ca root) (Hs : sl !! sa = Some s) (Hc : slab_cache s = ca).
Context (Haddr : ∀ sb t, sl !! sb = Some t → slab_cache t = ca → sb ≠ sa → slab_addr t ≠ slab_addr s).

(** Orders by address. *)
Lemma before_update s' x y : slab_addr s' = slab_addr s → before (<[sa := s']> sl) x y ↔ before sl x y.
Proof.
  intros Ha. rewrite !cmp_insert_neg. assert (∀ z, addr_of (<[sa := s']> sl) z = addr_of sl z) as E.
  { intros z. unfold addr_of. destruct (decide (slab_of_node z = sa)) as [->|]; [by rewrite lookup_insert_eq, Hs; cbn; rewrite Ha|by rewrite lookup_insert_ne]. }
  by setoid_rewrite E.
Qed.

(** It stays active, or inactive. *)
Lemma tree_same s' : slab_cache s' = ca → slab_addr s' = slab_addr s → (0 < slab_nr_refs s' ↔ 0 < slab_nr_refs s) →
  tree_ok no (<[sa := s']> sl) ca root.
Proof.
  intros Hc' Ha Hr. destruct Ht as (k & Hrb & Hsort & Hk). exists k. split_and!; [done|..].
  - eapply StronglySorted_frame; [|done]. intros x y _ _. by apply before_update.
  - intros x. rewrite active_update, Hk by done. destruct (decide (x = sa + offsetof_tree_node)) as [->|]; [|tauto].
    rewrite Hr. split; [|by intros [[_ ?]|[? _]]; [exists sa, s|done]]. intros (sb & t & E & Hb & _ & ?).
    assert (sb = sa) as -> by lia. simplify_eq. by left.
Qed.

(** A slab becomes active. *)
Lemma tree_insert_run s' : slab_cache s' = ca → slab_addr s' = slab_addr s → slab_nr_refs s = 0 → 0 < slab_nr_refs s' →
  good (sa + offsetof_tree_node) → is_Some (no !! (sa + offsetof_tree_node)) →
  ∃ t, rbtree_insert (kmem_slab_cmp_insert (<[sa := s']> sl) (sa + offsetof_tree_node)) (sa + offsetof_tree_node) (RbStore root no) = Some (tt, t) ∧
    tree_ok (rb_nodes t) (<[sa := s']> sl) ca (rb_root t) ∧
    (∀ x, ¬ active_node sl ca x → x ≠ sa + offsetof_tree_node → rb_nodes t !! x = no !! x) ∧
    (∀ x, is_Some (no !! x) → is_Some (rb_nodes t !! x)).
Proof.
  intros Hc' Ha Hr Hr' Hgood [n Hn]. destruct Ht as (l & Hrb & Hsort & Hl).
  assert (sa + offsetof_tree_node ∉ l) as Hnin.
  { rewrite Hl. intros (sb & t & E & Hb & _ & ?). assert (sb = sa) as -> by lia. simplify_eq. lia. }
  destruct (insert_sorted_run (kmem_slab_cmp_insert (<[sa := s']> sl)) no (RbStore root no) l (sa + offsetof_tree_node) n)
    as (t & l1 & l2 & Hrun & -> & Htr & Hso); try done.
  - apply cmp_insert_antisym.
  - apply cmp_insert_trans.
  - eapply StronglySorted_frame; [|done]. intros x y _ _. apply before_update, Ha.
  - intros x (sb & t & -> & Hb & Htc & Hact)%Hl. assert (sb ≠ sa). { intros ->. apply Hnin, Hl. by exists sa, t. }
    apply (cmp_insert_ne _ _ _ s' t); [by rewrite lookup_insert_eq|by rewrite lookup_insert_ne|]. rewrite Ha. intros E. by apply (Haddr sb t).
  - exists t. apply rb_tree_inv in Htr as (Htr & Hout & Hin). split_and!; [done| | |].
    + exists (l1 ++ (sa + offsetof_tree_node) :: l2). split_and!; [done..|]. intros x. rewrite active_update, <- Hl, !elem_of_app, elem_of_cons by done.
      rewrite elem_of_app in Hnin. split; [|tauto]. intros [Hx|[->|Hx]]; [right|by left|right]; (split; [intros ->; tauto|tauto]).
    + intros x Hx Hne. apply Hout. rewrite <- Hl, elem_of_app in Hx. rewrite elem_of_app, elem_of_cons. tauto.
    + intros x Hx. destruct (decide (x ∈ l1 ++ (sa + offsetof_tree_node) :: l2)); [by apply Hin|by rewrite Hout].
Qed.

(** A slab is no longer active. *)
Lemma tree_remove_run s' : slab_cache s' = ca → slab_addr s' = slab_addr s → 0 < slab_nr_refs s → slab_nr_refs s' = 0 →
  ∃ t, rbtree_remove (sa + offsetof_tree_node) (RbStore root no) = Some (tt, t) ∧
    tree_ok (rb_nodes t) (<[sa := s']> sl) ca (rb_root t) ∧
    (∀ x, ¬ active_node sl ca x → x ≠ sa + offsetof_tree_node → rb_nodes t !! x = no !! x) ∧
    (∀ x, is_Some (no !! x) → is_Some (rb_nodes t !! x)).
Proof.
  intros Hc' Ha Hr Hr'. destruct Ht as (l & Hrb & Hsort & Hl).
  assert (sa + offsetof_tree_node ∈ l) as Hin by (apply Hl; by exists sa, s).
  apply list_elem_of_split in Hin as (l1 & l2 & ->). destruct (remove_run no _ l1 _ l2 Hrb) as (t & n & Hrun & Htr).
  destruct Hrb as (rt & [Hnd _ _ _ _] & _ & E). rewrite E in Hnd. apply list.NoDup_app in Hnd as (Hnd1 & Hd & [Hx Hnd2]%list.NoDup_cons).
  exists t. apply rb_tree_inv in Htr as (Htr & Hout & Hin). split_and!; [done| | |].
  - exists (l1 ++ l2). split_and!; [done| |].
    + apply (StronglySorted_frame (before sl)); [intros x y _ _; by apply before_update|].
      apply StronglySorted_app in Hsort as (H1 & H2 & H3). apply StronglySorted_app. apply StronglySorted_inv in H3 as [H3 _].
      split_and!; [|done..]. intros x y Hx1 Hy. apply H1; [done|by right].
    + intros x. rewrite active_update, <- Hl, Hr', !elem_of_app, elem_of_cons by done. specialize (Hd (sa + offsetof_tree_node)).
      rewrite elem_of_cons in Hd. split; [|intros [[_ ?]|[? ?]]; [lia|tauto]]. intros Hx'. right. split; [intros ->; tauto|tauto].
  - intros x Hx' Hne. rewrite <- Hl, elem_of_app, elem_of_cons in Hx'. rewrite Hout by (rewrite elem_of_app; tauto). by apply lookup_insert_ne, not_eq_sym.
  - intros x Hx'. destruct (decide (x ∈ l1 ++ l2)); [by apply Hin|]. rewrite Hout by done.
    destruct (decide (x = sa + offsetof_tree_node)) as [->|]; [by rewrite lookup_insert_eq|by rewrite lookup_insert_ne].
Qed.

(** [b] is in the slab, and not past the start of a slab that is after it. *)
Lemma tree_lookup_run b : 0 < slab_nr_refs s → slab_addr s ≤ b →
  (∀ sb t, sl !! sb = Some t → slab_cache t = ca → slab_addr s < slab_addr t → b < slab_addr t) →
  rb_lookup_nearest (kmem_slab_cmp_lookup sl b) RBTREE_LEFT (RbStore root no) = Some (sa + offsetof_tree_node, RbStore root no).
Proof.
  intros Hr Hb Hafter. destruct Ht as (l & Hrb & Hsort & Hl).
  assert (sa + offsetof_tree_node ∈ l) as Hin by (apply Hl; by exists sa, s). apply list_elem_of_split in Hin as (l1 & l2 & ->).
  assert (addr_of sl (sa + offsetof_tree_node) = Some (slab_addr s)) as Hx. { unfold addr_of, slab_of_node. by rewrite N.add_sub, Hs. }
  assert (∀ y a, addr_of sl y = Some a → kmem_slab_cmp_lookup sl b y = if b =? a then 0%Z else if b <? a then (-1)%Z else 1%Z) as Hcmp.
  { intros y a. unfold addr_of, kmem_slab_cmp_lookup. intros (t & -> & ->)%fmap_Some. done. }
  apply StronglySorted_app in Hsort as (Hlt & _ & H3). apply StronglySorted_inv in H3 as [_ H3].
  assert (Forall (λ y, 0 < kmem_slab_cmp_lookup sl b y)%Z l1) as Hl1.
  { apply list.Forall_forall. intros y Hy. specialize (Hlt y _ Hy (list_elem_of_here _ _)).
    apply cmp_insert_neg in Hlt as (a & a' & Ha & Ha' & ?). simplify_eq. rewrite (Hcmp _ _ Ha).
    destruct (N.eqb_spec b a); [lia|]. destruct (N.ltb_spec b a); lia. }
  assert (Forall (λ y, kmem_slab_cmp_lookup sl b y < 0)%Z l2) as Hl2.
  { rewrite list.Forall_forall in *. intros y Hy. pose proof (H3 y Hy) as (a & a' & Ha & Ha' & ?)%cmp_insert_neg. simplify_eq. rewrite (Hcmp _ _ Ha').
    destruct (proj1 (Hl y)) as (sb & t & -> & Hsb & Htc & _); [rewrite elem_of_app, elem_of_cons; tauto|].
    unfold addr_of, slab_of_node in Ha'. rewrite N.add_sub, Hsb in Ha'. cbn in Ha'. simplify_eq. pose proof (Hafter sb t Hsb Htc).
    destruct (N.eqb_spec b (slab_addr t)); [lia|]. destruct (N.ltb_spec b (slab_addr t)); lia. }
  pose proof (Hcmp _ _ Hx) as Hcx.
  change RBTREE_LEFT with (ix false). rewrite (nearest_run _ false no _ _ Hrb).
  - do 2 f_equal. rewrite found_app, (found_none _ l1) by (eapply list.Forall_impl; [done|]; cbn; lia).
    change (found ?c (?x :: l2)) with (if (c x =? 0)%Z then Some x else found c l2). rewrite Hcx. destruct (N.eqb_spec b (slab_addr s)); [done|]. destruct (N.ltb_spec b (slab_addr s)) as [|]; [lia|]. cbn.
    rewrite (found_none _ l2) by (eapply list.Forall_impl; [done|]; cbn; lia). cbn.
    rewrite list.filter_app, (filter_all _ l1), filter_cons_True, (filter_none _ l2); [by rewrite reverse_app| |by rewrite Hcx; destruct (N.eqb_spec b (slab_addr s)); [|destruct (N.ltb_spec b (slab_addr s))]; lia|done].
    eapply list.Forall_impl; [done|]; cbn; lia.
  - unfold monotone. apply StronglySorted_app. split_and!.
    + intros x y Hx1 _. rewrite list.Forall_forall in Hl1. specialize (Hl1 x Hx1). cbn in *. lia.
    + eapply StronglySorted_all, Hl1. cbn. lia.
    + constructor; [eapply StronglySorted_all, Hl2; cbn; lia|]. eapply list.Forall_impl; [done|]. cbn. lia.
Qed.
End Tree.
