(* ===== verification/SlabRun.v ===== *)
(** Execution of the routines of the slab allocator on one cache and one slab. *)

From stdpp Require Import sorting.
From S2P Require Import Prelude Rbtree RbtreeInv RbtreeInsert RbtreeSpec Slab SlabAlign SlabInv SlabFrame SlabTree.

Open Scope N_scope.

Section Run.
Context {P : Type} `{!PageSource P}.
Implicit Types (S : slab_state P) (c : kmem_cache) (s : kmem_slab) (me : gmap N N) (no : gmap N rbtree_node).

(** [S] with the cache [c] at [ca], the slab [s] at [sa], words [me] and tree
    nodes [no]. *)
Definition upd S (ca : N) c (sa : N) s me no : slab_state P :=
  SlabState (<[ca := c]> (ss_caches S)) (<[sa := s]> (ss_slabs S)) no me (ss_priv S) (kmem_cache_list S) (kmem_gc_last_tick S) (ss_pages S).

Lemma upd_id S ca c sa s : ss_caches S !! ca = Some c → ss_slabs S !! sa = Some s → upd S ca c sa s (ss_mem S) (ss_nodes S) = S.
Proof. intros Hc Hs. unfold upd. rewrite !insert_id by done. by destruct S. Qed.

Lemma wp_load_cache S ca c Q : ss_caches S !! ca = Some c → Q c S → wp (load_cache ca) Q S.
Proof. intros Hc HQ. unfold load_cache. apply wp_bind, wp_get. by eapply wp_deref. Qed.
Lemma wp_load_slab S sa s Q : ss_slabs S !! sa = Some s → Q s S → wp (load_slab sa) Q S.
Proof. intros Hs HQ. unfold load_slab. apply wp_bind, wp_get. by eapply wp_deref. Qed.
Lemma wp_upd_cache S ca c f Q : ss_caches S !! ca = Some c → Q tt (set_ss_caches (<[ca := f c]> (ss_caches S)) S) → wp (upd_cache ca f) Q S.
Proof. intros Hc HQ. unfold upd_cache. apply wp_bind. eapply wp_load_cache; [done|]. by apply wp_modify. Qed.
Lemma wp_upd_slab S sa s f Q : ss_slabs S !! sa = Some s → Q tt (set_ss_slabs (<[sa := f s]> (ss_slabs S)) S) → wp (upd_slab sa f) Q S.
Proof. intros Hs HQ. unfold upd_slab. apply wp_bind. eapply wp_load_slab; [done|]. by apply wp_modify. Qed.
Lemma wp_load_word S a Q : Q (mem_read (ss_mem S) a) S → wp (load_word a) Q S.
Proof. done. Qed.
Lemma wp_store_word S a v Q : Q tt (set_ss_mem (<[a := v]> (ss_mem S)) S) → wp (store_word a v) Q S.
Proof. done. Qed.

Lemma wp_on_tree {A} S ca c (f : M rbstore A) a t Q :
  ss_caches S !! ca = Some c → f (RbStore (active_slabs c) (ss_nodes S)) = Some (a, t) →
  Q a (set_ss_caches (<[ca := set_active_slabs (rb_root t) c]> (ss_caches S)) (set_ss_nodes (rb_nodes t) S)) → wp (on_tree ca f) Q S.
Proof.
  intros Hc Hf HQ. unfold on_tree. apply wp_bind. eapply wp_load_cache; [done|]. apply wp_bind, wp_get, wp_bind. rewrite Hf. apply wp_ret.
  apply wp_bind, wp_modify, wp_bind. by eapply wp_upd_cache.
Qed.

(** ** On such a state *)

Section At.
Context (S : slab_state P) (ca sa : N).
#[local] Abbreviation at_ := (upd S ca).

Lemma wp_load_cache_at c s me no Q : Q c (at_ c sa s me no) → wp (load_cache ca) Q (at_ c sa s me no).
Proof. apply wp_load_cache. apply lookup_insert_eq. Qed.
Lemma wp_load_slab_at c s me no Q : Q s (at_ c sa s me no) → wp (load_slab sa) Q (at_ c sa s me no).
Proof. apply wp_load_slab. apply lookup_insert_eq. Qed.
Lemma wp_upd_cache_at f c s me no Q : Q tt (at_ (f c) sa s me no) → wp (upd_cache ca f) Q (at_ c sa s me no).
Proof.
  intros HQ. eapply wp_upd_cache; [apply lookup_insert_eq|]. unfold set_ss_caches, upd in *. cbn in *. by rewrite insert_insert_eq.
Qed.
Lemma wp_upd_slab_at f c s me no Q : Q tt (at_ c sa (f s) me no) → wp (upd_slab sa f) Q (at_ c sa s me no).
Proof.
  intros HQ. eapply wp_upd_slab; [apply lookup_insert_eq|]. unfold set_ss_slabs, upd in *. cbn in *. by rewrite insert_insert_eq.
Qed.
Lemma wp_store_word_at a v c s me no Q : Q tt (at_ c sa s (<[a := v]> me) no) → wp (store_word a v) Q (at_ c sa s me no).
Proof. exact id. Qed.
Lemma wp_on_tree_at {A} (f : M rbstore A) a t c s me no Q : f (RbStore (active_slabs c) no) = Some (a, t) →
  Q a (at_ (set_active_slabs (rb_root t) c) sa s me (rb_nodes t)) → wp (on_tree ca f) Q (at_ c sa s me no).
Proof.
  intros Hf HQ. eapply wp_on_tree; [apply lookup_insert_eq|done|]. unfold set_ss_caches, set_ss_nodes, upd in *. cbn in *. by rewrite insert_insert_eq.
Qed.
End At.

(** ** The lists of a cache *)

Lemma filter_ne_not (sa : N) (l : list N) : sa ∉ l → filter (.≠ sa) l = l.
Proof. intros Hn. apply filter_all, list.Forall_forall. intros x Hx ->. done. Qed.

Lemma filter_ne_length (sa : N) (l : list N) : NoDup l → sa ∈ l → N.of_nat (length (filter (.≠ sa) l)) + 1 = N.of_nat (length l).
Proof.
  intros Hnd (l1 & l2 & ->)%list_elem_of_split. apply list.NoDup_app in Hnd as (_ & Hd & [Hn _]%list.NoDup_cons).
  rewrite list.filter_app, filter_cons_False by (intros E; by apply E). specialize (Hd sa). rewrite elem_of_cons in Hd. rewrite !filter_ne_not by tauto.
  rewrite !length_app. cbn. lia.
Qed.

(** A cache after the number of references of one of its slabs has changed. *)
Lemma cache_update sl no no' D ca c c' sa s s' :
  cache_ok sl no D ca c → sl !! sa = Some s → slab_cache s = ca → slab_cache s' = ca → sa ∉ D →
  kc_layout c' = kc_layout c → color c' = color c → nr_slabs c' = nr_slabs c → nr_bufs c' = nr_bufs c →
  nr_objs c' + slab_nr_refs s = nr_objs c + slab_nr_refs s' →
  NoDup (partial_slabs c') → NoDup (free_slabs c') → nr_free_slabs c' = N.of_nat (length (free_slabs c')) →
  (∀ sb, sb ∈ partial_slabs c' ↔ sb = sa ∧ 0 < slab_nr_refs s' < bufs_per_slab (kc_layout c) ∨ sb ≠ sa ∧ sb ∈ partial_slabs c) →
  (∀ sb, sb ∈ free_slabs c' ↔ sb = sa ∧ slab_nr_refs s' = 0 ∨ sb ≠ sa ∧ sb ∈ free_slabs c) →
  (has (flags (kc_layout c)) KMEM_CF_USE_TREE = true → tree_ok no' (<[sa := s']> sl) ca (active_slabs c')) →
  cache_ok (<[sa := s']> sl) no' D ca c'.
Proof.
  intros [Hlo Hcol Hnd Hpart Hfree Hnf Hobj Hsl Hbuf Htree] Hs Hsc Hsc' HD Hl Hcol' Hsl' Hbuf' Hobj' Hnp Hnfr Hlen Hp' Hf' Ht'.
  split; rewrite ?Hl; try done; [by rewrite Hcol'|..].
  - intros sb. rewrite Hp', Hpart. split.
    + intros [[-> Hr]|[Hne (t & Ht & Htc & Hr)]]; [exists s'; by rewrite lookup_insert_eq|exists t; by rewrite lookup_insert_ne].
    + intros (t & Ht & Htc & Hr). apply lookup_insert_Some in Ht as [[<- <-]|[Hne Ht]]; [by left|right]. split; [done|by exists t].
  - intros sb. rewrite Hf', Hfree. split.
    + intros [[-> Hr]|[Hne (t & Ht & Htc & Hr & Hd)]]; [exists s'; by rewrite lookup_insert_eq|exists t; by rewrite lookup_insert_ne].
    + intros (t & Ht & Htc & Hr & Hd). apply lookup_insert_Some in Ht as [[<- <-]|[Hne Ht]]; [by left|right]. split; [done|by exists t].
  - pose proof (msum_update (refs_in ca) sl sa s s' Hs) as E. unfold refs_in at 2 4 in E. rewrite Hsc, Hsc', N.eqb_refl in E. lia.
  - pose proof (msum_update (listed_in ca D) sl sa s s' Hs) as E. unfold listed_in at 2 4 in E. rewrite Hsc, Hsc' in E. lia.
  - by rewrite Hbuf', Hsl'.
Qed.

(** The slabs a cache allocates from. *)
Lemma head_slab sl no D ca c sa : (∀ sb, sb ∈ D → ∃ s, sl !! sb = Some s ∧ slab_nr_refs s = 0) →
  cache_ok sl no D ca c → head (partial_slabs c ++ free_slabs c) = Some sa →
  sa ∉ D ∧ ∃ s, sl !! sa = Some s ∧ slab_cache s = ca ∧ slab_nr_refs s < bufs_per_slab (kc_layout c) ∧
    (sa ∈ partial_slabs c ∧ sa ∉ free_slabs c ∧ 0 < slab_nr_refs s ∨ sa ∈ free_slabs c ∧ sa ∉ partial_slabs c ∧ slab_nr_refs s = 0).
Proof.
  intros Hdead Hc Hh. assert (sa ∈ partial_slabs c ∨ sa ∈ free_slabs c) as Hin.
  { rewrite <- elem_of_app. destruct (partial_slabs c ++ free_slabs c) as [|y k]; [done|]. injection Hh as ->. by left. }
  pose proof (co_partial _ _ _ _ _ Hc sa) as Hp. pose proof (co_free _ _ _ _ _ Hc sa) as Hf.
  pose proof (lo_bufs _ (co_layout _ _ _ _ _ Hc)) as Hb. destruct Hin as [H|H].
  - pose proof (proj1 Hp H) as (s & Hs & Hsc & ? & ?). split; [intros (t & Ht & ?)%Hdead; simplify_eq; lia|]. exists s. split_and!; try done.
    left. split_and!; try done. rewrite Hf. intros (t & Ht & _ & ? & _). simplify_eq. lia.
  - pose proof (proj1 Hf H) as (s & Hs & Hsc & ? & ?). split; [done|]. exists s. split_and!; try done; [lia|].
    right. split_and!; try done. rewrite Hp. intros (t & Ht & _ & ? & _). simplify_eq. lia.
Qed.
End Run.
