(* ===== verification/SlabAlloc.v ===== *)
(** Allocation of a buffer from the slabs of a cache. *)

From stdpp Require Import sorting.
From S2P Require Import Prelude Rbtree RbtreeInv RbtreeInsert RbtreeSpec Slab SlabAlign SlabInv SlabFrame SlabTree SlabRun.

Open Scope N_scope.

Section Alloc.
Context {P : Type} `{!PageSource P} (sc : N).
Implicit Types (S : slab_state P) (G : gmap N (list N)) (D : gset N).

(** ** What an allocation does *)

(** [r] is a new object of the cache [ca], aligned.  Other objects are those that
    were there, except that a cache may have allocated a descriptor. *)
Record allocated S G (ca : N) S' G' (r : N) : Prop := {
  al_new : ¬ live S G ca r;
  al_live cb x : (cb = sc → ca = sc) → live S' G' cb x ↔ live S G cb x ∨ cb = ca ∧ x = r;
  al_descr x : live S G sc x → live S' G' sc x;
  al_align : r ≠ 0 ∧ r mod 8 = 0 ∧ ∀ l, layouts S !! ca = Some l → align l ≤ PAGE_SIZE → r mod align l = 0;
  al_unused : ca = sc → ss_slabs S' !! r = None;
}.

(** Nothing is lost, and new slabs are made of new pages. *)
Record extends S S' (ca : N) : Prop := {
  ex_layouts : layouts S' = layouts S;
  ex_caches cb : cb ≠ ca → cb ≠ sc → ss_caches S' !! cb = ss_caches S !! cb;
  ex_pages b n : pg_live (ss_pages S) !! b = Some n → pg_live (ss_pages S') !! b = Some n;
  ex_slabs sb t : ss_slabs S' !! sb = Some t →
    pg_live (ss_pages S) !! region t = None ∨ ∃ t0, ss_slabs S !! sb = Some t0 ∧ region t0 = region t;
  ex_list : kmem_cache_list S' = kmem_cache_list S;
}.

(** ** One buffer of a slab *)

Section Take.
Context (S : slab_state P) (G : gmap N (list N)) (D : gset N) (ca sa i : N) (c : kmem_cache) (s : kmem_slab) (fl : list N).
Context (Hinv : SlabInv sc S G D) (Hc : ss_caches S !! ca = Some c) (Hs : ss_slabs S !! sa = Some s) (Hsc : slab_cache s = ca).
Context (HG : G !! sa = Some (i :: fl)) (HD : sa ∉ D).
#[local] Abbreviation l := (kc_layout c).

Definition take_slab : kmem_slab := KSlab (slab_cache s) (slab_nr_refs s + 1) (mem_read (ss_mem S) (slab_first_free s)) (slab_addr s).

Lemma take_facts : layout_ok l ∧ cache_ok (ss_slabs S) (ss_nodes S) D ca c ∧
  slab_ok (pg_live (ss_pages S)) (ss_mem S) (ss_priv S) (ss_nodes S) (live S G sc) sa s l (i :: fl) ∧ layouts S !! ca = Some l.
Proof.
  destruct (inv_slab _ _ _ _ Hinv _ _ Hs) as (c0 & l0 & fl0 & H1 & H2 & H3 & H4 & H5 & H6). rewrite Hsc in *. simplify_eq.
  split_and!; try done. by apply Hinv.
Qed.

Lemma take_live cb x : live_in (layouts S) (<[sa := take_slab]> (ss_slabs S)) (<[sa := fl]> G) cb x ↔ live S G cb x ∨ cb = ca ∧ x = slot l s i.
Proof.
  destruct take_facts as (_ & _ & Hok & HL). rewrite <- Hsc in *. destruct (so_free _ _ _ _ _ _ _ _ _ Hok) as [Hnd [Hi _]%list.Forall_cons].
  by apply live_take with (fl := i :: fl).
Qed.

Lemma take_new : ¬ live S G ca (slot l s i).
Proof.
  destruct take_facts as (Hlo & _ & Hok & HL). destruct (so_free _ _ _ _ _ _ _ _ _ Hok) as [_ [Hi _]%list.Forall_cons].
  intros (sb & t & lt & ft & j & Ht & Htc & HLt & HGt & Hj & Hjf & E).
  destruct (slot_unique _ _ _ _ Hinv sa sb s t l lt i j) as [-> ->]; try done; [congruence..|]. simplify_eq. apply Hjf. by left.
Qed.

(** It is no slab descriptor: those in the cache of descriptors are allocated, and
    those at the end of a slab are no buffers. *)
Lemma take_unused : ca = sc → ss_slabs S !! slot l s i = None.
Proof.
  intros Hcs. destruct take_facts as (Hlo & _ & Hok & HL). destruct (so_free _ _ _ _ _ _ _ _ _ Hok) as [_ [Hi _]%list.Forall_cons].
  destruct (ss_slabs S !! slot l s i) as [t|] eqn:Ht; [|done]. exfalso.
  destruct (inv_slab _ _ _ _ Hinv _ _ Ht) as (c0 & lt & ft & _ & _ & HLt & Hlot & _ & Hokt). destruct (external lt) eqn:He.
  - apply take_new. rewrite Hcs. by apply Hokt.
  - pose proof (so_embed _ _ _ _ _ _ _ _ _ Hokt He) as E. destruct (si_descr _ _ _ _ Hinv) as (lc & HLc & Hec & Hsz).
    rewrite <- Hcs, HL in HLc. injection HLc as <-. destruct (slot_bounds _ _ _ _ _ _ _ _ _ Hlo Hok i Hi) as [Hb1 Hb2].
    pose proof (lo_fit _ Hlot) as Hfit. rewrite He in Hfit. rewrite Hec in Hb2. destruct (decide (sa = slot l s i)) as [Heq|Hne].
    + rewrite <- Heq in Ht. assert (t = s) as -> by congruence. assert (lt = l) as -> by congruence. lia.
    + eapply (regions_apart _ _ _ _ Hinv sa (slot l s i) s t l lt (slot l s i)); try done; [congruence|lia|]. pose proof (lo_bufs _ Hlot). lia.
Qed.

Lemma take_inv c' no' : kc_layout c' = l → cache_ok (<[sa := take_slab]> (ss_slabs S)) no' D ca c' →
  (∀ x, ¬ active_node (ss_slabs S) ca x → x ≠ sa + offsetof_tree_node → no' !! x = ss_nodes S !! x) →
  (∀ x, is_Some (ss_nodes S !! x) → is_Some (no' !! x)) →
  SlabInv sc (upd S ca c' sa take_slab (ss_mem S) no') (<[sa := fl]> G) D ∧
  allocated S G ca (upd S ca c' sa take_slab (ss_mem S) no') (<[sa := fl]> G) (slot l s i) ∧
  extends S (upd S ca c' sa take_slab (ss_mem S) no') ca.
Proof.
  intros Hl Hco Hno Hsome. destruct take_facts as (Hlo & _ & Hok & HL).
  assert (layouts (upd S ca c' sa take_slab (ss_mem S) no') = layouts S) as HLs.
  { unfold layouts, upd. cbn. rewrite fmap_insert, Hl. by apply insert_id. }
  assert (∀ cb x, live (upd S ca c' sa take_slab (ss_mem S) no') (<[sa := fl]> G) cb x ↔ live S G cb x ∨ cb = ca ∧ x = slot l s i) as Hlive.
  { intros cb x. unfold live. rewrite HLs. apply take_live. }
  destruct (so_free _ _ _ _ _ _ _ _ _ Hok) as [[_ Hnd]%list.NoDup_cons [Hi Hlt]%list.Forall_cons]. split_and!.
  - eapply (inv_change sc sa ca c c' S G D); try done.
    + apply Hinv.
    + apply Hinv.
    + by intros s0 E; simplify_eq.
    + intros sb Hne. by apply lookup_insert_ne.
    + intros sb t lt Hne Ht HLt. split; cbn; try done.
      * by rewrite lookup_insert_ne.
      * by rewrite lookup_insert_ne.
      * apply Hsome. destruct (inv_slab _ _ _ _ Hinv _ _ Ht) as (? & ? & ? & _ & _ & _ & _ & _ & Hok'). apply Hok'.
      * intros Htc. apply Hno; [|lia]. intros (sd & u & E & Hu & ? & _). assert (sd = sb) as -> by lia. congruence.
      * intros Hd. apply Hlive. by left.
    + cbn. rewrite lookup_insert_eq. intros s' [= <-]. split; [done|]. split; [exists fl; split; [by rewrite lookup_insert_eq|]|].
      * destruct Hok as [? ? ? ? ? _ [Hff Hch] Hrefs Hnode ?]. split; try done.
        -- intros He. apply Hlive. auto.
        -- cbn. by rewrite Hff.
        -- cbn in *. lia.
        -- by apply Hsome.
      * intros sb t Hne Ht E. apply Hne. by eapply (si_regions _ _ _ _ Hinv).
    + intros sb Hsb. destruct (si_dead _ _ _ _ Hinv sb Hsb) as (t & Ht & Hr). exists t. cbn. by rewrite lookup_insert_ne by (intros ->; done).
  - split; [apply take_new|done|intros x Hx; apply Hlive; by left|..].
    + destruct (slot_ok _ _ _ _ _ _ _ _ _ (si_pages _ _ _ _ Hinv) Hlo Hok i Hi) as (? & ? & Ha). split_and!; try done. intros l' Hl'. by simplify_eq.
    + intros Hcs. cbn. pose proof (take_unused Hcs). rewrite lookup_insert_ne; [done|]. congruence.
  - split; try done; cbn.
    + intros cb Hne _. by apply lookup_insert_ne.
    + intros sb t. intros [[<- <-]|[Hne Ht]]%lookup_insert_Some; right; [by exists s|by exists t].
Qed.
End Take.

(** ** The routine *)

Lemma node_good (S : slab_state P) G D sa s : SlabInv sc S G D → ss_slabs S !! sa = Some s →
  good (sa + offsetof_tree_node) ∧ is_Some (ss_nodes S !! (sa + offsetof_tree_node)).
Proof.
  intros Hinv Hs. destruct (inv_slab _ _ _ _ Hinv _ _ Hs) as (? & ? & ? & _ & _ & _ & _ & _ & Hok). split; [|apply Hok].
  destruct (so_slab _ _ _ _ _ _ _ _ _ Hok) as [H0 H8]. split; [lia|]. unfold rbtree_check_alignment. apply N.eqb_eq.
  change RBTREE_PARENT_LOW with (N.ones 2). rewrite N.land_ones, N.Div0.add_mod. change (2 ^ 2) with 4. by rewrite (mod_mod0 sa 8 4).
Qed.

Lemma addr_distinct (S : slab_state P) G D sa sb s t : SlabInv sc S G D → ss_slabs S !! sa = Some s → ss_slabs S !! sb = Some t → sb ≠ sa →
  slab_addr t ≠ slab_addr s.
Proof. intros Hinv Hs Ht Hne E. apply Hne. eapply (si_regions _ _ _ _ Hinv); try done. unfold region. by rewrite E. Qed.

Section From.
Context (S : slab_state P) (G : gmap N (list N)) (D : gset N) (ca sa : N) (c : kmem_cache) (s : kmem_slab).
Context (Hinv : SlabInv sc S G D) (Hc : ss_caches S !! ca = Some c) (Hs : ss_slabs S !! sa = Some s).
Context (Hhead : head (partial_slabs c ++ free_slabs c) = Some sa).
#[local] Abbreviation l := (kc_layout c).

(** The lists of the cache, and the number of slabs on the free list. *)
Definition take_lists : kmem_cache :=
  let c1 := set_nr_objs (nr_objs c + 1) c in
  let dec c := set_nr_free_slabs (nr_free_slabs c - 1) c in
  if slab_nr_refs s + 1 =? bufs_per_slab l then if slab_nr_refs s + 1 =? 1 then dec (list_remove sa c1) else list_remove sa c1
  else if slab_nr_refs s + 1 =? 1 then let c2 := list_remove sa c1 in dec (set_partial_slabs (partial_slabs c2 ++ [sa]) c2)
  else c1.

Lemma take_lists_layout : kc_layout take_lists = l.
Proof. unfold take_lists. repeat case_match; done. Qed.
Lemma take_lists_root : active_slabs take_lists = active_slabs c.
Proof. unfold take_lists. repeat case_match; done. Qed.

Lemma take_cache no' root :
  (has (flags l) KMEM_CF_USE_TREE = true → tree_ok no' (<[sa := take_slab S s]> (ss_slabs S)) ca root) →
  cache_ok (<[sa := take_slab S s]> (ss_slabs S)) no' D ca (set_active_slabs root take_lists).
Proof.
  intros Htree. pose proof (si_caches _ _ _ _ Hinv _ _ Hc) as Hco.
  destruct (head_slab _ _ _ _ _ _ (si_dead _ _ _ _ Hinv) Hco Hhead) as (HD & s0 & Hs0 & Hsc & Hlt & Hcase). simplify_eq.
  destruct (co_nodup _ _ _ _ _ Hco) as [Hnp Hnf]. pose proof (co_nr_free _ _ _ _ _ Hco) as Hlen.
  assert (∀ x (k : list N), x ∈ filter (.≠ sa) k ↔ x ≠ sa ∧ x ∈ k) as Hfil by (intros x k; by rewrite list_elem_of_filter).
  destruct Hcase as [(Hin & Hnin & Hr)|(Hin & Hnin & Hr)]; unfold take_lists.
  - destruct (N.eqb_spec (slab_nr_refs s + 1) 1) as [|_]; [lia|]. destruct (N.eqb_spec (slab_nr_refs s + 1) (bufs_per_slab l)) as [Hb|Hb].
    + eapply cache_update; try done; cbn; [lia|by apply list.NoDup_filter..| | |]; rewrite ?(filter_ne_not sa (free_slabs c)) by done; try done.
      * intros sb. rewrite Hfil. split; [tauto|]. intros [[-> ?]|?]; [lia|done].
      * intros sb. split; [intros ?; right; split; [by intros ->|done]|]. intros [[-> ?]|[_ ?]]; [lia|done].
    + eapply cache_update; try done; cbn; [lia| |].
      * intros sb. destruct (decide (sb = sa)) as [->|]; [|tauto]. split; [|done]. intros _. left. split; [done|lia].
      * intros sb. split; [intros ?; right; split; [by intros ->|done]|]. intros [[-> ?]|[_ ?]]; [lia|done].
  - pose proof (filter_ne_length sa (free_slabs c) Hnf Hin) as Hl'. rewrite Hr. change (0 + 1 =? 1) with true.
    destruct (N.eqb_spec (0 + 1) (bufs_per_slab l)) as [Hb|Hb].
    + eapply cache_update; try done; cbn; rewrite ?(filter_ne_not sa (partial_slabs c)) by done; try done; [lia|by apply list.NoDup_filter|lia| |].
      * intros sb. split; [intros ?; right; split; [by intros ->|done]|]. intros [[-> ?]|[_ ?]]; [lia|done].
      * intros sb. rewrite Hfil. split; [tauto|]. intros [[-> ?]|?]; [lia|done].
    + eapply cache_update; try done; cbn; rewrite ?(filter_ne_not sa (partial_slabs c)) by done; try done; [lia| |by apply list.NoDup_filter|lia| |].
      * apply list.NoDup_app. split_and!; [done| |apply NoDup_singleton]. intros x Hx ->%list_elem_of_singleton. done.
      * intros sb. rewrite elem_of_app, list_elem_of_singleton. destruct (decide (sb = sa)) as [->|]; [|tauto]. split; [|tauto]. intros _. left. split; [done|lia].
      * intros sb. rewrite Hfil. split; [tauto|]. intros [[-> ?]|?]; [lia|done].
Qed.

Lemma head_fl : ∃ i fl, G !! sa = Some (i :: fl) ∧ slab_cache s = ca ∧ sa ∉ D.
Proof.
  pose proof (si_caches _ _ _ _ Hinv _ _ Hc) as Hco.
  destruct (head_slab _ _ _ _ _ _ (si_dead _ _ _ _ Hinv) Hco Hhead) as (HD & s0 & Hs0 & Hsc & Hlt & _). simplify_eq.
  destruct (inv_slab _ _ _ _ Hinv _ _ Hs) as (c0 & l0 & fl & ? & <- & _ & _ & HG & Hok). simplify_eq.
  pose proof (so_refs _ _ _ _ _ _ _ _ _ Hok). destruct fl as [|i fl]; [cbn in *; lia|]. by exists i, fl.
Qed.

(** The tree is changed when the slab becomes active. *)
Lemma take_tree me Q :
  (∀ no' root, (has (flags l) KMEM_CF_USE_TREE = true → tree_ok no' (<[sa := take_slab S s]> (ss_slabs S)) ca root) →
     (∀ x, ¬ active_node (ss_slabs S) ca x → x ≠ sa + offsetof_tree_node → no' !! x = ss_nodes S !! x) →
     (∀ x, is_Some (ss_nodes S !! x) → is_Some (no' !! x)) →
     Q tt (upd S ca (set_active_slabs root take_lists) sa (take_slab S s) me no')) →
  wp (if (slab_nr_refs (take_slab S s) =? 1) && has (flags l) KMEM_CF_USE_TREE then
        st ← get;
        on_tree ca (rbtree_insert (kmem_slab_cmp_insert (ss_slabs st) (sa + offsetof_tree_node)) (sa + offsetof_tree_node))
      else mret tt) Q (upd S ca take_lists sa (take_slab S s) me (ss_nodes S)).
Proof.
  intros HQ. destruct head_fl as (_ & _ & _ & Hsc & _). pose proof (si_caches _ _ _ _ Hinv _ _ Hc) as Hco.
  assert (take_lists = set_active_slabs (active_slabs c) take_lists) as Hself. { rewrite <- take_lists_root at 1. by destruct take_lists. }
  destruct (has (flags l) KMEM_CF_USE_TREE) eqn:Hu.
  - pose proof (co_tree _ _ _ _ _ Hco Hu) as Ht. rewrite andb_true_r. cbn [slab_nr_refs take_slab]. destruct (N.eqb_spec (slab_nr_refs s + 1) 1) as [E|E].
    + destruct (node_good _ _ _ _ _ Hinv Hs) as [Hg Hn].
      destruct (tree_insert_run (ss_nodes S) (ss_slabs S) ca (active_slabs c) sa s Ht Hs Hsc
        (λ sb t Hb _ Hne, addr_distinct S G D sa sb s t Hinv Hs Hb Hne) (take_slab S s)) as (t & Hrun & Htr & Hout & Hsome); try done; [lia|cbn; lia|].
      apply wp_bind, wp_get. eapply wp_on_tree_at; [rewrite take_lists_root; exact Hrun|]. by apply HQ.
    + apply wp_ret. rewrite Hself. apply HQ; try done. intros _. apply (tree_same _ _ _ _ _ s); try done; [|cbn; lia]. intros sb t Hb _. by eapply addr_distinct.
  - rewrite andb_false_r. apply wp_ret. rewrite Hself. by apply HQ.
Qed.

Lemma alloc_from_slab_run Q i fl : G !! sa = Some (i :: fl) →
  (∀ c' no', kc_layout c' = l → cache_ok (<[sa := take_slab S s]> (ss_slabs S)) no' D ca c' →
     (∀ x, ¬ active_node (ss_slabs S) ca x → x ≠ sa + offsetof_tree_node → no' !! x = ss_nodes S !! x) →
     (∀ x, is_Some (ss_nodes S !! x) → is_Some (no' !! x)) →
     Q (slot l s i) (upd S ca c' sa (take_slab S s) (ss_mem S) no')) →
  wp (kmem_cache_alloc_from_slab ca) Q S.
Proof.
  intros HG HQ. destruct head_fl as (_ & _ & _ & Hsc & HD).
  destruct (take_facts _ _ _ _ _ _ _ _ _ Hinv Hc Hs Hsc HG) as (Hlo & Hco & Hok & _).
  destruct (so_free _ _ _ _ _ _ _ _ _ Hok) as [_ [Hi _]%list.Forall_cons]. destruct (so_chain _ _ _ _ _ _ _ _ _ Hok) as [Hff _].
  destruct (ctl_ok _ _ _ _ _ _ _ _ _ (si_pages _ _ _ _ Hinv) Hlo Hok i Hi) as [_ H0].
  rewrite <- (upd_id S ca c sa s Hc Hs). unfold kmem_cache_alloc_from_slab. apply wp_bind, wp_load_cache_at. rewrite Hhead.
  apply wp_bind, wp_load_slab_at, wp_bind, wp_check; [rewrite Hff; by apply negb_true_iff, N.eqb_neq|].
  apply wp_bind, wp_load_word, wp_bind, wp_upd_slab_at, wp_bind, wp_upd_slab_at, wp_bind, wp_upd_cache_at, wp_bind, wp_load_slab_at.
  cbn [slab_nr_refs set_slab_nr_refs set_slab_first_free slab_cache slab_addr slab_first_free ss_mem upd].
  change (KSlab _ _ _ _) with (take_slab S s). apply wp_bind.
  assert (∀ Q', (Q' tt (upd S ca take_lists sa (take_slab S s) (ss_mem S) (ss_nodes S)) : Prop) →
    wp (if slab_nr_refs s + 1 =? bufs_per_slab l then
         upd_cache ca (list_remove sa);;
         if slab_nr_refs s + 1 =? 1 then upd_cache ca (λ c, set_nr_free_slabs (nr_free_slabs c - 1) c) else mret tt
       else if slab_nr_refs s + 1 =? 1 then
         upd_cache ca (list_remove sa);;
         upd_cache ca (λ c, set_partial_slabs (partial_slabs c ++ [sa]) c);;
         upd_cache ca (λ c, set_nr_free_slabs (nr_free_slabs c - 1) c)
       else mret tt) Q' (upd S ca (set_nr_objs (nr_objs c + 1) c) sa (take_slab S s) (ss_mem S) (ss_nodes S))) as Hlists.
  { intros Q' HQ'. unfold take_lists in HQ'. destruct (_ =? bufs_per_slab l), (_ =? 1); repeat (apply wp_upd_cache_at || apply wp_bind || apply wp_ret); done. }
  apply Hlists, wp_bind, take_tree. intros no' root Htree Hout Hsome. apply wp_ret.
  rewrite Hff. destruct (slot_ctl l Hlo s i) as (_ & _ & ->). apply HQ; try done; [apply take_lists_layout|by apply take_cache].
Qed.
End From.

(** Allocation takes a buffer, unless the cache has no slab with a free one. *)
Lemma alloc_from_slab_ok S G D ca c : SlabInv sc S G D → ss_caches S !! ca = Some c →
  wp (kmem_cache_alloc_from_slab ca) (λ r S', r = 0 ∧ S' = S ∧ partial_slabs c ++ free_slabs c = [] ∨
    ∃ G', SlabInv sc S' G' D ∧ allocated S G ca S' G' r ∧ extends S S' ca ∧ ss_mem S' = ss_mem S) S.
Proof.
  intros Hinv Hc. destruct (head (partial_slabs c ++ free_slabs c)) as [sa|] eqn:Hh.
  - destruct (head_slab _ _ _ _ _ _ (si_dead _ _ _ _ Hinv) (si_caches _ _ _ _ Hinv _ _ Hc) Hh) as (_ & s & Hs & _).
    destruct (head_fl _ _ _ _ _ _ _ Hinv Hc Hs Hh) as (i & fl & HG & Hsc & HD). eapply alloc_from_slab_run; try done.
    intros c' no' Hl Hco Hout Hsome. right. exists (<[sa := fl]> G).
    destruct (take_inv S G D ca sa i c s fl Hinv Hc Hs Hsc HG HD c' no' Hl Hco Hout Hsome) as (? & ? & ?). by split_and!.
  - unfold kmem_cache_alloc_from_slab. apply wp_bind. eapply wp_load_cache; [done|]. rewrite Hh. apply wp_ret. left. split_and!; try done.
    by apply head_None.
Qed.
End Alloc.
