(* ===== verification/SlabFree.v ===== *)
(** A buffer is given back: the slab it is in is found, and the buffer is put on
    its free list. *)

From stdpp Require Import sorting.
From S2P Require Import Prelude Rbtree RbtreeInv RbtreeInsert RbtreeSpec Slab SlabAlign SlabInv SlabFrame SlabTree SlabRun SlabAlloc.

Open Scope N_scope.

Lemma nodup_bound (fl : list N) n : NoDup fl → Forall (λ i, i < n) fl → N.of_nat (length fl) ≤ n.
Proof.
  intros Hnd Hlt. assert (length fl ≤ N.to_nat n)%nat; [|lia]. rewrite <- (length_fmap N.to_nat fl), <- (length_seq (N.to_nat n) 0).
  apply submseteq_length, NoDup_submseteq; [by apply (NoDup_fmap_2 _)|].
  intros x (i & -> & Hi)%list_elem_of_fmap. rewrite list.Forall_forall in Hlt. apply elem_of_seq. specialize (Hlt i Hi). cbn in Hlt. lia.
Qed.

Section Free.
Context {P : Type} `{!PageSource P} (sc : N).

Section Give.
Context (S : slab_state P) (G : gmap N (list N)) (D : gset N) (ca sa i : N) (c : kmem_cache) (s : kmem_slab) (fl : list N).
Context (Hinv : SlabInv sc S G D) (Hc : ss_caches S !! ca = Some c) (Hs : ss_slabs S !! sa = Some s) (Hsc : slab_cache s = ca).
Context (HG : G !! sa = Some fl) (Hib : i < bufs_per_slab (kc_layout c)) (Hi : i ∉ fl).
#[local] Abbreviation l := (kc_layout c).

Lemma give_facts : layout_ok l ∧ cache_ok (ss_slabs S) (ss_nodes S) D ca c ∧
  slab_ok (pg_live (ss_pages S)) (ss_mem S) (ss_priv S) (ss_nodes S) (live S G sc) sa s l fl ∧ layouts S !! ca = Some l ∧
  0 < slab_nr_refs s ≤ bufs_per_slab l ∧ sa ∉ D.
Proof.
  destruct (inv_slab _ _ _ _ Hinv _ _ Hs) as (c0 & l0 & fl0 & H1 & H2 & H3 & H4 & H5 & H6). rewrite Hsc in *. simplify_eq.
  destruct (so_free _ _ _ _ _ _ _ _ _ H6) as [Hnd Hlt]. pose proof (nodup_bound (i :: fl) (bufs_per_slab l)) as Hb. cbn in Hb.
  pose proof (so_refs _ _ _ _ _ _ _ _ _ H6) as Hr. assert (0 < slab_nr_refs s ≤ bufs_per_slab l) as Hr'.
  { assert (N.of_nat (Datatypes.S (length fl)) ≤ bufs_per_slab l); [|lia]. apply Hb; [by apply list.NoDup_cons|by apply list.Forall_cons]. }
  split_and!; try done; try lia; [by apply Hinv|]. intros (t & Ht & ?)%(si_dead _ _ _ _ Hinv). simplify_eq. lia.
Qed.

(** Slabs of the same cache that start later start past the buffer. *)
Lemma later_slab sb t : ss_slabs S !! sb = Some t → slab_cache t = ca → slab_addr s < slab_addr t → slot l s i < slab_addr t.
Proof.
  intros Ht Htc Hlt. destruct give_facts as (Hlo & _ & Hok & HL & _ & _).
  destruct (inv_slab _ _ _ _ Hinv _ _ Ht) as (c0 & l0 & fl0 & H1 & H2 & H3 & H4 & H5 & H6). rewrite Htc in *. simplify_eq.
  destruct (slot_bounds _ _ _ _ _ _ _ _ _ Hlo Hok i Hib) as [Hb1 Hb2]. destruct (so_addr _ _ _ _ _ _ _ _ _ Hok) as ([Ha1 Ha2] & _).
  destruct (so_addr _ _ _ _ _ _ _ _ _ H6) as ([Ht1 Ht2] & _). destruct (lo_buf _ Hlo) as [? _]. pose proof (lo_fit _ Hlo).
  assert (0 < bufs_per_slab l * buf_size l) by (pose proof (lo_bufs _ Hlo); nia).
  destruct (decide (sa = sb)) as [->|Hne]; [simplify_eq; lia|].
  destruct (pg_disjoint _ (si_pages _ _ _ _ Hinv) (region s) (slab_size l) (region t) (slab_size l)) as [?|?]; [apply Hok|apply H6| |lia..].
  intros E. apply Hne. by eapply (si_regions _ _ _ _ Hinv).
Qed.

Lemma slab_of_buf_ok : wp (slab_of_buf ca (slot l s i)) (λ r S', r = sa ∧ S' = S) S.
Proof.
  destruct give_facts as (Hlo & Hco & Hok & HL & Hr & HD). pose proof (si_pages _ _ _ _ Hinv) as Hpg.
  destruct (lo_buf _ Hlo) as [Hb _]. destruct (region_range _ _ _ _ _ _ _ _ _ Hpg Hok) as (Hr0 & Hrm & Hrs).
  assert (slab_size l = PAGE_SIZE → page_of (slot l s i) = region s) as Hpage.
  { intros E. apply (page_of_slot _ _ _ _ _ _ _ _ _ Hpg Hlo Hok i); [done..|]. lia. }
  unfold slab_of_buf. apply wp_bind. eapply wp_load_cache; [done|]. rewrite (lo_direct _ Hlo), (lo_page _ Hlo), (lo_tree _ Hlo).
  destruct (N.eqb_spec (slab_size l) PAGE_SIZE) as [E|E].
  - rewrite !andb_true_r. cbn [negb]. destruct (external l) eqn:He; cbn [negb].
    + assert (pg_live (ss_pages S) !! region s = Some (slab_size l)) as Hlv by apply Hok.
      apply wp_bind. unfold page_exists. apply wp_bind, wp_get, wp_ret, wp_bind, wp_check.
      { apply bool_decide_eq_true. rewrite (Hpage E), Hlv. done. }
      apply wp_bind, wp_get, wp_ret. rewrite (Hpage E), (so_page _ _ _ _ _ _ _ _ _ Hok); [done|]. by rewrite (lo_page _ Hlo), He, E.
    + apply wp_bind, wp_check; [done|]. apply wp_ret. split; [|done]. rewrite (so_embed _ _ _ _ _ _ _ _ _ Hok He).
      destruct (slot_bounds _ _ _ _ _ _ _ _ _ Hlo Hok i Hib) as [? ?]. pose proof (Hpage E) as Hp. rewrite page_of_spec in Hp by lia.
      change (slot l s i mod PAGE_SIZE) with (slot l s i mod 2 ^ 12) in Hp. rewrite E in *. change PAGE_SIZE with (2 ^ 12) in *.
      rewrite P2END_spec by (rewrite ?Hp; lia). rewrite Hp. unfold u64_sub, u64, wrap. change (72 mod 2 ^ 64) with 72.
      replace (region s + 2 ^ 12 + (2 ^ 64 - 72)) with (region s + 2 ^ 12 - 72 + 1 * 2 ^ 64) by lia. rewrite N.Div0.mod_add. apply N.mod_small. lia.
  - rewrite !andb_false_r. cbn [negb]. apply wp_bind, wp_check; [done|]. apply wp_bind, wp_get, wp_bind.
    eapply wp_on_tree; [done|apply (tree_lookup_run (ss_nodes S) (ss_slabs S) ca (active_slabs c) sa s)|]; try done.
    + apply (co_tree _ _ _ _ _ Hco). rewrite (lo_tree _ Hlo). by apply negb_true_iff, N.eqb_neq.
    + intros sb t Hb' _ Hne. by apply (addr_distinct sc S G D sa sb s t).
    + lia.
    + unfold slot. lia.
    + intros sb t. apply later_slab.
    + apply wp_bind, wp_check; [by destruct (sa + offsetof_tree_node) eqn:?; [lia|]|]. apply wp_ret. split; [apply N.add_sub|].
      unfold set_ss_caches, set_ss_nodes. cbn. rewrite insert_id; [by destruct S|]. rewrite Hc. by destruct c.
Qed.

(** ** The slab and the cache *)

Definition give_slab : kmem_slab := KSlab (slab_cache s) (slab_nr_refs s - 1) (ctl l s i) (slab_addr s).
Definition give_mem : gmap N N := <[ctl l s i := slab_first_free s]> (ss_mem S).

(** The lists of the cache. *)
Definition give_lists : kmem_cache :=
  let c1 := set_nr_objs (nr_objs c - 1) c in
  if slab_nr_refs s - 1 =? 0 then
    let c2 := if 1 <? bufs_per_slab l then list_remove sa c1 else c1 in
    let c3 := set_free_slabs (sa :: free_slabs c2) c2 in set_nr_free_slabs (nr_free_slabs c3 + 1) c3
  else if slab_nr_refs s - 1 =? bufs_per_slab l - 1 then set_partial_slabs (sa :: partial_slabs c1) c1
  else c1.

Lemma give_lists_layout : kc_layout give_lists = l.
Proof. unfold give_lists. repeat case_match; done. Qed.

Lemma give_cache no' root :
  (has (flags l) KMEM_CF_USE_TREE = true → tree_ok no' (<[sa := give_slab]> (ss_slabs S)) ca root) →
  cache_ok (<[sa := give_slab]> (ss_slabs S)) no' D ca (set_active_slabs root give_lists).
Proof.
  intros Htree. destruct give_facts as (Hlo & Hco & Hok & HL & Hr & HD). destruct (co_nodup _ _ _ _ _ Hco) as [Hnp Hnf].
  pose proof (co_nr_free _ _ _ _ _ Hco) as Hlen. assert (1 ≤ nr_objs c) as Hobj.
  { rewrite (co_objs _ _ _ _ _ Hco), (msum_delete _ _ _ _ Hs). unfold refs_in at 1. rewrite Hsc, N.eqb_refl. lia. }
  assert (∀ x (k : list N), x ∈ filter (.≠ sa) k ↔ x ≠ sa ∧ x ∈ k) as Hfil by (intros x k; by rewrite list_elem_of_filter).
  assert (sa ∉ free_slabs c) as Hnfree. { rewrite (co_free _ _ _ _ _ Hco). intros (t & Ht & _ & ? & _). simplify_eq. lia. }
  assert (slab_nr_refs s = bufs_per_slab l → sa ∉ partial_slabs c) as Hnpart. { rewrite (co_partial _ _ _ _ _ Hco). intros ? (t & Ht & _ & ? & ?). simplify_eq. lia. }
  assert (slab_nr_refs s ≠ bufs_per_slab l → sa ∈ partial_slabs c) as Hpart. { intros ?. apply (co_partial _ _ _ _ _ Hco). exists s. split_and!; try done; lia. }
  unfold give_lists. destruct (N.eqb_spec (slab_nr_refs s - 1) 0) as [H1|H1].
  - assert (∀ sb, sb ∈ sa :: free_slabs c ↔ sb = sa ∧ slab_nr_refs give_slab = 0 ∨ sb ≠ sa ∧ sb ∈ free_slabs c) as Hf.
    { intros sb. rewrite elem_of_cons. cbn. rewrite H1. destruct (decide (sb = sa)) as [->|]; tauto. }
    destruct (N.ltb_spec 1 (bufs_per_slab l)) as [Hb|Hb].
    + eapply cache_update; try done; cbn; rewrite ?(filter_ne_not sa (free_slabs c)) by done; try done; [lia|by apply list.NoDup_filter|by apply list.NoDup_cons|lia|].
      intros sb. rewrite Hfil. split; [tauto|]. intros [[-> ?]|?]; [lia|done].
    + eapply cache_update; try done; cbn; [lia|by apply list.NoDup_cons|lia|].
      intros sb. split; [intros Hsb; right; split; [intros ->; apply Hnpart; [lia|done]|done]|]. intros [[-> ?]|[_ ?]]; [lia|done].
  - assert (∀ sb, sb ∈ free_slabs c ↔ sb = sa ∧ slab_nr_refs give_slab = 0 ∨ sb ≠ sa ∧ sb ∈ free_slabs c) as Hf.
    { intros sb. cbn. split; [intros ?; right; split; [by intros ->|done]|]. intros [[_ ?]|[_ ?]]; [lia|done]. }
    destruct (N.eqb_spec (slab_nr_refs s - 1) (bufs_per_slab l - 1)) as [Hb|Hb].
    + eapply cache_update; try done; cbn; [lia|apply list.NoDup_cons; split; [apply Hnpart; lia|done]|].
      intros sb. rewrite elem_of_cons. destruct (decide (sb = sa)) as [->|]; [|tauto]. split; [|tauto]. intros _. left. split; [done|lia].
    + eapply cache_update; try done; cbn; [lia|]. intros sb. destruct (decide (sb = sa)) as [->|]; [|tauto]. split; [|intros _; apply Hpart; lia].
      intros _. left. split; [done|lia].
Qed.

(** ** The invariant *)

Context (Hunused : ca = sc → ss_slabs S !! slot l s i = None).

Lemma give_live cb x : live_in (layouts S) (<[sa := give_slab]> (ss_slabs S)) (<[sa := i :: fl]> G) cb x ↔ live S G cb x ∧ ¬ (cb = ca ∧ x = slot l s i).
Proof.
  destruct give_facts as (_ & _ & Hok & HL & _). rewrite <- Hsc in *. apply live_give; try done. intros sb t lt j Ht HLt Hj E.
  by eapply slot_unique.
Qed.

Lemma give_inv c' no' : kc_layout c' = l → cache_ok (<[sa := give_slab]> (ss_slabs S)) no' D ca c' →
  (∀ x, ¬ active_node (ss_slabs S) ca x → x ≠ sa + offsetof_tree_node → no' !! x = ss_nodes S !! x) →
  (∀ x, is_Some (ss_nodes S !! x) → is_Some (no' !! x)) →
  SlabInv sc (upd S ca c' sa give_slab give_mem no') (<[sa := i :: fl]> G) D ∧
  ∀ cb x, live (upd S ca c' sa give_slab give_mem no') (<[sa := i :: fl]> G) cb x ↔ live S G cb x ∧ ¬ (cb = ca ∧ x = slot l s i).
Proof.
  intros Hl Hco Hno Hsome. destruct give_facts as (Hlo & _ & Hok & HL & Hr & HD).
  assert (layouts (upd S ca c' sa give_slab give_mem no') = layouts S) as HLs.
  { unfold layouts, upd. cbn. rewrite fmap_insert, Hl. by apply insert_id. }
  assert (∀ cb x, live (upd S ca c' sa give_slab give_mem no') (<[sa := i :: fl]> G) cb x ↔ live S G cb x ∧ ¬ (cb = ca ∧ x = slot l s i)) as Hlive.
  { intros cb x. unfold live. rewrite HLs. apply give_live. }
  assert (∀ sb t, ss_slabs S !! sb = Some t → live S G sc sb → live (upd S ca c' sa give_slab give_mem no') (<[sa := i :: fl]> G) sc sb) as Hdescr.
  { intros sb t Ht Hd. apply Hlive. split; [done|]. intros [E ->]. rewrite Hunused in Ht by done. done. }
  destruct (ctl_ok _ _ _ _ _ _ _ _ _ (si_pages _ _ _ _ Hinv) Hlo Hok i Hib) as [Hctl Hctl0].
  split; [|done]. eapply (inv_change sc sa ca c c' S G D); try done.
  - apply Hinv.
  - apply Hinv.
  - by intros s0 E; simplify_eq.
  - intros sb Hne. by apply lookup_insert_ne.
  - intros sb t lt Hne Ht HLt. split; cbn; try done.
    + by rewrite lookup_insert_ne.
    + by rewrite lookup_insert_ne.
    + intros w Hw. apply lookup_insert_ne. intros <-. eapply (regions_apart _ _ _ _ Hinv sa sb s t l lt (ctl l s i)); try done; congruence.
    + apply Hsome. destruct (inv_slab _ _ _ _ Hinv _ _ Ht) as (? & ? & ? & _ & _ & _ & _ & _ & Hok'). apply Hok'.
    + intros Htc. apply Hno; [|lia]. intros (sd & u & E & Hu & ? & _). assert (sd = sb) as -> by lia. congruence.
    + by eapply Hdescr.
  - cbn. rewrite lookup_insert_eq. intros s' [= <-]. split; [done|]. split; [exists (i :: fl); split; [by rewrite lookup_insert_eq|]|].
    + pose proof Hok as [? ? ? ? ? [Hnd Hlt] Hch Hrefs Hnode ?]. split; try done.
      * intros He. eapply Hdescr; [done|auto].
      * split; [by apply list.NoDup_cons|by apply list.Forall_cons].
      * apply free_chain_push; [done|]. intros (j & E & Hj)%list_elem_of_fmap. revert E. apply (ctl_ne l Hlo s). by intros ->.
      * cbn in *. lia.
      * by apply Hsome.
    + intros sb t Hne Ht E. apply Hne. by eapply (si_regions _ _ _ _ Hinv).
  - intros sb Hsb. destruct (si_dead _ _ _ _ Hinv sb Hsb) as (t & Ht & Hr'). exists t. cbn. by rewrite lookup_insert_ne by (intros ->; done).
Qed.

(** ** The routine *)

Lemma give_tree_same : slab_nr_refs s - 1 ≠ 0 → has (flags l) KMEM_CF_USE_TREE = true →
  tree_ok (ss_nodes S) (<[sa := give_slab]> (ss_slabs S)) ca (active_slabs c).
Proof.
  intros Hr Hu. destruct give_facts as (Hlo & Hco & _). apply (tree_same _ _ _ _ _ s); try done; [by apply (co_tree _ _ _ _ _ Hco)| |cbn; lia].
  intros sb t Hb _. by eapply (addr_distinct sc S G D).
Qed.

Lemma give_tree_remove : slab_nr_refs s - 1 = 0 → has (flags l) KMEM_CF_USE_TREE = true →
  ∃ t, rbtree_remove (sa + offsetof_tree_node) (RbStore (active_slabs c) (ss_nodes S)) = Some (tt, t) ∧
    tree_ok (rb_nodes t) (<[sa := give_slab]> (ss_slabs S)) ca (rb_root t) ∧
    (∀ x, ¬ active_node (ss_slabs S) ca x → x ≠ sa + offsetof_tree_node → rb_nodes t !! x = ss_nodes S !! x) ∧
    (∀ x, is_Some (ss_nodes S !! x) → is_Some (rb_nodes t !! x)).
Proof.
  intros Hr Hu. destruct give_facts as (Hlo & Hco & _ & _ & Hr' & _).
  apply (tree_remove_run (ss_nodes S) (ss_slabs S) ca (active_slabs c) sa s); try done; [by apply (co_tree _ _ _ _ _ Hco)|lia].
Qed.

Lemma give_checks : slab_addr s ≤ slot l s i ∧ slot l s i + buf_size l ≤ P2ALIGN (slab_addr s + slab_size l) PAGE_SIZE.
Proof.
  destruct give_facts as (Hlo & _ & Hok & _). destruct (slot_bounds _ _ _ _ _ _ _ _ _ Hlo Hok i Hib) as [_ Hb].
  destruct (so_addr _ _ _ _ _ _ _ _ _ Hok) as ([Ha Ha'] & _). split; [unfold slot; lia|].
  destruct (region_range _ _ _ _ _ _ _ _ _ (si_pages _ _ _ _ Hinv) Hok) as (_ & Hrm & Hrs). destruct (lo_slab _ Hlo) as [Hsm _]. pose proof (lo_color _ Hlo).
  assert ((region s + slab_size l) mod PAGE_SIZE = 0) as Hm by by rewrite N.Div0.add_mod, Hrm, Hsm.
  change (P2ALIGN (slab_addr s + slab_size l) PAGE_SIZE) with (page_of (slab_addr s + slab_size l)).
  replace (slab_addr s + slab_size l) with (region s + slab_size l + (slab_addr s - region s)) by lia.
  rewrite page_of_offset; [lia|done|lia|]. apply N.Div0.mod_divides in Hm as [q Hq]. change PAGE_SIZE with 4096 in *. lia.
Qed.

Lemma free_to_slab_run Q :
  (∀ c' no', kc_layout c' = l → cache_ok (<[sa := give_slab]> (ss_slabs S)) no' D ca c' →
     (∀ x, ¬ active_node (ss_slabs S) ca x → x ≠ sa + offsetof_tree_node → no' !! x = ss_nodes S !! x) →
     (∀ x, is_Some (ss_nodes S !! x) → is_Some (no' !! x)) → Q tt (upd S ca c' sa give_slab give_mem no')) →
  wp (kmem_cache_free_to_slab ca (slot l s i)) Q S.
Proof.
  intros HQ. destruct give_facts as (Hlo & Hco & Hok & HL & Hr & HD). destruct give_checks as [Hc1 Hc2]. unfold kmem_cache_free_to_slab.
  apply wp_bind. eapply wp_mono; [apply slab_of_buf_ok|]. intros r S' [-> ->]. rewrite <- (upd_id S ca c sa s Hc Hs).
  apply wp_bind, wp_load_cache_at, wp_bind, wp_load_slab_at.
  apply wp_bind, wp_check; [by apply N.leb_le|]. apply wp_bind, wp_check; [by apply N.leb_le|].
  apply wp_bind, wp_check; [apply N.leb_le; lia|]. apply wp_bind, wp_check; [apply N.leb_le; lia|].
  apply wp_bind, wp_store_word_at, wp_bind, wp_upd_slab_at, wp_bind, wp_upd_slab_at, wp_bind, wp_upd_cache_at, wp_bind, wp_load_slab_at.
  cbn [slab_nr_refs set_slab_nr_refs set_slab_first_free slab_cache slab_addr slab_first_free].
  change (KSlab _ _ _ _) with give_slab. change (<[kmem_buf_to_bufctl _ _ := _]> _) with give_mem.
  destruct (N.eqb_spec (slab_nr_refs s - 1) 0) as [H1|H1].
  - assert (∀ root no', (∀ x, ¬ active_node (ss_slabs S) ca x → x ≠ sa + offsetof_tree_node → no' !! x = ss_nodes S !! x) →
      (∀ x, is_Some (ss_nodes S !! x) → is_Some (no' !! x)) →
      (has (flags l) KMEM_CF_USE_TREE = true → tree_ok no' (<[sa := give_slab]> (ss_slabs S)) ca root) →
      Q tt (upd S ca (set_active_slabs root give_lists) sa give_slab give_mem no')) as HQ'.
    { intros root no' Hout Hsome Ht. apply HQ; try done; [apply give_lists_layout|by apply give_cache]. }
    unfold give_lists in HQ'. rewrite H1 in HQ'. change (0 =? 0) with true in HQ'. cbv iota beta zeta in HQ'. apply wp_bind.
    destruct (has (flags l) KMEM_CF_USE_TREE) eqn:Hu.
    + destruct (give_tree_remove H1 Hu) as (t & Hrun & Ht & Hout & Hsome). eapply wp_on_tree_at; [exact Hrun|]. specialize (HQ' _ _ Hout Hsome (λ _, Ht)).
      destruct (1 <? bufs_per_slab l); apply wp_bind; repeat (apply wp_upd_cache_at || apply wp_bind || apply wp_ret); exact HQ'.
    + apply wp_ret. specialize (HQ' (active_slabs c) (ss_nodes S) (λ _ _ _, eq_refl) (λ _ H, H)).
      destruct (1 <? bufs_per_slab l); apply wp_bind; repeat (apply wp_upd_cache_at || apply wp_bind || apply wp_ret); by apply HQ'.
  - assert (Q tt (upd S ca (set_active_slabs (active_slabs c) give_lists) sa give_slab give_mem (ss_nodes S))) as HQ'.
    { apply HQ; try done; [apply give_lists_layout|apply give_cache; by apply give_tree_same]. }
    unfold give_lists in HQ'. destruct (N.eqb_spec (slab_nr_refs s - 1) 0); [done|].
    destruct (_ =? bufs_per_slab l - 1); [apply wp_upd_cache_at|apply wp_ret]; exact HQ'.
Qed.
End Give.

(** An allocated object, that is not a descriptor in use, is given back. *)
Lemma kmem_cache_free_ok S G D ca a : SlabInv sc S G D → live S G ca a → (ca = sc → ss_slabs S !! a = None) →
  wp (kmem_cache_free ca a) (λ _ S', ∃ G', SlabInv sc S' G' D ∧ (∀ cb x, live S' G' cb x ↔ live S G cb x ∧ ¬ (cb = ca ∧ x = a)) ∧
    layouts S' = layouts S ∧ kmem_cache_list S' = kmem_cache_list S ∧ ss_pages S' = ss_pages S ∧
    (∀ cb, cb ≠ ca → ss_caches S' !! cb = ss_caches S !! cb) ∧
    (∀ l w, layouts S !! ca = Some l → ¬ (a ≤ w < a + buf_size l) → ss_mem S' !! w = ss_mem S !! w) ∧
    (∀ sb, ss_slabs S !! sb = None → ss_slabs S' !! sb = None) ∧
    (∀ sb t, ss_slabs S !! sb = Some t → ∃ t', ss_slabs S' !! sb = Some t' ∧ slab_addr t' = slab_addr t ∧ (slab_cache t ≠ ca ∨ sb ∈ D → t' = t))) S.
Proof.
  intros Hinv (sa & s & l & fl & i & Hs & Hsc & HL & HG & Hi & Hif & ->) Hun.
  destruct (layouts_inv _ _ _ _ Hinv ca l HL) as (c & Hc & <- & _). eapply free_to_slab_run; try done.
  intros c' no' Hl Hco Hout Hsome. exists (<[sa := i :: fl]> G).
  destruct (give_inv S G D ca sa i c s fl Hinv Hc Hs Hsc HG Hi Hif Hun c' no' Hl Hco Hout Hsome) as [Hinv' Hlive]. split_and!; try done; cbn.
  - unfold layouts, upd. cbn. rewrite fmap_insert, Hl. by apply insert_id.
  - intros cb Hne. by apply lookup_insert_ne.
  - intros l w HL'. assert (l = kc_layout c) as -> by congruence. intros Hw. apply lookup_insert_ne. intros <-. apply Hw.
    destruct (layouts_inv _ _ _ _ Hinv ca _ HL) as (c1 & ? & ? & Hlo). destruct (slot_ctl _ Hlo s i) as (? & ? & _). lia.
  - intros sb Hsb. rewrite lookup_insert_ne; [done|]. congruence.
  - intros sb t Ht. destruct (decide (sb = sa)) as [->|Hne]; [|exists t; by rewrite lookup_insert_ne]. simplify_eq.
    exists (give_slab i c s). rewrite lookup_insert_eq. split_and!; try done. destruct (give_facts S G D (slab_cache s) sa i c s fl) as (_ & _ & _ & _ & _ & ?); try done.
    by intros [?|?].
Qed.
End Free.
