(* ===== verification/SlabPages.v ===== *)
(** The pages of slabs: their allocation and release, and changes of memory that
    concern no slab.  The allocated objects of a cache, read off memory: buffers
    that are not on the free list of their slab. *)

From stdpp Require Import sorting.
From S2P Require Import Prelude Rbtree Slab SlabAlign SlabInv SlabFrame SlabRun SlabAlloc.

Open Scope N_scope.

Lemma P2ROUND_page n : n mod PAGE_SIZE = 0 → 0 < n → n < 2 ^ 64 → P2ROUND n PAGE_SIZE = n.
Proof.
  intros Hm H0 Hlt. apply N.Div0.mod_divides in Hm as [q Hq]. change PAGE_SIZE with (2 ^ 12) in *.
  destruct (P2ROUND_spec n 12) as [Hb [r Hr]%N.Div0.mod_divides]; [done|done|lia|]. rewrite Hr in *. lia.
Qed.

(** Handing out and taking back. *)
Lemma pages_ok_add lv a n : pages_ok lv → fits lv a n → 0 < n → pages_ok (<[a := n]> lv).
Proof.
  intros [Hr Hp Hd] (H0 & Hm & Hlt & Hf) Hn. split.
  - intros b k [[<- <-]|[_ ?]]%lookup_insert_Some; [done|by apply Hr].
  - intros b k [[<- <-]|[_ ?]]%lookup_insert_Some; [done|by eapply Hp].
  - intros b k b' k' [[<- <-]|[? Hb]]%lookup_insert_Some [[<- <-]|[? Hb']]%lookup_insert_Some Hne; [done|by apply Hf| |by eapply Hd].
    destruct (Hf b k Hb); lia.
Qed.
Lemma pages_ok_delete lv a : pages_ok lv → pages_ok (delete a lv).
Proof.
  intros [Hr Hp Hd]. split; [intros b k [_ ?]%lookup_delete_Some; by apply Hr|intros b k [_ ?]%lookup_delete_Some; by eapply Hp|].
  intros b k b' k' [_ ?]%lookup_delete_Some [_ ?]%lookup_delete_Some. by apply Hd.
Qed.
Lemma fits_fresh lv a n : pages_ok lv → fits lv a n → 0 < n → lv !! a = None.
Proof. intros Hpg (_ & _ & _ & Hf) Hn. destruct (lv !! a) as [k|] eqn:E; [|done]. pose proof (pg_positive _ Hpg _ _ E). destruct (Hf _ _ E); lia. Qed.

Lemma layout_size l : layout_ok l → 0 < slab_size l ∧ (slab_size l ≠ PAGE_SIZE → PAGE_SIZE < slab_size l).
Proof.
  intros Hl. pose proof (lo_fit _ Hl). pose proof (lo_bufs _ Hl). destruct (lo_buf _ Hl) as [? _].
  assert (0 < bufs_per_slab l * buf_size l) by nia. split; [lia|]. intros Hne.
  destruct (lo_slab _ Hl) as [[q Hq]%N.Div0.mod_divides _]. change PAGE_SIZE with 4096 in *. lia.
Qed.

Section Pages.
Context {P : Type} `{!PageSource P} (sc : N).
Implicit Types (S : slab_state P) (G : gmap N (list N)) (D : gset N).

(** The pages of a slab; [None] if the thread waits for ever. *)
Definition alloc_pages (l : kmem_layout) (p : P) : option (option N * P) :=
  if slab_size l =? PAGE_SIZE then prod_map Some id <$> page_grab p
  else Some ((if align l <=? PAGE_SIZE then kmem_alloc_wired else kmem_alloc_aligned) p (slab_size l)).

Lemma kmem_pagealloc_ok S l o p (Hl : layout_ok l) : alloc_pages l (ss_pages S) = Some (o, p) → pages_ok (pg_live (ss_pages S)) → virtual_ok (ss_pages S) →
  wp (kmem_pagealloc (slab_size l) (align l) (flags l)) (λ r S', r = default 0 o ∧ S' = set_ss_pages p S ∧ pages_ok (pg_live p) ∧ virtual_ok p ∧
    match o with
    | Some r => r ≠ 0 ∧ fits (pg_live (ss_pages S)) r (slab_size l) ∧ pg_live p = <[r := slab_size l]> (pg_live (ss_pages S))
    | None => pg_live p = pg_live (ss_pages S) ∧ slab_size l ≠ PAGE_SIZE
    end) S.
Proof.
  intros Ho Hpg Hv. destruct (layout_size l Hl) as [H0 Hbig]. destruct (lo_slab _ Hl) as [Hm Hlt]. unfold kmem_pagealloc, alloc_pages in *.
  apply wp_bind, wp_check; [apply N.leb_le, Hl|]. rewrite (lo_physmem _ Hl). destruct (N.eqb_spec (slab_size l) PAGE_SIZE) as [E|E].
  - apply fmap_Some in Ho as ([a p'] & Hg & [= -> ->]). unfold kmem_pagealloc_physmem. apply wp_bind, wp_check; [by apply N.eqb_eq|].
    apply wp_bind, wp_get, wp_bind. rewrite Hg. apply wp_ret. apply page_grab_law in Hg as [Hf Hp]. apply wp_bind, wp_modify, wp_ret.
    rewrite E. unfold virtual_ok, id. rewrite Hp. split_and!; [done|done|by apply pages_ok_add| |apply Hf|done|done].
    intros b n [[_ <-]|[_ Hb]]%lookup_insert_Some; [done|by apply Hv].
  - injection Ho as Ho. unfold kmem_pagealloc_virtual. apply wp_bind, wp_check; [by apply N.ltb_lt, Hbig|]. rewrite P2ROUND_page by done. apply wp_bind, wp_get.
    rewrite Ho. apply wp_bind, wp_modify, wp_ret. unfold virtual_ok.
    assert (match o with
      | Some a => fits (pg_live (ss_pages S)) a (slab_size l) ∧ kernel_virtual_start ≤ a ∧ a + slab_size l ≤ kernel_virtual_end ∧ pg_live p = <[a := slab_size l]> (pg_live (ss_pages S))
      | None => pg_live p = pg_live (ss_pages S) end) as Hlaw.
    { destruct (align l <=? PAGE_SIZE); [by apply alloc_wired_law in Ho|by apply alloc_aligned_law in Ho]. }
    destruct o as [a|]; [destruct Hlaw as (Hf & H1 & H2 & ->)|by rewrite Hlaw]. split_and!; [done|done|by apply pages_ok_add| |apply Hf|done|done].
    intros b n [[<- <-]|[_ Hb]]%lookup_insert_Some; [done|by apply Hv].
Qed.

Lemma kmem_pagefree_ok S l a (Hl : layout_ok l) : pages_ok (pg_live (ss_pages S)) → virtual_ok (ss_pages S) →
  pg_live (ss_pages S) !! a = Some (slab_size l) →
  wp (kmem_pagefree a (slab_size l) (flags l)) (λ _ S', ∃ p, S' = set_ss_pages p S ∧ pages_ok (pg_live p) ∧ virtual_ok p ∧
    pg_live p = delete a (pg_live (ss_pages S))) S.
Proof.
  intros Hpg Hv Ha. destruct (layout_size l Hl) as [H0 Hbig]. destruct (lo_slab _ Hl) as [Hm Hlt]. destruct (pg_range _ Hpg _ _ Ha) as (Ha0 & Ham & Hal).
  assert (∀ p, pg_live p = delete a (pg_live (ss_pages S)) → pages_ok (pg_live p) ∧ virtual_ok p) as Hok.
  { intros p Hp. unfold virtual_ok. rewrite Hp. split; [by apply pages_ok_delete|]. intros b n [_ ?]%lookup_delete_Some. by apply Hv. }
  unfold kmem_pagefree. rewrite (lo_physmem _ Hl). destruct (N.eqb_spec (slab_size l) PAGE_SIZE) as [E|E].
  - unfold kmem_pagefree_physmem. apply wp_bind, wp_check; [by apply N.eqb_eq|]. apply wp_bind. unfold page_exists. apply wp_bind, wp_get, wp_ret, wp_bind, wp_check.
    { apply bool_decide_eq_true. rewrite <- (N.add_0_r a), page_of_offset by (done || lia). by rewrite Ha. }
    apply wp_modify. rewrite E in Ha. eexists. split; [done|]. pose proof (page_release_law _ _ Ha) as Hp. split_and!; [by apply Hok..|done].
  - unfold kmem_pagefree_virtual. destruct (Hv _ _ Ha E). apply wp_bind, wp_check.
    { apply negb_true_iff, orb_false_iff. split; by apply N.ltb_ge. }
    apply wp_bind, wp_check; [by apply N.ltb_lt, Hbig|]. rewrite P2ROUND_page by done. apply wp_modify. eexists. split; [done|].
    pose proof (kmem_free_law _ _ _ Ha) as Hp. split_and!; [by apply Hok..|done].
Qed.

(** ** Changes that concern no slab *)

Lemma inv_outside S G D S' : SlabInv sc S G D →
  ss_caches S' = ss_caches S → ss_slabs S' = ss_slabs S → ss_nodes S' = ss_nodes S → pages_ok (pg_live (ss_pages S')) → virtual_ok (ss_pages S') →
  (∀ sb t l, ss_slabs S !! sb = Some t → layouts S !! slab_cache t = Some l →
    pg_live (ss_pages S') !! region t = pg_live (ss_pages S) !! region t ∧ ss_priv S' !! region t = ss_priv S !! region t ∧
    ∀ w i, i ∈ default [] (G !! sb) → w = ctl l t i → ss_mem S' !! w = ss_mem S !! w) →
  SlabInv sc S' G D.
Proof.
  intros Hinv Hca Hsl Hno Hpg Hv Hout. assert (layouts S' = layouts S) as HL by (unfold layouts; by rewrite Hca).
  split; [done|done|..|rewrite HL; apply Hinv].
  - rewrite Hca, Hsl, Hno. apply Hinv.
  - rewrite Hsl, HL, Hno. intros sa s Hs. destruct (inv_slab _ _ _ _ Hinv _ _ Hs) as (c & l & fl & _ & _ & HLs & Hlok & HG & Hok).
    exists l, fl. split_and!; try done. destruct (Hout _ _ _ Hs HLs) as (H1 & H2 & H3). rewrite HG in H3. cbn in H3.
    assert (∀ x, live S G sc x → live S' G sc x) as Hlive. { unfold live. by rewrite HL, Hsl. }
    destruct Hok as [? ? ? ? ? [? Hlt] ? ? ? ?]. split; eauto; [congruence|by rewrite H2|].
    eapply free_chain_frame; [|done]. intros x (i & -> & Hi)%list_elem_of_fmap. by eapply H3.
  - rewrite Hsl. apply Hinv.
  - rewrite Hsl. apply Hinv.
Qed.

Lemma live_outside S G S' ca x : ss_caches S' = ss_caches S → ss_slabs S' = ss_slabs S → live S' G ca x ↔ live S G ca x.
Proof. intros H1 H2. unfold live, layouts. by rewrite H1, H2. Qed.

(** A constructor, or a client, writes to an object. *)
Lemma inv_write S G D ca l a m : SlabInv sc S G D → live S G ca a → layouts S !! ca = Some l →
  (∀ w, ¬ (a ≤ w < a + obj_size l) → m !! w = ss_mem S !! w) → SlabInv sc (set_ss_mem m S) G D.
Proof.
  intros Hinv (sa & s & l' & fl & i & Hs & Hsc & HL & HG & Hi & Hif & ->) HL' Hm. simplify_eq.
  apply (inv_outside S); try done; [apply Hinv..|]. intros sb t lt Ht HLt. split_and!; [done..|]. intros w j Hj ->. apply Hm.
  destruct (inv_slab _ _ _ _ Hinv _ _ Hs) as (? & l1 & f1 & _ & _ & HL1 & Hlo1 & HG1 & Hok1). simplify_eq.
  destruct (inv_slab _ _ _ _ Hinv _ _ Ht) as (? & l2 & f2 & _ & _ & HL2 & Hlo2 & HG2 & Hok2). simplify_eq.
  pose proof (si_pages _ _ _ _ Hinv) as Hpg. rewrite HG2 in Hj. cbn in Hj. destruct (so_free _ _ _ _ _ _ _ _ _ Hok2) as [_ Hlt].
  rewrite list.Forall_forall in Hlt. specialize (Hlt j Hj). cbn in Hlt. destruct (lo_buf _ Hlo1) as [? ?], (lo_buf _ Hlo2) as [? _].
  destruct (slot_bounds _ _ _ _ _ _ _ _ _ Hlo1 Hok1 i Hi), (ctl_ok _ _ _ _ _ _ _ _ _ Hpg Hlo2 Hok2 j Hlt) as [? _]. intros Hw.
  destruct (decide (sa = sb)) as [->|Hne].
  - simplify_eq. destruct (slot_ctl _ Hlo1 s j) as (? & ? & _). assert (i ≠ j) as Hij by (by intros ->).
    apply (slot_disjoint l' s i j (ctl l' s j) Hij); lia.
  - eapply (regions_apart _ _ _ _ Hinv sa sb s t l' lt (ctl lt t j)); try done. destruct (external l'); lia.
Qed.
End Pages.

Fixpoint chain_of (m : gmap N N) (n : nat) (a : N) : list N :=
  match n with
  | O => []
  | Datatypes.S n => a :: chain_of m n (mem_read m a)
  end.

Definition slab_objs (l : kmem_layout) (m : gmap N N) (s : kmem_slab) : list N :=
  let free := chain_of m (N.to_nat (bufs_per_slab l - slab_nr_refs s)) (slab_first_free s) in
  slot l s <$> filter (λ i, ctl l s i ∉ free) (N.of_nat <$> seq 0 (N.to_nat (bufs_per_slab l))).

Definition cache_objs {P} (S : slab_state P) (ca : N) : gset N :=
  match ss_caches S !! ca with
  | Some c => list_to_set (map_to_list (ss_slabs S) ≫= λ '(_, s), if slab_cache s =? ca then slab_objs (kc_layout c) (ss_mem S) s else [])
  | None => ∅
  end.

Lemma chain_of_ok m a l : free_chain m a l → chain_of m (length l) a = l.
Proof. revert a. induction l as [|x l IH]; [done|]. intros a [-> Hc]. cbn. by rewrite IH. Qed.

Lemma slab_objs_ok lv me pr no d sa s l fl x : layout_ok l → slab_ok lv me pr no d sa s l fl →
  x ∈ slab_objs l me s ↔ ∃ i, i < bufs_per_slab l ∧ i ∉ fl ∧ x = slot l s i.
Proof.
  intros Hl Hok. pose proof (so_refs _ _ _ _ _ _ _ _ _ Hok) as Hr. unfold slab_objs.
  replace (N.to_nat (bufs_per_slab l - slab_nr_refs s)) with (length (ctl l s <$> fl)) by (rewrite length_fmap; lia).
  rewrite (chain_of_ok _ _ _ (so_chain _ _ _ _ _ _ _ _ _ Hok)). rewrite list_elem_of_fmap. setoid_rewrite list_elem_of_filter. setoid_rewrite list_elem_of_fmap.
  split.
  - intros (i & -> & Hn & k & -> & Hk). apply elem_of_seq in Hk. exists (N.of_nat k). split_and!; [lia| |done]. intros Hin. apply Hn. by exists (N.of_nat k).
  - intros (i & Hi & Hn & ->). exists i. split_and!; [done| |].
    + intros (j & E & Hj). destruct (decide (i = j)) as [->|Hne]; [done|]. by apply (ctl_ne l Hl s i j).
    + exists (N.to_nat i). split; [lia|]. apply elem_of_seq. lia.
Qed.

Section Live.
Context {P : Type} `{!PageSource P} (sc : N).

Lemma cache_objs_ok (S : slab_state P) G D ca x : SlabInv sc S G D → x ∈ cache_objs S ca ↔ live S G ca x.
Proof.
  intros Hinv. unfold cache_objs. destruct (ss_caches S !! ca) as [c|] eqn:Hc.
  - rewrite elem_of_list_to_set, list_elem_of_bind. split.
    + intros ([sa s] & Hx & Hs%elem_of_map_to_list). destruct (N.eqb_spec (slab_cache s) ca) as [E|]; [|by apply elem_of_nil in Hx].
      destruct (inv_slab _ _ _ _ Hinv _ _ Hs) as (c0 & l & fl & Hc0 & <- & HL & Hlo & HG & Hok). rewrite E in *. simplify_eq.
      apply (slab_objs_ok _ _ _ _ _ _ _ _ _ _ Hlo Hok) in Hx as (i & Hi & Hn & ->). by exists sa, s, (kc_layout c), fl, i.
    + intros (sa & s & l & fl & i & Hs & E & HL & HG & Hi & Hn & ->). destruct (inv_slab _ _ _ _ Hinv _ _ Hs) as (c0 & l0 & fl0 & Hc0 & <- & HL0 & Hlo & HG0 & Hok).
      rewrite E in *. simplify_eq. exists (sa, s). split; [|by apply elem_of_map_to_list]. rewrite N.eqb_refl.
      apply (slab_objs_ok _ _ _ _ _ _ _ _ _ _ Hlo Hok). by exists i.
  - split; [by intros ?%not_elem_of_empty|]. intros (sa & s & l & fl & i & _ & _ & HL & _). destruct (layouts_inv _ _ _ _ Hinv _ _ HL) as (c & ? & _). congruence.
Qed.

(** Where an object is. *)
Lemma live_slot (S : slab_state P) G D ca l x : SlabInv sc S G D → layouts S !! ca = Some l → live S G ca x →
  layout_ok l ∧ ∃ sa s fl i, ss_slabs S !! sa = Some s ∧ slab_cache s = ca ∧ i < bufs_per_slab l ∧ i ∉ fl ∧ x = slot l s i ∧
    slab_ok (pg_live (ss_pages S)) (ss_mem S) (ss_priv S) (ss_nodes S) (live S G sc) sa s l fl.
Proof.
  intros Hinv HL (sa & s & l' & fl & i & Hs & E & HL' & HG & Hi & Hn & Hx). assert (l' = l) as -> by congruence.
  destruct (inv_slab _ _ _ _ Hinv _ _ Hs) as (? & l1 & f1 & _ & _ & HL1 & Hlo1 & HG1 & Hok1). rewrite E in HL1.
  assert (l1 = l) as -> by congruence. assert (f1 = fl) as -> by congruence. split; [done|]. by exists sa, s, fl, i.
Qed.

(** Two objects share no byte, and are in memory that was handed out. *)
Lemma buffers_apart (S : slab_state P) G D ca cb la lb x y : SlabInv sc S G D → layouts S !! ca = Some la → layouts S !! cb = Some lb →
  live S G ca x → live S G cb y → (ca, x) ≠ (cb, y) → x + buf_size la ≤ y ∨ y + buf_size lb ≤ x.
Proof.
  intros Hinv HLa HLb Hx Hy Hne. destruct (live_slot S G D ca la x Hinv HLa Hx) as (Hlo1 & sa & s & f1 & i & Hs & E1 & Hi & _ & -> & Hok1).
  destruct (live_slot S G D cb lb y Hinv HLb Hy) as (Hlo2 & sb & t & f2 & j & Ht & E2 & Hj & _ & -> & Hok2).
  destruct (decide (sa = sb)) as [<-|Hsab].
  - assert (t = s) as -> by congruence. assert (lb = la) as -> by congruence. assert (i ≠ j) as Hij by (intros ->; apply Hne; congruence).
    destruct (N.lt_total i j) as [Hlt|[?|Hlt]]; [apply (slot_apart la s) in Hlt; lia|done|apply (slot_apart la s) in Hlt; lia].
  - destruct (slot_bounds _ _ _ _ _ _ _ _ _ Hlo1 Hok1 i Hi), (slot_bounds _ _ _ _ _ _ _ _ _ Hlo2 Hok2 j Hj).
    destruct (pg_disjoint _ (si_pages _ _ _ _ Hinv) (region s) (slab_size la) (region t) (slab_size lb)) as [?|?]; [apply Hok1|apply Hok2| |lia..].
    intros E. apply Hsab. by eapply (si_regions _ _ _ _ Hinv).
Qed.

Lemma objects_apart (S : slab_state P) G D ca cb la lb x y : SlabInv sc S G D → layouts S !! ca = Some la → layouts S !! cb = Some lb →
  live S G ca x → live S G cb y → (ca, x) ≠ (cb, y) → x + obj_size la ≤ y ∨ y + obj_size lb ≤ x.
Proof.
  intros Hinv HLa HLb Hx Hy Hne. destruct (layouts_inv _ _ _ _ Hinv _ _ HLa) as (_ & _ & _ & Hla), (layouts_inv _ _ _ _ Hinv _ _ HLb) as (_ & _ & _ & Hlb).
  destruct (lo_buf _ Hla), (lo_buf _ Hlb). destruct (buffers_apart S G D ca cb la lb x y); try done; lia.
Qed.

Lemma object_in_pages (S : slab_state P) G D ca l x : SlabInv sc S G D → layouts S !! ca = Some l → live S G ca x →
  ∃ b n, pg_live (ss_pages S) !! b = Some n ∧ b ≤ x ∧ x + obj_size l ≤ b + n.
Proof.
  intros Hinv HL Hx. destruct (live_slot S G D ca l x Hinv HL Hx) as (Hlo & sa & s & fl & i & Hs & E & Hi & _ & -> & Hok).
  destruct (lo_buf _ Hlo) as [_ ?]. destruct (slot_bounds _ _ _ _ _ _ _ _ _ Hlo Hok i Hi). exists (region s), (slab_size l). split_and!; [apply Hok|lia..].
Qed.
End Live.
