(* ===== verification/SlabCreate.v ===== *)
(** New slabs.  A slab that is not yet on a list of its cache, or no longer, is
    one of [D]. *)

From stdpp Require Import sorting.
From S2P Require Import Prelude Rbtree RbtreeInv RbtreeInsert Slab SlabAlign SlabInv SlabFrame SlabTree SlabRun SlabAlloc SlabPages.

Open Scope N_scope.

(** ** The cache *)

Lemma cache_add sl no no' D ca c sa s : cache_ok sl no D ca c → sl !! sa = None → slab_cache s = ca → slab_nr_refs s = 0 →
  (∀ x, active_node sl ca x → no' !! x = no !! x) → (∀ sb, sb ∈ D → is_Some (sl !! sb)) →
  cache_ok (<[sa := s]> sl) no' ({[sa]} ∪ D) ca c.
Proof.
  intros [Hlo Hcol Hnd Hpart Hfree Hnf Hobj Hsl Hbuf Htree] Hsa Hsc Hr Hno HD.
  assert (∀ sb t, slab_cache t = ca → slab_nr_refs t ≠ 0 ∨ sb ∉ ({[sa]} : gset N) ∪ D → (<[sa := s]> sl) !! sb = Some t ↔ sl !! sb = Some t) as Hold.
  { intros sb t _ Ht. destruct (decide (sb = sa)) as [->|]; [|by rewrite lookup_insert_ne]. rewrite lookup_insert_eq, Hsa. split; [|done].
    intros [= <-]. destruct Ht as [Ht|Ht]; [done|]. rewrite elem_of_union, elem_of_singleton in Ht. tauto. }
  assert (∀ sb, is_Some (sl !! sb) → sb ∈ ({[sa]} : gset N) ∪ D ↔ sb ∈ D) as HD'.
  { intros sb [t Ht]. assert (sb ≠ sa) by congruence. rewrite elem_of_union, elem_of_singleton. tauto. }
  split; try done.
  - intros sb. rewrite Hpart. f_equiv. intros t. split; intros (Ht & Htc & ? & ?); (split_and!; [apply (Hold sb t); [done|left; lia|done]|done..]).
  - intros sb. rewrite Hfree. f_equiv. intros t. split.
    + intros (Ht & Htc & ? & Hd). assert (sb ∉ ({[sa]} : gset N) ∪ D) by (rewrite HD'; [done|by eexists]). split_and!; try done. apply Hold; [done|by right|done].
    + intros (Ht & Htc & ? & Hd). assert (sb ∉ D) by (rewrite elem_of_union in Hd; tauto). split_and!; try done. by apply (Hold sb t); [|right|].
  - rewrite msum_fresh by done. unfold refs_in at 1. rewrite Hr. by destruct (_ =? _).
  - rewrite msum_fresh by done. unfold listed_in at 1. rewrite bool_decide_eq_true_2 by (apply elem_of_union; left; by apply elem_of_singleton). rewrite andb_false_r, Hsl. apply msum_ext.
    intros sb t Ht. unfold listed_in. rewrite (bool_decide_ext _ _ (HD' sb (ex_intro _ _ Ht))). done.
  - intros Hu. destruct (Htree Hu) as (k & Hrb & Hsort & Hk). exists k. split_and!.
    + eapply rb_tree_frame; [|done]. intros x Hx. by apply Hno, Hk.
    + eapply StronglySorted_frame; [|done]. intros x y (sx & tx & -> & Hx & _)%Hk (sy & ty & -> & Hy & _)%Hk. rewrite !cmp_insert_neg.
      unfold addr_of, slab_of_node. rewrite !N.add_sub, !lookup_insert_ne by congruence. done.
    + intros x. rewrite Hk. unfold active_node. f_equiv. intros sb. f_equiv. intros t. split; intros (-> & Ht & Htc & ?);
        (split_and!; [done| |done..]); (apply (Hold sb t); [done|left; lia|done]).
Qed.

(** ** The free list *)

Section Link.
Context {P : Type} `{!PageSource P} (S : slab_state P) (ca sa : N) (c : kmem_cache) (no : gmap N rbtree_node) (l : kmem_layout) (Hl : layout_ok l).

Lemma link_buffers_run n k fl s me Q :
  free_chain me (slab_first_free s) (ctl l s <$> fl) → NoDup fl → (∀ i, i ∈ fl ↔ i < k) → N.of_nat (length fl) = k →
  (∀ ff me' fl', free_chain me' ff (ctl l s <$> fl') → NoDup fl' → (∀ i, i ∈ fl' ↔ i < k + N.of_nat n) →
     N.of_nat (length fl') = k + N.of_nat n → (∀ w, (∀ i, i < k + N.of_nat n → w ≠ ctl l s i) → me' !! w = me !! w) →
     Q tt (upd S ca c sa (set_slab_first_free ff s) me' no)) →
  wp (link_buffers n sa (ctl l s k) (buf_size l)) Q (upd S ca c sa s me no).
Proof.
  revert k fl s me. induction n as [|n IH]; intros k fl s me Hch Hnd Hin Hlen HQ; cbn [link_buffers].
  - apply wp_ret. replace s with (set_slab_first_free (slab_first_free s) s) by by destruct s.
    apply (HQ _ _ fl); try done; rewrite ?N.add_0_r; done.
  - apply wp_bind, wp_load_slab_at, wp_bind, wp_store_word_at, wp_bind, wp_upd_slab_at.
    replace (ctl l s k + buf_size l) with (ctl l (set_slab_first_free (ctl l s k) s) (k + 1)) by (unfold ctl, slot; cbn; lia).
    assert (k ∉ fl) as Hk by (rewrite Hin; lia).
    apply (IH (k + 1) (k :: fl)).
    + apply free_chain_push; [done|]. intros (j & E & Hj)%list_elem_of_fmap. revert E. apply (ctl_ne l Hl s). by intros ->.
    + by apply list.NoDup_cons.
    + intros i. rewrite elem_of_cons, Hin. lia.
    + cbn. lia.
    + intros ff me' fl' H1 H2 H3 H4 H5. replace (k + 1 + N.of_nat n) with (k + N.of_nat (Datatypes.S n)) in * by lia. apply (HQ ff me' fl'); try done.
      intros w Hw. rewrite H5 by exact Hw. apply lookup_insert_ne. intros E. apply (Hw k); [lia|done].
Qed.
End Link.

(** ** The invariant *)

Section Create.
Context {P : Type} `{!PageSource P} (sc : N).

(** A descriptor is inside a slab. *)
Lemma slab_within S G D sa s : SlabInv (P := P) sc S G D → ss_slabs S !! sa = Some s →
  ∃ sb t lt, ss_slabs S !! sb = Some t ∧ layouts S !! slab_cache t = Some lt ∧ region t ≤ sa < region t + slab_size lt ∧
    pg_live (ss_pages S) !! region t = Some (slab_size lt).
Proof.
  intros Hinv Hs. destruct (inv_slab _ _ _ _ Hinv _ _ Hs) as (c0 & l & fl & _ & _ & HL & Hlo & _ & Hok). destruct (external l) eqn:He.
  - destruct (so_ext _ _ _ _ _ _ _ _ _ Hok He) as (sb & t & lt & ft & j & Ht & Htc & HLt & _ & Hj & _ & ->).
    destruct (inv_slab _ _ _ _ Hinv _ _ Ht) as (c1 & l1 & f1 & _ & _ & HL1 & Hlo1 & _ & Hok1). simplify_eq. exists sb, t, lt. split_and!; try done; [..|apply Hok1];
      destruct (slot_bounds _ _ _ _ _ _ _ _ _ Hlo1 Hok1 j Hj); destruct (lo_buf _ Hlo1); lia.
  - exists sa, s, l. pose proof (so_embed _ _ _ _ _ _ _ _ _ Hok He). pose proof (lo_fit _ Hlo) as Hfit. rewrite He in Hfit. split_and!; try done; [lia..|apply Hok].
Qed.

Section New.
Context (S : slab_state P) (G : gmap N (list N)) (D : gset N) (ca sa r col ff : N) (c : kmem_cache) (fl : list N) (me : gmap N N) (no : gmap N rbtree_node).
#[local] Abbreviation l := (kc_layout c).
#[local] Abbreviation s := (KSlab ca 0 ff (r + col)).
Context (Hinv : SlabInv sc S G D) (Hc : ss_caches S !! ca = Some c) (Hsa : ss_slabs S !! sa = None).
Context (Hr : pg_live (ss_pages S) !! r = Some (slab_size l)) (Hregion : ∀ sb t, ss_slabs S !! sb = Some t → region t ≠ r).
Context (Hcol : col ≤ color_max l ∧ col mod align l = 0) (Hembed : external l = false → sa = r + slab_size l - sizeof_kmem_slab).
Context (Hext : external l = true → live S G sc sa) (Hsa8 : sa ≠ 0 ∧ sa mod 8 = 0).
Context (Hpriv : has (flags l) KMEM_CF_USE_PAGE = true → ss_priv S !! r = Some sa).
Context (Hch : free_chain me ff (ctl l s <$> fl)) (Hnd : NoDup fl) (Hin : ∀ i, i ∈ fl ↔ i < bufs_per_slab l).
Context (Hlen : N.of_nat (length fl) = bufs_per_slab l).
Context (Hme : ∀ w, (∀ i, i < bufs_per_slab l → w ≠ ctl l s i) → me !! w = ss_mem S !! w).
Context (Hno : ∀ x, x ≠ sa + offsetof_tree_node → no !! x = ss_nodes S !! x) (Hnode : is_Some (no !! (sa + offsetof_tree_node))).

Lemma new_region : region s = r.
Proof.
  destruct (pg_range _ (si_pages _ _ _ _ Hinv) _ _ Hr) as (_ & Hm & Hlt). pose proof (lo_color _ (co_layout _ _ _ _ _ (si_caches _ _ _ _ Hinv _ _ Hc))).
  pose proof (lo_fit _ (co_layout _ _ _ _ _ (si_caches _ _ _ _ Hinv _ _ Hc))). apply page_of_offset; [done|lia|lia].
Qed.

Lemma new_live cb x : live_in (layouts S) (<[sa := s]> (ss_slabs S)) (<[sa := fl]> G) cb x ↔ live S G cb x.
Proof.
  split.
  - intros (sb & t & lt & ft & j & Ht & Htc & HLt & HGt & Hj & Hjf & ->). apply lookup_insert_Some in Ht as [[<- <-]|[Hne Ht]].
    + rewrite lookup_insert_eq in HGt. injection HGt as <-. cbn in Htc. subst cb. unfold layouts in HLt. rewrite lookup_fmap, Hc in HLt. injection HLt as <-.
      exfalso. by apply Hjf, Hin.
    + rewrite lookup_insert_ne in HGt by done. by exists sb, t, lt, ft, j.
  - intros (sb & t & lt & ft & j & Ht & Htc & HLt & HGt & Hj & Hjf & ->). assert (sb ≠ sa) by congruence. exists sb, t, lt, ft, j.
    by rewrite !lookup_insert_ne.
Qed.

Lemma new_slab_ok d : (external l = true → d sa) → slab_ok (pg_live (ss_pages S)) me (ss_priv S) no d sa s l fl.
Proof.
  intros Hd. pose proof (co_layout _ _ _ _ _ (si_caches _ _ _ _ Hinv _ _ Hc)) as Hlo. destruct Hcol as [Hc1 Hc2].
  destruct (pg_range _ (si_pages _ _ _ _ Hinv) _ _ Hr) as (H0 & Hm & Hlt). destruct (lo_align _ Hlo) as (_ & H8 & _ & Hp).
  split; rewrite ?new_region; try done.
  - cbn. split; [lia|]. split.
    + rewrite N.Div0.add_mod, (mod_mod0 r PAGE_SIZE 8), (mod_mod0 col (align l) 8) by done. done.
    + intros Ha. rewrite N.Div0.add_mod, (mod_mod0 r PAGE_SIZE (align l)), Hc2 by auto. apply N.Div0.mod_0_l.
  - split; [done|]. apply list.Forall_forall. intros i. apply Hin.
Qed.

Lemma new_inv : SlabInv sc (upd S ca c sa s me no) (<[sa := fl]> G) ({[sa]} ∪ D) ∧
  ∀ cb x, live (upd S ca c sa s me no) (<[sa := fl]> G) cb x ↔ live S G cb x.
Proof.
  pose proof (co_layout _ _ _ _ _ (si_caches _ _ _ _ Hinv _ _ Hc)) as Hlo.
  assert (layouts (upd S ca c sa s me no) = layouts S) as HLs. { unfold layouts, upd. cbn. by rewrite insert_id. }
  assert (∀ cb x, live (upd S ca c sa s me no) (<[sa := fl]> G) cb x ↔ live S G cb x) as Hlive.
  { intros cb x. unfold live. rewrite HLs. apply new_live. }
  split; [|done]. apply (inv_change sc sa ca c c S G D); try done.
  - apply Hinv.
  - apply Hinv.
  - apply (cache_add _ (ss_nodes S)); try done; [by apply Hinv| |].
    + intros x (sb & t & -> & Ht & _). apply Hno. assert (sb ≠ sa) by congruence. lia.
    + intros sb (t & Ht & _)%(si_dead _ _ _ _ Hinv). by eexists.
  - intros s0 ?. congruence.
  - intros sb Hne. by apply lookup_insert_ne.
  - intros sb t lt Hne Ht HLt. destruct (inv_slab _ _ _ _ Hinv _ _ Ht) as (? & ? & ? & _ & _ & ? & _ & _ & Hok'). simplify_eq. split; cbn; try done.
    + by rewrite lookup_insert_ne.
    + by rewrite lookup_insert_ne.
    + intros w Hw. apply Hme. intros i Hi ->.
      destruct (ctl_ok _ _ _ _ _ _ _ _ _ (si_pages _ _ _ _ Hinv) Hlo (new_slab_ok (λ _, True) (λ _, I)) i Hi) as [Hctl _]. rewrite new_region in Hctl.
      destruct (pg_disjoint _ (si_pages _ _ _ _ Hinv) r (slab_size l) (region t) (slab_size lt)) as [?|?]; try done; [apply Hok'|by apply not_eq_sym, (Hregion sb)|lia..].
    + rewrite Hno by lia. apply Hok'.
    + intros _. apply Hno. lia.
    + intros Hd. by apply Hlive.
    + intros _. rewrite elem_of_union, elem_of_singleton. tauto.
  - cbn. rewrite lookup_insert_eq. intros s' [= <-]. split; [done|]. split; [exists fl; split; [by rewrite lookup_insert_eq|]|].
    + apply new_slab_ok. intros He. by apply Hlive, Hext.
    + intros sb t _ Ht. rewrite new_region. by eapply Hregion.
  - intros sb [->%elem_of_singleton|Hsb]%elem_of_union; cbn; [exists s; by rewrite lookup_insert_eq|].
    destruct (si_dead _ _ _ _ Hinv _ Hsb) as (t & Ht & ?). exists t. rewrite lookup_insert_ne; [done|]. congruence.
Qed.
End New.
End Create.
