(* ===== verification/SlabGrow.v ===== *)
(** Growth of a cache, and allocation of objects. *)

From stdpp Require Import sorting.
From S2P Require Import Prelude Rbtree RbtreeInv Slab SlabAlign SlabInv SlabFrame SlabRun SlabAlloc SlabPages SlabCreate.

Open Scope N_scope.

Lemma rbtree_node_init_run x root n no : rbtree_check_alignment x = true →
  ∃ n', rbtree_node_init x (RbStore root (<[x := n]> no)) = Some (tt, RbStore root (<[x := n']> no)).
Proof.
  intros Ha. unfold rbtree_node_init, put_child, put_word, rb_store, rb_load, mbind, M_bind, get, put. rewrite Ha. cbn.
  repeat (rewrite lookup_insert_eq; cbn). rewrite !insert_insert_eq. by eexists.
Qed.

Section Grow.
Context {P : Type} `{!PageSource P} (sc : N).
Implicit Types (S : slab_state P) (G : gmap N (list N)) (D : gset N).

(** ** Specifications *)

(** Slabs of one page can always be made. *)
Definition may_fail S (ca : N) : Prop := ∃ cb l, (cb = ca ∨ cb = sc) ∧ layouts S !! cb = Some l ∧ slab_size l ≠ PAGE_SIZE.

(** Nothing is written to allocated objects. *)
Definition keeps S G S' : Prop :=
  ∀ cb l x w, live S G cb x → layouts S !! cb = Some l → x ≤ w < x + obj_size l → ss_mem S' !! w = ss_mem S !! w.

Definition alloc_post S G D (ca r : N) S' : Prop :=
  ∃ G', SlabInv sc S' G' D ∧ extends sc S S' ca ∧ keeps S G S' ∧
    (r = 0 ∧ may_fail S ca ∧ (∀ cb x, live S' G' cb x ↔ live S G cb x) ∨ allocated sc S G ca S' G' r).
(** There are pages for a slab and its descriptor: the thread does not have to wait
    for ever. *)
Definition ready S (ca : N) : bool :=
  match layouts S !! ca, layouts S !! sc with
  | Some l, Some ld =>
      match alloc_pages l (ss_pages S) with
      | Some (Some _, p) => negb (external l) || bool_decide (is_Some (alloc_pages ld p))
      | Some (None, _) => true
      | None => false
      end
  | _, _ => false
  end.

Definition alloc_spec (ca : N) (m : M (slab_state P) N) : Prop :=
  ∀ S G D, SlabInv sc S G D → ready S ca = true → wp m (alloc_post S G D ca) S.

(** Objects stay where they are; a cache may have got a descriptor. *)
Record same_live S G (ca : N) S' G' : Prop := {
  sl_live cb x : (cb = sc → ca = sc) → live S' G' cb x ↔ live S G cb x;
  sl_descr x : live S G sc x → live S' G' sc x;
}.

(** A slab of the cache that is not yet on its list. *)
Definition create_post S G D (ca : N) (c : kmem_cache) (r : N) S' : Prop :=
  ∃ G', extends sc S S' ca ∧ ss_caches S' !! ca = Some c ∧ keeps S G S' ∧
    (r = 0 ∧ may_fail S ca ∧ SlabInv sc S' G' D ∧ (∀ cb x, live S' G' cb x ↔ live S G cb x) ∨
     r ≠ 0 ∧ r ∉ D ∧ SlabInv sc S' G' ({[r]} ∪ D) ∧ same_live S G ca S' G' ∧
     ∃ s, ss_slabs S' !! r = Some s ∧ slab_cache s = ca ∧ slab_nr_refs s = 0).

Lemma keeps_trans S1 G1 S2 G2 S3 : layouts S2 = layouts S1 → (∀ cb x, live S1 G1 cb x → live S2 G2 cb x) → keeps S1 G1 S2 → keeps S2 G2 S3 → keeps S1 G1 S3.
Proof. intros HL Hlive H12 H23 cb l x w Hx Hl Hw. rewrite (H23 cb l x), (H12 cb l x); try done; [auto|congruence]. Qed.

Lemma same_live_mono S G ca S' G' cb x : same_live S G ca S' G' → live S G cb x → live S' G' cb x.
Proof. intros [Hl Hd] Hx. destruct (decide (cb = sc)) as [->|]; [by apply Hd|by apply Hl]. Qed.

(** ** Extension *)

Lemma extends_outside S S' ca : ss_caches S' = ss_caches S → ss_slabs S' = ss_slabs S → kmem_cache_list S' = kmem_cache_list S →
  (∀ b n, pg_live (ss_pages S) !! b = Some n → pg_live (ss_pages S') !! b = Some n) → extends sc S S' ca.
Proof. intros H1 H2 H3 H4. split; try done; [by unfold layouts; rewrite H1|by intros; rewrite H1|]. intros sb t. rewrite H2. right. by exists t. Qed.

Lemma extends_weaken S S' ca : extends sc S S' sc → extends sc S S' ca.
Proof. intros [? He ? ? ?]. split; try done. intros cb _ Hne. by apply He. Qed.

Lemma extends_trans S1 S2 S3 ca : extends sc S1 S2 ca → extends sc S2 S3 ca → extends sc S1 S3 ca.
Proof.
  intros [H1 H2 H3 H4 H5] [K1 K2 K3 K4 K5]. split; [congruence|intros; rewrite K2 by done; by apply H2|auto| |congruence].
  intros sb t [Hn|(t0 & Ht0 & E)]%K4.
  - left. destruct (pg_live (ss_pages S1) !! region t) as [n|] eqn:En; [|done]. apply H3 in En. congruence.
  - destruct (H4 _ _ Ht0) as [Hn|(t1 & Ht1 & E1)]; [left; by rewrite <- E|right; exists t1; split; [done|congruence]].
Qed.

(** A slab made of new pages. *)
Lemma extends_new S S' ca c sa s me no : extends sc S S' ca → ss_caches S' !! ca = Some c → pg_live (ss_pages S) !! region s = None →
  extends sc S (upd S' ca c sa s me no) ca.
Proof.
  intros [H1 H2 H3 H4 H5] Hc Hr. split; try done; cbn.
  - unfold layouts, upd. cbn. by rewrite insert_id.
  - intros. rewrite insert_id by done. auto.
  - intros sb t [[<- <-]|[_ Ht]]%lookup_insert_Some; [by left|by apply H4].
Qed.

(** ** The slab *)

Section New.
Context (S : slab_state P) (G : gmap N (list N)) (D : gset N) (ca sa r col : N) (c : kmem_cache).
#[local] Abbreviation l := (kc_layout c).
Context (Hinv : SlabInv sc S G D) (Hc : ss_caches S !! ca = Some c) (Hsa : ss_slabs S !! sa = None).
Context (Hr : pg_live (ss_pages S) !! r = Some (slab_size l)) (Hregion : ∀ sb t, ss_slabs S !! sb = Some t → region t ≠ r).
Context (Hcol : col ≤ color_max l ∧ col mod align l = 0) (Hembed : external l = false → sa = r + slab_size l - sizeof_kmem_slab).
Context (Hext : external l = true → live S G sc sa) (Hsa8 : sa ≠ 0 ∧ sa mod 8 = 0).
Context (Hpriv : has (flags l) KMEM_CF_USE_PAGE = true → ss_priv S !! r = Some sa).

Lemma node_aligned : rbtree_check_alignment (sa + offsetof_tree_node) = true.
Proof.
  destruct Hsa8 as [_ H8]. unfold rbtree_check_alignment. apply N.eqb_eq. change RBTREE_PARENT_LOW with (N.ones 2).
  rewrite N.land_ones, N.Div0.add_mod. change (2 ^ 2) with 4. by rewrite (mod_mod0 sa 8 4).
Qed.

Lemma new_slab_run Q :
  (∀ s me no G', (∀ w, ¬ (r ≤ w < r + slab_size l) → me !! w = ss_mem S !! w) → ss_slabs (upd S ca c sa s me no) !! sa = Some s → slab_cache s = ca → slab_nr_refs s = 0 → region s = r →
     SlabInv sc (upd S ca c sa s me no) G' ({[sa]} ∪ D) → (∀ cb x, live (upd S ca c sa s me no) G' cb x ↔ live S G cb x) →
     Q sa (upd S ca c sa s me no)) →
  wp (modify (λ s, set_ss_slabs (<[sa := KSlab ca 0 0 (r + col)]> (ss_slabs s)) s);;
      modify (λ s, set_ss_nodes (<[sa + offsetof_tree_node := RbNode 0 0 0]> (ss_nodes s)) s);;
      on_tree ca (rbtree_node_init (sa + offsetof_tree_node));;
      link_buffers (N.to_nat (bufs_per_slab l)) sa (kmem_buf_to_bufctl (r + col) l) (buf_size l);;
      mret sa) Q S.
Proof.
  intros HQ. pose proof (co_layout _ _ _ _ _ (si_caches _ _ _ _ Hinv _ _ Hc)) as Hlo. apply wp_bind, wp_modify, wp_bind, wp_modify.
  replace (set_ss_nodes _ _) with (upd S ca c sa (KSlab ca 0 0 (r + col)) (ss_mem S) (<[sa + offsetof_tree_node := RbNode 0 0 0]> (ss_nodes S)))
    by (unfold upd; by rewrite (insert_id (ss_caches S)) by done).
  destruct (rbtree_node_init_run (sa + offsetof_tree_node) (active_slabs c) (RbNode 0 0 0) (ss_nodes S) node_aligned) as [n' Hrun].
  apply wp_bind. eapply wp_on_tree_at; [exact Hrun|]. cbn [rb_root rb_nodes]. replace (set_active_slabs (active_slabs c) c) with c by by destruct c.
  apply wp_bind. replace (kmem_buf_to_bufctl (r + col) l) with (ctl l (KSlab ca 0 0 (r + col)) 0) by (unfold ctl, slot, kmem_buf_to_bufctl; cbn; lia).
  eapply (link_buffers_run _ _ _ _ _ _ Hlo _ 0 []); try done; [apply NoDup_nil_2|intros i; rewrite elem_of_nil; lia|].
  intros ff me fl Hch Hnd Hin Hlen Hme. rewrite N.add_0_l, N2Nat.id in *. apply wp_ret.
  change (set_slab_first_free ff (KSlab ca 0 0 (r + col))) with (KSlab ca 0 ff (r + col)).
  edestruct (new_inv sc S G D ca sa r col ff c fl me (<[sa + offsetof_tree_node := n']> (ss_nodes S))) as [Hinv' Hlive]; try done.
  - intros x Hx. by apply lookup_insert_ne, not_eq_sym.
  - by rewrite lookup_insert_eq.
  - eapply HQ; try done; [|cbn; by rewrite lookup_insert_eq|by eapply (new_region sc S G D)].
    intros w Hw. apply Hme. intros i Hi ->. apply Hw.
    assert (slab_ok (pg_live (ss_pages S)) me (ss_priv S) (<[sa + offsetof_tree_node := n']> (ss_nodes S)) (λ _, True) sa (KSlab ca 0 ff (r + col)) l fl) as Hok.
    { eapply (new_slab_ok sc S G D); try done. by rewrite lookup_insert_eq. }
    destruct (ctl_ok _ _ _ _ _ _ _ _ _ (si_pages _ _ _ _ Hinv) Hlo Hok i Hi) as [Hctl _]. by erewrite (new_region sc S G D) in Hctl.
Qed.
End New.

(** ** Creation *)

Section Create.
Context (S : slab_state P) (G : gmap N (list N)) (D : gset N) (ca col : N) (c : kmem_cache).
#[local] Abbreviation l := (kc_layout c).
Context (Hinv : SlabInv sc S G D) (Hc : ss_caches S !! ca = Some c) (Hcol : col ≤ color_max l ∧ col mod align l = 0).

(** The pages are there. *)
Section Pages.
Context (p : P) (r : N) (Hp : pages_ok (pg_live p)) (Hv : virtual_ok p).
Context (Hfit : fits (pg_live (ss_pages S)) r (slab_size l)) (Hr : pg_live p = <[r := slab_size l]> (pg_live (ss_pages S))).

Lemma pages_fresh : pg_live (ss_pages S) !! r = None.
Proof.
  eapply fits_fresh; [apply Hinv|exact Hfit|]. apply layout_size, (co_layout _ _ _ _ _ (si_caches _ _ _ _ Hinv _ _ Hc)).
Qed.

Lemma pages_region sb t : ss_slabs S !! sb = Some t → region t ≠ r ∧ is_Some (pg_live (ss_pages S) !! region t).
Proof.
  intros Ht. destruct (inv_slab _ _ _ _ Hinv _ _ Ht) as (c0 & lt & ft & _ & _ & _ & _ & _ & Hok).
  assert (is_Some (pg_live (ss_pages S) !! region t)) by (rewrite (so_region _ _ _ _ _ _ _ _ _ Hok); done). split; [|done].
  intros E. rewrite E, pages_fresh in *. by apply is_Some_None in H.
Qed.

Lemma pages_inv : SlabInv sc (set_ss_pages p S) G D ∧ extends sc S (set_ss_pages p S) ca.
Proof.
  split.
  - apply (inv_outside sc S); try done. intros sb t lt Ht _. split_and!; try done. cbn. rewrite Hr. apply lookup_insert_ne.
    by apply not_eq_sym, (pages_region sb).
  - apply extends_outside; try done. intros b n Hb. cbn. rewrite Hr. rewrite lookup_insert_ne; [done|]. intros <-. rewrite pages_fresh in Hb. done.
Qed.

Lemma embed_fresh : external l = false → ss_slabs S !! (r + slab_size l - sizeof_kmem_slab) = None.
Proof.
  intros He. pose proof (lo_fit _ (co_layout _ _ _ _ _ (si_caches _ _ _ _ Hinv _ _ Hc))) as Hf. rewrite He in Hf.
  destruct (ss_slabs S !! _) as [s|] eqn:Hs; [|done]. destruct (slab_within _ _ _ _ _ _ Hinv Hs) as (sb & t & lt & _ & _ & Hw & Hlv).
  destruct Hfit as (_ & _ & _ & Hd). destruct (Hd _ _ Hlv); lia.
Qed.

Lemma embed_aligned : external l = false → r + slab_size l - sizeof_kmem_slab ≠ 0 ∧ (r + slab_size l - sizeof_kmem_slab) mod 8 = 0.
Proof.
  intros He. pose proof (co_layout _ _ _ _ _ (si_caches _ _ _ _ Hinv _ _ Hc)) as Hlo. pose proof (lo_fit _ Hlo) as Hf. rewrite He in Hf.
  destruct Hfit as (H0 & [q Hq]%N.Div0.mod_divides & _). destruct (lo_slab _ Hlo) as [[k Hk]%N.Div0.mod_divides _].
  split; [lia|]. apply N.Div0.mod_divides. exists (512 * q + 512 * k - 9). change PAGE_SIZE with 4096 in *. lia.
Qed.

(** Objects that are there are on other pages. *)
Lemma keeps_pages S2 S' : keeps S G S2 → (∀ w, ¬ (r ≤ w < r + slab_size l) → ss_mem S' !! w = ss_mem S2 !! w) → keeps S G S'.
Proof.
  intros H2 Hw cb k x w Hx HL Hxw. rewrite Hw; [by eapply H2|]. destruct (object_in_pages _ _ _ _ _ _ _ Hinv HL Hx) as (b & n & Hb & ? & ?).
  destruct Hfit as (_ & _ & _ & Hd). destruct (Hd b n Hb); lia.
Qed.

(** A descriptor that was allocated meanwhile. *)
Section External.
Context (S2 : slab_state P) (G2 : gmap N (list N)) (Hinv2 : SlabInv sc S2 G2 D) (Hex : extends sc (set_ss_pages p S) S2 sc) (Hkeep : keeps S G S2).

Lemma external_region sb t : ss_slabs S2 !! sb = Some t → region t ≠ r.
Proof.
  intros [Hn|(t0 & Ht0 & <-)]%(ex_slabs _ _ _ _ Hex); [|by apply (pages_region sb)]. intros E. cbn in Hn. by rewrite Hr, E, lookup_insert_eq in Hn.
Qed.
Lemma external_pages : pg_live (ss_pages S2) !! r = Some (slab_size l).
Proof. apply (ex_pages _ _ _ _ Hex). cbn. rewrite Hr. apply lookup_insert_eq. Qed.
Lemma external_extends : extends sc S S2 ca.
Proof. eapply extends_trans; [apply pages_inv|]. by apply extends_weaken. Qed.

(** There is none, and the pages are released. *)
Lemma external_fail (Hne : ca ≠ sc) : may_fail S ca → (∀ cb x, live S2 G2 cb x ↔ live S G cb x) →
  wp (kmem_pagefree r (slab_size l) (flags l)) (λ _, create_post S G D ca c 0) S2.
Proof.
  intros Hfail Hlive. pose proof (co_layout _ _ _ _ _ (si_caches _ _ _ _ Hinv _ _ Hc)) as Hlo.
  eapply wp_mono; [apply (kmem_pagefree_ok S2 l r Hlo); [apply Hinv2..|apply external_pages]|].
  intros _ S' (p2 & -> & Hp2 & Hv2 & Hd). exists G2. split_and!.
  - pose proof external_extends as [H1 H2 H3 H4 H5]. split; try done. intros b n Hb. cbn. rewrite Hd. apply lookup_delete_Some. split; [|by apply H3].
    intros <-. by rewrite pages_fresh in Hb.
  - cbn. rewrite (ex_caches _ _ _ _ Hex) by done. done.
  - done.
  - left. split_and!; [done|done| |].
    + apply (inv_outside sc S2); try done. intros sb t lt Ht _. split_and!; try done. cbn. rewrite Hd. by apply lookup_delete_ne, not_eq_sym, (external_region sb).
    + intros cb x. by rewrite (live_outside S2).
Qed.

(** The slab is made of the pages and the descriptor [sa]. *)
Lemma external_new (Hne : ca ≠ sc) (Hx : external l = true) sa : allocated sc (set_ss_pages p S) G sc S2 G2 sa →
  wp ((if has (flags l) KMEM_CF_USE_PAGE then
         b ← page_exists r;
         check b;;
         modify (λ s, set_ss_priv (<[page_of r := sa]> (ss_priv s)) s)
       else mret tt);;
      modify (λ s, set_ss_slabs (<[sa := KSlab ca 0 0 (r + col)]> (ss_slabs s)) s);;
      modify (λ s, set_ss_nodes (<[sa + offsetof_tree_node := RbNode 0 0 0]> (ss_nodes s)) s);;
      on_tree ca (rbtree_node_init (sa + offsetof_tree_node));;
      link_buffers (N.to_nat (bufs_per_slab l)) sa (kmem_buf_to_bufctl (r + col) l) (buf_size l);;
      mret sa) (create_post S G D ca c) S2.
Proof.
  intros [Hnew Hlive Hdescr (Hsa0 & Hsa8 & _) Hunused]. pose proof (Hunused eq_refl) as Hsa.
  destruct Hfit as (H0 & Hm & Hlt & _). assert (page_of r = r) as Hpr by (rewrite <- (N.add_0_r r) at 1; apply page_of_offset; [done|done|lia]).
  assert (∀ pr, (∀ b, b ≠ r → pr !! b = ss_priv S2 !! b) → SlabInv sc (set_ss_priv pr S2) G2 D) as Hinv3.
  { intros pr Hpr'. apply (inv_outside sc S2); try done; [apply Hinv2..|]. intros sb t lt Ht _. split_and!; try done. by apply Hpr', (external_region sb). }
  assert (∀ pr, (∀ b, b ≠ r → pr !! b = ss_priv S2 !! b) → (has (flags l) KMEM_CF_USE_PAGE = true → pr !! r = Some sa) →
    wp (modify (λ s, set_ss_slabs (<[sa := KSlab ca 0 0 (r + col)]> (ss_slabs s)) s);;
      modify (λ s, set_ss_nodes (<[sa + offsetof_tree_node := RbNode 0 0 0]> (ss_nodes s)) s);;
      on_tree ca (rbtree_node_init (sa + offsetof_tree_node));;
      link_buffers (N.to_nat (bufs_per_slab l)) sa (kmem_buf_to_bufctl (r + col) l) (buf_size l);;
      mret sa) (create_post S G D ca c) (set_ss_priv pr S2)) as Hrest.
  { intros pr Hpr1 Hpr2. assert (ss_caches S2 !! ca = Some c) as Hc2 by by rewrite (ex_caches _ _ _ _ Hex).
    eapply (new_slab_run (set_ss_priv pr S2) G2 D ca sa r col c (Hinv3 pr Hpr1)); try done.
    - apply external_pages.
    - apply external_region.
    - by rewrite Hx.
    - intros _. rewrite (live_outside S2) by done. apply Hlive; [done|by right].
    - intros s me no G' Hmem Hs Hsc Hrefs Hreg Hinv' Hl'. exists G'.
      split_and!; [|cbn; by rewrite lookup_insert_eq|by apply (keeps_pages S2)|right; split_and!; try done].
      + apply extends_new; [|done|rewrite Hreg; apply pages_fresh]. eapply extends_trans; [apply external_extends|]. by apply extends_outside.
      + intros (t & Ht & _)%(si_dead _ _ _ _ Hinv2). congruence.
      + split.
        * intros cb x Hcb. rewrite Hl', (live_outside S2), Hlive, (live_outside S) by (done || tauto).
          split; [intros [?|[-> _]]; [done|by destruct Hne; auto]|auto].
        * intros x Hxl. rewrite Hl', (live_outside S2) by done. apply Hdescr. by rewrite (live_outside S).
      + by exists s. }
  apply wp_bind. destruct (has (flags l) KMEM_CF_USE_PAGE).
  - apply wp_bind. unfold page_exists. apply wp_bind, wp_get, wp_ret, wp_bind, wp_check.
    { apply bool_decide_eq_true. by rewrite Hpr, external_pages. }
    apply wp_modify. rewrite Hpr. apply Hrest; [intros b Hb; by apply lookup_insert_ne, not_eq_sym|intros _; apply lookup_insert_eq].
  - apply wp_ret. replace S2 with (set_ss_priv (ss_priv S2) S2) by by destruct S2. by apply Hrest.
Qed.
End External.
End Pages.

Lemma kmem_slab_create_ok m : ready S ca = true → (external l = true → alloc_spec sc m ∧ ca ≠ sc) →
  wp (kmem_slab_create m ca col) (create_post S G D ca c) S.
Proof.
  intros Hready Hm. pose proof (co_layout _ _ _ _ _ (si_caches _ _ _ _ Hinv _ _ Hc)) as Hlo. unfold kmem_slab_create.
  assert (layouts S !! ca = Some l) as HL by (unfold layouts; by rewrite lookup_fmap, Hc). destruct (si_descr _ _ _ _ Hinv) as (ld & HLd & Hed & _).
  unfold ready in Hready. rewrite HL, HLd in Hready. destruct (alloc_pages l (ss_pages S)) as [[o p]|] eqn:Ho; [|done].
  apply wp_bind. eapply wp_load_cache; [done|]. apply wp_bind. eapply wp_mono; [apply (kmem_pagealloc_ok S l o p Hlo Ho); apply Hinv|].
  intros r S1 (-> & -> & Hp & Hv & Hres). destruct o as [r|]; cbn [default].
  2: { destruct Hres as [Hsame Hsz]. apply wp_ret. exists G. split_and!; [|done|done|left; split_and!; [done| | |done]].
    - apply extends_outside; try done. intros b n. cbn. by rewrite Hsame.
    - exists ca, l. by split_and!; [left|..].
    - apply (inv_outside sc S); try done. intros sb t lt Ht _. split_and!; try done. cbn. by rewrite Hsame. }
  destruct Hres as (Hr0 & Hfit & Hr). cbn [from_option id].
  destruct (N.eqb_spec r 0) as [|_]; [done|]. destruct (pages_inv p r Hp Hv Hfit Hr) as [Hinv1 Hex1]. apply wp_bind.
  change (has (flags l) KMEM_CF_SLAB_EXTERNAL) with (external l). destruct (external l) eqn:He.
  - destruct (Hm eq_refl) as [Hspec Hne]. apply wp_bind. cbn in Hready. apply bool_decide_eq_true in Hready as [[o2 p2] Hpages].
    assert (ready (set_ss_pages p S) sc = true) as Hready2. { unfold ready. change (layouts (set_ss_pages p S)) with (layouts S). rewrite HLd. cbn. rewrite Hpages, Hed. by destruct o2. }
    eapply wp_mono; [by apply (Hspec _ _ _ Hinv1)|]. intros sa S2 (G2 & Hinv2 & Hex2 & Hkeep & [(-> & (cb & lf & Hcb & Hf) & Hlive)|Hal]).
    + apply wp_bind. eapply wp_mono; [eapply external_fail; try done; exists sc, lf; split; [by right|]; by destruct Hcb as [->| ->]|intros [] S' HQ; by apply wp_ret].
    + pose proof (al_align _ _ _ _ _ _ _ Hal) as (Hsa0 & _). destruct (N.eqb_spec sa 0) as [|_]; [done|].
      pose proof (wp_bind_inv _ _ _ _ (external_new p r Hp Hv Hfit Hr S2 G2 Hinv2 Hex2 Hkeep Hne He sa Hal)) as Hnew.
      apply wp_bind. eapply wp_mono; [exact Hnew|]. intros [] S3 HQ. apply wp_ret. by destruct (N.eqb_spec sa 0).
  - apply wp_ret. destruct (embed_aligned r Hfit He) as [Hs0 Hs8]. destruct (N.eqb_spec (r + slab_size l - sizeof_kmem_slab) 0) as [|_]; [done|].
    eapply (new_slab_run (set_ss_pages p S) G D ca _ r col c Hinv1); try done.
    + by apply embed_fresh.
    + cbn. rewrite Hr. apply lookup_insert_eq.
    + intros sb t Ht. by apply (pages_region r Hfit sb t).
    + by rewrite He.
    + rewrite (lo_page _ Hlo), He. done.
    + intros s me no G' Hmem Hs Hsc Hrefs Hreg Hinv' Hl'. exists G'.
      split_and!; [|cbn; by rewrite lookup_insert_eq|by apply (keeps_pages r Hfit S)|right; split_and!; try done].
      * apply extends_new; [done|done|rewrite Hreg; by apply pages_fresh].
      * intros (t & Ht & _)%(si_dead _ _ _ _ Hinv). by rewrite embed_fresh in Ht.
      * split; intros; rewrite Hl', (live_outside S); done.
      * by exists s.
Qed.
End Create.
End Grow.
