(* ===== verification/SlabCache.v ===== *)
(** Allocation of objects from a cache: the cache grows when it has to. *)

From stdpp Require Import sorting.
From S2P Require Import Prelude Rbtree Slab SlabAlign SlabInv SlabFrame SlabRun SlabAlloc SlabPages SlabCreate SlabGrow.

Open Scope N_scope.

Section Cache.
Context {P : Type} `{!PageSource P} (sc : N).
Implicit Types (S : slab_state P) (G : gmap N (list N)) (D : gset N).

(** ** Changes of a cache only *)

Lemma layouts_cache S ca c c' : ss_caches S !! ca = Some c → kc_layout c' = kc_layout c →
  layouts (set_ss_caches (<[ca := c']> (ss_caches S)) S) = layouts S.
Proof. intros Hc Hl. unfold layouts. cbn. rewrite fmap_insert, Hl. apply insert_id. by rewrite lookup_fmap, Hc. Qed.

Lemma live_cache S G ca c c' cb x : ss_caches S !! ca = Some c → kc_layout c' = kc_layout c →
  live (set_ss_caches (<[ca := c']> (ss_caches S)) S) G cb x ↔ live S G cb x.
Proof. intros Hc Hl. unfold live. by rewrite (layouts_cache S ca c c'). Qed.

Lemma inv_cache S G D D' ca c c' : SlabInv sc S G D → ss_caches S !! ca = Some c → kc_layout c' = kc_layout c →
  cache_ok (ss_slabs S) (ss_nodes S) D' ca c' →
  (∀ sb t, ss_slabs S !! sb = Some t → slab_cache t ≠ ca → sb ∈ D' ↔ sb ∈ D) →
  (∀ sb, sb ∈ D' → ∃ s, ss_slabs S !! sb = Some s ∧ slab_nr_refs s = 0) →
  SlabInv sc (set_ss_caches (<[ca := c']> (ss_caches S)) S) G D'.
Proof.
  intros Hinv Hc Hl Hco HD Hdead. assert (∀ s, ss_slabs S !! 0 = Some s → False) as H0.
  { intros s Hs. destruct (inv_slab _ _ _ _ Hinv _ _ Hs) as (? & ? & ? & _ & _ & _ & _ & _ & Hok). by destruct (so_slab _ _ _ _ _ _ _ _ _ Hok). }
  apply (inv_change sc 0 ca c c' S G D); try done; [apply Hinv|apply Hinv|by intros s ?%H0|..|by intros s ?%H0].
  intros sb t l Hne Ht HLt. destruct (inv_slab _ _ _ _ Hinv _ _ Ht) as (? & ? & ? & _ & _ & _ & _ & _ & Hok). split; try done.
  - apply Hok.
  - by intros ?%(live_cache S G ca c c').
  - by apply HD.
Qed.

Lemma extends_cache S ca c c' : ss_caches S !! ca = Some c → kc_layout c' = kc_layout c → extends sc S (set_ss_caches (<[ca := c']> (ss_caches S)) S) ca.
Proof.
  intros Hc Hl. split; try done; [by apply (layouts_cache S ca c)|intros cb Hne _; by apply lookup_insert_ne|]. intros sb t Ht. right. by exists t.
Qed.

(** ** Growth *)

(** A new slab goes to the list of free slabs. *)
Definition grown (sa : N) (c : kmem_cache) : kmem_cache :=
  KCache (kc_layout c) (partial_slabs c) (sa :: free_slabs c) (active_slabs c) (nr_objs c) (nr_free_slabs c + 1) (color c)
    (nr_bufs c + bufs_per_slab (kc_layout c)) (nr_slabs c + 1).

Lemma cache_list sl no D ca c sa s : cache_ok sl no ({[sa]} ∪ D) ca c → sl !! sa = Some s → slab_cache s = ca → slab_nr_refs s = 0 → sa ∉ D →
  cache_ok sl no D ca (grown sa c).
Proof.
  intros [Hlo Hcol [Hnp Hnf] Hpart Hfree Hlen Hobj Hsl Hbuf Htree] Hs Hsc Hr HD.
  assert (sa ∉ free_slabs c) as Hn. { rewrite Hfree. intros (t & _ & _ & _ & Hd). apply Hd, elem_of_union_l. by apply elem_of_singleton. }
  split; try done; cbn.
  - split; [done|by apply list.NoDup_cons].
  - intros sb. rewrite elem_of_cons, Hfree. setoid_rewrite elem_of_union. setoid_rewrite elem_of_singleton. split.
    + intros [->|(t & ? & ? & ? & ?)]; [by exists s|exists t; split_and!; try done; tauto].
    + intros (t & Ht & ? & ? & ?). destruct (decide (sb = sa)) as [->|]; [by left|right]. exists t. split_and!; try done. tauto.
  - lia.
  - assert (listed_in ca D sa s = 1) as E1. { unfold listed_in. by rewrite Hsc, N.eqb_refl, bool_decide_eq_false_2. }
    assert (listed_in ca ({[sa]} ∪ D) sa s = 0) as E2.
    { unfold listed_in. rewrite bool_decide_eq_true_2, andb_false_r; [done|]. apply elem_of_union_l. by apply elem_of_singleton. }
    pose proof (msum_change (listed_in ca D) (listed_in ca ({[sa]} ∪ D)) sl sa s Hs) as E. rewrite E1, E2, N.add_0_r in E. rewrite Hsl. symmetry. apply E.
    intros sb t _ Hne. unfold listed_in. by rewrite (bool_decide_ext (sb ∈ {[sa]} ∪ D) (sb ∈ D)) by (rewrite elem_of_union, elem_of_singleton; tauto).
  - lia.
Qed.

(** A cache with nothing on its lists has no free buffer. *)
Lemma full_cache S G D ca c : SlabInv sc S G D → ss_caches S !! ca = Some c → partial_slabs c ++ free_slabs c = [] → kmem_cache_empty c = true.
Proof.
  intros Hinv Hc [Hp Hf]%app_eq_nil. pose proof (si_caches _ _ _ _ Hinv _ _ Hc) as Hco. apply N.eqb_eq.
  rewrite (co_objs _ _ _ _ _ Hco), (co_bufs _ _ _ _ _ Hco), (co_slabs _ _ _ _ _ Hco). apply msum_scale.
  intros sa s Hs. unfold refs_in, listed_in. destruct (N.eqb_spec (slab_cache s) ca) as [E|]; [|cbn; lia].
  destruct (inv_slab _ _ _ _ Hinv _ _ Hs) as (c0 & l & fl & Hc0 & <- & _ & _ & _ & Hok). rewrite E in Hc0. simplify_eq.
  pose proof (so_refs _ _ _ _ _ _ _ _ _ Hok) as Hrefs. case_bool_decide as HD; cbn.
  - destruct (si_dead _ _ _ _ Hinv _ HD) as (t & Ht & ?). simplify_eq. lia.
  - pose proof (co_partial _ _ _ _ _ Hco sa) as Hpart. pose proof (co_free _ _ _ _ _ Hco sa) as Hfree. rewrite Hp, elem_of_nil in Hpart. rewrite Hf, elem_of_nil in Hfree.
    destruct (decide (slab_nr_refs s = 0)) as [H0|H0]; [exfalso; apply Hfree; by exists s|].
    destruct (decide (slab_nr_refs s < bufs_per_slab (kc_layout c))) as [H1|H1]; [exfalso; apply Hpart; exists s; split_and!; [done..|lia|lia]|]. lia.
Qed.

(** The result says if there is a free buffer. *)
Definition grow_post S G D (ca : N) (b : bool) S' : Prop :=
  ∃ G', SlabInv sc S' G' D ∧ extends sc S S' ca ∧ same_live sc S G ca S' G' ∧ keeps S G S' ∧
    if b then ∃ c', ss_caches S' !! ca = Some c' ∧ partial_slabs c' ++ free_slabs c' ≠ [] else may_fail sc S ca ∧ ∀ cb x, live S' G' cb x ↔ live S G cb x.

Lemma kmem_cache_grow_ok m S G D ca c : SlabInv sc S G D → ss_caches S !! ca = Some c → kmem_cache_empty c = true → ready sc S ca = true →
  (external (kc_layout c) = true → alloc_spec sc sc m ∧ ca ≠ sc) → wp (kmem_cache_grow m ca) (grow_post S G D ca) S.
Proof.
  intros Hinv Hc Hempty Hready Hm. pose proof (si_caches _ _ _ _ Hinv _ _ Hc) as Hco. destruct (co_color _ _ _ _ _ Hco) as [Hcl Hcm].
  unfold kmem_cache_grow. apply wp_bind. eapply wp_load_cache; [done|]. rewrite Hempty. cbn [negb]. apply wp_bind.
  set (col := if color_max (kc_layout c) <? color c + align (kc_layout c) then 0 else color c + align (kc_layout c)).
  assert (cache_ok (ss_slabs S) (ss_nodes S) D ca (set_color col c)) as Hco'.
  { destruct Hco. split; try done. cbn. subst col. destruct (N.ltb_spec (color_max (kc_layout c)) (color c + align (kc_layout c))); split; try lia; try apply N.Div0.mod_0_l.
    by rewrite N.Div0.add_mod, Hcm, N.Div0.mod_same. }
  eapply wp_upd_cache; [done|]. assert (SlabInv sc (set_ss_caches (<[ca := set_color col c]> (ss_caches S)) S) G D) as Hinv1.
  { apply (inv_cache S G D D ca c); try done. apply Hinv. }
  set (S1 := set_ss_caches _ S) in *. assert (ss_caches S1 !! ca = Some (set_color col c)) as Hc1 by apply lookup_insert_eq.
  assert (extends sc S S1 ca) as Hex1 by by apply (extends_cache S ca c).
  assert (∀ cb x, live S1 G cb x ↔ live S G cb x) as Hl1 by (intros cb x; by apply (live_cache S G ca c)).
  assert (∀ S2, keeps S1 G S2 → keeps S G S2) as Hkeep.
  { intros S2. apply keeps_trans; [by apply Hex1|intros cb x; apply Hl1|done]. }
  apply wp_bind. assert (ready sc S1 ca = true) as Hready1. { unfold ready. rewrite (ex_layouts _ _ _ _ Hex1). exact Hready. }
  eapply wp_mono; [by apply (kmem_slab_create_ok sc S1 G D ca (color c) (set_color col c) Hinv1 Hc1)|].
  intros r S2 (G2 & Hex2 & Hc2 & Hkeep1 & [(-> & (cb & lf & Hcb & Hf) & Hinv2 & Hl2)|(Hr0 & HrD & Hinv2 & [Hl2 Hd2] & s & Hs & Hsc & Hrefs)]).
  - apply wp_bind, wp_ret, wp_bind. eapply wp_load_cache; [done|]. apply wp_ret. exists G2. split; [done|]. split; [by eapply extends_trans|].
    assert (∀ cb x, live S2 G2 cb x ↔ live S G cb x) as Hl by (intros; by rewrite Hl2, Hl1).
    change (kmem_cache_empty (set_color col c)) with (kmem_cache_empty c). rewrite Hempty. split; [split; intros; by apply Hl|]. split; [by apply Hkeep|]. split; [|done].
    exists cb, lf. by rewrite <- (ex_layouts _ _ _ _ Hex1).
  - destruct (N.eqb_spec r 0) as [|_]; [done|]. cbn [negb]. apply wp_bind.
    replace S2 with (upd S2 ca (set_color col c) r s (ss_mem S2) (ss_nodes S2)) by by apply upd_id.
    apply wp_bind, wp_upd_cache_at, wp_bind, wp_upd_cache_at, wp_bind, wp_upd_cache_at, wp_upd_cache_at, wp_bind, wp_load_cache_at, wp_ret.
    replace (upd S2 ca _ r s _ _) with (set_ss_caches (<[ca := grown r (set_color col c)]> (ss_caches S2)) S2)
      by (unfold upd; cbn; by rewrite (insert_id (ss_slabs S2) r s)).
    exists G2. split_and!.
    + apply (inv_cache S2 G2 ({[r]} ∪ D) D ca (set_color col c)); try done.
      * by apply (cache_list _ _ _ _ _ _ s); [apply Hinv2|..].
      * intros sb t Ht Htc. rewrite elem_of_union, elem_of_singleton. split; [by right|]. intros [->|?]; [|done]. simplify_eq.
      * intros sb HsD. apply (si_dead _ _ _ _ Hinv2). by apply elem_of_union_r.
    + eapply extends_trans; [by eapply extends_trans|]. by eapply extends_cache.
    + split; intros; rewrite (live_cache S2 G2 ca (set_color col c)) by done; [rewrite Hl2 by done; apply Hl1|by apply Hd2, Hl1].
    + by apply (Hkeep S2).
    + apply N.eqb_eq in Hempty. change (kmem_cache_empty _) with (nr_objs c =? nr_bufs c + bufs_per_slab (kc_layout c)).
      pose proof (lo_bufs _ (co_layout _ _ _ _ _ Hco)). destruct (N.eqb_spec (nr_objs c) (nr_bufs c + bufs_per_slab (kc_layout c))); [lia|].
      cbn [negb]. exists (grown r (set_color col c)). cbn. rewrite lookup_insert_eq. split; [done|]. by destruct (partial_slabs c).
Qed.

(** ** Allocation *)

Lemma allocated_after S G ca S1 G1 S2 G2 r : layouts S1 = layouts S → same_live sc S G ca S1 G1 → allocated sc S1 G1 ca S2 G2 r → allocated sc S G ca S2 G2 r.
Proof.
  intros HL [Hl Hd] [Hnew Hlive Hdescr Hal Hun]. split; try done.
  - by rewrite <- Hl.
  - intros cb x Hcb. by rewrite Hlive, Hl.
  - intros x Hx. by apply Hdescr, Hd.
  - by rewrite HL in Hal.
Qed.

(** The constructor. *)
Lemma ctor_ok S0 G0 D ca r S G : SlabInv sc S G D → extends sc S0 S ca → allocated sc S0 G0 ca S G r → keeps S0 G0 S →
  wp (c ← load_cache ca;
      match ctor (kc_layout c) with
      | Some f => modify (λ s, set_ss_mem (f r (ss_mem s)) s)
      | None => mret tt
      end;;
      mret r) (alloc_post sc S0 G0 D ca) S.
Proof.
  intros Hinv Hex Hal Hkeep. assert (live S G ca r) as Hlive by (apply (al_live _ _ _ _ _ _ _ Hal); [done|by right]).
  assert (∀ cb x, live S0 G0 cb x → live S G cb x ∧ (cb, x) ≠ (ca, r)) as Hmono.
  { intros cb x Hx. split; [|intros [= -> ->]; by apply (al_new _ _ _ _ _ _ _ Hal)].
    destruct (decide (cb = sc)) as [->|]; [by apply (al_descr _ _ _ _ _ _ _ Hal)|apply (al_live _ _ _ _ _ _ _ Hal); [done|by left]]. }
  pose proof Hlive as (sa & s & l & fl & i & Hs & Hsc & HL & Hrest). destruct (layouts_inv _ _ _ _ Hinv _ _ HL) as (c & Hc & <- & Hlo).
  apply wp_bind. eapply wp_load_cache; [done|]. apply wp_bind. destruct (ctor (kc_layout c)) as [f|] eqn:Hf.
  - apply wp_modify, wp_ret. exists G. split_and!.
    + eapply inv_write; [done|by exists sa, s, (kc_layout c), fl, i|done|]. intros w Hw. by apply (lo_ctor _ Hlo f).
    + by destruct Hex.
    + intros cb k x w Hx Hk Hw. rewrite <- (Hkeep cb k x w Hx Hk Hw). cbn. apply (lo_ctor _ Hlo f); [done|]. destruct (Hmono cb x Hx) as [Hx' Hne].
      rewrite <- (ex_layouts _ _ _ _ Hex) in Hk. destruct (objects_apart _ _ _ _ _ _ _ _ _ _ Hinv Hk HL Hx' Hlive Hne); lia.
    + right. by destruct Hal.
  - apply wp_ret, wp_ret. exists G. split_and!; try done. by right.
Qed.

Lemma slab_alloc_ok m ca : (∀ S G D c, SlabInv sc S G D → ss_caches S !! ca = Some c → external (kc_layout c) = true → alloc_spec sc sc m ∧ ca ≠ sc) →
  alloc_spec sc ca (slab_alloc 2 m ca).
Proof.
  intros Hm S G D Hinv Hready. assert (is_Some (ss_caches S !! ca)) as [c Hc].
  { unfold ready in Hready. destruct (layouts S !! ca) as [l|] eqn:HL; [|done]. destruct (layouts_inv _ _ _ _ Hinv _ _ HL) as (c & ? & _). by exists c. }
  cbn [slab_alloc]. apply wp_bind. eapply wp_mono; [by apply (alloc_from_slab_ok sc S G D ca c)|].
  intros r S1 [(-> & -> & Hnone)|(G1 & Hinv1 & Hal & Hex & Hmem)].
  2: { pose proof (al_align _ _ _ _ _ _ _ Hal) as (Hr0 & _). destruct (N.eqb_spec r 0); [done|]. apply (ctor_ok S G D ca r S1 G1); try done. intros cb k x w _ _ _. by rewrite Hmem. }
  apply wp_bind. eapply wp_mono; [apply (kmem_cache_grow_ok m S G D ca c); [done..|by eapply full_cache|done|by eapply Hm]|].
  intros b S1 (G1 & Hinv1 & Hex1 & Hsame & Hkeep & Hb). destruct b; cbn [negb].
  - destruct Hb as (c1 & Hc1 & Hlists). apply wp_bind. eapply wp_mono; [by apply (alloc_from_slab_ok sc S1 G1 D ca c1)|].
    intros r S2 [(-> & -> & ?)|(G2 & Hinv2 & Hal & Hex & Hmem)]; [done|].
    pose proof (al_align _ _ _ _ _ _ _ Hal) as (Hr0 & _). destruct (N.eqb_spec r 0); [done|]. apply (ctor_ok S G D ca r S2 G2); [done|by eapply extends_trans| |].
    + eapply allocated_after; [by apply Hex1|done|done].
    + intros cb k x w Hx Hk Hw. rewrite Hmem. by apply (Hkeep cb k x).
  - apply wp_ret. destruct Hb. exists G1. split_and!; try done. by left.
Qed.

(** Allocation of an object returns a new one, or there is no memory. *)
Lemma kmem_cache_alloc_ok ca : alloc_spec sc ca (kmem_cache_alloc sc ca).
Proof.
  assert (∀ S G D c, SlabInv sc S G D → ss_caches S !! sc = Some c → external (kc_layout c) = false) as Hsc.
  { intros S G D c Hinv Hc. destruct (si_descr _ _ _ _ Hinv) as (l & HL & He & _). unfold layouts in HL. rewrite lookup_fmap, Hc in HL. cbn in HL. by simplify_eq. }
  apply slab_alloc_ok. intros S G D c Hinv Hc He. split.
  - apply slab_alloc_ok. intros S' G' D' c' Hinv' Hc' He'. by rewrite (Hsc _ _ _ _ Hinv' Hc') in He'.
  - intros ->. by rewrite (Hsc _ _ _ _ Hinv Hc) in He.
Qed.
End Cache.
