(* ===== verification/SlabCollect.v ===== *)
(** Garbage collection: slabs with no object are taken off their caches and
    destroyed. *)

From stdpp Require Import sorting.
From S2P Require Import Prelude Rbtree RbtreeInsert Slab SlabAlign SlabInv SlabFrame SlabTree SlabRun SlabAlloc SlabFree SlabPages SlabCreate SlabGrow SlabCache.

Open Scope N_scope.

(** ** Off the lists *)

Lemma cache_unlist sl no D ca c sa k : cache_ok sl no D ca c → free_slabs c = sa :: k →
  cache_ok sl no ({[sa]} ∪ D) ca (KCache (kc_layout c) (partial_slabs c) k (active_slabs c) (nr_objs c) (nr_free_slabs c - 1) (color c)
    (nr_bufs c - bufs_per_slab (kc_layout c)) (nr_slabs c - 1)) ∧ ∃ s, sl !! sa = Some s ∧ slab_cache s = ca ∧ slab_nr_refs s = 0 ∧ sa ∉ D.
Proof.
  intros [Hlo Hcol [Hnp Hnf] Hpart Hfree Hlen Hobj Hsl Hbuf Htree] Hk. rewrite Hk in *. cbn in Hlen. apply list.NoDup_cons in Hnf as [Hn Hnf].
  destruct (proj1 (Hfree sa)) as (s & Hs & Hsc & Hr & HD); [by left|]. split; [|by exists s].
  assert (listed_in ca D sa s = 1) as E1. { unfold listed_in. by rewrite Hsc, N.eqb_refl, bool_decide_eq_false_2. }
  assert (listed_in ca ({[sa]} ∪ D) sa s = 0) as E2.
  { unfold listed_in. rewrite bool_decide_eq_true_2, andb_false_r; [done|]. apply elem_of_union_l. by apply elem_of_singleton. }
  assert (msum (listed_in ca D) sl = msum (listed_in ca ({[sa]} ∪ D)) sl + 1) as E.
  { pose proof (msum_change (listed_in ca D) (listed_in ca ({[sa]} ∪ D)) sl sa s Hs) as E. rewrite E1, E2, N.add_0_r in E. apply E.
    intros sb t _ Hne. unfold listed_in. by rewrite (bool_decide_ext (sb ∈ {[sa]} ∪ D) (sb ∈ D)) by (rewrite elem_of_union, elem_of_singleton; tauto). }
  split; try done; cbn; try lia.
  - intros sb. setoid_rewrite elem_of_union. setoid_rewrite elem_of_singleton. specialize (Hfree sb). rewrite elem_of_cons in Hfree.
    split.
    + intros Hin. destruct (proj1 Hfree) as (t & ? & ? & ? & ?); [by right|]. exists t. split_and!; try done. intros [->|?]; done.
    + intros (t & ? & ? & ? & ?). destruct (proj2 Hfree) as [->|?]; [exists t; split_and!; try done; tauto|tauto|done].
  - rewrite Hbuf, Hsl, E. lia.
Qed.

Lemma cache_reap sl no ca k : ∀ D c, free_slabs c = k → cache_ok sl no D ca c →
  cache_ok sl no (list_to_set k ∪ D) ca (KCache (kc_layout c) (partial_slabs c) [] (active_slabs c) (nr_objs c) 0 (color c)
    (nr_bufs c - bufs_per_slab (kc_layout c) * N.of_nat (length k)) (nr_slabs c - N.of_nat (length k))) ∧
  Forall (λ sa, ∃ s, sl !! sa = Some s ∧ slab_cache s = ca ∧ slab_nr_refs s = 0 ∧ sa ∉ D) k ∧ NoDup k.
Proof.
  induction k as [|sa k IH]; intros D c Hk Hco.
  - split; [|split; [constructor|apply NoDup_nil_2]]. cbn. rewrite union_empty_l_L, N.mul_0_r, !N.sub_0_r. pose proof (co_nr_free _ _ _ _ _ Hco) as Hn.
    rewrite Hk in Hn. cbn in Hn. destruct c. cbn in *. by subst.
  - destruct (co_nodup _ _ _ _ _ Hco) as [_ Hnd]. rewrite Hk in Hnd. destruct (cache_unlist _ _ _ _ _ _ _ Hco Hk) as [Hco1 Hsa].
    edestruct IH as (Hco2 & Hall & _); [|exact Hco1|]; [done|]. split_and!; [|constructor; [done|]|done].
    + cbn [list_to_set length]. replace (list_to_set k ∪ ({[sa]} ∪ D)) with ({[sa]} ∪ list_to_set k ∪ D) in Hco2 by (rewrite (union_comm_L {[sa]} (list_to_set k)), union_assoc_L; done).
      cbn in Hco2. eapply eq_ind; [exact Hco2|]. f_equal; lia.
    + eapply list.Forall_impl; [done|]. cbn. intros sb (s & ? & ? & ? & Hn). exists s. split_and!; try done. intros ?. apply Hn. by apply elem_of_union_r.
Qed.

(** ** Out of memory *)

Lemma cache_remove sl no no' D ca c sa s : cache_ok sl no D ca c → sl !! sa = Some s → slab_nr_refs s = 0 → sa ∈ D →
  (∀ x, active_node sl ca x → no' !! x = no !! x) → cache_ok (delete sa sl) no' (D ∖ {[sa]}) ca c.
Proof.
  intros [Hlo Hcol Hnd Hpart Hfree Hnf Hobj Hsl Hbuf Htree] Hsa Hr HD Hno.
  assert (∀ sb t, slab_nr_refs t ≠ 0 ∨ sb ∉ D → delete sa sl !! sb = Some t ↔ sl !! sb = Some t) as Hold.
  { intros sb t Ht. rewrite lookup_delete_Some. split; [by intros [_ ?]|]. intros E. split; [|done]. intros <-. destruct Ht; [congruence|done]. }
  split; try done.
  - intros sb. rewrite Hpart. f_equiv. intros t. split; intros (Ht & Htc & ? & ?); (split_and!; [apply (Hold sb t); [left; lia|done]|done..]).
  - intros sb. rewrite Hfree. setoid_rewrite elem_of_difference. setoid_rewrite elem_of_singleton. f_equiv. intros t. split.
    + intros (Ht & Htc & ? & Hd). split_and!; try done; [apply Hold; [by right|done]|tauto].
    + rewrite lookup_delete_Some. intros ((? & ?) & Htc & ? & Hd). split_and!; try done. intros ?. apply Hd. split; [done|congruence].
  - rewrite Hobj, (msum_delete _ _ _ _ Hsa). unfold refs_in at 1. rewrite Hr. by destruct (_ =? _).
  - rewrite Hsl, (msum_delete _ _ _ _ Hsa). unfold listed_in at 1. rewrite bool_decide_eq_true_2, andb_false_r, N.add_0_l by done. apply msum_ext.
    intros sb t [Hne Ht]%lookup_delete_Some. unfold listed_in.
    rewrite (bool_decide_ext (sb ∈ D ∖ {[sa]}) (sb ∈ D)); [done|]. rewrite elem_of_difference, elem_of_singleton. split; [tauto|]. intros ?. split; [done|congruence].
  - intros Hu. destruct (Htree Hu) as (k & Hrb & Hsort & Hk). exists k. split_and!.
    + eapply rb_tree_frame; [|done]. intros x Hx. by apply Hno, Hk.
    + eapply StronglySorted_frame; [|done]. intros x y (sx & tx & -> & Hx & _ & ?)%Hk (sy & ty & -> & Hy & _ & ?)%Hk. rewrite !cmp_insert_neg.
      unfold addr_of, slab_of_node. rewrite !N.add_sub, !lookup_delete_ne; [done|intros <-; simplify_eq; lia..].
    + intros x. rewrite Hk. unfold active_node. f_equiv. intros sb. f_equiv. intros t. split; intros (-> & Ht & Htc & ?);
        (split_and!; [done| |done..]); (apply (Hold sb t); [left; lia|done]).
Qed.

Section Collect.
Context {P : Type} `{!PageSource P} (sc : N).
Implicit Types (S : slab_state P) (G : gmap N (list N)) (D : gset N).

(** A slab with no references has all its buffers on the free list. *)
Lemma all_free lv me pr no d sa s l fl i : slab_ok lv me pr no d sa s l fl → slab_nr_refs s = 0 → i < bufs_per_slab l → i ∈ fl.
Proof.
  intros Hok Hr Hi. destruct (decide (i ∈ fl)) as [|Hn]; [done|]. destruct (so_free _ _ _ _ _ _ _ _ _ Hok) as [Hnd Hlt].
  pose proof (so_refs _ _ _ _ _ _ _ _ _ Hok). assert (N.of_nat (length (i :: fl)) ≤ bufs_per_slab l); [|cbn in *; lia].
  apply nodup_bound; [by apply list.NoDup_cons|by apply list.Forall_cons].
Qed.

Section Remove.
Context (S : slab_state P) (G : gmap N (list N)) (D : gset N) (sa : N) (s : kmem_slab).
Context (Hinv : SlabInv sc S G D) (Hs : ss_slabs S !! sa = Some s) (HD : sa ∈ D).
#[local] Abbreviation S1 := (set_ss_nodes (delete (sa + offsetof_tree_node) (ss_nodes S)) (set_ss_slabs (delete sa (ss_slabs S)) S)).

Lemma dead_refs : slab_nr_refs s = 0.
Proof. destruct (si_dead _ _ _ _ Hinv _ HD) as (t & Ht & ?). by simplify_eq. Qed.

Lemma remove_live cb x : live S1 G cb x ↔ live S G cb x.
Proof.
  split; intros (sb & t & lt & ft & j & Ht & Htc & HLt & HGt & Hj & Hjf & ->); exists sb, t, lt, ft, j; split_and!; try done; cbn in *.
  - by apply lookup_delete_Some in Ht as [_ ?].
  - apply lookup_delete_Some. split; [|done]. intros <-. destruct (inv_slab _ _ _ _ Hinv _ _ Ht) as (? & ? & ? & _ & _ & ? & _ & ? & Hok). simplify_eq.
    apply Hjf. eapply all_free; [done|apply dead_refs|done].
Qed.

(** The descriptor goes, the pages stay for the moment. *)
Lemma remove_inv : SlabInv sc S1 G (D ∖ {[sa]}).
Proof.
  destruct (inv_slab _ _ _ _ Hinv _ _ Hs) as (c & l & fl & Hc & <- & HL & Hlo & HG & Hok).
  apply (inv_change sc sa (slab_cache s) c c S G D); try done.
  - cbn. by rewrite insert_id.
  - apply Hinv.
  - apply Hinv.
  - apply (cache_remove _ (ss_nodes S) _ _ _ _ _ s); try done; [by apply Hinv|apply dead_refs|].
    intros x (sb & t & -> & Ht & _ & ?). cbn. apply lookup_delete_ne. intros E. assert (sb = sa) as -> by lia. pose proof dead_refs. simplify_eq. lia.
  - by intros s0 E; simplify_eq.
  - intros sb Hne. by apply lookup_delete_ne.
  - intros sb t lt Hne Ht HLt. destruct (inv_slab _ _ _ _ Hinv _ _ Ht) as (? & ? & ? & _ & _ & _ & _ & _ & Hok'). split; cbn; try done.
    + by rewrite lookup_delete_ne.
    + rewrite lookup_delete_ne by lia. apply Hok'.
    + intros _. apply lookup_delete_ne. lia.
    + by intros ?%remove_live.
    + intros _. rewrite elem_of_difference, elem_of_singleton. tauto.
  - cbn. intros s0. by rewrite lookup_delete_eq.
  - intros sb [Hsb Hne%not_elem_of_singleton]%elem_of_difference. destruct (si_dead _ _ _ _ Hinv _ Hsb) as (t & Ht & ?). exists t. cbn. by rewrite lookup_delete_ne.
Qed.
End Remove.

(** ** Destruction *)

(** Only the cache of descriptors, and dead slabs, are touched. *)
Record collected S G D S' G' D' : Prop := {
  cl_layouts : layouts S' = layouts S;
  cl_list : kmem_cache_list S' = kmem_cache_list S;
  cl_caches cb : cb ≠ sc → ss_caches S' !! cb = ss_caches S !! cb;
  cl_live cb x : cb ≠ sc → live S' G' cb x ↔ live S G cb x;
  cl_descr x : live S' G' sc x → live S G sc x;
  cl_dead sb : sb ∈ D' → ss_slabs S' !! sb = ss_slabs S !! sb;
  cl_mem cb l x w : cb ≠ sc → live S G cb x → layouts S !! cb = Some l → x ≤ w < x + obj_size l → ss_mem S' !! w = ss_mem S !! w;
}.

Lemma collected_trans S1 G1 D1 S2 G2 D2 S3 G3 D3 : D3 ⊆ D2 → collected S1 G1 D1 S2 G2 D2 → collected S2 G2 D2 S3 G3 D3 → collected S1 G1 D1 S3 G3 D3.
Proof.
  intros Hsub [HL ? H1 H2 H3 H4 H5] [? ? K1 K2 K3 K4 K5]. split; try congruence.
  - intros. by rewrite K1, H1.
  - intros. by rewrite K2, H2.
  - auto.
  - intros sb Hsb. rewrite K4 by done. by apply H4, Hsub.
  - intros cb l x w Hne Hx Hl Hw. rewrite (K5 cb l x), (H5 cb l x); try done; [by apply H2|by rewrite HL].
Qed.

(** The pages of a slab that is gone are released. *)
Lemma destroy_pages S G D r l : SlabInv sc S G D → layout_ok l → pg_live (ss_pages S) !! r = Some (slab_size l) →
  (∀ sb t, ss_slabs S !! sb = Some t → region t ≠ r) →
  wp (kmem_pagefree r (slab_size l) (flags l)) (λ _ S', SlabInv sc S' G D ∧ collected S G D S' G D ∧
    pg_live (ss_pages S') = delete r (pg_live (ss_pages S))) S.
Proof.
  intros Hinv Hl Hr Hne. eapply wp_mono; [apply (kmem_pagefree_ok S l r Hl); [apply Hinv..|done]|]. intros _ S' (p & -> & Hp & Hv & Hd). split_and!; [..|done].
  - apply (inv_outside sc S); try done. intros sb t lt Ht _. split_and!; try done. cbn. rewrite Hd. by apply lookup_delete_ne, not_eq_sym, (Hne sb).
  - split; try done.
Qed.

Section Destroy.
Context (S : slab_state P) (G : gmap N (list N)) (D : gset N) (sa : N) (s : kmem_slab).
Context (Hinv : SlabInv sc S G D) (Hs : ss_slabs S !! sa = Some s) (HD : sa ∈ D).
#[local] Abbreviation S1 := (set_ss_nodes (delete (sa + offsetof_tree_node) (ss_nodes S)) (set_ss_slabs (delete sa (ss_slabs S)) S)).

Lemma destroy_region sb t : delete sa (ss_slabs S) !! sb = Some t → region t ≠ region s.
Proof. intros [Hne Ht]%lookup_delete_Some E. apply Hne. by eapply (si_regions _ _ _ _ Hinv). Qed.

(** With a descriptor of its own. *)
Lemma destroy_external l pr : layouts S !! slab_cache s = Some l → external l = true → (∀ b, b ≠ region s → pr !! b = ss_priv S !! b) →
  wp (kmem_cache_free sc sa;; kmem_pagefree (region s) (slab_size l) (flags l))
    (λ _ S', ∃ G', SlabInv sc S' G' (D ∖ {[sa]}) ∧ collected S G D S' G' (D ∖ {[sa]}) ∧
      pg_live (ss_pages S') = delete (region s) (pg_live (ss_pages S))) (set_ss_priv pr S1).
Proof.
  intros HL He Hpr. destruct (inv_slab _ _ _ _ Hinv _ _ Hs) as (c & l' & fl & Hc & <- & HL' & Hlo & HG & Hok). simplify_eq.
  assert (SlabInv sc (set_ss_priv pr S1) G (D ∖ {[sa]})) as Hinv1.
  { apply (inv_outside sc S1); try done; [by apply (remove_inv S G D sa s)|apply Hinv..|]. intros sb t lt Ht _. split_and!; try done. by apply Hpr, (destroy_region sb). }
  assert (∀ cb x, live (set_ss_priv pr S1) G cb x ↔ live S G cb x) as Hlive1. { intros cb x. rewrite (live_outside S1) by done. by apply (remove_live S G D sa s). }
  apply wp_bind. eapply wp_mono; [eapply (kmem_cache_free_ok sc _ G (D ∖ {[sa]}) sc sa Hinv1)|].
  - apply Hlive1. by apply Hok.
  - intros _. apply lookup_delete_eq.
  - intros _ S2 (G2 & Hinv2 & Hlive2 & HL2 & Hlist2 & Hpages2 & Hcaches2 & Hmem2 & Hnone2 & Hsome2).
    eapply wp_mono; [eapply (destroy_pages S2 G2); [done|done|rewrite Hpages2; apply Hok|]|].
    + intros sb t Ht. destruct (delete sa (ss_slabs S) !! sb) as [t0|] eqn:Ht0; [|by rewrite (Hnone2 sb Ht0) in Ht].
      destruct (Hsome2 sb t0 Ht0) as (t' & Ht' & Ha & _). simplify_eq. unfold region. rewrite Ha. by apply (destroy_region sb).
    + intros _ S3 (Hinv3 & Hcol3 & Hpg3). exists G2. split_and!; [done| |by rewrite Hpg3, Hpages2].
      eapply (collected_trans _ _ _ S2 G2 (D ∖ {[sa]})); [done| |done]. split; try done.
      * intros cb x Hne. rewrite Hlive2, Hlive1. split; [tauto|]. intros ?. split; [done|]. by intros [? _].
      * intros x [? _]%Hlive2. by apply Hlive1.
      * intros sb [Hsb Hne%not_elem_of_singleton]%elem_of_difference. destruct (si_dead _ _ _ _ Hinv _ Hsb) as (t & Ht & _).
        destruct (Hsome2 sb t) as (t' & Ht' & _ & Heq); [by apply lookup_delete_Some|]. rewrite Ht', Ht, Heq; [done|]. right.
        apply elem_of_difference. split; [done|by apply not_elem_of_singleton].
      * intros cb l x w Hne Hx Hl Hw. destruct (si_descr _ _ _ _ Hinv) as (ld & HLd & _). apply (Hmem2 ld); [done|].
        destruct (layouts_inv _ _ _ _ Hinv _ _ Hl) as (_ & _ & _ & Hlol). destruct (lo_buf _ Hlol) as [_ ?].
        destruct (buffers_apart sc S G D cb sc l ld x sa); try done; [by apply Hok|congruence|lia..].
Qed.

Lemma kmem_slab_destroy_ok : wp (kmem_slab_destroy sc sa (slab_cache s))
  (λ _ S', ∃ G', SlabInv sc S' G' (D ∖ {[sa]}) ∧ collected S G D S' G' (D ∖ {[sa]}) ∧
    pg_live (ss_pages S') = delete (region s) (pg_live (ss_pages S))) S.
Proof.
  destruct (inv_slab _ _ _ _ Hinv _ _ Hs) as (c & l & fl & Hc & Hcl & HL & Hlo & HG & Hok). subst l. pose proof (dead_refs S G D sa s Hinv Hs HD) as Hr.
  destruct (region_range _ _ _ _ _ _ _ _ _ (si_pages _ _ _ _ Hinv) Hok) as (H0 & Hm & Hlt).
  assert (page_of (region s) = region s) as Hpr by (rewrite <- (N.add_0_r (region s)) at 1; apply page_of_offset; [done|done|lia]).
  unfold kmem_slab_destroy. apply wp_bind. eapply wp_load_slab; [done|]. apply wp_bind, wp_check; [by apply N.eqb_eq|]. apply wp_bind, wp_check.
  { pose proof (all_free _ _ _ _ _ _ _ _ _ 0 Hok Hr (lo_bufs _ Hlo)) as Hin. pose proof (so_chain _ _ _ _ _ _ _ _ _ Hok) as Hch.
    destruct fl as [|i fl]; [by apply elem_of_nil in Hin|]. destruct Hch as [-> _]. apply negb_true_iff, N.eqb_neq.
    apply (ctl_ok _ _ _ _ _ _ _ _ _ (si_pages _ _ _ _ Hinv) Hlo Hok). by destruct (so_free _ _ _ _ _ _ _ _ _ Hok) as [_ [? _]%list.Forall_cons]. }
  apply wp_bind. eapply wp_load_cache; [done|]. change (P2ALIGN (slab_addr s) PAGE_SIZE) with (region s).
  apply wp_bind, wp_modify, wp_bind, wp_modify. change (has (flags (kc_layout c)) KMEM_CF_SLAB_EXTERNAL) with (external (kc_layout c)).
  destruct (external (kc_layout c)) eqn:He.
  - assert (∀ pr, (∀ b, b ≠ region s → pr !! b = ss_priv S !! b) → wp (kmem_cache_free sc sa) (λ _, wp (kmem_pagefree (region s) (slab_size (kc_layout c)) (flags (kc_layout c)))
      (λ _ S', ∃ G', SlabInv sc S' G' (D ∖ {[sa]}) ∧ collected S G D S' G' (D ∖ {[sa]}) ∧ pg_live (ss_pages S') = delete (region s) (pg_live (ss_pages S))))
      (set_ss_priv pr S1)) as Hrest. { intros pr Hpr'. by apply wp_bind_inv, destroy_external. }
    apply wp_bind, wp_bind. destruct (has (flags (kc_layout c)) KMEM_CF_USE_PAGE).
    + apply wp_bind. unfold page_exists. apply wp_bind, wp_get, wp_ret, wp_bind, wp_check.
      { apply bool_decide_eq_true. rewrite Hpr. cbn. rewrite (so_region _ _ _ _ _ _ _ _ _ Hok). done. }
      apply wp_modify. rewrite Hpr. apply Hrest. intros b Hb. by apply lookup_insert_ne, not_eq_sym.
    + apply wp_ret. by apply (Hrest (ss_priv S)).
  - apply wp_bind, wp_ret. eapply wp_mono; [eapply (destroy_pages S1 G (D ∖ {[sa]})); [by apply (remove_inv S G D sa s)|done|apply Hok|apply destroy_region]|].
    intros _ S' (Hinv' & Hcol & Hpg). exists G. split_and!; try done. eapply (collected_trans _ _ _ S1 G (D ∖ {[sa]})); [done| |done]. split; try done.
    + intros cb x _. by apply (remove_live S G D sa s).
    + intros x. by apply (remove_live S G D sa s).
    + intros sb [_ Hne%not_elem_of_singleton]%elem_of_difference. by apply lookup_delete_ne.
Qed.
End Destroy.

(** ** Collection *)

Definition reaped_cache (c : kmem_cache) : kmem_cache :=
  KCache (kc_layout c) (partial_slabs c) [] (active_slabs c) (nr_objs c) 0 (color c)
    (nr_bufs c - bufs_per_slab (kc_layout c) * N.of_nat (length (free_slabs c))) (nr_slabs c - N.of_nat (length (free_slabs c))).

Lemma wp_upd_cache_again S ca c f Q : Q tt (set_ss_caches (<[ca := f c]> (ss_caches S)) S) →
  wp (upd_cache ca f) Q (set_ss_caches (<[ca := c]> (ss_caches S)) S).
Proof. intros HQ. eapply wp_upd_cache; [apply lookup_insert_eq|]. unfold set_ss_caches in *. cbn in *. by rewrite insert_insert_eq. Qed.

Lemma kmem_cache_reap_ok S G D ca c dead : SlabInv sc S G D → ss_caches S !! ca = Some c →
  wp (kmem_cache_reap ca dead) (λ r S', r = dead ++ free_slabs c ∧ S' = set_ss_caches (<[ca := reaped_cache c]> (ss_caches S)) S ∧
    SlabInv sc S' G (list_to_set (free_slabs c) ∪ D) ∧ NoDup (free_slabs c) ∧ Forall (.∉ D) (free_slabs c)) S.
Proof.
  intros Hinv Hc. pose proof (si_caches _ _ _ _ Hinv _ _ Hc) as Hco. unfold kmem_cache_reap. apply wp_bind. eapply wp_load_cache; [done|].
  apply wp_bind. eapply wp_upd_cache; [done|]. apply wp_bind, wp_upd_cache_again, wp_bind, wp_upd_cache_again, wp_bind, wp_upd_cache_again, wp_ret.
  cbn [nr_bufs nr_free_slabs kc_layout nr_slabs set_free_slabs set_nr_bufs set_nr_slabs]. rewrite (co_nr_free _ _ _ _ _ Hco).
  destruct (cache_reap _ _ _ _ D c eq_refl Hco) as (Hco' & Hall & Hnd). split_and!; [done|done|apply (inv_cache sc S G D _ ca c); try done|done|].
  - intros sb t Ht Htc. rewrite elem_of_union, elem_of_list_to_set. split; [|tauto]. intros [Hsb|?]; [|done].
    rewrite list.Forall_forall in Hall. destruct (Hall sb Hsb) as (u & ? & ? & _). simplify_eq.
  - intros sb [Hsb%elem_of_list_to_set|Hsb]%elem_of_union; [|by apply Hinv]. rewrite list.Forall_forall in Hall. destruct (Hall sb Hsb) as (u & ? & _ & ? & _). by exists u.
  - eapply list.Forall_impl; [done|]. by intros sb (u & _ & _ & _ & ?).
Qed.

(** Only the caches [cs] change, and have no free slab then. *)
Record reaped S (cs : list N) (dead : list N) S' : Prop := {
  re_slabs : ss_slabs S' = ss_slabs S;
  re_pages : ss_pages S' = ss_pages S;
  re_mem : ss_mem S' = ss_mem S;
  re_list : kmem_cache_list S' = kmem_cache_list S;
  re_layouts : layouts S' = layouts S;
  re_caches ca : ca ∉ cs → ss_caches S' !! ca = ss_caches S !! ca;
  re_free ca c : ca ∈ cs → ss_caches S' !! ca = Some c → free_slabs c = [];
  re_dead ca c sa : ca ∈ cs → ss_caches S !! ca = Some c → sa ∈ free_slabs c → sa ∈ dead;
}.

Lemma reap_all_ok cs : ∀ S G dead, Forall (λ ca, is_Some (ss_caches S !! ca)) cs → SlabInv sc S G (list_to_set dead) → NoDup dead →
  wp (reap_all cs dead) (λ dead' S', SlabInv sc S' G (list_to_set dead') ∧ NoDup dead' ∧ reaped S cs dead' S' ∧ dead ⊆ dead') S.
Proof.
  induction cs as [|ca cs IH]; intros S G dead Hcs Hinv Hnd; cbn [reap_all].
  - apply wp_ret. split_and!; try done. split; try done; [by intros ? ? ?%elem_of_nil|by intros ? ? ? ?%elem_of_nil].
  - apply list.Forall_cons in Hcs as [[c Hc] Hcs]. apply wp_bind. eapply wp_mono; [by apply (kmem_cache_reap_ok S G (list_to_set dead) ca c)|].
    intros dead1 S1 (-> & HS1 & Hinv1 & Hnd1 & Hnin). assert (layouts S1 = layouts S) as HL1 by (rewrite HS1; by apply (layouts_cache S ca c)).
    eapply wp_mono; [apply (IH S1 G)|].
    + eapply list.Forall_impl; [exact Hcs|]. intros cb. rewrite HS1. cbn. intros Hcb. destruct (decide (cb = ca)) as [->|]; [by rewrite lookup_insert_eq|by rewrite lookup_insert_ne].
    + rewrite list_to_set_app_L, union_comm_L. done.
    + apply list.NoDup_app. split_and!; try done. rewrite list.Forall_forall in Hnin. intros x Hx Hx'. apply (Hnin x Hx'). by apply elem_of_list_to_set.
    + intros dead' S' (Hinv' & Hnd' & [R1 R2 R0 R3 R4 R5 R6 R7] & Hsub). rewrite list_subseteq_app_iff_l in Hsub. destruct Hsub as [Hsub1 Hsub2].
      assert (∀ cb, cb ≠ ca → ss_caches S1 !! cb = ss_caches S !! cb) as Hne1. { intros cb Hne. rewrite HS1. cbn. by apply lookup_insert_ne. }
      split_and!; try done. split; [by rewrite R1, HS1|by rewrite R2, HS1|by rewrite R0, HS1|by rewrite R3, HS1|by rewrite R4|..].
      * intros cb [? ?]%not_elem_of_cons. rewrite R5 by done. by apply Hne1.
      * intros cb c0 Hin Hc0. destruct (decide (cb ∈ cs)) as [|Hnot]; [by eapply R6|]. rewrite R5, HS1 in Hc0 by done. apply elem_of_cons in Hin as [->|]; [|done].
        cbn in Hc0. rewrite lookup_insert_eq in Hc0. by simplify_eq.
      * intros cb c0 sa Hin Hc0 Hsa. destruct (decide (cb = ca)) as [->|Hne]; [simplify_eq; by apply Hsub2|]. apply elem_of_cons in Hin as [->|Hin]; [done|].
        eapply R7; [done| |done]. by rewrite Hne1.
Qed.

Lemma destroy_all_ok dead : ∀ S G, SlabInv sc S G (list_to_set dead) → NoDup dead →
  wp (destroy_all sc dead) (λ _ S', ∃ G', SlabInv sc S' G' ∅ ∧ collected S G (list_to_set dead) S' G' ∅ ∧
    (∀ b n, pg_live (ss_pages S') !! b = Some n ↔
       pg_live (ss_pages S) !! b = Some n ∧ ∀ sa s, sa ∈ dead → ss_slabs S !! sa = Some s → region s ≠ b)) S.
Proof.
  induction dead as [|sa dead IH]; intros S G Hinv Hnd; cbn [destroy_all].
  - apply wp_ret. exists G. split_and!; [done|by split|]. intros b n. split; [|by intros [? _]]. intros ?. split; [done|]. by intros ? ? ?%elem_of_nil.
  - apply list.NoDup_cons in Hnd as [Hn Hnd]. assert (sa ∈ (list_to_set (sa :: dead) : gset N)) as Hin by (apply elem_of_list_to_set; by left).
    destruct (si_dead _ _ _ _ Hinv sa Hin) as (s & Hs & _). assert (list_to_set (sa :: dead) ∖ {[sa]} = (list_to_set dead : gset N)) as HD.
    { apply set_eq. intros x. rewrite elem_of_difference, !elem_of_list_to_set, elem_of_cons, elem_of_singleton. split; [tauto|]. intros Hx. split; [by right|]. by intros ->. }
    apply wp_bind. eapply wp_load_slab; [done|]. apply wp_bind. eapply wp_mono; [by apply (kmem_slab_destroy_ok S G (list_to_set (sa :: dead)) sa s)|].
    intros _ S1 (G1 & Hinv1 & Hcol1 & Hpg1). rewrite HD in *. eapply wp_mono; [by apply (IH S1 G1)|]. intros _ S2 (G2 & Hinv2 & Hcol2 & Hpg2).
    exists G2. split_and!; [done| |].
    + eapply (collected_trans _ _ _ S1 G1 (list_to_set dead)); [apply empty_subseteq|by destruct Hcol1|done].
    + intros b n. rewrite Hpg2, Hpg1, lookup_delete_Some. split.
      * intros [[Hne Hb] Hd]. split; [done|]. intros sb t [->|Hsb]%elem_of_cons Ht; [by simplify_eq|]. apply (Hd sb); [done|].
        rewrite (cl_dead _ _ _ _ _ _ Hcol1); [done|]. by apply elem_of_list_to_set.
      * intros [Hb Hd]. split_and!; [by apply (Hd sa); [left|]|done|]. intros sb t Hsb Ht. apply (Hd sb); [by right|].
        rewrite (cl_dead _ _ _ _ _ _ Hcol1) in Ht; [done|]. by apply elem_of_list_to_set.
Qed.

Definition collect_post S G S' G' : Prop :=
  SlabInv sc S' G' ∅ ∧ layouts S' = layouts S ∧ kmem_cache_list S' = kmem_cache_list S ∧
  (∀ cb x, cb ≠ sc → live S' G' cb x ↔ live S G cb x) ∧ (∀ x, live S' G' sc x → live S G sc x) ∧
  (∀ cb l x w, cb ≠ sc → live S G cb x → layouts S !! cb = Some l → x ≤ w < x + obj_size l → ss_mem S' !! w = ss_mem S !! w).

(** All objects stay.  When it is time, caches have no free slab left, and pages
    of slabs that were free are released. *)
Lemma slab_collect_ok S G tick interval : SlabInv sc S G ∅ → Forall (λ ca, is_Some (ss_caches S !! ca)) (kmem_cache_list S) →
  wp (slab_collect sc tick interval) (λ _ S', ∃ G', collect_post S G S' G' ∧
    (kmem_gc_last_tick S + interval < tick →
      (∀ ca c, ca ∈ kmem_cache_list S → ca ≠ sc → ss_caches S' !! ca = Some c → free_slabs c = []) ∧
      (∀ ca c sa s, ca ∈ kmem_cache_list S → ss_caches S !! ca = Some c → sa ∈ free_slabs c → ss_slabs S !! sa = Some s →
         pg_live (ss_pages S') !! region s = None))) S.
Proof.
  intros Hinv Hlist. unfold slab_collect. apply wp_bind, wp_get. destruct (N.leb_spec tick (kmem_gc_last_tick S + interval)) as [Ht|Ht].
  { apply wp_ret. exists G. split; [done|lia]. }
  apply wp_bind, wp_modify, wp_bind. set (S0 := set_kmem_gc_last_tick tick S).
  assert (SlabInv sc S0 G (list_to_set [])) as Hinv0 by (apply (inv_outside sc S); try done; apply Hinv).
  eapply wp_mono; [apply (reap_all_ok _ S0 G []); [done|done|apply NoDup_nil_2]|].
  intros dead S1 (Hinv1 & Hnd & [R1 R2 R0 R3 R4 R5 R6 R7] & _). eapply wp_mono; [by apply (destroy_all_ok dead S1 G)|].
  intros _ S2 (G2 & Hinv2 & [C1 C2 C3 C4 C5 _ C6] & Hpg). assert (∀ cb x, live S1 G cb x ↔ live S G cb x) as Hl1.
  { intros cb x. unfold live. by rewrite R4, R1. }
  exists G2. split; [split_and!; [done|by rewrite C1, R4|by rewrite C2, R3|intros cb x Hne; by rewrite C4, Hl1|intros x ?%C5; by apply Hl1|]|].
  { intros cb l x w Hne Hx Hl Hw. rewrite (C6 cb l x), R0; try done; [by apply Hl1|by rewrite R4]. }
  intros _. split.
  - intros ca c Hin Hne. rewrite C3 by done. by apply R6.
  - intros ca c sa s Hin Hc Hsa Hs. destruct (pg_live (ss_pages S2) !! region s) as [n|] eqn:E; [|done]. apply Hpg in E as [_ E].
    exfalso. apply (E sa s); [by eapply R7|by rewrite R1|done].
Qed.
End Collect.
