(* ===== verification/SlabInit.v ===== *)
(** Initialisation of caches: the layout of slabs that is computed for a size and
    an alignment. *)

From stdpp Require Import sorting.
From S2P Require Import Prelude Rbtree RbtreeInv RbtreeInsert Slab SlabAlign SlabInv SlabFrame SlabRun SlabAlloc SlabPages.

Open Scope N_scope.

(** ** The size of slabs *)

Section Layout.
Context {P : Type} `{!PageSource P}.

(** What the loop returns: slabs are of whole pages, and a buffer fits. *)
Record sizes (cflags buf slab : N) (embed : bool) (size : N) : Prop := {
  sz_pages : slab mod PAGE_SIZE = 0;
  sz_bound : slab < buf + sizeof_kmem_slab + PAGE_SIZE;
  sz_size : size + (if embed then sizeof_kmem_slab else 0) = slab;
  sz_fit : buf ≤ size;
  sz_embed : has cflags KMEM_CACHE_NOOFFSLAB = true → embed = true;
  sz_page : buf + sizeof_kmem_slab ≤ PAGE_SIZE → slab = PAGE_SIZE;
}.

Lemma slab_size_loop_ok fuel cflags buf slab (S : slab_state P) : 8 ≤ buf → slab mod PAGE_SIZE = 0 → PAGE_SIZE ≤ slab → slab < buf + sizeof_kmem_slab + PAGE_SIZE →
  (buf + sizeof_kmem_slab ≤ PAGE_SIZE → slab = PAGE_SIZE) → buf + sizeof_kmem_slab ≤ slab + PAGE_SIZE * N.of_nat fuel →
  wp (slab_size_loop (Datatypes.S fuel) cflags buf slab) (λ '(slab', embed, size) S', S' = S ∧ sizes cflags buf slab' embed size) S.
Proof.
  revert slab. induction fuel as [|fuel IH]; intros slab H8 Hm Hge Hlt Hpage Hfuel; cbn [slab_size_loop].
  - set (embed := if has cflags KMEM_CACHE_NOOFFSLAB then true else sizeof_kmem_slab <=? slab mod buf).
    destruct (N.leb_spec buf (if embed then slab - sizeof_kmem_slab else slab)) as [Hb|Hb]; [|change PAGE_SIZE with 4096 in *; destruct embed; lia].
    apply wp_ret. split; [done|]. split; try done; [change PAGE_SIZE with 4096 in *; destruct embed; lia|]. subst embed. by intros ->.
  - set (embed := if has cflags KMEM_CACHE_NOOFFSLAB then true else sizeof_kmem_slab <=? slab mod buf).
    destruct (N.leb_spec buf (if embed then slab - sizeof_kmem_slab else slab)) as [Hb|Hb].
    + apply wp_ret. split; [done|]. split; try done; [change PAGE_SIZE with 4096 in *; destruct embed; lia|]. subst embed. by intros ->.
    + apply IH; try done; change PAGE_SIZE with 4096 in *; [|destruct embed; lia..]. by rewrite N.Div0.add_mod, Hm.
Qed.

(** ** The layout *)

Lemma has_lor_1 f : has (N.lor f KMEM_CACHE_NOOFFSLAB) KMEM_CACHE_PHYSMEM = has f KMEM_CACHE_PHYSMEM ∧ has (N.lor f KMEM_CACHE_NOOFFSLAB) KMEM_CACHE_NOOFFSLAB = true.
Proof. unfold has. rewrite !N.land_lor_distr_l. change (N.land 1 2) with 0. change (N.land 1 1) with 1. rewrite N.lor_0_r. split; [done|]. by destruct (N.land f 1) as [|[?|?|]]. Qed.

(** [l] is the layout for objects of [osize] bytes. *)
Record layout_for (osize al : N) (ct : option (N → gmap N N → gmap N N)) (cflags : N) (l : kmem_layout) : Prop := {
  lf_ok : layout_ok l;
  lf_size : obj_size l = osize;
  lf_align : align l = N.max al KMEM_ALIGN_MIN;
  lf_ctor : ctor l = ct;
  lf_buf : buf_size l < osize + N.max al KMEM_ALIGN_MIN;
  lf_slab : slab_size l < buf_size l + sizeof_kmem_slab + PAGE_SIZE;
  lf_embed : has cflags KMEM_CACHE_NOOFFSLAB = true ∨ buf_size l < KMEM_BUF_SIZE_THRESHOLD → external l = false;
}.

(** A constructor writes to the object only. *)
Definition ctor_frame (osize : N) (ct : option (N → gmap N N → gmap N N)) : Prop :=
  ∀ f, ct = Some f → ∀ a m w, ¬ (a ≤ w < a + osize) → f a m !! w = m !! w.

Lemma pow2_multiple j k : j ≤ k → 2 ^ k mod 2 ^ j = 0.
Proof. intros Hjk. replace k with (k - j + j) by lia. rewrite N.pow_add_r. apply N.Div0.mod_mul. Qed.

Section Computed.
Context (ct : option (N → gmap N N → gmap N N)) (osize k buf cflags slab size : N) (embed : bool).
Context (H3 : 3 ≤ k) (Hob : osize ≤ buf) (Hkb : 2 ^ k ≤ buf) (Hbk : buf mod 2 ^ k = 0) (Hb63 : buf < 2 ^ 63) (Hct : ctor_frame osize ct).
Context (Hsz : sizes cflags buf slab embed size).

Lemma computed_layout f :
  has f KMEM_CF_SLAB_EXTERNAL = negb embed → has f KMEM_CF_PHYSMEM = (slab =? PAGE_SIZE) →
  has f KMEM_CF_DIRECT = embed && (slab =? PAGE_SIZE) → has f KMEM_CF_USE_PAGE = negb embed && (slab =? PAGE_SIZE) →
  has f KMEM_CF_USE_TREE = negb (slab =? PAGE_SIZE) →
  layout_ok (KLayout f (buf - sizeof_kmem_bufctl) slab (size / buf) ct osize (2 ^ k) buf (if PAGE_SIZE <=? size mod buf then 0 else size mod buf)).
Proof.
  intros F1 F2 F3 F4 F5. destruct Hsz as [Hm Hsb Hss Hsf Hse Hsp].
  assert (8 ≤ 2 ^ k) as H8 by (change 8 with (2 ^ 3); apply N.pow_le_mono_r; lia).
  assert (size = buf * (size / buf) + size mod buf) as Hdm by (apply N.div_mod; lia). assert (size mod buf < buf) as Hml by (apply N.mod_lt; lia).
  assert (0 < size / buf) as Hq by (apply N.div_str_pos; lia).
  set (cmax := if PAGE_SIZE <=? size mod buf then 0 else size mod buf). assert (cmax < PAGE_SIZE ∧ cmax ≤ size mod buf) as [Hc1 Hc2].
  { subst cmax. destruct (N.leb_spec PAGE_SIZE (size mod buf)); [change PAGE_SIZE with 4096; lia|lia]. }
  split; unfold external; cbn [flags bufctl_dist slab_size bufs_per_slab ctor obj_size align buf_size color_max]; rewrite ?F1, ?negb_involutive; try done.
  - split_and!; [lia|by apply (pow2_multiple 3)|done|].
    intros Hp. change PAGE_SIZE with (2 ^ 12) in *. apply pow2_multiple. by apply N.pow_le_mono_r_iff in Hp.
  - lia.
  - split; [done|]. change PAGE_SIZE with 4096 in *. lia.
  - rewrite (N.mul_comm (size / buf)). destruct embed; cbn [negb]; lia.
  - destruct embed; lia.
Qed.
End Computed.

Lemma compute_properties_ok (S : slab_state P) ct osize k buf cflags : k < 62 → 3 ≤ k → 0 < osize → osize ≤ buf → buf < osize + 2 ^ k → buf mod 2 ^ k = 0 → buf < 2 ^ 63 →
  (has cflags KMEM_CACHE_PHYSMEM = true → buf + sizeof_kmem_slab ≤ PAGE_SIZE) →
  ctor_frame osize ct →
  wp (kmem_cache_compute_properties (KLayout 0 (buf - sizeof_kmem_bufctl) 0 0 ct osize (2 ^ k) buf 0) cflags)
    (λ l S', S' = S ∧ layout_ok l ∧ obj_size l = osize ∧ align l = 2 ^ k ∧ ctor l = ct ∧ buf_size l = buf ∧ slab_size l < buf + sizeof_kmem_slab + PAGE_SIZE ∧
      (has cflags KMEM_CACHE_NOOFFSLAB = true ∨ buf < KMEM_BUF_SIZE_THRESHOLD → external l = false)) S.
Proof.
  intros Hk H3 H0 Hob Hbo Hbk Hb63 Hphys Hct. assert (8 ≤ 2 ^ k) as H8 by (change 8 with (2 ^ 3); apply N.pow_le_mono_r; lia).
  assert (2 ^ k ≤ buf) as Hkb. { apply N.Div0.mod_divides in Hbk as [q Hq]. destruct (decide (q = 0)) as [->|]; [lia|]. nia. }
  unfold kmem_cache_compute_properties. cbn [buf_size flags bufctl_dist ctor obj_size align].
  set (cf := if buf <? KMEM_BUF_SIZE_THRESHOLD then N.lor cflags KMEM_CACHE_NOOFFSLAB else cflags).
  assert (has cf KMEM_CACHE_PHYSMEM = has cflags KMEM_CACHE_PHYSMEM) as Hcf. { subst cf. destruct (buf <? _); [apply has_lor_1|done]. }
  assert (has cflags KMEM_CACHE_NOOFFSLAB = true ∨ buf < KMEM_BUF_SIZE_THRESHOLD → has cf KMEM_CACHE_NOOFFSLAB = true) as Hcf1.
  { subst cf. destruct (N.ltb_spec buf KMEM_BUF_SIZE_THRESHOLD) as [|Hge]; [intros _; apply has_lor_1|]. intros [?|?]; [done|lia]. }
  apply wp_bind. replace (N.to_nat (buf / PAGE_SIZE) + 3)%nat with (Datatypes.S (N.to_nat (buf / PAGE_SIZE) + 2)) by lia.
  eapply wp_mono; [apply slab_size_loop_ok; [lia|done|done|change PAGE_SIZE with 4096; lia|done|]|].
  { rewrite Nat2N.inj_add, N2Nat.id. pose proof (N.div_mod' buf PAGE_SIZE) as Hdm. pose proof (N.mod_lt buf PAGE_SIZE). change PAGE_SIZE with 4096 in *. lia. }
  intros [[slab embed] size] S1 (-> & Hsz). apply wp_bind. rewrite Hcf.
  pose proof (computed_layout ct osize k buf cf slab size embed H3 Hob Hkb Hbk Hb63 Hct Hsz) as Hlay. destruct Hsz as [_ Hsb _ _ Hse Hsp].
  destruct (N.eqb_spec slab PAGE_SIZE) as [E|E].
  - rewrite orb_true_r. apply wp_bind, wp_check; [done|]. apply wp_ret, wp_ret.
    destruct embed; (split_and!; [done|by apply Hlay; rewrite ?E|done..|]); [done|]. intros H. by specialize (Hse (Hcf1 H)).
  - destruct (has cflags KMEM_CACHE_PHYSMEM); [by destruct E; apply Hsp, Hphys|]. cbn [orb]. apply wp_ret, wp_ret.
    apply N.eqb_neq in E. destruct embed; (split_and!; [done|by apply Hlay; rewrite ?E|done..|]); [done|]. intros H. by specialize (Hse (Hcf1 H)).
Qed.
End Layout.

(** ** Caches *)

Definition fresh_cache (l : kmem_layout) : kmem_cache := KCache l [] [] 0 0 0 0 0 0.
Definition add_cache {P} (S : slab_state P) (ca : N) (l : kmem_layout) : slab_state P :=
  set_kmem_cache_list (kmem_cache_list S ++ [ca]) (set_ss_caches (<[ca := fresh_cache l]> (ss_caches S)) S).

(** The parameters a cache can be initialised with. *)
Record init_ok (osize al : N) (ct : option (N → gmap N N → gmap N N)) (cflags : N) : Prop := {
  io_verify : has cflags KMEM_CACHE_VERIFY = false;
  io_size : 0 < osize < 2 ^ 62;
  io_align : al < 2 ^ 62 ∧ ISP2 (N.max al KMEM_ALIGN_MIN) = true;
  io_physmem : has cflags KMEM_CACHE_PHYSMEM = true → osize + N.max al KMEM_ALIGN_MIN + sizeof_kmem_slab ≤ PAGE_SIZE;
  io_ctor : ctor_frame osize ct;
}.

Section Init.
Context {P : Type} `{!PageSource P}.

Lemma kmem_cache_init_run (S : slab_state P) ca osize al ct cflags : init_ok osize al ct cflags →
  wp (kmem_cache_init ca osize al ct cflags) (λ _ S', ∃ l, layout_for osize al ct cflags l ∧ S' = add_cache S ca l) S.
Proof.
  intros [Hv [H0 Ho] [Ha Hp2] Hphys Hct]. unfold kmem_cache_init. apply wp_bind, wp_check; [by rewrite Hv|].
  assert ((if al <? KMEM_ALIGN_MIN then KMEM_ALIGN_MIN else al) = N.max al KMEM_ALIGN_MIN) as -> by (destruct (N.ltb_spec al KMEM_ALIGN_MIN); lia).
  apply wp_bind, wp_check; [by apply N.ltb_lt|]. apply wp_bind, wp_check; [done|]. cbv zeta.
  assert (8 < 2 ^ 62) as H62 by done. assert (2 ^ 62 + 2 ^ 62 = 2 ^ 63) as H63 by done. assert (2 ^ 63 < 2 ^ 64) as H64 by done.
  destruct (ISP2_pow2 (N.max al KMEM_ALIGN_MIN)) as (k & Hk & Hal); [lia|lia|done|].
  assert (k < 62) as Hk62. { apply (N.pow_lt_mono_r_iff 2); [done|]. rewrite <- Hal. lia. }
  assert (3 ≤ k) as Hk3. { apply (N.pow_le_mono_r_iff 2); [done|]. change (2 ^ 3) with 8. rewrite <- Hal. lia. }
  rewrite Hal in Hphys |- *. destruct (P2ROUND_spec osize k) as [[Hb1 Hb2] Hbm]; [lia|done|lia|].
  set (buf := P2ROUND osize (2 ^ k)) in *. assert (8 ≤ 2 ^ k) as H8 by (rewrite <- Hal; lia).
  assert (2 ^ k ≤ buf) as Hkb. { apply N.Div0.mod_divides in Hbm as [q Hq]. destruct (decide (q = 0)) as [->|]; [lia|]. nia. }
  assert (u64_sub buf sizeof_kmem_bufctl = buf - sizeof_kmem_bufctl) as ->.
  { unfold u64_sub, u64, wrap. change (8 mod 2 ^ 64) with 8. replace (buf + (2 ^ 64 - 8)) with (buf - 8 + 1 * 2 ^ 64) by lia. rewrite N.Div0.mod_add. apply N.mod_small. lia. }
  apply wp_bind. eapply wp_mono; [apply (compute_properties_ok S ct osize k buf cflags); try done; [lia|]|].
  { intros Hf. specialize (Hphys Hf). lia. }
  intros l S1 (-> & Hok & Hsize & Hal' & Hct' & Hbuf & Hslab & Hemb). apply wp_bind, wp_modify, wp_modify. exists l. split; [|done].
  split; try done; rewrite ?Hal; [done|lia|by rewrite Hbuf|by rewrite Hbuf].
Qed.

(** ** The invariant *)

Lemma rb_tree_nil no : rb_tree no [] (RbStore 0 no).
Proof. exists RbE. split_and!; [|by split; [|exists 0%nat]|done]. split; try done; constructor. Qed.

Lemma fresh_cache_ok sl no D ca l : layout_ok l → (∀ sb t, sl !! sb = Some t → slab_cache t ≠ ca) → cache_ok sl no D ca (fresh_cache l).
Proof.
  intros Hl Hno. split; try done; cbn.
  - split; [lia|apply N.Div0.mod_0_l].
  - split; apply NoDup_nil_2.
  - intros sa. rewrite elem_of_nil. split; [done|]. intros (s & Hs & Hc & _). by destruct (Hno sa s).
  - intros sa. rewrite elem_of_nil. split; [done|]. intros (s & Hs & Hc & _). by destruct (Hno sa s).
  - symmetry. apply (msum_scale _ (λ _ _, 0) _ 0). intros sa s Hs. unfold refs_in. destruct (N.eqb_spec (slab_cache s) ca); [by destruct (Hno sa s)|done].
  - symmetry. apply (msum_scale _ (λ _ _, 0) _ 0). intros sa s Hs. unfold listed_in. destruct (N.eqb_spec (slab_cache s) ca); [by destruct (Hno sa s)|done].
  - lia.
  - intros _. exists []. split_and!; [apply rb_tree_nil|constructor|]. intros x. rewrite elem_of_nil. split; [done|].
    intros (sa & s & _ & Hs & Hc & _). by destruct (Hno sa s).
Qed.

Section Add.
Context (sc : N) (S : slab_state P) (G : gmap N (list N)) (D : gset N) (ca : N) (l : kmem_layout).
Context (Hinv : SlabInv sc S G D) (Hca : ss_caches S !! ca = None) (Hl : layout_ok l).

Lemma add_layouts : layouts (add_cache S ca l) = <[ca := l]> (layouts S).
Proof. unfold layouts, add_cache. cbn. by rewrite fmap_insert. Qed.

Lemma add_none sb t : ss_slabs S !! sb = Some t → slab_cache t ≠ ca.
Proof. intros Ht <-. destruct (inv_slab _ _ _ _ Hinv _ _ Ht) as (c & _ & _ & Hc & _). congruence. Qed.

Lemma add_live cb x : live (add_cache S ca l) G cb x ↔ live S G cb x.
Proof.
  unfold live. rewrite add_layouts. split; intros (sb & t & lt & ft & j & Ht & Htc & HLt & Hrest); exists sb, t, lt, ft, j; split_and!; try done; try apply Hrest;
    pose proof (add_none _ _ Ht) as Hne; rewrite Htc in Hne.
  - by rewrite lookup_insert_ne in HLt.
  - by rewrite lookup_insert_ne.
Qed.

Lemma add_inv : SlabInv sc (add_cache S ca l) G D.
Proof.
  split; try apply Hinv.
  - intros cb c. cbn. intros [[<- <-]|[_ Hc]]%lookup_insert_Some; [apply fresh_cache_ok; [done|apply add_none]|by apply Hinv].
  - rewrite add_layouts. intros sa s Hs. pose proof (add_none _ _ Hs) as Hne.
    destruct (inv_slab _ _ _ _ Hinv _ _ Hs) as (c & k & fl & _ & _ & HL & Hlo & HG & Hok). exists k, fl. rewrite lookup_insert_ne by done. split_and!; try done.
    destruct Hok as [? ? ? Hd ? ? ? ? ? ?]. split; try done. intros He. by apply add_live, Hd.
  - rewrite add_layouts. destruct (si_descr _ _ _ _ Hinv) as (k & HL & Hk). exists k. rewrite lookup_insert_ne; [done|]. intros <-.
    destruct (layouts_inv _ _ _ _ Hinv _ _ HL) as (c & Hc & _). congruence.
Qed.
End Add.

(** The cache of descriptors comes first. *)
Lemma boot_inv sc (S : slab_state P) l : ss_caches S = ∅ → ss_slabs S = ∅ → pages_ok (pg_live (ss_pages S)) → virtual_ok (ss_pages S) →
  layout_for sizeof_kmem_slab 0 None KMEM_CACHE_NOOFFSLAB l → SlabInv sc (add_cache S sc l) ∅ ∅ ∧ ∀ cb x, ¬ live (add_cache S sc l) ∅ cb x.
Proof.
  intros Hc Hs Hp Hv [Hl Hsize _ _ _ _ He]. split; [|by intros cb x (sb & t & lt & ft & j & _ & _ & _ & Hg & _)]. split; try done.
  - cbn. intros cb c. rewrite Hc. intros [[<- <-]|[_ ?]]%lookup_insert_Some; [|done]. apply fresh_cache_ok; [done|]. by rewrite Hs.
  - cbn. by rewrite Hs.
  - cbn. by rewrite Hs.
  - exists l. unfold layouts. cbn. rewrite lookup_fmap, lookup_insert_eq. split_and!; [done|by apply He; left|]. rewrite <- Hsize. apply Hl.
Qed.

Lemma slab_init_params : init_ok sizeof_kmem_slab 0 None KMEM_CACHE_NOOFFSLAB.
Proof. by split. Qed.
End Init.
