(* ===== verification/SlabSystem.v ===== *)
(** The slab allocator as a whole: what its clients see is a heap of objects. *)

From stdpp Require Import sorting.
From S2P Require Import Prelude Rbtree Slab SlabAlign SlabInv SlabRun SlabAlloc SlabFree SlabPages SlabGrow SlabCache SlabCollect SlabInit.

Open Scope N_scope.

(** ** The heap *)

(** Caches, with the size and the alignment of their objects, and the objects,
    with the cache they are from. *)
Record heap := Heap {
  hp_caches : gmap N (N * N);
  hp_objs : gset (N * N);
}.

Inductive slab_call :=
  | SlabCacheInit (cache size al : N) (ct : option (N → gmap N N → gmap N N)) (cflags : N)
  | SlabCacheAlloc (cache : N)
  | SlabCacheFree (cache obj : N)
  | SlabWrite (a v : N)
  | SlabCollect (tick interval : N).

(** The byte at [w] is in the object [x] of the cache [cb]. *)
Definition in_object (h : heap) (cb x w : N) : Prop :=
  (cb, x) ∈ hp_objs h ∧ ∃ size al, hp_caches h !! cb = Some (size, al) ∧ x ≤ w < x + size.

(** What a client may do. *)
Definition heap_pre (sc : N) (h : heap) (k : slab_call) : Prop :=
  match k with
  | SlabCacheInit ca size al ct cflags => ca ≠ sc ∧ hp_caches h !! ca = None ∧ init_ok size al ct cflags
  | SlabCacheAlloc ca => is_Some (hp_caches h !! ca)
  | SlabCacheFree ca a => (ca, a) ∈ hp_objs h
  | SlabWrite w v => ∃ cb x, in_object h cb x w
  | SlabCollect _ _ => True
  end.

(** What it gets: [r] is the result.  A new object overlaps no other. *)
Inductive heap_step (h : heap) : slab_call → N → heap → Prop :=
  | HeapInit ca size al ct cflags :
      heap_step h (SlabCacheInit ca size al ct cflags) 0 (Heap (<[ca := (size, N.max al KMEM_ALIGN_MIN)]> (hp_caches h)) (hp_objs h))
  | HeapNoMemory ca : heap_step h (SlabCacheAlloc ca) 0 h
  | HeapAlloc ca size al r :
      hp_caches h !! ca = Some (size, al) → r ≠ 0 → r mod 8 = 0 → (al ≤ PAGE_SIZE → r mod al = 0) →
      (∀ cb x size' al', (cb, x) ∈ hp_objs h → hp_caches h !! cb = Some (size', al') → r + size ≤ x ∨ x + size' ≤ r) →
      heap_step h (SlabCacheAlloc ca) r (Heap (hp_caches h) ({[(ca, r)]} ∪ hp_objs h))
  | HeapFree ca a : heap_step h (SlabCacheFree ca a) 0 (Heap (hp_caches h) (hp_objs h ∖ {[(ca, a)]}))
  | HeapWrite w v : heap_step h (SlabWrite w v) 0 h
  | HeapCollect tick interval : heap_step h (SlabCollect tick interval) 0 h.

Lemma heap_step_det h k r h1 h2 : heap_step h k r h1 → heap_step h k r h2 → h1 = h2.
Proof. destruct 1; inversion 1; simplify_eq; done. Qed.

(** Bytes of objects a call does not write to. *)
Definition untouched (k : slab_call) (cb x w : N) : Prop :=
  match k with
  | SlabCacheFree ca a => (cb, x) ≠ (ca, a)
  | SlabWrite a _ => w ≠ a
  | _ => True
  end.

Section System.
Context {P : Type} `{!PageSource P} (sc : N).

Definition run_slab_call (k : slab_call) : M (slab_state P) N :=
  match k with
  | SlabCacheInit ca size al ct cflags => kmem_cache_init ca size al ct cflags;; mret 0
  | SlabCacheAlloc ca => kmem_cache_alloc sc ca
  | SlabCacheFree ca a => kmem_cache_free ca a;; mret 0
  | SlabWrite w v => store_word w v;; mret 0
  | SlabCollect tick interval => slab_collect sc tick interval;; mret 0
  end.

(** A thread may have to wait for memory only in an allocation. *)
Definition call_ready (S : slab_state P) (k : slab_call) : Prop := match k with SlabCacheAlloc ca => ready sc S ca = true | _ => True end.

(** After [slab_init], and calls that are permitted. *)
Inductive slab_reach : slab_state P → heap → Prop :=
  | reach_init m pr t p S : pages_ok (pg_live p) → virtual_ok p →
      slab_init sc (SlabState ∅ ∅ ∅ m pr [] t p) = Some (tt, S) → slab_reach S (Heap ∅ ∅)
  | reach_call S h k r S' h' : slab_reach S h → heap_pre sc h k → call_ready S k → run_slab_call k S = Some (r, S') → heap_step h k r h' → slab_reach S' h'.

(** ** The simulation *)

Record slab_rel (S : slab_state P) (h : heap) (G : gmap N (list N)) : Prop := {
  sr_inv : SlabInv sc S G ∅;
  sr_list : Forall (λ ca, is_Some (ss_caches S !! ca)) (kmem_cache_list S);
  sr_caches : hp_caches h = (λ l, (obj_size l, align l)) <$> delete sc (layouts S);
  sr_objs ca x : (ca, x) ∈ hp_objs h ↔ ca ≠ sc ∧ live S G ca x;
}.

Lemma rel_cache S h G ca size al : slab_rel S h G → hp_caches h !! ca = Some (size, al) ↔ ca ≠ sc ∧ ∃ l, layouts S !! ca = Some l ∧ obj_size l = size ∧ align l = al.
Proof.
  intros HR. rewrite (sr_caches _ _ _ HR), lookup_fmap, fmap_Some. setoid_rewrite lookup_delete_Some. split.
  - intros (l & [Hne Hl] & [= -> ->]). split; [congruence|by exists l].
  - intros (Hne & l & Hl & <- & <-). exists l. by split_and!.
Qed.

Lemma list_ok (S S' : slab_state P) : layouts S' = layouts S → kmem_cache_list S' = kmem_cache_list S →
  Forall (λ ca, is_Some (ss_caches S !! ca)) (kmem_cache_list S) → Forall (λ ca, is_Some (ss_caches S' !! ca)) (kmem_cache_list S').
Proof.
  intros HL -> Hall. eapply list.Forall_impl; [exact Hall|]. intros ca Hca. cbn in *. apply (f_equal (.!! ca)) in HL. unfold layouts in HL. rewrite !lookup_fmap in HL.
  destruct Hca as [c Hc]. rewrite Hc in HL. by destruct (ss_caches S' !! ca).
Qed.

(** An object of the heap, in the allocator. *)
Lemma rel_object S h G cb x w : slab_rel S h G → in_object h cb x w → cb ≠ sc ∧ live S G cb x ∧ ∃ l, layouts S !! cb = Some l ∧ x ≤ w < x + obj_size l.
Proof.
  intros HR (Ho & size & al & Hc & Hw). apply (sr_objs _ _ _ HR) in Ho as [Hne Hx]. apply (rel_cache _ _ _ _ _ _ HR) in Hc as (_ & l & Hl & <- & _).
  split_and!; [done..|]. by exists l.
Qed.

Definition call_post (S : slab_state P) (h : heap) (k : slab_call) (r : N) (S' : slab_state P) : Prop :=
  (∃ h' G', heap_step h k r h' ∧ slab_rel S' h' G') ∧
  (∀ cb x w, in_object h cb x w → untouched k cb x w → ss_mem S' !! w = ss_mem S !! w).

Lemma sim_init S h G ca size al ct cflags : slab_rel S h G → heap_pre sc h (SlabCacheInit ca size al ct cflags) →
  wp (run_slab_call (SlabCacheInit ca size al ct cflags)) (call_post S h (SlabCacheInit ca size al ct cflags)) S.
Proof.
  intros HR (Hne & Hnone & Hok). assert (ss_caches S !! ca = None) as Hca.
  { destruct (ss_caches S !! ca) as [c|] eqn:Hc; [|done]. assert (hp_caches h !! ca = Some (obj_size (kc_layout c), align (kc_layout c))) as E; [|by rewrite E in Hnone].
    apply (rel_cache _ _ _ _ _ _ HR). split; [done|]. exists (kc_layout c). unfold layouts. by rewrite lookup_fmap, Hc. }
  apply wp_bind. eapply wp_mono; [by apply kmem_cache_init_run|]. intros _ S' (l & [Hl Hsize Hal _ _ _ _] & ->). apply wp_ret. split; [|done].
  eexists _, G. split; [apply HeapInit|]. split.
  - by apply add_inv; [apply HR|..].
  - cbn. apply list.Forall_app. split; [|apply list.Forall_singleton; by rewrite lookup_insert_eq]. eapply list.Forall_impl; [apply HR|].
    intros cb Hcb. cbn in *. destruct (decide (cb = ca)) as [->|]; [by rewrite lookup_insert_eq|by rewrite lookup_insert_ne].
  - rewrite add_layouts, delete_insert_ne, fmap_insert, Hsize, Hal by done. cbn. by rewrite (sr_caches _ _ _ HR).
  - intros cb x. cbn. rewrite (sr_objs _ _ _ HR). by rewrite (add_live sc S G ∅ ca l) by (done || apply HR).
Qed.

Lemma sim_alloc S h G ca : slab_rel S h G → heap_pre sc h (SlabCacheAlloc ca) → ready sc S ca = true → wp (run_slab_call (SlabCacheAlloc ca)) (call_post S h (SlabCacheAlloc ca)) S.
Proof.
  intros HR [[size al] Hca] Hready. pose proof (proj1 (rel_cache _ _ _ _ _ _ HR) Hca) as (Hne & l & Hl & <- & <-).
  pose proof (sr_inv _ _ _ HR) as Hinv. destruct (layouts_inv _ _ _ _ Hinv _ _ Hl) as (c & Hc & _).
  eapply wp_mono; [by apply (kmem_cache_alloc_ok sc ca S G ∅ Hinv)|]. intros r S' (G' & Hinv' & Hex & Hkeep & Hres).
  assert (∀ cb x w, in_object h cb x w → ss_mem S' !! w = ss_mem S !! w) as Hmem.
  { intros cb x w Ho. destruct (rel_object _ _ _ _ _ _ HR Ho) as (_ & Hx & lb & Hlb & Hw). by apply (Hkeep cb lb x). }
  assert (∀ o : gset (N * N), (∀ cb x, (cb, x) ∈ o ↔ cb ≠ sc ∧ live S' G' cb x) → slab_rel S' (Heap (hp_caches h) o) G') as HR'.
  { intros o Ho. split; try done; [|by rewrite (ex_layouts _ _ _ _ Hex); apply HR]. eapply list_ok; [apply Hex|apply Hex|apply HR]. }
  split; [|intros; by eapply Hmem]. destruct Hres as [(-> & _ & Hsame)|[Hnew Hlive _ (Hr0 & Hr8 & Hral) _]].
  - exists h, G'. split; [constructor|]. destruct h as [hc ho]. apply HR'. intros cb x. rewrite Hsame. apply (sr_objs _ _ _ HR).
  - eexists _, G'. split; [eapply HeapAlloc; try done; [by apply (Hral l)|]|].
    + intros cb x size' al' Ho Hcb. apply (sr_objs _ _ _ HR) in Ho as [Hcs Hx]. pose proof (proj1 (rel_cache _ _ _ _ _ _ HR) Hcb) as (_ & lb & Hlb & <- & _).
      rewrite <- (ex_layouts _ _ _ _ Hex) in Hl, Hlb. eapply (objects_apart sc S' G' ∅ ca cb); try done.
      * apply Hlive; [done|by right].
      * apply Hlive; [done|by left].
      * by intros [= -> ->].
    + apply HR'. intros cb x. rewrite elem_of_union, elem_of_singleton, (sr_objs _ _ _ HR). split.
      * intros [[= -> ->]|[Hcs Hx]]; (split; [done|]); (apply Hlive; [done|]); [by right|by left].
      * intros [Hcs [Hx|[-> ->]]%Hlive]; [by right|by left|done].
Qed.

Lemma sim_free S h G ca a : slab_rel S h G → heap_pre sc h (SlabCacheFree ca a) → wp (run_slab_call (SlabCacheFree ca a)) (call_post S h (SlabCacheFree ca a)) S.
Proof.
  intros HR Hpre. pose proof (proj1 (sr_objs _ _ _ HR _ _) Hpre) as [Hne Ha]. pose proof (sr_inv _ _ _ HR) as Hinv. apply wp_bind.
  eapply wp_mono; [by apply (kmem_cache_free_ok sc S G ∅ ca a Hinv Ha)|]. intros _ S' (G' & Hinv' & Hlive & HL & Hlist & _ & _ & Hmem & _). apply wp_ret. split.
  - eexists _, G'. split; [constructor|]. split; [done|by eapply list_ok; [..|apply HR]|by rewrite HL; apply HR|]. intros cb x. cbn.
    rewrite elem_of_difference, elem_of_singleton, (sr_objs _ _ _ HR), Hlive. split; [intros [[? ?] Hn]|intros (? & ? & Hn)]; (split_and!; try done).
    + intros [-> ->]. by apply Hn.
    + intros [= -> ->]. by apply Hn.
  - intros cb x w Ho Hn. destruct (rel_object _ _ _ _ _ _ HR Ho) as (Hcs & Hx & lb & Hlb & Hw). pose proof Ha as (sa & s & l & fl & i & _ & _ & Hl & _).
    apply (Hmem l); [done|]. destruct (layouts_inv _ _ _ _ Hinv _ _ Hlb) as (_ & _ & _ & Hlo). destruct (lo_buf _ Hlo) as [_ ?].
    destruct (buffers_apart sc S G ∅ cb ca lb l x a); try done; lia.
Qed.

Lemma sim_write S h G w v : slab_rel S h G → heap_pre sc h (SlabWrite w v) → wp (run_slab_call (SlabWrite w v)) (call_post S h (SlabWrite w v)) S.
Proof.
  intros HR (cb & x & Ho). destruct (rel_object _ _ _ _ _ _ HR Ho) as (Hne & Hx & l & Hl & Hw). apply wp_bind, wp_store_word, wp_ret. split.
  - exists h, G. split; [constructor|]. split; try apply HR. eapply inv_write; [apply HR|done|done|]. intros w' Hw'. apply lookup_insert_ne. by intros <-.
  - intros cb' x' w' _ Hn. cbn in *. by apply lookup_insert_ne, not_eq_sym.
Qed.

Lemma sim_collect S h G t i : slab_rel S h G → wp (run_slab_call (SlabCollect t i)) (call_post S h (SlabCollect t i)) S.
Proof.
  intros HR. apply wp_bind. eapply wp_mono; [apply (slab_collect_ok sc S G t i); apply HR|].
  intros _ S' (G' & (Hinv' & HL & Hlist & Hlive & _ & Hmem) & _). apply wp_ret. split.
  - exists h, G'. split; [constructor|]. split; [done|by eapply list_ok; [..|apply HR]|by rewrite HL; apply HR|]. intros cb x. rewrite (sr_objs _ _ _ HR).
    split; intros [Hne Hx]; (split; [done|]); by apply Hlive.
  - intros cb x w Ho _. destruct (rel_object _ _ _ _ _ _ HR Ho) as (Hcs & Hx & lb & Hlb & Hw). by apply (Hmem cb lb x).
Qed.

Lemma sim_call S h G k : slab_rel S h G → heap_pre sc h k → call_ready S k → wp (run_slab_call k) (call_post S h k) S.
Proof.
  intros HR. destruct k; [intros ? _; by apply sim_init with G|by apply sim_alloc with G|intros ? _; by apply sim_free with G|intros ? _; by apply sim_write with G|]. intros _ _. by apply sim_collect with G.
Qed.

Lemma slab_init_run m pr t p : pages_ok (pg_live p) → virtual_ok p →
  wp (slab_init sc) (λ _ S, slab_rel S (Heap ∅ ∅) ∅) (SlabState ∅ ∅ ∅ m pr [] t p).
Proof.
  intros Hp Hv. eapply wp_mono; [apply kmem_cache_init_run, slab_init_params|]. intros _ S (l & Hl & ->).
  destruct (boot_inv sc (SlabState ∅ ∅ ∅ m pr [] t p) l) as [Hinv Hno]; try done. split; [done| | |].
  - cbn. apply list.Forall_singleton. by rewrite lookup_insert_eq.
  - rewrite add_layouts, delete_insert_eq. cbn. unfold layouts. cbn. by rewrite fmap_empty, delete_empty, fmap_empty.
  - intros ca x. cbn. split; [by intros ?%not_elem_of_empty|]. intros [_ Hx]. by apply Hno in Hx.
Qed.

Lemma reach_rel S h : slab_reach S h → ∃ G, slab_rel S h G.
Proof.
  induction 1 as [m pr t p S Hp Hv Hrun|S h k r S' h' _ [G HR] Hpre Hready Hrun Hstep].
  - exists ∅. pose proof (wp_elim _ _ _ _ _ (slab_init_run m pr t p Hp Hv) Hrun) as HR. exact HR.
  - pose proof (wp_elim _ _ _ _ _ (sim_call S h G k HR Hpre Hready) Hrun) as ((h2 & G' & Hstep' & HR') & _).
    exists G'. by rewrite (heap_step_det _ _ _ _ _ Hstep Hstep').
Qed.
End System.
