(* ===== verification/SlabKalloc.v ===== *)
(** The general allocator: objects of caches of power-of-two sizes, and pages for
    what is larger. *)

From stdpp Require Import sorting.
From S2P Require Import Prelude Rbtree Slab SlabAlign SlabInv SlabRun SlabAlloc SlabFree SlabPages SlabGrow SlabCache SlabInit SlabSystem.

Open Scope N_scope.

(** ** The size class *)

(** The number of the cache for [size], without the check. *)
Definition size_class (size : N) : N := let q := N.shiftr (size - 1) KALLOC_FIRST_SHIFT in if q =? 0 then 0 else N.size q.

Lemma size_class_ok size : 0 < size → size ≤ 2 ^ (5 + size_class size) ∧ (0 < size_class size → 2 ^ (5 + size_class size) < 2 * size).
Proof.
  intros H0. unfold size_class. rewrite N.shiftr_div_pow2. change (2 ^ 5) with 32. pose proof (N.div_mod' (size - 1) 32) as Hdm. pose proof (N.mod_lt (size - 1) 32 ltac:(done)) as Hm.
  destruct (N.eqb_spec ((size - 1) / 32) 0) as [E|E]; [rewrite E in *; change (2 ^ (5 + 0)) with 32; lia|].
  set (q := (size - 1) / 32) in *. rewrite N.size_log2 by done. destruct (N.log2_spec q) as [Hlo Hhi]; [lia|].
  rewrite N.pow_add_r, N.pow_succ_r' in *. change (2 ^ 5) with 32. clearbody q.
  generalize dependent ((size - 1) mod 32). generalize dependent (2 ^ N.log2 q). intros. lia.
Qed.

Section Kalloc.
Context {P : Type} `{!PageSource P} (sc : N) (kalloc_caches : list N).
Implicit Types (S : slab_state P) (G : gmap N (list N)) (D : gset N).

Lemma kalloc_get_index_run size S Q : 0 < size → Q (size_class size) S → wp (kalloc_get_index size) Q S.
Proof. intros H0 HQ. unfold kalloc_get_index. apply wp_bind, wp_check; [by apply negb_true_iff, N.eqb_neq; lia|]. by apply wp_ret. Qed.

(** ** Initialisation *)

(** The [i]th cache has objects of [2 ^ (5 + i)] bytes. *)
Definition kalloc_ready S : Prop :=
  ∀ i ca, kalloc_caches !! i = Some ca → ca ≠ sc ∧ ∃ l, layouts S !! ca = Some l ∧ obj_size l = 2 ^ (5 + N.of_nat i).

Lemma kalloc_init_loop_ok cs : ∀ S h G e, slab_rel sc S h G → NoDup cs → Forall (λ ca, ca ≠ sc ∧ hp_caches h !! ca = None) cs →
  e + N.of_nat (length cs) ≤ 61 →
  wp (kalloc_init_loop cs (2 ^ e)) (λ _ S', ∃ h' G', slab_rel sc S' h' G' ∧ hp_objs h' = hp_objs h ∧ layouts S ⊆ layouts S' ∧
    ∀ i ca, cs !! i = Some ca → ca ≠ sc ∧ ∃ l, layouts S' !! ca = Some l ∧ obj_size l = 2 ^ (e + N.of_nat i)) S.
Proof.
  induction cs as [|ca cs IH]; intros S h G e HR Hnd Hall He; cbn [kalloc_init_loop]; [apply wp_ret; by exists h, G|].
  apply list.NoDup_cons in Hnd as [Hn Hnd]. apply list.Forall_cons in Hall as [[Hne Hno] Hall]. cbn [length] in He.
  assert (init_ok (2 ^ e) 0 None 0) as Hok. { split; try done. split; [lia|apply N.pow_lt_mono_r; lia]. }
  apply wp_bind. destruct (proj1 (wp_run _ _ _) (kmem_cache_init_run S ca (2 ^ e) 0 None 0 Hok)) as ([] & S1 & Hrun & l & Hl & ->).
  apply wp_run. exists tt, (add_cache S ca l). split; [done|].
  assert (wp (run_slab_call sc (SlabCacheInit ca (2 ^ e) 0 None 0)) (call_post sc S h (SlabCacheInit ca (2 ^ e) 0 None 0)) S) as Hsim by by apply (sim_init sc S h G).
  apply wp_bind_inv in Hsim. pose proof (wp_elim _ _ _ _ _ Hsim Hrun) as ((h1 & G1 & Hstep & HR1) & _). inversion Hstep; subst; clear Hstep.
  rewrite N.shiftl_mul_pow2, <- N.pow_add_r. eapply wp_mono; [apply (IH _ _ G1 (e + 1) HR1 Hnd); [|lia]|].
  - rewrite list.Forall_forall in *. intros cb Hcb. cbn. destruct (Hall cb Hcb). split; [done|]. rewrite lookup_insert_ne; [done|]. by intros ->.
  - intros _ S2 (h2 & G2 & HR2 & Hobjs & Hsub & Hready). exists h2, G2. rewrite add_layouts in Hsub.
    assert (layouts S !! ca = None) as HLca. { destruct (layouts S !! ca) as [k|] eqn:E; [|done]. assert (hp_caches h !! ca = Some (obj_size k, align k)) as E'; [|by rewrite E' in Hno].
      apply (rel_cache _ _ _ _ _ _ _ HR). split; [done|by exists k]. }
    split_and!; [done|done| |].
    + etrans; [by apply insert_subseteq|done].
    + intros [|i] cb Hi; cbn in Hi.
      * simplify_eq. split; [done|]. exists l. rewrite N.add_0_r. split; [|apply Hl]. eapply lookup_weaken; [|done]. apply lookup_insert_eq.
      * destruct (Hready i cb Hi) as (? & k & ? & ?). split; [done|]. exists k. split; [done|]. by replace (e + N.of_nat (Datatypes.S i)) with (e + 1 + N.of_nat i) by lia.
Qed.

Lemma kalloc_init_ok S h G : slab_rel sc S h G → NoDup kalloc_caches → Forall (λ ca, ca ≠ sc ∧ hp_caches h !! ca = None) kalloc_caches →
  (length kalloc_caches ≤ 56)%nat →
  wp (kalloc_init kalloc_caches) (λ _ S', ∃ h' G', slab_rel sc S' h' G' ∧ hp_objs h' = hp_objs h ∧ layouts S ⊆ layouts S' ∧ kalloc_ready S') S.
Proof.
  intros HR Hnd Hall Hlen. unfold kalloc_init. change (N.shiftl 1 KALLOC_FIRST_SHIFT) with (2 ^ 5).
  eapply wp_mono; [apply (kalloc_init_loop_ok kalloc_caches S h G 5); try done; lia|]. intros _ S' (h' & G' & ? & ? & ? & ?). by exists h', G'.
Qed.

(** ** Blocks *)

Definition size_cache (size : N) : option N := kalloc_caches !! N.to_nat (size_class size).

(** [r] is a block that was allocated for [size] bytes. *)
Definition kalloc_block S G (r size : N) : Prop :=
  match size_cache size with
  | Some ca => live S G ca r
  | None => pg_live (ss_pages S) !! r = Some (P2ROUND size PAGE_SIZE) ∧ ∀ sb t, ss_slabs S !! sb = Some t → region t ≠ r
  end.

Lemma round_size size : 0 < size → size ≤ 2 ^ 63 → size ≤ P2ROUND size PAGE_SIZE ∧ (size ≤ PAGE_SIZE → P2ROUND size PAGE_SIZE = PAGE_SIZE) ∧
  (PAGE_SIZE < size → P2ROUND size PAGE_SIZE ≠ PAGE_SIZE).
Proof.
  intros H0 H63. change PAGE_SIZE with (2 ^ 12). destruct (P2ROUND_spec size 12) as [[H1 H2] [q Hq]%N.Div0.mod_divides]; [done|done|change (2 ^ 64) with (2 ^ 63 + 2 ^ 63); change (2 ^ 12) with 4096; lia|].
  rewrite Hq in *. change (2 ^ 12) with 4096 in *. lia.
Qed.

(** Pages are handed out, or taken back, that no slab is made of. *)
Lemma inv_grab S G D p r n : SlabInv sc S G D → fits (pg_live (ss_pages S)) r n → 0 < n → pg_live p = <[r := n]> (pg_live (ss_pages S)) →
  (n ≠ PAGE_SIZE → kernel_virtual_start ≤ r ∧ r + n ≤ kernel_virtual_end) →
  SlabInv sc (set_ss_pages p S) G D ∧ ∀ sb t, ss_slabs S !! sb = Some t → region t ≠ r.
Proof.
  intros Hinv Hfit Hn Hp Hv. pose proof (fits_fresh _ _ _ (si_pages _ _ _ _ Hinv) Hfit Hn) as Hfresh.
  assert (∀ sb t, ss_slabs S !! sb = Some t → region t ≠ r) as Hne.
  { intros sb t Ht E. destruct (inv_slab _ _ _ _ Hinv _ _ Ht) as (? & ? & ? & _ & _ & _ & _ & _ & Hok). pose proof (so_region _ _ _ _ _ _ _ _ _ Hok). congruence. }
  split; [|done]. apply (inv_outside sc S); try done; cbn; rewrite ?Hp.
  - apply pages_ok_add; [apply Hinv|done|done].
  - intros b k. rewrite Hp. intros [[<- <-]|[_ Hb]]%lookup_insert_Some; [done|]. by apply (si_virtual _ _ _ _ Hinv).
  - intros sb t l Ht _. split_and!; try done. by apply lookup_insert_ne, not_eq_sym, (Hne sb).
Qed.

Lemma inv_release S G D p r : SlabInv sc S G D → pg_live p = delete r (pg_live (ss_pages S)) → (∀ sb t, ss_slabs S !! sb = Some t → region t ≠ r) →
  SlabInv sc (set_ss_pages p S) G D.
Proof.
  intros Hinv Hp Hne. apply (inv_outside sc S); try done; cbn; rewrite ?Hp.
  - apply pages_ok_delete, Hinv.
  - intros b k. rewrite Hp. intros [_ Hb]%lookup_delete_Some. by apply (si_virtual _ _ _ _ Hinv).
  - intros sb t l Ht _. split_and!; try done. by apply lookup_delete_ne, not_eq_sym, (Hne sb).
Qed.

(** ** Allocation *)

(** [r] is [size] bytes that no object uses. *)
Definition kalloc_post S G D (size r : N) S' : Prop :=
  ∃ G', SlabInv sc S' G' D ∧ layouts S' = layouts S ∧ kmem_cache_list S' = kmem_cache_list S ∧ keeps S G S' ∧
    (r = 0 ∧ (∀ cb x, live S' G' cb x ↔ live S G cb x) ∨
     r ≠ 0 ∧ r mod 8 = 0 ∧ kalloc_block S' G' r size ∧
     (∀ cb l x, live S G cb x → layouts S !! cb = Some l → r + size ≤ x ∨ x + obj_size l ≤ r) ∧
     (∀ cb x, cb ≠ sc → live S' G' cb x ↔ live S G cb x ∨ size_cache size = Some cb ∧ x = r)).

Lemma kalloc_cache S G D size ca r S' : SlabInv sc S G D → kalloc_ready S → 0 < size → size_cache size = Some ca →
  alloc_post sc S G D ca r S' → kalloc_post S G D size r S'.
Proof.
  intros Hinv Hready H0 Hca (G' & Hinv' & Hex & Hkeep & Hres). exists G'. split_and!; [done|apply Hex|apply Hex|done|].
  unfold size_cache in Hca. destruct (Hready _ _ Hca) as (Hne & l & HL & Hsize). rewrite N2Nat.id in Hsize. destruct (size_class_ok size H0) as [Hle _].
  destruct Hres as [(-> & _ & Hsame)|[Hnew Hlive Hdescr (Hr0 & Hr8 & _) _]]; [by left|right]. unfold kalloc_block, size_cache. rewrite Hca.
  assert (live S' G' ca r) as Hr by (apply Hlive; [done|by right]). split_and!; try done.
  - intros cb k x Hx HLk. assert (live S' G' cb x) as Hx'. { destruct (decide (cb = sc)) as [->|]; [by apply Hdescr|apply Hlive; [done|by left]]. }
    rewrite <- (ex_layouts _ _ _ _ Hex) in HL, HLk. destruct (objects_apart sc S' G' D ca cb l k r x) as [?|?]; try done; [intros [= -> ->]; done|left; lia|by right].
  - intros cb x Hcb. rewrite Hlive by done. split; intros [?|[E ->]]; [by left|right; by rewrite E|by left|right; by simplify_eq].
Qed.

Lemma kalloc_pages S G D size p r : SlabInv sc S G D → 0 < size → size ≤ 2 ^ 63 → size_cache size = None →
  fits (pg_live (ss_pages S)) r (P2ROUND size PAGE_SIZE) → pg_live p = <[r := P2ROUND size PAGE_SIZE]> (pg_live (ss_pages S)) →
  (P2ROUND size PAGE_SIZE ≠ PAGE_SIZE → kernel_virtual_start ≤ r ∧ r + P2ROUND size PAGE_SIZE ≤ kernel_virtual_end) →
  kalloc_post S G D size r (set_ss_pages p S).
Proof.
  intros Hinv H0 H63 Hca Hfit Hp Hv. destruct (round_size size H0 H63) as (Hle & _). destruct (inv_grab S G D p r _ Hinv Hfit ltac:(lia) Hp Hv) as [Hinv' Hne].
  exists G. split_and!; try done. right. pose proof Hfit as (Hr0 & Hm & _ & Hd). split_and!; try done.
  - by apply (mod_mod0 r PAGE_SIZE 8).
  - unfold kalloc_block. rewrite Hca. split; [cbn; rewrite Hp; apply lookup_insert_eq|done].
  - intros cb l x Hx HL. destruct (object_in_pages _ _ _ _ _ _ _ Hinv HL Hx) as (b & n & Hb & ? & ?). destruct (Hd b n Hb); lia.
  - intros cb x _. rewrite Hca. split; [by left|]. intros [?|[? _]]; done.
Qed.

(** The thread does not have to wait for ever. *)
Definition kalloc_pages_ready S (size : N) : bool :=
  match size_cache size with
  | Some ca => ready sc S ca
  | None => negb (size <=? PAGE_SIZE) || bool_decide (is_Some (page_grab (ss_pages S)))
  end.

Lemma kalloc_ok S G D size : SlabInv sc S G D → kalloc_ready S → kalloc_pages_ready S size = true → 0 < size → size ≤ 2 ^ 63 →
  wp (kalloc sc kalloc_caches size) (kalloc_post S G D size) S.
Proof.
  intros Hinv Hready Hwait H0 H63. unfold kalloc. destruct (N.eqb_spec size 0) as [|_]; [lia|]. apply wp_bind, kalloc_get_index_run; [done|].
  unfold kalloc_pages_ready, size_cache in Hwait. destruct (kalloc_caches !! N.to_nat (size_class size)) as [ca|] eqn:Hca.
  - eapply wp_mono; [by apply (kmem_cache_alloc_ok sc ca S G D Hinv)|]. intros r S' Hpost. by apply (kalloc_cache S G D size ca).
  - destruct (round_size size H0 H63) as (Hle & Hsmall & Hbig). destruct (N.leb_spec size PAGE_SIZE) as [Hp|Hp].
    + unfold kmem_pagealloc_physmem. apply wp_bind, wp_check; [done|]. apply wp_bind, wp_get, wp_bind.
      destruct (page_grab (ss_pages S)) as [[a p]|] eqn:Hg; [apply wp_ret|by apply bool_decide_eq_true in Hwait as [? ?]].
      apply page_grab_law in Hg as [Hf Hg]. apply wp_bind, wp_modify, wp_ret. rewrite <- (Hsmall Hp) in Hf, Hg. apply kalloc_pages; try done. by rewrite Hsmall.
    + unfold kmem_pagealloc_virtual. apply wp_bind, wp_check; [by apply N.ltb_lt|]. apply wp_bind, wp_get. change (0 <=? PAGE_SIZE) with true. cbv iota.
      destruct (kmem_alloc_wired (ss_pages S) (P2ROUND size PAGE_SIZE)) as [[a|] p] eqn:Hg; apply alloc_wired_law in Hg; apply wp_bind, wp_modify, wp_ret.
      * destruct Hg as (Hf & H1 & H2 & Hg). by apply kalloc_pages.
      * exists G. split_and!; try done; [|by left]. apply (inv_outside sc S); try done; cbn; rewrite ?Hg; [apply Hinv| |done].
        intros b k. rewrite Hg. apply (si_virtual _ _ _ _ Hinv).
Qed.

(** ** Release *)

Lemma kfree_ok S G D size r : SlabInv sc S G D → kalloc_ready S → 0 < size → size ≤ 2 ^ 63 → r ≠ 0 → kalloc_block S G r size →
  wp (kfree kalloc_caches r size) (λ _ S', ∃ G', SlabInv sc S' G' D ∧ layouts S' = layouts S ∧ kmem_cache_list S' = kmem_cache_list S ∧
    ¬ kalloc_block S' G' r size ∧ ∀ cb x, live S' G' cb x ↔ live S G cb x ∧ ¬ (size_cache size = Some cb ∧ x = r)) S.
Proof.
  intros Hinv Hready H0 H63 Hr0 Hblock. unfold kfree. destruct (N.eqb_spec r 0) as [|_]; [done|]. destruct (N.eqb_spec size 0) as [|_]; [lia|]. cbn [orb].
  apply wp_bind, kalloc_get_index_run; [done|]. unfold kalloc_block, size_cache in *. destruct (kalloc_caches !! N.to_nat (size_class size)) as [ca|] eqn:Hca.
  - destruct (Hready _ _ Hca) as (Hne & _). eapply wp_mono; [by apply (kmem_cache_free_ok sc S G D ca r)|].
    intros _ S' (G' & Hinv' & Hlive & HL & Hlist & _). exists G'. split_and!; try done.
    + rewrite Hlive. intros [_ Hn]. by apply Hn.
    + intros cb x. rewrite Hlive. split; intros [Hx Hn]; (split; [done|]); intros [E ->]; apply Hn; [by simplify_eq|by rewrite E].
  - destruct Hblock as [Hp Hslab]. destruct (round_size size H0 H63) as (Hle & Hsmall & Hbig). destruct (pg_range _ (si_pages _ _ _ _ Hinv) _ _ Hp) as (_ & Hm & Hlt).
    assert (∀ p, pg_live p = delete r (pg_live (ss_pages S)) → ∃ G', SlabInv sc (set_ss_pages p S) G' D ∧ layouts (set_ss_pages p S) = layouts S ∧
      kmem_cache_list (set_ss_pages p S) = kmem_cache_list S ∧
      ¬ (pg_live p !! r = Some (P2ROUND size PAGE_SIZE) ∧ ∀ sb t, ss_slabs S !! sb = Some t → region t ≠ r) ∧
      ∀ cb x, live (set_ss_pages p S) G' cb x ↔ live S G cb x ∧ ¬ (None = Some cb ∧ x = r)) as Hdone.
    { intros p Hd. exists G. split_and!; try done; [by eapply inv_release|by rewrite Hd, lookup_delete_eq; intros [? _]|]. intros cb x. split; [|by intros [? _]]. intros ?. split; [done|]. by intros [? _]. }
    destruct (N.leb_spec size PAGE_SIZE) as [Hsz|Hsz].
    + rewrite (Hsmall Hsz) in Hp. unfold kmem_pagefree_physmem. apply wp_bind, wp_check; [done|]. apply wp_bind. unfold page_exists.
      apply wp_bind, wp_get, wp_ret, wp_bind, wp_check; [|apply wp_modify, Hdone; by apply page_release_law].
      apply bool_decide_eq_true. rewrite <- (N.add_0_r r), page_of_offset by (done || lia). by rewrite Hp.
    + unfold kmem_pagefree_virtual. destruct (si_virtual _ _ _ _ Hinv _ _ Hp (Hbig Hsz)). apply wp_bind, wp_check.
      { apply negb_true_iff, orb_false_iff. split; apply N.ltb_ge; lia. }
      apply wp_bind, wp_check; [by apply N.ltb_lt|]. apply wp_modify, Hdone. by apply kmem_free_law.
Qed.
End Kalloc.
