(* ===== verification/SlabClaims.v ===== *)
(** What the slab allocator promises: the theorems about kern/slab.c, and memory
    they are applied to. *)

From stdpp Require Import sorting.
From S2P Require Import Prelude Rbtree Slab SlabAlign SlabInv SlabRun SlabAlloc SlabFree SlabPages SlabGrow SlabCache SlabCollect SlabInit SlabSystem SlabKalloc.

Open Scope N_scope.

(** ** A source of pages *)

(** Addresses are handed out one after the other. *)
Record page_pool := PagePool {
  pp_next : N;
  pp_live : gmap N N;
}.

Definition pool_fits (p : page_pool) (size : N) : bool :=
  let a := pp_next p in
  negb (a =? 0) && (a mod PAGE_SIZE =? 0) && (a + size <? 2 ^ 64) && (2 ^ 40 <=? a) && (a + size <=? 2 ^ 47) &&
  bool_decide (map_Forall (λ b s, a + size ≤ b ∨ b + s ≤ a) (pp_live p)).

Definition pool_take (p : page_pool) (size : N) : page_pool := PagePool (pp_next p + size) (<[pp_next p := size]> (pp_live p)).
Definition pool_drop (p : page_pool) (a : N) : page_pool := PagePool (pp_next p) (delete a (pp_live p)).
Definition pool_alloc (p : page_pool) (size : N) : option N * page_pool :=
  if pool_fits p size then (Some (pp_next p), pool_take p size) else (None, p).

Lemma pool_fits_ok p size : pool_fits p size = true → fits (pp_live p) (pp_next p) size ∧ 2 ^ 40 ≤ pp_next p ∧ pp_next p + size ≤ 2 ^ 47.
Proof.
  unfold pool_fits. rewrite !andb_true_iff, negb_true_iff, N.eqb_neq, N.eqb_eq, N.ltb_lt, !N.leb_le, bool_decide_eq_true.
  intros (((((H1 & H2) & H3) & H4) & H5) & H6). split_and!; try done.
Qed.

#[export] Program Instance pool_source : PageSource page_pool := {|
  kernel_virtual_start := 2 ^ 40;
  kernel_virtual_end := 2 ^ 47;
  page_grab p := if pool_fits p PAGE_SIZE then Some (pp_next p, pool_take p PAGE_SIZE) else None;
  page_release := pool_drop;
  kmem_alloc_wired := pool_alloc;
  kmem_alloc_aligned := pool_alloc;
  kmem_free p a _ := pool_drop p a;
  pg_live := pp_live;
|}.
Next Obligation. intros p a p'. cbn. destruct (pool_fits p PAGE_SIZE) eqn:E; [|done]. intros [= <- <-]. by apply pool_fits_ok in E as (? & _). Qed.
Next Obligation. done. Qed.
Next Obligation.
  intros p size r p'. unfold pool_alloc. destruct (pool_fits p size) eqn:E; intros [= <- <-]; [|done]. by apply pool_fits_ok in E as (? & ? & ?).
Qed.
Next Obligation.
  intros p size r p'. unfold pool_alloc. destruct (pool_fits p size) eqn:E; intros [= <- <-]; [|done]. by apply pool_fits_ok in E as (? & ? & ?).
Qed.
Next Obligation. done. Qed.

Definition demo_pool : page_pool := PagePool (2 ^ 40) ∅.
Lemma demo_pool_ok : pages_ok (pg_live demo_pool) ∧ virtual_ok demo_pool.
Proof. split; [split; intros ? ? ?; done|]. intros a n. done. Qed.

(** The caches: descriptors at 8, and objects of two pages, whose slabs have
    descriptors of their own, at 16. *)
Definition boot : slab_state page_pool := SlabState ∅ ∅ ∅ ∅ ∅ [] 0 demo_pool.
Definition run_state {A} (m : M (slab_state page_pool) A) (S : slab_state page_pool) : slab_state page_pool :=
  match m S with Some (_, S') => S' | None => S end.
Definition demo_init : slab_call := SlabCacheInit 16 8192 0 None 0.
Definition demo_slab0 : slab_state page_pool := run_state (slab_init 8) boot.
Definition demo_slab1 : slab_state page_pool := run_state (run_slab_call 8 demo_init) demo_slab0.
Definition demo_slab2 : slab_state page_pool := run_state (run_slab_call 8 (SlabCacheAlloc 16)) demo_slab1.
Definition demo_heap1 : heap := Heap {[16 := (8192, 8)]} ∅.
Definition demo_heap2 : heap := Heap {[16 := (8192, 8)]} {[(16, 2 ^ 40)]}.

Lemma demo_params : init_ok 8192 0 None 0.
Proof. split; try done. Qed.

Lemma demo_reach0 : slab_reach 8 demo_slab0 (Heap ∅ ∅).
Proof. destruct demo_pool_ok. by apply (reach_init 8 ∅ ∅ 0 demo_pool). Qed.
Lemma demo_reach1 : slab_reach 8 demo_slab1 demo_heap1.
Proof.
  eapply (reach_call _ _ _ demo_init 0); [apply demo_reach0|split_and!; [done|done|apply demo_params]|done|vm_compute; reflexivity|].
  apply (HeapInit (Heap ∅ ∅) 16 8192 0).
Qed.
Lemma demo_reach2 : slab_reach 8 demo_slab2 demo_heap2.
Proof.
  eapply (reach_call _ _ _ (SlabCacheAlloc 16) (2 ^ 40)); [apply demo_reach1|by eexists|vm_compute; reflexivity|vm_compute; reflexivity|].
  replace demo_heap2 with (Heap (hp_caches demo_heap1) ({[(16, 2 ^ 40)]} ∪ hp_objs demo_heap1)) by (unfold demo_heap1, demo_heap2; cbn; by rewrite union_empty_r_L).
  eapply (HeapAlloc _ 16 8192 8); try done.
Qed.

(** ** The allocator is a heap *)

Section Heap.
Context {P : Type} `{!PageSource P} (sc : N).


(** C19.  Liveness: an allocation from a cache whose slabs are single pages, like
    those of the descriptors, succeeds, once it does not wait for a page. *)
Theorem kmem_cache_alloc_succeeds (S : slab_state P) h ca c d : slab_reach sc S h →
  ss_caches S !! ca = Some c → slab_size (kc_layout c) = PAGE_SIZE → ss_caches S !! sc = Some d → slab_size (kc_layout d) = PAGE_SIZE →
  ready sc S ca = true → ∃ r S', kmem_cache_alloc sc ca S = Some (r, S') ∧ r ≠ 0.
Proof.
  intros Hreach Hc Hs Hd Hsd Hready. destruct (reach_rel sc S h Hreach) as [G HR].
  destruct (proj1 (wp_run _ _ _) (kmem_cache_alloc_ok sc ca S G ∅ (sr_inv _ _ _ _ HR) Hready)) as (r & S' & Hrun & G' & _ & _ & _ & Hres).
  exists r, S'. split; [done|]. destruct Hres as [(_ & (cb & l & Hcb & Hl & Hne) & _)|Hal]; [|by destruct (al_align _ _ _ _ _ _ _ Hal)].
  destruct Hne. unfold layouts in Hl. rewrite lookup_fmap in Hl. destruct Hcb as [->| ->]; [rewrite Hc in Hl|rewrite Hd in Hl]; cbn in Hl; by simplify_eq.
Qed.

(** C20.  slab_collect keeps every object.  When it is due, no cache but that of
    the descriptors has a slab without objects left, and the pages of the slabs
    that were without objects are given back. *)
Theorem slab_collect_correct (S : slab_state P) h tick interval : slab_reach sc S h →
  ∃ S', slab_collect sc tick interval S = Some (tt, S') ∧ slab_reach sc S' h ∧
    (∀ ca, ca ≠ sc → cache_objs S' ca = cache_objs S ca) ∧
    (kmem_gc_last_tick S + interval < tick →
      (∀ ca c, ca ∈ kmem_cache_list S → ca ≠ sc → ss_caches S' !! ca = Some c → free_slabs c = []) ∧
      (∀ ca c sa s, ca ∈ kmem_cache_list S → ss_caches S !! ca = Some c → sa ∈ free_slabs c → ss_slabs S !! sa = Some s →
         pg_live (ss_pages S') !! page_of (slab_addr s) = None)).
Proof.
  intros Hreach. destruct (reach_rel sc S h Hreach) as [G HR].
  destruct (proj1 (wp_run _ _ _) (slab_collect_ok sc S G tick interval (sr_inv _ _ _ _ HR) (sr_list _ _ _ _ HR)))
    as ([] & S' & Hrun & G' & (Hinv' & _ & _ & Hlive & _) & Hdue).
  exists S'. split_and!; try done.
  - eapply (reach_call _ _ _ (SlabCollect tick interval) 0); [done|done|done| |constructor]. cbn. unfold mbind, M_bind. by rewrite Hrun.
  - intros ca Hne. apply set_eq. intros x. by rewrite (cache_objs_ok sc S' G' ∅), (cache_objs_ok sc S G ∅), Hlive by (done || apply HR).
Qed.

(** C21.  The slab of an object is found, by each of the three ways: from the end
    of its page, from the page, or in the tree of the cache.  The object is one of
    the buffers of that slab. *)
Theorem slab_of_buf_correct (S : slab_state P) h ca a c : slab_reach sc S h → (ca, a) ∈ hp_objs h → ss_caches S !! ca = Some c →
  ∃ sa s i, slab_of_buf ca a S = Some (sa, S) ∧ ss_slabs S !! sa = Some s ∧ slab_cache s = ca ∧
    i < bufs_per_slab (kc_layout c) ∧ a = slab_addr s + i * buf_size (kc_layout c) ∧
    a + buf_size (kc_layout c) ≤ page_of (slab_addr s) + slab_size (kc_layout c).
Proof.
  intros Hreach Ha Hc. destruct (reach_rel sc S h Hreach) as [G HR]. apply (sr_objs _ _ _ _ HR) in Ha as [_ (sa & s & l & fl & i & Hs & Hsc & HL & HG & Hi & Hn & ->)].
  assert (l = kc_layout c) as -> by (unfold layouts in HL; rewrite lookup_fmap, Hc in HL; cbn in HL; by simplify_eq). pose proof (sr_inv _ _ _ _ HR) as Hinv.
  destruct (proj1 (wp_run _ _ _) (slab_of_buf_ok sc S G ∅ ca sa i c s fl Hinv Hc Hs Hsc HG Hi Hn)) as (r & S' & Hrun & -> & ->).
  destruct (give_facts sc S G ∅ ca sa i c s fl Hinv Hc Hs Hsc HG Hi Hn) as (Hlo & _ & Hok & _). destruct (slot_bounds _ _ _ _ _ _ _ _ _ Hlo Hok i Hi) as [_ Hb].
  exists sa, s, i. split_and!; try done. unfold region in Hb. destruct (external (kc_layout c)); lia.
Qed.

(** C22.  kmem_cache_init returns for any size and power-of-two alignment below
    [2 ^ 62], without debugging and, where slabs must be in physical memory, if an
    object and a descriptor fit in a page.  Buffers hold an object, without wasting
    an alignment unit, and stay aligned.  A slab has at least one, with the descriptor behind them unless it
    is elsewhere, at any colour, and has at most a page more than needed for one.
    There is exactly one way to find the slab of a buffer. *)
Theorem kmem_cache_init_layout (S : slab_state P) ca size al ct cflags : init_ok size al ct cflags →
  ∃ l, kmem_cache_init ca size al ct cflags S = Some (tt, add_cache S ca l) ∧
    obj_size l = size ∧ align l = N.max al KMEM_ALIGN_MIN ∧ size ≤ buf_size l < size + align l ∧ buf_size l mod align l = 0 ∧
    bufctl_dist l + sizeof_kmem_bufctl = buf_size l ∧ 0 < bufs_per_slab l ∧
    color_max l + bufs_per_slab l * buf_size l + (if has (flags l) KMEM_CF_SLAB_EXTERNAL then 0 else sizeof_kmem_slab) ≤ slab_size l ∧
    color_max l < PAGE_SIZE ∧ slab_size l mod PAGE_SIZE = 0 ∧ slab_size l < buf_size l + sizeof_kmem_slab + PAGE_SIZE ∧
    length (filter (λ f, has (flags l) f = true) [KMEM_CF_DIRECT; KMEM_CF_USE_PAGE; KMEM_CF_USE_TREE]) = 1%nat.
Proof.
  intros Hok. destruct (proj1 (wp_run _ _ _) (kmem_cache_init_run S ca size al ct cflags Hok)) as ([] & S' & Hrun & l & [Hl Hsize Hal _ Hbuf Hslab _] & ->).
  destruct (lo_buf _ Hl) as [Hb8 Hbo]. pose proof (lo_dist _ Hl). destruct (lo_align _ Hl) as (_ & _ & Hba & _). destruct (lo_slab _ Hl) as [Hsm _].
  exists l. rewrite Hal in *. split_and!; try done; try lia; [by apply (lo_bufs _ Hl)|apply (lo_fit _ Hl)|apply (lo_color _ Hl)|].
  rewrite !filter_cons, filter_nil, (lo_direct _ Hl), (lo_page _ Hl), (lo_tree _ Hl).
  by destruct (external l), (slab_size l =? PAGE_SIZE).
Qed.

(** C23.  The general allocator: kalloc_init returns, and then an allocation of any
    size up to [2 ^ 63] returns, unless it waits for memory for ever.  A block
    overlaps no object.  It can be given back with its size, and then the objects are those
    there were. *)
Theorem kalloc_kfree_roundtrip (S : slab_state P) h kalloc_caches : slab_reach sc S h → NoDup kalloc_caches →
  Forall (λ ca, ca ≠ sc ∧ hp_caches h !! ca = None) kalloc_caches → (length kalloc_caches ≤ 56)%nat →
  ∃ S1, kalloc_init kalloc_caches S = Some (tt, S1) ∧
    ∀ size, 0 < size → size ≤ 2 ^ 63 → kalloc_pages_ready sc kalloc_caches S1 size = true →
    ∃ r S2, kalloc sc kalloc_caches size S1 = Some (r, S2) ∧
      (r = 0 ∨ r mod 8 = 0 ∧
       (∀ cb x osize al, (cb, x) ∈ hp_objs h → hp_caches h !! cb = Some (osize, al) → r + size ≤ x ∨ x + osize ≤ r) ∧
       ∃ S3, kfree kalloc_caches r size S2 = Some (tt, S3) ∧ ∀ ca, ca ≠ sc → cache_objs S3 ca = cache_objs S ca).
Proof.
  intros Hreach Hnd Hall Hlen. destruct (reach_rel sc S h Hreach) as [G HR].
  destruct (proj1 (wp_run _ _ _) (kalloc_init_ok sc kalloc_caches S h G HR Hnd Hall Hlen)) as ([] & S1 & Hrun1 & h1 & G1 & HR1 & Hobjs & Hsub & Hready).
  exists S1. split; [done|]. intros size H0 H63 Hwait. pose proof (sr_inv _ _ _ _ HR1) as Hinv1.
  assert (∀ cb x, cb ≠ sc → live S1 G1 cb x ↔ live S G cb x) as Hlive1.
  { intros cb x Hne. pose proof (sr_objs _ _ _ _ HR1 cb x) as E. rewrite Hobjs, (sr_objs _ _ _ _ HR) in E. tauto. }
  destruct (proj1 (wp_run _ _ _) (kalloc_ok sc kalloc_caches S1 G1 ∅ size Hinv1 Hready Hwait H0 H63)) as (r & S2 & Hrun2 & G2 & Hinv2 & HL2 & _ & _ & Hres).
  exists r, S2. split; [done|]. destruct Hres as [[-> _]|(Hr0 & Hr8 & Hblock & Hapart & Hlive2)]; [by left|right]. split_and!; [done| |].
  - intros cb x osize al Ho Hcb. apply (rel_cache _ _ _ _ _ _ _ HR) in Hcb as (Hne & l & Hl & <- & _). apply (sr_objs _ _ _ _ HR) in Ho as [_ Hx].
    apply (Hapart cb l x); [by apply Hlive1|]. by eapply lookup_weaken.
  - assert (kalloc_ready sc kalloc_caches S2) as Hready2. { intros i ca Hi. rewrite HL2. by apply Hready. }
    destruct (proj1 (wp_run _ _ _) (kfree_ok sc kalloc_caches S2 G2 ∅ size r Hinv2 Hready2 H0 H63 Hr0 Hblock)) as ([] & S3 & Hrun3 & G3 & Hinv3 & _ & _ & _ & Hlive3).
    exists S3. split; [done|]. intros ca Hne. apply set_eq. intros x. rewrite (cache_objs_ok sc S3 G3 ∅), (cache_objs_ok sc S G ∅), Hlive3, Hlive2, <- Hlive1 by (done || apply HR).
    split; [tauto|]. intros Hx. split; [by left|]. intros [E ->]. destruct (Hready _ _ E) as (_ & l & Hl & Hsize).
    pose proof (N.pow_nonzero 2 (5 + N.of_nat (N.to_nat (size_class size)))). destruct (Hapart ca l r Hx Hl); lia.
Qed.
End Heap.

(** ** On the demonstration memory *)


Definition demo_small : slab_call := SlabCacheInit 24 40 0 None 0.
Definition demo_slab3 : slab_state page_pool := run_state (run_slab_call 8 demo_small) demo_slab0.
Definition demo_layout (S : slab_state page_pool) (ca : N) : kmem_cache := default (fresh_cache (KLayout 0 0 0 0 None 0 0 0 0)) (ss_caches S !! ca).

Lemma demo_reach3 : slab_reach 8 demo_slab3 (Heap {[24 := (40, 8)]} ∅).
Proof.
  eapply (reach_call _ _ _ demo_small 0); [apply demo_reach0|split_and!; [done|done|by split]|done|vm_compute; reflexivity|].
  apply (HeapInit (Heap ∅ ∅) 24 40 0).
Qed.

Lemma kmem_cache_alloc_succeeds_witness : ∃ r S', kmem_cache_alloc 8 24 demo_slab3 = Some (r, S') ∧ r ≠ 0.
Proof.
  apply (kmem_cache_alloc_succeeds 8 demo_slab3 (Heap {[24 := (40, 8)]} ∅) 24 (demo_layout demo_slab3 24) (demo_layout demo_slab3 8)).
  - apply demo_reach3.
  - vm_compute. reflexivity.
  - vm_compute. reflexivity.
  - vm_compute. reflexivity.
  - vm_compute. reflexivity.
  - vm_compute. reflexivity.
Defined.

(** The object is freed, and its slab goes. *)
Definition demo_slab4 : slab_state page_pool := run_state (run_slab_call 8 (SlabCacheFree 16 (2 ^ 40))) demo_slab2.

Lemma demo_object : (16, 2 ^ 40) ∈ hp_objs demo_heap2.
Proof. unfold demo_heap2. cbn [hp_objs]. by apply elem_of_singleton. Qed.

Lemma demo_reach4 : slab_reach 8 demo_slab4 demo_heap1.
Proof.
  eapply (reach_call _ _ _ (SlabCacheFree 16 (2 ^ 40)) 0); [apply demo_reach2|apply demo_object|done|vm_compute; reflexivity|].
  replace demo_heap1 with (Heap (hp_caches demo_heap2) (hp_objs demo_heap2 ∖ {[(16, 2 ^ 40)]})) by (unfold demo_heap1, demo_heap2; cbn; by rewrite difference_diag_L).
  constructor.
Qed.

Lemma slab_collect_correct_witness :
  (∃ S', slab_collect 8 100 10 demo_slab4 = Some (tt, S') ∧ slab_reach 8 S' demo_heap1 ∧
    (∀ ca, ca ≠ 8 → cache_objs S' ca = cache_objs demo_slab4 ca) ∧
    (kmem_gc_last_tick demo_slab4 + 10 < 100 →
      (∀ ca c, ca ∈ kmem_cache_list demo_slab4 → ca ≠ 8 → ss_caches S' !! ca = Some c → free_slabs c = []) ∧
      (∀ ca c sa s, ca ∈ kmem_cache_list demo_slab4 → ss_caches demo_slab4 !! ca = Some c → sa ∈ free_slabs c → ss_slabs demo_slab4 !! sa = Some s →
         pg_live (ss_pages S') !! page_of (slab_addr s) = None))) ∧
  length (free_slabs (demo_layout demo_slab4 16)) = 1%nat.
Proof. split; [apply (slab_collect_correct 8 demo_slab4 demo_heap1 100 10 demo_reach4)|vm_compute; reflexivity]. Defined.

Lemma slab_of_buf_correct_witness : ∃ sa s i, slab_of_buf 16 (2 ^ 40) demo_slab2 = Some (sa, demo_slab2) ∧ ss_slabs demo_slab2 !! sa = Some s ∧ slab_cache s = 16 ∧
  i < bufs_per_slab (kc_layout (demo_layout demo_slab2 16)) ∧ 2 ^ 40 = slab_addr s + i * buf_size (kc_layout (demo_layout demo_slab2 16)) ∧
  2 ^ 40 + buf_size (kc_layout (demo_layout demo_slab2 16)) ≤ page_of (slab_addr s) + slab_size (kc_layout (demo_layout demo_slab2 16)).
Proof.
  apply (slab_of_buf_correct 8 demo_slab2 demo_heap2 16 (2 ^ 40) (demo_layout demo_slab2 16)); [apply demo_reach2|apply demo_object|].
  vm_compute. reflexivity.
Defined.

Lemma kmem_cache_init_layout_witness : init_ok 8192 0 None 0 ∧
  ∃ l, kmem_cache_init 16 8192 0 None 0 demo_slab0 = Some (tt, add_cache demo_slab0 16 l) ∧ slab_size l < buf_size l + sizeof_kmem_slab + PAGE_SIZE.
Proof.
  split; [apply demo_params|]. destruct (kmem_cache_init_layout demo_slab0 16 8192 0 None 0 demo_params) as (l & Hrun & _ & _ & _ & _ & _ & _ & _ & _ & _ & Hs & _).
  exists l. split; [exact Hrun|exact Hs].
Defined.

(** Thirteen caches, from 32 bytes up. *)
Definition demo_kalloc_caches : list N := (λ i, 1000 + 8 * N.of_nat i) <$> seq 0 KALLOC_NR_CACHES.

Lemma kalloc_kfree_roundtrip_witness :
  ∃ S1, kalloc_init demo_kalloc_caches demo_slab0 = Some (tt, S1) ∧ kalloc_pages_ready 8 demo_kalloc_caches S1 300000 = true ∧
    ∃ r S2, kalloc 8 demo_kalloc_caches 300000 S1 = Some (r, S2).
Proof.
  destruct (kalloc_kfree_roundtrip 8 demo_slab0 (Heap ∅ ∅) demo_kalloc_caches demo_reach0) as (S1 & Hrun & Hall).
  - vm_compute. repeat constructor; set_solver.
  - vm_compute. repeat constructor; done.
  - vm_compute. lia.
  - exists S1. split; [exact Hrun|]. assert (kalloc_pages_ready 8 demo_kalloc_caches S1 300000 = true) as Hr by (vm_compute; reflexivity).
    split; [exact Hr|]. destruct (Hall 300000 eq_refl ltac:(done) Hr) as (r & S2 & H2 & _). exists r, S2. exact H2.
Defined.
