(* ===== verification/SlabRdxtree.v ===== *)
(** A cache of the slab allocator is what the radix tree and the IPC objects are
    allocated from: it meets the interface [KmemCache].  The nodes of a radix tree
    on it are objects of the cache. *)

From S2P Require Import Prelude Kmem Rbtree Rdxtree RdxtreeOps RdxtreeMap Slab SlabAlign SlabInv SlabRun SlabAlloc SlabFree SlabPages SlabGrow SlabCache SlabInit SlabSystem SlabClaims.

Open Scope N_scope.

Section Interface.
Context {P : Type} `{!PageSource P} (sc ca : N) (Hne : ca ≠ sc).
Implicit Types (S : slab_state P).

Definition handle_ok S : Prop := (∃ G, SlabInv sc S G ∅) ∧ is_Some (ss_caches S !! ca).

(** The allocator, seen from a client of one cache. *)
Record cache_handle := Handle {
  hd_state : slab_state P;
  hd_ok : handle_ok hd_state;
}.

(** ** Allocation *)

Lemma handle_alloc S : handle_ok S → ready sc S ca = true →
  wp (Slab.kmem_cache_alloc sc ca) (λ r S', handle_ok S' ∧
    (r = 0 ∧ cache_objs S' ca = cache_objs S ca ∨
     r ≠ 0 ∧ r mod 8 = 0 ∧ r ∉ cache_objs S ca ∧ cache_objs S' ca = {[r]} ∪ cache_objs S ca)) S.
Proof.
  intros [[G Hinv] [c Hc]] Hready. eapply wp_mono; [by apply (kmem_cache_alloc_ok sc ca S G ∅)|]. intros r S' (G' & Hinv' & Hex & _ & Hres).
  assert (is_Some (layouts S' !! ca)) as [l Hl]. { rewrite (ex_layouts _ _ _ _ Hex). unfold layouts. rewrite lookup_fmap, Hc. by eexists. }
  destruct (layouts_inv _ _ _ _ Hinv' _ _ Hl) as (c' & Hc' & _). split; [split; [by exists G'|by exists c']|].
  destruct Hres as [(-> & _ & Hsame)|[Hnew Hlive _ (Hr0 & Hr8 & _) _]]; [left|right].
  - split; [done|]. apply set_eq. intros x. by rewrite (cache_objs_ok sc S' G' ∅), (cache_objs_ok sc S G ∅).
  - split_and!; [done|done|by rewrite (cache_objs_ok sc S G ∅)|]. apply set_eq. intros x.
    rewrite elem_of_union, elem_of_singleton, (cache_objs_ok sc S' G' ∅), (cache_objs_ok sc S G ∅), Hlive by done. tauto.
Qed.

Lemma handle_alloc_ok S r S' : handle_ok S → ready sc S ca = true → Slab.kmem_cache_alloc sc ca S = Some (r, S') → handle_ok S'.
Proof. intros Hok Hr E. by destruct (wp_elim _ _ _ _ _ (handle_alloc S Hok Hr) E). Qed.

(** A thread that waits for ever gets nothing. *)
Definition handle_kmem_alloc (h : cache_handle) : option N * cache_handle :=
  match bool_dec (ready sc (hd_state h) ca) true with
  | left Hr =>
      match Slab.kmem_cache_alloc sc ca (hd_state h) as o return Slab.kmem_cache_alloc sc ca (hd_state h) = o → _ with
      | Some (r, S') => λ E, (if r =? 0 then None else Some r, Handle S' (handle_alloc_ok _ _ _ (hd_ok h) Hr E))
      | None => λ _, (None, h)
      end eq_refl
  | right _ => (None, h)
  end.

(** ** Release *)

Lemma handle_free S a : handle_ok S → a ∈ cache_objs S ca →
  wp (Slab.kmem_cache_free ca a) (λ _ S', handle_ok S' ∧ cache_objs S' ca = cache_objs S ca ∖ {[a]}) S.
Proof.
  intros [[G Hinv] [c Hc]] Ha. rewrite (cache_objs_ok sc S G ∅) in Ha by done. eapply wp_mono; [by apply (kmem_cache_free_ok sc S G ∅)|].
  intros _ S' (G' & Hinv' & Hlive & HL & _).
  assert (is_Some (layouts S' !! ca)) as [l Hl]. { rewrite HL. unfold layouts. rewrite lookup_fmap, Hc. by eexists. }
  destruct (layouts_inv _ _ _ _ Hinv' _ _ Hl) as (c' & Hc' & _). split; [split; [by exists G'|by exists c']|].
  apply set_eq. intros x. rewrite elem_of_difference, elem_of_singleton, (cache_objs_ok sc S' G' ∅), (cache_objs_ok sc S G ∅), Hlive by done. tauto.
Qed.

Lemma handle_free_ok S a u S' : handle_ok S → a ∈ cache_objs S ca → Slab.kmem_cache_free ca a S = Some (u, S') → handle_ok S'.
Proof. intros Hok Ha E. by destruct (wp_elim _ _ _ _ _ (handle_free S a Hok Ha) E). Qed.

Definition handle_kmem_free (h : cache_handle) (a : N) : cache_handle :=
  match decide (a ∈ cache_objs (hd_state h) ca) with
  | left Ha =>
      match Slab.kmem_cache_free ca a (hd_state h) as o return Slab.kmem_cache_free ca a (hd_state h) = o → _ with
      | Some (u, S') => λ E, Handle S' (handle_free_ok _ _ _ _ (hd_ok h) Ha E)
      | None => λ _, h
      end eq_refl
  | right _ => h
  end.

(** ** The interface *)

Lemma handle_alloc_cases h : let '(o, h') := handle_kmem_alloc h in
  match o with
  | Some r => r ≠ 0 ∧ r mod 8 = 0 ∧ r ∉ cache_objs (hd_state h) ca ∧ cache_objs (hd_state h') ca = {[r]} ∪ cache_objs (hd_state h) ca
  | None => cache_objs (hd_state h') ca = cache_objs (hd_state h) ca
  end.
Proof.
  unfold handle_kmem_alloc. destruct (bool_dec _ _) as [Hr|_]; [|done]. generalize (handle_alloc_ok (hd_state h)).
  pose proof (handle_alloc _ (hd_ok h) Hr) as Hwp. unfold wp in Hwp. destruct (Slab.kmem_cache_alloc sc ca (hd_state h)) as [[r S']|]; [|done].
  destruct Hwp as (_ & [(-> & Hsame)|(Hr0 & Hr8 & Hn & Hobjs)]); intros ?; cbn; [done|]. by destruct (N.eqb_spec r 0).
Qed.

#[program] Definition slab_kmem_cache : KmemCache cache_handle := {|
  Kmem.kmem_cache_alloc := handle_kmem_alloc;
  Kmem.kmem_cache_free := handle_kmem_free;
  km_live h := cache_objs (hd_state h) ca;
|}.
Next Obligation.
  intros h a h' E. pose proof (handle_alloc_cases h) as Hc. rewrite E in Hc. destruct Hc as (? & Hr & ? & ?). split_and!; try done.
  change 7 with (N.ones 3). by rewrite N.land_ones.
Qed.
Next Obligation. intros h h' E. pose proof (handle_alloc_cases h) as Hc. by rewrite E in Hc. Qed.
Next Obligation.
  intros h a Ha. unfold handle_kmem_free. destruct (decide _) as [Ha'|]; [|done]. generalize (handle_free_ok (hd_state h) a).
  pose proof (handle_free _ a (hd_ok h) Ha') as Hwp. unfold wp in Hwp. destruct (Slab.kmem_cache_free ca a (hd_state h)) as [[u S']|]; [|done].
  by destruct Hwp.
Qed.
End Interface.

(** The nodes of a tree are what is allocated. *)
Lemma rep_nodes {C} `{!KmemCache C} (s : store C) m : rep s m → km_live (cache s) = dom (nodes s).
Proof. intros [(Hl & Hn & _)|(pos & Hl & _)]; [by rewrite Hl, Hn, dom_empty_L|done]. Qed.

Section Composed.
Context {P : Type} `{!PageSource P} (sc ca : N) (Hne : ca ≠ sc).
#[local] Instance node_cache : KmemCache (cache_handle sc ca) := slab_kmem_cache sc ca Hne.

(** C18.  Composition: any sequence of operations on a radix tree, whose nodes come
    from a cache of the slab allocator that has no objects yet, returns, and its
    results are those of a finite map.  Then the nodes of the tree are exactly the
    objects of the cache, read off its slabs in memory.  An allocation that would
    wait for memory for ever counts as one that fails. *)
Theorem rdxtree_over_slab garbage ops (h : cache_handle sc ca) : cache_objs (hd_state sc ca h) ca = ∅ → forallb map_op_ok ops = true →
  ∃ rs s' m', rdx_run garbage ops (rdx_empty h) = Some (rs, s') ∧ map_run ∅ ops rs m' ∧ rep s' m' ∧
    cache_objs (hd_state sc ca (cache s')) ca = dom (nodes s').
Proof.
  intros Hc Hok. assert (km_live h = ∅) as Hl by exact Hc.
  destruct (proj1 (wp_run _ _ _) (rdx_run_spec garbage ops _ _ (rep_empty h Hl) Hok)) as (rs & s' & Hrun & m' & Hmap & Hrep).
  exists rs, s', m'. split_and!; try done. exact (rep_nodes s' m' Hrep).
Qed.
End Composed.

(** ** A tree with nodes of 544 bytes *)

Definition node_call : slab_call := SlabCacheInit 32 544 0 None 0.
Definition node_state : slab_state page_pool := run_state (run_slab_call 8 node_call) demo_slab0.

Lemma node_state_reach : slab_reach 8 node_state (Heap {[32 := (544, 8)]} ∅).
Proof.
  eapply (reach_call _ _ _ node_call 0); [apply demo_reach0|split_and!; [done|done|by split]|done|vm_compute; reflexivity|].
  apply (HeapInit (Heap ∅ ∅) 32 544 0).
Qed.

Lemma node_state_ok : handle_ok 8 32 node_state.
Proof.
  destruct (reach_rel 8 _ _ node_state_reach) as [G HR]. split; [exists G; apply HR|]. vm_compute. by eexists.
Qed.

Definition node_ne : (32 : N) ≠ 8 := ltac:(done).

Lemma rdxtree_over_slab_witness :
  (∃ rs s' m', rdx_run (KmemCache0 := node_cache 8 32 node_ne) 0 demo_ops (rdx_empty (Handle 8 32 node_state node_state_ok)) = Some (rs, s') ∧
     map_run ∅ demo_ops rs m' ∧ rep (KmemCache0 := node_cache 8 32 node_ne) s' m' ∧ cache_objs (hd_state 8 32 (cache s')) 32 = dom (nodes s')) ∧
  option_map fst (rdx_run (KmemCache0 := node_cache 8 32 node_ne) 0 demo_ops (rdx_empty (Handle 8 32 node_state node_state_ok))) = Some [0; 0; 4; 16; 0; 8; 0; 40; 48].
Proof.
  split; [apply (rdxtree_over_slab 8 32 node_ne 0 demo_ops (Handle 8 32 node_state node_state_ok)); vm_compute; reflexivity|].
  vm_compute. reflexivity.
Defined.
