(* ===== verification/BpfFilter.v ===== *)
(** The packet filters of device/net_io.c: the BPF language with its validator
    and interpreter, and the older stack language (CSPF) with its own.  Filters
    come from users as arrays of 16-bit words and run in the kernel.  Locks and
    message buffers are left out. *)

From S2P Require Import Prelude.

Open Scope N_scope.

(** ** Integers *)

(** [int] as its bit pattern and back. *)
Definition of_int (x : Z) : N := Z.to_N (x mod 2 ^ 32).
Definition to_int (x : N) : Z := if x <? 2 ^ 31 then Z.of_N x else (Z.of_N x - 2 ^ 32)%Z.
(** [a + b] on [int]; an overflow is undefined. *)
Definition int_add (a b : Z) : option Z :=
  let s := (a + b)%Z in if ((- 2 ^ 31 <=? s) && (s <? 2 ^ 31))%Z then Some s else None.
(** A [char] as an [unsigned int]: [char] is signed. *)
Definition of_char (b : N) : N := if b <? 128 then b else b + (2 ^ 32 - 256).

(** ** Filters and packets *)

Definition NET_MAX_FILTER : N := 128.
Definition NET_RCV_MAX : N := 4095.
Definition NET_HDW_HDR_MAX : N := 64.
Definition sizeof_packet_header : N := 4.
Definition NET_HASH_SIZE : N := 256.
Definition N_NET_HASH_KEYS : N := 4.

Record net_hash_entry := HashEntry {
  he_rcv_port : N;
  he_keys : list N;
}.

(** The chains of a hash table are circular queues; here lists that start at
    the head. *)
Record net_hash_header := HashHeader {
  n_keys : N;
  hh_ref_count : N;
  table : list (list net_hash_entry);
}.

(** [hash] is [Some] for the filters that are the first member of a
    [net_hash_header]. *)
Record net_rcv_port := RcvPort {
  rcv_port : N;
  priority : Z;
  filter_words : list N;
  hash : option net_hash_header;
}.

(** What arrives: the arrays [header] and [packet] of a [net_rcv_msg], the
    number of bytes received (the packet header included), and the size of the
    interface's header. *)
Record net_rcv_msg := RcvMsg {
  header : list N;
  packet : list N;
  packet_count : N;
  if_header_size : N;
}.

(** ** BPF instructions (include/device/bpf.h) *)

Record bpf_insn := Insn {
  bi_code : N;
  bi_jt : N;
  bi_jf : N;
  bi_k : Z;
}.

Definition BPF_CLASS (code : N) : N := N.land code 0x07.
Definition BPF_LD : N := 0x00.
Definition BPF_LDX : N := 0x01.
Definition BPF_ST : N := 0x02.
Definition BPF_STX : N := 0x03.
Definition BPF_ALU : N := 0x04.
Definition BPF_JMP : N := 0x05.
Definition BPF_RET : N := 0x06.
Definition BPF_MISC : N := 0x07.
Definition BPF_W : N := 0x00.
Definition BPF_H : N := 0x08.
Definition BPF_B : N := 0x10.
Definition BPF_IMM : N := 0x00.
Definition BPF_ABS : N := 0x20.
Definition BPF_IND : N := 0x40.
Definition BPF_MEM : N := 0x60.
Definition BPF_LEN : N := 0x80.
Definition BPF_MSH : N := 0xa0.
Definition BPF_OP (code : N) : N := N.land code 0xf0.
Definition BPF_ADD : N := 0x00.
Definition BPF_SUB : N := 0x10.
Definition BPF_MUL : N := 0x20.
Definition BPF_DIV : N := 0x30.
Definition BPF_OR : N := 0x40.
Definition BPF_AND : N := 0x50.
Definition BPF_LSH : N := 0x60.
Definition BPF_RSH : N := 0x70.
Definition BPF_NEG : N := 0x80.
Definition BPF_JA : N := 0x00.
Definition BPF_JEQ : N := 0x10.
Definition BPF_JGT : N := 0x20.
Definition BPF_JGE : N := 0x30.
Definition BPF_JSET : N := 0x40.
Definition BPF_K : N := 0x00.
Definition BPF_X : N := 0x08.
Definition BPF_A : N := 0x10.
Definition BPF_MATCH_IMM : N := 0x18.
Definition BPF_TAX : N := 0x00.
Definition BPF_TXA : N := 0x80.
Definition BPF_KEY : N := 0x10.
Definition BPF_MEMWORDS : N := 16.

(** [a|b|c]: the fields of a code. *)
Definition ops (l : list N) : N := foldr N.lor 0 l.

(** The words of a filter as instructions of four words each. *)
Fixpoint insns (words : list N) : list bpf_insn :=
  match words with
  | w0 :: w1 :: w2 :: w3 :: words =>
      Insn w0 (N.land w1 0xff) (N.shiftr w1 8) (to_int (w2 + 2 ^ 16 * w3)) :: insns words
  | _ => []
  end.

(** ** The interpreter *)

(** [A], [X], the scratch memory and the index of the next instruction. *)
Record bpf_state := BpfState {
  bs_pc : Z;
  bs_A : N;
  bs_X : N;
  bs_mem : list N;
}.

(** One turn of the loop: the next instruction, the end, or undefined
    behaviour. *)
Inductive bpf_step_result :=
  | Next (st : bpf_state)
  | Return (count : N) (ent : option net_hash_entry)
  | Undefined.

Inductive loaded :=
  | Loaded (v : N)
  | NotInPacket
  | BadAddress.

(** A number in network order. *)
Definition be (bytes : list N) : N := foldl (λ acc b, 256 * acc + b) 0 bytes.

Definition read (data : list N) (idx : Z) (size : N) : option N :=
  if ((0 <=? idx) && (idx + Z.of_N size <=? Z.of_nat (length data)))%Z
  then Some (be (take (N.to_nat size) (drop (Z.to_nat idx) data))) else None.

(** [load_word], [load_half] and [load_byte] at offset [k] (as [u_int]); [size_t]
    has 64 bits, so [k + size] does not wrap.  The packet data starts behind the
    packet header. *)
Definition load (pkt : net_rcv_msg) (k size : N) : loaded :=
  let buflen := NET_RCV_MAX in
  let hlen := if_header_size pkt in
  let from data idx := match read data idx size with Some v => Loaded v | None => BadAddress end in
  if k + size <=? hlen then from (header pkt) (Z.of_N k)
  else if k + size <=? buflen then from (packet pkt) (Z.of_N sizeof_packet_header + (Z.of_N k - Z.of_N hlen))%Z
  else NotInPacket.

(** [bpf_hash]. *)
Definition bpf_hash (n : N) (keys : list N) : N := foldl (λ h k, u32 (h + k)) 0 (take (N.to_nat n) keys) mod NET_HASH_SIZE.

(** [bpf_match]: the entry with these keys; [None] is an access outside of the
    table. *)
Definition bpf_match (h : net_hash_header) (nk : N) (keys : list N) : option (option net_hash_entry) :=
  if negb (nk =? n_keys h) then Some None else
  chain ← table h !! N.to_nat (bpf_hash nk keys);
  Some (snd <$> list_find (λ e, take (N.to_nat nk) (he_keys e) = take (N.to_nat nk) keys) chain).

(** [switch (code)]. *)
Fixpoint switch {A} (code : N) (cases : list (N * A)) (default : A) : A :=
  match cases with
  | [] => default
  | (c, r) :: cases => if code =? c then r else switch code cases default
  end.

Section Interp.
Context (infp : net_rcv_port) (pkt : net_rcv_msg).

(** [count - sizeof(struct packet_header)] on [unsigned int]. *)
Definition wirelen : N := u32_sub (packet_count pkt) sizeof_packet_header.

(** [((u_int) v <= wirelen) ? v : wirelen]. *)
Definition clamp (v : N) : N := if v <=? wirelen then v else wirelen.

(** The [switch] of [bpf_do_filter]. *)
Definition bpf_step (i : bpf_insn) (st : bpf_state) : bpf_step_result :=
  let A := bs_A st in
  let X := bs_X st in
  let mem := bs_mem st in
  let k := of_int (bi_k i) in
  let continue_at off A X mem := Next (BpfState (bs_pc st + 1 + off) A X mem) in
  let set_A A := continue_at 0%Z A X mem in
  let set_X X := continue_at 0%Z A X mem in
  let ret v := if rcv_port infp =? 0 then Return 0 None else Return (clamp v) None in
  let into_A l f := match l with Loaded v => set_A (f v) | NotInPacket => Return 0 None | BadAddress => Undefined end in
  let at_mem f := if ((0 <=? bi_k i) && (bi_k i <? Z.of_nat (length mem)))%Z then f (Z.to_nat (bi_k i)) else Undefined in
  let jump (b : bool) := continue_at (Z.of_N (if b then bi_jt i else bi_jf i)) A X mem in
  let shift s f := if s <? 32 then set_A (f s) else Undefined in
  switch (bi_code i)
    [(ops [BPF_RET; BPF_K], ret k);
     (ops [BPF_RET; BPF_A], ret A);
     (ops [BPF_RET; BPF_MATCH_IMM],
        match hash infp with
        | None => Undefined
        | Some h =>
            match bpf_match h (bi_jt i) mem with
            | Some (Some e) => Return (clamp k) (Some e)
            | Some None => Return 0 None
            | None => Undefined
            end
        end);
     (ops [BPF_LD; BPF_W; BPF_ABS], into_A (load pkt k 4) id);
     (ops [BPF_LD; BPF_H; BPF_ABS], into_A (load pkt k 2) id);
     (ops [BPF_LD; BPF_B; BPF_ABS], into_A (load pkt k 1) of_char);
     (ops [BPF_LD; BPF_W; BPF_LEN], set_A wirelen);
     (ops [BPF_LDX; BPF_W; BPF_LEN], set_X wirelen);
     (ops [BPF_LD; BPF_W; BPF_IND], into_A (load pkt (u32 (X + k)) 4) id);
     (ops [BPF_LD; BPF_H; BPF_IND], into_A (load pkt (u32 (X + k)) 2) id);
     (ops [BPF_LD; BPF_B; BPF_IND], into_A (load pkt (u32 (X + k)) 1) of_char);
     (ops [BPF_LDX; BPF_MSH; BPF_B],
        match load pkt k 1 with
        | Loaded v => set_X (N.shiftl (N.land v 0xf) 2)
        | NotInPacket => Return 0 None
        | BadAddress => Undefined
        end);
     (ops [BPF_LD; BPF_IMM], set_A k);
     (ops [BPF_LDX; BPF_IMM], set_X k);
     (ops [BPF_LD; BPF_MEM], at_mem (λ j, set_A (default 0 (mem !! j))));
     (ops [BPF_LDX; BPF_MEM], at_mem (λ j, set_X (default 0 (mem !! j))));
     (ops [BPF_ST], at_mem (λ j, continue_at 0%Z A X (<[j := A]> mem)));
     (ops [BPF_STX], at_mem (λ j, continue_at 0%Z A X (<[j := X]> mem)));
     (ops [BPF_JMP; BPF_JA], continue_at (bi_k i) A X mem);
     (ops [BPF_JMP; BPF_JGT; BPF_K], jump (k <? A));
     (ops [BPF_JMP; BPF_JGE; BPF_K], jump (k <=? A));
     (ops [BPF_JMP; BPF_JEQ; BPF_K], jump (A =? k));
     (ops [BPF_JMP; BPF_JSET; BPF_K], jump (negb (N.land A k =? 0)));
     (ops [BPF_JMP; BPF_JGT; BPF_X], jump (X <? A));
     (ops [BPF_JMP; BPF_JGE; BPF_X], jump (X <=? A));
     (ops [BPF_JMP; BPF_JEQ; BPF_X], jump (A =? X));
     (ops [BPF_JMP; BPF_JSET; BPF_X], jump (negb (N.land A X =? 0)));
     (ops [BPF_ALU; BPF_ADD; BPF_X], set_A (u32 (A + X)));
     (ops [BPF_ALU; BPF_SUB; BPF_X], set_A (u32_sub A X));
     (ops [BPF_ALU; BPF_MUL; BPF_X], set_A (u32 (A * X)));
     (ops [BPF_ALU; BPF_DIV; BPF_X], if X =? 0 then Return 0 None else set_A (A / X));
     (ops [BPF_ALU; BPF_AND; BPF_X], set_A (N.land A X));
     (ops [BPF_ALU; BPF_OR; BPF_X], set_A (N.lor A X));
     (ops [BPF_ALU; BPF_LSH; BPF_X], shift X (λ s, u32 (N.shiftl A s)));
     (ops [BPF_ALU; BPF_RSH; BPF_X], shift X (N.shiftr A));
     (ops [BPF_ALU; BPF_ADD; BPF_K], set_A (u32 (A + k)));
     (ops [BPF_ALU; BPF_SUB; BPF_K], set_A (u32_sub A k));
     (ops [BPF_ALU; BPF_MUL; BPF_K], set_A (u32 (A * k)));
     (ops [BPF_ALU; BPF_DIV; BPF_K], if k =? 0 then Undefined else set_A (A / k));
     (ops [BPF_ALU; BPF_AND; BPF_K], set_A (N.land A k));
     (ops [BPF_ALU; BPF_OR; BPF_K], set_A (N.lor A k));
     (ops [BPF_ALU; BPF_LSH; BPF_K], shift k (λ s, u32 (N.shiftl A s)));
     (ops [BPF_ALU; BPF_RSH; BPF_K], shift k (N.shiftr A));
     (ops [BPF_ALU; BPF_NEG], set_A (u32_sub 0 A));
     (ops [BPF_MISC; BPF_TAX], set_X A);
     (ops [BPF_MISC; BPF_TXA], set_A X)]
    (Return 0 None).

Inductive bpf_outcome :=
  | Returned (count : N) (ent : option net_hash_entry)
  | Crashed
  | Running.

(** The loop [for (; pc < pc_end; ++pc)], for at most [fuel] turns.  [pc_end] is
    the end of the words. *)
Fixpoint bpf_loop (fuel : nat) (st : bpf_state) : bpf_outcome :=
  if (4 * bs_pc st <? Z.of_nat (length (filter_words infp)))%Z then
    match fuel with
    | O => Running
    | S fuel =>
        match (if (0 <=? bs_pc st)%Z then insns (filter_words infp) !! Z.to_nat (bs_pc st) else None) with
        | None => Crashed
        | Some i =>
            match bpf_step i st with
            | Next st => bpf_loop fuel st
            | Return count ent => Returned count ent
            | Undefined => Crashed
            end
        end
    end
  else Returned 0 None.

(** [mem]: the content of the scratch memory at the start, which the code does
    not set. *)
Definition bpf_do_filter (fuel : nat) (mem : list N) : bpf_outcome := bpf_loop fuel (BpfState 1 0 0 mem).
End Interp.

(** ** The validator *)

(** The target of a jump is behind it and in the program, as the code checks it. *)
Definition jump_ok (len i : nat) (p : bpf_insn) : option bool :=
  if negb (BPF_CLASS (bi_code p) =? BPF_JMP) then Some true else
  let from := Z.of_nat (i + 1) in
  let len := Z.of_nat len in
  if BPF_OP (bi_code p) =? BPF_JA then
    t ← int_add from (bi_k p); Some (negb (len <=? t)%Z)
  else Some (negb ((len <=? from + Z.of_N (bi_jt p)) || (len <=? from + Z.of_N (bi_jf p)))%Z).

Definition mem_ok (p : bpf_insn) : bool :=
  negb (((BPF_CLASS (bi_code p) =? BPF_ST) || ((BPF_CLASS (bi_code p) =? BPF_LD) && (N.land (bi_code p) 0xe0 =? BPF_MEM)))
    && ((Z.of_N BPF_MEMWORDS <=? bi_k p) || (bi_k p <? 0))%Z).

Definition div_ok (p : bpf_insn) : bool :=
  negb ((bi_code p =? ops [BPF_ALU; BPF_DIV; BPF_K]) && (bi_k p =? 0)%Z).

Definition is_key (p : bpf_insn) : bool := bi_code p =? ops [BPF_MISC; BPF_KEY].

(** The loop over the instructions.  [None]: undefined; [Some None]: the filter
    is refused; [Some (Some m)]: the end, with the index of the match
    instruction. *)
Fixpoint validate_loop (fuel : nat) (f : list bpf_insn) (len i : nat) (m : option nat) : option (option (option nat)) :=
  match fuel with
  | O => None
  | S fuel =>
      if (len <=? i)%nat then Some (Some m) else
      p ← f !! i;
      j ← jump_ok len i p;
      if negb j then Some None
      else if negb (mem_ok p) then Some None
      else if negb (div_ok p) then Some None
      else if bi_code p =? ops [BPF_RET; BPF_MATCH_IMM] then
        if bool_decide (m ≠ None) || (bi_jt p =? 0) || (N_NET_HASH_KEYS <? bi_jt p) then Some None else
        let n := N.to_nat (bi_jt p) in
        if (len <? i + n + 1)%nat then Some None else
        if forallb is_key (take n (drop (i + 1) f)) then validate_loop fuel f len (i + n + 1) (Some i) else Some None
      else validate_loop fuel f len (i + 1) m
  end.

(** 0: not valid; 1: valid, without a match instruction; 2: with one, at the
    index returned. *)
Definition bpf_validate (words : list N) : option (N * option nat) :=
  let f := insns words in
  let len := (length words / 4)%nat in
  r ← validate_loop (S len) f len 1 None;
  match r with
  | None => Some (0, None)
  | Some m =>
      last ← (if (1 <=? len)%nat then f !! (len - 1)%nat else None);
      if BPF_CLASS (bi_code last) =? BPF_RET then Some (match m with Some _ => 2 | None => 1 end, m) else Some (0, None)
  end.

(** [bpf_eq]: the same code but for the keys. *)
Definition bpf_insn_eq (p q : bpf_insn) : bool :=
  (bi_code p =? bi_code q) && (bi_jt p =? bi_jt q) && (bi_jf p =? bi_jf q) && (bi_k p =? bi_k q)%Z.
Fixpoint bpf_eq (f1 f2 : list bpf_insn) : bool :=
  match f1, f2 with
  | p :: f1, q :: f2 => (bpf_insn_eq p q || (is_key p && is_key q)) && bpf_eq f1 f2
  | _, _ => true
  end.

(** ** The stack language (include/device/net_status.h) *)

Definition NET_FILTER_STACK_DEPTH : N := 32.
Definition NETF_NBPA : N := 10.
Definition NETF_ARG (word : N) : N := N.land word 0x3ff.
Definition NETF_OP (word : N) : N := N.land (N.shiftr word NETF_NBPA) 0x3f.
Definition NETF_NOP : N := N.shiftl 0 NETF_NBPA.
Definition NETF_EQ : N := N.shiftl 1 NETF_NBPA.
Definition NETF_LT : N := N.shiftl 2 NETF_NBPA.
Definition NETF_LE : N := N.shiftl 3 NETF_NBPA.
Definition NETF_GT : N := N.shiftl 4 NETF_NBPA.
Definition NETF_GE : N := N.shiftl 5 NETF_NBPA.
Definition NETF_AND : N := N.shiftl 6 NETF_NBPA.
Definition NETF_OR : N := N.shiftl 7 NETF_NBPA.
Definition NETF_XOR : N := N.shiftl 8 NETF_NBPA.
Definition NETF_COR : N := N.shiftl 9 NETF_NBPA.
Definition NETF_CAND : N := N.shiftl 10 NETF_NBPA.
Definition NETF_CNOR : N := N.shiftl 11 NETF_NBPA.
Definition NETF_CNAND : N := N.shiftl 12 NETF_NBPA.
Definition NETF_NEQ : N := N.shiftl 13 NETF_NBPA.
Definition NETF_LSH : N := N.shiftl 14 NETF_NBPA.
Definition NETF_RSH : N := N.shiftl 15 NETF_NBPA.
Definition NETF_ADD : N := N.shiftl 16 NETF_NBPA.
Definition NETF_SUB : N := N.shiftl 17 NETF_NBPA.
Definition NETF_NOPUSH : N := 0.
Definition NETF_PUSHLIT : N := 1.
Definition NETF_PUSHZERO : N := 2.
Definition NETF_PUSHIND : N := 14.
Definition NETF_PUSHHDRIND : N := 15.
Definition NETF_PUSHWORD : N := 16.
Definition NETF_PUSHHDR : N := 960.
Definition NETF_PUSHSTK : N := 992.

(** What can go wrong in the interpreter. *)
Inductive cspf_fault :=
  | PastFilter
  | StackUnderflow
  | StackOverflow
  | OutOfHeader
  | OutOfPacket
  | BadShift
  | NoFuel.

Definition R (A : Type) : Type := cspf_fault + A.
#[export] Instance R_ret : MRet R := λ A a, inr a.
#[export] Instance R_bind : MBind R := λ A B k c, match c with inl e => inl e | inr a => k a end.

(** [int stack[NET_FILTER_STACK_DEPTH+1]], as bit patterns. *)
Definition stack_check (sp : Z) : R unit :=
  if (sp <? 0)%Z then inl StackOverflow
  else if (Z.of_N NET_FILTER_STACK_DEPTH <? sp)%Z then inl StackUnderflow else inr tt.
Definition stack_get (stack : list N) (sp : Z) : R N := _ ← stack_check sp; mret (default 0 (stack !! Z.to_nat sp)).
Definition stack_set (stack : list N) (sp : Z) (v : N) : R (list N) :=
  _ ← stack_check sp; mret (<[Z.to_nat sp := v]> stack).

(** An unsigned short of an array of bytes. *)
Definition short_at (e : cspf_fault) (data : list N) (i : N) : R N :=
  match data !! N.to_nat (2 * i), data !! N.to_nat (2 * i + 1) with
  | Some lo, Some hi => mret (lo + 256 * hi)
  | _, _ => inl e
  end.

Section Cspf.
Context (words : list N) (pkt : net_rcv_msg).

(** [data_count], in words. *)
Definition data_words : N := packet_count pkt / 2.

(** The first [switch]: the operand, [None] for [return FALSE]. *)
Definition cspf_operand (arg : N) (fp : nat) (sp : Z) (stack : list N) : R (option (N * nat * Z)) :=
  if arg =? NETF_NOPUSH then v ← stack_get stack sp; mret (Some (v, fp, sp + 1))%Z
  else if arg =? NETF_PUSHZERO then mret (Some (0, fp, sp))
  else if arg =? NETF_PUSHLIT then match words !! fp with Some v => mret (Some (v, S fp, sp)) | None => inl PastFilter end
  else if arg =? NETF_PUSHIND then
    v ← stack_get stack sp;
    if data_words <=? v then mret None else w ← short_at OutOfPacket (packet pkt) v; mret (Some (w, fp, sp + 1))%Z
  else if arg =? NETF_PUSHHDRIND then
    v ← stack_get stack sp;
    if NET_HDW_HDR_MAX / 2 <=? v then mret None else w ← short_at OutOfHeader (header pkt) v; mret (Some (w, fp, sp + 1))%Z
  else if NETF_PUSHSTK <=? arg then v ← stack_get stack (sp + Z.of_N (arg - NETF_PUSHSTK)); mret (Some (v, fp, sp))
  else if NETF_PUSHHDR <=? arg then w ← short_at OutOfHeader (header pkt) (arg - NETF_PUSHHDR); mret (Some (w, fp, sp))
  else
    let arg := u32_sub arg NETF_PUSHWORD in
    if data_words <=? arg then mret None else w ← short_at OutOfPacket (packet pkt) arg; mret (Some (w, fp, sp)).

(** The second [switch]: the new stack, or the verdict. *)
Definition cspf_operator (op arg : N) (sp : Z) (stack : list N) : R (bool + Z * list N) :=
  let binary (f : N → N → R N) := v ← stack_get stack sp; w ← f v arg; s ← stack_set stack sp w; mret (inr (sp, s)) in
  let pure (f : N → N → N) := binary (λ v a, mret (f v a)) in
  let test (f : N → N → bool) := pure (λ v a, if f v a then 1 else 0) in
  let cond (f : N → N → bool) (b : bool) :=
    v ← stack_get stack sp; mret (if f v arg then inl b else inr (sp + 1, stack)%Z) in
  let ne v a := negb (v =? a) in
  let shift (f : N → N → N) := binary (λ v a, if a <? 32 then mret (f v a) else inl BadShift) in
  if op =? NETF_OP NETF_NOP then s ← stack_set stack (sp - 1) arg; mret (inr (sp - 1, s)%Z)
  else if op =? NETF_OP NETF_AND then pure N.land
  else if op =? NETF_OP NETF_OR then pure N.lor
  else if op =? NETF_OP NETF_XOR then pure N.lxor
  else if op =? NETF_OP NETF_EQ then test N.eqb
  else if op =? NETF_OP NETF_NEQ then test ne
  else if op =? NETF_OP NETF_LT then test N.ltb
  else if op =? NETF_OP NETF_LE then test N.leb
  else if op =? NETF_OP NETF_GT then test (λ v a, a <? v)
  else if op =? NETF_OP NETF_GE then test (λ v a, a <=? v)
  else if op =? NETF_OP NETF_COR then cond N.eqb true
  else if op =? NETF_OP NETF_CAND then cond ne false
  else if op =? NETF_OP NETF_CNOR then cond N.eqb false
  else if op =? NETF_OP NETF_CNAND then cond ne true
  else if op =? NETF_OP NETF_LSH then shift (λ v a, u32 (N.shiftl v a))
  else if op =? NETF_OP NETF_RSH then shift (λ v a, of_int (Z.shiftr (to_int v) (Z.of_N a)))
  else if op =? NETF_OP NETF_ADD then pure (λ v a, u32 (v + a))
  else if op =? NETF_OP NETF_SUB then pure u32_sub
  else mret (inr (sp, stack)).

Fixpoint cspf_loop (fuel fp : nat) (sp : Z) (stack : list N) : R bool :=
  match words !! fp with
  | None => v ← stack_get stack sp; mret (negb (v =? 0))
  | Some w =>
      match fuel with
      | O => inl NoFuel
      | S fuel =>
          o ← cspf_operand (NETF_ARG w) (S fp) sp stack;
          match o with
          | None => mret false
          | Some (arg, fp, sp) =>
              r ← cspf_operator (NETF_OP w) arg sp stack;
              match r with
              | inl b => mret b
              | inr (sp, stack) => cspf_loop fuel fp sp stack
              end
          end
      end
  end.

(** [stack]: the content of the stack before the call. *)
Definition net_do_filter (stack : list N) : R bool :=
  let sp := Z.of_N NET_FILTER_STACK_DEPTH in
  stack ← stack_set stack sp 1;
  cspf_loop (length words) 1 sp stack.
End Cspf.

(** [parse_net_filter]. *)
Fixpoint parse_loop (words : list N) (sp : Z) : bool :=
  match words with
  | [] => true
  | w :: words =>
      let op := NETF_OP w in
      let arg := NETF_ARG w in
      let rest words sp :=
        if (sp <? 2)%Z then false
        else if op =? NETF_OP NETF_NOP then parse_loop words sp
        else if (Z.of_N NET_MAX_FILTER - 2 <? sp)%Z then false
        else if bool_decide (op ∈ NETF_OP <$> [NETF_AND; NETF_OR; NETF_XOR; NETF_EQ; NETF_NEQ; NETF_LT; NETF_LE; NETF_GT; NETF_GE;
               NETF_COR; NETF_CAND; NETF_CNOR; NETF_CNAND; NETF_LSH; NETF_RSH; NETF_ADD; NETF_SUB])
        then parse_loop words (sp + 1) else false in
      if arg =? NETF_NOPUSH then rest words sp
      else if arg =? NETF_PUSHZERO then rest words (sp - 1)%Z
      else if arg =? NETF_PUSHLIT then match words with [] => false | _ :: words => rest words (sp - 1)%Z end
      else if (arg =? NETF_PUSHIND) || (arg =? NETF_PUSHHDRIND) then rest words sp
      else if NETF_PUSHSTK <=? arg then
        if (Z.of_N NET_FILTER_STACK_DEPTH <? Z.of_N (arg - NETF_PUSHSTK) + sp)%Z then false else rest words (sp - 1)%Z
      else if (NETF_PUSHHDR <=? arg) && (NET_HDW_HDR_MAX / 2 <=? arg - NETF_PUSHHDR) then false
      else rest words (sp - 1)%Z
  end.

Definition parse_net_filter (words : list N) : bool := parse_loop (drop 1 words) (Z.of_N NET_FILTER_STACK_DEPTH).
