(* ===== verification/BpfSpec.v ===== *)
(** What the validators of packet filters guarantee, and what they miss. *)

From Stdlib Require Import ZifyBool.
From S2P Require Import Prelude BpfFilter.

Open Scope N_scope.

(** ** Generic *)

Lemma switch_elim {A} (P : A → Prop) code cases d :
  P d → Forall (λ x, code = x.1 → P x.2) cases → P (switch code cases d).
Proof.
  intros Hd. induction 1 as [|[c r] cases Hc _ IH]; [done|]. cbn [switch]. destruct (N.eqb_spec code c); auto.
Qed.

Lemma insns_length words : length (insns words) = (length words / 4)%nat.
Proof.
  remember (length words) as n eqn:Hn. revert words Hn. induction n as [n IH] using lt_wf_ind. intros words ->.
  destruct words as [|w0 [|w1 [|w2 [|w3 words]]]]; try done. cbn [insns length]. rewrite (IH (length words)); [|cbn; lia|done].
  replace (S (S (S (S (length words))))) with (length words + 1 * 4)%nat by lia. rewrite Nat.div_add by lia. lia.
Qed.

(** ** Programs that pass *)

(** What is checked of an instruction. *)
Record insn_ok (len i : nat) (p : bpf_insn) : Prop := {
  io_jump : jump_ok len i p = Some true;
  io_mem : mem_ok p = true;
  io_div : div_ok p = true;
  io_match : bi_code p = ops [BPF_RET; BPF_MATCH_IMM] → bi_jt p ≠ 0 ∧ bi_jt p ≤ N_NET_HASH_KEYS;
}.

Lemma validate_loop_ok fuel f len i m m' :
  validate_loop fuel f len i m = Some (Some m') →
  (m ≠ None → m' ≠ None) ∧
  ∀ j p, (i ≤ j < len)%nat → f !! j = Some p →
    is_key p = true ∨ insn_ok len j p ∧ (bi_code p = ops [BPF_RET; BPF_MATCH_IMM] → m' ≠ None).
Proof.
  revert i m. induction fuel as [|fuel IH]; intros i m; cbn [validate_loop]; [done|].
  destruct (Nat.leb_spec len i) as [|Hi]; [intros [= ->]; split; [done|lia]|].
  destruct (f !! i) as [p|] eqn:Hp; [|done]. cbn [mbind option_bind].
  destruct (jump_ok len i p) as [[]|] eqn:Hj; cbn [mbind option_bind negb]; [|done|done].
  destruct (mem_ok p) eqn:Hmem; cbn [negb]; [|done]. destruct (div_ok p) eqn:Hdiv; cbn [negb]; [|done].
  destruct (N.eqb_spec (bi_code p) (ops [BPF_RET; BPF_MATCH_IMM])) as [Hc|Hc].
  - destruct (bool_decide (m ≠ None)) eqn:Hm; [done|]. apply bool_decide_eq_false in Hm. cbn [orb].
    destruct (N.eqb_spec (bi_jt p) 0) as [|Hjt]; [done|]. destruct (N.ltb_spec N_NET_HASH_KEYS (bi_jt p)) as [|Hjt']; [done|]. cbn [orb].
    destruct (Nat.ltb_spec len (i + N.to_nat (bi_jt p) + 1)) as [|Hlen]; [done|]. destruct (forallb is_key _) eqn:Hkeys; [|done].
    intros Hv. apply IH in Hv as [Hm' Hok]. split; [by auto|]. intros j q Hj' Hq.
    destruct (decide (j = i)) as [->|Hne].
    { rewrite Hp in Hq. injection Hq as <-. right. split; [by split|]. intros _. by apply Hm'. }
    destruct (decide (j < i + N.to_nat (bi_jt p) + 1)%nat) as [Hlt|Hge]; [left|by apply Hok; [lia|]].
    rewrite forallb_forall in Hkeys. apply Hkeys, list_elem_of_In, (list_elem_of_lookup_2 _ (j - (i + 1))).
    rewrite lookup_take_lt by lia. rewrite lookup_drop. replace (i + 1 + (j - (i + 1)))%nat with j by lia. done.
  - intros Hv. apply IH in Hv as [Hm' Hok]. split; [done|]. intros j q Hj' Hq. destruct (decide (j = i)) as [->|Hne]; [|by apply Hok; [lia|]].
    rewrite Hp in Hq. injection Hq as <-. right. split; [by split|]. done.
Qed.

(** What is not checked: jumps go forward, the index register and store
    instructions stay within the scratch memory, and shift counts are below 32. *)
Definition insn_sane (p : bpf_insn) : bool :=
  let coded l := bi_code p =? ops l in
  let below n := ((0 <=? bi_k p) && (bi_k p <? n))%Z in
  (negb (coded [BPF_JMP; BPF_JA]) || (0 <=? bi_k p)%Z) &&
  (negb (coded [BPF_LDX; BPF_MEM] || coded [BPF_STX]) || below 16%Z) &&
  (negb (coded [BPF_ALU; BPF_LSH; BPF_K] || coded [BPF_ALU; BPF_RSH; BPF_K]) || below 32%Z) &&
  negb (coded [BPF_ALU; BPF_LSH; BPF_X] || coded [BPF_ALU; BPF_RSH; BPF_X]).

(** A message buffer: the arrays have their sizes, and the header of the
    interface fits. *)
Record msg_wf (pkt : net_rcv_msg) : Prop := {
  mw_header : length (header pkt) = N.to_nat NET_HDW_HDR_MAX;
  mw_packet : length (packet pkt) = N.to_nat NET_RCV_MAX;
  mw_hlen : sizeof_packet_header ≤ if_header_size pkt ≤ NET_HDW_HDR_MAX;
}.

Lemma load_safe pkt k size : msg_wf pkt → size ≤ 4 → load pkt k size ≠ BadAddress.
Proof.
  intros [Hh Hp Hl] Hs. unfold load, NET_RCV_MAX, NET_HDW_HDR_MAX, sizeof_packet_header in *. cbv zeta.
  destruct (N.leb_spec (k + size) (if_header_size pkt)).
  - unfold read. rewrite (proj2 (andb_true_iff _ _)); [done|]. split; apply Z.leb_le; lia.
  - destruct (N.leb_spec (k + size) 4095); [|done]. unfold read. rewrite (proj2 (andb_true_iff _ _)); [done|]. split; apply Z.leb_le; lia.
Qed.

(** The program of a filter, with its hash table if it has a match instruction. *)
Record program_ok (infp : net_rcv_port) (len : nat) : Prop := {
  po_words : Forall (λ w, w < 2 ^ 16) (filter_words infp);
  po_len : length (filter_words infp) = (4 * len)%nat;
  po_insns i p : (1 ≤ i < len)%nat → insns (filter_words infp) !! i = Some p →
    insn_sane p = true ∧
    (is_key p = true ∨ insn_ok len i p ∧ (bi_code p = ops [BPF_RET; BPF_MATCH_IMM] → is_Some (hash infp)));
  po_last p : insns (filter_words infp) !! (len - 1)%nat = Some p → BPF_CLASS (bi_code p) = BPF_RET;
  po_hash h : hash infp = Some h → length (table h) = N.to_nat NET_HASH_SIZE;
}.

(** Immediate operands are of type [int]. *)
Lemma insns_int words i p : Forall (λ w, w < 2 ^ 16) words → insns words !! i = Some p → (- 2 ^ 31 ≤ bi_k p < 2 ^ 31)%Z.
Proof.
  remember (length words) as n eqn:Hn. revert words i Hn. induction n as [n IH] using lt_wf_ind. intros words i -> Hw.
  destruct words as [|w0 [|w1 [|w2 [|w3 words]]]]; try done.
  apply list.Forall_cons in Hw as [_ [_ [H2 [H3 Hw]%list.Forall_cons]%list.Forall_cons]%list.Forall_cons].
  cbn [insns]. destruct i as [|i]; [|apply (IH (length words)); [cbn; lia|done|done]].
  intros [= <-]. cbn [bi_k]. unfold to_int. destruct (N.ltb_spec (w2 + 2 ^ 16 * w3) (2 ^ 31)); lia.
Qed.

Lemma of_int_nonneg k : (0 ≤ k < 2 ^ 31)%Z → of_int k = Z.to_N k.
Proof. intros Hk. unfold of_int. by rewrite Z.mod_small by lia. Qed.

Lemma of_int_nonzero k : (- 2 ^ 31 ≤ k < 2 ^ 31)%Z → k ≠ 0%Z → of_int k ≠ 0.
Proof.
  intros Hk H0. unfold of_int. destruct (Z.lt_ge_cases k 0) as [Hneg|].
  - assert (k mod 2 ^ 32 = k + 2 ^ 32)%Z as ->; [|lia]. symmetry. apply (Z.mod_unique _ _ (-1)); lia.
  - rewrite Z.mod_small by lia. lia.
Qed.

(** What the checks mean for the instructions that need them. *)
Record insn_safe (len i : nat) (p : bpf_insn) : Prop := {
  is_ja : bi_code p = ops [BPF_JMP; BPF_JA] → (0 ≤ bi_k p ∧ Z.of_nat i + 1 + bi_k p < Z.of_nat len)%Z;
  is_jump : BPF_CLASS (bi_code p) = BPF_JMP → BPF_OP (bi_code p) ≠ BPF_JA →
    (Z.of_nat i + 1 + Z.of_N (bi_jt p) < Z.of_nat len ∧ Z.of_nat i + 1 + Z.of_N (bi_jf p) < Z.of_nat len)%Z;
  is_mem : bi_code p ∈ [ops [BPF_LD; BPF_MEM]; ops [BPF_LDX; BPF_MEM]; ops [BPF_ST]; ops [BPF_STX]] →
    (0 ≤ bi_k p < Z.of_N BPF_MEMWORDS)%Z;
  is_div : bi_code p = ops [BPF_ALU; BPF_DIV; BPF_K] → of_int (bi_k p) ≠ 0;
  is_shift : bi_code p ∈ [ops [BPF_ALU; BPF_LSH; BPF_K]; ops [BPF_ALU; BPF_RSH; BPF_K]] → of_int (bi_k p) < 32;
  is_shift_X : bi_code p ∉ [ops [BPF_ALU; BPF_LSH; BPF_X]; ops [BPF_ALU; BPF_RSH; BPF_X]];
}.

(** Evaluates the tests of a known code. *)
Ltac known_code H :=
  cbv -[Z.leb Z.ltb Z.eqb bi_k Z.of_nat Z.add bi_jt bi_jf Z.of_N Nat.add andb orb negb int_add option_bind mbind] in H;
  cbn [andb orb negb] in H.

Lemma insn_safe_intro len i p :
  insn_ok len i p → insn_sane p = true → (- 2 ^ 31 ≤ bi_k p < 2 ^ 31)%Z → insn_safe len i p.
Proof.
  intros [Hj Hm Hd _] Hs Hk. unfold jump_ok in Hj. unfold mem_ok in Hm. unfold div_ok in Hd. unfold insn_sane in Hs. cbv zeta in *.
  split.
  - clear Hm Hd. intros Hc. rewrite Hc in *. known_code Hj. known_code Hs. unfold int_add in Hj.
    destruct (_ && _)%bool in Hj; [|done]. cbn in Hj. injection Hj as Hj. lia.
  - clear Hm Hd Hs. intros Hc Ho. rewrite Hc in Hj. cbn in Hj. rewrite (proj2 (N.eqb_neq _ _) Ho) in Hj. injection Hj as Hj. lia.
  - clear Hj Hd. intros Hc. unfold BPF_MEMWORDS. rewrite !elem_of_cons, elem_of_nil in Hc.
    destruct Hc as [Hc|[Hc|[Hc|[Hc|[]]]]]; rewrite Hc in *; known_code Hm; known_code Hs; lia.
  - clear Hj Hm Hs. intros Hc. rewrite Hc in Hd. known_code Hd. apply of_int_nonzero; [done|]. lia.
  - clear Hj Hm Hd. intros Hc. rewrite !elem_of_cons, elem_of_nil in Hc.
    destruct Hc as [Hc|[Hc|[]]]; rewrite Hc in Hs; known_code Hs; rewrite of_int_nonneg by lia; lia.
  - clear Hj Hm Hd. intros Hc. rewrite !elem_of_cons, elem_of_nil in Hc.
    destruct Hc as [Hc|[Hc|[]]]; rewrite Hc in Hs; known_code Hs; discriminate Hs.
Qed.

Ltac in_list := by repeat first [apply list_elem_of_here|apply list_elem_of_further].

(** ** Running them *)

Section Run.
Context (infp : net_rcv_port) (pkt : net_rcv_msg) (len : nat).
Context (Hprog : program_ok infp len) (Hmsg : msg_wf pkt).

Lemma clamp_le v : clamp pkt v ≤ wirelen pkt.
Proof. unfold clamp. destruct (N.leb_spec v (wirelen pkt)); lia. Qed.

Lemma bpf_match_safe h nk keys : hash infp = Some h → bpf_match h nk keys ≠ None.
Proof.
  intros Hh. unfold bpf_match. destruct (negb (nk =? n_keys h)); [done|].
  destruct (lookup_lt_is_Some_2 (table h) (N.to_nat (bpf_hash nk keys))) as [c ->]; [|done].
  rewrite (po_hash _ _ Hprog h Hh). unfold bpf_hash, NET_HASH_SIZE.
  assert (∀ x, x mod 256 < 256) as Hm by (intros x; by apply N.mod_lt). specialize (Hm (foldl (λ h k, u32 (h + k)) 0 (take (N.to_nat nk) keys))). lia.
Qed.

(** A step returns at most the length of the packet, or goes forward and stays in
    the program. *)
Definition step_ok (st : bpf_state) (r : bpf_step_result) : Prop :=
  match r with
  | Return c _ => c ≤ wirelen pkt
  | Next st' => (bs_pc st < bs_pc st' < Z.of_nat len)%Z ∧ length (bs_mem st') = N.to_nat BPF_MEMWORDS
  | Undefined => False
  end.

Lemma bpf_step_ok i p st :
  (1 ≤ i < len)%nat → insns (filter_words infp) !! i = Some p → bs_pc st = Z.of_nat i →
  length (bs_mem st) = N.to_nat BPF_MEMWORDS → step_ok st (bpf_step infp pkt p st).
Proof.
  intros Hi Hp Hpc Hmem. destruct (po_insns _ _ Hprog i p Hi Hp) as [Hsane [Hk|[Hok Hh]]].
  { apply N.eqb_eq in Hk. assert (bpf_step infp pkt p st = Return 0 None) as -> by (unfold bpf_step; by rewrite Hk). apply N.le_0_l. }
  destruct (insn_safe_intro _ _ _ Hok Hsane (insns_int _ _ _ (po_words _ _ Hprog) Hp)) as [Hja Hjmp Hm Hd Hs HsX].
  assert (BPF_CLASS (bi_code p) ≠ BPF_RET → (i + 1 < len)%nat) as Hnext.
  { intros Hc. destruct (decide (i = len - 1)%nat) as [->|]; [|lia]. by destruct Hc, (po_last _ _ Hprog p). }
  assert (∀ off A X mem, (0 ≤ off)%Z → (Z.of_nat i + 1 + off < Z.of_nat len)%Z → length mem = N.to_nat BPF_MEMWORDS →
    step_ok st (Next (BpfState (bs_pc st + 1 + off) A X mem))) as Hgo by (intros; split; cbn [bs_pc bs_mem]; [lia|done]).
  assert (BPF_CLASS (bi_code p) ≠ BPF_RET → ∀ A X mem, length mem = N.to_nat BPF_MEMWORDS →
    step_ok st (Next (BpfState (bs_pc st + 1 + 0) A X mem))) as Hseq by (intros Hc A X mem; specialize (Hnext Hc); apply Hgo; lia).
  assert (BPF_CLASS (bi_code p) ≠ BPF_RET → ∀ k size f, size ≤ 4 → (∀ v, length (bs_mem (f v)) = N.to_nat BPF_MEMWORDS ∧ bs_pc (f v) = bs_pc st + 1 + 0)%Z →
    step_ok st match load pkt k size with Loaded v => Next (f v) | NotInPacket => Return 0 None | BadAddress => Undefined end) as Hload.
  { intros Hc k size f Hsz Hf. pose proof (load_safe pkt k size Hmsg Hsz). destruct (load pkt k size) as [v| |]; [|apply N.le_0_l|done].
    destruct (Hf v) as [Hl Hpc']. destruct (f v). cbn in *. subst. by apply Hseq. }
  assert (bi_code p ∈ [ops [BPF_LD; BPF_MEM]; ops [BPF_LDX; BPF_MEM]; ops [BPF_ST]; ops [BPF_STX]] →
    ((0 <=? bi_k p) && (bi_k p <? Z.of_nat (length (bs_mem st))))%Z = true) as Hat by (intros Hc; specialize (Hm Hc); unfold BPF_MEMWORDS in *; lia).
  unfold bpf_step. apply switch_elim; [apply N.le_0_l|]. repeat (apply list.Forall_cons; split; [intros Hc; cbn [fst snd] in *; rewrite Hc in *|]).
  all: try (destruct (rcv_port infp =? 0); [apply N.le_0_l|apply clamp_le]).
  all: try (apply Hseq; done).
  all: try (apply Hload; done).
  all: try (rewrite Hat by in_list; apply Hseq; [done|]; by rewrite ?length_insert).
  all: try (apply Hgo; [lia|destruct (Hjmp eq_refl); [done|]; by case_match|done]).
  all: try (destruct HsX; in_list).
  all: try (rewrite (proj2 (N.ltb_lt _ _)) by (apply Hs; in_list); by apply Hseq).
  - destruct (Hh eq_refl) as [h Hhh]. rewrite Hhh. pose proof (bpf_match_safe h (bi_jt p) (bs_mem st) Hhh).
    destruct (bpf_match h (bi_jt p) (bs_mem st)) as [[e|]|]; [apply clamp_le|apply N.le_0_l|done].
  - destruct (Hja eq_refl). by apply Hgo.
  - destruct (bs_X st =? 0); [apply N.le_0_l|by apply Hseq].
  - rewrite (proj2 (N.eqb_neq _ _)) by by apply Hd. by apply Hseq.
  - constructor.
Qed.

(** The loop ends after at most as many turns as there are instructions left. *)
Lemma bpf_loop_ok fuel st :
  (1 ≤ bs_pc st)%Z → (Z.of_nat len ≤ bs_pc st + Z.of_nat fuel)%Z → length (bs_mem st) = N.to_nat BPF_MEMWORDS →
  ∃ c e, bpf_loop infp pkt fuel st = Returned c e ∧ c ≤ wirelen pkt.
Proof.
  revert st. induction fuel as [|fuel IH]; intros st Hpc Hf Hmem; cbn [bpf_loop].
  - destruct (Z.ltb_spec (4 * bs_pc st) (Z.of_nat (length (filter_words infp)))) as [Hlt|].
    + rewrite (po_len _ _ Hprog) in Hlt. lia.
    + exists 0, None. split; [done|apply N.le_0_l].
  - destruct (Z.ltb_spec (4 * bs_pc st) (Z.of_nat (length (filter_words infp)))) as [Hlt|].
    2: { exists 0, None. split; [done|apply N.le_0_l]. }
    rewrite (po_len _ _ Hprog) in Hlt. rewrite (proj2 (Z.leb_le _ _)) by lia.
    destruct (lookup_lt_is_Some_2 (insns (filter_words infp)) (Z.to_nat (bs_pc st))) as [p Hp].
    { rewrite insns_length, (po_len _ _ Hprog), Nat.mul_comm, Nat.div_mul by done. lia. }
    rewrite Hp. pose proof (bpf_step_ok (Z.to_nat (bs_pc st)) p st) as Hs. destruct (bpf_step infp pkt p st) as [st'|c e|].
    + destruct Hs as [Hpc' Hmem']; [lia|done|lia|done|]. apply IH; [lia|lia|done].
    + exists c, e. split; [done|]. apply Hs; [lia|done|lia|done].
    + destruct Hs; [lia|done|lia|done].
Qed.
End Run.

(** A filter that passes the validator. *)
Lemma bpf_validate_program infp r m :
  Forall (λ w, w < 2 ^ 16) (filter_words infp) → (length (filter_words infp) mod 4 = 0)%nat →
  bpf_validate (filter_words infp) = Some (r, m) → r ≠ 0 → forallb insn_sane (drop 1 (insns (filter_words infp))) = true →
  (m ≠ None → is_Some (hash infp)) → (∀ h, hash infp = Some h → length (table h) = N.to_nat NET_HASH_SIZE) →
  program_ok infp (length (filter_words infp) / 4).
Proof.
  intros Hw Hmod Hv Hr Hs Hm Hh. unfold bpf_validate in Hv. set (len := (length (filter_words infp) / 4)%nat) in *.
  destruct (validate_loop _ _ _ _ _) as [[m'|]|] eqn:Hl; cbn [mbind option_bind] in Hv; [|congruence|done].
  destruct (if (1 <=? len)%nat then _ else _) as [p|] eqn:Hp; cbn [mbind option_bind] in Hv; [|done].
  destruct (N.eqb_spec (BPF_CLASS (bi_code p)) BPF_RET) as [Hc|]; [|congruence]. injection Hv as _ ->.
  apply validate_loop_ok in Hl as [_ Hok]. split; [done| | |by destruct (1 <=? len)%nat; [intros q Hq; congruence|]|done].
  - pose proof (Nat.div_mod (length (filter_words infp)) 4). lia.
  - intros i q Hi Hq. split; [|by destruct (Hok i q Hi Hq) as [?|[? ?]]; auto].
    rewrite forallb_forall in Hs. apply Hs, list_elem_of_In, (list_elem_of_lookup_2 _ (i - 1)).
    rewrite lookup_drop. by replace (1 + (i - 1))%nat with i by lia.
Qed.

(** C35.  A BPF program that passes [bpf_validate], jumps forward and keeps its
    index-register accesses and shifts in range runs on any packet without
    reading or writing outside of the packet buffer, the scratch memory, the
    program and the hash table; it ends after at most as many steps as it has
    instructions, and asks for at most the length of the packet. *)
Theorem bpf_filter_safe infp pkt r m mem :
  Forall (λ w, w < 2 ^ 16) (filter_words infp) → (length (filter_words infp) mod 4 = 0)%nat →
  bpf_validate (filter_words infp) = Some (r, m) → r ≠ 0 → forallb insn_sane (drop 1 (insns (filter_words infp))) = true →
  (m ≠ None → is_Some (hash infp)) → (∀ h, hash infp = Some h → length (table h) = N.to_nat NET_HASH_SIZE) →
  msg_wf pkt → length mem = N.to_nat BPF_MEMWORDS →
  ∃ count ent, bpf_do_filter infp pkt (length (filter_words infp) / 4) mem = Returned count ent ∧ count ≤ wirelen pkt.
Proof.
  intros Hw Hmod Hv Hr Hs Hm Hh Hmsg Hmem. pose proof (bpf_validate_program _ _ _ Hw Hmod Hv Hr Hs Hm Hh) as Hprog.
  apply (bpf_loop_ok _ _ _ Hprog Hmsg); cbn [bs_pc bs_mem]; [done|lia|done].
Qed.

(** The words of an instruction. *)
Definition insn_words (code jt jf : N) (k : Z) : list N :=
  [code; jt + 256 * jf; of_int k mod 2 ^ 16; of_int k / 2 ^ 16].

(** A header of 14 bytes with the type of IP packets. *)
Definition demo_msg : net_rcv_msg :=
  RcvMsg (replicate 12 0 ++ [8; 0] ++ replicate 50 0) (replicate 4095 200) 1504 14.

(** Accepts 96 bytes of IP packets. *)
Definition demo_filter : net_rcv_port :=
  RcvPort 1 100 (insn_words 0x401 0 0 0 ++ insn_words (ops [BPF_LD; BPF_H; BPF_ABS]) 0 0 12 ++
    insn_words (ops [BPF_JMP; BPF_JEQ; BPF_K]) 0 1 0x800 ++ insn_words (ops [BPF_RET; BPF_K]) 0 0 96 ++
    insn_words (ops [BPF_RET; BPF_K]) 0 0 0) None.

Lemma demo_msg_wf : msg_wf demo_msg.
Proof. split; [vm_compute; reflexivity|vm_compute; reflexivity|done]. Qed.

Lemma bpf_filter_safe_witness :
  (∃ count ent, bpf_do_filter demo_filter demo_msg 5 (replicate 16 0) = Returned count ent ∧ count ≤ 1500) ∧
  bpf_do_filter demo_filter demo_msg 5 (replicate 16 0) = Returned 96 None.
Proof.
  split; [|vm_compute; reflexivity].
  refine (bpf_filter_safe demo_filter demo_msg 1 None (replicate 16 0) _ eq_refl _ _ _ _ _ demo_msg_wf eq_refl).
  - vm_compute. repeat constructor.
  - vm_compute. reflexivity.
  - done.
  - vm_compute. reflexivity.
  - done.
  - done.
Defined.

(** ** What the BPF validator misses *)

Definition loop_filter : net_rcv_port :=
  RcvPort 1 100 (insn_words 0x401 0 0 0 ++ insn_words (ops [BPF_JMP; BPF_JA]) 0 0 (-1) ++
    insn_words (ops [BPF_RET; BPF_K]) 0 0 0) None.
Definition stx_filter : net_rcv_port :=
  RcvPort 1 100 (insn_words 0x401 0 0 0 ++ insn_words (ops [BPF_STX]) 0 0 16 ++
    insn_words (ops [BPF_RET; BPF_K]) 0 0 0) None.

(** The filter that returns the first byte of the data. *)
Definition byte_filter : net_rcv_port :=
  RcvPort 1 100 (insn_words 0x401 0 0 0 ++ insn_words (ops [BPF_LD; BPF_B; BPF_ABS]) 0 0 14 ++
    insn_words (ops [BPF_RET; BPF_A]) 0 0 0) None.

Lemma loop_filter_runs pkt fuel mem : bpf_do_filter loop_filter pkt fuel mem = Running.
Proof. unfold bpf_do_filter. induction fuel as [|fuel IH]; [reflexivity|exact IH]. Qed.

(** ** The stack language *)

(** A verdict, or one of the faults that the check does not exclude. *)
Definition cspf_good {A} (r : R A) : Prop :=
  match r with inr _ | inl StackUnderflow | inl BadShift => True | inl _ => False end.

Lemma good_bind {A B} (c : R A) (k : A → R B) : cspf_good c → (∀ a, c = inr a → cspf_good (k a)) → cspf_good (c ≫= k).
Proof. destruct c as [e|a]; intros Hc Hk; [exact Hc|by apply Hk]. Qed.

Lemma stack_get_good stack sp : (0 ≤ sp)%Z → cspf_good (stack_get stack sp).
Proof. intros Hsp. unfold stack_get, stack_check. rewrite (proj2 (Z.ltb_ge _ _)) by done. by destruct (_ <? _)%Z. Qed.
Lemma stack_set_good stack sp v : (0 ≤ sp)%Z → cspf_good (stack_set stack sp v).
Proof. intros Hsp. unfold stack_set, stack_check. rewrite (proj2 (Z.ltb_ge _ _)) by done. by destruct (_ <? _)%Z. Qed.

Lemma short_at_good e data i : (2 * N.to_nat i + 1 < length data)%nat → cspf_good (short_at e data i).
Proof.
  intros Hi. unfold short_at. destruct (lookup_lt_is_Some_2 data (N.to_nat (2 * i))) as [lo ->]; [lia|].
  destruct (lookup_lt_is_Some_2 data (N.to_nat (2 * i + 1))) as [hi ->]; [lia|done].
Qed.

(** A packet that fits its buffer. *)
Record cspf_msg_wf (pkt : net_rcv_msg) : Prop := {
  cm_header : length (header pkt) = N.to_nat NET_HDW_HDR_MAX;
  cm_packet : packet_count pkt ≤ N.of_nat (length (packet pkt));
}.

Section CspfRun.
Context (words : list N) (pkt : net_rcv_msg) (Hmsg : cspf_msg_wf pkt).

Lemma data_word_good i : i < data_words pkt → cspf_good (short_at OutOfPacket (packet pkt) i).
Proof.
  intros Hi. apply short_at_good. pose proof (cm_packet _ Hmsg). unfold data_words in Hi.
  pose proof (N.Div0.mul_div_le (packet_count pkt) 2). lia.
Qed.
Lemma header_word_good i : i < NET_HDW_HDR_MAX / 2 → cspf_good (short_at OutOfHeader (header pkt) i).
Proof. intros Hi. apply short_at_good. rewrite (cm_header _ Hmsg). unfold NET_HDW_HDR_MAX in *. change (64 / 2) with 32 in Hi. lia. Qed.

(** The rest of a turn of the checking loop, after the operand. *)
Definition parse_rest (op : N) (ws : list N) (sp : Z) : bool :=
  if (sp <? 2)%Z then false
  else if op =? NETF_OP NETF_NOP then parse_loop ws sp
  else if (Z.of_N NET_MAX_FILTER - 2 <? sp)%Z then false
  else if bool_decide (op ∈ NETF_OP <$> [NETF_AND; NETF_OR; NETF_XOR; NETF_EQ; NETF_NEQ; NETF_LT; NETF_LE; NETF_GT; NETF_GE;
         NETF_COR; NETF_CAND; NETF_CNOR; NETF_CNAND; NETF_LSH; NETF_RSH; NETF_ADD; NETF_SUB])
  then parse_loop ws (sp + 1) else false.

Lemma parse_loop_cons w ws sp :
  parse_loop (w :: ws) sp =
  let arg := NETF_ARG w in
  if arg =? NETF_NOPUSH then parse_rest (NETF_OP w) ws sp
  else if arg =? NETF_PUSHZERO then parse_rest (NETF_OP w) ws (sp - 1)
  else if arg =? NETF_PUSHLIT then match ws with [] => false | _ :: ws => parse_rest (NETF_OP w) ws (sp - 1) end
  else if (arg =? NETF_PUSHIND) || (arg =? NETF_PUSHHDRIND) then parse_rest (NETF_OP w) ws sp
  else if NETF_PUSHSTK <=? arg then
    if (Z.of_N NET_FILTER_STACK_DEPTH <? Z.of_N (arg - NETF_PUSHSTK) + sp)%Z then false else parse_rest (NETF_OP w) ws (sp - 1)
  else if (NETF_PUSHHDR <=? arg) && (NET_HDW_HDR_MAX / 2 <=? arg - NETF_PUSHHDR) then false
  else parse_rest (NETF_OP w) ws (sp - 1).
Proof. reflexivity. Qed.

(** After an operand: the check passes from there on, with a stack pointer below
    that of the interpreter. *)
Definition operand_ok (w : N) (fp : nat) (r : R (option (N * nat * Z))) : Prop :=
  cspf_good r ∧ ∀ arg fp1 sp1, r = inr (Some (arg, fp1, sp1)) →
    (fp < fp1)%nat ∧ ∃ spc, parse_rest (NETF_OP w) (drop fp1 words) spc = true ∧ (spc + 1 ≤ sp1)%Z.

Lemma operand_ok_bind w fp (c : R N) (k : N → R (option (N * nat * Z))) :
  cspf_good c → (∀ a, operand_ok w fp (k a)) → operand_ok w fp (c ≫= k).
Proof.
  intros Hc Hk. split; [by apply good_bind; [|intros a _; apply Hk]|]. destruct c as [e|a]; [done|apply Hk].
Qed.

Lemma operand_ok_ret w fp arg fp1 sp1 spc :
  (fp < fp1)%nat → parse_rest (NETF_OP w) (drop fp1 words) spc = true → (spc + 1 ≤ sp1)%Z → operand_ok w fp (mret (Some (arg, fp1, sp1))).
Proof. intros Hfp Hp Hsp. split; [done|]. intros ? ? ? [= <- <- <-]. eauto. Qed.

Lemma cspf_operand_ok w fp sp sp' stack :
  words !! fp = Some w → parse_loop (drop fp words) sp = true → (2 ≤ sp ≤ sp')%Z →
  operand_ok w fp (cspf_operand words pkt (NETF_ARG w) (S fp) sp' stack).
Proof.
  intros Hw. rewrite (drop_S _ w) by done. rewrite parse_loop_cons. intros Hp Hsp. cbv zeta in Hp. unfold cspf_operand.
  assert (∀ arg sp1 spc, parse_rest (NETF_OP w) (drop (S fp) words) spc = true → (spc + 1 ≤ sp1)%Z →
    operand_ok w fp (mret (Some (arg, S fp, sp1)))) as Hret by (intros; eapply operand_ok_ret; [lia|done|done]).
  assert (operand_ok w fp (mret None)) as Hfalse by done.
  destruct (NETF_ARG w =? NETF_NOPUSH).
  { apply operand_ok_bind; [apply stack_get_good; lia|]. intros v. eapply Hret; [done|lia]. }
  destruct (NETF_ARG w =? NETF_PUSHZERO); [eapply Hret; [done|lia]|].
  destruct (NETF_ARG w =? NETF_PUSHLIT).
  { destruct (words !! S fp) as [v|] eqn:Hv; [|apply lookup_ge_None in Hv; by rewrite drop_ge in Hp].
    rewrite (drop_S _ v) in Hp by done. eapply operand_ok_ret; [|done|]; lia. }
  destruct (NETF_ARG w =? NETF_PUSHIND); cbn [orb] in Hp.
  { apply operand_ok_bind; [apply stack_get_good; lia|]. intros v. destruct (N.leb_spec (data_words pkt) v); [done|].
    apply operand_ok_bind; [by apply data_word_good|]. intros u. eapply Hret; [done|lia]. }
  destruct (NETF_ARG w =? NETF_PUSHHDRIND).
  { apply operand_ok_bind; [apply stack_get_good; lia|]. intros v. destruct (N.leb_spec (NET_HDW_HDR_MAX / 2) v); [done|].
    apply operand_ok_bind; [by apply header_word_good|]. intros u. eapply Hret; [done|lia]. }
  destruct (NETF_PUSHSTK <=? NETF_ARG w).
  { destruct (_ <? _)%Z in Hp; [done|]. apply operand_ok_bind; [apply stack_get_good; lia|]. intros v. eapply Hret; [done|lia]. }
  destruct (N.leb_spec NETF_PUSHHDR (NETF_ARG w)); cbn [andb] in Hp.
  { destruct (N.leb_spec (NET_HDW_HDR_MAX / 2) (NETF_ARG w - NETF_PUSHHDR)); [done|].
    apply operand_ok_bind; [by apply header_word_good|]. intros u. eapply Hret; [done|lia]. }
  destruct (N.leb_spec (data_words pkt) (u32_sub (NETF_ARG w) NETF_PUSHWORD)); [done|].
  apply operand_ok_bind; [by apply data_word_good|]. intros u. eapply Hret; [done|lia].
Qed.

(** After an operator. *)
Lemma cspf_operator_ok op arg ws spc sp stack :
  parse_rest op ws spc = true → (spc + 1 ≤ sp)%Z →
  cspf_good (cspf_operator op arg sp stack) ∧
  ∀ sp1 stack1, cspf_operator op arg sp stack = inr (inr (sp1, stack1)) → ∃ spc1, parse_loop ws spc1 = true ∧ (2 ≤ spc1 ≤ sp1)%Z.
Proof.
  unfold parse_rest. destruct (Z.ltb_spec spc 2); [done|]. intros Hp Hsp. unfold cspf_operator.
  destruct (op =? NETF_OP NETF_NOP).
  { split; [apply good_bind; [apply stack_set_good; lia|done]|]. intros sp1 stack1.
    destruct (stack_set stack (sp - 1) arg); cbn; [done|]. intros [= <- _]. exists spc. split; [done|lia]. }
  destruct (_ <? spc)%Z; [done|]. case_bool_decide; [|done]. clear H0.
  set (post := λ r : R (bool + Z * list N), cspf_good r ∧
    ∀ sp1 stack1, r = inr (inr (sp1, stack1)) → ∃ spc1, parse_loop ws spc1 = true ∧ (2 ≤ spc1 ≤ sp1)%Z).
  assert (∀ f : N → N → R N, (∀ v, cspf_good (f v arg)) →
    post (v ← stack_get stack sp; w ← f v arg; s ← stack_set stack sp w; mret (inr (sp, s)))) as Hbin.
  { intros f Hf. split.
    - apply good_bind; [apply stack_get_good; lia|]. intros v _. apply good_bind; [apply Hf|]. intros w _.
      apply good_bind; [apply stack_set_good; lia|done].
    - intros sp1 stack1. destruct (stack_get stack sp) as [|v]; [done|]. cbn. destruct (f v arg) as [|w]; [done|]. cbn.
      destruct (stack_set stack sp w); [done|]. intros [= <- _]. exists (spc + 1)%Z. split; [done|lia]. }
  assert (∀ (f : N → N → bool) b, post (v ← stack_get stack sp; mret (if f v arg then inl b else inr (sp + 1, stack)%Z))) as Hcond.
  { intros f b. split; [apply good_bind; [apply stack_get_good; lia|done]|]. intros sp1 stack1.
    destruct (stack_get stack sp) as [|v]; [done|]. cbn. destruct (f v arg); [done|]. intros [= <- _]. exists (spc + 1)%Z. split; [done|lia]. }
  match goal with |- cspf_good ?r ∧ _ => change (post r) end.
  assert (∀ f : N → N → N, post (v ← stack_get stack sp; w ← (if arg <? 32 then mret (f v arg) else inl BadShift);
    s ← stack_set stack sp w; mret (inr (sp, s)))) as Hshift.
  { intros f. apply (Hbin (λ v a, if a <? 32 then mret (f v a) else inl BadShift)). intros v. by destruct (arg <? 32). }
  assert (∀ f : N → N → N, post (v ← stack_get stack sp; w ← mret (f v arg); s ← stack_set stack sp w; mret (inr (sp, s)))) as Hpure
    by (intros f; by apply (Hbin (λ v a, mret (f v a)))).
  repeat match goal with |- post (if ?b then _ else _) => destruct b end.
  - exact (Hpure N.land).
  - exact (Hpure N.lor).
  - exact (Hpure N.lxor).
  - exact (Hpure (λ v a, if v =? a then 1 else 0)).
  - exact (Hpure (λ v a, if negb (v =? a) then 1 else 0)).
  - exact (Hpure (λ v a, if v <? a then 1 else 0)).
  - exact (Hpure (λ v a, if v <=? a then 1 else 0)).
  - exact (Hpure (λ v a, if a <? v then 1 else 0)).
  - exact (Hpure (λ v a, if a <=? v then 1 else 0)).
  - exact (Hcond N.eqb true).
  - exact (Hcond (λ v a, negb (v =? a)) false).
  - exact (Hcond N.eqb false).
  - exact (Hcond (λ v a, negb (v =? a)) true).
  - exact (Hshift (λ v a, u32 (N.shiftl v a))).
  - exact (Hshift (λ v a, of_int (Z.shiftr (to_int v) (Z.of_N a)))).
  - exact (Hpure (λ v a, u32 (v + a))).
  - exact (Hpure u32_sub).
  - split; [done|]. intros sp1 stack1 [= <- _]. exists (spc + 1)%Z. split; [done|lia].
Qed.

Lemma cspf_loop_good fuel fp sp sp' stack :
  parse_loop (drop fp words) sp = true → (2 ≤ sp ≤ sp')%Z → (length words ≤ fp + fuel)%nat →
  cspf_good (cspf_loop words pkt fuel fp sp' stack).
Proof.
  revert fp sp sp' stack. induction fuel as [|fuel IH]; intros fp sp sp' stack Hp Hsp Hf; cbn [cspf_loop].
  all: destruct (words !! fp) as [w|] eqn:Hw; [|apply good_bind; [apply stack_get_good; lia|done]].
  { apply lookup_lt_Some in Hw. lia. }
  destruct (cspf_operand_ok w fp sp sp' stack Hw Hp Hsp) as [Hg Hnext]. apply good_bind; [done|]. intros [[[arg fp1] sp1]|] Ho; [|done].
  destruct (Hnext _ _ _ Ho) as (Hfp & spc & Hrest & Hspc).
  destruct (cspf_operator_ok (NETF_OP w) arg _ _ _ stack Hrest Hspc) as [Hg' Hnext']. apply good_bind; [done|].
  intros [b|[sp2 stack2]] Ho'; [done|]. destruct (Hnext' _ _ Ho') as (spc2 & Hp2 & Hsp2). by eapply IH; [done|done|lia].
Qed.
End CspfRun.

(** C36.  A filter of the stack language that passes [parse_net_filter] ends with
    a verdict, or by popping from an empty stack or shifting by 32 bits or more:
    it does not overflow its stack, read literals past its end, or read outside
    of the packet and the header. *)
Theorem net_filter_safe words pkt stack :
  parse_net_filter words = true → cspf_msg_wf pkt → cspf_good (net_do_filter words pkt stack).
Proof.
  intros Hp Hmsg. unfold net_do_filter. apply good_bind; [by apply stack_set_good|]. intros s _.
  apply (cspf_loop_good words pkt Hmsg _ _ (Z.of_N NET_FILTER_STACK_DEPTH)); [done|done|lia].
Qed.

(** A filter on the type word of the packet header. *)
Definition demo_words : list N := [1; NETF_PUSHWORD + 1; N.lor NETF_PUSHLIT NETF_EQ; 0x0008].

Lemma net_filter_safe_witness :
  cspf_good (net_do_filter demo_words demo_msg (replicate 33 0)) ∧ net_do_filter demo_words demo_msg (replicate 33 0) = inr false.
Proof.
  split; [|vm_compute; reflexivity]. apply (net_filter_safe demo_words demo_msg); [vm_compute; reflexivity|].
  split; [vm_compute; reflexivity|]. vm_compute. discriminate.
Defined.

(** C37.  What the checks of filters let through.  [bpf_validate] accepts a program
    that jumps backward and never ends, and one that stores outside of the scratch
    memory.  A byte of a packet is loaded as a signed [char]: the filter that
    returns the byte 200 as the length to keep gets the whole packet.
    [parse_net_filter] compares the stack pointer with the size of the filter
    instead of the depth of the stack, and does not count what the short-circuit
    operators pop: it accepts filters that pop from an empty stack. *)
Theorem packet_filters_miss pkt mem v stack :
  let underflow := [1; N.lor NETF_NOPUSH NETF_EQ] in
  let short_circuit := [1; N.lor NETF_PUSHZERO NETF_COR] in
  (bpf_validate (filter_words loop_filter) = Some (1, None) ∧ ∀ fuel, bpf_do_filter loop_filter pkt fuel mem = Running) ∧
  (bpf_validate (filter_words stx_filter) = Some (1, None) ∧ bpf_do_filter stx_filter pkt 2 (replicate 16 v) = Crashed) ∧
  (packet demo_msg !! 4%nat = Some 200 ∧ wirelen demo_msg = 1500 ∧ bpf_do_filter byte_filter demo_msg 3 mem = Returned 1500 None) ∧
  (parse_net_filter underflow = true ∧ net_do_filter underflow pkt stack = inl StackUnderflow) ∧
  (parse_net_filter short_circuit = true ∧ net_do_filter short_circuit pkt (replicate 33 0) = inl StackUnderflow).
Proof.
  intros. split; [split; [vm_compute; reflexivity|intros fuel; apply loop_filter_runs]|]. split; [split; vm_compute; reflexivity|].
  split; [split_and!; vm_compute; reflexivity|]. split; [split; [vm_compute; reflexivity|by unfold net_do_filter]|]. split; vm_compute; reflexivity.
Qed.
