(* ===== verification/RwLock.v ===== *)
(** The readers/writer locks of kern/lock.c, as a system of threads.  A section
    of code that runs under the interlock of the lock is one step; between two
    sections (while a thread spins or sleeps) any other thread may run. *)

From S2P Require Import Prelude.

Open Scope N_scope.

(** ** The lock *)

(** [struct lock]; [l_thread] is [None] for [LOCK_THREAD_INVALID]. *)
Record lock := Lock {
  l_thread : option N;
  read_count : N;
  want_upgrade : bool;
  want_write : bool;
  waiting : bool;
  can_sleep : bool;
  recursion_depth : N;
}.

Definition set_thread v l := Lock v (read_count l) (want_upgrade l) (want_write l) (waiting l) (can_sleep l) (recursion_depth l).
Definition set_read_count v l := Lock (l_thread l) v (want_upgrade l) (want_write l) (waiting l) (can_sleep l) (recursion_depth l).
Definition set_want_upgrade v l := Lock (l_thread l) (read_count l) v (want_write l) (waiting l) (can_sleep l) (recursion_depth l).
Definition set_want_write v l := Lock (l_thread l) (read_count l) (want_upgrade l) v (waiting l) (can_sleep l) (recursion_depth l).
Definition set_waiting v l := Lock (l_thread l) (read_count l) (want_upgrade l) (want_write l) v (can_sleep l) (recursion_depth l).
Definition set_can_sleep v l := Lock (l_thread l) (read_count l) (want_upgrade l) (want_write l) (waiting l) v (recursion_depth l).
Definition set_recursion v l := Lock (l_thread l) (read_count l) (want_upgrade l) (want_write l) (waiting l) (can_sleep l) v.

(** [read_count] has 16 bits, [recursion_depth] 12. *)
Definition more_readers l := set_read_count (wrap 16 (read_count l + 1)) l.
Definition fewer_readers l := set_read_count (wrap 16 (read_count l + (2 ^ 16 - 1))) l.
Definition deeper l := set_recursion (wrap 12 (recursion_depth l + 1)) l.
Definition shallower l := set_recursion (wrap 12 (recursion_depth l + (2 ^ 12 - 1))) l.

(** [lock_init]. *)
Definition lock_init (sleepable : bool) : lock := Lock None 0 false false false sleepable 0.

(** ** Threads *)

(** The loops in which a thread waits. *)
Inductive wait_loop :=
  | ForWrite      (* lock_write: another writer *)
  | ForReaders    (* lock_write: readers and upgrades *)
  | ForRead       (* lock_read *)
  | ForUpgrade    (* lock_read_to_write *)
  | ForTryUpgrade (* lock_try_read_to_write *).

(** Where a thread is: outside of the lock package, about to test the condition
    of a loop, at the end of a spin, or asleep. *)
Inductive place :=
  | Outside
  | AtTest (w : wait_loop)
  | Spinning (w : wait_loop)
  | Asleep (w : wait_loop).

(** What a thread holds: read locks, and the lock for writing, which it got as a
    writer or by an upgrade. *)
Inductive exclusive := NotHeld | AsWriter | AsUpgrade.
Record held := Holds {
  h_reads : N;
  h_excl : exclusive;
}.

Record thread := Thread {
  th_place : place;
  th_holds : held;
}.

#[export] Instance wait_loop_eq : EqDecision wait_loop.
Proof. solve_decision. Defined.
#[export] Instance place_eq : EqDecision place.
Proof. solve_decision. Defined.
#[export] Instance exclusive_eq : EqDecision exclusive.
Proof. solve_decision. Defined.

(** ** Sections under the interlock *)

(** The lock and the thread after a section, whether [thread_wakeup] was called,
    and the value returned, by a routine that returns one. *)
Record section := Section_ {
  s_lock : lock;
  s_thread : thread;
  s_wakeup : bool;
  s_result : option bool;
}.

Section Code.
(** [lock_wait_time > 0]: threads spin before they sleep. *)
Context (spin : bool).

Definition returns l h : section := Section_ l (Thread Outside h) false None.
Definition value (b : bool) (r : section) : section := Section_ (s_lock r) (s_thread r) (s_wakeup r) (Some b).

(** The condition of a loop. *)
Definition blocked (w : wait_loop) l : bool :=
  match w with
  | ForWrite => want_write l
  | ForReaders => negb (read_count l =? 0) || want_upgrade l
  | ForRead => want_write l || want_upgrade l
  | ForUpgrade | ForTryUpgrade => negb (read_count l =? 0)
  end.

(** [l->waiting = TRUE; thread_sleep(...)]. *)
Definition sleep (w : wait_loop) l h : section := Section_ (set_waiting true l) (Thread (Asleep w) h) false None.

(** What follows the loops. *)
Definition got_write l h : section := returns l (Holds (h_reads h) AsWriter).
Definition got_read l h : section := returns (more_readers l) (Holds (h_reads h + 1) (h_excl h)).
Definition got_upgrade l h : section := returns l (Holds (h_reads h) AsUpgrade).

(** The body of a loop, when its condition holds; without a spin a thread that
    cannot sleep goes on testing. *)
Definition wait (w : wait_loop) l h : section :=
  match w with
  | ForTryUpgrade => sleep w l h
  | _ =>
      if spin then Section_ l (Thread (Spinning w) h) false None
      else if can_sleep l then sleep w l h else Section_ l (Thread (Spinning w) h) false None
  end.

(** A loop, from the test of its condition. *)
Definition drain l h : section := if blocked ForReaders l then wait ForReaders l h else got_write l h.
Definition loop (w : wait_loop) l h : section :=
  match w with
  | ForReaders => drain l h
  | _ =>
      if blocked w l then wait w l h
      else match w with
           | ForWrite => drain (set_want_write true l) h
           | ForRead => got_read l h
           | ForTryUpgrade => value true (got_upgrade l h)
           | _ => value false (got_upgrade l h)
           end
  end.

(** The end of a spin. *)
Definition end_spin (w : wait_loop) l h : section :=
  if can_sleep l && blocked w l then sleep w l h else loop w l h.

(** ** The routines, for the thread [t] *)

Definition lock_write (t : N) l h : section :=
  if bool_decide (l_thread l = Some t) then returns (deeper l) h else loop ForWrite l h.

Definition lock_done l h : section :=
  let '(l, h) :=
    (if negb (read_count l =? 0) then (fewer_readers l, Holds (N.pred (h_reads h)) (h_excl h))
     else if negb (recursion_depth l =? 0) then (shallower l, h)
     else if want_upgrade l then (set_want_upgrade false l, Holds (h_reads h) NotHeld)
     else (set_want_write false l, Holds (h_reads h) NotHeld)) in
  if waiting l && (read_count l =? 0) then Section_ (set_waiting false l) (Thread Outside h) true None else returns l h.

Definition lock_read (t : N) l h : section :=
  if bool_decide (l_thread l = Some t) then got_read l h else loop ForRead l h.

(** On failure the read lock is given up. *)
Definition lock_read_to_write (t : N) l h : section :=
  let l := fewer_readers l in
  let h := Holds (N.pred (h_reads h)) (h_excl h) in
  if bool_decide (l_thread l = Some t) then value false (returns (deeper l) h)
  else if want_upgrade l then
    value true (if waiting l && (read_count l =? 0) then Section_ (set_waiting false l) (Thread Outside h) true None else returns l h)
  else loop ForUpgrade (set_want_upgrade true l) h.

Definition lock_write_to_read l h : section :=
  let l := more_readers l in
  let h := Holds (h_reads h + 1) (h_excl h) in
  let '(l, h) :=
    (if negb (recursion_depth l =? 0) then (shallower l, h)
     else if want_upgrade l then (set_want_upgrade false l, Holds (h_reads h) NotHeld)
     else (set_want_write false l, Holds (h_reads h) NotHeld)) in
  if waiting l then Section_ (set_waiting false l) (Thread Outside h) true None else returns l h.

Definition lock_try_write (t : N) l h : section :=
  if bool_decide (l_thread l = Some t) then value true (returns (deeper l) h)
  else if want_write l || want_upgrade l || negb (read_count l =? 0) then value false (returns l h)
  else value true (got_write (set_want_write true l) h).

Definition lock_try_read (t : N) l h : section :=
  if bool_decide (l_thread l = Some t) then value true (got_read l h)
  else if want_write l || want_upgrade l then value false (returns l h)
  else value true (got_read l h).

Definition lock_try_read_to_write (t : N) l h : section :=
  let h' := Holds (N.pred (h_reads h)) (h_excl h) in
  if bool_decide (l_thread l = Some t) then value true (returns (deeper (fewer_readers l)) h')
  else if want_upgrade l then value false (returns l h)
  else loop ForTryUpgrade (fewer_readers (set_want_upgrade true l)) h'.

(** [None]: a panic. *)
Definition lock_set_recursive (t : N) l h : option section :=
  if negb (want_write l) then None else Some (returns (set_thread (Some t) l) h).

Definition lock_clear_recursive (t : N) l h : option section :=
  if negb (bool_decide (l_thread l = Some t)) then None
  else Some (returns (if recursion_depth l =? 0 then set_thread None l else l) h).

Definition lock_sleepable (b : bool) l h : section := returns (set_can_sleep b l) h.
End Code.

(** ** The system *)

Inductive lock_call :=
  | LockWrite
  | LockRead
  | LockDone
  | LockReadToWrite
  | LockWriteToRead
  | LockTryWrite
  | LockTryRead
  | LockTryReadToWrite
  | LockSetRecursive
  | LockClearRecursive
  | LockSleepable (b : bool).

Definition call_code (spin : bool) (c : lock_call) (t : N) l h : option section :=
  match c with
  | LockWrite => Some (lock_write spin t l h)
  | LockRead => Some (lock_read spin t l h)
  | LockDone => Some (lock_done l h)
  | LockReadToWrite => Some (lock_read_to_write spin t l h)
  | LockWriteToRead => Some (lock_write_to_read l h)
  | LockTryWrite => Some (lock_try_write t l h)
  | LockTryRead => Some (lock_try_read t l h)
  | LockTryReadToWrite => Some (lock_try_read_to_write spin t l h)
  | LockSetRecursive => lock_set_recursive t l h
  | LockClearRecursive => lock_clear_recursive t l h
  | LockSleepable b => Some (lock_sleepable b l h)
  end.

(** How the callers use a lock.  A thread asks for the lock when it holds
    nothing, or recursively; it gives up what it holds, and allows recursion only
    while it holds the lock for writing; the counters have room. *)
Definition may_call (c : lock_call) (t : N) l h : bool :=
  let owner := bool_decide (l_thread l = Some t) in
  let nothing := (h_reads h =? 0) && bool_decide (h_excl h = NotHeld) in
  let room := read_count l <? 2 ^ 16 - 1 in
  let deep := recursion_depth l <? 2 ^ 12 - 1 in
  match c with
  | LockWrite | LockTryWrite => (owner && deep) || (negb owner && nothing)
  | LockRead | LockTryRead => (owner || nothing) && room
  | LockDone =>
      negb (h_reads h =? 0) || bool_decide (h_excl h ≠ NotHeld) && (negb (recursion_depth l =? 0) || negb owner)
  | LockReadToWrite | LockTryReadToWrite =>
      if owner then negb (h_reads h =? 0) && deep else (h_reads h =? 1) && bool_decide (h_excl h = NotHeld)
  | LockWriteToRead => bool_decide (h_excl h ≠ NotHeld) && (negb (recursion_depth l =? 0) || negb owner) && room
  | LockSetRecursive => bool_decide (h_excl h = AsWriter)
  | LockClearRecursive => owner
  | LockSleepable _ => true
  end.

Record lock_sys := LockSys {
  sys_lock : lock;
  sys_threads : gmap N thread;
}.

(** [thread_wakeup(l)]: all sleepers are to test their conditions again. *)
Definition wake (x : thread) : thread :=
  match th_place x with Asleep w => Thread (AtTest w) (th_holds x) | _ => x end.

Definition finish (t : N) (r : section) (T : gmap N thread) : lock_sys :=
  LockSys (s_lock r) (<[t := s_thread r]> (if s_wakeup r then wake <$> T else T)).

(** The counter of readers has room when a reader goes on. *)
Definition may_go (w : wait_loop) l : bool :=
  match w with ForRead => read_count l <? 2 ^ 16 - 1 | _ => true end.

(** A thread calls a routine, or goes on in one. *)
Inductive lock_step (spin : bool) : lock_sys → lock_sys → Prop :=
  | step_call l T t h c r :
      T !! t = Some (Thread Outside h) → may_call c t l h = true → call_code spin c t l h = Some r →
      lock_step spin (LockSys l T) (finish t r T)
  | step_test l T t w h :
      T !! t = Some (Thread (AtTest w) h) → may_go w l = true → lock_step spin (LockSys l T) (finish t (loop spin w l h) T)
  | step_spin l T t w h :
      T !! t = Some (Thread (Spinning w) h) → may_go w l = true → lock_step spin (LockSys l T) (finish t (end_spin spin w l h) T).

Inductive lock_steps (spin : bool) : lock_sys → lock_sys → Prop :=
  | steps_refl s : lock_steps spin s s
  | steps_step s s' s'' : lock_steps spin s s' → lock_step spin s' s'' → lock_steps spin s s''.

(** A new lock, and threads that do not hold it. *)
Definition lock_start (sleepable : bool) (threads : gset N) : lock_sys :=
  LockSys (lock_init sleepable) (gset_to_gmap (Thread Outside (Holds 0 NotHeld)) threads).
