(* ===== verification/RwLockSpec.v ===== *)
(** Mutual exclusion and the absence of lost wakeups for the locks of
    kern/lock.c. *)

From S2P Require Import Prelude RwLock.

Open Scope N_scope.

(** ** The invariant *)

Definition in_loop (x : thread) (w : wait_loop) : bool :=
  match th_place x with Outside => false | AtTest v | Spinning v | Asleep v => bool_decide (v = w) end.
Definition excl_is (x : thread) (e : exclusive) : bool := bool_decide (h_excl (th_holds x) = e).

(** The thread behind [want_write], and the one behind [want_upgrade]. *)
Definition writing (x : thread) : bool := excl_is x AsWriter || in_loop x ForReaders.
Definition upgrading (x : thread) : bool := excl_is x AsUpgrade || in_loop x ForUpgrade || in_loop x ForTryUpgrade.
Definition reads (x : thread) : N := h_reads (th_holds x).
Definition exclusive_holder (x : thread) : Prop := h_excl (th_holds x) ≠ NotHeld.

(** The flags and counters are those of the threads. *)
Record LockCounts (l : lock) (T : gmap N thread) : Prop := {
  li_reads : read_count l = total reads T;
  li_bound : read_count l < 2 ^ 16 ∧ recursion_depth l < 2 ^ 12;
  li_write : Nb (want_write l) = count writing T;
  li_upgrade : Nb (want_upgrade l) = count upgrading T;
  li_excl t x : T !! t = Some x → exclusive_holder x →
    read_count l = reads x ∧ (h_excl (th_holds x) = AsWriter → want_upgrade l = false);
  li_wait t x : T !! t = Some x → th_place x ≠ Outside → th_holds x = Holds 0 NotHeld;
  li_owner t : l_thread l = Some t → ∃ x, T !! t = Some x ∧ h_excl (th_holds x) = AsWriter;
  li_depth : recursion_depth l ≠ 0 → is_Some (l_thread l);
}.

(** A sleeping thread waits for a condition that still holds, and will be woken. *)
Record LockInv (l : lock) (T : gmap N thread) : Prop := {
  li_counts : LockCounts l T;
  li_sleep t w h : T !! t = Some (Thread (Asleep w) h) → waiting l = true ∧ blocked w l = true;
}.

Lemma Nb_le b : Nb b ≤ 1.
Proof. by destruct b. Qed.

Section Inv.
Context (l : lock) (T : gmap N thread) (Hinv : LockCounts l T).

Lemma writing_unique t t' x x' :
  T !! t = Some x → T !! t' = Some x' → writing x = true → writing x' = true → t = t'.
Proof.
  intros Hx Hx' Hw Hw'. destruct (decide (t = t')) as [|Hne]; [done|].
  pose proof (count_two writing T _ _ _ _ Hx Hx' Hne Hw Hw'). pose proof (li_write _ _ Hinv). pose proof (Nb_le (want_write l)). lia.
Qed.

Lemma upgrading_unique t t' x x' :
  T !! t = Some x → T !! t' = Some x' → upgrading x = true → upgrading x' = true → t = t'.
Proof.
  intros Hx Hx' Hw Hw'. destruct (decide (t = t')) as [|Hne]; [done|].
  pose proof (count_two upgrading T _ _ _ _ Hx Hx' Hne Hw Hw'). pose proof (li_upgrade _ _ Hinv). pose proof (Nb_le (want_upgrade l)). lia.
Qed.

Lemma writing_wanted t x : T !! t = Some x → writing x = true → want_write l = true.
Proof.
  intros Hx Hw. pose proof (count_pos _ _ _ _ Hx Hw). pose proof (li_write _ _ Hinv). destruct (want_write l); [done|]. cbn in *. lia.
Qed.
Lemma upgrading_wanted t x : T !! t = Some x → upgrading x = true → want_upgrade l = true.
Proof.
  intros Hx Hw. pose proof (count_pos _ _ _ _ Hx Hw). pose proof (li_upgrade _ _ Hinv). destruct (want_upgrade l); [done|]. cbn in *. lia.
Qed.

(** The holder of the lock for writing is alone. *)
Lemma excl_alone t t' x x' :
  T !! t = Some x → T !! t' = Some x' → t ≠ t' → exclusive_holder x → th_holds x' = Holds 0 NotHeld.
Proof.
  intros Hx Hx' Hne He. destruct (li_excl _ _ Hinv t x Hx He) as [Hr Hw].
  assert (reads x' = 0) as H0.
  { pose proof (total_two reads T _ _ _ _ Hx Hx' Hne). pose proof (li_reads _ _ Hinv). lia. }
  unfold reads in H0. destruct (th_holds x') as [rd ex] eqn:Hh. cbn in H0. subst rd. f_equal.
  unfold exclusive_holder in He. destruct ex; [done| |].
  - assert (writing x' = true) as Hw' by (unfold writing, excl_is; by rewrite Hh).
    destruct (h_excl (th_holds x)) eqn:Ex; [done| |].
    + destruct Hne. apply (writing_unique _ _ x x'); [done|done| |done]. unfold writing, excl_is. by rewrite Ex.
    + assert (upgrading x = true) as Hu by (unfold upgrading, excl_is; by rewrite Ex). apply (upgrading_wanted _ _ Hx) in Hu.
      destruct (li_excl _ _ Hinv t' x' Hx') as [_ Hw2]; [unfold exclusive_holder; by rewrite Hh|]. rewrite Hh in Hw2. rewrite Hw2 in Hu; done.
  - assert (upgrading x' = true) as Hu' by (unfold upgrading, excl_is; by rewrite Hh).
    destruct (h_excl (th_holds x)) eqn:Ex; [done| |].
    + apply (upgrading_wanted _ _ Hx') in Hu'. rewrite Hw in Hu'; done.
    + destruct Hne. apply (upgrading_unique _ _ x x'); [done|done| |done]. unfold upgrading, excl_is. by rewrite Ex.
Qed.
End Inv.

(** ** A thread takes a step *)

Lemma wake_writing x : writing (wake x) = writing x.
Proof. by destruct x as [[]]. Qed.
Lemma wake_upgrading x : upgrading (wake x) = upgrading x.
Proof. by destruct x as [[]]. Qed.
Lemma wake_holds x : th_holds (wake x) = th_holds x.
Proof. by destruct x as [[]]. Qed.

Lemma counts_wake l T : LockCounts l T → LockCounts l (wake <$> T).
Proof.
  intros [Hr Hb Hw Hu He Hwt Ho Hd]. assert (∀ t y, (wake <$> T) !! t = Some y → ∃ x, y = wake x ∧ T !! t = Some x) as Hin.
  { intros t y. rewrite lookup_fmap. by intros (x & -> & Hx)%fmap_Some; eauto. }
  split; try done.
  - rewrite Hr. symmetry. apply total_fmap. intros x. unfold reads. by rewrite wake_holds.
  - rewrite Hw. symmetry. apply count_fmap, wake_writing.
  - rewrite Hu. symmetry. apply count_fmap, wake_upgrading.
  - intros t y (x & -> & Hx)%Hin. unfold exclusive_holder, reads. rewrite wake_holds. by apply (He t).
  - intros t y (x & -> & Hx)%Hin. rewrite wake_holds. intros Hp. apply (Hwt t x Hx). by destruct x as [[]].
  - intros t (x & Hx & Hxe)%Ho. exists (wake x). by rewrite lookup_fmap, Hx, wake_holds.
Qed.

(** What a step of the thread [t], from [x] to [y], must keep. *)
Record step_keeps (l l' : lock) (T : gmap N thread) (t : N) (x y : thread) : Prop := {
  sk_reads : read_count l' + reads x = read_count l + reads y;
  sk_bound : read_count l' < 2 ^ 16 ∧ recursion_depth l' < 2 ^ 12;
  sk_write : Nb (want_write l') + Nb (writing x) = Nb (want_write l) + Nb (writing y);
  sk_upgrade : Nb (want_upgrade l') + Nb (upgrading x) = Nb (want_upgrade l) + Nb (upgrading y);
  sk_excl : exclusive_holder y → read_count l' = reads y ∧ (h_excl (th_holds y) = AsWriter → want_upgrade l' = false);
  sk_others t' x' : t' ≠ t → T !! t' = Some x' → exclusive_holder x' →
    read_count l' = reads x' ∧ (h_excl (th_holds x') = AsWriter → want_upgrade l' = false);
  sk_wait : th_place y ≠ Outside → th_holds y = Holds 0 NotHeld;
  sk_owner o : l_thread l' = Some o → o = t ∧ h_excl (th_holds y) = AsWriter ∨ o ≠ t ∧ l_thread l = Some o;
  sk_depth : recursion_depth l' ≠ 0 → is_Some (l_thread l');
}.

Lemma counts_step l l' T t x y :
  LockCounts l T → T !! t = Some x → step_keeps l l' T t x y → LockCounts l' (<[t := y]> T).
Proof.
  intros [Hr Hb Hw Hu He Hwt Ho Hd] Hx [Kr Kb Kw Ku Ke Ko Kwt Kown Kd].
  assert (∀ t' x', <[t := y]> T !! t' = Some x' → t' = t ∧ x' = y ∨ t' ≠ t ∧ T !! t' = Some x') as Hin.
  { intros t' x' [[<- <-]|[? ?]]%lookup_insert_Some; auto. }
  split; try done.
  - pose proof (total_update reads T t x y Hx). lia.
  - pose proof (count_update writing T t x y Hx). lia.
  - pose proof (count_update upgrading T t x y Hx). lia.
  - intros t' x' [[-> ->]|[Hne Hx']]%Hin; [done|]. by apply Ko with t'.
  - intros t' x' [[-> ->]|[Hne Hx']]%Hin; [done|]. by apply Hwt with t'.
  - intros o [[-> Hy]|[Hne Hol]]%Kown; [exists y; by rewrite lookup_insert_eq|].
    destruct (Ho o Hol) as (xo & ? & ?). exists xo. by rewrite lookup_insert_ne.
Qed.

Lemma step_keeps_wake l l' T t x y : step_keeps l l' T t x y → step_keeps l l' (wake <$> T) t x y.
Proof.
  intros [Kr Kb Kw Ku Ke Ko Kwt Kown Kd]. split; try done. intros t' x' Hne. rewrite lookup_fmap.
  intros (x0 & Hx0 & ->)%fmap_Some. unfold exclusive_holder, reads. rewrite wake_holds. by apply Ko with t'.
Qed.

(** A step that wakes the sleepers, and one that leaves them blocked. *)
Definition sleepers_kept (l l' : lock) (T : gmap N thread) (t : N) : Prop :=
  ∀ t' w h, t' ≠ t → T !! t' = Some (Thread (Asleep w) h) → waiting l = true → blocked w l = true →
    waiting l' = true ∧ blocked w l' = true.

Lemma lock_inv_step l T t x r :
  LockInv l T → T !! t = Some x → wake x = x → step_keeps l (s_lock r) T t x (s_thread r) →
  (s_wakeup r = false → sleepers_kept l (s_lock r) T t) →
  (∀ w h, s_thread r = Thread (Asleep w) h → waiting (s_lock r) = true ∧ blocked w (s_lock r) = true) →
  LockInv (sys_lock (finish t r T)) (sys_threads (finish t r T)).
Proof.
  intros [Hc Hs] Hx Haw Hk Hsl Hown. cbn [finish sys_lock sys_threads]. split.
  - destruct (s_wakeup r); [|by eapply counts_step]. eapply (counts_step l); [by apply counts_wake| |by apply step_keeps_wake].
    rewrite lookup_fmap, Hx. cbn. by rewrite Haw.
  - intros t' w h [[<- Hy]|[Hne Hx']]%lookup_insert_Some; [by apply (Hown w h)|].
    destruct (s_wakeup r).
    + rewrite lookup_fmap in Hx'. apply fmap_Some in Hx' as (x' & _ & Hx'). by destruct x' as [[]].
    + destruct (Hs _ _ _ Hx') as [? ?]. by eapply Hsl.
Qed.

(** ** The loops *)

#[local] Abbreviation idle := (Holds 0 NotHeld).

Section Loops.
Context (spin : bool).

Lemma insert_finish t y r T : s_wakeup r = false → finish t r (<[t := y]> T) = finish t r T.
Proof. intros Hw. unfold finish. by rewrite Hw, insert_insert_eq. Qed.

Lemma wait_no_wakeup w l h : s_wakeup (wait spin w l h) = false.
Proof. unfold wait, sleep. by destruct w, spin, (can_sleep l). Qed.
Lemma loop_no_wakeup w l h : s_wakeup (loop spin w l h) = false.
Proof. unfold loop, drain. destruct w; repeat case_match; try done; apply wait_no_wakeup. Qed.

(** A thread that holds nothing keeps the state when it stays in its loop. *)
Lemma stay_keeps l l' T t p q w :
  LockCounts l T → T !! t = Some (Thread p idle) → in_loop (Thread p idle) w = true → in_loop (Thread q idle) w = true →
  read_count l' = read_count l → want_write l' = want_write l → want_upgrade l' = want_upgrade l →
  l_thread l' = l_thread l → recursion_depth l' = recursion_depth l →
  step_keeps l l' T t (Thread p idle) (Thread q idle).
Proof.
  intros [Hr Hb Hw Hu He Hwt Ho Hd] Hx Hp Hq Er Ew Eu Et Ed.
  assert (∀ v, in_loop (Thread p idle) v = in_loop (Thread q idle) v) as Hv.
  { intros v. unfold in_loop in *. cbn in *. destruct p, q; try done; by rewrite (bool_decide_eq_true_1 _ Hp), (bool_decide_eq_true_1 _ Hq). }
  split; rewrite ?Er, ?Ew, ?Eu, ?Et, ?Ed; try done.
  - by unfold writing, excl_is; rewrite Hv.
  - by unfold upgrading, excl_is; rewrite !Hv.
  - intros t' x' _ Hx'. apply He with t'. done.
  - intros o Ho'. destruct (decide (o = t)) as [->|Hne]; [|auto]. destruct (Ho t Ho') as (x & Hx' & He'). rewrite Hx in Hx'. by injection Hx' as <-.
Qed.

Lemma wait_inv w l T t p :
  LockInv l T → T !! t = Some (Thread p idle) → in_loop (Thread p idle) w = true → p ≠ Asleep w → blocked w l = true →
  let s := finish t (wait spin w l idle) T in LockInv (sys_lock s) (sys_threads s).
Proof.
  intros Hinv Hx Hp Hna Hb.
  assert (wake (Thread p idle) = Thread p idle) as Haw.
  { unfold in_loop in Hp. cbn in Hp. destruct p as [| | |v]; try done. apply bool_decide_eq_true_1 in Hp as ->. done. }
  assert (∀ r, r = Section_ l (Thread (Spinning w) idle) false None ∨ r = sleep w l idle →
    let s := finish t r T in LockInv (sys_lock s) (sys_threads s)) as Hr.
  { intros r Hr. eapply lock_inv_step; [done|done|done| | |].
    - destruct Hr as [-> | ->]; (eapply (stay_keeps _ _ _ _ _ _ w); try done; [apply Hinv|by unfold in_loop; cbn; apply bool_decide_eq_true_2]).
    - intros _. destruct Hr as [-> | ->]; intros t' v h _ _ Hwt Hbv; cbn; [done|]. split; [done|]. by destruct v.
    - intros v h. destruct Hr as [-> | ->]; cbn; [done|]. intros [= <- _]. split; [done|]. by destruct w. }
  apply Hr. unfold wait. destruct w; repeat case_match; auto.
Qed.

Lemma not_excl l T t x :
  LockCounts l T → want_write l = false → want_upgrade l = false → T !! t = Some x → ¬ exclusive_holder x.
Proof.
  intros Hc Hw Hu Hx He. unfold exclusive_holder in He. destruct (h_excl (th_holds x)) eqn:Ex; [done| |].
  - rewrite (writing_wanted l T Hc t x Hx) in Hw; [done|]. unfold writing, excl_is. by rewrite Ex.
  - rewrite (upgrading_wanted l T Hc t x Hx) in Hu; [done|]. unfold upgrading, excl_is. by rewrite Ex.
Qed.

(** The owner is the writer. *)
Lemma owner_elim l T t x : LockCounts l T → T !! t = Some x → l_thread l = Some t → h_excl (th_holds x) = AsWriter.
Proof. intros Hc Hx Ho. destruct (li_owner _ _ Hc t Ho) as (x' & Hx' & He). by rewrite Hx in Hx'; injection Hx' as <-. Qed.

Lemma more_readers_count l : read_count l <? 2 ^ 16 - 1 = true → read_count (more_readers l) = read_count l + 1.
Proof. intros Hl%N.ltb_lt. cbn. unfold wrap. apply N.mod_small. lia. Qed.
Lemma fewer_readers_count l : read_count l ≠ 0 → read_count l < 2 ^ 16 → read_count (fewer_readers l) = read_count l - 1.
Proof.
  intros H0 Hl. cbn. unfold wrap. replace (read_count l + (2 ^ 16 - 1)) with (read_count l - 1 + 1 * 2 ^ 16) by lia.
  rewrite N.Div0.mod_add. apply N.mod_small. lia.
Qed.

(** Readers, writers and upgrades that get the lock. *)
Lemma got_write_inv l T t p :
  LockInv l T → T !! t = Some (Thread p idle) → in_loop (Thread p idle) ForReaders = true → wake (Thread p idle) = Thread p idle →
  blocked ForReaders l = false → let s := finish t (got_write l idle) T in LockInv (sys_lock s) (sys_threads s).
Proof.
  intros Hinv Hx Hp Haw Hb. pose proof (li_counts _ _ Hinv) as Hc. cbn in Hb. apply orb_false_iff in Hb as [Hr%negb_false_iff%N.eqb_eq Hu].
  eapply lock_inv_step; [done|done|done| |by intros _ ? ? ? ? ?|done]. split; cbn [got_write returns s_lock s_thread]; try done.
  - apply Hc.
  - unfold writing. rewrite Hp. by rewrite orb_true_r.
  - assert (upgrading (Thread p idle) = false) as ->; [|done]. unfold upgrading, in_loop, excl_is in *. cbn in *.
    destruct p; try done; by rewrite (bool_decide_eq_true_1 _ Hp).
  - intros t' x' _ Hx'. by apply (li_excl _ _ Hc t').
  - intros o Ho. destruct (decide (o = t)); auto.
  - apply Hc.
Qed.

Lemma got_read_inv l T t x :
  LockInv l T → T !! t = Some x → wake x = x → in_loop x ForReaders = false → upgrading x = excl_is x AsUpgrade →
  read_count l <? 2 ^ 16 - 1 = true → (∀ t' x', t' ≠ t → T !! t' = Some x' → ¬ exclusive_holder x') →
  let s := finish t (got_read l (th_holds x)) T in LockInv (sys_lock s) (sys_threads s).
Proof.
  intros Hinv Hx Haw Hnr Hup Hroom Hothers. pose proof (li_counts _ _ Hinv) as Hc. pose proof (more_readers_count l Hroom) as Hrc.
  apply N.ltb_lt in Hroom.
  eapply lock_inv_step; [done|done|done| | |done].
  - split; cbn [got_read returns s_lock s_thread]; rewrite ?Hrc; cbn [more_readers set_read_count want_write want_upgrade l_thread recursion_depth]; try done.
    + unfold reads. cbn. lia.
    + split; [lia|apply Hc].
    + unfold writing. rewrite Hnr. unfold excl_is. cbn. lia.
    + rewrite Hup. unfold upgrading, excl_is. cbn. rewrite !orb_false_r. lia.
    + intros He. destruct (li_excl _ _ Hc t x Hx He) as [Hrd Hwu]. split; [|done]. unfold reads in *. cbn. lia.
    + intros t' x' Hne Hx' He. by destruct (Hothers t' x').
    + intros o Ho. destruct (decide (o = t)) as [->|]; [left|auto]. split; [done|]. cbn. by apply (owner_elim l T t).
    + apply Hc.
  - intros _ t' w h _ _ Hw Hb. split; [done|]. destruct w; cbn in *; try done; rewrite ?Hrc; rewrite ?orb_true_iff, ?negb_true_iff, ?N.eqb_neq in *; lia.
Qed.

Lemma got_upgrade_inv l T t p :
  LockInv l T → T !! t = Some (Thread p idle) → wake (Thread p idle) = Thread p idle → upgrading (Thread p idle) = true →
  read_count l = 0 → let s := finish t (got_upgrade l idle) T in LockInv (sys_lock s) (sys_threads s).
Proof.
  intros Hinv Hx Haw Hup Hr. pose proof (li_counts _ _ Hinv) as Hc.
  eapply lock_inv_step; [done|done|done| |by intros _ ? ? ? ? ?|done]. split; cbn [got_upgrade returns s_lock s_thread]; try done.
  - apply Hc.
  - assert (writing (Thread p idle) = false) as ->; [|done]. unfold upgrading, writing, in_loop, excl_is in *. cbn in *.
    destruct p as [|[]|[]|[]]; done.
  - by rewrite Hup.
  - intros t' x' Hne Hx' He. exfalso. destruct (li_excl _ _ Hc t' x' Hx' He) as [_ Hw].
    pose proof (upgrading_wanted _ _ Hc _ _ Hx Hup) as Hwu. unfold exclusive_holder in He. destruct (h_excl (th_holds x')) eqn:Ex; [done| |].
    + rewrite Hw in Hwu; done.
    + destruct Hne. symmetry. apply (upgrading_unique _ _ Hc t t' _ _ Hx Hx' Hup). unfold upgrading, excl_is. by rewrite Ex.
  - intros o Ho. destruct (decide (o = t)) as [->|]; [|auto]. by pose proof (owner_elim _ _ _ _ Hc Hx Ho).
  - apply Hc.
Qed.

Lemma awake_not_asleep p w : wake (Thread p idle) = Thread p idle → p ≠ Asleep w.
Proof. by intros Haw ->. Qed.

Lemma drain_inv l T t p :
  LockInv l T → T !! t = Some (Thread p idle) → in_loop (Thread p idle) ForReaders = true → wake (Thread p idle) = Thread p idle →
  let s := finish t (drain spin l idle) T in LockInv (sys_lock s) (sys_threads s).
Proof.
  intros Hinv Hx Hp Haw. unfold drain. destruct (blocked ForReaders l) eqn:Hb; [|by eapply got_write_inv].
  eapply wait_inv; try done. by apply awake_not_asleep.
Qed.

(** The writer announces itself. *)
Lemma announce_inv l T t p :
  LockInv l T → T !! t = Some (Thread p idle) → in_loop (Thread p idle) ForWrite = true → wake (Thread p idle) = Thread p idle →
  want_write l = false → LockInv (set_want_write true l) (<[t := Thread (AtTest ForReaders) idle]> T).
Proof.
  intros Hinv Hx Hp Haw Hw. pose proof (li_counts _ _ Hinv) as Hc.
  apply (lock_inv_step l T t (Thread p idle) (Section_ (set_want_write true l) (Thread (AtTest ForReaders) idle) false None)); try done.
  - split; cbn [s_lock s_thread set_want_write read_count want_write want_upgrade l_thread recursion_depth]; try done; try apply Hc.
    + rewrite Hw. assert (writing (Thread p idle) = false) as ->; [|done]. unfold writing, in_loop, excl_is in *. cbn in *.
      destruct p as [|[]|[]|[]]; done.
    + assert (upgrading (Thread p idle) = false) as ->; [|done]. unfold upgrading, in_loop, excl_is in *. cbn in *.
      destruct p as [|[]|[]|[]]; done.
    + intros t' x' _ Hx'. by apply (li_excl _ _ Hc t').
    + intros o Ho. destruct (decide (o = t)) as [->|]; [|auto]. by pose proof (owner_elim _ _ _ _ Hc Hx Ho).
  - intros _ t' w h _ _ Hwt Hb. split; [done|]. by destruct w.
Qed.

Lemma loop_inv w l T t p :
  LockInv l T → T !! t = Some (Thread p idle) → in_loop (Thread p idle) w = true → wake (Thread p idle) = Thread p idle →
  may_go w l = true → let s := finish t (loop spin w l idle) T in LockInv (sys_lock s) (sys_threads s).
Proof.
  intros Hinv Hx Hp Haw Hgo. pose proof (li_counts _ _ Hinv) as Hc. unfold loop.
  assert (∀ v, in_loop (Thread p idle) v = bool_decide (v = w)) as Hv.
  { intros v. unfold in_loop in *. cbn in *. destruct p; try done; rewrite (bool_decide_eq_true_1 _ Hp); by apply bool_decide_ext. }
  destruct (decide (w = ForReaders)) as [->|Hnr]; [by eapply drain_inv|].
  destruct (blocked w l) eqn:Hb.
  { destruct w; try done; (eapply wait_inv; try done; by apply awake_not_asleep). }
  destruct w; try done; cbn in Hb.
  - pose proof (announce_inv l T t p Hinv Hx Hp Haw Hb) as Hinv'.
    rewrite <- (insert_finish t (Thread (AtTest ForReaders) idle)) by (unfold drain; case_match; [apply wait_no_wakeup|done]).
    eapply drain_inv; [done|by rewrite lookup_insert_eq|done|done].
  - apply orb_false_iff in Hb as [Hw Hu]. apply (got_read_inv l T t (Thread p idle)); try done.
    + unfold upgrading. by rewrite !Hv.
    + intros t' x' _ Hx'. by eapply not_excl.
  - apply negb_false_iff, N.eqb_eq in Hb. eapply got_upgrade_inv; try done. unfold upgrading. rewrite !Hv. done.
  - apply negb_false_iff, N.eqb_eq in Hb. eapply got_upgrade_inv; try done. unfold upgrading. rewrite !Hv. done.
Qed.

Lemma end_spin_inv w l T t :
  LockInv l T → T !! t = Some (Thread (Spinning w) idle) → may_go w l = true →
  let s := finish t (end_spin spin w l idle) T in LockInv (sys_lock s) (sys_threads s).
Proof.
  intros Hinv Hx Hgo. assert (in_loop (Thread (Spinning w) idle) w = true) as Hp by (by apply bool_decide_eq_true_2).
  unfold end_spin. destruct (can_sleep l && blocked w l) eqn:Hb; [|by eapply loop_inv].
  apply andb_true_iff in Hb as [_ Hb]. eapply lock_inv_step; [done|done|done| | |].
  - eapply (stay_keeps _ _ _ _ _ _ w); try done. apply Hinv.
  - intros _ t' v h _ _ Hwt Hbv. split; [done|]. by destruct v.
  - intros v h [= <- _]. split; [done|]. by destruct w.
Qed.

(** ** The calls *)

Section Calls.
Context (l : lock) (T : gmap N thread) (t : N) (h : held).
Context (Hinv : LockInv l T) (Hx : T !! t = Some (Thread Outside h)).
#[local] Abbreviation keeps r := (let s := finish t r T in LockInv (sys_lock s) (sys_threads s)).

(** Enters a loop, with nothing held. *)
Lemma enter_loop w l' :
  LockInv l' (<[t := Thread (AtTest w) idle]> T) → may_go w l' = true → keeps (loop spin w l' idle).
Proof.
  intros Hinv' Hgo. rewrite <- (insert_finish t (Thread (AtTest w) idle)) by apply loop_no_wakeup.
  eapply loop_inv; [done|by rewrite lookup_insert_eq|by apply bool_decide_eq_true_2|done|done].
Qed.

Lemma enter_inv w : h = idle → w = ForWrite ∨ w = ForRead → LockInv l (<[t := Thread (AtTest w) idle]> T).
Proof.
  intros -> Hw. pose proof (li_counts _ _ Hinv) as Hc.
  apply (lock_inv_step l T t _ (Section_ l (Thread (AtTest w) idle) false None) Hinv Hx); [done| |by intros _ ? ? ? ? ?|done].
  split; cbn [s_lock s_thread]; try done; try apply Hc.
  - by destruct Hw as [-> | ->].
  - by destruct Hw as [-> | ->].
  - intros t' x' _ Hx'. by apply (li_excl _ _ Hc t').
  - intros o Ho. destruct (decide (o = t)) as [->|]; [|auto]. by pose proof (owner_elim _ _ _ _ Hc Hx Ho).
Qed.

(** Nothing changes. *)
Lemma same_inv : keeps (returns l h).
Proof.
  unfold returns, finish. cbn. replace (<[t := Thread Outside h]> T) with T; [done|]. symmetry. by apply insert_id.
Qed.

(** A change of the depth of recursion by the owner. *)
Lemma depth_inv d : d < 2 ^ 12 → (d ≠ 0 → is_Some (l_thread l)) → keeps (returns (set_recursion d l) h).
Proof.
  intros Hd Hd0. pose proof (li_counts _ _ Hinv) as Hc. eapply lock_inv_step; [done|done|done| |by intros _ ? ? ? ? ?|done].
  split; cbn [returns s_lock s_thread set_recursion read_count want_write want_upgrade l_thread recursion_depth]; try done.
  - split; [apply Hc|done].
  - intros He. by apply (li_excl _ _ Hc t _ Hx).
  - intros t' x' _ Hx'. by apply (li_excl _ _ Hc t').
  - intros o Ho. destruct (decide (o = t)) as [->|]; [left|auto]. split; [done|]. by apply (owner_elim _ _ _ _ Hc Hx).
Qed.

Lemma deeper_inv : l_thread l = Some t → recursion_depth l <? 2 ^ 12 - 1 = true → keeps (returns (deeper l) h).
Proof.
  intros Ho Hd%N.ltb_lt. apply depth_inv; [unfold wrap; apply N.mod_lt; done|]. rewrite Ho. done.
Qed.

Lemma lock_write_inv : may_call LockWrite t l h = true → keeps (lock_write spin t l h).
Proof.
  cbn. unfold lock_write. case_bool_decide as Ho; cbn [negb andb orb].
  - rewrite orb_false_r. intros Hd. by apply deeper_inv.
  - intros [Hr%N.eqb_eq He%bool_decide_eq_true_1]%andb_true_iff. assert (h = idle) as Hh by (destruct h; cbn in *; congruence).
    rewrite Hh. apply enter_loop; [|done]. apply enter_inv; auto.
Qed.

Lemma lock_read_inv : may_call LockRead t l h = true → keeps (lock_read spin t l h).
Proof.
  cbn. unfold lock_read. pose proof (li_counts _ _ Hinv) as Hc. case_bool_decide as Ho; cbn [negb andb orb].
  - intros Hroom. apply (got_read_inv l T t (Thread Outside h)); try done; [unfold upgrading; by rewrite !orb_false_r|].
    intros t' x' Hne Hx' He. assert (exclusive_holder (Thread Outside h)) as Hme.
    { unfold exclusive_holder. by rewrite (owner_elim _ _ _ _ Hc Hx Ho). }
    pose proof (excl_alone _ _ Hc _ _ _ _ Hx Hx' (not_eq_sym Hne) Hme) as Hi. unfold exclusive_holder in He. by rewrite Hi in He.
  - intros [[Hr%N.eqb_eq He%bool_decide_eq_true_1]%andb_true_iff Hroom]%andb_true_iff. assert (h = idle) as Hh by (destruct h; cbn in *; congruence).
    rewrite Hh. apply enter_loop; [|done]. apply enter_inv; auto.
Qed.

(** The ends of the routines that give something up. *)
Lemma keeps_waiting l' x y b : step_keeps l l' T t x y → step_keeps l (set_waiting b l') T t x y.
Proof. by intros []. Qed.

Lemma release_tail l' h' :
  step_keeps l l' T t (Thread Outside h) (Thread Outside h') → waiting l' = waiting l →
  (read_count l' ≠ 0 → ∀ w, blocked w l = true → blocked w l' = true) →
  keeps (if waiting l' && (read_count l' =? 0) then Section_ (set_waiting false l') (Thread Outside h') true None else returns l' h').
Proof.
  intros Hk Hw Hb. destruct (waiting l' && (read_count l' =? 0)) eqn:E.
  - eapply lock_inv_step; [done|done|done|by apply keeps_waiting|done|done].
  - eapply lock_inv_step; [done|done|done|done| |done]. intros _ t' w h0 _ _ Hwt Hbl. cbn. split; [by rewrite Hw|].
    apply Hb; [|done]. rewrite Hw, Hwt in E. by apply N.eqb_neq.
Qed.

Lemma no_other_excl t' x' : (h_reads h ≠ 0 ∨ h_excl h ≠ NotHeld) → t' ≠ t → T !! t' = Some x' → ¬ exclusive_holder x'.
Proof.
  intros Hh Hne Hx' He. pose proof (excl_alone _ _ (li_counts _ _ Hinv) _ _ _ _ Hx' Hx Hne He) as Hi. cbn in Hi. subst h. by destruct Hh.
Qed.

Lemma own_reads : h_reads h ≤ read_count l.
Proof. rewrite (li_reads _ _ (li_counts _ _ Hinv)). apply (total_elem reads T t _ Hx). Qed.

Lemma drop_read_keeps :
  h_reads h ≠ 0 → step_keeps l (fewer_readers l) T t (Thread Outside h) (Thread Outside (Holds (N.pred (h_reads h)) (h_excl h))).
Proof.
  intros Hr. pose proof (li_counts _ _ Hinv) as Hc. pose proof own_reads as Hle.
  pose proof (fewer_readers_count l ltac:(lia) ltac:(apply Hc)) as Hrc. destruct (li_bound _ _ Hc) as [Hb1 Hb2].
  split; rewrite ?Hrc; cbn [fewer_readers set_read_count want_write want_upgrade l_thread recursion_depth]; try done.
  - unfold reads. cbn. lia.
  - split; [lia|done].
  - intros He. destruct (li_excl _ _ Hc t _ Hx He) as [Hrd Hwu]. split; [|done]. unfold reads in *. cbn in *. lia.
  - intros t' x' Hne Hx' He. by destruct (no_other_excl t' x'); auto.
  - intros o Ho. destruct (decide (o = t)) as [->|]; [left|auto]. split; [done|]. by apply (owner_elim _ _ _ _ Hc Hx).
  - apply Hc.
Qed.

(** The lock is no longer held for writing. *)
Definition release l0 : lock := if want_upgrade l0 then set_want_upgrade false l0 else set_want_write false l0.

Lemma release_keeps l0 h' :
  h_excl h ≠ NotHeld → l_thread l ≠ Some t → l_thread l0 = l_thread l → want_write l0 = want_write l → want_upgrade l0 = want_upgrade l →
  recursion_depth l0 = recursion_depth l → h_excl h' = NotHeld → read_count l0 + h_reads h = read_count l + h_reads h' → read_count l0 < 2 ^ 16 →
  step_keeps l (release l0) T t (Thread Outside h) (Thread Outside h').
Proof.
  intros He Ho Et Ew Eu Ed Eh Er Eb. pose proof (li_counts _ _ Hinv) as Hc. destruct (li_excl _ _ Hc t _ Hx He) as [_ Hwu].
  assert (read_count (release l0) = read_count l0 ∧ l_thread (release l0) = l_thread l ∧ recursion_depth (release l0) = recursion_depth l) as (Rr & Rt & Rd)
    by (unfold release; by destruct (want_upgrade l0)).
  split; rewrite ?Rr, ?Rt, ?Rd; try done.
  - split; [done|apply Hc].
  - unfold release. rewrite Eu. unfold writing, excl_is, in_loop. cbn. rewrite Eh. destruct (h_excl h) eqn:Ex; [done| |].
    + rewrite (Hwu Ex). cbn. rewrite (writing_wanted _ _ Hc _ _ Hx) by (unfold writing, excl_is; cbn; by rewrite Ex). done.
    + rewrite (upgrading_wanted _ _ Hc _ _ Hx) by (unfold upgrading, excl_is; cbn; by rewrite Ex). cbn. by rewrite Ew.
  - unfold release. rewrite Eu. unfold upgrading, excl_is, in_loop. cbn. rewrite Eh. destruct (h_excl h) eqn:Ex; [done| |].
    + rewrite (Hwu Ex). cbn. by rewrite Eu, (Hwu Ex).
    + rewrite (upgrading_wanted _ _ Hc _ _ Hx) by (unfold upgrading, excl_is; cbn; by rewrite Ex). done.
  - intros t' x' Hne Hx' Hxe. by destruct (no_other_excl t' x'); auto.
  - intros o Hoo. destruct (decide (o = t)) as [->|]; [done|auto].
  - apply Hc.
Qed.

Lemma lock_done_inv : may_call LockDone t l h = true → keeps (lock_done l h).
Proof.
  intros Hm. pose proof (li_counts _ _ Hinv) as Hc. pose proof own_reads as Hle. unfold lock_done.
  assert (h_reads h = 0 → h_excl h ≠ NotHeld ∧ (recursion_depth l ≠ 0 ∨ l_thread l ≠ Some t)) as Hex.
  { intros H0. cbn in Hm. rewrite H0 in Hm. cbn in Hm. case_bool_decide as He; [|done]. split; [done|].
    apply orb_true_iff in Hm as [Hm|Hm]; apply negb_true_iff in Hm; [left; by apply N.eqb_neq|right; by apply bool_decide_eq_false in Hm]. }
  destruct (N.eqb_spec (read_count l) 0) as [Hr0|Hr0]; cbn [negb].
  2: { assert (h_reads h ≠ 0) as Hr.
       { intros H0. destruct (Hex H0) as [He _]. destruct (li_excl _ _ Hc t _ Hx He) as [Hrd _]. unfold reads in Hrd. cbn in Hrd. congruence. }
       apply release_tail; [by apply drop_read_keeps|done|]. intros Hn w Hb. destruct w; cbn [blocked] in *; try done; by rewrite (proj2 (N.eqb_neq _ _) Hn). }
  destruct (Hex ltac:(lia)) as [He Hd]. destruct (li_bound _ _ Hc) as [_ Hbd].
  destruct (N.eqb_spec (recursion_depth l) 0) as [Hd0|Hd0]; cbn [negb].
  - assert (l_thread l ≠ Some t) as Hno by (by destruct Hd).
    assert (step_keeps l (release l) T t (Thread Outside h) (Thread Outside (Holds (h_reads h) NotHeld))) as Hk.
    { apply release_keeps; try done. apply Hc. }
    unfold release in Hk. destruct (want_upgrade l); (apply release_tail; [done|done|]; cbn; lia).
  - apply release_tail; [|done|cbn; lia]. split; cbn [shallower set_recursion read_count want_write want_upgrade l_thread recursion_depth]; try done.
    + split; [apply Hc|]. unfold wrap. by apply N.mod_lt.
    + intros Hxe. by apply (li_excl _ _ Hc t _ Hx).
    + intros t' x' _ Hx'. by apply (li_excl _ _ Hc t').
    + intros o Ho. destruct (decide (o = t)) as [->|]; [left|auto]. split; [done|]. by apply (owner_elim _ _ _ _ Hc Hx).
    + intros _. by apply Hc.
Qed.

(** A reader that asks for an upgrade. *)
Lemma ask_upgrade_inv w :
  h = Holds 1 NotHeld → want_upgrade l = false → w = ForUpgrade ∨ w = ForTryUpgrade →
  LockInv (set_want_upgrade true (fewer_readers l)) (<[t := Thread (AtTest w) idle]> T).
Proof.
  intros Hh Hu Hw. pose proof (li_counts _ _ Hinv) as Hc. pose proof own_reads as Hle. rewrite Hh in Hle. cbn in Hle.
  pose proof (drop_read_keeps ltac:(by rewrite Hh)) as [Kr Kb Kw Ku Ke Ko Kwt Kown Kd].
  apply (lock_inv_step l T t (Thread Outside h) (Section_ (set_want_upgrade true (fewer_readers l)) (Thread (AtTest w) idle) false None)); try done.
  - split; cbn [s_lock s_thread]; try done.
    + by rewrite Hh in Kr |- *.
    + rewrite Hh. by destruct Hw as [-> | ->].
    + rewrite Hh. cbn. rewrite Hu. by destruct Hw as [-> | ->].
    + intros t' x' Hne Hx' He. destruct (no_other_excl t' x'); auto. left. by rewrite Hh.
    + intros o Ho. destruct (decide (o = t)) as [->|]; [|auto]. pose proof (owner_elim _ _ _ _ Hc Hx Ho) as Hew. by rewrite Hh in Hew.
  - intros _ t' v h' Hne Hx' Hwt Hb. split; [done|]. destruct v; cbn in *; try done; try (by rewrite orb_true_r).
    + assert (upgrading (Thread (Asleep ForUpgrade) h') = true) as Hup by (unfold upgrading; cbn; by rewrite !orb_true_r).
      by rewrite (upgrading_wanted _ _ Hc _ _ Hx' Hup) in Hu.
    + assert (upgrading (Thread (Asleep ForTryUpgrade) h') = true) as Hup by (unfold upgrading; cbn; by rewrite !orb_true_r).
      by rewrite (upgrading_wanted _ _ Hc _ _ Hx' Hup) in Hu.
Qed.

(** The owner turns a read lock into a deeper write lock. *)
Lemma owner_upgrade_inv :
  l_thread l = Some t → h_reads h ≠ 0 → recursion_depth l <? 2 ^ 12 - 1 = true →
  keeps (returns (deeper (fewer_readers l)) (Holds (N.pred (h_reads h)) (h_excl h))).
Proof.
  intros Ho Hr Hd. pose proof (li_counts _ _ Hinv) as Hc. destruct (drop_read_keeps Hr) as [Kr Kb Kw Ku Ke Ko Kwt Kown Kd].
  pose proof (owner_elim _ _ _ _ Hc Hx Ho) as He. cbn in He.
  assert (writing (Thread Outside h) = true) as Hmw by (unfold writing, excl_is; cbn; by rewrite He).
  eapply lock_inv_step; [done|done|done| | |done].
  - split; cbn [returns s_lock s_thread]; try done. split; [apply Kb|]. cbn. unfold wrap. by apply N.mod_lt.
  - intros _ t' w h' Hne Hx' Hwt Hb. split; [done|]. destruct w; cbn in Hb |- *; try done; exfalso.
    + destruct Hne. apply (writing_unique _ _ Hc _ _ _ _ Hx' Hx); [|done]. unfold writing. cbn. by rewrite orb_true_r.
    + destruct (li_excl _ _ Hc t _ Hx) as [_ Hwu]; [unfold exclusive_holder; cbn; by rewrite He|]. cbn in Hwu.
      rewrite (upgrading_wanted _ _ Hc _ _ Hx') in Hwu; [by discriminate Hwu|]. unfold upgrading. cbn. by rewrite !orb_true_r.
    + destruct (li_excl _ _ Hc t _ Hx) as [_ Hwu]; [unfold exclusive_holder; cbn; by rewrite He|]. cbn in Hwu.
      rewrite (upgrading_wanted _ _ Hc _ _ Hx') in Hwu; [by discriminate Hwu|]. unfold upgrading. cbn. by rewrite !orb_true_r.
Qed.

Lemma lock_read_to_write_inv : may_call LockReadToWrite t l h = true → keeps (lock_read_to_write spin t l h).
Proof.
  intros Hm. cbn in Hm. unfold lock_read_to_write. cbn [fewer_readers set_read_count l_thread want_upgrade].
  case_bool_decide as Ho.
  - apply andb_true_iff in Hm as [Hr%negb_true_iff%N.eqb_neq Hd]. by apply owner_upgrade_inv.
  - apply andb_true_iff in Hm as [Hr%N.eqb_eq He]. assert (h = Holds 1 NotHeld) as Hh.
    { case_bool_decide as He'; [|done]. destruct h. cbn in *. congruence. }
    destruct (want_upgrade l) eqn:Hu.
    + apply (release_tail (fewer_readers l)); [apply drop_read_keeps; by rewrite Hr|done|].
      intros Hn w Hb. destruct w; cbn [blocked] in *; try done; by rewrite (proj2 (N.eqb_neq _ _) Hn).
    + rewrite Hh. cbn [h_reads h_excl N.pred]. apply (enter_loop ForUpgrade (set_want_upgrade true (fewer_readers l))); [|done].
      by apply ask_upgrade_inv; auto.
Qed.

Lemma lock_try_read_to_write_inv : may_call LockTryReadToWrite t l h = true → keeps (lock_try_read_to_write spin t l h).
Proof.
  intros Hm. cbn in Hm. unfold lock_try_read_to_write. case_bool_decide as Ho.
  - apply andb_true_iff in Hm as [Hr%negb_true_iff%N.eqb_neq Hd]. by apply owner_upgrade_inv.
  - apply andb_true_iff in Hm as [Hr%N.eqb_eq He]. assert (h = Holds 1 NotHeld) as Hh.
    { case_bool_decide as He'; [|done]. destruct h. cbn in *. congruence. }
    destruct (want_upgrade l) eqn:Hu; [by apply same_inv|].
    rewrite Hh. cbn [h_reads h_excl N.pred]. apply (enter_loop ForTryUpgrade (set_want_upgrade true (fewer_readers l))); [|done].
    by apply ask_upgrade_inv; auto.
Qed.

(** A write lock becomes a read lock, or, for the owner, a less deep write lock
    and a read lock. *)
Lemma lock_write_to_read_inv : may_call LockWriteToRead t l h = true → keeps (lock_write_to_read l h).
Proof.
  intros Hm. cbn in Hm. apply andb_true_iff in Hm as [[He Hd]%andb_true_iff Hroom]. apply bool_decide_eq_true in He as He'.
  pose proof (li_counts _ _ Hinv) as Hc. pose proof (more_readers_count l Hroom) as Hrc. apply N.ltb_lt in Hroom.
  destruct (li_excl _ _ Hc t _ Hx He') as [Hrd Hwu]. unfold reads in Hrd. cbn in Hrd, Hwu.
  assert (∀ l' h', step_keeps l l' T t (Thread Outside h) (Thread Outside h') → waiting l' = waiting l →
    keeps (if waiting l' then Section_ (set_waiting false l') (Thread Outside h') true None else returns l' h')) as Htail.
  { intros l' h' Hk Hw. destruct (waiting l') eqn:E.
    - eapply lock_inv_step; [done|done|done|by apply keeps_waiting|done|done].
    - eapply lock_inv_step; [done|done|done|done| |done]. intros _ t' w h0 _ _ Hwt _. congruence. }
  unfold lock_write_to_read. cbn [more_readers set_read_count recursion_depth].
  destruct (N.eqb_spec (recursion_depth l) 0) as [Hd0|Hd0]; cbn [negb orb] in *.
  - apply negb_true_iff in Hd. apply bool_decide_eq_false in Hd.
    assert (step_keeps l (release (more_readers l)) T t (Thread Outside h) (Thread Outside (Holds (h_reads h + 1) NotHeld))) as Hk.
    { apply release_keeps; try done; rewrite Hrc; cbn; lia. }
    unfold release in Hk. change (want_upgrade (more_readers l)) with (want_upgrade l) in Hk |- *.
    destruct (want_upgrade l); by apply (Htail _ _ Hk).
  - apply Htail; [|done]. split; cbn [shallower set_recursion read_count want_write want_upgrade l_thread recursion_depth]; try done.
    + change (read_count (more_readers l) + reads (Thread Outside h) = read_count l + (h_reads h + 1)). rewrite Hrc. unfold reads. cbn. lia.
    + change (read_count (more_readers l) < 2 ^ 16 ∧ wrap 12 (recursion_depth l + (2 ^ 12 - 1)) < 2 ^ 12). rewrite Hrc.
      split; [lia|]. unfold wrap. by apply N.mod_lt.
    + intros _. split; [|done]. change (read_count (more_readers l) = h_reads h + 1). lia.
    + intros t' x' Hne Hx' Hxe. by destruct (no_other_excl t' x'); auto.
    + intros o Ho. destruct (decide (o = t)) as [->|]; [left|auto]. split; [done|]. by apply (owner_elim _ _ _ _ Hc Hx).
    + intros _. by apply Hc.
Qed.

Lemma lock_try_write_inv : may_call LockTryWrite t l h = true → keeps (lock_try_write t l h).
Proof.
  intros Hm. cbn in Hm. revert Hm. unfold lock_try_write. case_bool_decide as Ho; cbn [negb andb orb].
  - rewrite orb_false_r. intros Hd. by apply deeper_inv.
  - intros [Hr%N.eqb_eq He]%andb_true_iff. case_bool_decide as He'; [|done]. assert (h = idle) as Hh by (destruct h; cbn in *; congruence).
    destruct (want_write l || want_upgrade l || negb (read_count l =? 0)) eqn:Hb; [by apply same_inv|].
    apply orb_false_iff in Hb as [[Hw Hu]%orb_false_iff Hrc].
    assert (LockInv (set_want_write true l) (<[t := Thread (AtTest ForReaders) idle]> T)) as Hinv'.
    { rewrite <- (insert_insert_eq T t _ (Thread (AtTest ForWrite) idle)).
      eapply announce_inv; [by apply enter_inv; auto|by rewrite lookup_insert_eq|done|done|done]. }
    rewrite Hh. cbv zeta. rewrite <- (insert_finish t (Thread (AtTest ForReaders) idle)) by done.
    eapply got_write_inv; [done|by rewrite lookup_insert_eq|done|done|]. cbn. by rewrite Hrc, Hu.
Qed.

Lemma lock_try_read_inv : may_call LockTryRead t l h = true → keeps (lock_try_read t l h).
Proof.
  intros Hm. unfold lock_try_read. pose proof (lock_read_inv Hm) as Hrd. unfold lock_read in Hrd. case_bool_decide as Ho; [done|].
  destruct (want_write l || want_upgrade l) eqn:Hb; [by apply same_inv|]. unfold loop in Hrd. cbn [blocked] in Hrd. by rewrite Hb in Hrd.
Qed.

(** Changes of [l_thread] by the writer, and of [can_sleep]. *)
Lemma admin_inv l' :
  read_count l' = read_count l → want_write l' = want_write l → want_upgrade l' = want_upgrade l → waiting l' = waiting l →
  recursion_depth l' = recursion_depth l → (recursion_depth l ≠ 0 → is_Some (l_thread l')) →
  (∀ o, l_thread l' = Some o → o = t ∧ h_excl h = AsWriter ∨ l_thread l = Some o) → keeps (returns l' h).
Proof.
  intros Er Ew Eu Ea Ed Hd Ho. pose proof (li_counts _ _ Hinv) as Hc. eapply lock_inv_step; [done|done|done| | |done].
  - split; cbn [returns s_lock s_thread]; rewrite ?Er, ?Ew, ?Eu, ?Ed; try done; try apply Hc.
    + intros He. by apply (li_excl _ _ Hc t _ Hx).
    + intros t' x' _ Hx'. by apply (li_excl _ _ Hc t').
    + intros o Hoo. destruct (decide (o = t)) as [->|]; [left|right; by destruct (Ho o Hoo) as [[? _]|?]].
      split; [done|]. destruct (Ho t Hoo) as [[_ ?]|Hl]; [done|]. by apply (owner_elim _ _ _ _ Hc Hx).
  - intros _ t' w h' _ _ Hwt Hb. cbn. split; [congruence|]. destruct w; cbn in *; congruence.
Qed.

Lemma call_inv c r : may_call c t l h = true → call_code spin c t l h = Some r → keeps r.
Proof.
  intros Hm. pose proof (li_counts _ _ Hinv) as Hc. destruct c; cbn [call_code].
  1-8: intros [= <-].
  - by apply lock_write_inv.
  - by apply lock_read_inv.
  - by apply lock_done_inv.
  - by apply lock_read_to_write_inv.
  - by apply lock_write_to_read_inv.
  - by apply lock_try_write_inv.
  - by apply lock_try_read_inv.
  - by apply lock_try_read_to_write_inv.
  - unfold lock_set_recursive. destruct (want_write l); [|done]. intros [= <-]. cbn in Hm. case_bool_decide as He; [|done].
    apply admin_inv; try done. intros o [= <-]. auto.
  - unfold lock_clear_recursive. case_bool_decide as Ho; [|done]. intros [= <-]. cbn in Hm.
    destruct (N.eqb_spec (recursion_depth l) 0) as [Hd|Hd]; [by apply admin_inv|by apply same_inv].
  - intros [= <-]. apply admin_inv; try done; [apply Hc|auto].
Qed.

(** The panics of the code do not happen. *)
Lemma call_defined c : may_call c t l h = true → is_Some (call_code spin c t l h).
Proof.
  intros Hm. pose proof (li_counts _ _ Hinv) as Hc. destruct c; cbn [call_code]; try by eexists.
  - cbn in Hm. case_bool_decide as He; [|done]. unfold lock_set_recursive.
    rewrite (writing_wanted _ _ Hc _ _ Hx); [by eexists|]. unfold writing, excl_is. cbn. by rewrite He.
  - cbn in Hm. unfold lock_clear_recursive. rewrite Hm. by eexists.
Qed.
End Calls.

Lemma lock_step_inv s s' : LockInv (sys_lock s) (sys_threads s) → lock_step spin s s' → LockInv (sys_lock s') (sys_threads s').
Proof.
  intros Hinv Hstep. destruct Hstep as [l T t h c r Hx Hm Hr|l T t w h Hx Hgo|l T t w h Hx Hgo].
  - by apply (call_inv l T t h Hinv Hx c r).
  - pose proof (li_wait _ _ (li_counts _ _ Hinv) _ _ Hx ltac:(done)) as Hh. cbn in Hh. subst h.
    eapply loop_inv; [done|done|by apply bool_decide_eq_true_2|done|done].
  - pose proof (li_wait _ _ (li_counts _ _ Hinv) _ _ Hx ltac:(done)) as Hh. cbn in Hh. subst h. by apply end_spin_inv.
Qed.
End Loops.

(** ** Reachable states *)

Lemma lock_start_inv b threads : LockInv (lock_init b) (sys_threads (lock_start b threads)).
Proof.
  assert (∀ t x, sys_threads (lock_start b threads) !! t = Some x → x = Thread Outside idle) as Hx.
  { intros t x. cbn. by intros [_ <-]%lookup_gset_to_gmap_Some. }
  split; [split|]; cbn; try done.
  - symmetry. apply total_zero. intros t x Ht. by rewrite (Hx t x Ht).
  - symmetry. apply count_zero. intros t x Ht. by rewrite (Hx t x Ht).
  - symmetry. apply count_zero. intros t x Ht. by rewrite (Hx t x Ht).
  - intros t x Ht He. by rewrite (Hx t x Ht) in He.
  - intros t x Ht He. by rewrite (Hx t x Ht) in He.
  - intros t w h Ht. by apply Hx in Ht.
Qed.

Lemma reachable_inv spin b threads s : lock_steps spin (lock_start b threads) s → LockInv (sys_lock s) (sys_threads s).
Proof.
  remember (lock_start b threads) as s0 eqn:E. induction 1 as [|s s' s'' _ IH Hstep]; subst; [apply lock_start_inv|].
  eapply lock_step_inv; [by apply IH|done].
Qed.


(** A thread that can make progress: it holds the lock, or goes on in a loop. *)
Definition active (x : thread) : Prop :=
  match th_place x with
  | Outside => th_holds x ≠ Holds 0 NotHeld
  | AtTest _ | Spinning _ => True
  | Asleep _ => False
  end.

Lemma reader_active l T : LockInv l T → read_count l ≠ 0 → ∃ t x, T !! t = Some x ∧ active x.
Proof.
  intros Hinv Hr. destruct (total_nonzero reads T) as (t & x & Hx & Hrd).
  { by rewrite <- (li_reads _ _ (li_counts _ _ Hinv)). }
  exists t, x. split; [done|]. unfold active. destruct (th_place x) eqn:Hp; try done.
  - intros Hi. unfold reads in Hrd. by rewrite Hi in Hrd.
  - unfold reads in Hrd. rewrite (li_wait _ _ (li_counts _ _ Hinv) t x Hx) in Hrd by congruence. done.
Qed.

Lemma upgrade_active l T : LockInv l T → want_upgrade l = true → ∃ t x, T !! t = Some x ∧ active x.
Proof.
  intros Hinv Hu. pose proof (li_counts _ _ Hinv) as Hc. destruct (count_some upgrading T) as (t & x & Hx & Hup).
  { rewrite <- (li_upgrade _ _ Hc), Hu. done. }
  destruct x as [p h]. destruct p as [|w|w|w]; [|by eexists _, _|by eexists _, _|].
  - exists t, (Thread Outside h). split; [done|]. unfold active. cbn. intros ->. done.
  - destruct (li_sleep _ _ Hinv _ _ _ Hx) as [_ Hb]. pose proof (li_wait _ _ Hc _ _ Hx ltac:(done)) as Hh. cbn in Hh. subst h.
    destruct w; try done; (eapply reader_active; [done|]; cbn in Hb; by apply negb_true_iff, N.eqb_neq in Hb).
Qed.

Lemma readers_active l T : LockInv l T → blocked ForReaders l = true → ∃ t x, T !! t = Some x ∧ active x.
Proof.
  intros Hinv Hb. cbn in Hb. apply orb_true_iff in Hb as [Hb|Hb]; [|by eapply upgrade_active].
  eapply reader_active; [done|]. by apply negb_true_iff, N.eqb_neq in Hb.
Qed.

Lemma writer_active l T : LockInv l T → want_write l = true → ∃ t x, T !! t = Some x ∧ active x.
Proof.
  intros Hinv Hw. pose proof (li_counts _ _ Hinv) as Hc. destruct (count_some writing T) as (t & x & Hx & Hwr).
  { rewrite <- (li_write _ _ Hc), Hw. done. }
  destruct x as [p h]. destruct p as [|w|w|w]; [|by eexists _, _|by eexists _, _|].
  - exists t, (Thread Outside h). split; [done|]. unfold active. cbn. intros ->. done.
  - destruct (li_sleep _ _ Hinv _ _ _ Hx) as [_ Hb]. pose proof (li_wait _ _ Hc _ _ Hx ltac:(done)) as Hh. cbn in Hh. subst h.
    destruct w; try done. by eapply readers_active.
Qed.

(** C34.  No wakeup is lost: in every reachable state, a thread that sleeps on the
    lock waits for a condition that holds, [waiting] is set so that it will be
    woken, and some other thread holds the lock or is awake in a routine of it. *)
Theorem lock_no_lost_wakeup spin b threads s t w h :
  lock_steps spin (lock_start b threads) s → sys_threads s !! t = Some (Thread (Asleep w) h) →
  waiting (sys_lock s) = true ∧ blocked w (sys_lock s) = true ∧ ∃ t' x', t' ≠ t ∧ sys_threads s !! t' = Some x' ∧ active x'.
Proof.
  intros Hs Hx. apply reachable_inv in Hs as Hinv. destruct (li_sleep _ _ Hinv _ _ _ Hx) as [Hw Hb]. split_and!; [done|done|].
  assert (∃ t' x', sys_threads s !! t' = Some x' ∧ active x') as (t' & x' & Hx' & Ha).
  { destruct w; cbn [blocked] in Hb.
    - by eapply writer_active.
    - by eapply readers_active.
    - apply orb_true_iff in Hb as [Hb|Hb]; [by eapply writer_active|by eapply upgrade_active].
    - eapply reader_active; [done|]. by apply negb_true_iff, N.eqb_neq in Hb.
    - eapply reader_active; [done|]. by apply negb_true_iff, N.eqb_neq in Hb. }
  exists t', x'. split_and!; [|done|done]. intros ->. rewrite Hx in Hx'. by injection Hx' as <-.
Qed.

(** ** A run: thread 1 takes the lock for writing, thread 2 asks to read *)

Definition demo_start : lock_sys := lock_start true {[1; 2]}.
Definition demo_written : lock_sys := finish 1 (lock_write false 1 (sys_lock demo_start) idle) (sys_threads demo_start).
Definition demo_queued : lock_sys := finish 2 (lock_read false 2 (sys_lock demo_written) idle) (sys_threads demo_written).

Lemma demo_queued_reachable : lock_steps false (lock_start true {[1; 2]}) demo_queued.
Proof.
  apply (steps_step _ _ demo_written); [apply (steps_step _ _ demo_start); [apply steps_refl|]|].
  - by apply (step_call false (sys_lock demo_start) (sys_threads demo_start) 1 idle LockWrite).
  - by apply (step_call false (sys_lock demo_written) (sys_threads demo_written) 2 idle LockRead).
Qed.


Lemma lock_no_lost_wakeup_witness : waiting (sys_lock demo_queued) = true ∧ ∃ t' x', t' ≠ 2 ∧ sys_threads demo_queued !! t' = Some x' ∧ active x'.
Proof.
  destruct (lock_no_lost_wakeup false true {[1; 2]} demo_queued 2 ForRead idle demo_queued_reachable eq_refl) as (Hw & _ & Ha).
  exact (conj Hw Ha).
Defined.
