(* ===== verification/IpcTypes.v ===== *)
(** Data of the IPC system: the structures of ipc/ipc_entry.h, ipc/ipc_space.h,
    ipc/ipc_object.h, ipc/ipc_target.h, ipc/ipc_port.h, ipc/ipc_pset.h and
    ipc/ipc_marequest.h, the kernel state that holds them, and the reads and
    writes that the routines make.

    Objects are named by their address.  Routines run one at a time: locks are
    not part of the state. *)

From S2P Require Import Prelude Kmem RdxtreeMap.

Open Scope N_scope.

(** ** Rights (include/mach/port.h, include/mach/message.h) *)

Definition MACH_PORT_NULL : N := 0.
Definition MACH_PORT_NAME_NULL : N := 0.
Definition MACH_PORT_NAME_DEAD : N := 2 ^ 32 - 1.
Definition MACH_PORT_NAME_VALID (name : N) : bool :=
  negb (name =? MACH_PORT_NAME_NULL) && negb (name =? MACH_PORT_NAME_DEAD).

Definition MACH_PORT_RIGHT_SEND : N := 0.
Definition MACH_PORT_RIGHT_RECEIVE : N := 1.
Definition MACH_PORT_RIGHT_SEND_ONCE : N := 2.
Definition MACH_PORT_RIGHT_PORT_SET : N := 3.
Definition MACH_PORT_RIGHT_DEAD_NAME : N := 4.
Definition MACH_PORT_RIGHT_NUMBER : N := 5.

Definition MACH_PORT_TYPE (right : N) : N := N.shiftl 1 (right + 16).
Definition MACH_PORT_TYPE_NONE : N := 0.
Definition MACH_PORT_TYPE_SEND : N := Eval compute in MACH_PORT_TYPE MACH_PORT_RIGHT_SEND.
Definition MACH_PORT_TYPE_RECEIVE : N := Eval compute in MACH_PORT_TYPE MACH_PORT_RIGHT_RECEIVE.
Definition MACH_PORT_TYPE_SEND_ONCE : N := Eval compute in MACH_PORT_TYPE MACH_PORT_RIGHT_SEND_ONCE.
Definition MACH_PORT_TYPE_PORT_SET : N := Eval compute in MACH_PORT_TYPE MACH_PORT_RIGHT_PORT_SET.
Definition MACH_PORT_TYPE_DEAD_NAME : N := Eval compute in MACH_PORT_TYPE MACH_PORT_RIGHT_DEAD_NAME.
Definition MACH_PORT_TYPE_SEND_RECEIVE : N :=
  Eval compute in N.lor MACH_PORT_TYPE_SEND MACH_PORT_TYPE_RECEIVE.
Definition MACH_PORT_TYPE_SEND_RIGHTS : N :=
  Eval compute in N.lor MACH_PORT_TYPE_SEND MACH_PORT_TYPE_SEND_ONCE.
Definition MACH_PORT_TYPE_PORT_RIGHTS : N :=
  Eval compute in N.lor MACH_PORT_TYPE_SEND_RIGHTS MACH_PORT_TYPE_RECEIVE.
Definition MACH_PORT_TYPE_PORT_OR_DEAD : N :=
  Eval compute in N.lor MACH_PORT_TYPE_PORT_RIGHTS MACH_PORT_TYPE_DEAD_NAME.
Definition MACH_PORT_TYPE_ALL_RIGHTS : N :=
  Eval compute in N.lor MACH_PORT_TYPE_PORT_OR_DEAD MACH_PORT_TYPE_PORT_SET.
Definition MACH_PORT_TYPE_DNREQUEST : N := 2 ^ 31.
Definition MACH_PORT_TYPE_MAREQUEST : N := 2 ^ 30.
Definition MACH_PORT_QLIMIT_DEFAULT : N := 5.

Definition MACH_MSG_TYPE_MOVE_RECEIVE : N := 16.
Definition MACH_MSG_TYPE_MOVE_SEND : N := 17.
Definition MACH_MSG_TYPE_MOVE_SEND_ONCE : N := 18.
Definition MACH_MSG_TYPE_COPY_SEND : N := 19.
Definition MACH_MSG_TYPE_MAKE_SEND : N := 20.
Definition MACH_MSG_TYPE_MAKE_SEND_ONCE : N := 21.
Definition MACH_MSG_TYPE_PORT_RECEIVE : N := MACH_MSG_TYPE_MOVE_RECEIVE.
Definition MACH_MSG_TYPE_PORT_SEND : N := MACH_MSG_TYPE_MOVE_SEND.
Definition MACH_MSG_TYPE_PORT_SEND_ONCE : N := MACH_MSG_TYPE_MOVE_SEND_ONCE.

Definition MACH_MSG_SUCCESS : N := 0.
Definition MACH_RCV_TOO_LARGE : N := 0x10004004.
Definition MACH_RCV_PORT_DIED : N := 0x10004009.
Definition MACH_RCV_PORT_CHANGED : N := 0x10004006.
Definition MACH_SEND_INVALID_NOTIFY : N := 0x1000000b.
Definition MACH_SEND_NO_NOTIFY : N := 0x1000000e.
Definition MACH_SEND_NOTIFY_IN_PROGRESS : N := 0x10000006.

(** ** User references (ipc/port.h) *)

Definition MACH_PORT_UREFS_MAX : N := 65535.
(** [urefs] is unsigned and [delta] a signed 32-bit integer; the sums are taken
    on unsigned integers. *)
Definition urefs_add (urefs : N) (delta : Z) : N := Z.to_N ((Z.of_N urefs + delta) mod 2 ^ 32).
Definition MACH_PORT_UREFS_OVERFLOW (urefs : N) (delta : Z) : bool :=
  (0 <? delta)%Z && ((urefs_add urefs delta <=? urefs) || (MACH_PORT_UREFS_MAX <? urefs_add urefs delta)).
Definition MACH_PORT_UREFS_UNDERFLOW (urefs : N) (delta : Z) : bool :=
  (delta <? 0)%Z && (Z.of_N urefs <? - delta)%Z.

(** ** Entries (ipc/ipc_entry.h) *)

(** [ie_index] is the union of [ie_request] and [ie_next_free]. *)
Record ipc_entry := IEntry {
  ie_name : N;
  ie_bits : N;
  ie_object : N;
  ie_index : N;
}.
Definition set_ie_name (v : N) (r : ipc_entry) : ipc_entry :=
  IEntry v (ie_bits r) (ie_object r) (ie_index r).
Definition set_ie_bits (v : N) (r : ipc_entry) : ipc_entry :=
  IEntry (ie_name r) v (ie_object r) (ie_index r).
Definition set_ie_object (v : N) (r : ipc_entry) : ipc_entry :=
  IEntry (ie_name r) (ie_bits r) v (ie_index r).
Definition set_ie_index (v : N) (r : ipc_entry) : ipc_entry :=
  IEntry (ie_name r) (ie_bits r) (ie_object r) v.

Definition ie_request (e : ipc_entry) : N := u32 (ie_index e).
Definition ie_next_free (e : ipc_entry) : N := ie_index e.
(** A write to the 32-bit member keeps the upper half of the word. *)
Definition set_ie_request (v : N) (e : ipc_entry) : ipc_entry :=
  set_ie_index (ie_index e - u32 (ie_index e) + v) e.
Definition set_ie_next_free (v : N) (e : ipc_entry) : ipc_entry := set_ie_index v e.

Definition IE_NULL : N := 0.
Definition IE_BITS_UREFS_MASK : N := 0x0000ffff.
Definition IE_BITS_UREFS (bits : N) : N := N.land bits IE_BITS_UREFS_MASK.
Definition IE_BITS_TYPE_MASK : N := 0x001f0000.
Definition IE_BITS_TYPE (bits : N) : N := N.land bits IE_BITS_TYPE_MASK.
Definition IE_BITS_MAREQUEST : N := 0x00200000.
Definition IE_BITS_RIGHT_MASK : N := 0x003fffff.
Definition IE_BITS_GEN_MASK : N := 0.
Definition IE_BITS_GEN_ONE : N := 0.

(** ** Objects, ports and port sets *)

Record ipc_object := IObject {
  io_references : N;
  io_bits : N;
}.
Definition set_io_references (v : N) (r : ipc_object) : ipc_object :=
  IObject v (io_bits r).
Definition set_io_bits (v : N) (r : ipc_object) : ipc_object :=
  IObject (io_references r) v.

Definition IO_NULL : N := 0.
Definition IO_DEAD : N := 2 ^ 64 - 1.
Definition IO_VALID (io : N) : bool := negb (io =? IO_NULL) && negb (io =? IO_DEAD).
Definition IP_NULL : N := IO_NULL.
Definition IP_DEAD : N := IO_DEAD.
Definition IPS_NULL : N := IO_NULL.
Definition IO_BITS_KOTYPE : N := 0x0000ffff.
Definition IO_BITS_OTYPE : N := 0x3fff0000.
Definition IO_BITS_PROTECTED_PAYLOAD : N := 0x40000000.
Definition IO_BITS_ACTIVE : N := 0x80000000.
Definition IKOT_NONE : N := 0.
Definition IOT_PORT : N := 0.
Definition IOT_PORT_SET : N := 1.
Definition IOT_NUMBER : N := 2.

(** [(int)(io)->io_bits < 0]. *)
Definition io_active (o : ipc_object) : bool := 2 ^ 31 <=? u32 (io_bits o).
Definition io_otype (o : ipc_object) : N := N.shiftr (N.land (io_bits o) IO_BITS_OTYPE) 16.
Definition io_kotype (o : ipc_object) : N := N.land (io_bits o) IO_BITS_KOTYPE.
Definition io_makebits (active : bool) (otype kotype : N) : N :=
  N.lor (N.lor (if active then IO_BITS_ACTIVE else 0) (N.shiftl otype 16)) kotype.
(** [refs++] and [refs--] on [unsigned int]. *)
Definition incr (x : N) : N := u32 (x + 1).
Definition decr (x : N) : N := u32_sub x 1.
Definition io_reference (o : ipc_object) : ipc_object := set_io_references (incr (io_references o)) o.
Definition io_release (o : ipc_object) : ipc_object := set_io_references (decr (io_references o)) o.

(** Queues of messages and of waiting threads; the head is dequeued first. *)
Record ipc_mqueue := IMqueue {
  imq_messages : list N;
  imq_threads : list N;
}.
Definition set_imq_messages (v : list N) (r : ipc_mqueue) : ipc_mqueue :=
  IMqueue v (imq_threads r).
Definition set_imq_threads (v : list N) (r : ipc_mqueue) : ipc_mqueue :=
  IMqueue (imq_messages r) v.

Record ipc_target := ITarget {
  ipt_object : ipc_object;
  ipt_name : N;
  ipt_messages : ipc_mqueue;
}.
Definition set_ipt_object (v : ipc_object) (r : ipc_target) : ipc_target :=
  ITarget v (ipt_name r) (ipt_messages r).
Definition set_ipt_name (v : N) (r : ipc_target) : ipc_target :=
  ITarget (ipt_object r) v (ipt_messages r).
Definition set_ipt_messages (v : ipc_mqueue) (r : ipc_target) : ipc_target :=
  ITarget (ipt_object r) (ipt_name r) v.

(** A dead-name request: [ipr_notify] is the union of [ipr_soright] and, in a
    free slot, [ipr_next]. *)
Record ipc_port_request := IPR {
  ipr_notify : N;
  ipr_name : N;
}.
Definition set_ipr_notify (v : N) (r : ipc_port_request) : ipc_port_request :=
  IPR v (ipr_name r).
Definition set_ipr_name (v : N) (r : ipc_port_request) : ipc_port_request :=
  IPR (ipr_notify r) v.

(** A table of dead-name requests at address [ipr_table].  Element 0 of the C array is the header
    [ipr_next], [ipr_size] (here an index into [ipc_table_dnrequests]); slot
    [i] of [ipr_slots] is element [i + 1]. *)
Record dnrequests := DnTable {
  ipr_table : N;
  ipr_next : N;
  ipr_size : N;
  ipr_slots : list ipc_port_request;
}.
Definition set_ipr_table (v : N) (r : dnrequests) : dnrequests :=
  DnTable v (ipr_next r) (ipr_size r) (ipr_slots r).
Definition set_ipr_next (v : N) (r : dnrequests) : dnrequests :=
  DnTable (ipr_table r) v (ipr_size r) (ipr_slots r).
Definition set_ipr_size (v : N) (r : dnrequests) : dnrequests :=
  DnTable (ipr_table r) (ipr_next r) v (ipr_slots r).
Definition set_ipr_slots (v : list ipc_port_request) (r : dnrequests) : dnrequests :=
  DnTable (ipr_table r) (ipr_next r) (ipr_size r) v.

(** [ip_data] is the union of [ip_receiver], [ip_destination] and
    [ip_timestamp]. *)
Record ipc_port := IPort {
  ip_target : ipc_target;
  ip_cur_target : N;
  ip_data : N;
  ip_kobject : N;
  ip_mscount : N;
  ip_srights : N;
  ip_sorights : N;
  ip_nsrequest : N;
  ip_pdrequest : N;
  ip_dnrequests : option dnrequests;
  ip_pset : N;
  ip_seqno : N;
  ip_msgcount : N;
  ip_qlimit : N;
  ip_blocked : list N;
  ip_protected_payload : N;
}.
Definition set_ip_target (v : ipc_target) (r : ipc_port) : ipc_port :=
  IPort v (ip_cur_target r) (ip_data r) (ip_kobject r) (ip_mscount r) (ip_srights r) (ip_sorights
    r) (ip_nsrequest r) (ip_pdrequest r) (ip_dnrequests r) (ip_pset r) (ip_seqno r)
    (ip_msgcount r) (ip_qlimit r) (ip_blocked r) (ip_protected_payload r).
Definition set_ip_cur_target (v : N) (r : ipc_port) : ipc_port :=
  IPort (ip_target r) v (ip_data r) (ip_kobject r) (ip_mscount r) (ip_srights r) (ip_sorights r)
    (ip_nsrequest r) (ip_pdrequest r) (ip_dnrequests r) (ip_pset r) (ip_seqno r) (ip_msgcount
    r) (ip_qlimit r) (ip_blocked r) (ip_protected_payload r).
Definition set_ip_data (v : N) (r : ipc_port) : ipc_port :=
  IPort (ip_target r) (ip_cur_target r) v (ip_kobject r) (ip_mscount r) (ip_srights r)
    (ip_sorights r) (ip_nsrequest r) (ip_pdrequest r) (ip_dnrequests r) (ip_pset r) (ip_seqno
    r) (ip_msgcount r) (ip_qlimit r) (ip_blocked r) (ip_protected_payload r).
Definition set_ip_kobject (v : N) (r : ipc_port) : ipc_port :=
  IPort (ip_target r) (ip_cur_target r) (ip_data r) v (ip_mscount r) (ip_srights r) (ip_sorights
    r) (ip_nsrequest r) (ip_pdrequest r) (ip_dnrequests r) (ip_pset r) (ip_seqno r)
    (ip_msgcount r) (ip_qlimit r) (ip_blocked r) (ip_protected_payload r).
Definition set_ip_mscount (v : N) (r : ipc_port) : ipc_port :=
  IPort (ip_target r) (ip_cur_target r) (ip_data r) (ip_kobject r) v (ip_srights r) (ip_sorights
    r) (ip_nsrequest r) (ip_pdrequest r) (ip_dnrequests r) (ip_pset r) (ip_seqno r)
    (ip_msgcount r) (ip_qlimit r) (ip_blocked r) (ip_protected_payload r).
Definition set_ip_srights (v : N) (r : ipc_port) : ipc_port :=
  IPort (ip_target r) (ip_cur_target r) (ip_data r) (ip_kobject r) (ip_mscount r) v (ip_sorights
    r) (ip_nsrequest r) (ip_pdrequest r) (ip_dnrequests r) (ip_pset r) (ip_seqno r)
    (ip_msgcount r) (ip_qlimit r) (ip_blocked r) (ip_protected_payload r).
Definition set_ip_sorights (v : N) (r : ipc_port) : ipc_port :=
  IPort (ip_target r) (ip_cur_target r) (ip_data r) (ip_kobject r) (ip_mscount r) (ip_srights r) v
    (ip_nsrequest r) (ip_pdrequest r) (ip_dnrequests r) (ip_pset r) (ip_seqno r) (ip_msgcount
    r) (ip_qlimit r) (ip_blocked r) (ip_protected_payload r).
Definition set_ip_nsrequest (v : N) (r : ipc_port) : ipc_port :=
  IPort (ip_target r) (ip_cur_target r) (ip_data r) (ip_kobject r) (ip_mscount r) (ip_srights r)
    (ip_sorights r) v (ip_pdrequest r) (ip_dnrequests r) (ip_pset r) (ip_seqno r) (ip_msgcount
    r) (ip_qlimit r) (ip_blocked r) (ip_protected_payload r).
Definition set_ip_pdrequest (v : N) (r : ipc_port) : ipc_port :=
  IPort (ip_target r) (ip_cur_target r) (ip_data r) (ip_kobject r) (ip_mscount r) (ip_srights r)
    (ip_sorights r) (ip_nsrequest r) v (ip_dnrequests r) (ip_pset r) (ip_seqno r) (ip_msgcount
    r) (ip_qlimit r) (ip_blocked r) (ip_protected_payload r).
Definition set_ip_dnrequests (v : option dnrequests) (r : ipc_port) : ipc_port :=
  IPort (ip_target r) (ip_cur_target r) (ip_data r) (ip_kobject r) (ip_mscount r) (ip_srights r)
    (ip_sorights r) (ip_nsrequest r) (ip_pdrequest r) v (ip_pset r) (ip_seqno r) (ip_msgcount
    r) (ip_qlimit r) (ip_blocked r) (ip_protected_payload r).
Definition set_ip_pset (v : N) (r : ipc_port) : ipc_port :=
  IPort (ip_target r) (ip_cur_target r) (ip_data r) (ip_kobject r) (ip_mscount r) (ip_srights r)
    (ip_sorights r) (ip_nsrequest r) (ip_pdrequest r) (ip_dnrequests r) v (ip_seqno r)
    (ip_msgcount r) (ip_qlimit r) (ip_blocked r) (ip_protected_payload r).
Definition set_ip_seqno (v : N) (r : ipc_port) : ipc_port :=
  IPort (ip_target r) (ip_cur_target r) (ip_data r) (ip_kobject r) (ip_mscount r) (ip_srights r)
    (ip_sorights r) (ip_nsrequest r) (ip_pdrequest r) (ip_dnrequests r) (ip_pset r) v
    (ip_msgcount r) (ip_qlimit r) (ip_blocked r) (ip_protected_payload r).
Definition set_ip_msgcount (v : N) (r : ipc_port) : ipc_port :=
  IPort (ip_target r) (ip_cur_target r) (ip_data r) (ip_kobject r) (ip_mscount r) (ip_srights r)
    (ip_sorights r) (ip_nsrequest r) (ip_pdrequest r) (ip_dnrequests r) (ip_pset r) (ip_seqno
    r) v (ip_qlimit r) (ip_blocked r) (ip_protected_payload r).
Definition set_ip_qlimit (v : N) (r : ipc_port) : ipc_port :=
  IPort (ip_target r) (ip_cur_target r) (ip_data r) (ip_kobject r) (ip_mscount r) (ip_srights r)
    (ip_sorights r) (ip_nsrequest r) (ip_pdrequest r) (ip_dnrequests r) (ip_pset r) (ip_seqno
    r) (ip_msgcount r) v (ip_blocked r) (ip_protected_payload r).
Definition set_ip_blocked (v : list N) (r : ipc_port) : ipc_port :=
  IPort (ip_target r) (ip_cur_target r) (ip_data r) (ip_kobject r) (ip_mscount r) (ip_srights r)
    (ip_sorights r) (ip_nsrequest r) (ip_pdrequest r) (ip_dnrequests r) (ip_pset r) (ip_seqno
    r) (ip_msgcount r) (ip_qlimit r) v (ip_protected_payload r).
Definition set_ip_protected_payload (v : N) (r : ipc_port) : ipc_port :=
  IPort (ip_target r) (ip_cur_target r) (ip_data r) (ip_kobject r) (ip_mscount r) (ip_srights r)
    (ip_sorights r) (ip_nsrequest r) (ip_pdrequest r) (ip_dnrequests r) (ip_pset r) (ip_seqno
    r) (ip_msgcount r) (ip_qlimit r) (ip_blocked r) v.

Record ipc_pset := IPset {
  ips_target : ipc_target;
}.

Inductive kobject :=
  | KPort (p : ipc_port)
  | KPset (p : ipc_pset).

Definition ip_object (p : ipc_port) : ipc_object := ipt_object (ip_target p).
Definition ip_references (p : ipc_port) : N := io_references (ip_object p).
Definition ip_bits (p : ipc_port) : N := io_bits (ip_object p).
Definition ip_receiver_name (p : ipc_port) : N := ipt_name (ip_target p).
Definition ip_messages (p : ipc_port) : ipc_mqueue := ipt_messages (ip_target p).
Definition ip_receiver (p : ipc_port) : N := ip_data p.
Definition ip_destination (p : ipc_port) : N := ip_data p.
Definition ip_active (p : ipc_port) : bool := io_active (ip_object p).
Definition ip_kotype (p : ipc_port) : N := io_kotype (ip_object p).

Definition upd_target (f : ipc_target → ipc_target) (p : ipc_port) : ipc_port := set_ip_target (f (ip_target p)) p.
Definition upd_object (f : ipc_object → ipc_object) (t : ipc_target) : ipc_target := set_ipt_object (f (ipt_object t)) t.
Definition set_ip_receiver_name (v : N) (p : ipc_port) : ipc_port := upd_target (set_ipt_name v) p.
Definition set_ip_receiver (v : N) (p : ipc_port) : ipc_port := set_ip_data v p.
Definition set_ip_destination (v : N) (p : ipc_port) : ipc_port := set_ip_data v p.
Definition set_ip_bits (v : N) (p : ipc_port) : ipc_port := upd_target (upd_object (set_io_bits v)) p.
Definition ip_reference (p : ipc_port) : ipc_port := upd_target (upd_object io_reference) p.
Definition ip_release (p : ipc_port) : ipc_port := upd_target (upd_object io_release) p.
Definition ipc_port_flag_protected_payload_set (p : ipc_port) : ipc_port :=
  set_ip_bits (N.lor (ip_bits p) IO_BITS_PROTECTED_PAYLOAD) p.
Definition ipc_port_flag_protected_payload_clear (p : ipc_port) : ipc_port :=
  set_ip_bits (N.ldiff (ip_bits p) IO_BITS_PROTECTED_PAYLOAD) p.

Definition ips_active (p : ipc_pset) : bool := io_active (ipt_object (ips_target p)).
Definition ips_local_name (p : ipc_pset) : N := ipt_name (ips_target p).

Definition kobj_target (o : kobject) : ipc_target :=
  match o with KPort p => ip_target p | KPset p => ips_target p end.
Definition kobj_upd_target (f : ipc_target → ipc_target) (o : kobject) : kobject :=
  match o with
  | KPort p => KPort (upd_target f p)
  | KPset p => KPset (IPset (f (ips_target p)))
  end.

(** ** Msg-accepted requests, threads, messages *)

Record ipc_marequest := IMar {
  imar_space : N;
  imar_name : N;
  imar_soright : N;
}.
Definition set_imar_name (v : N) (r : ipc_marequest) : ipc_marequest :=
  IMar (imar_space r) v (imar_soright r).

Record ipc_thread := IThread {
  ith_state : N;
  ith_msize : N;
  ith_kmsg : N;
  ith_seqno : N;
}.
Definition set_ith_state (v : N) (r : ipc_thread) : ipc_thread :=
  IThread v (ith_msize r) (ith_kmsg r) (ith_seqno r).
Definition set_ith_msize (v : N) (r : ipc_thread) : ipc_thread :=
  IThread (ith_state r) v (ith_kmsg r) (ith_seqno r).
Definition set_ith_kmsg (v : N) (r : ipc_thread) : ipc_thread :=
  IThread (ith_state r) (ith_msize r) v (ith_seqno r).
Definition set_ith_seqno (v : N) (r : ipc_thread) : ipc_thread :=
  IThread (ith_state r) (ith_msize r) (ith_kmsg r) v.

Record ipc_kmsg := IKmsg {
  msgh_remote_port : N;
  msgh_size : N;
}.
Definition set_msgh_remote_port (v : N) (r : ipc_kmsg) : ipc_kmsg :=
  IKmsg v (msgh_size r).

(** Calls that a routine makes once its own work is done, in order: the
    notifications, the destruction of messages and kernel objects, and the
    wake-up of threads.  The kernel state records them. *)
Inductive call :=
  | call_notify_no_senders (port mscount : N)
  | call_notify_send_once (port : N)
  | call_notify_port_deleted (port name : N)
  | call_notify_dead_name (port name : N)
  | call_notify_port_destroyed (port right : N)
  | call_notify_msg_accepted (port name : N)
  | call_kmsg_destroy (kmsg : N)
  | call_kobject_destroy (port : N)
  | call_object_release (object : N)
  | call_thread_go (thread : N).

(** ** The kernel state *)

(** What the configuration fixes. *)
Class Config := {
  VM_MIN_KERNEL_ADDRESS : N;
  zero_entry : N;
  ipc_space_kernel : N;
  ipc_marequest_mask : N;
  ipc_table_dnrequests : list N;
}.

(** [T] is the type of the radix trees, [C] that of the object caches. *)
Record ipc_space (T : Type) := ISpace {
  is_references : N;
  is_active : bool;
  is_map : T;
  is_size : N;
  is_reverse_map : T;
  is_free_list : N;
  is_free_list_size : N;
}.
Arguments ISpace {T} _ _ _ _ _ _ _.
Arguments is_references {T} _.
Arguments is_active {T} _.
Arguments is_map {T} _.
Arguments is_size {T} _.
Arguments is_reverse_map {T} _.
Arguments is_free_list {T} _.
Arguments is_free_list_size {T} _.

Definition IS_FREE_LIST_SIZE_LIMIT : N := 64.

Record kernel (T C : Type) := Kernel {
  k_spaces : gmap N (ipc_space T);
  k_entries : gmap N ipc_entry;
  k_objects : gmap N kobject;
  k_marequests : gmap N ipc_marequest;
  k_buckets : gmap N (list N);
  k_threads : gmap N ipc_thread;
  k_kmsgs : gmap N ipc_kmsg;
  k_timestamp : N;
  k_calls : list call;
  k_caches : gmap N C;
}.

Arguments Kernel {T C} _ _ _ _ _ _ _ _ _ _.
Arguments k_spaces {T C} _.
Arguments k_entries {T C} _.
Arguments k_objects {T C} _.
Arguments k_marequests {T C} _.
Arguments k_buckets {T C} _.
Arguments k_threads {T C} _.
Arguments k_kmsgs {T C} _.
Arguments k_timestamp {T C} _.
Arguments k_calls {T C} _.
Arguments k_caches {T C} _.

Section State.
Context {T C : Type}.
#[local] Abbreviation K := (M (kernel T C)).

Definition set_is_references (v : N) (r : ipc_space T) : ipc_space T :=
  ISpace v (is_active r) (is_map r) (is_size r) (is_reverse_map r) (is_free_list r)
    (is_free_list_size r).
Definition set_is_active (v : bool) (r : ipc_space T) : ipc_space T :=
  ISpace (is_references r) v (is_map r) (is_size r) (is_reverse_map r) (is_free_list r)
    (is_free_list_size r).
Definition set_is_map (v : T) (r : ipc_space T) : ipc_space T :=
  ISpace (is_references r) (is_active r) v (is_size r) (is_reverse_map r) (is_free_list r)
    (is_free_list_size r).
Definition set_is_size (v : N) (r : ipc_space T) : ipc_space T :=
  ISpace (is_references r) (is_active r) (is_map r) v (is_reverse_map r) (is_free_list r)
    (is_free_list_size r).
Definition set_is_reverse_map (v : T) (r : ipc_space T) : ipc_space T :=
  ISpace (is_references r) (is_active r) (is_map r) (is_size r) v (is_free_list r)
    (is_free_list_size r).
Definition set_is_free_list (v : N) (r : ipc_space T) : ipc_space T :=
  ISpace (is_references r) (is_active r) (is_map r) (is_size r) (is_reverse_map r) v
    (is_free_list_size r).
Definition set_is_free_list_size (v : N) (r : ipc_space T) : ipc_space T :=
  ISpace (is_references r) (is_active r) (is_map r) (is_size r) (is_reverse_map r) (is_free_list r)
    v.
Definition set_k_spaces (v : gmap N (ipc_space T)) (r : kernel T C) : kernel T C :=
  Kernel v (k_entries r) (k_objects r) (k_marequests r) (k_buckets r) (k_threads r) (k_kmsgs r)
    (k_timestamp r) (k_calls r) (k_caches r).
Definition set_k_entries (v : gmap N ipc_entry) (r : kernel T C) : kernel T C :=
  Kernel (k_spaces r) v (k_objects r) (k_marequests r) (k_buckets r) (k_threads r) (k_kmsgs r)
    (k_timestamp r) (k_calls r) (k_caches r).
Definition set_k_objects (v : gmap N kobject) (r : kernel T C) : kernel T C :=
  Kernel (k_spaces r) (k_entries r) v (k_marequests r) (k_buckets r) (k_threads r) (k_kmsgs r)
    (k_timestamp r) (k_calls r) (k_caches r).
Definition set_k_marequests (v : gmap N ipc_marequest) (r : kernel T C) : kernel T C :=
  Kernel (k_spaces r) (k_entries r) (k_objects r) v (k_buckets r) (k_threads r) (k_kmsgs r)
    (k_timestamp r) (k_calls r) (k_caches r).
Definition set_k_buckets (v : gmap N (list N)) (r : kernel T C) : kernel T C :=
  Kernel (k_spaces r) (k_entries r) (k_objects r) (k_marequests r) v (k_threads r) (k_kmsgs r)
    (k_timestamp r) (k_calls r) (k_caches r).
Definition set_k_threads (v : gmap N ipc_thread) (r : kernel T C) : kernel T C :=
  Kernel (k_spaces r) (k_entries r) (k_objects r) (k_marequests r) (k_buckets r) v (k_kmsgs r)
    (k_timestamp r) (k_calls r) (k_caches r).
Definition set_k_kmsgs (v : gmap N ipc_kmsg) (r : kernel T C) : kernel T C :=
  Kernel (k_spaces r) (k_entries r) (k_objects r) (k_marequests r) (k_buckets r) (k_threads r) v
    (k_timestamp r) (k_calls r) (k_caches r).
Definition set_k_timestamp (v : N) (r : kernel T C) : kernel T C :=
  Kernel (k_spaces r) (k_entries r) (k_objects r) (k_marequests r) (k_buckets r) (k_threads r)
    (k_kmsgs r) v (k_calls r) (k_caches r).
Definition set_k_calls (v : list call) (r : kernel T C) : kernel T C :=
  Kernel (k_spaces r) (k_entries r) (k_objects r) (k_marequests r) (k_buckets r) (k_threads r)
    (k_kmsgs r) (k_timestamp r) v (k_caches r).
Definition set_k_caches (v : gmap N C) (r : kernel T C) : kernel T C :=
  Kernel (k_spaces r) (k_entries r) (k_objects r) (k_marequests r) (k_buckets r) (k_threads r)
    (k_kmsgs r) (k_timestamp r) (k_calls r) v.

(** *** Reads and writes through pointers *)

Definition load_space (a : N) : K (ipc_space T) := s ← get; deref (k_spaces s !! a).
Definition upd_space (a : N) (f : ipc_space T → ipc_space T) : K unit :=
  x ← load_space a; modify (λ s, set_k_spaces (<[a := f x]> (k_spaces s)) s).
Definition load_entry (a : N) : K ipc_entry := s ← get; deref (k_entries s !! a).
Definition upd_entry (a : N) (f : ipc_entry → ipc_entry) : K unit :=
  x ← load_entry a; modify (λ s, set_k_entries (<[a := f x]> (k_entries s)) s).
Definition load_object (a : N) : K kobject := s ← get; deref (k_objects s !! a).
Definition put_object (a : N) (o : kobject) : K unit :=
  modify (λ s, set_k_objects (<[a := o]> (k_objects s)) s).
Definition upd_object_target (a : N) (f : ipc_target → ipc_target) : K unit :=
  o ← load_object a; put_object a (kobj_upd_target f o).
(** A pointer that is used as a port points to a port. *)
Definition load_port (a : N) : K ipc_port :=
  o ← load_object a; match o with KPort p => mret p | KPset _ => wrong end.
Definition upd_port (a : N) (f : ipc_port → ipc_port) : K unit :=
  p ← load_port a; put_object a (KPort (f p)).
Definition load_pset (a : N) : K ipc_pset :=
  o ← load_object a; match o with KPset p => mret p | KPort _ => wrong end.
Definition upd_pset (a : N) (f : ipc_target → ipc_target) : K unit :=
  p ← load_pset a; put_object a (KPset (IPset (f (ips_target p)))).
Definition load_thread (a : N) : K ipc_thread := s ← get; deref (k_threads s !! a).
Definition upd_thread (a : N) (f : ipc_thread → ipc_thread) : K unit :=
  x ← load_thread a; modify (λ s, set_k_threads (<[a := f x]> (k_threads s)) s).
Definition load_kmsg (a : N) : K ipc_kmsg := s ← get; deref (k_kmsgs s !! a).
Definition upd_kmsg (a : N) (f : ipc_kmsg → ipc_kmsg) : K unit :=
  x ← load_kmsg a; modify (λ s, set_k_kmsgs (<[a := f x]> (k_kmsgs s)) s).
Definition load_marequest (a : N) : K ipc_marequest := s ← get; deref (k_marequests s !! a).
Definition upd_marequest (a : N) (f : ipc_marequest → ipc_marequest) : K unit :=
  x ← load_marequest a; modify (λ s, set_k_marequests (<[a := f x]> (k_marequests s)) s).
Definition later (c : call) : K unit := modify (λ s, set_k_calls (k_calls s ++ [c]) s).

(** An operation of a radix tree inside a space. *)
Definition on_map {A} (sp : N) (c : M T A) : K A :=
  x ← load_space sp;
  '(r, t) ← deref (c (is_map x));
  upd_space sp (set_is_map t);; mret r.
Definition on_reverse_map {A} (sp : N) (c : M T A) : K A :=
  x ← load_space sp;
  '(r, t) ← deref (c (is_reverse_map x));
  upd_space sp (set_is_reverse_map t);; mret r.

(** *** Object caches *)

Definition ipc_entry_cache : N := 0.
(** [ipc_object_caches[otype]]. *)
Definition ipc_object_cache (otype : N) : N := 1 + otype.
Definition ipc_marequest_cache : N := 3.
Definition ipc_space_cache : N := 4.
(** [kalloc] of the dead-name request tables. *)
Definition ipc_table_cache : N := 5.

Context `{!KmemCache C}.

Definition cache_alloc (i : N) : K N :=
  s ← get;
  c ← deref (k_caches s !! i);
  let '(a, c) := kmem_cache_alloc c in
  modify (λ s, set_k_caches (<[i := c]> (k_caches s)) s);;
  mret (default 0 a).
Definition cache_free (i a : N) : K unit :=
  s ← get;
  c ← deref (k_caches s !! i);
  modify (λ s, set_k_caches (<[i := kmem_cache_free c a]> (k_caches s)) s).

(** The content of fresh memory is [garbage]. *)
Definition ie_alloc (garbage : ipc_entry) : K N :=
  a ← cache_alloc ipc_entry_cache;
  if a =? IE_NULL then mret a
  else modify (λ s, set_k_entries (<[a := garbage]> (k_entries s)) s);; mret a.
Definition ie_free (a : N) : K unit :=
  _ ← load_entry a;
  modify (λ s, set_k_entries (delete a (k_entries s)) s);; cache_free ipc_entry_cache a.
Definition io_alloc (otype : N) (garbage : kobject) : K N :=
  a ← cache_alloc (ipc_object_cache otype);
  if a =? IO_NULL then mret a else put_object a garbage;; mret a.
Definition io_free (otype a : N) : K unit :=
  _ ← load_object a;
  modify (λ s, set_k_objects (delete a (k_objects s)) s);; cache_free (ipc_object_cache otype) a.
(** [io_check_unlock]: frees an object without references. *)
Definition io_check_unlock (a : N) : K unit :=
  o ← load_object a;
  let io := ipt_object (kobj_target o) in
  if io_references io =? 0 then io_free (io_otype io) a else mret tt.
End State.
