(* ===== verification/IpcEntry.v ===== *)
(** Entries of an IPC space: the inline routines of ipc/ipc_space.h (lookup,
    allocation from the free list, deallocation, the reverse map) and
    ipc/ipc_entry.c. *)

From S2P Require Import Prelude Kmem RdxtreeMap IpcTypes.

Open Scope N_scope.

Section Entry.
Context `{!Config} {T C : Type} `{!KeyMap T} `{!KmemCache C}.
(** Content of an entry fresh out of its cache. *)
Context (garbage : ipc_entry).
#[local] Abbreviation K := (M (kernel T C)).

(** *** Lookup *)

Definition ipc_entry_lookup (space name : N) : K N :=
  s ← load_space space;
  check (is_active s);;
  entry ← on_map space (km_lookup name);
  entry ← (if entry =? IE_NULL then mret entry
           else e ← load_entry entry;
                mret (if IE_BITS_TYPE (ie_bits e) =? MACH_PORT_TYPE_NONE then IE_NULL else entry));
  (if entry =? IE_NULL then mret tt
   else e ← load_entry entry; check (negb (IE_BITS_TYPE (ie_bits e) =? 0)));;
  mret entry.

(** *** The free list *)

(** KERN_SUCCESS with a name and an entry, or KERN_NO_SPACE. *)
Definition ipc_entry_get (space : N) : K (kern_return_t * option (N * N)) :=
  s ← load_space space;
  check (is_active s);;
  let free_entry := is_free_list s in
  if free_entry =? IE_NULL then mret (KERN_NO_SPACE, None) else
  e ← load_entry free_entry;
  upd_space space (λ s, set_is_free_list (ie_next_free e) s);;
  upd_space space (λ s, set_is_free_list_size (u64_sub (is_free_list_size s) 1) s);;
  check (N.ldiff (ie_bits e) IE_BITS_GEN_MASK =? 0);;
  let gen := u32 (ie_bits e + IE_BITS_GEN_ONE) in
  upd_entry free_entry (set_ie_bits gen);;
  upd_entry free_entry (set_ie_request 0);;
  let new_name := ie_name e in
  check (MACH_PORT_NAME_VALID new_name);;
  check (ie_object e =? IO_NULL);;
  upd_space space (λ s, set_is_size (u64 (is_size s + 1)) s);;
  mret (KERN_SUCCESS, Some (new_name, free_entry)).

Definition ipc_entry_dealloc (space name entry : N) : K unit :=
  s ← load_space space;
  check (is_active s);;
  e ← load_entry entry;
  check (ie_object e =? IO_NULL);;
  check (ie_request e =? 0);;
  (if is_free_list_size s <? IS_FREE_LIST_SIZE_LIMIT then
     upd_space space (λ s, set_is_free_list_size (u64 (is_free_list_size s + 1)) s);;
     upd_entry entry (λ e, set_ie_bits (N.land (ie_bits e) IE_BITS_GEN_MASK) e);;
     upd_entry entry (set_ie_next_free (is_free_list s));;
     upd_space space (set_is_free_list entry)
   else
     _ ← on_map space (km_remove name);
     ie_free entry);;
  upd_space space (λ s, set_is_size (u64_sub (is_size s) 1) s).

(** *** The reverse map *)

(** The macro [KEY]; [rdxtree_key_t] is 32 bits wide. *)
Definition KEY (x : N) : N := u32 (N.shiftr (u64_sub x VM_MIN_KERNEL_ADDRESS) 3).
Definition check_key (x : N) : K unit := check (N.land x 7 =? 0).

Definition ipc_reverse_insert (space obj entry : N) : K kern_return_t :=
  check (negb (space =? 0));;
  check (negb (obj =? IO_NULL));;
  check_key obj;;
  on_reverse_map space (km_insert (KEY obj) entry).
Definition ipc_reverse_remove (space obj : N) : K N :=
  check (negb (space =? 0));;
  check (negb (obj =? IO_NULL));;
  check_key obj;;
  on_reverse_map space (km_remove (KEY obj)).
Definition ipc_reverse_lookup (space obj : N) : K N :=
  check (negb (space =? 0));;
  check (negb (obj =? IO_NULL));;
  check_key obj;;
  on_reverse_map space (km_lookup (KEY obj)).

(** *** Allocation *)

Definition ipc_entry_alloc (space : N) : K (kern_return_t * option (N * N)) :=
  s ← load_space space;
  if negb (is_active s) then mret (KERN_INVALID_TASK, None) else
  '(kr, r) ← ipc_entry_get space;
  if kr =? KERN_SUCCESS then mret (kr, r) else
  entry ← ie_alloc garbage;
  if entry =? IE_NULL then mret (KERN_RESOURCE_SHORTAGE, None) else
  '(kr, key) ← on_map space (km_insert_alloc entry);
  match key with
  | None => ie_free entry;; mret (kr, None)
  | Some key =>
      upd_space space (λ s, set_is_size (u64 (is_size s + 1)) s);;
      upd_entry entry (λ e, set_ie_bits 0 e);;
      upd_entry entry (λ e, set_ie_object IO_NULL e);;
      upd_entry entry (λ e, set_ie_request 0 e);;
      upd_entry entry (λ e, set_ie_name key e);;
      mret (KERN_SUCCESS, Some (key, entry))
  end.

(** The loop that rips [entry] out of the free list: [prev] is the entry whose
    [ie_next_free] points to [e], 0 for the head of the list. *)
Fixpoint free_list_unlink (fuel : nat) (space entry prev e : N) : K unit :=
  match fuel with
  | O => wrong
  | S fuel =>
      x ← load_entry e;
      if e =? entry then
        if prev =? 0 then upd_space space (set_is_free_list (ie_next_free x))
        else upd_entry prev (set_ie_next_free (ie_next_free x))
      else free_list_unlink fuel space entry e (ie_next_free x)
  end.

(** The code for a name that has no entry. *)
Definition entry_alloc_new (space name : N) (sl : option km_slot) : K (kern_return_t * option N) :=
  entry ← ie_alloc garbage;
  if entry =? IE_NULL then mret (KERN_RESOURCE_SHORTAGE, None) else
  upd_entry entry (set_ie_bits 0);;
  upd_entry entry (set_ie_object IO_NULL);;
  upd_entry entry (set_ie_request 0);;
  upd_entry entry (set_ie_name name);;
  kr ← match sl with
       | Some sl => _ ← on_map space (km_replace_slot sl entry); mret KERN_SUCCESS
       | None => on_map space (km_insert name entry)
       end;
  if negb (kr =? KERN_SUCCESS) then ie_free entry;; mret (kr, None) else
  upd_space space (λ s, set_is_size (u64 (is_size s + 1)) s);;
  mret (KERN_SUCCESS, Some entry).

Definition ipc_entry_alloc_name (space name : N) : K (kern_return_t * option N) :=
  check (MACH_PORT_NAME_VALID name);;
  s ← load_space space;
  if negb (is_active s) then mret (KERN_INVALID_TASK, None) else
  sl ← on_map space (km_lookup_slot name);
  entry ← match sl with Some sl => on_map space (km_slot_read sl) | None => mret IE_NULL end;
  if entry =? IE_NULL then entry_alloc_new space name sl else
  e ← load_entry entry;
  if negb (IE_BITS_TYPE (ie_bits e) =? 0) then mret (KERN_SUCCESS, Some entry) else
  s ← load_space space;
  k ← get;
  free_list_unlink (S (size (k_entries k))) space entry 0 (is_free_list s);;
  upd_space space (λ s, set_is_free_list_size (u64_sub (is_free_list_size s) 1) s);;
  upd_entry entry (set_ie_bits 0);;
  check (ie_object e =? IO_NULL);;
  check (ie_name e =? name);;
  upd_entry entry (set_ie_request 0);;
  upd_space space (λ s, set_is_size (u64 (is_size s + 1)) s);;
  mret (KERN_SUCCESS, Some entry).
End Entry.
