(* ===== verification/IpcPort.v ===== *)
(** Ports and port sets: ipc/ipc_port.c, ipc/ipc_port.h, ipc/ipc_pset.c, the
    reference counts of ipc/ipc_object.c, the queue routines of
    ipc/ipc_mqueue.c that ports use, ipc/ipc_table.c and ipc/ipc_thread.c.

    A routine ends with calls into other parts of the kernel (notifications,
    thread wake-ups, destruction of messages); [later] records them in their
    order. *)

From S2P Require Import Prelude Kmem RdxtreeMap IpcTypes IpcEntry.

Open Scope N_scope.

(** ** Table sizes (ipc/ipc_table.c) *)

(** The powers of two up to the page size; the sizes written and the size
    reached. *)
Fixpoint table_fill_powers (fuel : nat) (num minsize elemsize page size : N) : list N * N :=
  match fuel with
  | O => ([], size)
  | S fuel =>
      if (num =? 0) || (page <=? size) then ([], size)
      else
        let hit := minsize <=? size in
        let '(l, size') :=
          table_fill_powers fuel (if hit then num - 1 else num) minsize elemsize page (N.shiftl size 1) in
        (if hit then size / elemsize :: l else l, size')
  end.

(** Increments of a page, then of two, four and eight pages, each 15 times. *)
Fixpoint table_fill_pages (fuel : nat) (num minsize elemsize page size incrsize period : N) : list N :=
  match fuel with
  | O => []
  | S fuel =>
      if num =? 0 then []
      else if period =? 15 then
        table_fill_pages fuel num minsize elemsize page size
          (if incrsize <? N.shiftl page 3 then N.shiftl incrsize 1 else incrsize) 0
      else
        let hit := minsize <=? size in
        let l := table_fill_pages fuel (if hit then num - 1 else num) minsize elemsize page
                   (size + incrsize) incrsize (period + 1) in
        if hit then size / elemsize :: l else l
  end.

Definition ipc_table_fill (fuel : nat) (num min elemsize page : N) : list N :=
  let minsize := min * elemsize in
  let '(l, size) := table_fill_powers fuel num minsize elemsize page 1 in
  l ++ table_fill_pages fuel (num - N.of_nat (length l)) minsize elemsize page size page 0.

Definition ipc_table_dnrequests_size : N := 64.
(** [ipc_table_init]: the last element has size zero. *)
Definition ipc_table_init (elemsize page : N) : list N :=
  ipc_table_fill 200 (ipc_table_dnrequests_size - 1) 2 elemsize page ++ [0].

Section Port.
Context `{!Config} {T C : Type} `{!KeyMap T} `{!KmemCache C}.
#[local] Abbreviation K := (M (kernel T C)).

(** ** References *)

Definition ipc_object_reference (object : N) : K unit :=
  o ← load_object object;
  check (negb (io_references (ipt_object (kobj_target o)) =? 0));;
  upd_object_target object (upd_object io_reference).
Definition ipc_object_release (object : N) : K unit :=
  o ← load_object object;
  check (negb (io_references (ipt_object (kobj_target o)) =? 0));;
  upd_object_target object (upd_object io_release);;
  io_check_unlock object.
Definition ipc_port_release (port : N) : K unit := ipc_object_release port.

(** ** Queues *)

(** [ipc_thread_dequeue] on the queue of receivers of the target [a]. *)
Definition mqueue_dequeue_thread (a : N) : K (option N) :=
  o ← load_object a;
  match imq_threads (ipt_messages (kobj_target o)) with
  | [] => mret None
  | th :: r =>
      upd_object_target a (λ t, set_ipt_messages (set_imq_threads r (ipt_messages t)) t);; mret (Some th)
  end.

(** The [while] loop of [ipc_mqueue_move] for one message: true when a blocked
    receiver took it. *)
Fixpoint move_to_receiver (fuel : nat) (dest port kmsg : N) : K bool :=
  match fuel with
  | O => wrong
  | S fuel =>
      th ← mqueue_dequeue_thread dest;
      match th with
      | None => mret false
      | Some th =>
          o ← load_object dest;
          check (match imq_messages (ipt_messages (kobj_target o)) with [] => true | _ => false end);;
          later (call_thread_go th);;
          m ← load_kmsg kmsg;
          t ← load_thread th;
          if msgh_size m <=? ith_msize t then
            upd_thread th (set_ith_state MACH_MSG_SUCCESS);;
            upd_thread th (set_ith_kmsg kmsg);;
            p ← load_port port;
            upd_thread th (set_ith_seqno (ip_seqno p));;
            upd_port port (set_ip_seqno (incr (ip_seqno p)));;
            mret true
          else
            upd_thread th (set_ith_state MACH_RCV_TOO_LARGE);;
            upd_thread th (set_ith_msize (msgh_size m));;
            move_to_receiver fuel dest port kmsg
      end
  end.

(** The [for] loop over the messages of [source]. *)
Fixpoint mqueue_move_loop (msgs : list N) (dest source port : N) : K unit :=
  match msgs with
  | [] => mret tt
  | kmsg :: msgs =>
      m ← load_kmsg kmsg;
      (if negb (msgh_remote_port m =? port) then mret tt
       else
         upd_object_target source
           (λ t, set_ipt_messages
                   (set_imq_messages (filter (λ k, k ≠ kmsg) (imq_messages (ipt_messages t)))
                      (ipt_messages t)) t);;
         d ← load_object dest;
         taken ← move_to_receiver (S (length (imq_threads (ipt_messages (kobj_target d)))))
                   dest port kmsg;
         if taken : bool then mret tt
         else
           upd_object_target dest
             (λ t, set_ipt_messages
                     (set_imq_messages (imq_messages (ipt_messages t) ++ [kmsg]) (ipt_messages t)) t));;
      mqueue_move_loop msgs dest source port
  end.
Definition ipc_mqueue_move (dest source port : N) : K unit :=
  o ← load_object source;
  mqueue_move_loop (imq_messages (ipt_messages (kobj_target o))) dest source port.

Fixpoint wake_threads (ths : list N) (mr : N) : K unit :=
  match ths with
  | [] => mret tt
  | th :: ths => upd_thread th (set_ith_state mr);; later (call_thread_go th);; wake_threads ths mr
  end.
Definition ipc_mqueue_changed (a mr : N) : K unit :=
  o ← load_object a;
  upd_object_target a (λ t, set_ipt_messages (set_imq_threads [] (ipt_messages t)) t);;
  wake_threads (imq_threads (ipt_messages (kobj_target o))) mr.

(** ** Port sets *)

Definition ipc_pset_add (pset port : N) : K unit :=
  s ← load_pset pset;
  check (ips_active s);;
  p ← load_port port;
  check (ip_active p);;
  check (ip_pset p =? IPS_NULL);;
  upd_port port (set_ip_pset pset);;
  upd_port port (set_ip_cur_target pset);;
  upd_pset pset (upd_object io_reference);;
  ipc_mqueue_move pset port port;;
  p ← load_port port;
  check (match imq_messages (ip_messages p) with [] => true | _ => false end);;
  ipc_mqueue_changed port MACH_RCV_PORT_CHANGED;;
  p ← load_port port;
  check (match imq_threads (ip_messages p) with [] => true | _ => false end).

Definition ipc_pset_remove (pset port : N) : K unit :=
  p ← load_port port;
  check (ip_active p);;
  check (ip_pset p =? pset);;
  upd_port port (set_ip_pset IPS_NULL);;
  upd_port port (set_ip_cur_target port);;
  upd_pset pset (upd_object io_release);;
  ipc_mqueue_move port pset port.

Definition ipc_pset_move (space port nset : N) : K kern_return_t :=
  p ← load_port port;
  check (ip_active p);;
  let oset := ip_pset p in
  if oset =? nset then
    mret (if (nset =? IPS_NULL) && (oset =? IPS_NULL) then KERN_NOT_IN_SET else KERN_SUCCESS)
  else if oset =? IPS_NULL then
    s ← load_pset nset;
    check (ips_active s);;
    ipc_pset_add nset port;;
    mret KERN_SUCCESS
  else if nset =? IPS_NULL then
    ipc_pset_remove oset port;;
    s ← load_pset oset;
    if ips_active s then mret KERN_SUCCESS
    else io_check_unlock oset;; mret KERN_NOT_IN_SET
  else
    s ← load_pset nset;
    check (ips_active s);;
    ipc_pset_remove oset port;;
    ipc_pset_add nset port;;
    io_check_unlock oset;;
    mret KERN_SUCCESS.

Definition ipc_pset_destroy (pset : N) : K unit :=
  s ← load_pset pset;
  check (ips_active s);;
  upd_pset pset (upd_object (λ o, set_io_bits (N.ldiff (io_bits o) IO_BITS_ACTIVE) o));;
  ipc_mqueue_changed pset MACH_RCV_PORT_DIED;;
  upd_pset pset (upd_object io_release);;
  io_check_unlock pset.

(** ** Timestamps *)

Definition ipc_port_timestamp : K N :=
  s ← get;
  put (set_k_timestamp (incr (k_timestamp s)) s);;
  mret (k_timestamp s).

(** ** Dead-name requests *)

(** [&table[index]], for [index > 0]. *)
Definition dn_slot (t : dnrequests) (i : N) : option ipc_port_request := ipr_slots t !! N.to_nat (i - 1).
Definition dn_set_slot (i : N) (r : ipc_port_request) (t : dnrequests) : dnrequests :=
  set_ipr_slots (<[N.to_nat (i - 1) := r]> (ipr_slots t)) t.

(** KERN_SUCCESS with an index, or KERN_NO_SPACE. *)
Definition ipc_port_dnrequest (port name soright : N) : K (kern_return_t * N) :=
  p ← load_port port;
  check (ip_active p);;
  check (negb (name =? MACH_PORT_NULL));;
  check (negb (soright =? IP_NULL));;
  match ip_dnrequests p with
  | None => mret (KERN_NO_SPACE, 0)
  | Some table =>
      let index := ipr_next table in
      if index =? 0 then mret (KERN_NO_SPACE, 0) else
      ipr ← deref (dn_slot table index);
      check (ipr_name ipr =? MACH_PORT_NULL);;
      let table := set_ipr_next (ipr_notify ipr) table in
      let table := dn_set_slot index (IPR soright name) table in
      upd_port port (set_ip_dnrequests (Some table));;
      mret (KERN_SUCCESS, index)
  end.

(** [ipr->ipr_name = MACH_PORT_NULL; ipr->ipr_next = free; free = i] for
    [count] elements from element [i] on. *)
Fixpoint dn_free_slots (count : nat) (i free : N) : list ipc_port_request * N :=
  match count with
  | O => ([], free)
  | S count =>
      let '(l, f) := dn_free_slots count (i + 1) i in
      (IPR free MACH_PORT_NULL :: l, f)
  end.

Definition ipc_port_dngrow (port : N) : K kern_return_t :=
  p ← load_port port;
  check (ip_active p);;
  let its := match ip_dnrequests p with None => 0 | Some otable => ipr_size otable + 1 end in
  nsize ← deref (ipc_table_dnrequests !! N.to_nat its);
  upd_port port ip_reference;;
  ntable ← (if nsize =? 0 then mret 0 else cache_alloc ipc_table_cache);
  if ntable =? 0 then ipc_port_release port;; mret KERN_RESOURCE_SHORTAGE else
  upd_port port ip_release;;
  '(osize, free, old) ←
    match ip_dnrequests p with
    | Some otable =>
        osize ← deref (ipc_table_dnrequests !! N.to_nat (ipr_size otable));
        mret (osize, ipr_next otable, take (N.to_nat (osize - 1)) (ipr_slots otable))
    | None => mret (1, 0, [])
    end;
  check (osize <? nsize);;
  let '(new, free) := dn_free_slots (N.to_nat (nsize - osize)) osize free in
  upd_port port (set_ip_dnrequests (Some (DnTable ntable free its (old ++ new))));;
  match ip_dnrequests p with
  | Some otable => cache_free ipc_table_cache (ipr_table otable);; mret KERN_SUCCESS
  | None => mret KERN_SUCCESS
  end.

Definition ipc_port_dncancel (port name index : N) : K N :=
  p ← load_port port;
  check (ip_active p);;
  check (negb (name =? MACH_PORT_NULL));;
  check (negb (index =? 0));;
  table ← deref (ip_dnrequests p);
  ipr ← deref (dn_slot table index);
  check (ipr_name ipr =? name);;
  let dnrequest := ipr_notify ipr in
  let table := dn_set_slot index (IPR (ipr_next table) MACH_PORT_NULL) table in
  let table := set_ipr_next index table in
  upd_port port (set_ip_dnrequests (Some table));;
  mret dnrequest.

Definition ipc_port_dnrename (port index oname nname : N) : K unit :=
  p ← load_port port;
  check (ip_active p);;
  table ← deref (ip_dnrequests p);
  ipr ← deref (dn_slot table index);
  check (ipr_name ipr =? oname);;
  upd_port port (set_ip_dnrequests (Some (dn_set_slot index (set_ipr_name nname ipr) table))).

(** ** Port-destroyed and no-senders requests; attributes *)

(** Returns the previous request. *)
Definition ipc_port_pdrequest (port notify : N) : K N :=
  p ← load_port port;
  check (ip_active p);;
  upd_port port (set_ip_pdrequest notify);;
  mret (ip_pdrequest p).

Definition ipc_port_nsrequest (port sync notify : N) : K N :=
  p ← load_port port;
  check (ip_active p);;
  (if (ip_srights p =? 0) && (sync <=? ip_mscount p) && negb (notify =? IP_NULL) then
     upd_port port (set_ip_nsrequest IP_NULL);;
     later (call_notify_no_senders notify (ip_mscount p))
   else upd_port port (set_ip_nsrequest notify));;
  mret (ip_nsrequest p).

(** At most [wakeup] blocked senders are woken. *)
Definition ipc_port_set_qlimit (port qlimit : N) : K unit :=
  p ← load_port port;
  check (ip_active p);;
  (if ip_qlimit p <? qlimit then
     let wakeup := N.to_nat (qlimit - ip_qlimit p) in
     upd_port port (set_ip_blocked (drop wakeup (ip_blocked p)));;
     wake_threads (take wakeup (ip_blocked p)) MACH_MSG_SUCCESS
   else mret tt);;
  upd_port port (set_ip_qlimit qlimit).

Definition ipc_port_set_mscount (port mscount : N) : K unit :=
  p ← load_port port;
  check (ip_active p);;
  upd_port port (set_ip_mscount mscount).

(** The target whose message queue the port uses. *)
Definition ipc_port_lock_mqueue (port : N) : K N :=
  p ← load_port port;
  if negb (ip_pset p =? IPS_NULL) then
    let pset := ip_pset p in
    s ← load_pset pset;
    if ips_active s then mret pset
    else ipc_pset_remove pset port;; io_check_unlock pset;; mret port
  else mret port.

Definition ipc_port_set_seqno (port seqno : N) : K unit :=
  _ ← ipc_port_lock_mqueue port;
  upd_port port (set_ip_seqno seqno).
Definition ipc_port_set_protected_payload (port payload : N) : K unit :=
  _ ← ipc_port_lock_mqueue port;
  upd_port port (set_ip_protected_payload payload);;
  upd_port port ipc_port_flag_protected_payload_set.
Definition ipc_port_clear_protected_payload (port : N) : K unit :=
  _ ← ipc_port_lock_mqueue port;
  upd_port port ipc_port_flag_protected_payload_clear.

Definition ipc_port_clear_receiver (port : N) : K unit :=
  p ← load_port port;
  check (ip_active p);;
  let pset := ip_pset p in
  (if negb (pset =? IPS_NULL) then
     ipc_pset_remove pset port;; io_check_unlock pset
   else ipc_mqueue_changed port MACH_RCV_PORT_DIED);;
  ipc_port_set_mscount port 0;;
  upd_port port (set_ip_seqno 0).

(** ** Creation *)

Definition ipc_target_init (name : N) (t : ipc_target) : ipc_target :=
  ITarget (ipt_object t) name (IMqueue [] []).

Definition ipc_port_init (port space name : N) : K unit :=
  upd_port port (upd_target (ipc_target_init name));;
  upd_port port (set_ip_receiver space);;
  upd_port port (set_ip_mscount 0);;
  upd_port port (set_ip_srights 0);;
  upd_port port (set_ip_sorights 0);;
  upd_port port (set_ip_nsrequest IP_NULL);;
  upd_port port (set_ip_pdrequest IP_NULL);;
  upd_port port (set_ip_dnrequests None);;
  upd_port port (set_ip_pset IPS_NULL);;
  upd_port port (set_ip_cur_target port);;
  upd_port port (set_ip_seqno 0);;
  upd_port port (set_ip_msgcount 0);;
  upd_port port (set_ip_qlimit MACH_PORT_QLIMIT_DEFAULT);;
  upd_port port ipc_port_flag_protected_payload_clear;;
  upd_port port (set_ip_protected_payload 0);;
  upd_port port (upd_target (λ t, set_ipt_messages (IMqueue [] []) t));;
  upd_port port (set_ip_blocked []).

(** ** Circularity *)

(** The port is not in transit. *)
Definition chain_stop (p : ipc_port) : bool :=
  negb (ip_active p) || negb (ip_receiver_name p =? MACH_PORT_NULL) || (ip_destination p =? IP_NULL).

(** The search for the end of the chain. *)
Fixpoint chain_end (fuel : nat) (base : N) : K N :=
  match fuel with
  | O => wrong
  | S fuel =>
      b ← load_port base;
      if chain_stop b then mret base else chain_end fuel (ip_destination b)
  end.

(** The loop that unlocks the chain from [dest] when [port] is its end. *)
Fixpoint unlock_circle (fuel : nat) (dest : N) : K unit :=
  match fuel with
  | O => wrong
  | S fuel =>
      if dest =? IP_NULL then mret tt
      else
        d ← load_port dest;
        check (ip_active d);;
        check (ip_receiver_name d =? MACH_PORT_NULL);;
        unlock_circle fuel (ip_destination d)
  end.

(** The loop that unlocks the chain from [port] to [base]. *)
Fixpoint unlock_chain (fuel : nat) (port base : N) : K unit :=
  match fuel with
  | O => wrong
  | S fuel =>
      if port =? base then mret tt
      else
        p ← load_port port;
        check (ip_active p);;
        check (ip_receiver_name p =? MACH_PORT_NULL);;
        check (negb (ip_destination p =? IP_NULL));;
        unlock_chain fuel (ip_destination p) base
  end.

(** From the label [not_circular]. *)
Definition set_in_transit (fuel : nat) (port dest base : N) : K bool :=
  p ← load_port port;
  check (ip_active p);;
  check (ip_receiver_name p =? MACH_PORT_NULL);;
  check (ip_destination p =? IP_NULL);;
  upd_port dest ip_reference;;
  upd_port port (set_ip_destination dest);;
  unlock_chain fuel port base;;
  b ← load_port base;
  check (chain_stop b);;
  mret false.

(** A chain visits every object at most once. *)
Definition ipc_port_check_circularity (port dest : N) : K bool :=
  check (negb (port =? IP_NULL));;
  check (negb (dest =? IP_NULL));;
  if port =? dest then mret true else
  s ← get;
  let fuel := S (S (size (k_objects s))) in
  d ← load_port dest;
  if chain_stop d then set_in_transit fuel port dest dest else
  base ← chain_end fuel dest;
  if port =? base then
    p ← load_port port;
    check (ip_active p);;
    check (ip_receiver_name p =? MACH_PORT_NULL);;
    check (ip_destination p =? IP_NULL);;
    unlock_circle fuel dest;;
    mret true
  else set_in_transit fuel port dest base.

(** ** Naked rights *)

(** IP_NULL if [name] does not denote a receive right. *)
Definition ipc_port_lookup_notify (space name : N) : K N :=
  s ← load_space space;
  check (is_active s);;
  entry ← ipc_entry_lookup space name;
  if entry =? IE_NULL then mret IP_NULL else
  e ← load_entry entry;
  if negb (has (ie_bits e) MACH_PORT_TYPE_RECEIVE) then mret IP_NULL else
  let port := ie_object e in
  check (negb (port =? IP_NULL));;
  p ← load_port port;
  check (ip_active p);;
  check (ip_receiver_name p =? name);;
  check (ip_receiver p =? space);;
  upd_port port ip_reference;;
  upd_port port (λ p, set_ip_sorights (incr (ip_sorights p)) p);;
  mret port.

Definition ipc_port_make_send (port : N) : K N :=
  check (IO_VALID port);;
  p ← load_port port;
  check (ip_active p);;
  upd_port port (λ p, set_ip_mscount (incr (ip_mscount p)) p);;
  upd_port port (λ p, set_ip_srights (incr (ip_srights p)) p);;
  upd_port port ip_reference;;
  mret port.

Definition ipc_port_copy_send (port : N) : K N :=
  if negb (IO_VALID port) then mret port else
  p ← load_port port;
  if ip_active p then
    check (negb (ip_srights p =? 0));;
    upd_port port ip_reference;;
    upd_port port (λ p, set_ip_srights (incr (ip_srights p)) p);;
    mret port
  else mret IP_DEAD.

(** [--port->ip_srights == 0] and the no-senders request that it takes off the
    port: the request (IP_NULL if none) and the make-send count. *)
Definition drop_send_right (port : N) : K (N * N) :=
  upd_port port (λ p, set_ip_srights (decr (ip_srights p)) p);;
  p ← load_port port;
  if ip_srights p =? 0 then
    if negb (ip_nsrequest p =? IP_NULL) then
      upd_port port (set_ip_nsrequest IP_NULL);;
      mret (ip_nsrequest p, ip_mscount p)
    else mret (IP_NULL, 0)
  else mret (IP_NULL, 0).
Definition notify_no_senders (ns : N * N) : K unit :=
  if negb (ns.1 =? IP_NULL) then later (call_notify_no_senders ns.1 ns.2) else mret tt.
Definition notify_port_deleted (dnrequest name : N) : K unit :=
  if negb (dnrequest =? IP_NULL) then later (call_notify_port_deleted dnrequest name) else mret tt.

Definition ipc_port_release_send (port : N) : K unit :=
  check (IO_VALID port);;
  upd_port port ip_release;;
  p ← load_port port;
  if negb (ip_active p) then io_check_unlock port else
  check (negb (ip_srights p =? 0));;
  ns ← drop_send_right port;
  notify_no_senders ns.

Definition ipc_port_make_sonce (port : N) : K N :=
  check (IO_VALID port);;
  p ← load_port port;
  check (ip_active p);;
  upd_port port (λ p, set_ip_sorights (incr (ip_sorights p)) p);;
  upd_port port ip_reference;;
  mret port.

Definition ipc_port_release_sonce (port : N) : K unit :=
  check (IO_VALID port);;
  p ← load_port port;
  check (negb (ip_sorights p =? 0));;
  upd_port port (λ p, set_ip_sorights (decr (ip_sorights p)) p);;
  upd_port port ip_release;;
  p ← load_port port;
  if negb (ip_active p) then io_check_unlock port else mret tt.

(** ** Destruction *)

Fixpoint destroy_messages (port : N) (kmsgs : list N) : K unit :=
  match kmsgs with
  | [] => mret tt
  | kmsg :: kmsgs =>
      m ← load_kmsg kmsg;
      check (msgh_remote_port m =? port);;
      later (call_object_release port);;
      upd_kmsg kmsg (set_msgh_remote_port MACH_PORT_NULL);;
      later (call_kmsg_destroy kmsg);;
      destroy_messages port kmsgs
  end.

Fixpoint dead_name_notifications (slots : list ipc_port_request) : K unit :=
  match slots with
  | [] => mret tt
  | ipr :: slots =>
      (if ipr_name ipr =? MACH_PORT_NULL then mret tt
       else
         check (negb (ipr_notify ipr =? IP_NULL));;
         later (call_notify_dead_name (ipr_notify ipr) (ipr_name ipr)));;
      dead_name_notifications slots
  end.

(** From the comment "rouse all blocked senders" on.  The request table is
    freed: nothing can be read from it any more. *)
Definition port_destroy_dead (port : N) : K unit :=
  p ← load_port port;
  upd_port port (set_ip_blocked []);;
  wake_threads (ip_blocked p) MACH_MSG_SUCCESS;;
  upd_port port (λ p, set_ip_bits (N.ldiff (ip_bits p) IO_BITS_ACTIVE) p);;
  timestamp ← ipc_port_timestamp;
  upd_port port (set_ip_data timestamp);;
  (if negb (ip_nsrequest p =? IP_NULL) then later (call_notify_send_once (ip_nsrequest p)) else mret tt);;
  p ← load_port port;
  check (match imq_threads (ip_messages p) with [] => true | _ => false end);;
  upd_port port (upd_target (λ t, set_ipt_messages (set_imq_messages [] (ipt_messages t)) t));;
  destroy_messages port (imq_messages (ip_messages p));;
  match ip_dnrequests p with
  | None => mret tt
  | Some table =>
      dead_name_notifications (ipr_slots table);;
      upd_port port (set_ip_dnrequests None);;
      cache_free ipc_table_cache (ipr_table table)
  end;;
  (if negb (ip_kotype p =? IKOT_NONE) then later (call_kobject_destroy port) else mret tt);;
  later (call_object_release port).

(** The port has a backup: true when the port was sent to it. *)
Definition port_send_to_backup (port pdrequest : N) : K bool :=
  upd_port port (set_ip_pdrequest IP_NULL);;
  upd_port port (set_ip_receiver_name MACH_PORT_NULL);;
  upd_port port (set_ip_destination IP_NULL);;
  upd_port port ipc_port_flag_protected_payload_clear;;
  circular ← ipc_port_check_circularity port pdrequest;
  if negb circular then
    later (call_notify_port_destroyed pdrequest port);; mret true
  else
    ipc_port_release_sonce pdrequest;;
    p ← load_port port;
    check (ip_active p);;
    check (ip_pset p =? IPS_NULL);;
    check (ip_mscount p =? 0);;
    check (ip_seqno p =? 0);;
    check (ip_pdrequest p =? IP_NULL);;
    check (ip_receiver_name p =? MACH_PORT_NULL);;
    check (ip_destination p =? IP_NULL);;
    mret false.

Definition ipc_port_destroy (port : N) : K unit :=
  p ← load_port port;
  check (ip_active p);;
  check (ip_pset p =? IPS_NULL);;
  check (ip_mscount p =? 0);;
  check (ip_seqno p =? 0);;
  sent ← (if negb (ip_pdrequest p =? IP_NULL) then port_send_to_backup port (ip_pdrequest p)
          else mret false);
  if sent : bool then mret tt else port_destroy_dead port.

Definition ipc_port_release_receive (port : N) : K unit :=
  check (IO_VALID port);;
  p ← load_port port;
  check (ip_active p);;
  check (ip_receiver_name p =? MACH_PORT_NULL);;
  let dest := ip_destination p in
  ipc_port_destroy port;;
  if negb (dest =? IP_NULL) then later (call_object_release dest) else mret tt.

(** ** Ports in special spaces *)

(** [garbage] is the content of a port fresh out of its cache. *)
Definition ipc_port_alloc_special (garbage : ipc_port) (space : N) : K N :=
  port ← io_alloc IOT_PORT (KPort garbage);
  if port =? IP_NULL then mret IP_NULL else
  upd_port port (upd_target (upd_object (set_io_references 1)));;
  upd_port port (set_ip_bits (io_makebits true IOT_PORT 0));;
  ipc_port_init port space (u32 port);;
  mret port.

Definition ipc_port_dealloc_special (port space : N) : K unit :=
  p ← load_port port;
  check (ip_active p);;
  check (negb (ip_receiver_name p =? MACH_PORT_NULL));;
  check (ip_receiver p =? space);;
  upd_port port (set_ip_receiver_name MACH_PORT_NULL);;
  upd_port port (set_ip_receiver 0);;
  ipc_port_clear_receiver port;;
  ipc_port_destroy port.
End Port.
