(* ===== verification/IpcMarequest.v ===== *)
(** Msg-accepted requests: the hash table of ipc/ipc_marequest.c that the
    entries with [IE_BITS_MAREQUEST] refer to. *)

From S2P Require Import Prelude Kmem RdxtreeMap IpcTypes IpcEntry IpcPort.

Open Scope N_scope.

Section Marequest.
Context `{!Config} {T C : Type} `{!KeyMap T} `{!KmemCache C}.
#[local] Abbreviation K := (M (kernel T C)).

(** The macro [IMAR_HASH]: the space pointer is truncated to
    [ipc_marequest_index_t], and port names have no generation. *)
Definition IMAR_HASH (space name : N) : N :=
  N.land (u32 (N.shiftr (u32 space) 4 + name)) ipc_marequest_mask.

Definition load_bucket (i : N) : K (list N) := s ← get; deref (k_buckets s !! i).
Definition put_bucket (i : N) (l : list N) : K unit :=
  modify (λ s, set_k_buckets (<[i := l]> (k_buckets s)) s).

(** The search loop over a bucket: the first request for [space] and [name],
    and the list without it. *)
Fixpoint marequest_find (l : list N) (space name : N) : K (option (N * list N)) :=
  match l with
  | [] => mret None
  | a :: l =>
      r ← load_marequest a;
      if (imar_space r =? space) && (imar_name r =? name) then mret (Some (a, l))
      else
        x ← marequest_find l space name;
        mret (prod_map id (cons a) <$> x)
  end.

(** Takes the request for [space] and [name] out of its bucket. *)
Definition marequest_unlink (space name : N) : K N :=
  s ← load_space space;
  check (is_active s);;
  l ← load_bucket (IMAR_HASH space name);
  x ← marequest_find l space name;
  '(marequest, l) ← deref x;
  put_bucket (IMAR_HASH space name) l;;
  mret marequest.

Definition ipc_marequest_cancel (space name : N) : K unit :=
  marequest ← marequest_unlink space name;
  upd_marequest marequest (set_imar_name MACH_PORT_NAME_NULL).

Definition ipc_marequest_rename (space old new : N) : K unit :=
  marequest ← marequest_unlink space old;
  upd_marequest marequest (set_imar_name new);;
  l ← load_bucket (IMAR_HASH space new);
  put_bucket (IMAR_HASH space new) (marequest :: l).
End Marequest.
