(* ===== verification/IpcRight.v ===== *)
(** Manipulation of the rights that entries hold: ipc/ipc_right.c.

    A failed assertion or a panic goes wrong.  Routines with several results
    return them as a tuple. *)

From S2P Require Import Prelude Kmem RdxtreeMap IpcTypes IpcEntry IpcPort IpcMarequest.

Open Scope N_scope.

Section Right.
Context `{!Config} {T C : Type} `{!KeyMap T} `{!KmemCache C}.
#[local] Abbreviation K := (M (kernel T C)).

(** *** Lookup *)

Definition ipc_right_lookup_write (space name : N) : K (kern_return_t * N) :=
  check (negb (space =? 0));;
  s ← load_space space;
  if negb (is_active s) then mret (KERN_INVALID_TASK, IE_NULL) else
  entry ← ipc_entry_lookup space name;
  if entry =? IE_NULL then mret (KERN_INVALID_NAME, IE_NULL)
  else mret (KERN_SUCCESS, entry).

(** The name and the entry under which the space holds send or receive rights
    for the port. *)
Definition ipc_right_reverse (space object : N) : K (option (N * N)) :=
  s ← load_space space;
  check (is_active s);;
  port ← load_port object;
  check (io_otype (ip_object port) =? IOT_PORT);;
  if negb (ip_active port) then mret None
  else if ip_receiver port =? space then
    let name := ip_receiver_name port in
    check (negb (name =? MACH_PORT_NULL));;
    entry ← ipc_entry_lookup space name;
    check (negb (entry =? IE_NULL));;
    e ← load_entry entry;
    check (has (ie_bits e) MACH_PORT_TYPE_RECEIVE);;
    check (object =? ie_object e);;
    mret (Some (name, entry))
  else
    entry ← ipc_reverse_lookup space object;
    if negb (entry =? IE_NULL) then
      e ← load_entry entry;
      check (IE_BITS_TYPE (ie_bits e) =? MACH_PORT_TYPE_SEND);;
      check (object =? ie_object e);;
      mret (Some (ie_name e, entry))
    else mret None.

(** *** Dead-name requests *)

Definition ipc_right_dncancel (space port name entry : N) : K N :=
  p ← load_port port;
  check (ip_active p);;
  e ← load_entry entry;
  check (port =? ie_object e);;
  dnrequest ← ipc_port_dncancel port name (ie_request e);
  upd_entry entry (set_ie_request 0);;
  mret dnrequest.

Definition ipc_right_dncancel_macro (space port name entry : N) : K N :=
  e ← load_entry entry;
  if ie_request e =? 0 then mret IP_NULL else ipc_right_dncancel space port name entry.

Definition ipc_right_inuse (space name entry : N) : K bool :=
  e ← load_entry entry;
  mret (negb (IE_BITS_TYPE (ie_bits e) =? MACH_PORT_TYPE_NONE)).

(** True when the port has died; the entry is then a dead name. *)
Definition ipc_right_check (space port name entry : N) : K bool :=
  s ← load_space space;
  check (is_active s);;
  e ← load_entry entry;
  check (port =? ie_object e);;
  p ← load_port port;
  if ip_active p then mret false else
  let bits := ie_bits e in
  check (negb (has bits MACH_PORT_TYPE_RECEIVE));;
  check (negb (IE_BITS_UREFS bits =? 0));;
  bits ← (if has bits MACH_PORT_TYPE_SEND then
            check (IE_BITS_TYPE bits =? MACH_PORT_TYPE_SEND);;
            bits ← (if has bits IE_BITS_MAREQUEST then
                      ipc_marequest_cancel space name;;
                      mret (N.ldiff bits IE_BITS_MAREQUEST)
                    else mret bits);
            _ ← ipc_reverse_remove space port;
            mret bits
          else
            check (IE_BITS_TYPE bits =? MACH_PORT_TYPE_SEND_ONCE);;
            check (IE_BITS_UREFS bits =? 1);;
            check (negb (has bits IE_BITS_MAREQUEST));;
            mret bits);
  ipc_port_release port;;
  let bits := N.lor (N.ldiff bits IE_BITS_TYPE_MASK) MACH_PORT_TYPE_DEAD_NAME in
  bits ← (if negb (ie_request e =? 0) then
            check (IE_BITS_UREFS bits <? MACH_PORT_UREFS_MAX);;
            upd_entry entry (set_ie_request 0);;
            mret (incr bits)
          else mret bits);
  upd_entry entry (set_ie_bits bits);;
  upd_entry entry (set_ie_object IO_NULL);;
  mret true.

(** The part of an iteration of [ipc_right_dnrequest] that deals with a live
    port: the result, or [None] to try again with a larger table. *)
Definition dnrequest_live (space name notify port entry : N) : K (option (kern_return_t * N)) :=
  if notify =? IP_NULL then
    previous ← ipc_right_dncancel_macro space port name entry;
    mret (Some (KERN_SUCCESS, previous))
  else
    previous ← ipc_right_dncancel_macro space port name entry;
    '(kr, request) ← ipc_port_dnrequest port name notify;
    if negb (kr =? KERN_SUCCESS) then
      check (previous =? IP_NULL);;
      kr ← ipc_port_dngrow port;
      if negb (kr =? KERN_SUCCESS) then mret (Some (kr, IP_NULL)) else mret None
    else
      check (negb (request =? 0));;
      upd_entry entry (set_ie_request request);;
      mret (Some (KERN_SUCCESS, previous)).

Fixpoint dnrequest_loop (fuel : nat) (space name : N) (immediate : bool) (notify : N)
    : K (kern_return_t * N) :=
  match fuel with
  | O => wrong
  | S fuel =>
      '(kr, entry) ← ipc_right_lookup_write space name;
      if negb (kr =? KERN_SUCCESS) then mret (kr, IP_NULL) else
      e ← load_entry entry;
      let bits := ie_bits e in
      r ← (if has bits MACH_PORT_TYPE_PORT_RIGHTS then
             let port := ie_object e in
             check (negb (port =? IP_NULL));;
             dead ← ipc_right_check space port name entry;
             if negb dead then
               r ← dnrequest_live space name notify port entry;
               mret (inl r)
             else
               e ← load_entry entry;
               check (has (ie_bits e) MACH_PORT_TYPE_DEAD_NAME);;
               mret (inr (ie_bits e))
           else mret (inr bits));
      match r with
      | inl (Some r) => mret r
      | inl None => dnrequest_loop fuel space name immediate notify
      | inr bits =>
          if has bits MACH_PORT_TYPE_DEAD_NAME && immediate && negb (notify =? IP_NULL) then
            let urefs := IE_BITS_UREFS bits in
            check (IE_BITS_TYPE bits =? MACH_PORT_TYPE_DEAD_NAME);;
            check (negb (urefs =? 0));;
            if MACH_PORT_UREFS_OVERFLOW urefs 1 then mret (KERN_UREFS_OVERFLOW, IP_NULL) else
            upd_entry entry (set_ie_bits (incr bits));;
            later (call_notify_dead_name notify name);;
            mret (KERN_SUCCESS, IP_NULL)
          else if has bits MACH_PORT_TYPE_PORT_OR_DEAD then mret (KERN_INVALID_ARGUMENT, IP_NULL)
          else mret (KERN_INVALID_RIGHT, IP_NULL)
      end
  end.

(** A second iteration finds the slot that the first one made. *)
Definition ipc_right_dnrequest (space name : N) (immediate : bool) (notify : N)
    : K (kern_return_t * N) :=
  dnrequest_loop 2 space name immediate notify.

(** *** Destruction *)

(** Ends of [ipc_right_clean] and [ipc_right_destroy], from the decrement of
    [ip_srights] on.  [check_name] is the assertion on [ip_receiver_name] that
    only the former makes. *)
Definition right_release (space name port type dnrequest : N) (check_name : bool) : K unit :=
  ns ← (if has type MACH_PORT_TYPE_SEND then
          p ← load_port port;
          check (negb (ip_srights p =? 0));;
          drop_send_right port
        else mret (IP_NULL, 0));
  p ← load_port port;
  (if has type MACH_PORT_TYPE_RECEIVE then
     check (if check_name then ip_receiver_name p =? name else ip_active p);;
     check (ip_receiver p =? space);;
     ipc_port_clear_receiver port;;
     ipc_port_destroy port
   else if has type MACH_PORT_TYPE_SEND_ONCE then
     check (negb (ip_sorights p =? 0));;
     later (call_notify_send_once port)
   else
     check (negb (ip_receiver p =? space));;
     upd_port port ip_release);;
  notify_no_senders ns;;
  notify_port_deleted dnrequest name.

Definition ipc_right_clean (space name entry : N) : K unit :=
  e ← load_entry entry;
  let bits := ie_bits e in
  let type := IE_BITS_TYPE bits in
  s ← load_space space;
  check (negb (is_active s));;
  if type =? MACH_PORT_TYPE_DEAD_NAME then
    check (ie_request e =? 0);;
    check (ie_object e =? IO_NULL);;
    check (negb (has bits IE_BITS_MAREQUEST))
  else if type =? MACH_PORT_TYPE_PORT_SET then
    let pset := ie_object e in
    check (ie_request e =? 0);;
    check (negb (has bits IE_BITS_MAREQUEST));;
    check (negb (pset =? IPS_NULL));;
    ps ← load_pset pset;
    check (ips_active ps);;
    ipc_pset_destroy pset
  else if (type =? MACH_PORT_TYPE_SEND) || (type =? MACH_PORT_TYPE_RECEIVE) ||
          (type =? MACH_PORT_TYPE_SEND_RECEIVE) || (type =? MACH_PORT_TYPE_SEND_ONCE) then
    let port := ie_object e in
    check (negb (port =? IP_NULL));;
    p ← load_port port;
    if negb (ip_active p) then upd_port port ip_release;; io_check_unlock port else
    dnrequest ← ipc_right_dncancel_macro space port name entry;
    right_release space name port type dnrequest true
  else wrong.

Definition ipc_right_destroy (space name entry : N) : K kern_return_t :=
  e ← load_entry entry;
  let bits := ie_bits e in
  let type := IE_BITS_TYPE bits in
  s ← load_space space;
  check (is_active s);;
  if type =? MACH_PORT_TYPE_DEAD_NAME then
    check (ie_request e =? 0);;
    check (ie_object e =? IO_NULL);;
    check (negb (has bits IE_BITS_MAREQUEST));;
    ipc_entry_dealloc space name entry;;
    mret KERN_SUCCESS
  else if type =? MACH_PORT_TYPE_PORT_SET then
    let pset := ie_object e in
    check (ie_request e =? 0);;
    check (negb (pset =? IPS_NULL));;
    upd_entry entry (set_ie_object IO_NULL);;
    ipc_entry_dealloc space name entry;;
    ps ← load_pset pset;
    check (ips_active ps);;
    ipc_pset_destroy pset;;
    mret KERN_SUCCESS
  else if (type =? MACH_PORT_TYPE_SEND) || (type =? MACH_PORT_TYPE_RECEIVE) ||
          (type =? MACH_PORT_TYPE_SEND_RECEIVE) || (type =? MACH_PORT_TYPE_SEND_ONCE) then
    let port := ie_object e in
    check (negb (port =? IP_NULL));;
    (if has bits IE_BITS_MAREQUEST then
       check (has type MACH_PORT_TYPE_SEND_RECEIVE);;
       ipc_marequest_cancel space name
     else mret tt);;
    (if type =? MACH_PORT_TYPE_SEND then _ ← ipc_reverse_remove space port; mret tt else mret tt);;
    p ← load_port port;
    if negb (ip_active p) then
      check (negb (has type MACH_PORT_TYPE_RECEIVE));;
      upd_port port ip_release;;
      io_check_unlock port;;
      upd_entry entry (set_ie_request 0);;
      upd_entry entry (set_ie_object IO_NULL);;
      ipc_entry_dealloc space name entry;;
      mret KERN_SUCCESS
    else
    dnrequest ← ipc_right_dncancel_macro space port name entry;
    upd_entry entry (set_ie_object IO_NULL);;
    ipc_entry_dealloc space name entry;;
    right_release space name port type dnrequest false;;
    mret KERN_SUCCESS
  else wrong.

(** *** Release of a user reference *)

(** The label [dead_name]. *)
Definition dealloc_dead_name (space name entry bits : N) : K kern_return_t :=
  check (negb (IE_BITS_UREFS bits =? 0));;
  e ← load_entry entry;
  check (ie_request e =? 0);;
  check (ie_object e =? IO_NULL);;
  check (negb (has bits IE_BITS_MAREQUEST));;
  (if IE_BITS_UREFS bits =? 1 then ipc_entry_dealloc space name entry
   else upd_entry entry (set_ie_bits (decr bits)));;
  mret KERN_SUCCESS.

(** The last user reference of a pure send right, after the decrement of
    [ip_srights]. *)
Definition release_send_entry (space name entry bits port : N) : K N :=
  dnrequest ← ipc_right_dncancel_macro space port name entry;
  _ ← ipc_reverse_remove space port;
  (if has bits IE_BITS_MAREQUEST then ipc_marequest_cancel space name else mret tt);;
  upd_port port ip_release;;
  upd_entry entry (set_ie_object IO_NULL);;
  ipc_entry_dealloc space name entry;;
  mret dnrequest.

(** The removal of a send-once right whose port is active. *)
Definition release_sonce_entry (space name entry port : N) : K kern_return_t :=
  dnrequest ← ipc_right_dncancel_macro space port name entry;
  upd_entry entry (set_ie_object IO_NULL);;
  ipc_entry_dealloc space name entry;;
  later (call_notify_send_once port);;
  notify_port_deleted dnrequest name;;
  mret KERN_SUCCESS.

Definition ipc_right_dealloc (space name entry : N) : K kern_return_t :=
  e ← load_entry entry;
  let bits := ie_bits e in
  let type := IE_BITS_TYPE bits in
  s ← load_space space;
  check (is_active s);;
  if type =? MACH_PORT_TYPE_DEAD_NAME then dealloc_dead_name space name entry bits
  else if type =? MACH_PORT_TYPE_SEND_ONCE then
    check (IE_BITS_UREFS bits =? 1);;
    check (negb (has bits IE_BITS_MAREQUEST));;
    let port := ie_object e in
    check (negb (port =? IP_NULL));;
    dead ← ipc_right_check space port name entry;
    if dead : bool then
      e ← load_entry entry;
      check (IE_BITS_TYPE (ie_bits e) =? MACH_PORT_TYPE_DEAD_NAME);;
      dealloc_dead_name space name entry (ie_bits e)
    else
    p ← load_port port;
    check (negb (ip_sorights p =? 0));;
    release_sonce_entry space name entry port
  else if type =? MACH_PORT_TYPE_SEND then
    check (negb (IE_BITS_UREFS bits =? 0));;
    let port := ie_object e in
    check (negb (port =? IP_NULL));;
    dead ← ipc_right_check space port name entry;
    if dead : bool then
      e ← load_entry entry;
      check (IE_BITS_TYPE (ie_bits e) =? MACH_PORT_TYPE_DEAD_NAME);;
      dealloc_dead_name space name entry (ie_bits e)
    else
    p ← load_port port;
    check (negb (ip_srights p =? 0));;
    '(ns, dnrequest) ←
      (if IE_BITS_UREFS bits =? 1 then
         ns ← drop_send_right port;
         dnrequest ← release_send_entry space name entry bits port;
         mret (ns, dnrequest)
       else upd_entry entry (set_ie_bits (decr bits));; mret ((IP_NULL, 0), IP_NULL));
    notify_no_senders ns;;
    notify_port_deleted dnrequest name;;
    mret KERN_SUCCESS
  else if type =? MACH_PORT_TYPE_SEND_RECEIVE then
    check (negb (IE_BITS_UREFS bits =? 0));;
    let port := ie_object e in
    check (negb (port =? IP_NULL));;
    p ← load_port port;
    check (ip_active p);;
    check (ip_receiver_name p =? name);;
    check (ip_receiver p =? space);;
    check (negb (ip_srights p =? 0));;
    ns ← (if IE_BITS_UREFS bits =? 1 then
            ns ← drop_send_right port;
            upd_entry entry (set_ie_bits (N.ldiff bits (N.lor IE_BITS_UREFS_MASK MACH_PORT_TYPE_SEND)));;
            mret ns
          else upd_entry entry (set_ie_bits (decr bits));; mret (IP_NULL, 0));
    notify_no_senders ns;;
    mret KERN_SUCCESS
  else mret KERN_INVALID_RIGHT.

(** *** Change of a user-reference count *)

Definition delta_port_set (space name entry : N) (delta : Z) : K kern_return_t :=
  e ← load_entry entry;
  let bits := ie_bits e in
  if negb (has bits MACH_PORT_TYPE_PORT_SET) then mret KERN_INVALID_RIGHT else
  check (IE_BITS_TYPE bits =? MACH_PORT_TYPE_PORT_SET);;
  check (IE_BITS_UREFS bits =? 0);;
  check (negb (has bits IE_BITS_MAREQUEST));;
  check (ie_request e =? 0);;
  if (delta =? 0)%Z then mret KERN_SUCCESS
  else if negb (delta =? -1)%Z then mret KERN_INVALID_VALUE
  else
    let pset := ie_object e in
    check (negb (pset =? IPS_NULL));;
    upd_entry entry (set_ie_object IO_NULL);;
    ipc_entry_dealloc space name entry;;
    ps ← load_pset pset;
    check (ips_active ps);;
    ipc_pset_destroy pset;;
    mret KERN_SUCCESS.

Definition delta_receive (space name entry : N) (delta : Z) : K kern_return_t :=
  e ← load_entry entry;
  let bits := ie_bits e in
  if negb (has bits MACH_PORT_TYPE_RECEIVE) then mret KERN_INVALID_RIGHT
  else if (delta =? 0)%Z then mret KERN_SUCCESS
  else if negb (delta =? -1)%Z then mret KERN_INVALID_VALUE
  else
    bits ← (if has bits IE_BITS_MAREQUEST then
              ipc_marequest_cancel space name;; mret (N.ldiff bits IE_BITS_MAREQUEST)
            else mret bits);
    let port := ie_object e in
    check (negb (port =? IP_NULL));;
    p ← load_port port;
    check (ip_active p);;
    check (ip_receiver_name p =? name);;
    check (ip_receiver p =? space);;
    dnrequest ←
      (if has bits MACH_PORT_TYPE_SEND then
         check (IE_BITS_TYPE bits =? MACH_PORT_TYPE_SEND_RECEIVE);;
         check (negb (IE_BITS_UREFS bits =? 0));;
         check (IE_BITS_UREFS bits <? MACH_PORT_UREFS_MAX);;
         check (negb (ip_srights p =? 0));;
         let bits := N.lor (N.ldiff bits IE_BITS_TYPE_MASK) MACH_PORT_TYPE_DEAD_NAME in
         bits ← (if negb (ie_request e =? 0) then
                   upd_entry entry (set_ie_request 0);; mret (incr bits)
                 else mret bits);
         upd_entry entry (set_ie_bits bits);;
         upd_entry entry (set_ie_object IO_NULL);;
         mret IP_NULL
       else
         check (IE_BITS_TYPE bits =? MACH_PORT_TYPE_RECEIVE);;
         check (IE_BITS_UREFS bits =? 0);;
         dnrequest ← ipc_right_dncancel_macro space port name entry;
         upd_entry entry (set_ie_object IO_NULL);;
         ipc_entry_dealloc space name entry;;
         mret dnrequest);
    ipc_port_clear_receiver port;;
    ipc_port_destroy port;;
    notify_port_deleted dnrequest name;;
    mret KERN_SUCCESS.

Definition delta_send_once (space name entry : N) (delta : Z) : K kern_return_t :=
  e ← load_entry entry;
  let bits := ie_bits e in
  if negb (has bits MACH_PORT_TYPE_SEND_ONCE) then mret KERN_INVALID_RIGHT else
  check (IE_BITS_TYPE bits =? MACH_PORT_TYPE_SEND_ONCE);;
  check (IE_BITS_UREFS bits =? 1);;
  check (negb (has bits IE_BITS_MAREQUEST));;
  if (0 <? delta)%Z || (delta <? -1)%Z then mret KERN_INVALID_VALUE else
  let port := ie_object e in
  check (negb (port =? IP_NULL));;
  dead ← ipc_right_check space port name entry;
  if dead : bool then
    e ← load_entry entry;
    check (negb (has (ie_bits e) MACH_PORT_TYPE_SEND_ONCE));;
    mret KERN_INVALID_RIGHT
  else
  p ← load_port port;
  check (negb (ip_sorights p =? 0));;
  if (delta =? 0)%Z then mret KERN_SUCCESS
  else release_sonce_entry space name entry port.

Definition delta_dead_name (space name entry : N) (delta : Z) : K kern_return_t :=
  e ← load_entry entry;
  let bits := ie_bits e in
  r ← (if has bits MACH_PORT_TYPE_SEND_RIGHTS then
         let port := ie_object e in
         check (negb (port =? IP_NULL));;
         dead ← ipc_right_check space port name entry;
         if negb dead then mret None
         else e ← load_entry entry; mret (Some (ie_bits e))
       else if negb (has bits MACH_PORT_TYPE_DEAD_NAME) then mret None
       else mret (Some bits));
  match r with
  | None => mret KERN_INVALID_RIGHT
  | Some bits =>
      check (IE_BITS_TYPE bits =? MACH_PORT_TYPE_DEAD_NAME);;
      check (negb (IE_BITS_UREFS bits =? 0));;
      check (negb (has bits IE_BITS_MAREQUEST));;
      e ← load_entry entry;
      check (ie_object e =? IO_NULL);;
      check (ie_request e =? 0);;
      let urefs := IE_BITS_UREFS bits in
      if MACH_PORT_UREFS_UNDERFLOW urefs delta then mret KERN_INVALID_VALUE
      else if MACH_PORT_UREFS_OVERFLOW urefs delta then mret KERN_UREFS_OVERFLOW
      else
        (if urefs_add urefs delta =? 0 then ipc_entry_dealloc space name entry
         else upd_entry entry (set_ie_bits (urefs_add bits delta)));;
        mret KERN_SUCCESS
  end.

Definition delta_send (space name entry : N) (delta : Z) : K kern_return_t :=
  e ← load_entry entry;
  let bits := ie_bits e in
  if negb (has bits MACH_PORT_TYPE_SEND) then mret KERN_INVALID_RIGHT else
  let urefs := IE_BITS_UREFS bits in
  if MACH_PORT_UREFS_UNDERFLOW urefs delta then mret KERN_INVALID_VALUE
  else if MACH_PORT_UREFS_OVERFLOW (urefs + 1) delta then mret KERN_UREFS_OVERFLOW
  else
    let port := ie_object e in
    check (negb (port =? IP_NULL));;
    dead ← ipc_right_check space port name entry;
    if dead : bool then
      e ← load_entry entry;
      check (negb (has (ie_bits e) MACH_PORT_TYPE_SEND));;
      mret KERN_INVALID_RIGHT
    else
    p ← load_port port;
    check (negb (ip_srights p =? 0));;
    '(ns, dnrequest) ←
      (if urefs_add urefs delta =? 0 then
         ns ← drop_send_right port;
         dnrequest ←
           (if has bits MACH_PORT_TYPE_RECEIVE then
              check (ip_receiver_name p =? name);;
              check (ip_receiver p =? space);;
              check (IE_BITS_TYPE bits =? MACH_PORT_TYPE_SEND_RECEIVE);;
              upd_entry entry
                (set_ie_bits (N.ldiff bits (N.lor IE_BITS_UREFS_MASK MACH_PORT_TYPE_SEND)));;
              mret IP_NULL
            else
              check (IE_BITS_TYPE bits =? MACH_PORT_TYPE_SEND);;
              release_send_entry space name entry bits port);
         mret (ns, dnrequest)
       else upd_entry entry (set_ie_bits (urefs_add bits delta));; mret ((IP_NULL, 0), IP_NULL));
    notify_no_senders ns;;
    notify_port_deleted dnrequest name;;
    mret KERN_SUCCESS.

Definition ipc_right_delta (space name entry right : N) (delta : Z) : K kern_return_t :=
  s ← load_space space;
  check (is_active s);;
  check (right <? MACH_PORT_RIGHT_NUMBER);;
  if right =? MACH_PORT_RIGHT_PORT_SET then delta_port_set space name entry delta
  else if right =? MACH_PORT_RIGHT_RECEIVE then delta_receive space name entry delta
  else if right =? MACH_PORT_RIGHT_SEND_ONCE then delta_send_once space name entry delta
  else if right =? MACH_PORT_RIGHT_DEAD_NAME then delta_dead_name space name entry delta
  else if right =? MACH_PORT_RIGHT_SEND then delta_send space name entry delta
  else wrong.

(** *** Information *)

(** KERN_SUCCESS, the type and the user references. *)
Definition ipc_right_info (space name entry : N) : K (kern_return_t * N * N) :=
  e ← load_entry entry;
  bits ← (if has (ie_bits e) MACH_PORT_TYPE_SEND_RIGHTS then
            dead ← ipc_right_check space (ie_object e) name entry;
            if dead : bool then
              e ← load_entry entry;
              check (IE_BITS_TYPE (ie_bits e) =? MACH_PORT_TYPE_DEAD_NAME);;
              mret (ie_bits e)
            else mret (ie_bits e)
          else mret (ie_bits e));
  e ← load_entry entry;
  let type := IE_BITS_TYPE bits in
  let type := if negb (ie_request e =? 0) then N.lor type MACH_PORT_TYPE_DNREQUEST else type in
  let type := if has bits IE_BITS_MAREQUEST then N.lor type MACH_PORT_TYPE_MAREQUEST else type in
  mret (KERN_SUCCESS, type, IE_BITS_UREFS bits).

(** *** Copyin *)

Definition ipc_right_copyin_check (space name entry msgt_name : N) : K bool :=
  e ← load_entry entry;
  let bits := ie_bits e in
  s ← load_space space;
  check (is_active s);;
  if (msgt_name =? MACH_MSG_TYPE_MAKE_SEND) || (msgt_name =? MACH_MSG_TYPE_MAKE_SEND_ONCE) ||
     (msgt_name =? MACH_MSG_TYPE_MOVE_RECEIVE) then mret (has bits MACH_PORT_TYPE_RECEIVE)
  else if (msgt_name =? MACH_MSG_TYPE_COPY_SEND) || (msgt_name =? MACH_MSG_TYPE_MOVE_SEND) ||
          (msgt_name =? MACH_MSG_TYPE_MOVE_SEND_ONCE) then
    if has bits MACH_PORT_TYPE_DEAD_NAME then mret true
    else if negb (has bits MACH_PORT_TYPE_SEND_RIGHTS) then mret false
    else
      let port := ie_object e in
      check (negb (port =? IP_NULL));;
      p ← load_port port;
      if negb (ip_active p) then mret true
      else if msgt_name =? MACH_MSG_TYPE_MOVE_SEND_ONCE then
        mret (has bits MACH_PORT_TYPE_SEND_ONCE)
      else mret (has bits MACH_PORT_TYPE_SEND)
  else wrong.

(** Results of [ipc_right_copyin]: the code, the object and the send-once right
    of a port-deleted notification. *)
#[local] Abbreviation copyin_result := (kern_return_t * N * N)%type.
Definition copyin_invalid_right : copyin_result := (KERN_INVALID_RIGHT, IO_NULL, IP_NULL).

(** The labels [copy_dead] and [move_dead]. *)
Definition copyin_dead (entry bits : N) (deadok move : bool) : K copyin_result :=
  check (IE_BITS_TYPE bits =? MACH_PORT_TYPE_DEAD_NAME);;
  check (negb (IE_BITS_UREFS bits =? 0));;
  check (negb (has bits IE_BITS_MAREQUEST));;
  e ← load_entry entry;
  check (ie_request e =? 0);;
  check (ie_object e =? 0);;
  if negb deadok then mret copyin_invalid_right else
  (if move then
     if IE_BITS_UREFS bits =? 1 then upd_entry entry (set_ie_bits (N.ldiff bits MACH_PORT_TYPE_DEAD_NAME))
     else upd_entry entry (set_ie_bits (decr bits))
   else mret tt);;
  mret (KERN_SUCCESS, IO_DEAD, IP_NULL).

(** The receive right of [space] under [name]. *)
Definition copyin_receive_port (space name port : N) : K ipc_port :=
  check (negb (port =? IP_NULL));;
  p ← load_port port;
  check (ip_active p);;
  check (ip_receiver_name p =? name);;
  check (ip_receiver p =? space);;
  mret p.

Definition copyin_make_send (space name entry : N) : K copyin_result :=
  e ← load_entry entry;
  if negb (has (ie_bits e) MACH_PORT_TYPE_RECEIVE) then mret copyin_invalid_right else
  let port := ie_object e in
  _ ← copyin_receive_port space name port;
  upd_port port (λ p, set_ip_mscount (incr (ip_mscount p)) p);;
  upd_port port (λ p, set_ip_srights (incr (ip_srights p)) p);;
  upd_port port ip_reference;;
  mret (KERN_SUCCESS, port, IP_NULL).

Definition copyin_make_send_once (space name entry : N) : K copyin_result :=
  e ← load_entry entry;
  if negb (has (ie_bits e) MACH_PORT_TYPE_RECEIVE) then mret copyin_invalid_right else
  let port := ie_object e in
  _ ← copyin_receive_port space name port;
  upd_port port (λ p, set_ip_sorights (incr (ip_sorights p)) p);;
  upd_port port ip_reference;;
  mret (KERN_SUCCESS, port, IP_NULL).

(** The result of [ipc_reverse_insert] is ignored. *)
Definition copyin_move_receive (space name entry : N) : K copyin_result :=
  e ← load_entry entry;
  let bits := ie_bits e in
  if negb (has bits MACH_PORT_TYPE_RECEIVE) then mret copyin_invalid_right else
  let port := ie_object e in
  p ← copyin_receive_port space name port;
  dnrequest ←
    (if has bits MACH_PORT_TYPE_SEND then
       check (IE_BITS_TYPE bits =? MACH_PORT_TYPE_SEND_RECEIVE);;
       check (negb (IE_BITS_UREFS bits =? 0));;
       check (negb (ip_srights p =? 0));;
       upd_entry entry (set_ie_name name);;
       _ ← ipc_reverse_insert space port entry;
       upd_port port ip_reference;;
       mret IP_NULL
     else
       check (IE_BITS_TYPE bits =? MACH_PORT_TYPE_RECEIVE);;
       check (IE_BITS_UREFS bits =? 0);;
       dnrequest ← ipc_right_dncancel_macro space port name entry;
       (if has bits IE_BITS_MAREQUEST then ipc_marequest_cancel space name else mret tt);;
       upd_entry entry (set_ie_object IO_NULL);;
       mret dnrequest);
  upd_entry entry (set_ie_bits (N.ldiff bits MACH_PORT_TYPE_RECEIVE));;
  ipc_port_clear_receiver port;;
  upd_port port (set_ip_receiver_name MACH_PORT_NULL);;
  upd_port port (set_ip_destination IP_NULL);;
  upd_port port ipc_port_flag_protected_payload_clear;;
  mret (KERN_SUCCESS, port, dnrequest).

(** The common beginning of the three cases below: the port, or [None] with the
    bits of the dead name. *)
Definition copyin_send_port (space name entry : N) : K (N * option ipc_port) :=
  e ← load_entry entry;
  check (negb (IE_BITS_UREFS (ie_bits e) =? 0));;
  let port := ie_object e in
  check (negb (port =? IP_NULL));;
  dead ← ipc_right_check space port name entry;
  if dead : bool then e ← load_entry entry; mret (ie_bits e, None)
  else p ← load_port port; mret (ie_bits e, Some p).

Definition copyin_copy_send (space name entry : N) (deadok : bool) : K copyin_result :=
  e ← load_entry entry;
  let bits := ie_bits e in
  if has bits MACH_PORT_TYPE_DEAD_NAME then copyin_dead entry bits deadok false
  else if negb (has bits MACH_PORT_TYPE_SEND_RIGHTS) then mret copyin_invalid_right
  else
    let port := ie_object e in
    r ← copyin_send_port space name entry;
    match r with
    | (bits, None) => copyin_dead entry bits deadok false
    | (_, Some p) =>
        if negb (has bits MACH_PORT_TYPE_SEND) then
          check (IE_BITS_TYPE bits =? MACH_PORT_TYPE_SEND_ONCE);;
          check (negb (ip_sorights p =? 0));;
          mret copyin_invalid_right
        else
          check (negb (ip_srights p =? 0));;
          upd_port port (λ p, set_ip_srights (incr (ip_srights p)) p);;
          upd_port port ip_reference;;
          mret (KERN_SUCCESS, port, IP_NULL)
    end.

Definition copyin_move_send (space name entry : N) (deadok : bool) : K copyin_result :=
  e ← load_entry entry;
  let bits := ie_bits e in
  if has bits MACH_PORT_TYPE_DEAD_NAME then copyin_dead entry bits deadok true
  else if negb (has bits MACH_PORT_TYPE_SEND_RIGHTS) then mret copyin_invalid_right
  else
    let port := ie_object e in
    r ← copyin_send_port space name entry;
    match r with
    | (bits, None) => copyin_dead entry bits deadok true
    | (_, Some p) =>
        if negb (has bits MACH_PORT_TYPE_SEND) then
          check (IE_BITS_TYPE bits =? MACH_PORT_TYPE_SEND_ONCE);;
          check (negb (ip_sorights p =? 0));;
          mret copyin_invalid_right
        else
          check (negb (ip_srights p =? 0));;
          dnrequest ←
            (if IE_BITS_UREFS bits =? 1 then
               dnrequest ←
                 (if has bits MACH_PORT_TYPE_RECEIVE then
                    check (ip_receiver_name p =? name);;
                    check (ip_receiver p =? space);;
                    check (IE_BITS_TYPE bits =? MACH_PORT_TYPE_SEND_RECEIVE);;
                    upd_port port ip_reference;;
                    mret IP_NULL
                  else
                    check (IE_BITS_TYPE bits =? MACH_PORT_TYPE_SEND);;
                    dnrequest ← ipc_right_dncancel_macro space port name entry;
                    _ ← ipc_reverse_remove space port;
                    (if has bits IE_BITS_MAREQUEST then ipc_marequest_cancel space name else mret tt);;
                    upd_entry entry (set_ie_object IO_NULL);;
                    mret dnrequest);
               upd_entry entry
                 (set_ie_bits (N.ldiff bits (N.lor IE_BITS_UREFS_MASK MACH_PORT_TYPE_SEND)));;
               mret dnrequest
             else
               upd_port port (λ p, set_ip_srights (incr (ip_srights p)) p);;
               upd_port port ip_reference;;
               upd_entry entry (set_ie_bits (decr bits));;
               mret IP_NULL);
          mret (KERN_SUCCESS, port, dnrequest)
    end.

Definition copyin_move_send_once (space name entry : N) (deadok : bool) : K copyin_result :=
  e ← load_entry entry;
  let bits := ie_bits e in
  if has bits MACH_PORT_TYPE_DEAD_NAME then copyin_dead entry bits deadok true
  else if negb (has bits MACH_PORT_TYPE_SEND_RIGHTS) then mret copyin_invalid_right
  else
    let port := ie_object e in
    r ← copyin_send_port space name entry;
    match r with
    | (bits, None) => copyin_dead entry bits deadok true
    | (_, Some p) =>
        if negb (has bits MACH_PORT_TYPE_SEND_ONCE) then
          check (has bits MACH_PORT_TYPE_SEND);;
          check (negb (ip_srights p =? 0));;
          mret copyin_invalid_right
        else
          check (IE_BITS_TYPE bits =? MACH_PORT_TYPE_SEND_ONCE);;
          check (IE_BITS_UREFS bits =? 1);;
          check (negb (has bits IE_BITS_MAREQUEST));;
          check (negb (ip_sorights p =? 0));;
          dnrequest ← ipc_right_dncancel_macro space port name entry;
          upd_entry entry (set_ie_object IO_NULL);;
          upd_entry entry (set_ie_bits (N.ldiff bits MACH_PORT_TYPE_SEND_ONCE));;
          mret (KERN_SUCCESS, port, dnrequest)
    end.

Definition ipc_right_copyin (space name entry msgt_name : N) (deadok : bool) : K copyin_result :=
  s ← load_space space;
  check (is_active s);;
  if msgt_name =? MACH_MSG_TYPE_MAKE_SEND then copyin_make_send space name entry
  else if msgt_name =? MACH_MSG_TYPE_MAKE_SEND_ONCE then copyin_make_send_once space name entry
  else if msgt_name =? MACH_MSG_TYPE_MOVE_RECEIVE then copyin_move_receive space name entry
  else if msgt_name =? MACH_MSG_TYPE_COPY_SEND then copyin_copy_send space name entry deadok
  else if msgt_name =? MACH_MSG_TYPE_MOVE_SEND then copyin_move_send space name entry deadok
  else if msgt_name =? MACH_MSG_TYPE_MOVE_SEND_ONCE then
    copyin_move_send_once space name entry deadok
  else wrong.

Definition ipc_right_copyin_undo (space name entry msgt_name object soright : N) : K unit :=
  e ← load_entry entry;
  let bits := ie_bits e in
  s ← load_space space;
  check (is_active s);;
  let move_send := msgt_name =? MACH_MSG_TYPE_MOVE_SEND in
  let copy_send := msgt_name =? MACH_MSG_TYPE_COPY_SEND in
  let move_send_once := msgt_name =? MACH_MSG_TYPE_MOVE_SEND_ONCE in
  check (move_send || copy_send || move_send_once);;
  (if negb (soright =? IP_NULL) then
     check (move_send || move_send_once);;
     check (IE_BITS_TYPE bits =? MACH_PORT_TYPE_NONE);;
     check (ie_object e =? IO_NULL);;
     check (negb (object =? IO_DEAD));;
     upd_entry entry
       (set_ie_bits (N.lor (N.lor (N.ldiff bits IE_BITS_RIGHT_MASK) MACH_PORT_TYPE_DEAD_NAME) 2))
   else if IE_BITS_TYPE bits =? MACH_PORT_TYPE_NONE then
     check (move_send || move_send_once);;
     check (ie_object e =? IO_NULL);;
     upd_entry entry
       (set_ie_bits (N.lor (N.lor (N.ldiff bits IE_BITS_RIGHT_MASK) MACH_PORT_TYPE_DEAD_NAME) 1))
   else if IE_BITS_TYPE bits =? MACH_PORT_TYPE_DEAD_NAME then
     check (ie_object e =? IO_NULL);;
     check (object =? IO_DEAD);;
     check (negb (IE_BITS_UREFS bits =? 0));;
     if negb copy_send then
       check (IE_BITS_UREFS bits <? MACH_PORT_UREFS_MAX);;
       upd_entry entry (set_ie_bits (incr bits))
     else mret tt
   else
     check (move_send || copy_send);;
     check (IE_BITS_TYPE bits =? MACH_PORT_TYPE_SEND);;
     check (negb (object =? IO_DEAD));;
     check (ie_object e =? object);;
     check (negb (IE_BITS_UREFS bits =? 0));;
     (if negb copy_send then
        check (IE_BITS_UREFS bits <? MACH_PORT_UREFS_MAX - 1);;
        upd_entry entry (set_ie_bits (incr bits))
      else mret tt);;
     _ ← ipc_right_check space object name entry;
     mret tt);;
  if negb (object =? IO_DEAD) then ipc_object_release object else mret tt.

Definition ipc_right_copyin_two (space name entry : N) : K copyin_result :=
  e ← load_entry entry;
  let bits := ie_bits e in
  s ← load_space space;
  check (is_active s);;
  if negb (has bits MACH_PORT_TYPE_SEND) then mret copyin_invalid_right else
  let urefs := IE_BITS_UREFS bits in
  if urefs <? 2 then mret copyin_invalid_right else
  let port := ie_object e in
  check (negb (port =? IP_NULL));;
  dead ← ipc_right_check space port name entry;
  if dead : bool then mret copyin_invalid_right else
  p ← load_port port;
  check (negb (ip_srights p =? 0));;
  dnrequest ←
    (if urefs =? 2 then
       dnrequest ←
         (if has bits MACH_PORT_TYPE_RECEIVE then
            check (ip_receiver_name p =? name);;
            check (ip_receiver p =? space);;
            check (IE_BITS_TYPE bits =? MACH_PORT_TYPE_SEND_RECEIVE);;
            upd_port port (λ p, set_ip_srights (incr (ip_srights p)) p);;
            upd_port port ip_reference;;
            upd_port port ip_reference;;
            mret IP_NULL
          else
            check (IE_BITS_TYPE bits =? MACH_PORT_TYPE_SEND);;
            dnrequest ← ipc_right_dncancel_macro space port name entry;
            _ ← ipc_reverse_remove space port;
            (if has bits IE_BITS_MAREQUEST then ipc_marequest_cancel space name else mret tt);;
            upd_port port (λ p, set_ip_srights (incr (ip_srights p)) p);;
            upd_port port ip_reference;;
            upd_entry entry (set_ie_object IO_NULL);;
            mret dnrequest);
       upd_entry entry (set_ie_bits (N.ldiff bits (N.lor IE_BITS_UREFS_MASK MACH_PORT_TYPE_SEND)));;
       mret dnrequest
     else
       upd_port port (λ p, set_ip_srights (u32 (ip_srights p + 2)) p);;
       upd_port port ip_reference;;
       upd_port port ip_reference;;
       upd_entry entry (set_ie_bits (u32_sub bits 2));;
       mret IP_NULL);
  mret (KERN_SUCCESS, port, dnrequest).

(** *** Copyout *)

Definition copyout_send_once (entry bits object : N) : K kern_return_t :=
  port ← load_port object;
  check (IE_BITS_TYPE bits =? MACH_PORT_TYPE_NONE);;
  check (negb (ip_sorights port =? 0));;
  upd_entry entry (set_ie_bits (N.lor bits (N.lor MACH_PORT_TYPE_SEND_ONCE 1)));;
  mret KERN_SUCCESS.

(** The result of [ipc_reverse_insert] is ignored. *)
Definition copyout_send (space name entry bits : N) (overflow : bool) (object : N) : K kern_return_t :=
  port ← load_port object;
  check (negb (ip_srights port =? 0));;
  let finish := upd_entry entry (set_ie_bits (incr (N.lor bits MACH_PORT_TYPE_SEND)));; mret KERN_SUCCESS in
  if has bits MACH_PORT_TYPE_SEND then
    let urefs := IE_BITS_UREFS bits in
    check (1 <? ip_srights port);;
    check (negb (urefs =? 0));;
    check (urefs <? MACH_PORT_UREFS_MAX);;
    if urefs + 1 =? MACH_PORT_UREFS_MAX then
      if overflow then
        upd_port object (λ p, set_ip_srights (decr (ip_srights p)) p);;
        upd_port object ip_release;;
        mret KERN_SUCCESS
      else mret KERN_UREFS_OVERFLOW
    else
      upd_port object (λ p, set_ip_srights (decr (ip_srights p)) p);;
      upd_port object ip_release;;
      finish
  else if has bits MACH_PORT_TYPE_RECEIVE then
    check (IE_BITS_TYPE bits =? MACH_PORT_TYPE_RECEIVE);;
    check (IE_BITS_UREFS bits =? 0);;
    upd_port object ip_release;;
    finish
  else
    check (IE_BITS_TYPE bits =? MACH_PORT_TYPE_NONE);;
    check (IE_BITS_UREFS bits =? 0);;
    upd_entry entry (set_ie_name name);;
    _ ← ipc_reverse_insert space object entry;
    finish.

Definition copyout_receive (space name entry bits object : N) : K kern_return_t :=
  port ← load_port object;
  check (ip_mscount port =? 0);;
  check (ip_receiver_name port =? MACH_PORT_NULL);;
  let dest := ip_destination port in
  upd_port object (set_ip_receiver_name name);;
  upd_port object (set_ip_receiver space);;
  upd_port object ipc_port_flag_protected_payload_clear;;
  check (negb (has bits MACH_PORT_TYPE_RECEIVE));;
  (if has bits MACH_PORT_TYPE_SEND then
     check (IE_BITS_TYPE bits =? MACH_PORT_TYPE_SEND);;
     check (negb (IE_BITS_UREFS bits =? 0));;
     check (negb (ip_srights port =? 0));;
     upd_port object ip_release;;
     _ ← ipc_reverse_remove space object;
     mret tt
   else
     check (IE_BITS_TYPE bits =? MACH_PORT_TYPE_NONE);;
     check (IE_BITS_UREFS bits =? 0));;
  upd_entry entry (set_ie_bits (N.lor bits MACH_PORT_TYPE_RECEIVE));;
  (if negb (dest =? IP_NULL) then ipc_port_release dest else mret tt);;
  mret KERN_SUCCESS.

Definition ipc_right_copyout (space name entry msgt_name : N) (overflow : bool) (object : N)
    : K kern_return_t :=
  e ← load_entry entry;
  let bits := ie_bits e in
  check (IO_VALID object);;
  port ← load_port object;
  check (io_otype (ip_object port) =? IOT_PORT);;
  check (ip_active port);;
  check (ie_object e =? object);;
  if msgt_name =? MACH_MSG_TYPE_PORT_SEND_ONCE then copyout_send_once entry bits object
  else if msgt_name =? MACH_MSG_TYPE_PORT_SEND then copyout_send space name entry bits overflow object
  else if msgt_name =? MACH_MSG_TYPE_PORT_RECEIVE then copyout_receive space name entry bits object
  else wrong.

(** *** Renaming *)

(** The dead-name request of the old entry: bits, request and object that the
    new entry takes over. *)
Definition rename_request (space oname oentry nname : N) : K (N * N * N) :=
  e ← load_entry oentry;
  let bits := ie_bits e in
  let request := ie_request e in
  let object := ie_object e in
  if negb (request =? 0) then
    check (has bits MACH_PORT_TYPE_PORT_RIGHTS);;
    check (negb (object =? IP_NULL));;
    dead ← ipc_right_check space object oname oentry;
    if dead : bool then
      e ← load_entry oentry;
      check (IE_BITS_TYPE (ie_bits e) =? MACH_PORT_TYPE_DEAD_NAME);;
      check (ie_request e =? 0);;
      check (ie_object e =? IO_NULL);;
      mret (ie_bits e, 0, IO_NULL)
    else
      ipc_port_dnrename object request oname nname;;
      upd_entry oentry (set_ie_request 0);;
      mret (bits, request, object)
  else mret (bits, request, object).

Definition ipc_right_rename (space oname oentry nname nentry : N) : K kern_return_t :=
  s ← load_space space;
  check (is_active s);;
  check (negb (oname =? nname));;
  '(bits, request, object) ← rename_request space oname oentry nname;
  (if has bits IE_BITS_MAREQUEST then
     check (has bits MACH_PORT_TYPE_SEND_RECEIVE);;
     ipc_marequest_rename space oname nname
   else mret tt);;
  n ← load_entry nentry;
  check (negb (has (ie_bits n) IE_BITS_RIGHT_MASK));;
  upd_entry nentry (λ n, set_ie_bits (N.lor (ie_bits n) (N.land bits IE_BITS_RIGHT_MASK)) n);;
  upd_entry nentry (set_ie_request request);;
  upd_entry nentry (set_ie_object object);;
  let type := IE_BITS_TYPE bits in
  (if type =? MACH_PORT_TYPE_SEND then
     check (negb (object =? IP_NULL));;
     _ ← ipc_reverse_remove space object;
     upd_entry nentry (set_ie_name nname);;
     _ ← ipc_reverse_insert space object nentry;
     mret tt
   else if (type =? MACH_PORT_TYPE_RECEIVE) || (type =? MACH_PORT_TYPE_SEND_RECEIVE) then
     check (negb (object =? IP_NULL));;
     p ← load_port object;
     check (ip_active p);;
     check (ip_receiver_name p =? oname);;
     check (ip_receiver p =? space);;
     upd_port object (set_ip_receiver_name nname)
   else if type =? MACH_PORT_TYPE_PORT_SET then
     check (negb (object =? IPS_NULL));;
     ps ← load_pset object;
     check (ips_active ps);;
     check (ips_local_name ps =? oname);;
     upd_pset object (set_ipt_name nname)
   else check ((type =? MACH_PORT_TYPE_SEND_ONCE) || (type =? MACH_PORT_TYPE_DEAD_NAME)));;
  o ← load_entry oentry;
  check (ie_request o =? 0);;
  upd_entry oentry (set_ie_object IO_NULL);;
  ipc_entry_dealloc space oname oentry;;
  mret KERN_SUCCESS.
End Right.
