(* ===== verification/IpcObject.v ===== *)
(** Capabilities as seen by the rest of the kernel: ipc/ipc_object.c and the
    allocation of ports and port sets. *)

From S2P Require Import Prelude Kmem RdxtreeMap IpcTypes IpcEntry IpcPort IpcMarequest IpcRight.

Open Scope N_scope.

Section Object.
Context `{!Config} {T C : Type} `{!KeyMap T} `{!KmemCache C}.
(** Content of an entry fresh out of its cache. *)
Context (garbage : ipc_entry).
#[local] Abbreviation K := (M (kernel T C)).

(** *** Translation and allocation *)

Definition ipc_object_translate (space name right : N) : K (kern_return_t * N) :=
  '(kr, entry) ← ipc_right_lookup_write space name;
  if negb (kr =? KERN_SUCCESS) then mret (kr, IO_NULL) else
  e ← load_entry entry;
  if N.land (ie_bits e) (MACH_PORT_TYPE right) =? 0 then mret (KERN_INVALID_RIGHT, IO_NULL) else
  check (negb (ie_object e =? IO_NULL));;
  mret (KERN_SUCCESS, ie_object e).

Definition ipc_object_alloc_dead (space : N) : K (kern_return_t * N) :=
  '(kr, r) ← ipc_entry_alloc garbage space;
  match r with
  | None => mret (kr, MACH_PORT_NAME_NULL)
  | Some (name, entry) =>
      e ← load_entry entry;
      check (ie_object e =? IO_NULL);;
      upd_entry entry (λ e, set_ie_bits (N.lor (ie_bits e) (N.lor MACH_PORT_TYPE_DEAD_NAME 1)) e);;
      mret (KERN_SUCCESS, name)
  end.

Definition ipc_object_alloc_dead_name (space name : N) : K kern_return_t :=
  '(kr, r) ← ipc_entry_alloc_name garbage space name;
  match r with
  | None => mret kr
  | Some entry =>
      inuse ← ipc_right_inuse space name entry;
      if inuse : bool then mret KERN_NAME_EXISTS else
      e ← load_entry entry;
      check (ie_object e =? IO_NULL);;
      upd_entry entry (λ e, set_ie_bits (N.lor (ie_bits e) (N.lor MACH_PORT_TYPE_DEAD_NAME 1)) e);;
      mret KERN_SUCCESS
  end.

(** [memset(object, 0, ...)]. *)
Definition zero_target : ipc_target := ITarget (IObject 0 0) 0 (IMqueue [] []).
Definition zero_object (otype : N) : kobject :=
  if otype =? IOT_PORT then KPort (IPort zero_target 0 0 0 0 0 0 0 0 None 0 0 0 0 [] 0)
  else KPset (IPset zero_target).

(** The assertions at the start of both allocation routines. *)
Definition check_object_args (otype type urefs : N) : K unit :=
  check (otype <? IOT_NUMBER);;
  check (N.land type MACH_PORT_TYPE_ALL_RIGHTS =? type);;
  check (negb (type =? MACH_PORT_TYPE_NONE));;
  check (urefs <=? MACH_PORT_UREFS_MAX).

(** The end of both allocation routines. *)
Definition install_object (entry object otype type urefs : N) : K unit :=
  upd_entry entry (λ e, set_ie_bits (N.lor (ie_bits e) (N.lor type urefs)) e);;
  upd_entry entry (set_ie_object object);;
  upd_object_target object (upd_object (set_io_references 1));;
  upd_object_target object (upd_object (set_io_bits (io_makebits true otype 0))).

Definition ipc_object_alloc (space otype type urefs : N) : K (kern_return_t * option (N * N)) :=
  check_object_args otype type urefs;;
  object ← io_alloc otype (zero_object otype);
  if object =? IO_NULL then mret (KERN_RESOURCE_SHORTAGE, None) else
  '(kr, r) ← ipc_entry_alloc garbage space;
  match r with
  | None => io_free otype object;; mret (kr, None)
  | Some (name, entry) =>
      install_object entry object otype type urefs;;
      mret (KERN_SUCCESS, Some (name, object))
  end.

Definition ipc_object_alloc_name (space otype type urefs name : N) : K (kern_return_t * option N) :=
  check_object_args otype type urefs;;
  object ← io_alloc otype (zero_object otype);
  if object =? IO_NULL then mret (KERN_RESOURCE_SHORTAGE, None) else
  '(kr, r) ← ipc_entry_alloc_name garbage space name;
  match r with
  | None => io_free otype object;; mret (kr, None)
  | Some entry =>
      inuse ← ipc_right_inuse space name entry;
      if inuse : bool then io_free otype object;; mret (KERN_NAME_EXISTS, None) else
      install_object entry object otype type urefs;;
      mret (KERN_SUCCESS, Some object)
  end.

Definition ipc_port_alloc (space : N) : K (kern_return_t * option (N * N)) :=
  '(kr, r) ← ipc_object_alloc space IOT_PORT MACH_PORT_TYPE_RECEIVE 0;
  match r with
  | None => mret (kr, None)
  | Some (name, port) => ipc_port_init port space name;; mret (KERN_SUCCESS, Some (name, port))
  end.
Definition ipc_port_alloc_name (space name : N) : K (kern_return_t * option N) :=
  '(kr, r) ← ipc_object_alloc_name space IOT_PORT MACH_PORT_TYPE_RECEIVE 0 name;
  match r with
  | None => mret (kr, None)
  | Some port => ipc_port_init port space name;; mret (KERN_SUCCESS, Some port)
  end.
Definition ipc_pset_alloc (space : N) : K (kern_return_t * option (N * N)) :=
  '(kr, r) ← ipc_object_alloc space IOT_PORT_SET MACH_PORT_TYPE_PORT_SET 0;
  match r with
  | None => mret (kr, None)
  | Some (name, pset) => upd_pset pset (ipc_target_init name);; mret (KERN_SUCCESS, Some (name, pset))
  end.
Definition ipc_pset_alloc_name (space name : N) : K (kern_return_t * option N) :=
  '(kr, r) ← ipc_object_alloc_name space IOT_PORT_SET MACH_PORT_TYPE_PORT_SET 0 name;
  match r with
  | None => mret (kr, None)
  | Some pset => upd_pset pset (ipc_target_init name);; mret (KERN_SUCCESS, Some pset)
  end.

(** *** Copyin *)

Definition ipc_object_copyin_type (msgt_name : N) : K N :=
  if msgt_name =? 0 then mret 0
  else if msgt_name =? MACH_MSG_TYPE_MOVE_RECEIVE then mret MACH_MSG_TYPE_PORT_RECEIVE
  else if (msgt_name =? MACH_MSG_TYPE_MOVE_SEND_ONCE) || (msgt_name =? MACH_MSG_TYPE_MAKE_SEND_ONCE)
  then mret MACH_MSG_TYPE_PORT_SEND_ONCE
  else if (msgt_name =? MACH_MSG_TYPE_MOVE_SEND) || (msgt_name =? MACH_MSG_TYPE_MAKE_SEND) ||
          (msgt_name =? MACH_MSG_TYPE_COPY_SEND) then mret MACH_MSG_TYPE_PORT_SEND
  else wrong.

Definition ipc_object_copyin (space name msgt_name : N) : K (kern_return_t * N) :=
  '(kr, entry) ← ipc_right_lookup_write space name;
  if negb (kr =? KERN_SUCCESS) then mret (kr, IO_NULL) else
  '(kr, object, soright) ← ipc_right_copyin space name entry msgt_name true;
  e ← load_entry entry;
  (if IE_BITS_TYPE (ie_bits e) =? MACH_PORT_TYPE_NONE then ipc_entry_dealloc space name entry else mret tt);;
  (if (kr =? KERN_SUCCESS) && negb (soright =? IP_NULL)
   then later (call_notify_port_deleted soright name) else mret tt);;
  mret (kr, object).

Definition ipc_object_copyin_from_kernel (object msgt_name : N) : K unit :=
  check (IO_VALID object);;
  let kernel_port :=
    p ← load_port object;
    check (ip_active p);;
    check (negb (ip_receiver_name p =? MACH_PORT_NULL));;
    check (ip_receiver p =? ipc_space_kernel) in
  if msgt_name =? MACH_MSG_TYPE_MOVE_RECEIVE then
    kernel_port;;
    ipc_port_set_mscount object 0;;
    upd_port object (set_ip_receiver_name MACH_PORT_NULL);;
    upd_port object (set_ip_destination IP_NULL);;
    upd_port object ipc_port_flag_protected_payload_clear
  else if msgt_name =? MACH_MSG_TYPE_COPY_SEND then
    p ← load_port object;
    (if ip_active p then
       check (negb (ip_srights p =? 0));;
       upd_port object (λ p, set_ip_srights (incr (ip_srights p)) p)
     else mret tt);;
    upd_port object ip_reference
  else if msgt_name =? MACH_MSG_TYPE_MAKE_SEND then
    kernel_port;;
    upd_port object ip_reference;;
    upd_port object (λ p, set_ip_mscount (incr (ip_mscount p)) p);;
    upd_port object (λ p, set_ip_srights (incr (ip_srights p)) p)
  else if msgt_name =? MACH_MSG_TYPE_MOVE_SEND then mret tt
  else if msgt_name =? MACH_MSG_TYPE_MAKE_SEND_ONCE then
    kernel_port;;
    upd_port object ip_reference;;
    upd_port object (λ p, set_ip_sorights (incr (ip_sorights p)) p)
  else check (msgt_name =? MACH_MSG_TYPE_MOVE_SEND_ONCE).

Definition ipc_object_destroy (object msgt_name : N) : K unit :=
  check (IO_VALID object);;
  p ← load_port object;
  check (io_otype (ip_object p) =? IOT_PORT);;
  if msgt_name =? MACH_MSG_TYPE_PORT_SEND then ipc_port_release_send object
  else if msgt_name =? MACH_MSG_TYPE_PORT_SEND_ONCE then later (call_notify_send_once object)
  else if msgt_name =? MACH_MSG_TYPE_PORT_RECEIVE then ipc_port_release_receive object
  else wrong.

(** *** Copyout *)

(** A fresh entry that is to hold the object, given back when the object is
    dead. *)
Definition copyout_prepare (space name entry object : N) : K bool :=
  e ← load_entry entry;
  check (IE_BITS_TYPE (ie_bits e) =? MACH_PORT_TYPE_NONE);;
  check (ie_object e =? IO_NULL);;
  p ← load_port object;
  if negb (ip_active p) then ipc_entry_dealloc space name entry;; mret false
  else upd_entry entry (set_ie_object object);; mret true.

Definition ipc_object_copyout (space object msgt_name : N) (overflow : bool) : K (kern_return_t * N) :=
  check (IO_VALID object);;
  p ← load_port object;
  check (io_otype (ip_object p) =? IOT_PORT);;
  s ← load_space space;
  if negb (is_active s) then mret (KERN_INVALID_TASK, MACH_PORT_NAME_NULL) else
  found ← (if negb (msgt_name =? MACH_MSG_TYPE_PORT_SEND_ONCE) then ipc_right_reverse space object
           else mret None);
  let copyout name entry :=
    kr ← ipc_right_copyout space name entry msgt_name overflow object;
    mret (kr, if kr =? KERN_SUCCESS then name else MACH_PORT_NAME_NULL) in
  match found with
  | Some (name, entry) =>
      e ← load_entry entry;
      check (has (ie_bits e) MACH_PORT_TYPE_SEND_RECEIVE);;
      copyout name entry
  | None =>
      '(kr, r) ← ipc_entry_alloc garbage space;
      match r with
      | None => mret (kr, MACH_PORT_NAME_NULL)
      | Some (name, entry) =>
          live ← copyout_prepare space name entry object;
          if negb live then mret (KERN_INVALID_CAPABILITY, MACH_PORT_NAME_NULL)
          else copyout name entry
      end
  end.

Definition ipc_object_copyout_name (space object msgt_name : N) (overflow : bool) (name : N)
    : K kern_return_t :=
  check (IO_VALID object);;
  p ← load_port object;
  check (io_otype (ip_object p) =? IOT_PORT);;
  '(kr, r) ← ipc_entry_alloc_name garbage space name;
  match r with
  | None => mret kr
  | Some entry =>
      found ← (if negb (msgt_name =? MACH_MSG_TYPE_PORT_SEND_ONCE) then ipc_right_reverse space object
               else mret None);
      match found with
      | Some (oname, oentry) =>
          if negb (name =? oname) then
            e ← load_entry entry;
            (if IE_BITS_TYPE (ie_bits e) =? MACH_PORT_TYPE_NONE
             then ipc_entry_dealloc space name entry else mret tt);;
            mret KERN_RIGHT_EXISTS
          else
            check (entry =? oentry);;
            e ← load_entry entry;
            check (has (ie_bits e) MACH_PORT_TYPE_SEND_RECEIVE);;
            ipc_right_copyout space name entry msgt_name overflow object
      | None =>
          inuse ← ipc_right_inuse space name entry;
          if inuse : bool then mret KERN_NAME_EXISTS else
          live ← copyout_prepare space name entry object;
          if negb live then mret KERN_INVALID_CAPABILITY
          else ipc_right_copyout space name entry msgt_name overflow object
      end
  end.

Definition ipc_object_copyout_dest (space object msgt_name : N) : K N :=
  check (IO_VALID object);;
  p ← load_port object;
  check (ip_active p);;
  upd_port object ip_release;;
  if msgt_name =? MACH_MSG_TYPE_PORT_SEND then
    check (negb (ip_srights p =? 0));;
    ns ← drop_send_right object;
    notify_no_senders ns;;
    mret (if ip_receiver p =? space then ip_receiver_name p else MACH_PORT_NAME_NULL)
  else if msgt_name =? MACH_MSG_TYPE_PORT_SEND_ONCE then
    check (negb (ip_sorights p =? 0));;
    if ip_receiver p =? space then
      upd_port object (λ p, set_ip_sorights (decr (ip_sorights p)) p);;
      mret (ip_receiver_name p)
    else
      upd_port object ip_reference;;
      later (call_notify_send_once object);;
      mret MACH_PORT_NAME_NULL
  else wrong.

Definition ipc_object_rename (space oname nname : N) : K kern_return_t :=
  '(kr, r) ← ipc_entry_alloc_name garbage space nname;
  match r with
  | None => mret kr
  | Some nentry =>
      inuse ← ipc_right_inuse space nname nentry;
      if inuse : bool then mret KERN_NAME_EXISTS else
      oentry ← (if oname =? nname then mret IE_NULL else ipc_entry_lookup space oname);
      if oentry =? IE_NULL then ipc_entry_dealloc space nname nentry;; mret KERN_INVALID_NAME
      else ipc_right_rename space oname oentry nname nentry
  end.

(** MACH_PORT_NULL, MACH_PORT_DEAD, or a panic. *)
Definition invalid_port_to_name (port : N) : K N :=
  if port =? IP_NULL then mret MACH_PORT_NAME_NULL
  else if port =? IP_DEAD then mret MACH_PORT_NAME_DEAD
  else wrong.

Definition ipc_port_copyout_send (sright space : N) : K N :=
  if IO_VALID sright then
    '(kr, name) ← ipc_object_copyout space sright MACH_MSG_TYPE_PORT_SEND true;
    if negb (kr =? KERN_SUCCESS) then
      ipc_port_release_send sright;;
      mret (if kr =? KERN_INVALID_CAPABILITY then MACH_PORT_NAME_DEAD else MACH_PORT_NAME_NULL)
    else mret name
  else invalid_port_to_name sright.
End Object.
