(* ===== verification/IpcSpace.v ===== *)
(** Spaces: ipc/ipc_space.c and the reference counts of ipc/ipc_space.h;
    creation and destruction of msg-accepted requests (ipc/ipc_marequest.c),
    which hold a reference to a space. *)

From S2P Require Import Prelude Kmem RdxtreeMap IpcTypes IpcEntry IpcPort IpcMarequest IpcRight.

Open Scope N_scope.

Section Space.
Context `{!Config} {T C : Type} `{!KeyMap T} `{!KmemCache C}.
#[local] Abbreviation K := (M (kernel T C)).

(** ** References *)

Definition ipc_space_reference (space : N) : K unit :=
  s ← load_space space;
  check (negb (is_references s =? 0));;
  upd_space space (λ s, set_is_references (incr (is_references s)) s).

Definition is_free (space : N) : K unit :=
  modify (λ s, set_k_spaces (delete space (k_spaces s)) s);; cache_free ipc_space_cache space.

Definition ipc_space_release (space : N) : K unit :=
  s ← load_space space;
  check (negb (is_references s =? 0));;
  upd_space space (λ s, set_is_references (decr (is_references s)) s);;
  if decr (is_references s) =? 0 then is_free space else mret tt.

(** ** Creation *)

(** [garbage] is the content of a space fresh out of its cache. *)
Definition is_alloc (garbage : ipc_space T) : K N :=
  a ← cache_alloc ipc_space_cache;
  if a =? 0 then mret a
  else modify (λ s, set_k_spaces (<[a := garbage]> (k_spaces s)) s);; mret a.

(** KERN_SUCCESS with a space, or KERN_RESOURCE_SHORTAGE.  The result of the
    insertion of the zeroth entry is ignored. *)
Definition ipc_space_create (garbage : ipc_space T) : K (kern_return_t * option N) :=
  space ← is_alloc garbage;
  if space =? 0 then mret (KERN_RESOURCE_SHORTAGE, None) else
  upd_space space (set_is_references 2);;
  upd_space space (set_is_active true);;
  on_map space km_init;;
  on_reverse_map space km_init;;
  _ ← on_map space (km_insert 0 zero_entry);
  upd_space space (set_is_size 1);;
  upd_space space (set_is_free_list IE_NULL);;
  upd_space space (set_is_free_list_size 0);;
  mret (KERN_SUCCESS, Some space).

Definition ipc_space_create_special (garbage : ipc_space T) : K (kern_return_t * option N) :=
  space ← is_alloc garbage;
  if space =? 0 then mret (KERN_RESOURCE_SHORTAGE, None) else
  upd_space space (set_is_references 1);;
  upd_space space (set_is_active false);;
  mret (KERN_SUCCESS, Some space).

(** ** Destruction *)

(** [rdxtree_for_each] over the entries. *)
Fixpoint space_clean_loop (fuel : nat) (space : N) (iter : km_iter) : K unit :=
  match fuel with
  | O => wrong
  | S fuel =>
      '(entry, iter) ← on_map space (km_walk iter);
      if entry =? IE_NULL then mret tt else
      e ← load_entry entry;
      (if ie_name e =? MACH_PORT_NULL then mret tt
       else
         (if negb (IE_BITS_TYPE (ie_bits e) =? MACH_PORT_TYPE_NONE)
          then ipc_right_clean space (ie_name e) entry else mret tt);;
         ie_free entry);;
      space_clean_loop fuel space iter
  end.

(** The loop visits every entry at most once. *)
Definition ipc_space_destroy (space : N) : K unit :=
  check (negb (space =? 0));;
  s ← load_space space;
  upd_space space (set_is_active false);;
  if negb (is_active s) then mret tt else
  k ← get;
  space_clean_loop (S (S (size (k_entries k)))) space km_iter_init;;
  on_map space km_remove_all;;
  on_reverse_map space km_remove_all;;
  ipc_space_release space.

(** ** Msg-accepted requests *)

Definition imar_free (marequest : N) : K unit :=
  _ ← load_marequest marequest;
  modify (λ s, set_k_marequests (delete marequest (k_marequests s)) s);;
  cache_free ipc_marequest_cache marequest.

(** [garbage] is the content of a request fresh out of its cache. *)
Definition imar_alloc (garbage : ipc_marequest) : K N :=
  a ← cache_alloc ipc_marequest_cache;
  if a =? 0 then mret a
  else modify (λ s, set_k_marequests (<[a := garbage]> (k_marequests s)) s);; mret a.

Definition put_marequest (a : N) (r : ipc_marequest) : K unit := upd_marequest a (λ _, r).

Definition ipc_marequest_create (garbage : ipc_marequest) (space port notify : N) : K (N * option N) :=
  marequest ← imar_alloc garbage;
  if marequest =? 0 then mret (MACH_SEND_NO_NOTIFY, None) else
  s ← load_space space;
  if negb (is_active s) then imar_free marequest;; mret (MACH_SEND_INVALID_NOTIFY, None) else
  found ← ipc_right_reverse space port;
  match found with
  | Some (name, entry) =>
      e ← load_entry entry;
      let bits := ie_bits e in
      check (port =? ie_object e);;
      check (has bits MACH_PORT_TYPE_SEND_RECEIVE);;
      if has bits IE_BITS_MAREQUEST then
        imar_free marequest;; mret (MACH_SEND_NOTIFY_IN_PROGRESS, None)
      else
      soright ← ipc_port_lookup_notify space notify;
      if soright =? IP_NULL then
        imar_free marequest;; mret (MACH_SEND_INVALID_NOTIFY, None)
      else
      upd_entry entry (set_ie_bits (N.lor bits IE_BITS_MAREQUEST));;
      ipc_space_reference space;;
      put_marequest marequest (IMar space name soright);;
      l ← load_bucket (IMAR_HASH space name);
      put_bucket (IMAR_HASH space name) (marequest :: l);;
      mret (MACH_MSG_SUCCESS, Some marequest)
  | None =>
      soright ← ipc_port_lookup_notify space notify;
      if soright =? IP_NULL then
        imar_free marequest;; mret (MACH_SEND_INVALID_NOTIFY, None)
      else
      ipc_space_reference space;;
      put_marequest marequest (IMar space MACH_PORT_NULL soright);;
      mret (MACH_MSG_SUCCESS, Some marequest)
  end.

Definition ipc_marequest_destroy (marequest : N) : K unit :=
  r ← load_marequest marequest;
  let space := imar_space r in
  let name := imar_name r in
  s ← load_space space;
  name ← (if negb (name =? MACH_PORT_NULL) then
            l ← load_bucket (IMAR_HASH space name);
            x ← marequest_find l space name;
            '(this, l) ← deref x;
            check (this =? marequest);;
            put_bucket (IMAR_HASH space name) l;;
            if is_active s then
              entry ← ipc_entry_lookup space name;
              check (negb (entry =? IE_NULL));;
              e ← load_entry entry;
              check (has (ie_bits e) IE_BITS_MAREQUEST);;
              check (has (ie_bits e) MACH_PORT_TYPE_SEND_RECEIVE);;
              upd_entry entry (λ e, set_ie_bits (N.ldiff (ie_bits e) IE_BITS_MAREQUEST) e);;
              mret name
            else mret MACH_PORT_NAME_NULL
          else mret name);
  ipc_space_release space;;
  imar_free marequest;;
  check (negb (imar_soright r =? IP_NULL));;
  later (call_notify_msg_accepted (imar_soright r) name).
End Space.
