(* ===== verification/MachPort.v ===== *)
(** The calls of ipc/mach_port.c, which tasks make on names of their space.
    Messages on the console are left out. *)

From S2P Require Import Prelude Kmem RdxtreeMap IpcTypes IpcEntry IpcPort IpcMarequest IpcRight IpcObject.

Open Scope N_scope.

(** ** Constants (include/mach/port.h, include/mach/message.h, include/mach/notify.h) *)

Definition IS_NULL : N := 0.
Definition MACH_PORT_QLIMIT_MAX : N := 16.
Definition MACH_MSG_TYPE_PORT_ANY (x : N) : bool :=
  (MACH_MSG_TYPE_MOVE_RECEIVE <=? x) && (x <=? MACH_MSG_TYPE_MAKE_SEND_ONCE).
Definition MACH_MSG_TYPE_PORT_ANY_RIGHT (x : N) : bool :=
  (MACH_MSG_TYPE_MOVE_RECEIVE <=? x) && (x <=? MACH_MSG_TYPE_MOVE_SEND_ONCE).
Definition MACH_NOTIFY_PORT_DESTROYED : N := 69.
Definition MACH_NOTIFY_NO_SENDERS : N := 70.
Definition MACH_NOTIFY_DEAD_NAME : N := 72.

Record mach_port_status := MPStatus {
  mps_pset : N;
  mps_seqno : N;
  mps_mscount : N;
  mps_qlimit : N;
  mps_msgcount : N;
  mps_sorights : N;
  mps_srights : bool;
  mps_pdrequest : bool;
  mps_nsrequest : bool;
}.

(** [(int) (one - two) < 0] on 32-bit timestamps. *)
Definition IP_TIMESTAMP_ORDER (one two : N) : bool := 2 ^ 31 <=? u32_sub one two.

Section MachPort.
Context `{!Config} {T C : Type} `{!KeyMap T} `{!KmemCache C}.
(** Content of an entry fresh out of its cache. *)
Context (garbage : ipc_entry).
#[local] Abbreviation K := (M (kernel T C)).

(** [ipc_port_translate_receive]. *)
Definition ipc_port_translate_receive (space name : N) : K (kern_return_t * N) :=
  ipc_object_translate space name MACH_PORT_RIGHT_RECEIVE.

(** ** Names and types *)

(** The type that [mach_port_names] reports for an entry. *)
Definition mach_port_names_helper (timestamp : N) (entry : ipc_entry) (name : N) : K (N * N) :=
  '(bits, request) ←
    (if has (ie_bits entry) MACH_PORT_TYPE_SEND_RIGHTS then
       let port := ie_object entry in
       check (negb (port =? IP_NULL));;
       p ← load_port port;
       let died := negb (ip_active p) && IP_TIMESTAMP_ORDER (ip_data p) timestamp in
       if died then
         let bits := N.ldiff (ie_bits entry) (N.lor IE_BITS_TYPE_MASK IE_BITS_MAREQUEST) in
         let bits := N.lor bits MACH_PORT_TYPE_DEAD_NAME in
         mret (if negb (ie_request entry =? 0) then incr bits else bits, 0)
       else mret (ie_bits entry, ie_request entry)
     else mret (ie_bits entry, ie_request entry));
  let type := IE_BITS_TYPE bits in
  let type := if negb (request =? 0) then N.lor type MACH_PORT_TYPE_DNREQUEST else type in
  let type := if has bits IE_BITS_MAREQUEST then N.lor type MACH_PORT_TYPE_MAREQUEST else type in
  mret (name, type).

(** [rdxtree_for_each] over the entries of the space. *)
Fixpoint port_names_loop (fuel : nat) (space timestamp : N) (iter : km_iter) : K (list (N * N)) :=
  match fuel with
  | O => wrong
  | S fuel =>
      '(entry, iter) ← on_map space (km_walk iter);
      if entry =? IE_NULL then mret [] else
      e ← load_entry entry;
      if negb (IE_BITS_TYPE (ie_bits e) =? MACH_PORT_TYPE_NONE) then
        x ← mach_port_names_helper timestamp e (ie_name e);
        l ← port_names_loop fuel space timestamp iter;
        mret (x :: l)
      else port_names_loop fuel space timestamp iter
  end.

(** The names and their types.  [memory]: the kernel map has room for the two
    arrays, of [bound] elements each. *)
Definition mach_port_names (memory : bool) (space : N) : K (kern_return_t * list (N * N)) :=
  if space =? IS_NULL then mret (KERN_INVALID_TASK, []) else
  s ← load_space space;
  if negb (is_active s) then mret (KERN_INVALID_TASK, []) else
  let bound := u32 (is_size s) in
  if negb (bound =? 0) && negb memory then mret (KERN_RESOURCE_SHORTAGE, []) else
  timestamp ← ipc_port_timestamp;
  k ← get;
  l ← port_names_loop (S (S (size (k_entries k)))) space timestamp km_iter_init;
  check (N.of_nat (length l) <? bound);;
  mret (KERN_SUCCESS, l).

Definition mach_port_type (space name : N) : K (kern_return_t * N) :=
  if space =? IS_NULL then mret (KERN_INVALID_TASK, 0) else
  '(kr, entry) ← ipc_right_lookup_write space name;
  if negb (kr =? KERN_SUCCESS) then mret (kr, 0) else
  '(kr, type, _) ← ipc_right_info space name entry;
  mret (kr, type).

Definition mach_port_rename (space oname nname : N) : K kern_return_t :=
  if space =? IS_NULL then mret KERN_INVALID_TASK else
  if negb (MACH_PORT_NAME_VALID nname) then mret KERN_INVALID_VALUE else
  ipc_object_rename garbage space oname nname.

(** ** Allocation *)

Definition mach_port_allocate_name (space right name : N) : K kern_return_t :=
  if space =? IS_NULL then mret KERN_INVALID_TASK else
  if negb (MACH_PORT_NAME_VALID name) then mret KERN_INVALID_VALUE else
  if right =? MACH_PORT_RIGHT_RECEIVE then '(kr, _) ← ipc_port_alloc_name garbage space name; mret kr
  else if right =? MACH_PORT_RIGHT_PORT_SET then '(kr, _) ← ipc_pset_alloc_name garbage space name; mret kr
  else if right =? MACH_PORT_RIGHT_DEAD_NAME then ipc_object_alloc_dead_name garbage space name
  else mret KERN_INVALID_VALUE.

Definition mach_port_allocate (space right : N) : K (kern_return_t * N) :=
  if space =? IS_NULL then mret (KERN_INVALID_TASK, MACH_PORT_NAME_NULL) else
  if right =? MACH_PORT_RIGHT_RECEIVE then
    '(kr, r) ← ipc_port_alloc garbage space;
    mret (kr, match r with Some (name, _) => name | None => MACH_PORT_NAME_NULL end)
  else if right =? MACH_PORT_RIGHT_PORT_SET then
    '(kr, r) ← ipc_pset_alloc garbage space;
    mret (kr, match r with Some (name, _) => name | None => MACH_PORT_NAME_NULL end)
  else if right =? MACH_PORT_RIGHT_DEAD_NAME then ipc_object_alloc_dead garbage space
  else mret (KERN_INVALID_VALUE, MACH_PORT_NAME_NULL).

(** ** Rights *)

Definition mach_port_destroy (space name : N) : K kern_return_t :=
  if space =? IS_NULL then mret KERN_INVALID_TASK else
  '(kr, entry) ← ipc_right_lookup_write space name;
  if negb (kr =? KERN_SUCCESS) then mret kr else ipc_right_destroy space name entry.

Definition mach_port_deallocate (space name : N) : K kern_return_t :=
  if space =? IS_NULL then mret KERN_INVALID_TASK else
  '(kr, entry) ← ipc_right_lookup_write space name;
  if negb (kr =? KERN_SUCCESS) then mret kr else ipc_right_dealloc space name entry.

Definition mach_port_get_refs (space name right : N) : K (kern_return_t * N) :=
  if space =? IS_NULL then mret (KERN_INVALID_TASK, 0) else
  if MACH_PORT_RIGHT_NUMBER <=? right then mret (KERN_INVALID_VALUE, 0) else
  '(kr, entry) ← ipc_right_lookup_write space name;
  if negb (kr =? KERN_SUCCESS) then mret (kr, 0) else
  '(kr, type, urefs) ← ipc_right_info space name entry;
  if negb (kr =? KERN_SUCCESS) then mret (kr, 0) else
  if has type (MACH_PORT_TYPE right) then
    if right =? MACH_PORT_RIGHT_SEND_ONCE then check (urefs =? 1);; mret (kr, 1)
    else if (right =? MACH_PORT_RIGHT_PORT_SET) || (right =? MACH_PORT_RIGHT_RECEIVE) then mret (kr, 1)
    else if (right =? MACH_PORT_RIGHT_DEAD_NAME) || (right =? MACH_PORT_RIGHT_SEND) then
      check (negb (urefs =? 0));; mret (kr, urefs)
    else wrong
  else mret (kr, 0).

Definition mach_port_mod_refs (space name right : N) (delta : Z) : K kern_return_t :=
  if space =? IS_NULL then mret KERN_INVALID_TASK else
  if MACH_PORT_RIGHT_NUMBER <=? right then mret KERN_INVALID_VALUE else
  '(kr, entry) ← ipc_right_lookup_write space name;
  if negb (kr =? KERN_SUCCESS) then mret kr else ipc_right_delta space name entry right delta.

Definition mach_port_insert_right (space name poly polyPoly : N) : K kern_return_t :=
  if space =? IS_NULL then mret KERN_INVALID_TASK else
  if negb (MACH_PORT_NAME_VALID name) || negb (MACH_MSG_TYPE_PORT_ANY_RIGHT polyPoly) then mret KERN_INVALID_VALUE else
  if negb (IO_VALID poly) then mret KERN_INVALID_CAPABILITY else
  ipc_object_copyout_name garbage space poly polyPoly false name.

(** The port and the type of the right. *)
Definition mach_port_extract_right (space name msgt_name : N) : K (kern_return_t * N * N) :=
  if space =? IS_NULL then mret (KERN_INVALID_TASK, IP_NULL, 0) else
  if negb (MACH_MSG_TYPE_PORT_ANY msgt_name) then mret (KERN_INVALID_VALUE, IP_NULL, 0) else
  '(kr, poly) ← ipc_object_copyin space name msgt_name;
  if kr =? KERN_SUCCESS then polyPoly ← ipc_object_copyin_type msgt_name; mret (kr, poly, polyPoly)
  else mret (kr, poly, 0).

(** ** Receive rights *)

(** The calls that translate a receive right and change the port. *)
Definition on_receive_right (space name : N) (change : N → K unit) : K kern_return_t :=
  if space =? IS_NULL then mret KERN_INVALID_TASK else
  '(kr, port) ← ipc_port_translate_receive space name;
  if negb (kr =? KERN_SUCCESS) then mret kr else change port;; mret KERN_SUCCESS.

Definition mach_port_set_qlimit (space name qlimit : N) : K kern_return_t :=
  if space =? IS_NULL then mret KERN_INVALID_TASK else
  if MACH_PORT_QLIMIT_MAX <? qlimit then mret KERN_INVALID_VALUE else
  on_receive_right space name (λ port, ipc_port_set_qlimit port qlimit).
Definition mach_port_set_mscount (space name mscount : N) : K kern_return_t :=
  on_receive_right space name (λ port, ipc_port_set_mscount port mscount).
Definition mach_port_set_seqno (space name seqno : N) : K kern_return_t :=
  on_receive_right space name (λ port, ipc_port_set_seqno port seqno).
Definition mach_port_set_protected_payload (space name payload : N) : K kern_return_t :=
  on_receive_right space name (λ port, ipc_port_set_protected_payload port payload).
Definition mach_port_clear_protected_payload (space name : N) : K kern_return_t :=
  on_receive_right space name ipc_port_clear_protected_payload.

Definition mach_port_get_receive_status (space name : N) : K (kern_return_t * option mach_port_status) :=
  if space =? IS_NULL then mret (KERN_INVALID_TASK, None) else
  '(kr, port) ← ipc_port_translate_receive space name;
  if negb (kr =? KERN_SUCCESS) then mret (kr, None) else
  p ← load_port port;
  pset ← (if negb (ip_pset p =? IPS_NULL) then
            let pset := ip_pset p in
            s ← load_pset pset;
            if negb (ips_active s) then ipc_pset_remove pset port;; io_check_unlock pset;; mret MACH_PORT_NULL
            else check (MACH_PORT_NAME_VALID (ips_local_name s));; mret (ips_local_name s)
          else mret MACH_PORT_NULL);
  p ← load_port port;
  mret (KERN_SUCCESS, Some (MPStatus pset (ip_seqno p) (ip_mscount p) (ip_qlimit p) (ip_msgcount p) (ip_sorights p)
    (0 <? ip_srights p) (negb (ip_pdrequest p =? IP_NULL)) (negb (ip_nsrequest p =? IP_NULL)))).

(** ** Port sets *)

(** Stores the name of the port if it belongs to the set and there is room;
    counts it in any case. *)
Definition mach_port_gst_helper (pset port maxnames : N) (names : list N) (actual : N) : K (list N * N) :=
  check (negb (port =? IP_NULL));;
  p ← load_port port;
  check (ip_active p);;
  check (negb (ip_receiver_name p =? MACH_PORT_NULL));;
  if pset =? ip_pset p then
    mret (if actual <? maxnames then names ++ [ip_receiver_name p] else names, incr actual)
  else mret (names, actual).

(** [rdxtree_for_each] over the entries of the space. *)
Fixpoint port_set_loop (fuel : nat) (space pset maxnames : N) (iter : km_iter) (names : list N) (actual : N) : K (list N * N) :=
  match fuel with
  | O => wrong
  | S fuel =>
      '(entry, iter) ← on_map space (km_walk iter);
      if entry =? IE_NULL then mret (names, actual) else
      e ← load_entry entry;
      '(names, actual) ← (if has (ie_bits e) MACH_PORT_TYPE_RECEIVE
                          then mach_port_gst_helper pset (ie_object e) maxnames names actual
                          else mret (names, actual));
      port_set_loop fuel space pset maxnames iter names actual
  end.

(** The loop that enlarges the array until the members fit.  [memory size]: the
    kernel map has room for [size] bytes. *)
Fixpoint set_status_loop (fuel : nat) (memory : N → bool) (space name size : N) : K (kern_return_t * list N) :=
  match fuel with
  | O => wrong
  | S fuel =>
      if negb (memory size) then mret (KERN_RESOURCE_SHORTAGE, []) else
      '(kr, entry) ← ipc_right_lookup_write space name;
      if negb (kr =? KERN_SUCCESS) then mret (kr, []) else
      e ← load_entry entry;
      if negb (IE_BITS_TYPE (ie_bits e) =? MACH_PORT_TYPE_PORT_SET) then mret (KERN_INVALID_RIGHT, []) else
      check (negb (ie_object e =? IPS_NULL));;
      let maxnames := u32 (size / 4) in
      k ← get;
      '(names, actual) ← port_set_loop (S (S (base.size (k_entries k)))) space (ie_object e) maxnames km_iter_init [] 0;
      if actual <=? maxnames then mret (KERN_SUCCESS, names)
      else set_status_loop fuel memory space name (u64 (round_page (actual * 4) + PAGE_SIZE))
  end.

Definition mach_port_get_set_status (memory : N → bool) (space name : N) : K (kern_return_t * list N) :=
  if space =? IS_NULL then mret (KERN_INVALID_TASK, []) else
  set_status_loop 2 memory space name PAGE_SIZE.

Definition mach_port_move_member (space member after : N) : K kern_return_t :=
  if space =? IS_NULL then mret KERN_INVALID_TASK else
  '(kr, entry) ← ipc_right_lookup_write space member;
  if negb (kr =? KERN_SUCCESS) then mret kr else
  e ← load_entry entry;
  if negb (has (ie_bits e) MACH_PORT_TYPE_RECEIVE) then mret KERN_INVALID_RIGHT else
  let port := ie_object e in
  check (negb (port =? IP_NULL));;
  if after =? MACH_PORT_NULL then ipc_pset_move space port IPS_NULL else
  entry ← ipc_entry_lookup space after;
  if entry =? IE_NULL then mret KERN_INVALID_NAME else
  e ← load_entry entry;
  if negb (has (ie_bits e) MACH_PORT_TYPE_PORT_SET) then mret KERN_INVALID_RIGHT else
  check (negb (ie_object e =? IPS_NULL));;
  ipc_pset_move space port (ie_object e).

(** ** Requests *)

(** The previous request. *)
Definition mach_port_request_notification (space name id sync notify : N) : K (kern_return_t * N) :=
  if space =? IS_NULL then mret (KERN_INVALID_TASK, IP_NULL) else
  if notify =? IP_DEAD then mret (KERN_INVALID_CAPABILITY, IP_NULL) else
  if id =? MACH_NOTIFY_PORT_DESTROYED then
    if negb (sync =? 0) then mret (KERN_INVALID_VALUE, IP_NULL) else
    '(kr, port) ← ipc_port_translate_receive space name;
    if negb (kr =? KERN_SUCCESS) then mret (kr, IP_NULL) else
    previous ← ipc_port_pdrequest port notify; mret (KERN_SUCCESS, previous)
  else if id =? MACH_NOTIFY_NO_SENDERS then
    '(kr, port) ← ipc_port_translate_receive space name;
    if negb (kr =? KERN_SUCCESS) then mret (kr, IP_NULL) else
    previous ← ipc_port_nsrequest port sync notify; mret (KERN_SUCCESS, previous)
  else if id =? MACH_NOTIFY_DEAD_NAME then
    '(kr, previous) ← ipc_right_dnrequest space name (negb (sync =? 0)) notify;
    if negb (kr =? KERN_SUCCESS) then mret (kr, IP_NULL) else mret (KERN_SUCCESS, previous)
  else mret (KERN_INVALID_VALUE, IP_NULL).
End MachPort.
