(* ===== verification/IpcBits.v ===== *)
(** The word [ie_bits]: 16 bits of user references below 6 bits that tell the
    rights an entry holds and whether it has a msg-accepted request. *)

From S2P Require Import Prelude RdxtreeMap IpcTypes.

Open Scope N_scope.

(** [u] user references and the right bits [q]. *)
Definition bits_of (u q : N) : N := u + 2 ^ 16 * q.

Lemma bits_testbit u q j :
  u < 2 ^ 16 →
  N.testbit (bits_of u q) j = if j <? 16 then N.testbit u j else N.testbit q (j - 16).
Proof.
  intros Hu. unfold bits_of. rewrite N.mul_comm. destruct (N.ltb_spec j 16) as [Hj|Hj].
  - rewrite <- (N.mod_pow2_bits_low _ 16 j Hj), N.Div0.mod_add, N.mod_small by done. done.
  - replace j with (j - 16 + 16) at 1 by lia. rewrite <- N.div_pow2_bits, N.div_add by done.
    by rewrite (N.div_small u).
Qed.

Lemma high_bits c : 2 ^ 16 * c = bits_of 0 c.
Proof. done. Qed.

Section Bits16.
Context (u q c : N) (Hu : u < 2 ^ 16).

Lemma land_high : N.land (bits_of u q) (2 ^ 16 * c) = 2 ^ 16 * N.land q c.
Proof.
  apply N.bits_inj. intros j. rewrite !high_bits, N.land_spec, !bits_testbit by done.
  rewrite N.land_spec. destruct (j <? 16); [|done]. by rewrite N.bits_0, andb_false_r.
Qed.

Lemma land_low : N.land (bits_of u q) 65535 = u.
Proof.
  change 65535 with (N.ones 16). rewrite N.land_ones. unfold bits_of.
  rewrite N.mul_comm, N.Div0.mod_add. by apply N.mod_small.
Qed.

Lemma ldiff_high : N.ldiff (bits_of u q) (2 ^ 16 * c) = bits_of u (N.ldiff q c).
Proof.
  apply N.bits_inj. intros j. rewrite high_bits, N.ldiff_spec, !bits_testbit by done.
  rewrite N.ldiff_spec. destruct (j <? 16); [|done]. by rewrite N.bits_0, andb_true_r.
Qed.

Lemma lor_high : N.lor (bits_of u q) (2 ^ 16 * c) = bits_of u (N.lor q c).
Proof.
  apply N.bits_inj. intros j. rewrite high_bits, N.lor_spec, !bits_testbit by done.
  rewrite N.lor_spec. destruct (j <? 16); [|done]. by rewrite N.bits_0, orb_false_r.
Qed.

(** [bits &~ (IE_BITS_UREFS_MASK | ...)]. *)
Lemma ldiff_all : N.ldiff (bits_of u q) (65535 + 2 ^ 16 * c) = bits_of 0 (N.ldiff q c).
Proof.
  change (65535 + 2 ^ 16 * c) with (bits_of 65535 c).
  apply N.bits_inj. intros j. rewrite N.ldiff_spec, !bits_testbit by done.
  rewrite N.ldiff_spec. destruct (N.ltb_spec j 16); [|done].
  change 65535 with (N.ones 16). rewrite N.ones_spec_low, N.bits_0 by done. apply andb_false_r.
Qed.

Lemma land_all : N.land (bits_of u q) (65535 + 2 ^ 16 * c) = bits_of u (N.land q c).
Proof.
  change (65535 + 2 ^ 16 * c) with (bits_of 65535 c).
  apply N.bits_inj. intros j. rewrite N.land_spec, !bits_testbit by done.
  rewrite N.land_spec. destruct (N.ltb_spec j 16); [|done].
  change 65535 with (N.ones 16). rewrite N.ones_spec_low by done. apply andb_true_r.
Qed.

Context (Hq : q < 2 ^ 16).

Lemma bits_of_lt : bits_of u q < 2 ^ 32.
Proof. unfold bits_of. lia. Qed.

Lemma incr_bits : u + 1 < 2 ^ 16 → incr (bits_of u q) = bits_of (u + 1) q.
Proof. intros Hu1. unfold incr, u32, wrap, bits_of in *. rewrite N.mod_small; lia. Qed.

Lemma decr_bits : u ≠ 0 → decr (bits_of u q) = bits_of (u - 1) q.
Proof.
  intros Hu0. unfold decr, u32_sub, u32, wrap, bits_of in *.
  change (1 mod 2 ^ 32) with 1.
  replace (u + 2 ^ 16 * q + (2 ^ 32 - 1)) with (u - 1 + 2 ^ 16 * q + 1 * 2 ^ 32) by lia.
  rewrite N.Div0.mod_add, N.mod_small; lia.
Qed.

Lemma urefs_add_bits (delta : Z) :
  (0 ≤ Z.of_N u + delta < 2 ^ 16)%Z →
  urefs_add (bits_of u q) delta = bits_of (Z.to_N (Z.of_N u + delta)) q.
Proof.
  intros Hd. unfold urefs_add, bits_of. rewrite Z.mod_small by lia. lia.
Qed.
End Bits16.

(** ** Right bits *)

Definition Q_SEND : N := 1.
Definition Q_RECEIVE : N := 2.
Definition Q_SEND_RECEIVE : N := 3.
Definition Q_SEND_ONCE : N := 4.
Definition Q_PORT_SET : N := 8.
Definition Q_DEAD_NAME : N := 16.
(** The msg-accepted bit. *)
Definition Q_MA (ma : bool) : N := if ma then 32 else 0.

Section Tests.
Context (u q : N) (Hu : u < 2 ^ 16).

Lemma urefs_bits : IE_BITS_UREFS (bits_of u q) = u.
Proof. by apply land_low. Qed.
Lemma type_bits : IE_BITS_TYPE (bits_of u q) = 2 ^ 16 * N.land q 31.
Proof. by apply (land_high u q 31). Qed.
Lemma has_bits c : has (bits_of u q) (2 ^ 16 * c) = negb (N.land q c =? 0).
Proof.
  unfold has. rewrite land_high by done. f_equal.
  destruct (N.eqb_spec (N.land q c) 0) as [->|H]; [done|]. apply N.eqb_neq. lia.
Qed.
End Tests.

(** Computes the tests on a word [bits_of u q] whose right bits are known. *)
Ltac bits_simpl :=
  repeat first
    [ rewrite urefs_bits by lia
    | rewrite type_bits by lia
    | rewrite (has_bits _ _ ltac:(lia) 1 : has (bits_of _ _) MACH_PORT_TYPE_SEND = _)
    | rewrite (has_bits _ _ ltac:(lia) 2 : has (bits_of _ _) MACH_PORT_TYPE_RECEIVE = _)
    | rewrite (has_bits _ _ ltac:(lia) 4 : has (bits_of _ _) MACH_PORT_TYPE_SEND_ONCE = _)
    | rewrite (has_bits _ _ ltac:(lia) 8 : has (bits_of _ _) MACH_PORT_TYPE_PORT_SET = _)
    | rewrite (has_bits _ _ ltac:(lia) 16 : has (bits_of _ _) MACH_PORT_TYPE_DEAD_NAME = _)
    | rewrite (has_bits _ _ ltac:(lia) 3 : has (bits_of _ _) MACH_PORT_TYPE_SEND_RECEIVE = _)
    | rewrite (has_bits _ _ ltac:(lia) 5 : has (bits_of _ _) MACH_PORT_TYPE_SEND_RIGHTS = _)
    | rewrite (has_bits _ _ ltac:(lia) 7 : has (bits_of _ _) MACH_PORT_TYPE_PORT_RIGHTS = _)
    | rewrite (has_bits _ _ ltac:(lia) 23 : has (bits_of _ _) MACH_PORT_TYPE_PORT_OR_DEAD = _)
    | rewrite (has_bits _ _ ltac:(lia) 32 : has (bits_of _ _) IE_BITS_MAREQUEST = _) ].
