(* ===== verification/IpcInv.v ===== *)
(** The capability view of the IPC state and the invariant that ties it to the
    concrete structures.

    A table [G] gives for every entry its space, its name and the capability it
    holds; [n] counts, for every object, the references and rights that no
    entry holds (those in messages, in requests and in the hands of the
    kernel).  [Inv K G n] says that the spaces, radix trees, free lists,
    entries, ports, port sets and request tables of [K] represent [G], and that
    every count kept in an object is the number of its holders. *)

From S2P Require Import Prelude Kmem RdxtreeInv RdxtreeSpec RdxtreeMap IpcTypes IpcEntry IpcPort IpcMarequest IpcBits.

Open Scope N_scope.

(** ** Capabilities *)

Inductive ctype := TDead | TPset | TSonce | TSend | TRecv | TSendRecv.

#[export] Instance ctype_eq_dec : EqDecision ctype.
Proof. solve_decision. Defined.

(** A capability: its type, the object, the user references, the dead-name
    request and whether a msg-accepted request is outstanding. *)
Record cap := Cap {
  c_type : ctype;
  c_obj : N;
  c_urefs : N;
  c_req : N;
  c_ma : bool;
}.

(** An entry is on the free list, taken off it and not yet in use, or holds a
    capability. *)
Inductive estate := Free | Held | Used (c : cap).

Record eslot := Slot {
  sl_space : N;
  sl_name : N;
  sl_state : estate;
}.

#[local] Abbreviation table := (gmap N eslot).

(** The rights bits of a type. *)
Definition type_code (t : ctype) : N :=
  match t with
  | TDead => 16 | TPset => 8 | TSonce => 4 | TSend => 1 | TRecv => 2 | TSendRecv => 3
  end.
Definition ma_code (ma : bool) : N := if ma then 32 else 0.
Definition cap_bits (c : cap) : N := bits_of (c_urefs c) (type_code (c_type c) + ma_code (c_ma c)).

Definition is_send (t : ctype) : bool := match t with TSend | TSendRecv => true | _ => false end.
Definition is_recv (t : ctype) : bool := match t with TRecv | TSendRecv => true | _ => false end.
Definition is_sonce (t : ctype) : bool := match t with TSonce => true | _ => false end.
(** Rights that a space holds at most once for a port. *)
Definition is_named (t : ctype) : bool := match t with TSend | TRecv | TSendRecv => true | _ => false end.

(** The state holds a capability of a type in [P] for the object [o]. *)
Definition holds (P : ctype → bool) (o : N) (s : eslot) : bool :=
  match sl_state s with
  | Used c => (c_obj c =? o) && P (c_type c)
  | _ => false
  end.

Definition n_caps (G : table) (o : N) : N := count (holds (λ _, true) o) G.
Definition n_send (G : table) (o : N) : N := count (holds is_send o) G.
Definition n_sonce (G : table) (o : N) : N := count (holds is_sonce o) G.
Definition n_recv (G : table) (o : N) : N := count (holds is_recv o) G.

(** What the fields of a capability may be. *)
Definition cap_wf (c : cap) : Prop :=
  match c_type c with
  | TDead => c_obj c = 0 ∧ 0 < c_urefs c < 2 ^ 16 ∧ c_req c = 0 ∧ c_ma c = false
  | TPset => c_obj c ≠ 0 ∧ c_urefs c = 0 ∧ c_req c = 0 ∧ c_ma c = false
  | TSonce => c_obj c ≠ 0 ∧ c_urefs c = 1 ∧ c_ma c = false
  | TSend | TSendRecv => c_obj c ≠ 0 ∧ 0 < c_urefs c < MACH_PORT_UREFS_MAX
  | TRecv => c_obj c ≠ 0 ∧ c_urefs c = 0
  end.

(** ** Rights outside of entries *)

(** References and rights; [nk_pd] of the send-once rights belong to
    port-destroyed requests, and [nk_kern] of the receive rights to the kernel. *)
Record naked_rights := Naked {
  nk_refs : N;
  nk_send : N;
  nk_sonce : N;
  nk_recv : N;
  nk_pd : N;
  nk_kern : N;
}.
Definition nk_rights (r : naked_rights) : N := nk_send r + nk_sonce r + nk_recv r.
Definition naked := N → naked_rights.
Definition upd_naked (n : naked) (o : N) (r : naked_rights) : naked :=
  λ o', if o' =? o then r else n o'.

Lemma upd_naked_eq n o r : upd_naked n o r o = r.
Proof. unfold upd_naked. by rewrite N.eqb_refl. Qed.
Lemma upd_naked_ne n o o' r : o' ≠ o → upd_naked n o r o' = n o'.
Proof. intros Hne. unfold upd_naked. by rewrite (proj2 (N.eqb_neq o' o) Hne). Qed.

(** ** Configuration *)

(** Objects lie in the 32 GB above [VM_MIN_KERNEL_ADDRESS]. *)
Definition obj_addr `{!Config} (a : N) : Prop :=
  a ≠ 0 ∧ N.land a 7 = 0 ∧ VM_MIN_KERNEL_ADDRESS ≤ a < VM_MIN_KERNEL_ADDRESS + 2 ^ 35 ∧ a < 2 ^ 64.

(** The sizes of the request tables grow strictly, and the last one is 0. *)
Class ConfigOk `{!Config} := {
  dn_sizes_last : ∃ i, ipc_table_dnrequests !! i = Some 0 ∧ length ipc_table_dnrequests = S i;
  dn_sizes_grow i x y :
    ipc_table_dnrequests !! i = Some x → ipc_table_dnrequests !! S i = Some y → y = 0 ∨ x < y;
  dn_sizes_bound i x : ipc_table_dnrequests !! i = Some x → x < 2 ^ 32;
  dn_sizes_pos i x y :
    ipc_table_dnrequests !! i = Some x → ipc_table_dnrequests !! S i = Some y → 2 ≤ x;
}.

Section Inv.
Context `{!Config} {T C : Type} `{!KeyMap T} `{!KmemCache C}.
Implicit Types (Sp : gmap N (ipc_space T)) (E : gmap N ipc_entry) (O : gmap N kobject) (G : table) (n : naked).

Definition active_space Sp (a : N) : Prop := ∃ S, Sp !! a = Some S ∧ is_active S = true.

(** ** Entries and spaces *)

Definition entry_rep (e : ipc_entry) (s : eslot) : Prop :=
  ie_name e = sl_name s ∧
  match sl_state s with
  | Free => ie_bits e = 0 ∧ ie_object e = 0
  | Held => True
  | Used c => ie_bits e = cap_bits c ∧ ie_object e = c_obj c ∧ ie_request e = c_req c
  end.

Record slot_ok Sp E (ea : N) (s : eslot) : Prop := {
  so_addr : ea ≠ 0 ∧ aligned ea;
  so_name : sl_name s ≠ 0 ∧ sl_name s < MACH_PORT_NAME_DEAD;
  so_space : active_space Sp (sl_space s);
  so_entry : ∃ e, E !! ea = Some e ∧ entry_rep e s;
}.

(** The free list from [a] on. *)
Fixpoint free_chain E (a : N) (l : list N) : Prop :=
  match l with
  | [] => a = IE_NULL
  | x :: l => a = x ∧ ∃ e, E !! x = Some e ∧ free_chain E (ie_next_free e) l
  end.

Definition map_ok G (sp : N) (t : T) : Prop :=
  ∃ m, km_rep t m ∧ m !! 0 = Some zero_entry ∧
    ∀ name ea, name ≠ 0 → m !! name = Some ea ↔ ∃ st, G !! ea = Some (Slot sp name st).

Definition rev_ok G (sp : N) (t : T) : Prop :=
  ∃ r, km_rep t r ∧
    ∀ pa ea, obj_addr pa →
      r !! KEY pa = Some ea ↔
      ∃ name c, G !! ea = Some (Slot sp name (Used c)) ∧ c_type c = TSend ∧ c_obj c = pa.

Definition free_ok E G (sp first len : N) : Prop :=
  ∃ l, free_chain E first l ∧ NoDup l ∧ N.of_nat (length l) = len ∧ len ≤ IS_FREE_LIST_SIZE_LIMIT ∧
    ∀ ea, ea ∈ l ↔ ∃ name, G !! ea = Some (Slot sp name Free).

(** The entries of a space that are not on its free list; [is_size] counts them
    and the zeroth entry, modulo the width of [size_t]. *)
Definition used_in (sp : N) (s : eslot) : bool :=
  (sl_space s =? sp) && match sl_state s with Free => false | _ => true end.
Definition n_used G (sp : N) : N := count (used_in sp) G.
Definition size_ok G (sp size : N) : Prop := size = u64 (n_used G sp + 1).

Record space_ok E G (sp : N) (S : ipc_space T) : Prop := {
  sp_addr : sp ≠ 0;
  sp_map : map_ok G sp (is_map S);
  sp_rev : rev_ok G sp (is_reverse_map S);
  sp_free : free_ok E G sp (is_free_list S) (is_free_list_size S);
  sp_size : size_ok G sp (is_size S);
}.

(** The zeroth entry of every space. *)
Definition zero_ok E G : Prop :=
  G !! zero_entry = None ∧ zero_entry ≠ 0 ∧ aligned zero_entry ∧
  ∃ e, E !! zero_entry = Some e ∧ ie_name e = 0 ∧ IE_BITS_TYPE (ie_bits e) = 0.

(** ** Dead-name requests *)

Fixpoint dn_chain (t : dnrequests) (i : N) (l : list N) : Prop :=
  match l with
  | [] => i = 0
  | j :: l =>
      i = j ∧ j ≠ 0 ∧ ∃ r, dn_slot t j = Some r ∧ ipr_name r = MACH_PORT_NULL ∧ dn_chain t (ipr_notify r) l
  end.

Record dn_table_ok (t : dnrequests) : Prop := {
  dn_size : ipc_table_dnrequests !! N.to_nat (ipr_size t) = Some (N.of_nat (length (ipr_slots t)) + 1);
  dn_free : ∃ l, dn_chain t (ipr_next t) l ∧ NoDup l;
  dn_notify : ∀ k r, ipr_slots t !! k = Some r → ipr_name r ≠ MACH_PORT_NULL → ipr_notify r ≠ IP_NULL;
}.

(** The requests of the capabilities for [pa]. *)
Definition dn_ok G (pa : N) (t : option dnrequests) : Prop :=
  match t with
  | None => ∀ ea s c, G !! ea = Some s → sl_state s = Used c → c_obj c = pa → c_req c = 0
  | Some t =>
      dn_table_ok t ∧
      (∀ ea s c, G !! ea = Some s → sl_state s = Used c → c_obj c = pa → c_req c ≠ 0 →
         ∃ r, dn_slot t (c_req c) = Some r ∧ ipr_name r = sl_name s) ∧
      (∀ ea ea' s s' c c', G !! ea = Some s → G !! ea' = Some s' →
         sl_state s = Used c → sl_state s' = Used c' → c_obj c = pa → c_obj c' = pa →
         c_req c = c_req c' → c_req c ≠ 0 → ea = ea')
  end.

(** ** Objects *)

(** In transit to [o]. *)
Definition dest_is (o : N) (k : kobject) : bool :=
  match k with
  | KPort p => ip_active p && (ip_receiver_name p =? MACH_PORT_NULL) && (ip_destination p =? o)
  | KPset _ => false
  end.
Definition pdrequest_is (o : N) (k : kobject) : bool :=
  match k with KPort p => ip_pdrequest p =? o | KPset _ => false end.
Definition member_of (o : N) (k : kobject) : bool :=
  match k with KPort p => ip_pset p =? o | KPset _ => false end.
Definition n_dest O (o : N) : N := count (dest_is o) O.
Definition n_pd O (o : N) : N := count (pdrequest_is o) O.
Definition n_member O (o : N) : N := count (member_of o) O.

Definition is_port O (a : N) : Prop := ∃ q, O !! a = Some (KPort q).

(** The port a port in transit is sent to; no chain of destinations is a circle:
    each comes to an end. *)
Definition next_port O (a : N) : N :=
  match O !! a with
  | Some (KPort p) => if ip_active p && (ip_receiver_name p =? MACH_PORT_NULL) then ip_destination p else 0
  | _ => 0
  end.
Definition acyclic O : Prop := ∀ a, ∃ k, Nat.iter k (next_port O) a = 0.

(** A port whose receive right is neither in a space nor in the kernel: nobody
    waits for its messages. *)
Definition limbo_ok O (p : ipc_port) : Prop :=
  ip_receiver_name p = MACH_PORT_NULL →
  ip_mscount p = 0 ∧ ip_seqno p = 0 ∧ ip_pset p = IPS_NULL ∧
  (ip_destination p ≠ IP_NULL → is_port O (ip_destination p)) ∧ imq_threads (ip_messages p) = [].

(** A receive right that no entry holds is the kernel's or in limbo. *)
Definition naked_recv_ok Sp (r : naked_rights) (p : ipc_port) : Prop :=
  nk_kern r ≤ nk_recv r ∧
  (nk_recv r = 1 → ¬ active_space Sp (ip_receiver p) ∧ (nk_kern r = 0 → ip_receiver_name p = MACH_PORT_NULL)).

Record port_ok Sp O G n (pa : N) (p : ipc_port) : Prop := {
  po_otype : io_otype (ip_object p) = IOT_PORT;
  po_refs : ip_references p = n_caps G pa + nk_refs (n pa);
  po_pos : 0 < ip_references p < 2 ^ 32;
  po_naked : nk_send (n pa) + nk_sonce (n pa) + nk_recv (n pa) + n_dest O pa ≤ nk_refs (n pa);
  po_pd : n_pd O pa ≤ nk_pd (n pa) ≤ nk_sonce (n pa);
  po_send : ip_active p = true → ip_srights p = n_send G pa + nk_send (n pa);
  po_sonce : n_sonce G pa + nk_sonce (n pa) ≤ ip_sorights p < 2 ^ 32;
  po_sonce_active : ip_active p = true → ip_sorights p = n_sonce G pa + nk_sonce (n pa);
  po_recv : n_recv G pa + nk_recv (n pa) = Nb (ip_active p);
  po_naked_recv : naked_recv_ok Sp (n pa) p;
  po_limbo : ip_active p = true → limbo_ok O p;
  po_pdrequest : ip_pdrequest p ≠ IP_NULL → is_port O (ip_pdrequest p);
  po_pset : ip_pset p ≠ IPS_NULL → ip_active p = true ∧ ∃ s, O !! ip_pset p = Some (KPset s);
  po_dn : ip_active p = true → dn_ok G pa (ip_dnrequests p);
}.

Record pset_ok O G n (ps : N) (s : ipc_pset) : Prop := {
  ps_otype : io_otype (ipt_object (ips_target s)) = IOT_PORT_SET;
  ps_refs : io_references (ipt_object (ips_target s)) = n_caps G ps + n_member O ps + nk_refs (n ps);
  ps_pos : 0 < io_references (ipt_object (ips_target s)) < 2 ^ 32;
  ps_caps : n_caps G ps = Nb (ips_active s);
}.

Definition object_ok Sp O G n (a : N) (o : kobject) : Prop :=
  obj_addr a ∧ Sp !! a = None ∧
  match o with KPort p => port_ok Sp O G n a p | KPset s => pset_ok O G n a s end.

(** The receive right of [p] is in the space [sp] under [name]. *)
Definition received_at (p : ipc_port) (sp name : N) : Prop :=
  ip_active p = true ∧ ip_receiver p = sp ∧ ip_receiver_name p = name.

Definition cap_ok O (sp name : N) (c : cap) : Prop :=
  cap_wf c ∧
  match c_type c with
  | TDead => True
  | TPset => ∃ s, O !! c_obj c = Some (KPset s) ∧ ips_active s = true ∧ ips_local_name s = name
  | t => ∃ p, O !! c_obj c = Some (KPort p) ∧ (is_recv t = true → received_at p sp name)
  end.

(** The port for which a state holds send or receive rights. *)
Definition named (st : estate) : option N :=
  match st with
  | Used c => if is_named (c_type c) then Some (c_obj c) else None
  | _ => None
  end.

(** Send and receive rights for a port coalesce in one entry of a space. *)
Definition uniq G : Prop :=
  ∀ ea ea' s s' o, G !! ea = Some s → G !! ea' = Some s' → sl_space s = sl_space s' →
    named (sl_state s) = Some o → named (sl_state s') = Some o → ea = ea'.

(** ** Msg-accepted requests *)

Definition mar_in (M : gmap N ipc_marequest) (l : list N) (sp name a : N) : Prop :=
  a ∈ l ∧ ∃ r, M !! a = Some r ∧ imar_space r = sp ∧ imar_name r = name.

(** An entry waits for a message to be accepted. *)
Definition ma_of (st : estate) : bool := match st with Used c => c_ma c | _ => false end.
Definition waits_in G (sp name : N) : Prop :=
  ∃ ea s, G !! ea = Some s ∧ sl_space s = sp ∧ sl_name s = name ∧ ma_of (sl_state s) = true.

Record mar_ok Sp G (M : gmap N ipc_marequest) (B : gmap N (list N)) : Prop := {
  mo_bucket sp name : is_Some (B !! IMAR_HASH sp name);
  mo_member i l a : B !! i = Some l → a ∈ l →
    ∃ r, M !! a = Some r ∧ imar_name r ≠ MACH_PORT_NULL ∧ IMAR_HASH (imar_space r) (imar_name r) = i;
  mo_nodup i l : B !! i = Some l → NoDup l;
  mo_unique i l sp name a a' : B !! i = Some l → mar_in M l sp name a → mar_in M l sp name a' → a = a';
  mo_caps sp name l : active_space Sp sp → B !! IMAR_HASH sp name = Some l →
    (∃ a, mar_in M l sp name a) ↔ waits_in G sp name;
}.

(** ** Queues *)

(** The object whose message queue the port [pb] uses. *)
Definition queue_of (p : ipc_port) (pb : N) : N := if ip_pset p =? IPS_NULL then pb else ip_pset p.

Record queue_ok O (Th : gmap N ipc_thread) (Km : gmap N ipc_kmsg) (a : N) (o : kobject) : Prop := {
  qo_threads th : th ∈ imq_threads (ipt_messages (kobj_target o)) → is_Some (Th !! th);
  qo_messages k : k ∈ imq_messages (ipt_messages (kobj_target o)) →
    ∃ m p, Km !! k = Some m ∧ O !! msgh_remote_port m = Some (KPort p) ∧ queue_of p (msgh_remote_port m) = a;
  qo_nodup : NoDup (imq_messages (ipt_messages (kobj_target o)));
  qo_one : imq_messages (ipt_messages (kobj_target o)) = [] ∨ imq_threads (ipt_messages (kobj_target o)) = [];
  qo_port p : o = KPort p →
    (∀ th, th ∈ ip_blocked p → is_Some (Th !! th)) ∧
    (ip_pset p ≠ IPS_NULL ∨ ip_active p = false → ip_messages p = IMqueue [] []);
}.

(** ** The invariant *)

Record EntInv Sp E G : Prop := {
  ei_zero : zero_ok E G;
  ei_slots ea s : G !! ea = Some s → slot_ok Sp E ea s;
  ei_spaces sp S : Sp !! sp = Some S → is_active S = true → space_ok E G sp S;
}.

Record ObjInv Sp O G n : Prop := {
  oi_caps ea sp name c : G !! ea = Some (Slot sp name (Used c)) → cap_ok O sp name c;
  oi_uniq : uniq G;
  oi_objects a o : O !! a = Some o → object_ok Sp O G n a o;
  oi_naked o : nk_rights (n o) ≠ 0 → is_port O o;
  oi_chains : acyclic O;
}.

Record Inv (K : kernel T C) G n : Prop := {
  inv_caches i : i < 6 → is_Some (k_caches K !! i);
  inv_ents : EntInv (k_spaces K) (k_entries K) G;
  inv_objs : ObjInv (k_spaces K) (k_objects K) G n;
  inv_mars : mar_ok (k_spaces K) G (k_marequests K) (k_buckets K);
  inv_queues a o : k_objects K !! a = Some o → queue_ok (k_objects K) (k_threads K) (k_kmsgs K) a o;
}.
End Inv.
