(* ===== verification/IpcUpdate.v ===== *)
(** Preservation of the IPC invariant by the elementary changes that the
    routines make: one entry changes its capability, one port its counts. *)

From S2P Require Import Prelude Kmem Rdxtree RdxtreeInv RdxtreeSpec RdxtreeMap IpcTypes IpcEntry IpcPort IpcMarequest IpcBits IpcInv.

Open Scope N_scope.

Section Update.
Context `{!Config} {T C : Type} `{!KeyMap T} `{!KmemCache C}.
Implicit Types (Sp : gmap N (ipc_space T)) (E : gmap N ipc_entry) (O : gmap N kobject) (G : gmap N eslot) (n : naked).

(** ** Entries and spaces *)

(** The port of a pure send right. *)
Definition pure_send (st : estate) : option N :=
  match st with
  | Used c => match c_type c with TSend => Some (c_obj c) | _ => None end
  | _ => None
  end.

Lemma pure_send_iff st pa : pure_send st = Some pa ↔ ∃ c, st = Used c ∧ c_type c = TSend ∧ c_obj c = pa.
Proof.
  split.
  - destruct st as [| |c]; simpl; try done. destruct (c_type c) eqn:Ht; try done. intros [= <-]. eauto.
  - intros (c & -> & Ht & <-). simpl. by rewrite Ht.
Qed.

(** [rev_ok] by means of [pure_send]. *)
Lemma rev_spec G sp pa ea :
  (∃ name c, G !! ea = Some (Slot sp name (Used c)) ∧ c_type c = TSend ∧ c_obj c = pa) ↔
  ∃ s, G !! ea = Some s ∧ sl_space s = sp ∧ pure_send (sl_state s) = Some pa.
Proof.
  split.
  - intros (name & c & Hg & Ht & Ho). eexists. split_and!; [done|done|]. simpl. by rewrite Ht, Ho.
  - intros ([sp' name st] & Hg & Hsp & (c & Hst & Ht & Ho)%pure_send_iff). simpl in *. subst. eauto.
Qed.

Lemma rev_ok_ext G G' sp t :
  (∀ ea pa, (∃ s, G' !! ea = Some s ∧ sl_space s = sp ∧ pure_send (sl_state s) = Some pa) ↔
            ∃ s, G !! ea = Some s ∧ sl_space s = sp ∧ pure_send (sl_state s) = Some pa) →
  rev_ok G sp t → rev_ok G' sp t.
Proof.
  intros HG (r & Hr & Hrev). exists r. split; [done|]. intros pa ea Hpa.
  by rewrite Hrev, !rev_spec, HG.
Qed.

Lemma rev_ok_update G sp t ea sp0 name st st' :
  G !! ea = Some (Slot sp0 name st) → (sp = sp0 → pure_send st' = pure_send st) →
  rev_ok G sp t → rev_ok (<[ea := Slot sp0 name st']> G) sp t.
Proof.
  intros Hg Hst. apply rev_ok_ext. intros ea' pa. destruct (decide (ea' = ea)) as [->|Hne].
  - rewrite lookup_insert_eq, Hg. split; intros (s & [= <-] & Hs & Hp); simpl in *;
      (eexists; split_and!; [done|done|]); simpl; [rewrite <- Hst by done|rewrite Hst by done]; done.
  - by rewrite lookup_insert_ne.
Qed.

Lemma map_ok_update G sp t ea sp0 name st st' :
  G !! ea = Some (Slot sp0 name st) → map_ok G sp t → map_ok (<[ea := Slot sp0 name st']> G) sp t.
Proof.
  intros Hg (m & Hm & H0 & Hmap). exists m. split_and!; [done|done|]. intros k a Hk. rewrite Hmap by done.
  destruct (decide (a = ea)) as [->|Hne].
  - rewrite lookup_insert_eq, Hg. split; intros (st0 & [= -> -> <-]); eauto.
  - by rewrite lookup_insert_ne.
Qed.

(** The chain does not read entries outside of it. *)
Lemma free_chain_ext E E' a l :
  (∀ x, x ∈ l → E' !! x = E !! x) → free_chain E a l → free_chain E' a l.
Proof.
  revert a. induction l as [|x l IH]; intros a HE; [done|]. intros (-> & e & He & Hl).
  split; [done|]. exists e. split.
  - rewrite HE; [done|]. left.
  - apply IH; [|done]. intros y Hy. apply HE. by right.
Qed.

Lemma free_ok_update E G sp f len ea sp0 name st st' e' :
  G !! ea = Some (Slot sp0 name st) → st ≠ Free → st' ≠ Free →
  free_ok E G sp f len → free_ok (<[ea := e']> E) (<[ea := Slot sp0 name st']> G) sp f len.
Proof.
  intros Hg Hst Hst' (l & Hl & Hnd & Hlen & Hle & Hin). exists l. split_and!; try done.
  - eapply free_chain_ext; [|done]. intros x Hx. apply lookup_insert_ne. intros ->.
    apply Hin in Hx as [name' Hx]. rewrite Hg in Hx. by injection Hx as _ _ ->.
  - intros x. rewrite Hin. destruct (decide (x = ea)) as [->|Hne].
    + rewrite lookup_insert_eq, Hg. split; intros (name' & [= _ _ E']); congruence.
    + by rewrite lookup_insert_ne.
Qed.

Lemma set_is_reverse_map_active t (S : ipc_space T) : is_active (set_is_reverse_map t S) = is_active S.
Proof. done. Qed.

(** Spaces are active after a change if they were before. *)
Lemma active_space_insert Sp sp S S' a :
  Sp !! sp = Some S → is_active S' = is_active S → active_space (<[sp := S']> Sp) a ↔ active_space Sp a.
Proof.
  intros Hsp Hact. unfold active_space. destruct (decide (a = sp)) as [->|Hne].
  - rewrite lookup_insert_eq, Hsp. split; intros (x & [= <-] & Hx); eexists; (split; [done|]); congruence.
  - by rewrite lookup_insert_ne.
Qed.

Lemma slot_ok_spaces Sp Sp' E ea s :
  (∀ a, active_space Sp a → active_space Sp' a) → slot_ok Sp E ea s → slot_ok Sp' E ea s.
Proof. intros HSp [? ? ? ?]. split; auto. Qed.

(** How the number of entries in use follows the state of one entry. *)
Lemma n_used_update G ea sp name st st' sp0 :
  G !! ea = Some (Slot sp name st) →
  n_used (<[ea := Slot sp name st']> G) sp0 + Nb (used_in sp0 (Slot sp name st)) =
  n_used G sp0 + Nb (used_in sp0 (Slot sp name st')).
Proof. intros Hg. by apply count_update. Qed.

Lemma size_ok_update G ea sp name st st' sp0 size :
  G !! ea = Some (Slot sp name st) → (sp0 = sp → (st = Free ↔ st' = Free)) →
  size_ok G sp0 size → size_ok (<[ea := Slot sp name st']> G) sp0 size.
Proof.
  intros Hg Hst ->. unfold size_ok. do 2 f_equal. pose proof (n_used_update G ea sp name st st' sp0 Hg) as Hn.
  assert (used_in sp0 (Slot sp name st) = used_in sp0 (Slot sp name st')) as Heq; [|rewrite Heq in Hn; lia].
  unfold used_in. cbn [sl_space sl_state]. destruct (N.eqb_spec sp sp0) as [->|]; [|done]. specialize (Hst eq_refl).
  destruct st, st'; try done; by destruct Hst as [H1 H2]; first [specialize (H1 eq_refl)|specialize (H2 eq_refl)].
Qed.

Lemma u64_incr x : u64 (u64 x + 1) = u64 (x + 1).
Proof. unfold u64, wrap. apply N.Div0.add_mod_idemp_l. Qed.
Lemma u64_pred x : u64_sub (u64 (x + 1)) 1 = u64 x.
Proof.
  unfold u64_sub, u64, wrap. change (1 mod 2 ^ 64) with 1. rewrite N.Div0.add_mod_idemp_l.
  replace (x + 1 + (2 ^ 64 - 1)) with (x + 1 * 2 ^ 64) by lia. apply N.Div0.mod_add.
Qed.

(** An entry goes to the free list, leaves it, disappears or appears. *)
Lemma size_ok_free G ea sp name st size :
  G !! ea = Some (Slot sp name st) → st ≠ Free → size_ok G sp size → size_ok (<[ea := Slot sp name Free]> G) sp (u64_sub size 1).
Proof.
  intros Hg Hst ->. unfold size_ok. rewrite u64_pred. f_equal. pose proof (n_used_update G ea sp name st Free sp Hg) as Hn.
  unfold used_in in Hn. cbn [sl_space sl_state] in Hn. rewrite N.eqb_refl in Hn. destruct st; cbn in Hn; [done|lia|lia].
Qed.
Lemma size_ok_take G ea sp name st size :
  G !! ea = Some (Slot sp name Free) → st ≠ Free → size_ok G sp size → size_ok (<[ea := Slot sp name st]> G) sp (u64 (size + 1)).
Proof.
  intros Hg Hst ->. unfold size_ok. rewrite u64_incr. f_equal. pose proof (n_used_update G ea sp name Free st sp Hg) as Hn.
  unfold used_in in Hn. cbn [sl_space sl_state] in Hn. rewrite N.eqb_refl in Hn. destruct st; cbn in Hn; [done|lia|lia].
Qed.
Lemma size_ok_delete G ea sp name st size :
  G !! ea = Some (Slot sp name st) → st ≠ Free → size_ok G sp size → size_ok (delete ea G) sp (u64_sub size 1).
Proof.
  intros Hg Hst ->. unfold size_ok. rewrite u64_pred. f_equal. pose proof (count_delete (used_in sp) G ea _ Hg) as Hn.
  unfold used_in in Hn at 2. cbn [sl_space sl_state] in Hn. rewrite N.eqb_refl in Hn. unfold n_used.
  destruct st; cbn in Hn; [done|lia|lia].
Qed.
Lemma size_ok_delete_ne G ea sp name st sp0 size :
  G !! ea = Some (Slot sp name st) → sp0 ≠ sp → size_ok G sp0 size → size_ok (delete ea G) sp0 size.
Proof.
  intros Hg Hne ->. unfold size_ok. do 2 f_equal. pose proof (count_delete (used_in sp0) G ea _ Hg) as Hn.
  unfold used_in in Hn at 2. cbn [sl_space sl_state] in Hn. rewrite (proj2 (N.eqb_neq sp sp0)) in Hn by done. unfold n_used.
  cbn in Hn. lia.
Qed.
Lemma size_ok_new G ea sp name st sp0 size :
  G !! ea = None → st ≠ Free → size_ok G sp0 size →
  size_ok (<[ea := Slot sp name st]> G) sp0 (if sp0 =? sp then u64 (size + 1) else size).
Proof.
  intros Hg Hst ->. unfold size_ok, n_used. rewrite count_fresh by done.
  assert (used_in sp0 (Slot sp name st) = (sp0 =? sp)) as ->.
  { unfold used_in. cbn [sl_space sl_state]. rewrite N.eqb_sym. destruct st; [done|apply andb_true_r..]. }
  destruct (sp0 =? sp); cbn [Nb]; [rewrite u64_incr|]; f_equal; lia.
Qed.

(** An entry in use takes another state, and the reverse map of its space
    follows. *)
Lemma ent_update Sp E G ea sp name st st' e' S t' :
  EntInv Sp E G → G !! ea = Some (Slot sp name st) → st ≠ Free → st' ≠ Free →
  entry_rep e' (Slot sp name st') →
  Sp !! sp = Some S → rev_ok (<[ea := Slot sp name st']> G) sp t' →
  EntInv (<[sp := set_is_reverse_map t' S]> Sp) (<[ea := e']> E) (<[ea := Slot sp name st']> G).
Proof.
  intros [Hz Hslots Hspaces] Hg Hst Hst' He' HS Hrev.
  pose proof (active_space_insert Sp sp S (set_is_reverse_map t' S)) as Hact.
  split.
  - destruct Hz as (Hz & Hz0 & Hza & Hze). assert (zero_entry ≠ ea) by congruence.
    unfold zero_ok. by rewrite !lookup_insert_ne.
  - intros a s Ha. apply (slot_ok_spaces Sp); [intros ?; by apply Hact|].
    destruct (decide (a = ea)) as [->|Hne].
    + rewrite lookup_insert_eq in Ha. injection Ha as <-. destruct (Hslots _ _ Hg) as [? Hn Hs _].
      split; [done|done|done|]. exists e'. by rewrite lookup_insert_eq.
    + rewrite lookup_insert_ne in Ha by done. destruct (Hslots _ _ Ha). split; try done. by rewrite lookup_insert_ne.
  - intros a S0 Ha HS0. destruct (decide (a = sp)) as [->|Hne].
    + rewrite lookup_insert_eq in Ha. injection Ha as <-. destruct (Hspaces _ _ HS HS0) as [? Hm _ Hf Hsz].
      split; [done| |done| |]; [by eapply map_ok_update|by eapply free_ok_update|by eapply size_ok_update].
    + rewrite lookup_insert_ne in Ha by done. destruct (Hspaces _ _ Ha HS0) as [? Hm Hr Hf Hsz].
      split; [done| | | |]; [by eapply map_ok_update|by eapply rev_ok_update|by eapply free_ok_update|by eapply size_ok_update].
Qed.

(** The same when the entry stays a pure send right, or stays none. *)
Lemma ent_update_same Sp E G ea sp name st st' e' :
  EntInv Sp E G → G !! ea = Some (Slot sp name st) → st ≠ Free → st' ≠ Free →
  entry_rep e' (Slot sp name st') → pure_send st' = pure_send st →
  EntInv Sp (<[ea := e']> E) (<[ea := Slot sp name st']> G).
Proof.
  intros Hinv Hg Hst Hst' He' Hps. destruct (ei_slots _ _ _ Hinv _ _ Hg) as [_ _ (S & HS & Hact) _].
  simpl in HS. pose proof (ent_update Sp E G ea sp name st st' e' S (is_reverse_map S) Hinv Hg Hst Hst' He' HS) as Hupd.
  rewrite (insert_id Sp) in Hupd; [|by destruct S]. apply Hupd.
  eapply rev_ok_update; [done|done|]. apply (ei_spaces _ _ _ Hinv _ _ HS Hact).
Qed.

(** ** The reverse map *)

Lemma key_lt a : KEY a < 2 ^ 32.
Proof. apply N.mod_lt. lia. Qed.

Lemma obj_addr_mod a : obj_addr a → a mod 8 = 0.
Proof. intros (_ & Hal & _). change 7 with (N.ones 3) in Hal. by rewrite N.land_ones in Hal. Qed.

Lemma key_div a : obj_addr a → KEY a = (a - VM_MIN_KERNEL_ADDRESS) / 8.
Proof.
  intros (_ & _ & Hr & Hlt). unfold KEY, u64_sub, u64, u32, wrap. generalize dependent VM_MIN_KERNEL_ADDRESS.
  intros V Hr. rewrite (N.mod_small V) by lia. rewrite N.shiftr_div_pow2.
  replace (a + (2 ^ 64 - V)) with (a - V + 1 * 2 ^ 64) by lia.
  rewrite N.Div0.mod_add, (N.mod_small (a - V)) by lia.
  apply N.mod_small. change (2 ^ 3) with 8. apply N.Div0.div_lt_upper_bound. lia.
Qed.

Lemma key_inj a b : obj_addr a → obj_addr b → KEY a = KEY b → a = b.
Proof.
  intros Ha Hb. rewrite !key_div by done.
  pose proof (N.Div0.div_mod a 8) as Ea. pose proof (N.Div0.div_mod b 8) as Eb.
  rewrite obj_addr_mod in Ea, Eb by done. destruct Ha as (_ & _ & [Ha _] & _), Hb as (_ & _ & [Hb _] & _).
  generalize dependent VM_MIN_KERNEL_ADDRESS. intros V Ha Hb.
  pose proof (N.Div0.mul_div_le (a - V) 8). pose proof (N.mul_succ_div_gt (a - V) 8 ltac:(lia)).
  pose proof (N.Div0.mul_div_le (b - V) 8). pose proof (N.mul_succ_div_gt (b - V) 8 ltac:(lia)).
  generalize dependent ((a - V) / 8). generalize dependent ((b - V) / 8).
  generalize dependent (a / 8). generalize dependent (b / 8). lia.
Qed.

(** No insertion into the tree fails for want of memory. *)
Definition roomy (t : T) : Prop := ∀ k v err t', km_insert k v t = Some (err, t') → err ≠ ERR_NOMEM.

Lemma rev_ok_remove G sp t ea name st st' pa :
  rev_ok G sp t → G !! ea = Some (Slot sp name st) → obj_addr pa →
  pure_send st = Some pa → pure_send st' = None →
  wp (km_remove (KEY pa)) (λ _ t', rev_ok (<[ea := Slot sp name st']> G) sp t') t.
Proof.
  intros (r & Hr & Hrev) Hg Hpa Hst Hst'. eapply wp_mono; [by apply km_remove_law; [|apply key_lt]|].
  intros v t' [_ Hr']. exists (delete (KEY pa) r). split; [done|]. intros pb eb Hpb.
  rewrite lookup_delete_Some, Hrev, !rev_spec by done.
  assert (r !! KEY pa = Some ea) as Hra.
  { apply Hrev; [done|]. apply rev_spec. eauto. }
  destruct (decide (eb = ea)) as [->|Hne].
  - rewrite lookup_insert_eq, Hg. split.
    + intros (Hk & s & [= <-] & _ & Hs). simpl in Hs. congruence.
    + intros (s & [= <-] & _ & Hs). simpl in Hs. congruence.
  - rewrite lookup_insert_ne by done. split; [tauto|]. intros Hs. split; [|done].
    intros Hk. apply key_inj in Hk; [|done..]. subst pb. apply rev_spec, Hrev in Hs; [|done]. congruence.
Qed.

Lemma rev_ok_insert G sp t ea name st st' pa :
  rev_ok G sp t → roomy t → G !! ea = Some (Slot sp name st) → obj_addr pa → ea ≠ 0 → aligned ea →
  pure_send st = None → pure_send st' = Some pa →
  (∀ eb s, G !! eb = Some s → sl_space s = sp → pure_send (sl_state s) ≠ Some pa) →
  wp (km_insert (KEY pa) ea) (λ _ t', rev_ok (<[ea := Slot sp name st']> G) sp t') t.
Proof.
  intros (r & Hr & Hrev) Hroom Hg Hpa Hea Hal Hst Hst' Hno.
  assert (r !! KEY pa = None) as Hra.
  { destruct (r !! KEY pa) as [eb|] eqn:Heb; [|done]. apply Hrev, rev_spec in Heb as (s & Hs & Hsp & Hp); [|done].
    by destruct (Hno _ _ Hs Hsp). }
  pose proof (km_insert_law t r (KEY pa) ea Hr (key_lt pa) Hal Hea) as Hwp.
  apply wp_run in Hwp as (err & t' & Hrun & Hres). apply wp_run. exists err, t'. split; [done|].
  destruct Hres as [(_ & _ & Hr')|[(_ & [? ?] & _)|(-> & _)]]; [|congruence|by destruct (Hroom _ _ _ _ Hrun)].
  exists (<[KEY pa := ea]> r). split; [done|]. intros pb eb Hpb. rewrite rev_spec, lookup_insert_Some.
  destruct (decide (eb = ea)) as [->|Hne].
  - rewrite lookup_insert_eq. split.
    + intros [[Hk _]|[Hk Hrb]].
      * apply key_inj in Hk as <-; [|done..]. eexists. split_and!; [done|done|]. done.
      * apply Hrev, rev_spec in Hrb as (s & Hs & _ & Hp); [|done]. rewrite Hg in Hs. injection Hs as <-.
        simpl in Hp. congruence.
    + intros (s & [= <-] & _ & Hp). simpl in Hp. rewrite Hst' in Hp. injection Hp as <-. by left.
  - rewrite lookup_insert_ne by done. rewrite Hrev, rev_spec by done. split.
    + intros [[_ Heq]|[_ ?]]; [congruence|done].
    + intros Hs. right. split; [|done]. intros Hk. apply key_inj in Hk as <-; [|done..].
      destruct Hs as (s & Hs & Hsp & Hp). by destruct (Hno _ _ Hs Hsp).
Qed.

(** ** Objects *)

(** A state that holds no capability for an object other than [pa]. *)
Definition only (pa : N) (st : estate) : Prop :=
  match st with Used c => c_obj c = pa ∨ c_obj c = 0 | _ => True end.

Lemma holds_other P pa pb st sp name :
  only pa st → pb ≠ pa → pb ≠ 0 → holds P pb (Slot sp name st) = false.
Proof.
  intros Hst Hne H0. destruct st as [| |c]; try done. unfold holds. simpl in *.
  rewrite (proj2 (N.eqb_neq (c_obj c) pb)); [done|]. destruct Hst; congruence.
Qed.

Section OneEntry.
Context (G : gmap N eslot) (ea sp name : N) (st st' : estate) (pa : N).
Context (Hg : G !! ea = Some (Slot sp name st)) (Hst : only pa st) (Hst' : only pa st').
#[local] Abbreviation G' := (<[ea := Slot sp name st']> G).

Lemma count_other P pb : pb ≠ pa → pb ≠ 0 → count (holds P pb) G' = count (holds P pb) G.
Proof.
  intros Hne H0. pose proof (count_update (holds P pb) G ea _ (Slot sp name st') Hg) as Hc.
  rewrite !(holds_other P pa) in Hc by done. cbn [Nb] in Hc. lia.
Qed.

Lemma dn_ok_other pb t : pb ≠ pa → pb ≠ 0 → dn_ok G pb t → dn_ok G' pb t.
Proof.
  intros Hne H0.
  assert (∀ x s c, G' !! x = Some s → sl_state s = Used c → c_obj c = pb → G !! x = Some s) as Hback.
  { intros x s c Hx Hs Hc. destruct (decide (x = ea)) as [->|]; [|by rewrite lookup_insert_ne in Hx].
    rewrite lookup_insert_eq in Hx. injection Hx as <-. simpl in Hs. subst st'.
    simpl in Hst'. destruct Hst'; congruence. }
  destruct t as [t|]; simpl; [|by eauto].
  intros (Ht & Hsl & Hinj). split_and!; [done|by eauto|].
  intros x x' s s' c c' Hx Hx' Hs Hs' Hc Hc'. eapply (Hinj x x' s s' c c'); eauto.
Qed.
End OneEntry.

(** A port that the change does not touch. *)
Lemma port_ok_frame_dest Sp O O' G G' n n' pb q :
  port_ok Sp O G n pb q → n' pb = n pb →
  (∀ P, count (holds P pb) G' = count (holds P pb) G) →
  (∀ t, dn_ok G pb t → dn_ok G' pb t) →
  nk_send (n pb) + nk_sonce (n pb) + nk_recv (n pb) + n_dest O' pb ≤ nk_refs (n pb) → n_pd O' pb ≤ n_pd O pb →
  (ip_pset q ≠ IPS_NULL → ∀ s, O !! ip_pset q = Some (KPset s) → ∃ s', O' !! ip_pset q = Some (KPset s')) →
  (ip_active q = true → ip_receiver_name q = MACH_PORT_NULL → ip_destination q ≠ IP_NULL →
   is_port O (ip_destination q) → is_port O' (ip_destination q)) →
  (ip_pdrequest q ≠ IP_NULL → is_port O (ip_pdrequest q) → is_port O' (ip_pdrequest q)) →
  port_ok Sp O' G' n' pb q.
Proof.
  intros [Ht Hr Hpos Hnk Hnpd Hse Hso Hsoa Hre Hnr Hlimbo Hpdr Hpset Hdnr] Hn HG Hdn Hd Hp Hps Hdest Hpd. unfold n_caps, n_send, n_sonce, n_recv in *.
  split; unfold n_caps, n_send, n_sonce, n_recv; rewrite ?Hn, ?HG; auto; try lia.
  - intros Ha Hl. destruct (Hlimbo Ha Hl) as (? & ? & ? & ? & ?). split_and!; auto.
  - intros Hq. destruct (Hpset Hq) as (? & s & ?). split; [done|]. by apply (Hps Hq s).
Qed.

Lemma port_ok_frame_pset Sp O O' G G' n n' pb q :
  port_ok Sp O G n pb q → n' pb = n pb →
  (∀ P, count (holds P pb) G' = count (holds P pb) G) →
  (∀ t, dn_ok G pb t → dn_ok G' pb t) →
  n_dest O' pb ≤ n_dest O pb → n_pd O' pb ≤ n_pd O pb →
  (ip_pset q ≠ IPS_NULL → ∀ s, O !! ip_pset q = Some (KPset s) → ∃ s', O' !! ip_pset q = Some (KPset s')) →
  (ip_active q = true → ip_receiver_name q = MACH_PORT_NULL → ip_destination q ≠ IP_NULL →
   is_port O (ip_destination q) → is_port O' (ip_destination q)) →
  (ip_pdrequest q ≠ IP_NULL → is_port O (ip_pdrequest q) → is_port O' (ip_pdrequest q)) →
  port_ok Sp O' G' n' pb q.
Proof. intros Hq Hn HG Hdn Hd. eapply port_ok_frame_dest; eauto. pose proof (po_naked _ _ _ _ _ _ Hq). lia. Qed.

Lemma port_ok_frame Sp O O' G G' n n' pb q :
  port_ok Sp O G n pb q → n' pb = n pb →
  (∀ P, count (holds P pb) G' = count (holds P pb) G) →
  (∀ t, dn_ok G pb t → dn_ok G' pb t) →
  n_dest O' pb ≤ n_dest O pb → n_pd O' pb ≤ n_pd O pb →
  (∀ x s, O !! x = Some (KPset s) → O' !! x = Some (KPset s)) →
  (ip_active q = true → ip_receiver_name q = MACH_PORT_NULL → ip_destination q ≠ IP_NULL →
   is_port O (ip_destination q) → is_port O' (ip_destination q)) →
  (ip_pdrequest q ≠ IP_NULL → is_port O (ip_pdrequest q) → is_port O' (ip_pdrequest q)) →
  port_ok Sp O' G' n' pb q.
Proof. intros. eapply port_ok_frame_pset; eauto. Qed.

(** Links to other objects do not appear. *)
Record links_le (p p' : ipc_port) : Prop := {
  ll_dest o : o ≠ 0 → dest_is o (KPort p') = true → dest_is o (KPort p) = true;
  ll_pd o : o ≠ 0 → pdrequest_is o (KPort p') = true → pdrequest_is o (KPort p) = true;
  ll_member o : o ≠ 0 → member_of o (KPort p') = member_of o (KPort p);
}.

Lemma count_object_le P O pa p p' :
  O !! pa = Some (KPort p) → (P (KPort p') = true → P (KPort p) = true) →
  count P (<[pa := KPort p']> O) ≤ count P O.
Proof.
  intros Hp HP. pose proof (count_update P O pa _ (KPort p') Hp).
  destruct (P (KPort p')), (P (KPort p)); cbn [Nb] in *; lia.
Qed.

Lemma count_object_eq P O pa p p' :
  O !! pa = Some (KPort p) → P (KPort p') = P (KPort p) → count P (<[pa := KPort p']> O) = count P O.
Proof. intros Hp HP. pose proof (count_update P O pa _ (KPort p') Hp) as Hc. rewrite HP in Hc. lia. Qed.

(** No entry of the space [sp] holds send or receive rights for [o]. *)
Definition unnamed_in G (sp o : N) : Prop :=
  ∀ eb s, G !! eb = Some s → sl_space s = sp → named (sl_state s) ≠ Some o.

Lemma uniq_update G ea sp name st st' :
  uniq G → G !! ea = Some (Slot sp name st) →
  (∀ o, named st' = Some o → named st = Some o ∨ unnamed_in G sp o) →
  uniq (<[ea := Slot sp name st']> G).
Proof.
  intros Hu Hg Hst x y s s' o Hx Hy Hsp Hs Hs'.
  destruct (decide (x = ea)) as [->|Hxe], (decide (y = ea)) as [->|Hye]; [done| | |].
  - rewrite lookup_insert_eq in Hx. rewrite lookup_insert_ne in Hy by done. injection Hx as <-.
    simpl in *. destruct (Hst o Hs) as [Ho|Ho].
    + by apply (Hu ea y _ s' o Hg Hy).
    + by destruct (Ho _ _ Hy).
  - rewrite lookup_insert_eq in Hy. rewrite lookup_insert_ne in Hx by done. injection Hy as <-.
    simpl in *. destruct (Hst o Hs') as [Ho|Ho].
    + by apply (Hu x ea s _ o Hx Hg).
    + by destruct (Ho _ _ Hx).
  - rewrite lookup_insert_ne in Hx, Hy by done. by apply (Hu x y s s' o).
Qed.

Lemma cap_ok_objects O O' sp name c :
  cap_ok O sp name c →
  (∀ s, O !! c_obj c = Some (KPset s) → O' !! c_obj c = Some (KPset s)) →
  (∀ p, O !! c_obj c = Some (KPort p) → is_recv (c_type c) = true → received_at p sp name →
     ∃ p', O' !! c_obj c = Some (KPort p') ∧ received_at p' sp name) →
  (∀ p, O !! c_obj c = Some (KPort p) → is_recv (c_type c) = false → is_port O' (c_obj c)) →
  cap_ok O' sp name c.
Proof.
  intros [Hwf Hc] Hps Hrecv Hport. split; [done|]. destruct (c_type c) eqn:Ht; try done.
  - destruct Hc as (s & Hs & ?). eauto.
  - destruct Hc as (p & Hp & _). destruct (Hport p Hp eq_refl) as [p' ?]. by exists p'.
  - destruct Hc as (p & Hp & _). destruct (Hport p Hp eq_refl) as [p' ?]. by exists p'.
  - destruct Hc as (p & Hp & Hr). destruct (Hrecv p Hp eq_refl (Hr eq_refl)) as (p' & ? & ?). by exists p'.
  - destruct Hc as (p & Hp & Hr). destruct (Hrecv p Hp eq_refl (Hr eq_refl)) as (p' & ? & ?). by exists p'.
Qed.

Lemma acyclic_less O O' :
  (∀ a, next_port O' a = next_port O a ∨ next_port O' a = 0) → acyclic O → acyclic O'.
Proof.
  intros Hle Hac a. destruct (Hac a) as [k Hk]. revert a Hk. induction k as [|k IH]; intros a Hk; [by exists 0%nat|].
  destruct (Hle a) as [E|E]; [|by exists 1%nat]. rewrite Nat.iter_succ_r in Hk. destruct (IH _ Hk) as [k' Hk'].
  exists (S k'). by rewrite Nat.iter_succ_r, E.
Qed.

Lemma acyclic_frame O O' pa :
  acyclic O → (∀ b, b ≠ pa → O' !! b = O !! b) →
  next_port O' pa = next_port O pa ∨ next_port O' pa = 0 → acyclic O'.
Proof.
  intros Hac HO Hpa. eapply acyclic_less; [|exact Hac]. intros a.
  destruct (decide (a = pa)) as [->|Hne]; [done|]. left. unfold next_port. by rewrite HO.
Qed.

(** One object changes, appears or disappears; the others and the capabilities
    for them stay. *)
Lemma obj_frame Sp O O' G G' n n' pa :
  ObjInv Sp O G n →
  (∀ b, b ≠ pa → O' !! b = O !! b) → (∀ b, b ≠ pa → n' b = n b) → (∀ s, O !! pa ≠ Some (KPset s)) →
  (∀ P b, b ≠ pa → b ≠ 0 → count (holds P b) G' = count (holds P b) G) →
  (∀ b t, b ≠ pa → b ≠ 0 → dn_ok G b t → dn_ok G' b t) →
  (∀ o, o ≠ 0 → o ≠ pa → n_dest O' o ≤ n_dest O o ∧ n_pd O' o ≤ n_pd O o ∧ n_member O' o = n_member O o) →
  (∀ b q, b ≠ pa → O !! b = Some (KPort q) →
     dest_is pa (KPort q) = true ∨ pdrequest_is pa (KPort q) = true → is_port O' pa) →
  (∀ eb sp name c, G' !! eb = Some (Slot sp name (Used c)) → cap_ok O' sp name c) → uniq G' →
  (∀ o, O' !! pa = Some o → object_ok Sp O' G' n' pa o) → (nk_rights (n' pa) ≠ 0 → is_port O' pa) →
  next_port O' pa = next_port O pa ∨ next_port O' pa = 0 →
  ObjInv Sp O' G' n'.
Proof.
  intros [Hcaps Hu Hobjs Hnk Hac] HO Hn Hpset Hcount Hdn Hlinks Hto Hcaps' Hu' Hpa Hpnk Hsent. split; [done|done| | |by eapply acyclic_frame].
  2: { intros o Ho. destruct (decide (o = pa)) as [->|Hne]; [auto|]. unfold is_port. rewrite HO by done.
       apply Hnk. by rewrite <- Hn. }
  intros b o Hb. destruct (decide (b = pa)) as [->|Hne]; [by apply Hpa|].
  rewrite HO in Hb by done. destruct (Hobjs _ _ Hb) as (Haddr & HSp & Ho). split_and!; [done|done|].
  assert (b ≠ 0) as Hb0 by apply Haddr. destruct (Hlinks b Hb0 Hne) as (Hd & Hpd & Hm).
  assert (∀ q x, O !! b = Some (KPort q) → is_port O x →
    (x = pa → dest_is pa (KPort q) = true ∨ pdrequest_is pa (KPort q) = true) → is_port O' x) as Hports.
  { intros q x Hq [y Hy] Hx. destruct (decide (x = pa)) as [->|Hxp]; [by eapply Hto; eauto|].
    exists y. by rewrite HO. }
  destruct o as [q|s].
  - apply (port_ok_frame Sp O _ G _ n _ b q Ho); auto.
    + intros x s Hx. rewrite HO; [done|]. intros ->. by destruct (Hpset s).
    + intros Ha Hr Hd0 Hx. apply (Hports q); [done|done|]. intros <-. left. simpl. by rewrite Ha, Hr, !N.eqb_refl.
    + intros Hp0 Hx. apply (Hports q); [done|done|]. intros <-. right. simpl. by rewrite N.eqb_refl.
  - destruct Ho as [? Hr ? Hc]. split; [done| |done|]; rewrite <- ?Hc; unfold n_caps in *;
      rewrite Hcount by done; [|done]. by rewrite Hm, Hn.
Qed.

(** A port whose receive right stays where it is. *)
Record same_place (p p' : ipc_port) : Prop := {
  sm_bits : ip_bits p' = ip_bits p;
  sm_data : ip_data p' = ip_data p;
  sm_name : ip_receiver_name p' = ip_receiver_name p;
  sm_limbo : ip_receiver_name p = MACH_PORT_NULL → ip_mscount p' = ip_mscount p;
  sm_seqno : ip_seqno p' = ip_seqno p;
  sm_pd : ip_pdrequest p' = ip_pdrequest p;
  sm_pset : ip_pset p' = ip_pset p;
  sm_queue : ip_messages p' = ip_messages p;
  sm_blocked : ip_blocked p' = ip_blocked p;
}.

Lemma same_place_active q q' : same_place q q' → ip_active q' = ip_active q.
Proof. intros [Hb _ _ _ _ _ _ _ _]. unfold ip_active, io_active, ip_bits in *. by rewrite Hb. Qed.

Lemma same_place_links q q' : same_place q q' → links_le q q'.
Proof.
  intros Hs. pose proof (same_place_active _ _ Hs) as Ha. destruct Hs as [_ Hd Hn _ _ Hp Hm _ _].
  split; intros o _; simpl; unfold ip_destination; rewrite ?Ha, ?Hd, ?Hn, ?Hp, ?Hm; done.
Qed.

Lemma same_place_received q q' sp0 name0 : same_place q q' → received_at q sp0 name0 → received_at q' sp0 name0.
Proof.
  intros Hs. unfold received_at, ip_receiver. rewrite (same_place_active _ _ Hs), (sm_data _ _ Hs), (sm_name _ _ Hs).
  done.
Qed.
Section OneObject.
Context Sp O G n (pa : N) (p : ipc_port) (r' : naked_rights).
Context (Hinv : ObjInv Sp O G n) (Hp : O !! pa = Some (KPort p)).
#[local] Abbreviation n' := (upd_naked n pa r').

Lemma links_le_counts p' o :
  links_le p p' → o ≠ 0 →
  n_dest (<[pa := KPort p']> O) o ≤ n_dest O o ∧ n_pd (<[pa := KPort p']> O) o ≤ n_pd O o ∧
  n_member (<[pa := KPort p']> O) o = n_member O o.
Proof.
  intros [Hd Hpd Hm] H0. split_and!.
  - apply (count_object_le _ O pa p p' Hp). by apply Hd.
  - apply (count_object_le _ O pa p p' Hp). by apply Hpd.
  - apply (count_object_eq _ O pa p p' Hp). by apply Hm.
Qed.

Lemma links_le_next p' : links_le p p' →
  next_port (<[pa := KPort p']> O) pa = next_port O pa ∨ next_port (<[pa := KPort p']> O) pa = 0.
Proof.
  intros [Hd _ _]. unfold next_port. rewrite lookup_insert_eq, Hp.
  destruct (ip_active p' && _) eqn:E; [|by right]. destruct (decide (ip_destination p' = 0)) as [|Hb]; [by right|].
  left. specialize (Hd _ Hb). simpl in Hd. rewrite E, N.eqb_refl in Hd. specialize (Hd eq_refl).
  apply andb_prop in Hd as [-> Hd%N.eqb_eq]. congruence.
Qed.

Lemma cap_ok_port p' sp name c :
  cap_ok O sp name c →
  (c_obj c = pa → is_recv (c_type c) = true → received_at p sp name → received_at p' sp name) →
  cap_ok (<[pa := KPort p']> O) sp name c.
Proof.
  intros Hc Hrecv. apply (cap_ok_objects O); [done| | |].
  - intros s Hs. rewrite lookup_insert_ne; [done|]. congruence.
  - intros q Hq Ht Hat. destruct (decide (c_obj c = pa)) as [Hca|Hca].
    + rewrite Hca in *. rewrite Hp in Hq. injection Hq as <-. exists p'. split; [by rewrite lookup_insert_eq|auto].
    + exists q. by rewrite lookup_insert_ne.
  - intros q Hq _. destruct (decide (c_obj c = pa)) as [->|Hca]; eexists; [by rewrite lookup_insert_eq|].
    by rewrite lookup_insert_ne.
Qed.

(** A port changes. *)
Lemma obj_update_port p' :
  links_le p p' →
  (∀ sp name, n_recv G pa ≠ 0 → received_at p sp name → received_at p' sp name) →
  port_ok Sp (<[pa := KPort p']> O) G n' pa p' →
  ObjInv Sp (<[pa := KPort p']> O) G n'.
Proof.
  intros Hlinks Hrecv Hport. apply (obj_frame Sp O _ G _ n _ pa Hinv); auto.
  - intros b Hb. by apply lookup_insert_ne.
  - intros b Hb. by apply upd_naked_ne.
  - congruence.
  - intros o H0 _. by apply links_le_counts.
  - intros b q _ _ _. exists p'. by rewrite lookup_insert_eq.
  - intros eb sp name c Hc. apply cap_ok_port; [by apply (oi_caps _ _ _ _ Hinv eb)|]. intros Hca Ht. apply Hrecv.
    enough (0 < n_recv G pa) by lia. apply (count_pos _ _ eb _ Hc).
    unfold holds. cbn [sl_state]. by rewrite Ht, Hca, N.eqb_refl.
  - apply Hinv.
  - intros o. rewrite lookup_insert_eq. intros [= <-]. by destruct (oi_objects _ _ _ _ Hinv _ _ Hp) as (? & ? & _).
  - intros _. exists p'. by rewrite lookup_insert_eq.
  - by apply links_le_next.
Qed.

(** A dead port without holders disappears. *)
Lemma obj_frame_delete G' :
  ip_active p = false → nk_rights r' = 0 → n_caps G' pa = 0 → n_dest O pa = 0 → n_pd O pa = 0 →
  (∀ P b, b ≠ pa → b ≠ 0 → count (holds P b) G' = count (holds P b) G) →
  (∀ b t, b ≠ pa → b ≠ 0 → dn_ok G b t → dn_ok G' b t) →
  (∀ eb sp name c, G' !! eb = Some (Slot sp name (Used c)) → cap_ok O sp name c) → uniq G' →
  ObjInv Sp (delete pa O) G' n'.
Proof.
  intros Hdead Hr0 Hcaps0 Hd0 Hp0 Hcount Hdn Hcaps Hu.
  destruct (oi_objects _ _ _ _ Hinv _ _ Hp) as (Haddr & _ & Hport).
  apply (obj_frame Sp O _ G _ n _ pa Hinv); auto.
  - intros b Hb. by apply lookup_delete_ne.
  - intros b Hb. by apply upd_naked_ne.
  - congruence.
  - intros o H0 Ho. pose proof (count_delete (dest_is o) O pa _ Hp) as H1.
    pose proof (count_delete (pdrequest_is o) O pa _ Hp) as H2.
    pose proof (count_delete (member_of o) O pa _ Hp) as H3. unfold n_dest, n_pd, n_member.
    replace (member_of o (KPort p)) with false in H3; [cbn [Nb] in H3; lia|].
    simpl. symmetry. apply N.eqb_neq. intros Hm. destruct (po_pset _ _ _ _ _ _ Hport) as [? _]; [by rewrite Hm|congruence].
  - intros b q Hb Hq [Hx|Hx].
    + pose proof (count_pos _ _ _ _ Hq Hx). unfold n_dest in Hd0. lia.
    + pose proof (count_pos _ _ _ _ Hq Hx). unfold n_pd in Hp0. lia.
  - intros eb sp name c Hc. assert (c_obj c ≠ pa) as Hca.
    { intros Hca. unfold n_caps in Hcaps0. rewrite count_zero in Hcaps0. specialize (Hcaps0 _ _ Hc).
      unfold holds in Hcaps0. cbn [sl_state] in Hcaps0. by rewrite Hca, N.eqb_refl in Hcaps0. }
    apply (cap_ok_objects O); [by eapply Hcaps| | |].
    + intros x Hx. by rewrite lookup_delete_ne.
    + intros q Hq _ Hat. exists q. by rewrite lookup_delete_ne.
    + intros q Hq _. exists q. by rewrite lookup_delete_ne.
  - intros o. by rewrite lookup_delete_eq.
  - by rewrite upd_naked_eq.
  - right. unfold next_port. by rewrite lookup_delete_eq.
Qed.

Context (ea sp name : N) (st st' : estate).
Context (Hg : G !! ea = Some (Slot sp name st)) (Hst : only pa st) (Hst' : only pa st').
#[local] Abbreviation G' := (<[ea := Slot sp name st']> G).
Context (Huniq : ∀ o, named st' = Some o → named st = Some o ∨ unnamed_in G sp o).

(** An entry and a port for which it holds a capability change. *)
Lemma obj_update p' :
  links_le p p' →
  (∀ c', st' = Used c' → cap_ok (<[pa := KPort p']> O) sp name c') →
  (∀ eb s c, eb ≠ ea → G !! eb = Some s → sl_state s = Used c → c_obj c = pa → is_recv (c_type c) = true →
     received_at p (sl_space s) (sl_name s) → received_at p' (sl_space s) (sl_name s)) →
  port_ok Sp (<[pa := KPort p']> O) G' n' pa p' →
  ObjInv Sp (<[pa := KPort p']> O) G' n'.
Proof.
  intros Hlinks Hcap Hrecv Hport. apply (obj_frame Sp O _ G _ n _ pa Hinv).
  - intros b Hb. by apply lookup_insert_ne.
  - intros b Hb. by apply upd_naked_ne.
  - congruence.
  - intros P b Hb Hb0. by apply (count_other G ea sp name st st' pa).
  - intros b t Hb Hb0. by apply (dn_ok_other G ea sp name st' pa).
  - intros o H0 _. by apply links_le_counts.
  - intros b q _ _ _. exists p'. by rewrite lookup_insert_eq.
  - intros eb spb nameb c Hb. destruct (decide (eb = ea)) as [->|Hne].
    + rewrite lookup_insert_eq in Hb. injection Hb as <- <- ->. auto.
    + rewrite lookup_insert_ne in Hb by done. apply cap_ok_port; [by apply (oi_caps _ _ _ _ Hinv eb)|].
      intros Hca Ht. by apply (Hrecv eb _ c Hne Hb).
  - eapply uniq_update; [apply Hinv|done|done].
  - intros o. rewrite lookup_insert_eq. intros [= <-]. by destruct (oi_objects _ _ _ _ Hinv _ _ Hp) as (? & ? & _).
  - intros _. exists p'. by rewrite lookup_insert_eq.
  - by apply links_le_next.
Qed.

(** A state without a capability, or with a dead name. *)
Definition vacant (s : estate) : Prop :=
  match s with Used c => c_type c = TDead ∧ cap_wf c | _ => True end.

(** The last capability for a dead port goes, and the port with it. *)
Lemma obj_delete_cap :
  ip_active p = false → nk_rights r' = 0 → ip_references p = 1 → holds (λ _, true) pa (Slot sp name st) = true → vacant st' →
  ObjInv Sp (delete pa O) G' n'.
Proof.
  intros Hdead Hr0 Hrefs Hon Hvac. destruct (oi_objects _ _ _ _ Hinv _ _ Hp) as (Haddr & _ & Hport).
  destruct Hport as [_ Hr _ Hnk Hnpd _ _ _ _ _ _ _ _ _].
  assert (pa ≠ 0) as Hpa0 by apply Haddr.
  assert (holds (λ _, true) pa (Slot sp name st') = false) as Hoff.
  { destruct st' as [| |c]; try done. destruct Hvac as [Ht Hwf]. unfold cap_wf in Hwf. rewrite Ht in Hwf.
    unfold holds. cbn [sl_state]. rewrite (proj2 (N.eqb_neq _ _)); [done|]. destruct Hwf as (-> & _). congruence. }
  pose proof (count_update (holds (λ _, true) pa) G ea _ (Slot sp name st') Hg) as Hc.
  rewrite Hon, Hoff in Hc. cbn [Nb] in Hc. unfold n_caps in Hr.
  apply (obj_frame_delete G'); [done|done|unfold n_caps; lia|lia|lia| | | |].
  - intros P b Hb Hb0. by apply (count_other G ea sp name st st' pa).
  - intros b t Hb Hb0. by apply (dn_ok_other G ea sp name st' pa).
  - intros eb spb nameb c Hb. destruct (decide (eb = ea)) as [->|Hne].
    + rewrite lookup_insert_eq in Hb. injection Hb as <- <- ->. destruct Hvac as [Ht Hwf].
      split; [done|]. by rewrite Ht.
    + rewrite lookup_insert_ne in Hb by done. by apply (oi_caps _ _ _ _ Hinv eb).
  - eapply uniq_update; [apply Hinv|done|]. intros o Ho. destruct st' as [| |c]; try done.
    destruct Hvac as [Ht _]. simpl in Ho. by rewrite Ht in Ho.
Qed.

End OneObject.

(** ** Counts of a port *)

(** What the counts of a port owe to one entry. *)
Definition on (P : ctype → bool) (pa : N) (st : estate) : N := Nb (holds P pa (Slot 0 0 st)).

Lemma n_update P G ea sp name st st' pa :
  G !! ea = Some (Slot sp name st) →
  count (holds P pa) (<[ea := Slot sp name st']> G) + on P pa st = count (holds P pa) G + on P pa st'.
Proof. intros Hg. apply (count_update (holds P pa) G ea _ (Slot sp name st') Hg). Qed.

Section Step.
Context Sp O G n (ea sp name : N) (st st' : estate) (pa : N) (p p' : ipc_port) (r' : naked_rights).
Context (Hport : port_ok Sp O G n pa p) (Hp : O !! pa = Some (KPort p)).
Context (Hpa : pa ≠ 0) (Hsame : same_place p p').
Context (Hrefs0 : 0 < ip_references p' < 2 ^ 32).
Context (Hnaked : nk_send r' + nk_sonce r' + nk_recv r' + n_dest O pa ≤ nk_refs r') (Hpd : n_pd O pa ≤ nk_pd r' ≤ nk_sonce r').

Lemma port_ok_build G' :
  ip_references p' = n_caps G' pa + nk_refs r' →
  (ip_active p = true → ip_srights p' = n_send G' pa + nk_send r') →
  n_sonce G' pa + nk_sonce r' ≤ ip_sorights p' < 2 ^ 32 →
  (ip_active p = true → ip_sorights p' = n_sonce G' pa + nk_sonce r') →
  n_recv G' pa + nk_recv r' = Nb (ip_active p) → nk_recv r' = nk_recv (n pa) ∧ nk_kern r' = nk_kern (n pa) →
  (ip_active p = true → dn_ok G' pa (ip_dnrequests p')) →
  port_ok Sp (<[pa := KPort p']> O) G' (upd_naked n pa r') pa p'.
Proof.
  intros Hr Hs Hso Hsoa Hre Hnr' Hdn. pose proof (same_place_active _ _ Hsame) as Hact.
  destruct (links_le_counts O pa p Hp p' pa (same_place_links _ _ Hsame) Hpa) as (Hd' & Hpd' & _).
  destruct Hport as [Ht _ _ _ _ _ _ _ _ Hnr Hlimbo Hpdr Hpset Hdnr].
  assert (∀ x, is_port O x → is_port (<[pa := KPort p']> O) x) as Hports.
  { intros x [q Hq]. destruct (decide (x = pa)) as [->|]; eexists; [by rewrite lookup_insert_eq|by rewrite lookup_insert_ne]. }
  destruct Hsame as [Hbits Hdata Hname Hms Hseq Hpdq Hps Hqu _].
  split; rewrite ?upd_naked_eq, ?Hact; try done; try lia.
  - unfold io_otype in *. unfold ip_bits in Hbits. by rewrite Hbits.
  - unfold naked_recv_ok, ip_receiver in *. destruct Hnr' as [-> ->]. by rewrite Hdata, Hname.
  - intros Ha Hl. rewrite Hname in Hl. destruct (Hlimbo Ha Hl) as (Hm & Hq & Hps0 & Hdest & Hths).
    unfold ip_destination in *. rewrite Hms, Hseq, Hps, Hdata, Hqu by done. split_and!; auto.
  - rewrite Hpdq. auto.
  - rewrite Hps. intros Hps0. destruct (Hpset Hps0) as (? & x & Hx). split; [done|]. exists x.
    rewrite lookup_insert_ne; [done|]. congruence.
Qed.

(** An entry and the counts of a port change together. *)
Lemma port_ok_step :
  G !! ea = Some (Slot sp name st) →
  ip_references p' + on (λ _, true) pa st + nk_refs (n pa) = ip_references p + on (λ _, true) pa st' + nk_refs r' →
  (ip_active p = true → ip_srights p' + on is_send pa st + nk_send (n pa) = ip_srights p + on is_send pa st' + nk_send r') →
  ip_sorights p + on is_sonce pa st' + nk_sonce r' ≤ ip_sorights p' + on is_sonce pa st + nk_sonce (n pa) →
  (ip_active p = true →
   ip_sorights p' + on is_sonce pa st + nk_sonce (n pa) = ip_sorights p + on is_sonce pa st' + nk_sonce r') →
  ip_sorights p' < 2 ^ 32 →
  on is_recv pa st' + nk_recv r' = on is_recv pa st + nk_recv (n pa) →
  nk_recv r' = nk_recv (n pa) ∧ nk_kern r' = nk_kern (n pa) →
  (ip_active p = true → dn_ok (<[ea := Slot sp name st']> G) pa (ip_dnrequests p')) →
  port_ok Sp (<[pa := KPort p']> O) (<[ea := Slot sp name st']> G) (upd_naked n pa r') pa p'.
Proof.
  intros Hg Hr Hs Hso Hsoa Hsob Hre Hnr' Hdn.
  destruct Hport as [_ Hrefs _ _ _ Hse Hson Hsona Hrecv _ _ _ _ _].
  pose proof (n_update (λ _, true) G ea sp name st st' pa Hg). pose proof (n_update is_send G ea sp name st st' pa Hg).
  pose proof (n_update is_sonce G ea sp name st st' pa Hg). pose proof (n_update is_recv G ea sp name st st' pa Hg).
  apply port_ok_build; try done; unfold n_caps, n_send, n_sonce, n_recv in *; try lia.
  - intros Ha. specialize (Hse Ha). specialize (Hs Ha). lia.
  - intros Ha. specialize (Hsona Ha). specialize (Hsoa Ha). lia.
Qed.

(** The counts of a port and the rights outside of entries change together. *)
Lemma port_ok_naked :
  ip_references p' + nk_refs (n pa) = ip_references p + nk_refs r' →
  (ip_active p = true → ip_srights p' + nk_send (n pa) = ip_srights p + nk_send r') →
  ip_sorights p' + nk_sonce (n pa) = ip_sorights p + nk_sonce r' →
  ip_sorights p' < 2 ^ 32 → nk_recv r' = nk_recv (n pa) → nk_kern r' = nk_kern (n pa) →
  (ip_active p = true → dn_ok G pa (ip_dnrequests p')) →
  port_ok Sp (<[pa := KPort p']> O) G (upd_naked n pa r') pa p'.
Proof.
  intros Hr Hs Hso Hsob Hre Hke Hdn. destruct Hport as [_ Hrefs _ _ _ Hse Hson Hsona Hrecv _ _ _ _ _].
  apply port_ok_build; try done; try lia.
  - intros Ha. specialize (Hse Ha). specialize (Hs Ha). lia.
  - intros Ha. specialize (Hsona Ha). lia.
Qed.
End Step.
End Update.
