(* ===== verification/IpcDn.v ===== *)
(** The tables of dead-name requests: the free chain, and the effect of
    cancelling, registering and renaming a request and of growing the table on
    the invariant of a port. *)

From S2P Require Import Prelude Kmem RdxtreeMap IpcTypes IpcEntry IpcPort IpcInv.

Open Scope N_scope.

Section Dn.
Context `{!Config}.
Implicit Types (G : gmap N eslot) (t : dnrequests).

Lemma slot_index_inj i j : i ≠ 0 → j ≠ 0 → N.to_nat (i - 1) = N.to_nat (j - 1) → i = j.
Proof. lia. Qed.

Lemma dn_slot_eq t i r r0 : dn_slot t i = Some r0 → dn_slot (dn_set_slot i r t) i = Some r.
Proof. intros Hi. unfold dn_slot, dn_set_slot in *. cbn. apply list_lookup_insert_eq. by eapply lookup_lt_Some. Qed.

Lemma dn_slot_ne t i j r : i ≠ 0 → j ≠ 0 → i ≠ j → dn_slot (dn_set_slot i r t) j = dn_slot t j.
Proof.
  intros Hi Hj Hij. unfold dn_slot, dn_set_slot. cbn. apply list_lookup_insert_ne.
  intros E. by apply Hij, slot_index_inj.
Qed.

Lemma dn_slot_next t i j : dn_slot (set_ipr_next i t) j = dn_slot t j.
Proof. done. Qed.

(** The chain reads its own slots only. *)
Lemma dn_chain_ext t t' i l : (∀ j, j ∈ l → dn_slot t' j = dn_slot t j) → dn_chain t i l → dn_chain t' i l.
Proof.
  revert i. induction l as [|j l IH]; intros i Hext; [done|]. intros (-> & Hj & r & Hr & Hn & Hl).
  split; [done|]. split; [done|]. exists r. split_and!; [|done|].
  - rewrite Hext; [done|]. left.
  - apply IH; [|done]. intros k Hk. apply Hext. by right.
Qed.

Lemma dn_chain_free t i l j : dn_chain t i l → j ∈ l → j ≠ 0 ∧ ∃ r, dn_slot t j = Some r ∧ ipr_name r = MACH_PORT_NULL.
Proof.
  revert i. induction l as [|k l IH]; intros i; [by intros _ ?%elem_of_nil|].
  intros (-> & Hk & r & Hr & Hn & Hl) [->|Hj]%elem_of_cons; [by eauto|]. by eapply IH.
Qed.

(** Writing a slot outside of the chain. *)
Lemma dn_chain_set t i l j r r0 :
  dn_chain t i l → dn_slot t j = Some r0 → ipr_name r0 ≠ MACH_PORT_NULL → j ≠ 0 →
  j ∉ l ∧ dn_chain (dn_set_slot j r t) i l.
Proof.
  intros Hl Hj Hn Hj0. assert (j ∉ l) as Hin.
  { intros Hin. destruct (dn_chain_free _ _ _ _ Hl Hin) as (_ & r1 & Hr1 & ?). congruence. }
  split; [done|]. eapply dn_chain_ext; [|done]. intros k Hk. apply dn_slot_ne; [done| |by intros ->].
  by eapply dn_chain_free.
Qed.

Lemma dn_table_size t i r : length (ipr_slots (dn_set_slot i r t)) = length (ipr_slots t).
Proof. apply length_insert. Qed.

(** *** Tables *)

Lemma dn_table_cancel t i r :
  dn_table_ok t → dn_slot t i = Some r → ipr_name r ≠ MACH_PORT_NULL → i ≠ 0 →
  dn_table_ok (set_ipr_next i (dn_set_slot i (IPR (ipr_next t) MACH_PORT_NULL) t)).
Proof.
  intros [Hsz (l & Hl & Hnd) Hnot] Hi Hn Hi0.
  destruct (dn_chain_set t _ l i (IPR (ipr_next t) MACH_PORT_NULL) r Hl Hi Hn Hi0) as [Hin Hl'].
  split; cbn [set_ipr_next ipr_size ipr_next ipr_slots dn_set_slot set_ipr_slots].
  - by rewrite length_insert.
  - exists (i :: l). split; [|by apply NoDup_cons_2]. split; [done|]. split; [done|].
    eexists. split_and!; [by eapply (dn_slot_eq t)|done|].
    eapply dn_chain_ext; [|exact Hl']. done.
  - intros k rk Hk Hnk. apply list_lookup_insert_Some in Hk as [(_ & <- & _)|[_ Hk]]; [done|by eapply Hnot].
Qed.

Lemma dn_table_rename t i r name :
  dn_table_ok t → dn_slot t i = Some r → ipr_name r ≠ MACH_PORT_NULL → i ≠ 0 → name ≠ MACH_PORT_NULL →
  dn_table_ok (dn_set_slot i (set_ipr_name name r) t).
Proof.
  intros [Hsz (l & Hl & Hnd) Hnot] Hi Hn Hi0 Hname.
  destruct (dn_chain_set t _ l i (set_ipr_name name r) r Hl Hi Hn Hi0) as [Hin Hl'].
  split; cbn [ipr_size ipr_slots dn_set_slot set_ipr_slots].
  - by rewrite length_insert.
  - by exists l.
  - intros k rk Hk Hnk. apply list_lookup_insert_Some in Hk as [(_ & <- & _)|[_ Hk]]; [|by eapply Hnot].
    cbn. by eapply Hnot.
Qed.

(** Registering takes the first free slot. *)
Lemma dn_table_request t r name notify :
  dn_table_ok t → ipr_next t ≠ 0 → dn_slot t (ipr_next t) = Some r → notify ≠ IP_NULL →
  dn_table_ok (dn_set_slot (ipr_next t) (IPR notify name) (set_ipr_next (ipr_notify r) t)).
Proof.
  intros [Hsz (l & Hl & Hnd) Hnot] Hi0 Hi Hnf. destruct l as [|j l]; [done|].
  destruct Hl as (Hj & _ & r' & Hr' & Hn & Hl). rewrite <- Hj, Hi in Hr'. injection Hr' as <-. subst j.
  apply list.NoDup_cons in Hnd as [Hin Hnd].
  split; cbn [ipr_size ipr_slots dn_set_slot set_ipr_slots set_ipr_next].
  - by rewrite length_insert.
  - exists l. split; [|done]. cbn [ipr_next]. eapply dn_chain_ext; [|exact Hl].
    intros k Hk. apply (dn_slot_ne (set_ipr_next (ipr_notify r) t)); [done| |by intros <-].
    by eapply dn_chain_free.
  - intros k rk Hk Hnk. apply list_lookup_insert_Some in Hk as [(_ & <- & _)|[_ Hk]]; [done|by eapply Hnot].
Qed.

Lemma dn_table_next t : dn_table_ok t → ipr_next t ≠ 0 → ∃ r, dn_slot t (ipr_next t) = Some r ∧ ipr_name r = MACH_PORT_NULL.
Proof.
  intros [_ (l & Hl & _) _] H0. destruct l as [|j l]; [done|]. destruct Hl as (-> & _ & r & Hr & Hn & _). eauto.
Qed.

(** *** Growth *)

(** The new slots, from element [i] on, are chained in front of [free]. *)
Lemma dn_free_slots_spec c i free sl f :
  dn_free_slots c i free = (sl, f) →
  length sl = c ∧ (∀ k r, sl !! k = Some r → ipr_name r = MACH_PORT_NULL) ∧
  (f = match c with O => free | S _ => i + N.of_nat c - 1 end) ∧
  ∀ k r, sl !! k = Some r → ipr_notify r = match k with O => free | S _ => i + N.of_nat k - 1 end.
Proof.
  revert i free sl f. induction c as [|c IH]; intros i free sl f; simpl.
  - intros [= <- <-]. by split_and!.
  - destruct (dn_free_slots c (i + 1) i) as [l f'] eqn:Hr. intros [= <- <-].
    destruct (IH _ _ _ _ Hr) as (Hlen & Hname & Hf & Hnot). simpl. split_and!.
    + by rewrite Hlen.
    + intros [|k] r; [by intros [= <-]|]. apply Hname.
    + rewrite Hf. destruct c; lia.
    + intros [|k] r; [by intros [= <-]|]. intros Hk. rewrite (Hnot k r Hk). destruct k; lia.
Qed.

Fixpoint descending (i : N) (c : nat) : list N :=
  match c with O => [] | S c => i + N.of_nat c :: descending i c end.

Lemma elem_of_descending i c j : j ∈ descending i c ↔ i ≤ j < i + N.of_nat c.
Proof.
  induction c as [|c IH]; cbn [descending].
  - split; [by intros ?%elem_of_nil|lia].
  - rewrite elem_of_cons, IH. lia.
Qed.

Lemma NoDup_descending i c : NoDup (descending i c).
Proof.
  induction c as [|c IH]; cbn [descending]; [constructor|]. apply NoDup_cons_2; [|done].
  rewrite elem_of_descending. lia.
Qed.

Lemma dn_chain_descending t i c free l :
  i ≠ 0 →
  (∀ k, (k < c)%nat → ∃ r, dn_slot t (i + N.of_nat k) = Some r ∧ ipr_name r = MACH_PORT_NULL ∧
     ipr_notify r = match k with O => free | S _ => i + N.of_nat k - 1 end) →
  dn_chain t free l →
  dn_chain t (match c with O => free | S _ => i + N.of_nat c - 1 end) (descending i c ++ l).
Proof.
  intros Hi. induction c as [|c IH]; intros Hslots Hl; cbn [descending app]; [done|].
  split; [lia|]. split; [lia|]. destruct (Hslots c) as (r & Hr & Hn & Hnot); [lia|]. exists r.
  split_and!; [done|done|]. rewrite Hnot. apply IH; [|done]. intros k Hk. apply Hslots. lia.
Qed.

(** A table that has grown; [ot] is the old one, if there is one. *)
Lemma dn_table_grow (ot : option dnrequests) a its nsize sl f :
  match ot with
  | Some t => dn_table_ok t
  | None => True
  end →
  let old := match ot with Some t => ipr_slots t | None => [] end in
  let free := match ot with Some t => ipr_next t | None => 0 end in
  let osize := N.of_nat (length old) + 1 in
  osize < nsize → ipc_table_dnrequests !! N.to_nat its = Some nsize →
  dn_free_slots (N.to_nat (nsize - osize)) osize free = (sl, f) →
  dn_table_ok (DnTable a f its (old ++ sl)) ∧ f ≠ 0.
Proof.
  intros Hot old free osize Hlt Hits Hsl.
  destruct (dn_free_slots_spec _ _ _ _ _ Hsl) as (Hlen & Hname & Hf & Hnot).
  assert (∃ l, dn_chain (DnTable a f its (old ++ sl)) free l ∧ NoDup l ∧ ∀ j, j ∈ l → j < osize) as (l & Hl & Hnd & Hlt').
  { subst old free. destruct ot as [t|]; [|exists []; split_and!; [done|constructor|by intros j ?%elem_of_nil]].
    destruct Hot as [_ (l & Hl & Hnd) _]. exists l.
    assert (∀ j, j ∈ l → (N.to_nat (j - 1) < length (ipr_slots t))%nat ∧ j ≠ 0) as Hrange.
    { intros j Hj. destruct (dn_chain_free _ _ _ _ Hl Hj) as (? & r & Hr & _). split; [|done]. by eapply lookup_lt_Some. }
    split_and!; [|done|].
    - eapply dn_chain_ext; [|exact Hl]. intros j Hj. apply lookup_app_l. by apply Hrange.
    - intros j Hj. destruct (Hrange j Hj). unfold osize. lia. }
  destruct (N.to_nat (nsize - osize)) as [|c] eqn:Hc; [lia|].
  split; [split; cbn [ipr_size ipr_next ipr_slots]|].
  - rewrite length_app, Hlen, Hits. f_equal. unfold osize in *. lia.
  - exists (descending osize (S c) ++ l). split.
    + rewrite Hf at 2. apply (dn_chain_descending _ osize (S c) free l); [unfold osize; lia| |done].
      intros k Hk. destruct (lookup_lt_is_Some_2 sl k) as [r Hr]; [lia|]. exists r.
      split_and!; [|by eapply Hname|by apply Hnot].
      unfold dn_slot. cbn [ipr_slots]. rewrite lookup_app_r by (unfold osize; lia).
      rewrite <- Hr. f_equal. unfold osize. lia.
    + apply list.NoDup_app. split_and!; [apply NoDup_descending| |done].
      intros j Hj%elem_of_descending Hjl. specialize (Hlt' j Hjl). lia.
  - intros k r [Hk|[_ Hk]]%lookup_app_Some Hn.
    + subst old. destruct ot as [t|]; [|done]. by eapply (dn_notify _ Hot).
    + by specialize (Hname _ _ Hk).
  - rewrite Hf. unfold osize. lia.
Qed.

(** ** Requests and capabilities *)

(** The request that a state has at the port [pa]. *)
Definition req_on (pa : N) (st : estate) : N :=
  match st with Used c => if c_obj c =? pa then c_req c else 0 | _ => 0 end.

(** [dn_ok] by means of [req_on]. *)
Lemma dn_ok_iff G pa ot :
  dn_ok G pa ot ↔
  match ot with
  | None => ∀ ea s, G !! ea = Some s → req_on pa (sl_state s) = 0
  | Some t =>
      dn_table_ok t ∧
      (∀ ea s, G !! ea = Some s → req_on pa (sl_state s) ≠ 0 →
         ∃ r, dn_slot t (req_on pa (sl_state s)) = Some r ∧ ipr_name r = sl_name s) ∧
      (∀ ea ea' s s', G !! ea = Some s → G !! ea' = Some s' → req_on pa (sl_state s) ≠ 0 →
         req_on pa (sl_state s) = req_on pa (sl_state s') → ea = ea')
  end.
Proof.
  assert (∀ s c, sl_state s = Used c → c_obj c = pa → req_on pa (sl_state s) = c_req c) as Hreq.
  { intros s c -> Hc. simpl. by rewrite Hc, N.eqb_refl. }
  assert (∀ s, req_on pa (sl_state s) ≠ 0 → ∃ c, sl_state s = Used c ∧ c_obj c = pa) as Hon.
  { intros s. destruct (sl_state s) as [| |c]; simpl; try done.
    destruct (N.eqb_spec (c_obj c) pa); [by eauto|done]. }
  destruct ot as [t|]; unfold dn_ok.
  - split; intros (Ht & Hs & Hi); (split; [done|]); split.
    + intros ea s Hg Hr. destruct (Hon s Hr) as (c & Hc & Hpa). rewrite (Hreq s c) in * by done. by eapply Hs.
    + intros ea ea' s s' Hg Hg' Hr Heq. destruct (Hon s Hr) as (c & Hc & Hpa).
      destruct (Hon s') as (c' & Hc' & Hpa'); [congruence|].
      rewrite (Hreq s c), (Hreq s' c') in Heq by done. rewrite (Hreq s c) in Hr by done. by eapply (Hi ea ea').
    + intros ea s c Hg Hc Hpa Hr. rewrite <- (Hreq s c) in * by done. by eapply Hs.
    + intros ea ea' s s' c c' Hg Hg' Hc Hc' Hpa Hpa' Heq Hr. rewrite <- (Hreq s c) in * by done.
      rewrite <- (Hreq s' c') in Heq by done. by eapply (Hi ea ea').
  - split.
    + intros Hs ea s Hg. destruct (decide (req_on pa (sl_state s) = 0)) as [|Hr]; [done|].
      destruct (Hon s Hr) as (c & Hc & Hpa). rewrite (Hreq s c) by done. by eapply Hs.
    + intros Hs ea s c Hg Hc Hpa. rewrite <- (Hreq s c) by done. by eapply Hs.
Qed.

Section Entry.
Context (G : gmap N eslot) (ea sp name pa : N) (st st' : estate) (Hg : G !! ea = Some (Slot sp name st)).
#[local] Abbreviation G' := (<[ea := Slot sp name st']> G).

(** The entry keeps its request or loses it. *)
Lemma dn_ok_keep ot :
  dn_ok G pa ot → req_on pa st' = 0 ∨ req_on pa st' = req_on pa st → dn_ok G' pa ot.
Proof.
  rewrite !dn_ok_iff. intros Hdn Hst.
  assert (∀ x s, G' !! x = Some s → req_on pa (sl_state s) ≠ 0 →
    ∃ s0, G !! x = Some s0 ∧ sl_name s0 = sl_name s ∧ req_on pa (sl_state s0) = req_on pa (sl_state s)) as Hback.
  { intros x s [[<- <-]|[Hne Hx]]%lookup_insert_Some Hr; [|by eauto].
    simpl in *. destruct Hst as [|Hst]; [done|]. by eauto. }
  destruct ot as [t|].
  - destruct Hdn as (Ht & Hs & Hi). split_and!; [done| |].
    + intros x s Hx Hr. destruct (Hback x s Hx Hr) as (s0 & Hx0 & Hn & Hr0). rewrite <- Hr0, <- Hn.
      apply (Hs x); congruence.
    + intros x y s s' Hx Hy Hr Heq. destruct (Hback x s Hx Hr) as (s0 & Hx0 & _ & Hr0).
      destruct (Hback y s' Hy) as (s1 & Hy1 & _ & Hr1); [congruence|]. apply (Hi x y s0 s1); congruence.
  - intros x s Hx. destruct (decide (req_on pa (sl_state s) = 0)) as [|Hr]; [done|].
    destruct (Hback x s Hx Hr) as (s0 & Hx0 & _ & Hr0). rewrite <- Hr0. by eapply Hdn.
Qed.

(** The request of the entry is cancelled. *)
Lemma dn_ok_cancel t :
  dn_ok G pa (Some t) → req_on pa st ≠ 0 → req_on pa st' = 0 → name ≠ 0 →
  ∃ r, dn_slot t (req_on pa st) = Some r ∧ ipr_name r = name ∧
    dn_ok G' pa (Some (set_ipr_next (req_on pa st)
      (dn_set_slot (req_on pa st) (IPR (ipr_next t) MACH_PORT_NULL) t))).
Proof.
  intros Hdn Hr0 Hr' Hname. rewrite dn_ok_iff in Hdn. destruct Hdn as (Ht & Hs & Hi).
  destruct (Hs ea _ Hg Hr0) as (r & Hr & Hn). simpl in Hr, Hn. exists r. split_and!; [done|done|].
  apply dn_ok_iff. split_and!.
  - apply (dn_table_cancel t _ r); [done|done| |done]. by rewrite Hn.
  - intros x s [[<- <-]|[Hne Hx]]%lookup_insert_Some Hrx; [by destruct (Hrx Hr')|].
    destruct (Hs x s Hx Hrx) as (rx & Hrx' & Hnx). exists rx. split; [|done]. rewrite dn_slot_next, dn_slot_ne; [done|done|done|].
    intros Heq. by apply Hne, (Hi ea x _ s Hg Hx).
  - intros x y s s' [[<- <-]|[Hne Hx]]%lookup_insert_Some; [by intros _ Hrx; destruct (Hrx Hr')|].
    intros [[<- <-]|[Hne' Hy]]%lookup_insert_Some Hrx Heq; [destruct Hrx; rewrite Heq; exact Hr'|]. by apply (Hi x y s s').
Qed.

(** The entry registers a request. *)
Lemma dn_ok_request t r notify :
  dn_ok G pa (Some t) → (∀ x s, G !! x = Some s → sl_name s ≠ 0) →
  ipr_next t ≠ 0 → dn_slot t (ipr_next t) = Some r → ipr_name r = MACH_PORT_NULL →
  notify ≠ IP_NULL → req_on pa st' = ipr_next t →
  dn_ok G' pa (Some (dn_set_slot (ipr_next t) (IPR notify name) (set_ipr_next (ipr_notify r) t))).
Proof.
  intros Hdn Hnames Hi0 Hr Hn Hnot Hst'. rewrite dn_ok_iff in Hdn. destruct Hdn as (Ht & Hs & Hi).
  assert (∀ x s, G !! x = Some s → req_on pa (sl_state s) ≠ 0 → req_on pa (sl_state s) ≠ ipr_next t) as Hold.
  { intros x s Hx Hrx Heq. destruct (Hs x s Hx Hrx) as (rx & Hrx' & Hnx). rewrite Heq, Hr in Hrx'.
    injection Hrx' as <-. destruct (Hnames x s Hx). by rewrite <- Hnx. }
  apply dn_ok_iff. split_and!.
  - by apply dn_table_request.
  - intros x s [[<- <-]|[Hne Hx]]%lookup_insert_Some Hrx; simpl in *.
    + rewrite Hst'. eexists. split; [by eapply (dn_slot_eq (set_ipr_next _ t))|done].
    + destruct (Hs x s Hx Hrx) as (rx & Hrx' & Hnx). exists rx. split; [|done].
      rewrite (dn_slot_ne (set_ipr_next _ t)); [done|done|done|]. intros E. by apply (Hold x s Hx Hrx).
  - intros x y s s' [[<- <-]|[Hne Hx]]%lookup_insert_Some [[<- <-]|[Hne' Hy]]%lookup_insert_Some Hrx Heq; simpl in *.
    + done.
    + destruct (Hold y s' Hy); congruence.
    + destruct (Hold x s Hx Hrx); congruence.
    + by apply (Hi x y s s').
Qed.
End Entry.

(** The table has grown. *)
Lemma dn_ok_grow G pa (ot : option dnrequests) a its nsize sl f :
  dn_ok G pa ot →
  let old := match ot with Some t => ipr_slots t | None => [] end in
  let free := match ot with Some t => ipr_next t | None => 0 end in
  let osize := N.of_nat (length old) + 1 in
  osize < nsize → ipc_table_dnrequests !! N.to_nat its = Some nsize →
  dn_free_slots (N.to_nat (nsize - osize)) osize free = (sl, f) →
  dn_ok G pa (Some (DnTable a f its (old ++ sl))).
Proof.
  intros Hdn old free osize Hlt Hits Hsl. rewrite dn_ok_iff in Hdn.
  destruct (dn_table_grow ot a its nsize sl f) as [Ht _]; [by destruct ot as [t|]; [apply Hdn|]|done|done|done|].
  apply dn_ok_iff. subst old free. destruct ot as [t|].
  - destruct Hdn as (_ & Hs & Hi). split_and!; [done| |done]. intros x s Hx Hrx.
    destruct (Hs x s Hx Hrx) as (r & Hr & Hn). exists r. split; [|done]. unfold dn_slot in *. cbn [ipr_slots].
    by apply lookup_app_l_Some.
  - split_and!; [done| |]; intros x s; [intros Hx Hrx|intros s0 s1 Hx _ Hrx]; destruct Hrx; by eapply Hdn.
Qed.
End Dn.
