(* ===== verification/IpcMar.v ===== *)
(** The hash table of msg-accepted requests: cancelling and renaming keep it in
    step with the entries. *)

From S2P Require Import Prelude Kmem RdxtreeMap IpcTypes IpcEntry IpcPort IpcMarequest IpcInv.

Open Scope N_scope.

Section Mar.
Context `{!Config} {T C : Type} `{!KeyMap T} `{!KmemCache C}.
Implicit Types (Sp : gmap N (ipc_space T)) (G : gmap N eslot) (M : gmap N ipc_marequest) (B : gmap N (list N)).

Lemma mar_ok_spaces Sp Sp' G M B :
  (∀ a, active_space Sp' a → active_space Sp a) → mar_ok Sp G M B → mar_ok Sp' G M B.
Proof. intros HSp [? ? ? ? Hc]. split; auto. Qed.

Lemma mar_ok_table Sp G G' M B :
  (∀ sp name, waits_in G' sp name ↔ waits_in G sp name) → mar_ok Sp G M B → mar_ok Sp G' M B.
Proof. intros HG [? ? ? ? Hc]. split; auto. intros sp name l Ha Hb. by rewrite HG, <- (Hc sp name l). Qed.

Lemma waits_in_update G ea sp name st st' sp0 name0 :
  G !! ea = Some (Slot sp name st) → ma_of st' = ma_of st →
  waits_in (<[ea := Slot sp name st']> G) sp0 name0 ↔ waits_in G sp0 name0.
Proof.
  intros Hg Hma. split.
  - intros (eb & s & [[<- <-]|[Hne Hs]]%lookup_insert_Some & Hsp & Hn & Hw); [|by exists eb, s].
    simpl in *. exists ea. eexists. split_and!; [done|done|done|]. simpl. congruence.
  - intros (eb & s & Hs & Hsp & Hn & Hw). destruct (decide (eb = ea)) as [->|Hne].
    + rewrite Hg in Hs. injection Hs as <-. simpl in *. exists ea. eexists.
      split_and!; [apply lookup_insert_eq|done|done|]. simpl. congruence.
    + exists eb, s. by rewrite lookup_insert_ne.
Qed.

Lemma mar_ok_update Sp G M B ea sp name st st' :
  mar_ok Sp G M B → G !! ea = Some (Slot sp name st) → ma_of st' = ma_of st →
  mar_ok Sp (<[ea := Slot sp name st']> G) M B.
Proof. intros Hm Hg Hma. eapply mar_ok_table; [|done]. intros ? ?. by eapply waits_in_update. Qed.

(** *** The search *)

Lemma marequest_find_spec (K : kernel T C) l sp name :
  (∀ a, a ∈ l → is_Some (k_marequests K !! a)) →
  wp (marequest_find l sp name)
    (λ x K', K' = K ∧
       match x with
       | Some (a, l') => ∃ l1 l2, l = l1 ++ a :: l2 ∧ l' = l1 ++ l2 ∧ mar_in (k_marequests K) l sp name a
       | None => ∀ a, ¬ mar_in (k_marequests K) l sp name a
       end) K.
Proof.
  induction l as [|a l IH]; intros Hl; cbn [marequest_find].
  - wp_step. split; [done|]. intros a [Ha%elem_of_nil _]. done.
  - destruct (Hl a) as [r Hr]; [left|]. unfold load_marequest. do 3 wp_step.
    apply (wp_deref _ r); [done|]. cbn beta.
    destruct (N.eqb_spec (imar_space r) sp) as [Hsp|Hsp], (N.eqb_spec (imar_name r) name) as [Hn|Hn]; cbn [andb].
    { wp_step. split; [done|]. exists [], l. split_and!; [done|done|]. split; [left|eauto]. }
    all: wp_step; (eapply wp_mono; [apply IH; intros b Hb; apply Hl; by right|]); intros x K' [-> Hx]; wp_step;
      (split; [done|]); destruct x as [[b l']|]; cbn.
    all: try (destruct Hx as (l1 & l2 & -> & -> & [Hb Hr']); exists (a :: l1), l2; split_and!; [done|done|]; split; [by right|done]).
    all: intros b [[->|Hb]%elem_of_cons (r' & Hr' & ? & ?)]; [congruence|apply (Hx b); split; eauto].
Qed.

Lemma mar_take Sp G M B h sp name l1 l2 a r :
  mar_ok Sp G M B → B !! h = Some (l1 ++ a :: l2) → M !! a = Some r →
  imar_space r = sp → imar_name r = name → name ≠ 0 →
  h = IMAR_HASH sp name ∧ a ∉ l1 ++ l2 ∧ NoDup (l1 ++ l2) ∧
  (∀ b, ¬ mar_in M (l1 ++ l2) sp name b).
Proof.
  intros [_ Hmem Hnd Huni _] Hh Ha Hsp Hn H0.
  assert (a ∈ l1 ++ a :: l2) as Hin by (rewrite elem_of_app; right; left).
  destruct (Hmem _ _ _ Hh Hin) as (r' & Hr' & _ & Hhash). rewrite Ha in Hr'. injection Hr' as <-. subst.
  assert (a ∉ l1 ++ l2 ∧ NoDup (l1 ++ l2)) as [Hna Hnd'].
  { specialize (Hnd _ _ Hh). rewrite Permutation_middle in Hnd || rewrite <- Permutation_middle in Hnd.
    by apply list.NoDup_cons in Hnd. }
  split_and!; [done|done|done|]. intros b [Hb (rb & Hrb & Hbs & Hbn)]. apply Hna.
  assert (b = a) as <-; [|done]. eapply (Huni _ _ (imar_space r) (imar_name r)); [done| |].
  - split; [|by eauto]. rewrite elem_of_app, elem_of_cons. rewrite elem_of_app in Hb. tauto.
  - split; [done|]. by eauto.
Qed.

(** Other requests do not see a write to [a]. *)
Lemma mar_in_insert M l sp name a r b :
  a ∉ l → mar_in (<[a := r]> M) l sp name b ↔ mar_in M l sp name b.
Proof.
  intros Ha. unfold mar_in. split; intros [Hb Hr]; (split; [done|]); rewrite lookup_insert_ne in *; try done; by intros ->.
Qed.

(** A request leaves the table. *)
Lemma mar_ok_remove Sp G G' M B h sp name l1 l2 a r r' :
  mar_ok Sp G M B → B !! h = Some (l1 ++ a :: l2) → M !! a = Some r →
  imar_space r = sp → imar_name r = name → name ≠ 0 →
  (∀ sp0 name0, waits_in G' sp0 name0 ↔ waits_in G sp0 name0 ∧ ¬ (sp0 = sp ∧ name0 = name)) →
  mar_ok Sp G' (<[a := r']> M) (<[h := l1 ++ l2]> B) ∧
  ∀ i l, <[h := l1 ++ l2]> B !! i = Some l → a ∉ l.
Proof.
  intros Hok Hh Ha Hsp Hn H0 HG.
  destruct (mar_take Sp G M B h sp name l1 l2 a r Hok Hh Ha Hsp Hn H0) as (Hhash & Hna & Hnd' & Hnone).
  destruct Hok as [Hbk Hmem Hnd Huni Hcaps].
  assert (∀ i l, <[h := l1 ++ l2]> B !! i = Some l → a ∉ l) as Hout.
  { intros i l [[<- <-]|[Hne Hi]]%lookup_insert_Some; [done|]. intros Hin.
    destruct (Hmem _ _ _ Hi Hin) as (ra & Hra & _ & Hi'). rewrite Ha in Hra. injection Hra as <-. congruence. }
  assert (∀ i l, <[h := l1 ++ l2]> B !! i = Some l → ∃ l0, B !! i = Some l0 ∧ ∀ b, b ∈ l → b ∈ l0) as Hsub.
  { intros i l [[<- <-]|[Hne Hi]]%lookup_insert_Some; [|by eauto]. eexists. split; [done|].
    intros b. rewrite !elem_of_app, elem_of_cons. tauto. }
  split; [split|done].
  - intros sp0 name0. destruct (decide (IMAR_HASH sp0 name0 = h)) as [->|Hne]; [rewrite lookup_insert_eq|rewrite lookup_insert_ne by done]; eauto.
  - intros i l b Hi Hb. destruct (Hsub i l Hi) as (l0 & Hl0 & Hin). destruct (Hmem _ _ _ Hl0 (Hin b Hb)) as (rb & Hrb & ?).
    exists rb. split; [|done]. rewrite lookup_insert_ne; [done|]. intros ->. by apply (Hout i l).
  - intros i l [[<- <-]|[Hne Hi]]%lookup_insert_Some; [done|by eapply Hnd].
  - intros i l sp0 name0 b b' Hi. rewrite !mar_in_insert by by eapply Hout. intros [Hb Hr] [Hb' Hr'].
    destruct (Hsub i l Hi) as (l0 & Hl0 & Hin). eapply (Huni i l0 sp0 name0); [done| |]; split; eauto.
  - intros sp0 name0 l Hact Hl. rewrite HG. setoid_rewrite mar_in_insert; [|by eapply Hout..].
    apply lookup_insert_Some in Hl as [[Hheq <-]|[Hne Hl]].
    + rewrite <- (Hcaps sp0 name0 _ Hact (eq_trans (f_equal (B !!.) (eq_sym Hheq)) Hh)). split.
      * intros [b [Hb Hr]]. split.
        -- exists b. split; [|done]. rewrite elem_of_app, elem_of_cons. rewrite elem_of_app in Hb. tauto.
        -- intros [-> ->]. apply (Hnone b). by split.
      * intros [[b [Hb Hr]] Hneq]. exists b. split; [|done]. rewrite elem_of_app, elem_of_cons in Hb. rewrite elem_of_app.
        destruct Hb as [?|[->|?]]; [tauto| |tauto]. destruct Hr as (rb & Hrb & Hs & Hm). rewrite Ha in Hrb.
        injection Hrb as <-. destruct Hneq. split; congruence.
    + rewrite <- (Hcaps sp0 name0 l Hact Hl). split; [|tauto]. intros Hb. split; [done|]. intros [-> ->]. congruence.
Qed.

(** A request enters the table. *)
Lemma mar_ok_add Sp G G' M B h sp name l a r' :
  mar_ok Sp G M B → h = IMAR_HASH sp name → B !! h = Some l → (∀ i l0, B !! i = Some l0 → a ∉ l0) →
  imar_space r' = sp → imar_name r' = name → name ≠ 0 → (∀ b, ¬ mar_in M l sp name b) →
  (∀ sp0 name0, waits_in G' sp0 name0 ↔ waits_in G sp0 name0 ∨ sp0 = sp ∧ name0 = name) →
  mar_ok Sp G' (<[a := r']> M) (<[h := a :: l]> B).
Proof.
  intros [Hbk Hmem Hnd Huni Hcaps] -> Hl Hout Hsp Hn H0 Hnone HG.
  assert (∀ sp0 name0 b, mar_in (<[a := r']> M) (a :: l) sp0 name0 b ↔
    b = a ∧ sp0 = sp ∧ name0 = name ∨ mar_in M l sp0 name0 b) as Hcons.
  { intros sp0 name0 b. unfold mar_in. rewrite elem_of_cons. split.
    - intros [[->|Hb] (r & Hr & Hs & Hm)].
      + rewrite lookup_insert_eq in Hr. injection Hr as <-. left. split_and!; congruence.
      + right. split; [done|]. exists r. rewrite lookup_insert_ne in Hr; [done|]. intros ->. by apply (Hout _ _ Hl).
    - intros [(-> & -> & ->)|[Hb (r & Hr & ?)]].
      + split; [by left|]. exists r'. by rewrite lookup_insert_eq.
      + split; [by right|]. exists r. rewrite lookup_insert_ne; [done|]. intros ->. by apply (Hout _ _ Hl). }
  split.
  - intros sp0 name0. destruct (decide (IMAR_HASH sp0 name0 = IMAR_HASH sp name)) as [->|Hne];
      [rewrite lookup_insert_eq|rewrite lookup_insert_ne by done]; eauto.
  - intros i l0 b [[<- <-]|[Hne Hi]]%lookup_insert_Some Hb.
    + apply elem_of_cons in Hb as [->|Hb]; [exists r'; rewrite lookup_insert_eq; by subst|].
      destruct (Hmem _ _ _ Hl Hb) as (rb & Hrb & ?). exists rb. rewrite lookup_insert_ne; [done|].
      intros ->. by apply (Hout _ _ Hl).
    + destruct (Hmem _ _ _ Hi Hb) as (rb & Hrb & ?). exists rb. rewrite lookup_insert_ne; [done|].
      intros ->. by apply (Hout _ _ Hi).
  - intros i l0 [[<- <-]|[Hne Hi]]%lookup_insert_Some; [|by eapply Hnd].
    apply NoDup_cons_2; [by eapply Hout|by eapply Hnd].
  - intros i l0 sp0 name0 b b' [[<- <-]|[Hne Hi]]%lookup_insert_Some.
    + rewrite !Hcons. intros [(-> & -> & ->)|Hb] [(-> & Hs & Hm)|Hb']; [done| | |by eapply (Huni _ l)].
      * by destruct (Hnone b').
      * subst. by destruct (Hnone b).
    + rewrite !mar_in_insert by by eapply Hout. by eapply (Huni i).
  - intros sp0 name0 l0 Hact [[Hh <-]|[Hne Hi]]%lookup_insert_Some.
    + rewrite Hh in Hl. rewrite HG, <- (Hcaps sp0 name0 l Hact Hl). setoid_rewrite Hcons. split.
      * intros [b [(_ & ? & ?)|Hb]]; [by right|left; by exists b].
      * intros [[b Hb]|?]; [exists b; by right|exists a; by left].
    + setoid_rewrite mar_in_insert; [|by eapply Hout..]. rewrite HG, <- (Hcaps sp0 name0 l0 Hact Hi).
      split; [by left|]. intros [?|[-> ->]]; done.
Qed.
End Mar.
