(* ===== verification/IpcStep.v ===== *)
(** Symbolic execution of IPC routines: one rule per access to the kernel
    state, and the lemmas that put the parts of the invariant together again. *)

From S2P Require Import Prelude Kmem Rdxtree RdxtreeInv RdxtreeSpec RdxtreeMap IpcTypes IpcEntry IpcPort IpcMarequest IpcBits IpcInv IpcUpdate IpcDn IpcMar.

Open Scope N_scope.

(** Reduces reads of a state that was just written. *)
Ltac ksimpl :=
  cbv [k_spaces k_entries k_objects k_marequests k_buckets k_threads k_kmsgs k_timestamp k_calls k_caches
       set_k_spaces set_k_entries set_k_objects set_k_marequests set_k_buckets set_k_threads set_k_kmsgs
       set_k_timestamp set_k_calls set_k_caches].
Ltac ksimpl_all :=
  cbv [k_spaces k_entries k_objects k_marequests k_buckets k_threads k_kmsgs k_timestamp k_calls k_caches
       set_k_spaces set_k_entries set_k_objects set_k_marequests set_k_buckets set_k_threads set_k_kmsgs
       set_k_timestamp set_k_calls set_k_caches] in *.

Section Rules.
Context {T C : Type}.
Implicit Types (K : kernel T C).

Lemma wp_load_space K a S Q : k_spaces K !! a = Some S → Q S K → wp (load_space a) Q K.
Proof. intros Ha HQ. unfold load_space. do 2 wp_step. by apply (wp_deref _ S). Qed.
Lemma wp_upd_space K a S f Q :
  k_spaces K !! a = Some S → Q tt (set_k_spaces (<[a := f S]> (k_spaces K)) K) → wp (upd_space a f) Q K.
Proof. intros Ha HQ. unfold upd_space. wp_step. apply (wp_load_space _ _ S); [done|]. by wp_step. Qed.
Lemma wp_load_entry K a e Q : k_entries K !! a = Some e → Q e K → wp (load_entry a) Q K.
Proof. intros Ha HQ. unfold load_entry. do 2 wp_step. by apply (wp_deref _ e). Qed.
Lemma wp_upd_entry K a e f Q :
  k_entries K !! a = Some e → Q tt (set_k_entries (<[a := f e]> (k_entries K)) K) → wp (upd_entry a f) Q K.
Proof. intros Ha HQ. unfold upd_entry. wp_step. apply (wp_load_entry _ _ e); [done|]. by wp_step. Qed.
Lemma wp_load_object K a o Q : k_objects K !! a = Some o → Q o K → wp (load_object a) Q K.
Proof. intros Ha HQ. unfold load_object. do 2 wp_step. by apply (wp_deref _ o). Qed.
Lemma wp_put_object K a o Q : Q tt (set_k_objects (<[a := o]> (k_objects K)) K) → wp (put_object a o) Q K.
Proof. done. Qed.
Lemma wp_upd_object_target K a o f Q :
  k_objects K !! a = Some o → Q tt (set_k_objects (<[a := kobj_upd_target f o]> (k_objects K)) K) →
  wp (upd_object_target a f) Q K.
Proof. intros Ha HQ. unfold upd_object_target. wp_step. by apply (wp_load_object _ _ o). Qed.
Lemma wp_load_port K a p Q : k_objects K !! a = Some (KPort p) → Q p K → wp (load_port a) Q K.
Proof. intros Ha HQ. unfold load_port. wp_step. by apply (wp_load_object _ _ (KPort p)). Qed.
Lemma wp_upd_port K a p f Q :
  k_objects K !! a = Some (KPort p) → Q tt (set_k_objects (<[a := KPort (f p)]> (k_objects K)) K) →
  wp (upd_port a f) Q K.
Proof. intros Ha HQ. unfold upd_port. wp_step. by apply (wp_load_port _ _ p). Qed.
Lemma wp_load_pset K a p Q : k_objects K !! a = Some (KPset p) → Q p K → wp (load_pset a) Q K.
Proof. intros Ha HQ. unfold load_pset. wp_step. by apply (wp_load_object _ _ (KPset p)). Qed.
Lemma wp_upd_pset K a p f Q :
  k_objects K !! a = Some (KPset p) →
  Q tt (set_k_objects (<[a := KPset (IPset (f (ips_target p)))]> (k_objects K)) K) → wp (upd_pset a f) Q K.
Proof. intros Ha HQ. unfold upd_pset. wp_step. by apply (wp_load_pset _ _ p). Qed.
Lemma wp_load_thread K a t Q : k_threads K !! a = Some t → Q t K → wp (load_thread a) Q K.
Proof. intros Ha HQ. unfold load_thread. do 2 wp_step. by apply (wp_deref _ t). Qed.
Lemma wp_upd_thread K a t f Q :
  k_threads K !! a = Some t → Q tt (set_k_threads (<[a := f t]> (k_threads K)) K) → wp (upd_thread a f) Q K.
Proof. intros Ha HQ. unfold upd_thread. wp_step. apply (wp_load_thread _ _ t); [done|]. by wp_step. Qed.
Lemma wp_load_marequest K a r Q : k_marequests K !! a = Some r → Q r K → wp (load_marequest a) Q K.
Proof. intros Ha HQ. unfold load_marequest. do 2 wp_step. by apply (wp_deref _ r). Qed.
Lemma wp_upd_marequest K a r f Q :
  k_marequests K !! a = Some r → Q tt (set_k_marequests (<[a := f r]> (k_marequests K)) K) →
  wp (upd_marequest a f) Q K.
Proof. intros Ha HQ. unfold upd_marequest. wp_step. apply (wp_load_marequest _ _ r); [done|]. by wp_step. Qed.
Lemma wp_later K c Q : Q tt (set_k_calls (k_calls K ++ [c]) K) → wp (later c) Q K.
Proof. done. Qed.

Lemma wp_on_map {A} K sp S (c : M T A) Q :
  k_spaces K !! sp = Some S →
  wp c (λ r t, Q r (set_k_spaces (<[sp := set_is_map t S]> (k_spaces K)) K)) (is_map S) →
  wp (on_map sp c) Q K.
Proof.
  intros HS Hc. unfold on_map. wp_step. apply (wp_load_space _ _ S); [done|]. wp_step.
  apply wp_run in Hc as (r & t & Hc & HQ). apply (wp_deref _ (r, t)); [done|]. cbn beta iota. wp_step.
  apply (wp_upd_space _ _ S); [done|]. by wp_step.
Qed.
Lemma wp_on_reverse_map {A} K sp S (c : M T A) Q :
  k_spaces K !! sp = Some S →
  wp c (λ r t, Q r (set_k_spaces (<[sp := set_is_reverse_map t S]> (k_spaces K)) K)) (is_reverse_map S) →
  wp (on_reverse_map sp c) Q K.
Proof.
  intros HS Hc. unfold on_reverse_map. wp_step. apply (wp_load_space _ _ S); [done|]. wp_step.
  apply wp_run in Hc as (r & t & Hc & HQ). apply (wp_deref _ (r, t)); [done|]. cbn beta iota. wp_step.
  apply (wp_upd_space _ _ S); [done|]. by wp_step.
Qed.

Lemma set_k_spaces_id K : set_k_spaces (k_spaces K) K = K.
Proof. by destruct K. Qed.

(** A routine that only reads the tree. *)
Lemma wp_on_map_read {A} K sp S (c : M T A) (P : A → Prop) Q :
  k_spaces K !! sp = Some S → wp c (λ r t, t = is_map S ∧ P r) (is_map S) → (∀ r, P r → Q r K) →
  wp (on_map sp c) Q K.
Proof.
  intros HS Hc HQ. apply (wp_on_map _ _ S); [done|]. eapply wp_mono; [done|]. intros r t [-> Hr].
  rewrite insert_id by (by destruct S). rewrite set_k_spaces_id. auto.
Qed.
Lemma wp_on_reverse_map_read {A} K sp S (c : M T A) (P : A → Prop) Q :
  k_spaces K !! sp = Some S → wp c (λ r t, t = is_reverse_map S ∧ P r) (is_reverse_map S) → (∀ r, P r → Q r K) →
  wp (on_reverse_map sp c) Q K.
Proof.
  intros HS Hc HQ. apply (wp_on_reverse_map _ _ S); [done|]. eapply wp_mono; [done|]. intros r t [-> Hr].
  rewrite insert_id by (by destruct S). rewrite set_k_spaces_id. auto.
Qed.
End Rules.

(** Solves [m !! a = Some ?x] for a map that was written to. *)
Ltac klookup :=
  ksimpl;
  repeat first [ eassumption | rewrite lookup_insert_eq; reflexivity | rewrite lookup_insert_ne by congruence ].

(** One access to the kernel state. *)
Ltac kstep :=
  match goal with
  | |- wp (mbind _ _) _ _ => apply wp_bind
  | |- wp (mret _) _ _ => apply wp_ret
  | |- wp get _ _ => apply wp_get
  | |- wp (modify _) _ _ => apply wp_modify
  | |- wp (put _) _ _ => apply wp_put
  | |- wp (load_space _) _ _ => eapply wp_load_space; [klookup|]
  | |- wp (upd_space _ _) _ _ => eapply wp_upd_space; [klookup|]
  | |- wp (load_entry _) _ _ => eapply wp_load_entry; [klookup|]
  | |- wp (upd_entry _ _) _ _ => eapply wp_upd_entry; [klookup|]
  | |- wp (load_object _) _ _ => eapply wp_load_object; [klookup|]
  | |- wp (put_object _ _) _ _ => apply wp_put_object
  | |- wp (upd_object_target _ _) _ _ => eapply wp_upd_object_target; [klookup|]
  | |- wp (load_port _) _ _ => eapply wp_load_port; [klookup|]
  | |- wp (upd_port _ _) _ _ => eapply wp_upd_port; [klookup|]
  | |- wp (load_pset _) _ _ => eapply wp_load_pset; [klookup|]
  | |- wp (upd_pset _ _) _ _ => eapply wp_upd_pset; [klookup|]
  | |- wp (load_thread _) _ _ => eapply wp_load_thread; [klookup|]
  | |- wp (upd_thread _ _) _ _ => eapply wp_upd_thread; [klookup|]
  | |- wp (load_marequest _) _ _ => eapply wp_load_marequest; [klookup|]
  | |- wp (upd_marequest _ _) _ _ => eapply wp_upd_marequest; [klookup|]
  | |- wp (later _) _ _ => apply wp_later
  | |- wp (check true) _ _ => apply wp_check; [reflexivity|]
  | |- wp (check _) _ _ => apply wp_check; [first [reflexivity|assumption]|]
  end; ksimpl; cbv beta zeta.
Ltac ksteps := repeat kstep.

(** Decides comparisons of words from the hypotheses. *)
Ltac keqb :=
  repeat match goal with
  | |- context [?a =? ?b] =>
      first [ rewrite (proj2 (N.eqb_neq a b)) by (solve [assumption | congruence])
            | rewrite (proj2 (N.eqb_eq a b)) by (solve [reflexivity | assumption | congruence]) ]
  end; cbn [negb andb orb].

Section Entries.
Context `{!Config} {T C : Type} `{!KeyMap T} `{!KmemCache C}.
Implicit Types (Sp : gmap N (ipc_space T)) (E : gmap N ipc_entry) (O : gmap N kobject) (G : gmap N eslot) (n : naked).

(** *** Bits of a capability *)

Lemma cap_urefs_lt c : cap_wf c → c_urefs c < 2 ^ 16.
Proof. unfold cap_wf, MACH_PORT_UREFS_MAX. destruct (c_type c); lia. Qed.

Lemma cap_urefs c : cap_wf c → IE_BITS_UREFS (cap_bits c) = c_urefs c.
Proof. intros Hc. by apply urefs_bits, cap_urefs_lt. Qed.

Lemma cap_type c : cap_wf c → IE_BITS_TYPE (cap_bits c) = 2 ^ 16 * type_code (c_type c).
Proof.
  intros Hc. unfold cap_bits. rewrite type_bits by by apply cap_urefs_lt.
  by destruct (c_type c), (c_ma c).
Qed.

Section Tests.
Context (c : cap) (Hc : cap_wf c).

Lemma cap_has k : has (cap_bits c) (2 ^ 16 * k) = negb (N.land (type_code (c_type c) + ma_code (c_ma c)) k =? 0).
Proof. by apply has_bits, cap_urefs_lt. Qed.

Lemma cap_has_send : has (cap_bits c) MACH_PORT_TYPE_SEND = is_send (c_type c).
Proof. etransitivity; [apply (cap_has 1)|]. by destruct (c_type c), (c_ma c). Qed.
Lemma cap_has_receive : has (cap_bits c) MACH_PORT_TYPE_RECEIVE = is_recv (c_type c).
Proof. etransitivity; [apply (cap_has 2)|]. by destruct (c_type c), (c_ma c). Qed.
Lemma cap_has_send_once : has (cap_bits c) MACH_PORT_TYPE_SEND_ONCE = is_sonce (c_type c).
Proof. etransitivity; [apply (cap_has 4)|]. by destruct (c_type c), (c_ma c). Qed.
Lemma cap_has_port_set : has (cap_bits c) MACH_PORT_TYPE_PORT_SET = bool_decide (c_type c = TPset).
Proof. etransitivity; [apply (cap_has 8)|]. by destruct (c_type c), (c_ma c). Qed.
Lemma cap_has_dead_name : has (cap_bits c) MACH_PORT_TYPE_DEAD_NAME = bool_decide (c_type c = TDead).
Proof. etransitivity; [apply (cap_has 16)|]. by destruct (c_type c), (c_ma c). Qed.
Lemma cap_has_send_receive : has (cap_bits c) MACH_PORT_TYPE_SEND_RECEIVE = is_named (c_type c).
Proof. etransitivity; [apply (cap_has 3)|]. by destruct (c_type c), (c_ma c). Qed.
Lemma cap_has_send_rights : has (cap_bits c) MACH_PORT_TYPE_SEND_RIGHTS = is_send (c_type c) || is_sonce (c_type c).
Proof. etransitivity; [apply (cap_has 5)|]. by destruct (c_type c), (c_ma c). Qed.
Lemma cap_has_port_rights : has (cap_bits c) MACH_PORT_TYPE_PORT_RIGHTS = is_named (c_type c) || is_sonce (c_type c).
Proof. etransitivity; [apply (cap_has 7)|]. by destruct (c_type c), (c_ma c). Qed.
Lemma cap_has_port_or_dead :
  has (cap_bits c) MACH_PORT_TYPE_PORT_OR_DEAD = negb (bool_decide (c_type c = TPset)).
Proof. etransitivity; [apply (cap_has 23)|]. by destruct (c_type c), (c_ma c). Qed.
Lemma cap_has_marequest : has (cap_bits c) IE_BITS_MAREQUEST = c_ma c.
Proof. etransitivity; [apply (cap_has 32)|]. by destruct (c_type c), (c_ma c). Qed.
End Tests.

Lemma cap_type_nonzero c : cap_wf c → (IE_BITS_TYPE (cap_bits c) =? 0) = false.
Proof. intros Hc. rewrite cap_type by done. by destruct (c_type c). Qed.

(** *** Lookup *)

Definition no_cap G (sp name : N) : Prop := ∀ ea c, G !! ea ≠ Some (Slot sp name (Used c)).

Lemma ipc_entry_lookup_spec (K : kernel T C) G sp name Q :
  EntInv (k_spaces K) (k_entries K) G →
  (∀ ea sp name c, G !! ea = Some (Slot sp name (Used c)) → cap_wf c) →
  active_space (k_spaces K) sp → name < 2 ^ 32 →
  (∀ ea, G !! ea ≠ Some (Slot sp name Held)) →
  (no_cap G sp name → Q 0 K) →
  (∀ ea c, G !! ea = Some (Slot sp name (Used c)) → Q ea K) →
  wp (ipc_entry_lookup sp name) Q K.
Proof.
  intros [Hz Hslots Hspaces] Hwf (S & HS & Hact) Hn Hheld Hnone Hsome. unfold ipc_entry_lookup.
  ksteps.
  destruct (Hspaces _ _ HS Hact) as [_ (m & Hm & Hm0 & Hmap) _ _].
  apply (wp_on_map_read _ _ S _ (λ v, v = word m name)); [done|by apply km_lookup_law|].
  intros _ ->. unfold word. destruct (m !! name) as [ea|] eqn:Hea; simpl.
  - destruct (decide (name = 0)) as [->|Hn0].
    + rewrite Hm0 in Hea. injection Hea as <-. destruct Hz as (Hg & Hz0 & _ & e & He & _ & Ht).
      keqb. ksteps. rewrite Ht. ksteps. apply Hnone.
      intros eb c Hb. destruct (Hslots _ _ Hb) as [_ [Hname _] _ _]. by destruct Hname.
    + apply Hmap in Hea as [st Hst]; [|done]. destruct (Hslots _ _ Hst) as [[Ha0 _] _ _ (e & He & _ & Hrep)].
      keqb. ksteps. destruct st as [| |c]; simpl in Hrep.
      * destruct Hrep as [-> _]. ksteps. apply Hnone. intros eb c Hb.
        assert (m !! name = Some eb) as Heb by (apply Hmap; eauto). assert (m !! name = Some ea) as Hea by (apply Hmap; eauto).
        congruence.
      * by destruct (Hheld ea).
      * destruct Hrep as [Hbits _]. pose proof (Hwf _ _ _ _ Hst) as Hc. rewrite Hbits, cap_type_nonzero by done.
        keqb. ksteps. rewrite Hbits, cap_type_nonzero by done. ksteps. by apply (Hsome _ c).
  - ksteps. apply Hnone. intros eb c Hb. destruct (decide (name = 0)) as [->|Hn0]; [congruence|].
    assert (m !! name = Some eb) by (apply Hmap; eauto). congruence.
Qed.

(** *** Deallocation *)

(** An entry goes back to the free list or disappears. *)
Definition freed G (ea sp name : N) G' : Prop :=
  G' = <[ea := Slot sp name Free]> G ∨ G' = delete ea G.

(** The spaces that are active, and those that exist, stay the same. *)
Definition same_spaces Sp Sp' : Prop :=
  ∀ a, (Sp' !! a = None ↔ Sp !! a = None) ∧ (active_space Sp' a ↔ active_space Sp a).

Lemma same_spaces_refl Sp : same_spaces Sp Sp.
Proof. done. Qed.

Lemma same_spaces_trans Sp1 Sp2 Sp3 : same_spaces Sp1 Sp2 → same_spaces Sp2 Sp3 → same_spaces Sp1 Sp3.
Proof. intros H12 H23 a. destruct (H12 a), (H23 a). by split; etrans. Qed.

Lemma same_spaces_insert Sp sp S S' :
  Sp !! sp = Some S → is_active S' = is_active S → same_spaces Sp (<[sp := S']> Sp).
Proof.
  intros HS Hact a. split; [|by eapply active_space_insert].
  destruct (decide (a = sp)) as [->|Hne]; [|by rewrite lookup_insert_ne]. by rewrite lookup_insert_eq, HS.
Qed.

Section Freed.
Context G (ea sp name : N) (Hg : G !! ea = Some (Slot sp name Held)).

Lemma freed_lookup G' eb s :
  freed G ea sp name G' → eb ≠ ea → G' !! eb = Some s ↔ G !! eb = Some s.
Proof. intros [->| ->] Hne; [by rewrite lookup_insert_ne|by rewrite lookup_delete_ne]. Qed.

Lemma freed_used G' eb sp0 name0 c :
  freed G ea sp name G' → G' !! eb = Some (Slot sp0 name0 (Used c)) ↔ G !! eb = Some (Slot sp0 name0 (Used c)).
Proof.
  intros HG. destruct (decide (eb = ea)) as [->|Hne]; [|by apply freed_lookup].
  rewrite Hg. destruct HG as [->| ->]; [by rewrite lookup_insert_eq|by rewrite lookup_delete_eq].
Qed.

Lemma freed_count G' P o : freed G ea sp name G' → count (holds P o) G' = count (holds P o) G.
Proof.
  intros [->| ->].
  - pose proof (count_update (holds P o) G ea _ (Slot sp name Free) Hg) as Hc. cbn in Hc. lia.
  - pose proof (count_delete (holds P o) G ea _ Hg) as Hc. cbn in Hc. lia.
Qed.

Lemma freed_state G' eb s :
  freed G ea sp name G' → G' !! eb = Some s → (∃ c, sl_state s = Used c) → G !! eb = Some s.
Proof. intros HG Hb [c Hc]. destruct s as [sp0 name0 st]. simpl in Hc. subst. by apply (freed_used G'). Qed.

Lemma freed_dn_ok G' o ot : freed G ea sp name G' → dn_ok G o ot → dn_ok G' o ot.
Proof.
  intros HG. destruct ot as [t|]; unfold dn_ok.
  - intros (Ht & Hs & Hi). split_and!; [done| |].
    + intros eb s c Hb Hc. eapply Hs; [|done]. by eapply (freed_state G'); eauto.
    + intros eb eb' s s' c c' Hb Hb' Hc Hc'. eapply (Hi eb eb' s s'); [| |done|done]; by eapply (freed_state G'); eauto.
  - intros Hs eb s c Hb Hc. eapply Hs; [|done]. by eapply (freed_state G'); eauto.
Qed.

Lemma obj_inv_freed Sp O n G' : freed G ea sp name G' → ObjInv Sp O G n → ObjInv Sp O G' n.
Proof.
  intros HG [Hcaps Hu Hobjs Hnk Hac]. split; [..|done|done].
  - intros eb sp0 name0 c Hb. eapply Hcaps. by apply (freed_used G').
  - intros x y s s' o Hx Hy Hsp Hs Hs'.
    assert (∀ st, named st = Some o → ∃ c, st = Used c) as Hused by (intros [| |c] ?; [done|done|by eauto]).
    eapply (Hu x y s s' o); [| |done|done|done]; eapply (freed_state G'); eauto.
  - intros a o Ho. destruct (Hobjs a o Ho) as (? & ? & Hok). split_and!; [done|done|]. destruct o as [p|ps].
    + eapply (port_ok_frame Sp O O G); try done; [|].
      * intros P. by apply freed_count.
      * intros t. by apply freed_dn_ok.
    + destruct Hok as [? Hr ? Hc]. split; [done| |done|]; unfold n_caps in *; by rewrite freed_count.
Qed.

Lemma mar_ok_freed Sp M B G' : freed G ea sp name G' → mar_ok Sp G M B → mar_ok Sp G' M B.
Proof.
  intros HG. apply mar_ok_table. intros sp0 name0. unfold waits_in.
  split; intros (eb & [sp1 name1 st] & Hb & Hs & Hn & Hma); destruct st as [| |c]; try done; exists eb; eexists;
    (split_and!; [|done|done|done]); [by apply (freed_used G')|by apply (freed_used G')].
Qed.
End Freed.

Lemma obj_inv_spaces Sp Sp' O G n : same_spaces Sp Sp' → ObjInv Sp O G n → ObjInv Sp' O G n.
Proof.
  intros HSp [Hcaps Hu Hobjs Hnk Hac]. split; [done|done| |done|done]. intros a o Ho. destruct (Hobjs a o Ho) as (Haddr & Hnone & Hok).
  split_and!; [done|by apply HSp|]. destruct o as [p|ps]; [|done]. 
  destruct Hok as [? ? ? ? ? ? ? ? ? Hnr ? ? ? ?]. split; try done. destruct Hnr as [? Hnr]. split; [done|].
  intros Hn. destruct (Hnr Hn) as [Hact ?]. split; [|done]. intros Ha. by apply Hact, HSp.
Qed.

Section Dealloc.
Context Sp E G (ea sp name : N) (S : ipc_space T).
Context (Hinv : EntInv Sp E G) (Hg : G !! ea = Some (Slot sp name Held)) (HS : Sp !! sp = Some S).
Context (Hact : is_active S = true).

Lemma ent_push e' S' :
  ie_name e' = name → ie_bits e' = 0 → ie_object e' = 0 → ie_next_free e' = is_free_list S →
  is_active S' = is_active S → is_map S' = is_map S → is_reverse_map S' = is_reverse_map S →
  is_free_list S' = ea → is_free_list_size S' = is_free_list_size S + 1 →
  is_free_list_size S < IS_FREE_LIST_SIZE_LIMIT → is_size S' = u64_sub (is_size S) 1 →
  EntInv (<[sp := S']> Sp) (<[ea := e']> E) (<[ea := Slot sp name Free]> G).
Proof.
  intros Hn Hb Ho Hnf HA HM HR HF HL Hlt Hz'. destruct Hinv as [Hz Hslots Hspaces].
  pose proof (active_space_insert Sp sp S S') as Hspace. split.
  - destruct Hz as (Hz & Hz0 & Hza & Hze). assert (zero_entry ≠ ea) by congruence.
    unfold zero_ok. by rewrite !lookup_insert_ne.
  - intros a s Ha. apply (slot_ok_spaces Sp); [intros ?; by apply Hspace|].
    destruct (decide (a = ea)) as [->|Hne].
    + rewrite lookup_insert_eq in Ha. injection Ha as <-. destruct (Hslots _ _ Hg) as [? ? ? _].
      split; [done|done|done|]. exists e'. rewrite lookup_insert_eq. by unfold entry_rep.
    + rewrite lookup_insert_ne in Ha by done. destruct (Hslots _ _ Ha). split; try done. by rewrite lookup_insert_ne.
  - intros a S0 Ha HS0. destruct (decide (a = sp)) as [->|Hne].
    + rewrite lookup_insert_eq in Ha. injection Ha as <-. destruct (Hspaces _ _ HS Hact) as [? Hm Hr Hf Hsz].
      split; [done| | | |rewrite Hz'; by eapply size_ok_free].
      * rewrite HM. by eapply map_ok_update.
      * rewrite HR. by eapply rev_ok_update.
      * rewrite HF, HL. destruct Hf as (l & Hl & Hnd & Hlen & Hle & Hin).
        assert (ea ∉ l) as Hea by (intros [nm Hx]%Hin; congruence).
        exists (ea :: l). split_and!.
        -- split; [done|]. exists e'. rewrite lookup_insert_eq. split; [done|]. rewrite Hnf.
           eapply free_chain_ext; [|exact Hl]. intros x Hx. apply lookup_insert_ne. by intros ->.
        -- by apply NoDup_cons_2.
        -- simpl. lia.
        -- unfold IS_FREE_LIST_SIZE_LIMIT in *. lia.
        -- intros x. rewrite elem_of_cons, Hin. destruct (decide (x = ea)) as [->|Hx].
           ++ rewrite lookup_insert_eq. split; [by eauto|by left].
           ++ rewrite lookup_insert_ne by done. split; [by intros [?|?]|by right].
    + rewrite lookup_insert_ne in Ha by done. destruct (Hspaces _ _ Ha HS0) as [? Hm Hr (l & Hl & Hnd & Hlen & Hle & Hin) Hsz].
      assert (ea ∉ l) as Hea by (intros [nm Hx]%Hin; congruence).
      split; [done| | | |by eapply size_ok_update].
      * by eapply map_ok_update.
      * by eapply rev_ok_update.
      * exists l. split_and!; try done.
        -- eapply free_chain_ext; [|exact Hl]. intros x Hx. apply lookup_insert_ne. by intros ->.
        -- intros x. rewrite Hin. destruct (decide (x = ea)) as [->|Hx]; [|by rewrite lookup_insert_ne].
           rewrite lookup_insert_eq, Hg. split; intros [nm Hx]; congruence.
Qed.

Lemma rev_ok_delete sp0 t : rev_ok G sp0 t → rev_ok (delete ea G) sp0 t.
Proof.
  apply rev_ok_ext. intros eb pa. split.
  - intros (s & [_ Hs]%lookup_delete_Some & ?). eauto.
  - intros (s & Hs & Hsp & Hp). exists s. rewrite lookup_delete_ne; [done|]. intros ->. rewrite Hg in Hs. by injection Hs as <-.
Qed.

Lemma free_ok_delete sp0 f len : free_ok E G sp0 f len → free_ok (delete ea E) (delete ea G) sp0 f len.
Proof.
  intros (l & Hl & Hnd & Hlen & Hle & Hin). assert (ea ∉ l) as Hea by (intros [nm Hx]%Hin; congruence).
  exists l. split_and!; try done.
  - eapply free_chain_ext; [|exact Hl]. intros x Hx. apply lookup_delete_ne. by intros ->.
  - intros x. rewrite Hin. destruct (decide (x = ea)) as [->|Hx]; [|by rewrite lookup_delete_ne].
    rewrite lookup_delete_eq, Hg. split; intros [nm Hx]; congruence.
Qed.

Lemma map_ok_delete_ne sp0 t : sp0 ≠ sp → map_ok G sp0 t → map_ok (delete ea G) sp0 t.
Proof.
  intros Hne (m & Hm & H0 & Hmap). exists m. split_and!; [done|done|]. intros k a Hk. rewrite Hmap by done.
  destruct (decide (a = ea)) as [->|Ha]; [|by rewrite lookup_delete_ne].
  rewrite lookup_delete_eq, Hg. split; intros [st Hx]; congruence.
Qed.

Lemma map_ok_delete t : name ≠ 0 → name < 2 ^ 32 → map_ok G sp t → wp (km_remove name) (λ _ t', map_ok (delete ea G) sp t') t.
Proof.
  intros Hn0 Hn (m & Hm & H0 & Hmap). eapply wp_mono; [by apply km_remove_law|]. intros v t' [_ Hm'].
  exists (delete name m). split_and!; [done|by rewrite lookup_delete_ne|]. intros k a Hk.
  assert (m !! name = Some ea) as Hea by (apply Hmap; eauto).
  rewrite !lookup_delete_Some, Hmap by done. split.
  - intros [Hkn [st Hst]]. exists st. rewrite lookup_delete_ne; [done|]. intros <-. congruence.
  - intros [st [Hae Hst]%lookup_delete_Some]. split; [|by eauto]. intros <-.
    assert (m !! name = Some a) by (apply Hmap; eauto). congruence.
Qed.

Lemma ent_remove S' :
  is_active S' = is_active S → map_ok (delete ea G) sp (is_map S') → is_reverse_map S' = is_reverse_map S →
  is_free_list S' = is_free_list S → is_free_list_size S' = is_free_list_size S → is_size S' = u64_sub (is_size S) 1 →
  EntInv (<[sp := S']> Sp) (delete ea E) (delete ea G).
Proof.
  intros HA HM HR HF HL Hz'. destruct Hinv as [Hz Hslots Hspaces].
  pose proof (active_space_insert Sp sp S S') as Hspace. split.
  - destruct Hz as (Hz & Hz0 & Hza & Hze). assert (zero_entry ≠ ea) by congruence.
    unfold zero_ok. by rewrite !lookup_delete_ne.
  - intros a s [Hne Ha]%lookup_delete_Some. apply (slot_ok_spaces Sp); [intros ?; by apply Hspace|].
    destruct (Hslots _ _ Ha). split; try done. by rewrite lookup_delete_ne.
  - intros a S0 Ha HS0. destruct (decide (a = sp)) as [->|Hne].
    + rewrite lookup_insert_eq in Ha. injection Ha as <-. destruct (Hspaces _ _ HS Hact) as [? Hm Hr Hf Hsz].
      split; [done|done| | |rewrite Hz'; by eapply size_ok_delete].
      * rewrite HR. by apply rev_ok_delete.
      * rewrite HF, HL. by apply free_ok_delete.
    + rewrite lookup_insert_ne in Ha by done. destruct (Hspaces _ _ Ha HS0) as [? Hm Hr Hf Hsz].
      split; [done|by apply map_ok_delete_ne|by apply rev_ok_delete|by apply free_ok_delete|by eapply size_ok_delete_ne].
Qed.
End Dealloc.

Lemma set_ie_request_read v e : v < 2 ^ 32 → ie_request (set_ie_request v e) = v.
Proof.
  intros Hv. unfold ie_request, set_ie_request, set_ie_index. cbn. unfold u32, wrap.
  pose proof (N.Div0.div_mod (ie_index e) (2 ^ 32)) as Hd. set (q := ie_index e / 2 ^ 32) in *.
  set (r := ie_index e mod 2 ^ 32) in *. replace (ie_index e - r + v) with (v + q * 2 ^ 32) by lia.
  rewrite N.Div0.mod_add. by apply N.mod_small.
Qed.

Lemma ipc_entry_dealloc_spec (K : kernel T C) G ea sp name e Q :
  EntInv (k_spaces K) (k_entries K) G → (∀ i, i < 6 → is_Some (k_caches K !! i)) →
  G !! ea = Some (Slot sp name Held) → k_entries K !! ea = Some e → ie_object e = 0 → ie_request e = 0 →
  (∀ Sp' E' Cc' G', EntInv Sp' E' G' → freed G ea sp name G' → same_spaces (k_spaces K) Sp' →
     (∀ i, i < 6 → is_Some (Cc' !! i)) →
     Q tt (set_k_caches Cc' (set_k_entries E' (set_k_spaces Sp' K)))) →
  wp (ipc_entry_dealloc sp name ea) Q K.
Proof.
  destruct K as [Sp E O M B Th Km Ts Ca Cc]. ksimpl. intros Hinv Hcc Hg He Ho Hr HQ.
  destruct (ei_slots _ _ _ Hinv _ _ Hg) as [_ [Hn0 Hnd] (S & HS & Hact) (e0 & He0 & Hrep & _)].
  rewrite He in He0. injection He0 as <-. simpl in *.
  destruct (ei_spaces _ _ _ Hinv _ _ HS Hact) as [_ Hmap _ _].
  unfold ipc_entry_dealloc. ksteps. rewrite Ho, Hr. ksteps.
  destruct (N.ltb_spec (is_free_list_size S) IS_FREE_LIST_SIZE_LIMIT) as [Hlt|Hge].
  - ksteps. rewrite ?lookup_insert_eq. ksteps.
    match goal with |- Q _ (Kernel ?Sp' ?E' _ _ _ _ _ _ _ _) => apply (HQ Sp' E' Cc (<[ea := Slot sp name Free]> G)) end;
      [|by left| |done].
    + rewrite !insert_insert_eq. eapply ent_push; try done.
      * cbn. by rewrite N.land_0_r.
      * cbn. unfold u64, wrap. rewrite N.mod_small; [done|]. unfold IS_FREE_LIST_SIZE_LIMIT in Hlt. lia.
    + rewrite !insert_insert_eq. by eapply same_spaces_insert.
  - kstep. eapply wp_on_map; [klookup|].
    eapply wp_mono; [apply (map_ok_delete _ ea sp name Hg); [done| |done]; unfold MACH_PORT_NAME_DEAD in *; lia|].
    intros v t Ht. cbn beta. unfold ie_free. ksteps. unfold cache_free. ksteps.
    destruct (Hcc 0) as [c Hc]; [lia|]. eapply wp_deref; [done|]. ksteps.
    match goal with |- Q _ (Kernel ?Sp' ?E' _ _ _ _ _ _ _ ?Cc') => apply (HQ Sp' E' Cc' (delete ea G)) end; [|by right| |].
    + rewrite insert_insert_eq. by eapply ent_remove.
    + rewrite insert_insert_eq. by eapply same_spaces_insert.
    + intros i Hi. destruct (decide (i = ipc_entry_cache)) as [->|Hne]; [by rewrite lookup_insert_eq|].
      rewrite lookup_insert_ne by done. by apply Hcc.
Qed.
End Entries.

Create Rewrite HintDb caps.
#[export] Hint Rewrite @cap_urefs @cap_type @cap_has_send @cap_has_receive @cap_has_send_once @cap_has_port_set
  @cap_has_dead_name @cap_has_send_receive @cap_has_send_rights @cap_has_port_rights @cap_has_port_or_dead
  @cap_has_marequest using assumption : caps.

(** Decides the tests on the bits of a capability of a known type. *)
Ltac captests :=
  autorewrite with caps;
  repeat match goal with Ht : c_type _ = _ |- _ => progress (rewrite ?Ht) end;
  cbn [is_send is_recv is_sonce is_named type_code bool_decide decide negb orb andb];
  repeat match goal with
  | |- context [2 ^ 16 * ?k =? ?m] =>
      let v := eval vm_compute in (2 ^ 16 * k =? m) in
      lazymatch v with true => idtac | false => idtac end; change (2 ^ 16 * k =? m) with v
  | |- context [bool_decide (@eq ctype ?a ?b)] =>
      let v := eval vm_compute in (bool_decide (@eq ctype a b)) in
      lazymatch v with true => idtac | false => idtac end; change (bool_decide (@eq ctype a b)) with v
  end; cbn [negb orb andb].
