(* ===== verification/IpcRelease.v ===== *)
(** Specifications of the steps that several routines share: dropping a
    reference, cancelling requests, and the detection of dead ports
    ([ipc_right_check]). *)

From S2P Require Import Prelude Kmem Rdxtree RdxtreeInv RdxtreeSpec RdxtreeMap IpcTypes IpcEntry IpcPort IpcMarequest IpcRight IpcBits IpcInv IpcUpdate IpcDn IpcMar IpcStep.

Open Scope N_scope.

Lemma decr_pred x : 0 < x < 2 ^ 32 → decr x = x - 1.
Proof.
  intros Hx. unfold decr, u32_sub, u32, wrap. change (1 mod 2 ^ 32) with 1.
  replace (x + (2 ^ 32 - 1)) with (x - 1 + 1 * 2 ^ 32) by lia. rewrite N.Div0.mod_add. apply N.mod_small. lia.
Qed.
Lemma incr_succ x : x + 1 < 2 ^ 32 → incr x = x + 1.
Proof. intros Hx. by apply N.mod_small. Qed.

(** Computes the counts of a port that was just written. *)
Ltac psimpl :=
  repeat match goal with
  | |- context [ip_references ?x] =>
      lazymatch x with
      | ip_release ?q => change (ip_references x) with (decr (ip_references q))
      | ip_reference ?q => change (ip_references x) with (incr (ip_references q))
      | _ ?q => change (ip_references x) with (ip_references q)
      end
  end;
  cbn [ip_srights ip_sorights ip_dnrequests ip_mscount ip_data ip_nsrequest ip_pdrequest ip_pset
       set_ip_srights set_ip_sorights set_ip_dnrequests set_ip_mscount set_ip_nsrequest set_ip_data
       ip_release ip_reference upd_target set_ip_target];
  repeat match goal with
  | |- context [decr ?x] => rewrite (decr_pred x) by lia
  | |- context [incr ?x] => rewrite (incr_succ x) by lia
  end.

Section Release.
Context `{!Config} {T C : Type} `{!KeyMap T} `{!KmemCache C}.
Implicit Types (Sp : gmap N (ipc_space T)) (E : gmap N ipc_entry) (O : gmap N kobject) (G : gmap N eslot) (n : naked).

(** ** Queues *)

Lemma queue_ok_objects O O' Th Km a o :
  queue_ok O Th Km a o →
  (∀ k m p, k ∈ imq_messages (ipt_messages (kobj_target o)) → Km !! k = Some m →
     O !! msgh_remote_port m = Some (KPort p) → queue_of p (msgh_remote_port m) = a →
     ∃ p', O' !! msgh_remote_port m = Some (KPort p') ∧ ip_pset p' = ip_pset p) →
  queue_ok O' Th Km a o.
Proof.
  intros [Hth Hms Hnd Hone Hport] HO. split; [done| |done|done|done].
  intros k Hk. destruct (Hms k Hk) as (m & p & Hm & Hp & Hq). destruct (HO k m p Hk Hm Hp Hq) as (p' & Hp' & Hps).
  exists m, p'. split_and!; [done|done|]. unfold queue_of in *. by rewrite Hps.
Qed.

(** The queues of a port stay as they are. *)
Lemma queues_same O Th Km pa p p' :
  (∀ a o, O !! a = Some o → queue_ok O Th Km a o) → O !! pa = Some (KPort p) →
  ip_active p' = ip_active p → ip_pset p' = ip_pset p → ip_messages p' = ip_messages p → ip_blocked p' = ip_blocked p →
  ∀ a o, <[pa := KPort p']> O !! a = Some o → queue_ok (<[pa := KPort p']> O) Th Km a o.
Proof.
  intros Hq Hp Hact Hps Hms Hbl.
  assert (∀ m q a, O !! a = Some (KPort q) → msgh_remote_port m = a →
    ∃ q', <[pa := KPort p']> O !! a = Some (KPort q') ∧ ip_pset q' = ip_pset q) as HO.
  { intros m q a Ha _. destruct (decide (a = pa)) as [->|Hne].
    - rewrite Hp in Ha. injection Ha as <-. exists p'. by rewrite lookup_insert_eq.
    - exists q. by rewrite lookup_insert_ne. }
  intros a o [[<- <-]|[Hne Ha]]%lookup_insert_Some.
  - destruct (Hq _ _ Hp) as [Hth Hmsg Hnd Hone Hport]. unfold ip_messages in *. split; cbn [kobj_target] in *.
    + rewrite Hms. done.
    + rewrite Hms. intros k Hk. destruct (Hmsg k Hk) as (m & q & Hm & Hqp & Hof).
      destruct (HO m q _ Hqp eq_refl) as (q' & Hq' & Hps'). exists m, q'. split_and!; [done|done|].
      unfold queue_of in *. by rewrite Hps'.
    + by rewrite Hms.
    + by rewrite Hms.
    + intros q [= <-]. unfold ip_messages. rewrite Hbl, Hps, Hact, Hms. by apply Hport.
  - eapply queue_ok_objects; [by apply Hq|]. intros k m q Hk Hm Hqp _. by eapply HO.
Qed.

Lemma queues_update O Th Km pa p p' :
  (∀ a o, O !! a = Some o → queue_ok O Th Km a o) → O !! pa = Some (KPort p) → same_place p p' →
  ∀ a o, <[pa := KPort p']> O !! a = Some o → queue_ok (<[pa := KPort p']> O) Th Km a o.
Proof.
  intros Hq Hp Hsame. pose proof (same_place_active _ _ Hsame). destruct Hsame as [_ _ _ _ _ _ Hps Hms Hbl].
  by eapply queues_same.
Qed.

Lemma queues_delete O Th Km pa p :
  (∀ a o, O !! a = Some o → queue_ok O Th Km a o) → O !! pa = Some (KPort p) → ip_active p = false →
  ip_pset p = IPS_NULL →
  ∀ a o, delete pa O !! a = Some o → queue_ok (delete pa O) Th Km a o.
Proof.
  intros Hq Hp Hdead Hps a o [Hne Ha]%lookup_delete_Some. eapply queue_ok_objects; [by apply Hq|].
  intros k m q Hk Hm Hqp Hof. exists q. rewrite lookup_delete_ne; [done|]. intros Heq.
  rewrite <- Heq, Hp in Hqp. injection Hqp as <-. unfold queue_of in Hof. rewrite Hps in Hof. simpl in Hof. congruence.
Qed.

(** ** References *)

Lemma ip_release_refs p : 0 < ip_references p < 2 ^ 32 → ip_references (ip_release p) = ip_references p - 1.
Proof. apply decr_pred. Qed.
Lemma ip_reference_refs p : ip_references p + 1 < 2 ^ 32 → ip_references (ip_reference p) = ip_references p + 1.
Proof. apply incr_succ. Qed.

Lemma cache_free_spec (K : kernel T C) i a Q :
  (∀ j, j < 6 → is_Some (k_caches K !! j)) → i < 6 →
  (∀ Cc', (∀ j, j < 6 → is_Some (Cc' !! j)) → Q tt (set_k_caches Cc' K)) → wp (cache_free i a) Q K.
Proof.
  intros Hcc Hi HQ. unfold cache_free. ksteps. destruct (Hcc i Hi) as [c Hc]. eapply wp_deref; [done|]. ksteps.
  apply HQ. intros j Hj. destruct (decide (j = i)) as [->|Hne]; [by rewrite lookup_insert_eq|].
  rewrite lookup_insert_ne by done. by apply Hcc.
Qed.

(** [io_check_unlock] on a port. *)
Lemma port_check_unlock_spec (K : kernel T C) pa p Q :
  k_objects K !! pa = Some (KPort p) → io_otype (ip_object p) = IOT_PORT →
  (∀ i, i < 6 → is_Some (k_caches K !! i)) →
  (ip_references p ≠ 0 → Q tt K) →
  (ip_references p = 0 → ∀ Cc', (∀ i, i < 6 → is_Some (Cc' !! i)) →
     Q tt (set_k_caches Cc' (set_k_objects (delete pa (k_objects K)) K))) →
  wp (io_check_unlock pa) Q K.
Proof.
  intros Hp Ht Hcc Hlive Hfree. unfold io_check_unlock. ksteps. cbn [kobj_target].
  change (io_references (ipt_object (ip_target p))) with (ip_references p).
  destruct (N.eqb_spec (ip_references p) 0) as [H0|H0]; [|ksteps; auto].
  unfold io_free. ksteps. change (ipt_object (ip_target p)) with (ip_object p). rewrite Ht.
  apply cache_free_spec; [done|reflexivity|]. intros Cc' Hcc'. by apply Hfree.
Qed.

Lemma ipc_object_release_spec (K : kernel T C) pa p Q :
  k_objects K !! pa = Some (KPort p) → io_otype (ip_object p) = IOT_PORT → 0 < ip_references p < 2 ^ 32 →
  (∀ i, i < 6 → is_Some (k_caches K !! i)) →
  (ip_references p ≠ 1 → Q tt (set_k_objects (<[pa := KPort (ip_release p)]> (k_objects K)) K)) →
  (ip_references p = 1 → ∀ Cc', (∀ i, i < 6 → is_Some (Cc' !! i)) →
     Q tt (set_k_caches Cc' (set_k_objects (delete pa (k_objects K)) K))) →
  wp (ipc_object_release pa) Q K.
Proof.
  intros Hp Ht Hr Hcc Hlive Hfree. unfold ipc_object_release. ksteps. cbn [kobj_target].
  change (io_references (ipt_object (ip_target p))) with (ip_references p).
  rewrite (proj2 (N.eqb_neq (ip_references p) 0)) by lia. ksteps.
  apply (port_check_unlock_spec _ _ (ip_release p)); [klookup|done|done| |].
  - rewrite ip_release_refs by done. intros H1. apply Hlive. lia.
  - rewrite ip_release_refs by done. intros H1 Cc' Hcc'. ksimpl. rewrite delete_insert_eq.
    apply Hfree; [lia|done].
Qed.

(** ** Requests and the reverse map *)

Lemma ent_name_inj Sp E G ea eb sp name st st' :
  EntInv Sp E G → G !! ea = Some (Slot sp name st) → G !! eb = Some (Slot sp name st') → ea = eb.
Proof.
  intros Hinv Ha Hb. destruct (ei_slots _ _ _ Hinv _ _ Ha) as [_ [Hn _] (S & HS & Hact) _].
  destruct (ei_spaces _ _ _ Hinv _ _ HS Hact) as [_ (m & _ & _ & Hmap) _ _]. simpl in *.
  assert (m !! name = Some ea) by (apply Hmap; eauto). assert (m !! name = Some eb) by (apply Hmap; eauto). congruence.
Qed.

(** An entry is the only one of its name. *)
Definition sole G (ea sp name : N) : Prop := ∀ eb st, G !! eb = Some (Slot sp name st) → eb = ea.

Lemma ent_sole Sp E G ea sp name st : EntInv Sp E G → G !! ea = Some (Slot sp name st) → sole G ea sp name.
Proof. intros Hinv Hg eb st' Hb. by eapply ent_name_inj. Qed.

Lemma ipc_marequest_cancel_spec (K : kernel T C) G ea sp name st st' Q :
  active_space (k_spaces K) sp → name ≠ 0 → sole G ea sp name →
  mar_ok (k_spaces K) G (k_marequests K) (k_buckets K) →
  G !! ea = Some (Slot sp name st) → ma_of st = true → ma_of st' = false →
  (∀ M' B', mar_ok (k_spaces K) (<[ea := Slot sp name st']> G) M' B' →
     Q tt (set_k_marequests M' (set_k_buckets B' K))) →
  wp (ipc_marequest_cancel sp name) Q K.
Proof.
  intros Hspa Hn0 Hsole Hmar Hg Hma Hma' HQ. pose proof Hspa as (S & HS & Hact).
  destruct (mo_bucket _ _ _ _ Hmar sp name) as [l Hl].
  destruct (proj2 (mo_caps _ _ _ _ Hmar sp name l Hspa Hl)) as [a0 Ha0]; [by exists ea; eexists|].
  unfold ipc_marequest_cancel, marequest_unlink, load_bucket, put_bucket. ksteps.
  eapply wp_deref; [done|]. ksteps. eapply wp_mono.
  { apply (marequest_find_spec _ l sp name). intros a Ha. destruct (mo_member _ _ _ _ Hmar _ _ _ Hl Ha) as (r & ? & _). eauto. }
  intros x K' [-> Hx]. destruct x as [[a l']|]; [|by destruct (Hx a0)].
  destruct Hx as (l1 & l2 & -> & -> & Ha & r & Hr & Hs & Hm). ksteps. eapply wp_deref; [done|]. cbv beta iota. ksteps.
  edestruct (mar_ok_remove (k_spaces K) G (<[ea := Slot sp name st']> G)) as [Hok _]; try done.
  2: { apply HQ. exact Hok. }
  intros sp0 name0. unfold waits_in. split.
  - intros (eb & s & [[<- <-]|[Hne Hb]]%lookup_insert_Some & Hsp0 & Hname0 & Hw); simpl in *; [congruence|].
    split; [by exists eb, s|]. intros [-> ->]. destruct s as [sp1 name1 st1]. simpl in *. subst sp1 name1.
    by apply Hne, eq_sym, (Hsole eb st1).
  - intros [(eb & s & Hb & Hsp0 & Hname0 & Hw) Hneq]. exists eb, s. rewrite lookup_insert_ne; [done|]. intros <-.
    rewrite Hg in Hb. injection Hb as <-. simpl in *. by destruct Hneq.
Qed.

Lemma ipc_reverse_remove_spec (K : kernel T C) G ea sp name st st' pa S Q :
  sp ≠ 0 → G !! ea = Some (Slot sp name st) → k_spaces K !! sp = Some S → rev_ok G sp (is_reverse_map S) →
  obj_addr pa → pure_send st = Some pa → pure_send st' = None →
  (∀ v t, rev_ok (<[ea := Slot sp name st']> G) sp t →
     Q v (set_k_spaces (<[sp := set_is_reverse_map t S]> (k_spaces K)) K)) →
  wp (ipc_reverse_remove sp pa) Q K.
Proof.
  intros Hsp0 Hg HS Hrev Hpa Hst Hst' HQ.
  pose proof Hpa as (Hpa0 & Hal & _). unfold ipc_reverse_remove, check_key. rewrite Hal. keqb. ksteps.
  apply (wp_on_reverse_map _ _ S); [done|]. eapply wp_mono; [by eapply (rev_ok_remove G sp _ ea name st st' pa)|].
  intros v t Ht. by apply HQ.
Qed.

Lemma ipc_reverse_insert_spec (K : kernel T C) G ea sp name st st' pa S Q :
  sp ≠ 0 → G !! ea = Some (Slot sp name st) → k_spaces K !! sp = Some S → rev_ok G sp (is_reverse_map S) →
  obj_addr pa → ea ≠ 0 → aligned ea → roomy (is_reverse_map S) →
  pure_send st = None → pure_send st' = Some pa →
  (∀ eb s, G !! eb = Some s → sl_space s = sp → pure_send (sl_state s) ≠ Some pa) →
  (∀ v t, rev_ok (<[ea := Slot sp name st']> G) sp t →
     Q v (set_k_spaces (<[sp := set_is_reverse_map t S]> (k_spaces K)) K)) →
  wp (ipc_reverse_insert sp pa ea) Q K.
Proof.
  intros Hsp0 Hg HS Hrev Hpa Hea0 Hea Hroom Hst Hst' Hno HQ.
  pose proof Hpa as (Hpa0 & Hal & _). unfold ipc_reverse_insert, check_key. rewrite Hal. keqb. ksteps.
  apply (wp_on_reverse_map _ _ S); [done|].
  eapply wp_mono; [by eapply (rev_ok_insert G sp _ ea name st st' pa)|]. intros v t Ht. by apply HQ.
Qed.

(** ** Dead ports *)

(** What becomes of a capability when its port has died. *)
Definition dead_cap (c : cap) : cap := Cap TDead 0 (c_urefs c + Nb (negb (c_req c =? 0))) 0 false.

Lemma dead_cap_wf c : cap_wf c → c_type c = TSend ∨ c_type c = TSonce → cap_wf (dead_cap c).
Proof.
  unfold cap_wf, dead_cap, MACH_PORT_UREFS_MAX. intros Hc [Ht|Ht]; rewrite Ht in Hc; cbn [c_type c_obj c_urefs c_req c_ma];
    destruct (c_req c =? 0); cbn [negb Nb]; lia.
Qed.

Lemma dead_bits u q :
  u < 2 ^ 16 → N.lor (N.ldiff (bits_of u q) IE_BITS_TYPE_MASK) MACH_PORT_TYPE_DEAD_NAME =
  bits_of u (N.lor (N.ldiff q 31) 16).
Proof. intros Hu. etransitivity; [|by apply (lor_high u (N.ldiff q 31) 16)]. f_equal. by apply (ldiff_high u q 31). Qed.

Lemma cap_ok_port_of O sp name c :
  cap_ok O sp name c → c_type c ≠ TDead → c_type c ≠ TPset →
  ∃ p, O !! c_obj c = Some (KPort p) ∧ (is_recv (c_type c) = true → received_at p sp name).
Proof. intros [_ Hc] Hd Hp. by destruct (c_type c). Qed.

Lemma naked_ext Sp O G n n' : (∀ a, n' a = n a) → ObjInv Sp O G n → ObjInv Sp O G n'.
Proof.
  intros Hn [Hcaps Hu Hobjs Hnk Hac]. split; [done|done| |intros a; rewrite Hn; apply Hnk|done]. intros a o Ho. destruct (Hobjs a o Ho) as (? & ? & Hok).
  split_and!; [done|done|]. destruct o as [p|s].
  - by eapply (port_ok_frame Sp O O G).
  - destruct Hok. by split; rewrite ?Hn.
Qed.

Lemma upd_naked_id n pa a : upd_naked n pa (n pa) a = n a.
Proof. destruct (decide (a = pa)) as [->|]; [apply upd_naked_eq|by apply upd_naked_ne]. Qed.

(** A dead port loses a capability: the reference goes, and the port with the
    last one. *)
Lemma obj_drop_dead Sp O G n ea sp name st st' pa p :
  ObjInv Sp O G n → G !! ea = Some (Slot sp name st) → O !! pa = Some (KPort p) → ip_active p = false →
  only pa st → only pa st' → on (λ _, true) pa st = 1 → vacant st' →
  (ip_references p ≠ 1 →
   ObjInv Sp (<[pa := KPort (ip_release p)]> O) (<[ea := Slot sp name st']> G) n) ∧
  (ip_references p = 1 → ObjInv Sp (delete pa O) (<[ea := Slot sp name st']> G) n).
Proof.
  intros Hinv Hg Hp Hdead Hst Hst' Hon Hvac. destruct (oi_objects _ _ _ _ Hinv _ _ Hp) as (Haddr & _ & Hport).
  assert (pa ≠ 0) as Hpa0 by apply Haddr.
  assert (∀ P, on P pa st' = 0) as Hoff.
  { intros P. destruct st' as [| |c]; [done|done|]. destruct Hvac as [Ht Hwf]. unfold cap_wf in Hwf. rewrite Ht in Hwf.
    unfold on, holds. simpl. destruct Hwf as (-> & _). rewrite (proj2 (N.eqb_neq 0 pa)) by congruence. done. }
  assert (on is_recv pa st = 0) as Hnr.
  { pose proof (po_recv _ _ _ _ _ _ Hport) as Hr. rewrite Hdead in Hr. cbn [Nb] in Hr. unfold n_recv in Hr.
    pose proof (n_update is_recv G ea sp name st st' pa Hg). specialize (Hoff is_recv). lia. }
  assert (∀ o, named st' = Some o → named st = Some o ∨ unnamed_in G sp o) as Hun.
  { intros o Ho. destruct st' as [| |c]; try done. simpl in Ho. destruct Hvac as [Ht _]. by rewrite Ht in Ho. }
  split; intros Href.
  - eapply naked_ext; [symmetry; apply upd_naked_id|].
    pose proof (po_pos _ _ _ _ _ _ Hport). assert (same_place p (ip_release p)) as Hsame by done.
    eapply (obj_update Sp O G n pa p (n pa)); try done.
    + intros c' ->. destruct Hvac as [Ht Hwf]. split; [done|]. by rewrite Ht.
    + eapply port_ok_step; try done; rewrite ?Hoff, ?Hon, ?Hnr, ?ip_release_refs by done; try lia.
      all: try by destruct Hport. all: try congruence.
      all: change (ip_sorights (ip_release p)) with (ip_sorights p); first [lia|apply Hport].
  - eapply naked_ext; [symmetry; apply upd_naked_id|].
    eapply (obj_delete_cap Sp O G n pa p (n pa)); try done.
    { pose proof (po_refs _ _ _ _ _ _ Hport). pose proof (po_naked _ _ _ _ _ _ Hport).
      pose proof (n_update (λ _, true) G ea sp name st st' pa Hg) as Hc. rewrite Hon, Hoff in Hc. unfold n_caps, nk_rights in *. lia. }
    unfold on in Hon. change (holds (λ _, true) pa (Slot sp name st)) with (holds (λ _, true) pa (Slot 0 0 st)).
    by destruct (holds (λ _, true) pa (Slot 0 0 st)).
Qed.
End Release.
