(* ===== verification/IpcCheck.v ===== *)
(** [ipc_right_check]: a capability whose port has died becomes a dead name
    the first time it is looked at. *)

From S2P Require Import Prelude Kmem Rdxtree RdxtreeInv RdxtreeSpec RdxtreeMap IpcTypes IpcEntry IpcPort IpcMarequest IpcRight IpcBits IpcInv IpcUpdate IpcDn IpcMar IpcStep IpcRelease.

Open Scope N_scope.

Section Check.
Context `{!Config} {T C : Type} `{!KeyMap T} `{!KmemCache C}.
Implicit Types (K : kernel T C) (G : gmap N eslot) (n : naked).

(** No notification was sent, and no space appeared, died or disappeared. *)
Record quiet K K' : Prop := {
  qt_calls : k_calls K' = k_calls K;
  qt_spaces : same_spaces (k_spaces K) (k_spaces K');
}.

Lemma quiet_refl K : quiet K K.
Proof. by split. Qed.

(** An entry that holds a capability for a port, and the port. *)
Lemma inv_port_cap K G n ea sp name c :
  Inv K G n → G !! ea = Some (Slot sp name (Used c)) → c_type c ≠ TDead → c_type c ≠ TPset →
  cap_wf c ∧ obj_addr (c_obj c) ∧
  ∃ p e S, k_objects K !! c_obj c = Some (KPort p) ∧ k_entries K !! ea = Some e ∧
    k_spaces K !! sp = Some S ∧ is_active S = true ∧
    port_ok (k_spaces K) (k_objects K) G n (c_obj c) p ∧
    ie_bits e = cap_bits c ∧ ie_object e = c_obj c ∧ ie_request e = c_req c ∧ ie_name e = name ∧
    (is_recv (c_type c) = true → received_at p sp name).
Proof.
  intros [_ Hent Hobj _ _] Hg Hd Hp. pose proof (oi_caps _ _ _ _ Hobj _ _ _ _ Hg) as Hc.
  destruct (cap_ok_port_of _ _ _ _ Hc Hd Hp) as (p & Hpo & Hr).
  destruct (oi_objects _ _ _ _ Hobj _ _ Hpo) as (Haddr & _ & Hok).
  destruct (ei_slots _ _ _ Hent _ _ Hg) as [_ _ (S & HS & Hact) (e & He & Hn & Hb & Ho & Hq)]. simpl in *.
  split; [apply Hc|]. split; [done|]. exists p, e, S. done.
Qed.

Lemma check_live K G n ea sp name c p Q :
  Inv K G n → G !! ea = Some (Slot sp name (Used c)) → c_type c ≠ TDead → c_type c ≠ TPset →
  k_objects K !! c_obj c = Some (KPort p) → ip_active p = true →
  Q false K → wp (ipc_right_check sp (c_obj c) name ea) Q K.
Proof.
  intros Hinv Hg Hd Hps Hp Hact HQ.
  destruct (inv_port_cap _ _ _ _ _ _ _ Hinv Hg Hd Hps) as (_ & _ & p' & e & S & _ & He & HS & HSa & _ & _ & Ho & _).
  unfold ipc_right_check. ksteps. rewrite Ho, N.eqb_refl. ksteps. rewrite Hact. by ksteps.
Qed.

(** The first half of the dead case: the entry leaves the reverse map and gives
    up its msg-accepted request. *)
Lemma check_dead_unlink K G n ea sp name c S st' Q :
  Inv K G n → G !! ea = Some (Slot sp name (Used c)) → c_type c = TSend ∨ c_type c = TSonce →
  k_spaces K !! sp = Some S → ma_of st' = false → pure_send st' = None →
  (∀ bits t M' B', (∃ q, bits = bits_of (c_urefs c) q ∧ N.lor (N.ldiff q 31) 16 = 16) →
     rev_ok (<[ea := Slot sp name st']> G) sp t →
     mar_ok (k_spaces K) (<[ea := Slot sp name st']> G) M' B' →
     Q bits (set_k_spaces (<[sp := set_is_reverse_map t S]> (k_spaces K))
               (set_k_marequests M' (set_k_buckets B' K)))) →
  wp (if has (cap_bits c) MACH_PORT_TYPE_SEND then
        check (IE_BITS_TYPE (cap_bits c) =? MACH_PORT_TYPE_SEND);;
        bits ← (if has (cap_bits c) IE_BITS_MAREQUEST then
                  ipc_marequest_cancel sp name;;
                  mret (N.ldiff (cap_bits c) IE_BITS_MAREQUEST)
                else mret (cap_bits c));
        _ ← ipc_reverse_remove sp (c_obj c);
        mret bits
      else
        check (IE_BITS_TYPE (cap_bits c) =? MACH_PORT_TYPE_SEND_ONCE);;
        check (IE_BITS_UREFS (cap_bits c) =? 1);;
        check (negb (has (cap_bits c) IE_BITS_MAREQUEST));;
        mret (cap_bits c)) Q K.
Proof.
  destruct K as [Sp E O M B Th Km Ts Ca Cc]. intros Hinv Hg Ht HS Hma' Hps' HQ.
  destruct (inv_port_cap _ _ _ _ _ _ _ Hinv Hg) as (Hwf & Haddr & _); [destruct Ht; congruence..|].
  destruct Hinv as [Hcc Hent Hobj Hmar Hq]. ksimpl_all.
  destruct (ei_slots _ _ _ Hent _ _ Hg) as [_ [Hn0 _] Hspa _]. pose proof Hspa as (S' & HS' & HSa).
  simpl in HS'. rewrite HS in HS'. injection HS' as <-. pose proof (ent_sole _ _ _ _ _ _ _ Hent Hg) as Hsole.
  destruct (ei_spaces _ _ _ Hent _ _ HS HSa) as [Hsp0 _ Hrev _]. pose proof (cap_urefs_lt c Hwf) as Hu.
  destruct Ht as [Ht|Ht]; captests; ksteps.
  - assert (pure_send (Used c) = Some (c_obj c)) as Hpure by (simpl; by rewrite Ht).
    destruct (c_ma c) eqn:Hma; ksteps.
    + eapply (ipc_marequest_cancel_spec _ G ea sp name (Used c) st'); try done.
      intros M' B' Hmar'. ksteps. eapply (ipc_reverse_remove_spec _ G ea sp name (Used c) st'); try done.
      intros v t Ht'. ksteps. apply (HQ _ t M' B'); [|done|done].
      exists 1. split; [|done]. unfold cap_bits. rewrite Ht, Hma. by apply (ldiff_high (c_urefs c) 33 32).
    + eapply (ipc_reverse_remove_spec _ G ea sp name (Used c) st'); try done.
      intros v t Ht'. ksteps. apply (HQ _ t M B); [|done|].
      * exists 1. unfold cap_bits. by rewrite Ht, Hma.
      * eapply mar_ok_update; [done|done|]. by rewrite Hma'.
  - assert (c_urefs c = 1 ∧ c_ma c = false) as [Hu1 Hma].
    { unfold cap_wf in Hwf. rewrite Ht in Hwf. tauto. }
    rewrite Hu1, Hma. ksteps. replace Sp with (<[sp := set_is_reverse_map (is_reverse_map S) S]> Sp) at 1
      by (apply insert_id; by destruct S).
    apply (HQ _ _ M B).
    + exists 4. unfold cap_bits. by rewrite Ht, Hma, Hu1.
    + eapply rev_ok_update; [done| |done]. intros _. rewrite Hps'. simpl. by rewrite Ht.
    + eapply mar_ok_update; [done|done|]. by rewrite Hma'.
Qed.

(** The invariant after an entry became a dead name or was given up, with a
    dead port. *)
Lemma inv_drop_dead Sp E O M B Th Km Ts Ca (Cc Cc' : gmap N C) G n ea sp name c st' p e' S t M' B' Ts' Ca' :
  Inv (Kernel Sp E O M B Th Km Ts Ca Cc) G n → G !! ea = Some (Slot sp name (Used c)) →
  c_type c = TSend ∨ c_type c = TSonce → O !! c_obj c = Some (KPort p) → ip_active p = false →
  vacant st' → st' ≠ Free → only (c_obj c) st' →
  Sp !! sp = Some S → rev_ok (<[ea := Slot sp name st']> G) sp t →
  mar_ok Sp (<[ea := Slot sp name st']> G) M' B' → entry_rep e' (Slot sp name st') →
  (∀ i, i < 6 → is_Some (Cc' !! i)) →
  ∀ O', (ip_references p ≠ 1 ∧ O' = <[c_obj c := KPort (ip_release p)]> O ∨
         ip_references p = 1 ∧ O' = delete (c_obj c) O) →
  Inv (Kernel (<[sp := set_is_reverse_map t S]> Sp) (<[ea := e']> E) O' M' B' Th Km Ts' Ca' Cc')
    (<[ea := Slot sp name st']> G) n.
Proof.
  intros [Hcc Hent Hobj Hmar Hq] Hg Ht Hp Hdead Hvac Hfree Honly HS Hrev Hmar' He' Hcc' O' HO'. ksimpl_all.
  destruct (oi_objects _ _ _ _ Hobj _ _ Hp) as (_ & _ & Hport).
  assert (same_spaces Sp (<[sp := set_is_reverse_map t S]> Sp)) as Hsame by by eapply same_spaces_insert.
  destruct (obj_drop_dead Sp O G n ea sp name (Used c) st' (c_obj c) p) as [Hd1 Hd2]; try done.
  { by left. }
  { unfold on, holds. simpl. by rewrite N.eqb_refl. }
  split; ksimpl; [done| | |by eapply mar_ok_spaces; [apply Hsame|]|].
  - by eapply ent_update.
  - apply (obj_inv_spaces Sp); [done|]. destruct HO' as [[? ->]|[? ->]]; auto.
  - destruct HO' as [[? ->]|[? ->]].
    + by eapply queues_update.
    + eapply queues_delete; [done|done|done|]. destruct (decide (ip_pset p = IPS_NULL)) as [|Hps]; [done|].
      destruct (po_pset _ _ _ _ _ _ Hport Hps). congruence.
Qed.

Lemma check_dead K G n ea sp name c p Q :
  Inv K G n → G !! ea = Some (Slot sp name (Used c)) → c_type c ≠ TDead → c_type c ≠ TPset →
  k_objects K !! c_obj c = Some (KPort p) → ip_active p = false →
  (∀ K', Inv K' (<[ea := Slot sp name (Used (dead_cap c))]> G) n → quiet K K' → Q true K') →
  wp (ipc_right_check sp (c_obj c) name ea) Q K.
Proof.
  destruct K as [Sp E O M B Th Km Ts Ca Cc]. intros Hinv Hg Hd Hps Hp Hdead HQ.
  destruct (inv_port_cap _ _ _ _ _ _ _ Hinv Hg Hd Hps)
    as (Hwf & Haddr & p' & e & S & Hp' & He & HS & HSa & Hport & Hb & Ho & Hr & Hn & Hrecv).
  ksimpl_all. rewrite Hp in Hp'. injection Hp' as <-.
  assert (c_type c = TSend ∨ c_type c = TSonce) as Ht.
  { destruct (c_type c); auto; [done|done|destruct Hrecv as [? _]; [done|congruence]..]. }
  pose proof (dead_cap_wf c Hwf Ht) as Hwf'. pose proof (cap_urefs_lt c Hwf) as Hu.
  assert (c_urefs c ≠ 0 ∧ c_urefs c < 65535) as [Hu0 Humax].
  { unfold cap_wf, MACH_PORT_UREFS_MAX in Hwf. destruct Ht as [Ht|Ht]; rewrite Ht in Hwf; lia. }
  unfold ipc_right_check. ksteps. rewrite Ho, N.eqb_refl. ksteps. rewrite Hdead. cbn [negb]. rewrite Hb.
  assert (is_recv (c_type c) = false) as Hnr by (by destruct Ht as [-> | ->]). kstep.
  apply wp_check; [by rewrite cap_has_receive, Hnr by done|]. kstep.
  apply wp_check; [rewrite cap_urefs by done; by keqb|]. kstep.
  eapply (check_dead_unlink _ G n ea sp name c S (Used (dead_cap c))); try done.
  intros bits t M' B' (q & -> & Hq) Hrev Hmar'. ksteps.
  assert (∀ e' O' Cc', (ip_references p ≠ 1 ∧ O' = <[c_obj c := KPort (ip_release p)]> O ∨
    ip_references p = 1 ∧ O' = delete (c_obj c) O) → (∀ i, i < 6 → is_Some (Cc' !! i)) →
    entry_rep e' (Slot sp name (Used (dead_cap c))) →
    Q true (Kernel (<[sp := set_is_reverse_map t S]> Sp) (<[ea := e']> E) O' M' B' Th Km Ts Ca Cc')) as Hfin.
  { intros e' O' Cc' HO' Hcc' He'. apply HQ; [|split; [done|by eapply same_spaces_insert]].
    eapply inv_drop_dead; try done. by right. }
  clear HQ. rewrite dead_bits, Hq by done.
  assert (∀ O' Cc', (ip_references p ≠ 1 ∧ O' = <[c_obj c := KPort (ip_release p)]> O ∨
    ip_references p = 1 ∧ O' = delete (c_obj c) O) → (∀ i, i < 6 → is_Some (Cc' !! i)) →
    wp (bits ← (if negb (ie_request e =? 0) then
                  check (IE_BITS_UREFS (bits_of (c_urefs c) 16) <? MACH_PORT_UREFS_MAX);;
                  upd_entry ea (set_ie_request 0);; mret (incr (bits_of (c_urefs c) 16))
                else mret (bits_of (c_urefs c) 16));
        upd_entry ea (set_ie_bits bits);; upd_entry ea (set_ie_object IO_NULL);; mret true) Q
      (Kernel (<[sp := set_is_reverse_map t S]> Sp) E O' M' B' Th Km Ts Ca Cc')) as Htail.
  { intros O' Cc' HO' Hcc'. rewrite Hr. ksteps. destruct (N.eqb_spec (c_req c) 0) as [Hr0|Hr0]; cbn [negb].
    - ksteps. rewrite !insert_insert_eq. apply Hfin; [done|done|].
      unfold entry_rep, dead_cap, cap_bits. rewrite Hr0. cbn.
      split_and!; [done|by rewrite N.add_0_r|done|exact (eq_trans Hr Hr0)].
    - rewrite urefs_bits by done. ksteps. apply wp_check; [by apply N.ltb_lt|]. ksteps.
      rewrite !insert_insert_eq. apply Hfin; [done|done|]. rewrite incr_bits by lia.
      unfold entry_rep, dead_cap, cap_bits. rewrite (proj2 (N.eqb_neq _ _) Hr0). cbn.
      split_and!; [done|done|done|]. by apply (set_ie_request_read 0 e). }
  destruct Hport as [Hot _ Hpos _ _ _ _ _ _ _ _ _ _ _].
  unfold ipc_port_release. eapply ipc_object_release_spec; [done|done|done|apply (inv_caches _ _ _ Hinv)| |].
  - intros H1. ksimpl. apply Htail; [by left|apply (inv_caches _ _ _ Hinv)].
  - intros H1 Cc' Hcc'. ksimpl. apply Htail; [by right|done].
Qed.
End Check.
