(* ===== verification/IpcCircular.v ===== *)
(** Receive rights in transit: the chains of destinations that
    [ipc_port_check_circularity] walks, and its refusal to close one. *)

From S2P Require Import Prelude Kmem RdxtreeMap IpcTypes IpcEntry IpcPort IpcBits IpcInv IpcUpdate IpcDn IpcMar IpcStep IpcRelease.

Open Scope N_scope.

(** ** Chains *)

(** The ports from [a] on, each in transit to the next. *)
Inductive chain (O : gmap N kobject) : N → list N → Prop :=
  | chain_last a : a ≠ 0 → next_port O a = 0 → chain O a [a]
  | chain_more a l : a ≠ 0 → next_port O a ≠ 0 → chain O (next_port O a) l → chain O a (a :: l).

Section Chain.
Implicit Types (O : gmap N kobject) (l : list N).

Lemma chain_exists O a : acyclic O → a ≠ 0 → ∃ l, chain O a l.
Proof.
  intros Hac. destruct (Hac a) as [k Hk]. revert a Hk. induction k as [|k IH]; intros a Hk Ha; [done|].
  rewrite Nat.iter_succ_r in Hk. destruct (decide (next_port O a = 0)) as [Hn|Hn]; [exists [a]; by constructor|].
  destruct (IH _ Hk Hn) as [l Hl]. exists (a :: l). by constructor.
Qed.

Lemma chain_iter O a l : chain O a l → Nat.iter (length l) (next_port O) a = 0.
Proof. induction 1 as [a _ Hn|a l _ _ _ IH]; [done|]. cbn [length]. by rewrite Nat.iter_succ_r. Qed.

Lemma chain_head O a l : chain O a l → ∃ l', l = a :: l'.
Proof. destruct 1; eauto. Qed.

Lemma chain_fun O a l l' : chain O a l → chain O a l' → l = l'.
Proof.
  intros Hl. revert l'. induction Hl as [a _ Hn|a l _ Hn _ IH]; inversion 1; subst; try done. f_equal. auto.
Qed.

Lemma chain_suffix O a l1 b l2 : chain O a (l1 ++ b :: l2) → chain O b (b :: l2).
Proof.
  revert a. induction l1 as [|x l1 IH]; intros a Hl.
  - destruct (chain_head _ _ _ Hl) as [? [= -> _]]. done.
  - inversion Hl; subst; [by destruct l1|eauto].
Qed.

Lemma chain_NoDup O a l : chain O a l → NoDup l.
Proof.
  induction 1 as [a|a l Ha Hn Hl IH]; [apply NoDup_singleton|]. apply list.NoDup_cons. split; [|done].
  intros (l1 & l2 & Heq)%list_elem_of_split. assert (chain O a (a :: l2)) as Hs by (rewrite Heq in Hl; by eapply chain_suffix).
  assert (a :: l2 = a :: l) as [= Hl2] by (eapply chain_fun; [exact Hs|by constructor]).
  apply (f_equal length) in Heq. rewrite Hl2, length_app in Heq. simpl in Heq. lia.
Qed.

Lemma chain_ext O O' a l : (∀ b, b ∈ l → next_port O' b = next_port O b) → chain O a l → chain O' a l.
Proof.
  intros Hn Hl. induction Hl as [a Ha H0|a l Ha H0 Hl IH].
  - constructor; [done|]. by rewrite Hn by by left.
  - assert (next_port O' a = next_port O a) as E by (apply Hn; by left). constructor; [done|by rewrite E|]. rewrite E.
    apply IH. intros b Hb. apply Hn. by right.
Qed.

(** Only the last port of a chain is not in transit. *)
Lemma chain_stops O a l b : chain O a l → b ∈ l → next_port O b = 0 → list.last l = Some b.
Proof.
  induction 1 as [a|a l Ha Hn Hl IH]; [by intros ->%list_elem_of_singleton|].
  intros [->|Hb]%elem_of_cons H0; [done|]. destruct (chain_head _ _ _ Hl) as [l' ->]. cbn [list.last]. auto.
Qed.

(** Destinations are ports. *)
Definition dest_ports O : Prop := ∀ a, next_port O a ≠ 0 → is_port O (next_port O a).

Lemma chain_ports O a l : dest_ports O → is_port O a → chain O a l → Forall (is_port O) l.
Proof. intros HO Ha Hl. induction Hl; constructor; auto. Qed.

Lemma chain_size O a l : dest_ports O → is_port O a → chain O a l → (length l ≤ size O)%nat.
Proof.
  intros HO Ha Hl. pose proof (chain_ports _ _ _ HO Ha Hl) as Hp. pose proof (chain_NoDup _ _ _ Hl) as Hnd.
  rewrite <- (size_list_to_set (C := gset N) l), <- (size_dom (D := gset N)) by done. apply subseteq_size.
  intros b Hb%elem_of_list_to_set. rewrite list.Forall_forall in Hp. destruct (Hp b Hb) as [q Hq].
  apply elem_of_dom. by eexists.
Qed.

(** A port that is not in transit may be sent along a chain it is not on. *)
Lemma acyclic_send O O' pa da l :
  acyclic O → chain O da l → pa ∉ l → next_port O' pa = da → (∀ b, b ≠ pa → next_port O' b = next_port O b) → acyclic O'.
Proof.
  intros Hac Hl Hpa Hsend Hother a. destruct (Hac a) as [k Hk]. revert a Hk. induction k as [|k IH]; intros a Hk; [by exists 0%nat|].
  destruct (decide (a = pa)) as [->|Hne].
  - exists (S (length l)). rewrite Nat.iter_succ_r, Hsend. apply chain_iter.
    eapply chain_ext; [|exact Hl]. intros b Hb. apply Hother. by intros ->.
  - rewrite Nat.iter_succ_r in Hk. destruct (IH _ Hk) as [k' Hk']. exists (S k').
    by rewrite Nat.iter_succ_r, Hother.
Qed.
End Chain.

(** ** The check *)

Section Circular.
Context `{!Config} {T C : Type} `{!KeyMap T} `{!KmemCache C}.
Implicit Types (K : kernel T C) (O : gmap N kobject).

Lemma chain_stop_next O a p : O !! a = Some (KPort p) → chain_stop p = (next_port O a =? 0).
Proof.
  intros Hp. unfold chain_stop, next_port. rewrite Hp. change MACH_PORT_NULL with 0. change IP_NULL with 0.
  by destruct (ip_active p), (ip_receiver_name p =? 0).
Qed.

(** A port in transit. *)
Lemma next_port_transit O a :
  next_port O a ≠ 0 → ∃ p, O !! a = Some (KPort p) ∧ ip_active p = true ∧ ip_receiver_name p = MACH_PORT_NULL ∧
    ip_destination p = next_port O a.
Proof.
  unfold next_port. destruct (O !! a) as [[p|]|]; try done. intros Hn. exists p.
  destruct (ip_active p), (N.eqb_spec (ip_receiver_name p) MACH_PORT_NULL); done.
Qed.

Lemma chain_end_spec K a l b fuel Q :
  chain (k_objects K) a l → Forall (is_port (k_objects K)) l → (length l ≤ fuel)%nat → list.last l = Some b →
  Q b K → wp (chain_end fuel a) Q K.
Proof.
  intros Hl. revert fuel. induction Hl as [a Ha Hn|a l Ha Hn Hl IH]; intros fuel Hp Hlen Hlast HQ;
    apply list.Forall_cons in Hp as [[p Hp] Hps]; (destruct fuel as [|fuel]; [simpl in Hlen; lia|]); cbn [chain_end]; ksteps;
    rewrite (chain_stop_next _ _ _ Hp).
  - rewrite Hn. ksteps. by injection Hlast as ->.
  - rewrite (proj2 (N.eqb_neq _ 0) Hn). destruct (next_port_transit _ _ Hn) as (q & Hq & _ & _ & Hd).
    rewrite Hp in Hq. injection Hq as <-. rewrite Hd. destruct (chain_head _ _ _ Hl) as [l' ->].
    apply IH; [done|simpl in *; lia|done|done].
Qed.

Lemma unlock_chain_spec K a l b fuel Q :
  chain (k_objects K) a l → (length l ≤ fuel)%nat → list.last l = Some b → Q tt K → wp (unlock_chain fuel a b) Q K.
Proof.
  intros Hl. revert fuel. induction Hl as [a Ha Hn|a l Ha Hn Hl IH]; intros fuel Hlen Hlast HQ;
    (destruct fuel as [|fuel]; [simpl in Hlen; lia|]); cbn [unlock_chain].
  - injection Hlast as ->. rewrite N.eqb_refl. by ksteps.
  - destruct (next_port_transit _ _ Hn) as (p & Hp & Hact & Hname & Hd). destruct (N.eqb_spec a b) as [->|Hne]; [by ksteps|].
    ksteps. rewrite Hname, Hd. change IP_NULL with 0. rewrite (proj2 (N.eqb_neq _ 0) Hn). ksteps.
    destruct (chain_head _ _ _ Hl) as [l' ->]. apply IH; [simpl in *; lia|done|done].
Qed.

Lemma unlock_circle_spec K a l b p fuel Q :
  chain (k_objects K) a l → (S (length l) ≤ fuel)%nat → list.last l = Some b →
  k_objects K !! b = Some (KPort p) → ip_active p = true → ip_receiver_name p = MACH_PORT_NULL → ip_destination p = IP_NULL →
  Q tt K → wp (unlock_circle fuel a) Q K.
Proof.
  intros Hl. revert fuel. induction Hl as [a Ha Hn|a l Ha Hn Hl IH]; intros fuel Hlen Hlast Hb Hact Hname Hd HQ;
    (destruct fuel as [|fuel]; [simpl in Hlen; lia|]); cbn [unlock_circle]; change IP_NULL with 0;
    rewrite (proj2 (N.eqb_neq _ 0) Ha).
  - injection Hlast as ->. ksteps. rewrite Hname, Hd. ksteps. destruct fuel as [|fuel]; [simpl in Hlen; lia|].
    cbn [unlock_circle]. by ksteps.
  - destruct (next_port_transit _ _ Hn) as (q & Hq & Hact' & Hname' & Hd'). ksteps. rewrite Hname', Hd'. ksteps.
    destruct (chain_head _ _ _ Hl) as [l' ->]. apply IH; try done. simpl in *; lia.
Qed.

Definition put_in_transit O (pa da : N) (p d : ipc_port) : gmap N kobject :=
  <[pa := KPort (set_ip_destination da p)]> (<[da := KPort (ip_reference d)]> O).

Section Check.
Context (Sp : gmap N (ipc_space T)) (E : gmap N ipc_entry) (O : gmap N kobject) (M : gmap N ipc_marequest).
Context (B : gmap N (list N)) (Th : gmap N ipc_thread) (Km : gmap N ipc_kmsg) (Ts : N) (Ca : list call) (Cc : gmap N C).
Context (pa da : N) (p d : ipc_port).
#[local] Abbreviation K := (Kernel Sp E O M B Th Km Ts Ca Cc).
Context (Hac : acyclic O) (Hports : dest_ports O) (Hp : O !! pa = Some (KPort p)) (Hd : O !! da = Some (KPort d)).
Context (Hpa : pa ≠ 0) (Hda : da ≠ 0).
Context (Hact : ip_active p = true) (Hname : ip_receiver_name p = MACH_PORT_NULL) (Hdest : ip_destination p = IP_NULL).

Lemma limbo_next : next_port O pa = 0.
Proof. unfold next_port. rewrite Hp, Hdest. by destruct (_ && _). Qed.

Lemma transit_next b : pa ≠ da → next_port (put_in_transit O pa da p d) b = if b =? pa then da else next_port O b.
Proof.
  intros Hne. unfold next_port, put_in_transit. destruct (N.eqb_spec b pa) as [->|Hb].
  - rewrite lookup_insert_eq. unfold ip_active, ip_object, ip_receiver_name in *. cbn. by rewrite Hact, Hname.
  - rewrite lookup_insert_ne by done. destruct (decide (b = da)) as [->|Hbd].
    + rewrite lookup_insert_eq, Hd. done.
    + by rewrite lookup_insert_ne.
Qed.

Lemma transit_chain l : chain O da l → pa ∉ l → chain (put_in_transit O pa da p d) pa (pa :: l).
Proof.
  intros Hl Hpl. assert (pa ≠ da) as Hne. { intros ->. apply Hpl. destruct (chain_head _ _ _ Hl) as [l' ->]. by left. }
  assert (next_port (put_in_transit O pa da p d) pa = da) as Hn by (rewrite transit_next, N.eqb_refl by done; done).
  constructor; [done|by rewrite Hn|]. rewrite Hn. eapply chain_ext; [|exact Hl]. intros b Hb. rewrite transit_next by done.
  destruct (N.eqb_spec b pa) as [->|]; done.
Qed.

Lemma set_in_transit_spec l b fuel Q :
  chain O da l → pa ∉ l → list.last l = Some b → (S (length l) ≤ fuel)%nat →
  Q false (Kernel Sp E (put_in_transit O pa da p d) M B Th Km Ts Ca Cc) → wp (set_in_transit fuel pa da b) Q K.
Proof.
  intros Hl Hpl Hlast Hlen HQ. pose proof (transit_chain l Hl Hpl) as Hl'.
  assert (pa ≠ da) as Hne. { intros ->. apply Hpl. destruct (chain_head _ _ _ Hl) as [l' ->]. by left. }
  assert (is_port (put_in_transit O pa da p d) b ∧ next_port (put_in_transit O pa da p d) b = 0) as [[q Hq] Hqn].
  { assert (b ∈ l) as Hb by by apply last_Some_elem_of in Hlast.
    assert (b ≠ pa) as Hbp by by intros ->. split.
    - unfold is_port, put_in_transit. rewrite lookup_insert_ne by done. destruct (decide (b = da)) as [->|Hbd].
      + eexists. by rewrite lookup_insert_eq.
      + rewrite lookup_insert_ne by done. assert (Forall (is_port O) l) as Hf by (eapply chain_ports; [done|by exists d|done]).
        rewrite list.Forall_forall in Hf. by apply Hf.
    - rewrite transit_next, (proj2 (N.eqb_neq _ _) Hbp) by done. clear -Hl Hlast. revert Hlast.
      induction Hl as [a Ha Hn|a l Ha Hn Hl IH]; intros Hlast; [by injection Hlast as ->|].
      destruct (chain_head _ _ _ Hl) as [l' ->]. by apply IH. }
  unfold set_in_transit. ksteps. rewrite Hname, Hdest. ksteps.
  fold (put_in_transit O pa da p d). eapply unlock_chain_spec; ksimpl; [exact Hl'|simpl; lia|by destruct l|]. ksteps. rewrite (chain_stop_next _ _ _ Hq), Hqn. by ksteps.
Qed.

(** The chain from [da] ends in the port, or the port is put in transit. *)
Lemma ipc_port_check_circularity_spec Q :
  (∀ l, chain O da l → pa ∈ l → Q true K) →
  (∀ l, chain O da l → pa ∉ l → Q false (Kernel Sp E (put_in_transit O pa da p d) M B Th Km Ts Ca Cc)) →
  wp (ipc_port_check_circularity pa da) Q K.
Proof.
  intros Hcirc Hsend.
  destruct (chain_exists O da Hac Hda) as [l Hl]. assert (is_port O da) as Hdp by by exists d.
  pose proof (chain_size _ _ _ Hports Hdp Hl) as Hsize. pose proof (chain_ports _ _ _ Hports Hdp Hl) as Hall.
  unfold ipc_port_check_circularity. change IP_NULL with 0. keqb. ksteps.
  destruct (N.eqb_spec pa da) as [Heq|Hne].
  { ksteps. apply (Hcirc l); [done|]. rewrite Heq. destruct (chain_head _ _ _ Hl) as [l' ->]. by left. }
  ksteps. rewrite (chain_stop_next _ _ _ Hd). destruct (N.eqb_spec (next_port O da) 0) as [Hn|Hn].
  { inversion Hl; subst; [|done]. eapply (set_in_transit_spec [da]); try done; [by intros ->%list_elem_of_singleton|simpl; lia|].
    apply (Hsend [da]); [done|]. by intros ->%list_elem_of_singleton. }
  destruct (list.last l) as [b|] eqn:Hlast; [|apply last_None in Hlast; subst; inversion Hl].
  kstep. eapply chain_end_spec; try done; [lia|]. destruct (N.eqb_spec pa b) as [<-|Hb].
  - ksteps. rewrite Hname, Hdest. ksteps. eapply unlock_circle_spec; try done; [lia|]. ksteps.
    apply (Hcirc l); [done|]. by apply last_Some_elem_of in Hlast.
  - assert (pa ∉ l) as Hpl. { intros Hin. pose proof (chain_stops _ _ _ _ Hl Hin limbo_next). congruence. }
    eapply (set_in_transit_spec l); try done; [lia|]. by apply (Hsend l).
Qed.
End Check.
End Circular.
