(* ===== verification/IpcVacate.v ===== *)
(** Steps of the routines that take rights out of live entries: the invariant
    after one entry and one port changed, the cancellation of dead-name
    requests and the release of send rights. *)

From S2P Require Import Prelude Kmem Rdxtree RdxtreeInv RdxtreeSpec RdxtreeMap IpcTypes IpcEntry IpcPort IpcMarequest IpcRight IpcBits IpcInv IpcUpdate IpcDn IpcMar IpcStep IpcRelease IpcCheck.

Open Scope N_scope.

Section Vacate.
Context `{!Config} {T C : Type} `{!KeyMap T} `{!KmemCache C}.
Implicit Types (K : kernel T C) (G : gmap N eslot) (n : naked).

(** ** The invariant after a step *)

Section Step.
Context (Sp : gmap N (ipc_space T)) (E : gmap N ipc_entry) (O : gmap N kobject) (M : gmap N ipc_marequest).
Context (B : gmap N (list N)) (Th : gmap N ipc_thread) (Km : gmap N ipc_kmsg) (Ts : N) (Ca : list call) (Cc : gmap N C).
Context (G : gmap N eslot) (n : naked).
Context (Hinv : Inv (Kernel Sp E O M B Th Km Ts Ca Cc) G n).
Context (pa : N) (p p' : ipc_port) (r' : naked_rights).
Context (Hp : O !! pa = Some (KPort p)) (Hsame : same_place p p').

Lemma inv_naked_step Ts' Ca' (Cc' : gmap N C) :
  (∀ i, i < 6 → is_Some (Cc' !! i)) →
  port_ok Sp (<[pa := KPort p']> O) G (upd_naked n pa r') pa p' →
  Inv (Kernel Sp E (<[pa := KPort p']> O) M B Th Km Ts' Ca' Cc') G (upd_naked n pa r').
Proof.
  intros Hcc' Hport. destruct Hinv as [Hcc Hent Hobj Hmar Hq]. ksimpl_all. split; ksimpl; [done|done| |done|].
  - eapply (obj_update_port Sp O G n pa p); [done|done|by apply same_place_links| |done].
    intros sp name _. by apply same_place_received.
  - by eapply queues_update.
Qed.

Context (ea sp name : N) (st st' : estate) (e' : ipc_entry).
Context (Hg : G !! ea = Some (Slot sp name st)) (Hst : only pa st) (Hst' : only pa st').
Context (Hfree : st ≠ Free) (Hfree' : st' ≠ Free) (He' : entry_rep e' (Slot sp name st')).
Context (Hcap : ∀ c', st' = Used c' → cap_ok (<[pa := KPort p']> O) sp name c').
Context (Hnamed : ∀ o, named st' = Some o → named st = Some o ∨ unnamed_in G sp o).

(** With a change of the reverse map. *)
Lemma inv_step S t M' B' Ts' Ca' (Cc' : gmap N C) :
  Sp !! sp = Some S → rev_ok (<[ea := Slot sp name st']> G) sp t →
  mar_ok Sp (<[ea := Slot sp name st']> G) M' B' → (∀ i, i < 6 → is_Some (Cc' !! i)) →
  port_ok Sp (<[pa := KPort p']> O) (<[ea := Slot sp name st']> G) (upd_naked n pa r') pa p' →
  Inv (Kernel (<[sp := set_is_reverse_map t S]> Sp) (<[ea := e']> E) (<[pa := KPort p']> O) M' B' Th Km Ts' Ca' Cc')
    (<[ea := Slot sp name st']> G) (upd_naked n pa r').
Proof.
  intros HS Hrev Hmar' Hcc' Hport. destruct Hinv as [Hcc Hent Hobj Hmar Hq]. ksimpl_all.
  assert (same_spaces Sp (<[sp := set_is_reverse_map t S]> Sp)) as HSp by by eapply same_spaces_insert.
  split; ksimpl; [done| | |by eapply mar_ok_spaces; [apply HSp|]|].
  - by eapply ent_update.
  - apply (obj_inv_spaces Sp); [done|].
    eapply (obj_update Sp O G n pa p); [done|done|done|done|done|done|by apply same_place_links|done| |done].
    intros. by eapply same_place_received.
  - by eapply queues_update.
Qed.

(** Without. *)
Lemma inv_step_same M' B' Ts' Ca' (Cc' : gmap N C) :
  pure_send st' = pure_send st →
  mar_ok Sp (<[ea := Slot sp name st']> G) M' B' → (∀ i, i < 6 → is_Some (Cc' !! i)) →
  port_ok Sp (<[pa := KPort p']> O) (<[ea := Slot sp name st']> G) (upd_naked n pa r') pa p' →
  Inv (Kernel Sp (<[ea := e']> E) (<[pa := KPort p']> O) M' B' Th Km Ts' Ca' Cc')
    (<[ea := Slot sp name st']> G) (upd_naked n pa r').
Proof.
  intros Hps Hmar' Hcc' Hport. pose proof (inv_ents _ _ _ Hinv) as Hent. ksimpl_all.
  destruct (ei_slots _ _ _ Hent _ _ Hg) as [_ _ (S & HS & Hact) _]. simpl in HS.
  rewrite <- (insert_id Sp sp (set_is_reverse_map (is_reverse_map S) S)) at 1 by (by destruct S).
  apply inv_step; try done. eapply rev_ok_update; [done|done|]. apply (ei_spaces _ _ _ Hent _ _ HS Hact).
Qed.
End Step.

(** ** Dead-name requests *)

(** The request goes to the front of the free chain. *)
Lemma dncancel_some_spec K G ea sp name c st' p e Q :
  G !! ea = Some (Slot sp name (Used c)) → name ≠ 0 → req_on (c_obj c) st' = 0 → c_req c ≠ 0 →
  k_objects K !! c_obj c = Some (KPort p) → ip_active p = true → dn_ok G (c_obj c) (ip_dnrequests p) →
  k_entries K !! ea = Some e → ie_object e = c_obj c → ie_request e = c_req c →
  (∀ r t, dn_ok (<[ea := Slot sp name st']> G) (c_obj c) (Some t) → ipr_next t = c_req c →
     Q r (set_k_entries (<[ea := set_ie_request 0 e]> (k_entries K))
            (set_k_objects (<[c_obj c := KPort (set_ip_dnrequests (Some t) p)]> (k_objects K)) K))) →
  wp (ipc_right_dncancel_macro sp (c_obj c) name ea) Q K.
Proof.
  destruct K as [Sp E O M B Th Km Ts Ca Cc]. ksimpl. intros Hg Hn0 Hreq H0 Hp Hact Hdn He Ho Hr HQ.
  assert (req_on (c_obj c) (Used c) = c_req c) as Hrc by (simpl; by rewrite N.eqb_refl).
  unfold ipc_right_dncancel_macro. ksteps. rewrite Hr. keqb. destruct (ip_dnrequests p) as [t|] eqn:Ht.
  2: { rewrite dn_ok_iff in Hdn. specialize (Hdn _ _ Hg). cbn [sl_state] in Hdn. congruence. }
  destruct (dn_ok_cancel G ea sp name (c_obj c) (Used c) st' Hg t) as (r & Hsl & Hrn & Hdn'); try done; [congruence|].
  rewrite Hrc in *. unfold ipc_right_dncancel, ipc_port_dncancel. ksteps. rewrite Ho, N.eqb_refl. ksteps. rewrite Hr.
  keqb. ksteps. rewrite Ht. eapply wp_deref; [done|]. ksteps. eapply wp_deref; [done|]. cbv beta. kstep.
  apply wp_check; [by apply N.eqb_eq|]. ksteps. by apply (HQ (ipr_notify r)).
Qed.

Lemma dncancel_spec K G ea sp name c st' p e Q :
  G !! ea = Some (Slot sp name (Used c)) → name ≠ 0 → req_on (c_obj c) st' = 0 →
  k_objects K !! c_obj c = Some (KPort p) → ip_active p = true → dn_ok G (c_obj c) (ip_dnrequests p) →
  k_entries K !! ea = Some e → ie_object e = c_obj c → ie_request e = c_req c →
  (∀ r ot e', dn_ok (<[ea := Slot sp name st']> G) (c_obj c) ot →
     ie_name e' = ie_name e → ie_bits e' = ie_bits e → ie_object e' = ie_object e → ie_request e' = 0 →
     Q r (set_k_entries (<[ea := e']> (k_entries K))
            (set_k_objects (<[c_obj c := KPort (set_ip_dnrequests ot p)]> (k_objects K)) K))) →
  wp (ipc_right_dncancel_macro sp (c_obj c) name ea) Q K.
Proof.
  intros Hg Hn0 Hreq Hp Hact Hdn He Ho Hr HQ. destruct (decide (c_req c = 0)) as [H0|H0].
  - destruct K as [Sp E O M B Th Km Ts Ca Cc]. ksimpl_all. unfold ipc_right_dncancel_macro. ksteps. rewrite Hr, H0. ksteps.
    rewrite <- (insert_id E ea e), <- (insert_id O (c_obj c) (KPort (set_ip_dnrequests (ip_dnrequests p) p))) by (done || by destruct p).
    apply HQ; try done; [|congruence]. by eapply dn_ok_keep; [| |left].
  - eapply dncancel_some_spec; try done. intros r t Hdn' _. apply HQ; try done. by apply set_ie_request_read.
Qed.

(** ** Entries without objects *)

Lemma obj_vacant (Sp : gmap N (ipc_space T)) (O : gmap N kobject) G n ea sp name st st' :
  ObjInv Sp O G n → G !! ea = Some (Slot sp name st) → vacant st → vacant st' →
  ObjInv Sp O (<[ea := Slot sp name st']> G) n.
Proof.
  intros [Hcaps Hu Hobjs Hnk Hac] Hg Hv Hv'.
  assert (∀ s, vacant s → only 0 s) as Honly.
  { intros [| |c]; try done. intros [Ht Hwf]. unfold cap_wf in Hwf. rewrite Ht in Hwf. left; apply Hwf. }
  split; [..|done|done].
  - intros eb sp0 name0 c [[<- [= <- <- ->]]|[Hne Hb]]%lookup_insert_Some; [|by eapply Hcaps].
    destruct Hv' as [Ht Hwf]. split; [done|]. by rewrite Ht.
  - eapply uniq_update; [done|done|]. intros o Ho. destruct st' as [| |c]; try done. simpl in Ho.
    destruct Hv' as [Ht _]. by rewrite Ht in Ho.
  - intros a o Ho. destruct (Hobjs a o Ho) as (Haddr & ? & Hok). assert (a ≠ 0) as Ha0 by apply Haddr.
    split_and!; [done|done|].
    assert (∀ P, count (holds P a) (<[ea := Slot sp name st']> G) = count (holds P a) G) as Hcount.
    { intros P. apply (count_other G ea sp name st st' 0); auto. }
    destruct o as [p|s].
    + eapply (port_ok_frame Sp O O G); try done. intros t. apply (dn_ok_other G ea sp name st' 0); auto.
    + destruct Hok as [? Hr ? Hc]. split; [done| |done|]; unfold n_caps in *; by rewrite Hcount.
Qed.

Lemma vacant_pure st : vacant st → pure_send st = None.
Proof. destruct st as [| |c]; try done. intros [Ht _]. simpl. by rewrite Ht. Qed.
Lemma vacant_ma st : vacant st → ma_of st = false.
Proof. destruct st as [| |c]; try done. intros [Ht Hwf]. unfold cap_wf in Hwf. rewrite Ht in Hwf. simpl. tauto. Qed.

(** The entry of a dead name changes or is given up. *)
Lemma inv_vacant_step K G n ea sp name st st' e' :
  Inv K G n → G !! ea = Some (Slot sp name st) → vacant st → vacant st' → st ≠ Free → st' ≠ Free →
  entry_rep e' (Slot sp name st') →
  Inv (set_k_entries (<[ea := e']> (k_entries K)) K) (<[ea := Slot sp name st']> G) n.
Proof.
  destruct K as [Sp E O M B Th Km Ts Ca Cc]. intros [Hcc Hent Hobj Hmar Hq] Hg Hv Hv' Hf Hf' He'. ksimpl_all.
  split; ksimpl; [done| | | |done].
  - eapply ent_update_same; try done. by rewrite !vacant_pure.
  - by eapply obj_vacant.
  - eapply mar_ok_update; [done|done|]. by rewrite !vacant_ma.
Qed.

(** A state that gives up a dead name without touching the entry. *)
Lemma inv_hold K G n ea sp name c :
  Inv K G n → G !! ea = Some (Slot sp name (Used c)) → c_type c = TDead →
  Inv K (<[ea := Slot sp name Held]> G) n.
Proof.
  intros Hinv Hg Ht. destruct (ei_slots _ _ _ (inv_ents _ _ _ Hinv) _ _ Hg) as [_ _ _ (e & He & Hn & _)].
  pose proof (oi_caps _ _ _ _ (inv_objs _ _ _ Hinv) _ _ _ _ Hg) as [Hwf _].
  pose proof (inv_vacant_step K G n ea sp name (Used c) Held e Hinv Hg (conj Ht Hwf) I) as Hstep.
  rewrite insert_id in Hstep by done. destruct K. by apply Hstep.
Qed.

(** ** Deallocation *)

(** The entry [ea] of the space holds [oc] from now on; without a capability
    it is free or gone. *)
Definition becomes G (ea sp name : N) (oc : option cap) G' : Prop :=
  match oc with
  | Some c => G' = <[ea := Slot sp name (Used c)]> G
  | None => freed G ea sp name G'
  end.

Lemma freed_insert G ea sp name s G' : freed (<[ea := s]> G) ea sp name G' → freed G ea sp name G'.
Proof. intros [->| ->]; [left; apply insert_insert_eq|right; apply delete_insert_eq]. Qed.

Lemma inv_dealloc_objects K G n ea sp name e Q :
  Inv K G n → G !! ea = Some (Slot sp name Held) →
  k_entries K !! ea = Some e → ie_object e = 0 → ie_request e = 0 →
  (∀ K' G', Inv K' G' n → freed G ea sp name G' → quiet K K' → k_objects K' = k_objects K → Q tt K') →
  wp (ipc_entry_dealloc sp name ea) Q K.
Proof.
  intros [Hcc Hent Hobj Hmar Hq] Hg He Ho Hr HQ. eapply ipc_entry_dealloc_spec; try done.
  intros Sp' E' Cc' G' Hent' Hfreed HSp Hcc'. eapply HQ; [|done|by split|done]. split; ksimpl; try done.
  - eapply obj_inv_freed; [done|done|]. by eapply obj_inv_spaces.
  - eapply mar_ok_freed; [done|done|]. eapply mar_ok_spaces; [apply HSp|done].
Qed.

Lemma inv_dealloc K G n ea sp name e Q :
  Inv K G n → G !! ea = Some (Slot sp name Held) →
  k_entries K !! ea = Some e → ie_object e = 0 → ie_request e = 0 →
  (∀ K' G', Inv K' G' n → freed G ea sp name G' → quiet K K' → Q tt K') →
  wp (ipc_entry_dealloc sp name ea) Q K.
Proof. intros Hinv Hg He Ho Hr HQ. eapply inv_dealloc_objects; eauto. Qed.
End Vacate.
