(* ===== verification/IpcDealloc.v ===== *)
(** Release of user references: [ipc_right_dealloc] and the routines it shares
    with [ipc_right_delta] and [ipc_right_destroy]. *)

From S2P Require Import Prelude Kmem Rdxtree RdxtreeInv RdxtreeSpec RdxtreeMap IpcTypes IpcEntry IpcPort IpcMarequest IpcRight IpcBits IpcInv IpcUpdate IpcDn IpcMar IpcStep IpcRelease IpcCheck IpcVacate.

Open Scope N_scope.

Section Dealloc.
Context `{!Config} {T C : Type} `{!KeyMap T} `{!KmemCache C}.
Implicit Types (K : kernel T C) (G : gmap N eslot) (n : naked).

(** ** Rights handed over *)

(** The rights of a capability of type [t], added to those outside of entries. *)
Definition add_right (t : ctype) (r : naked_rights) : naked_rights :=
  Naked (nk_refs r + 1) (nk_send r + Nb (is_send t)) (nk_sonce r + Nb (is_sonce t)) (nk_recv r + Nb (is_recv t)) (nk_pd r) (nk_kern r).

Lemma drop_send_right_spec K pa p Q :
  k_objects K !! pa = Some (KPort p) → 0 < ip_srights p < 2 ^ 32 →
  (∀ ns nsr, Q ns (set_k_objects (<[pa := KPort (set_ip_nsrequest nsr (set_ip_srights (ip_srights p - 1) p))]>
                     (k_objects K)) K)) →
  wp (drop_send_right pa) Q K.
Proof.
  intros Hp Hs HQ. unfold drop_send_right. ksteps. rewrite (decr_pred (ip_srights p)) by done.
  assert (∀ q, KPort q = KPort (set_ip_nsrequest (ip_nsrequest q) q)) as Hid by (by intros []).
  cbn [ip_srights ip_nsrequest ip_mscount set_ip_srights].
  destruct (N.eqb_spec (ip_srights p - 1) 0).
  - destruct (negb (ip_nsrequest p =? IP_NULL)); ksteps.
    + rewrite insert_insert_eq. apply HQ.
    + rewrite (Hid (set_ip_srights _ p)). apply HQ.
  - ksteps. rewrite (Hid (set_ip_srights _ p)). apply HQ.
Qed.

(** Calls recorded at the end of a routine do not touch the invariant. *)
Lemma inv_calls K G n Ca' : Inv K G n → Inv (set_k_calls Ca' K) G n.
Proof. by intros [? ? ? ? ?]. Qed.

Lemma notify_no_senders_spec K ns Q : (∀ Ca', Q tt (set_k_calls Ca' K)) → wp (notify_no_senders ns) Q K.
Proof.
  intros HQ. unfold notify_no_senders. destruct (negb (ns.1 =? IP_NULL)); ksteps; [apply HQ|].
  specialize (HQ (k_calls K)). by destruct K.
Qed.
Lemma notify_port_deleted_spec K dn name Q : (∀ Ca', Q tt (set_k_calls Ca' K)) → wp (notify_port_deleted dn name) Q K.
Proof.
  intros HQ. unfold notify_port_deleted. destruct (negb (dn =? IP_NULL)); ksteps; [apply HQ|].
  specialize (HQ (k_calls K)). by destruct K.
Qed.

(** ** A pure send right leaves its entry *)

Lemma send_unlink_spec {A} K G ea sp name c p e S (k : N → M (kernel T C) A) Q :
  G !! ea = Some (Slot sp name (Used c)) → cap_wf c → c_type c = TSend → obj_addr (c_obj c) →
  EntInv (k_spaces K) (k_entries K) G → mar_ok (k_spaces K) G (k_marequests K) (k_buckets K) →
  k_objects K !! c_obj c = Some (KPort p) → ip_active p = true → dn_ok G (c_obj c) (ip_dnrequests p) →
  k_entries K !! ea = Some e → k_spaces K !! sp = Some S →
  (∀ r ot e' t M' B', dn_ok (<[ea := Slot sp name Held]> G) (c_obj c) ot →
     rev_ok (<[ea := Slot sp name Held]> G) sp t →
     mar_ok (k_spaces K) (<[ea := Slot sp name Held]> G) M' B' →
     ie_name e' = name → ie_bits e' = cap_bits c → ie_request e' = 0 →
     wp (k r) Q (set_k_spaces (<[sp := set_is_reverse_map t S]> (k_spaces K))
                  (set_k_marequests M' (set_k_buckets B'
                  (set_k_entries (<[ea := e']> (k_entries K))
                  (set_k_objects (<[c_obj c := KPort (set_ip_dnrequests ot p)]> (k_objects K)) K)))))) →
  wp (dnrequest ← ipc_right_dncancel_macro sp (c_obj c) name ea;
      _ ← ipc_reverse_remove sp (c_obj c);
      (if has (cap_bits c) IE_BITS_MAREQUEST then ipc_marequest_cancel sp name else mret tt);;
      k dnrequest) Q K.
Proof.
  destruct K as [Sp E O M B Th Km Ts Ca Cc]. intros Hg Hwf Ht Haddr Hent Hmar Hp Hact Hdn He HS HQ. ksimpl_all.
  destruct (ei_slots _ _ _ Hent _ _ Hg) as [_ [Hn0 _] Hspa (e0 & He0 & Hn & Hb & Ho & Hr)]. simpl in *.
  rewrite He in He0. injection He0 as <-. pose proof Hspa as (S0 & HS0 & HSa). rewrite HS in HS0. injection HS0 as <-.
  destruct (ei_spaces _ _ _ Hent _ _ HS HSa) as [Hsp0 _ Hrev _]. pose proof (ent_sole _ _ _ _ _ _ _ Hent Hg) as Hsole.
  kstep. eapply (dncancel_spec _ G ea sp name c Held p e); try done.
  intros r ot e' Hdn' Hn' Hb' Ho' Hr'. ksteps.
  assert (pure_send (Used c) = Some (c_obj c)) as Hpure by (simpl; by rewrite Ht).
  eapply (ipc_reverse_remove_spec _ G ea sp name (Used c) Held); try done. intros v t Hrev'. ksteps.
  rewrite cap_has_marequest by done. destruct (c_ma c) eqn:Hma.
  - eapply (ipc_marequest_cancel_spec _ G ea sp name (Used c) Held); try done.
    + ksimpl. eapply active_space_insert; [done|done|]. done.
    + ksimpl. eapply mar_ok_spaces; [|done]. intros a. by eapply active_space_insert.
    + intros M' B' Hmar'. ksteps. apply (HQ r ot e' t M' B'); try done; try congruence.
      eapply mar_ok_spaces; [|exact Hmar']. intros a Ha. by eapply active_space_insert.
  - ksteps. apply (HQ r ot e' t M B); try done; try congruence. eapply mar_ok_update; [done|done|]. simpl. by rewrite Hma.
Qed.

(** The holder of a right other than the receive right is not the only one. *)
Lemma live_refs Sp O G n pa p ea sp name st :
  port_ok (T := T) Sp O G n pa p → ip_active p = true → G !! ea = Some (Slot sp name st) →
  on (λ _, true) pa st = 1 → on is_recv pa st = 0 → 2 ≤ ip_references p.
Proof.
  intros Hport Hact Hg H1 H0. destruct Hport as [_ Hr _ Hnk _ _ _ _ Hre _ _ _ _ _]. rewrite Hact in Hre. cbn [Nb] in Hre.
  pose proof (n_update (λ _, true) G ea sp name st Held pa Hg) as Ha.
  pose proof (n_update is_recv G ea sp name st Held pa Hg) as Hb.
  assert (n_recv (<[ea := Slot sp name Held]> G) pa ≤ n_caps (<[ea := Slot sp name Held]> G) pa) as Hle.
  { apply count_mono. intros i s _. unfold holds. destruct (sl_state s); try done. by intros [-> _]%andb_true_iff. }
  unfold n_caps, n_recv in *. cbn in Ha, Hb. lia.
Qed.

Lemma srights_bounds Sp O G n pa p :
  port_ok (T := T) Sp O G n pa p → ip_active p = true → ip_srights p < 2 ^ 32.
Proof.
  intros [_ Hr Hpos Hnk _ Hse _ _ _ _ _ _ _ _] Hact. rewrite Hse by done.
  assert (n_send G pa ≤ n_caps G pa) as Hle; [|lia].
  apply count_mono. intros i s _. unfold holds. destruct (sl_state s); try done. by intros [-> _]%andb_true_iff.
Qed.

Lemma on_used P c : on P (c_obj c) (Used c) = Nb (P (c_type c)).
Proof. unfold on, holds. simpl. by rewrite N.eqb_refl. Qed.
Lemma on_cap P t o u r m : on P o (Used (Cap t o u r m)) = Nb (P t).
Proof. apply (on_used P (Cap t o u r m)). Qed.

Lemma inv_naked_ext K G n n' : (∀ a, n' a = n a) → Inv K G n → Inv K G n'.
Proof. intros Hn [? ? ? ? ?]. split; try done. by eapply naked_ext. Qed.

Section ReleaseSend.
Context (Sp : gmap N (ipc_space T)) (E : gmap N ipc_entry) (O : gmap N kobject) (M : gmap N ipc_marequest).
Context (B : gmap N (list N)) (Th : gmap N ipc_thread) (Km : gmap N ipc_kmsg) (Ts : N) (Ca : list call) (Cc : gmap N C).
Context (G : gmap N eslot) (n : naked) (ea sp name : N) (c : cap) (p : ipc_port).
#[local] Abbreviation K := (Kernel Sp E O M B Th Km Ts Ca Cc).
Context (Hinv : Inv K G n) (Hg : G !! ea = Some (Slot sp name (Used c))) (Ht : c_type c = TSend).
Context (Hp : O !! c_obj c = Some (KPort p)) (Hact : ip_active p = true).

Lemma release_send_entry_spec nsr Q :
  (∀ dn K' G', Inv K' G' n → freed G ea sp name G' → quiet K K' → Q dn K') →
  wp (release_send_entry sp name ea (cap_bits c) (c_obj c)) Q
    (set_k_objects (<[c_obj c := KPort (set_ip_nsrequest nsr (set_ip_srights (ip_srights p - 1) p))]> O) K).
Proof.
  intros HQ. destruct (inv_port_cap _ _ _ _ _ _ _ Hinv Hg)
    as (Hwf & Haddr & p' & e & S & Hp' & He & HS & HSa & Hport & _); [congruence..|].
  ksimpl_all. rewrite Hp in Hp'. injection Hp' as <-. pose proof Hinv as [Hcc Hent Hobj Hmar Hq]. ksimpl_all.
  pose proof (live_refs _ _ _ _ _ _ _ _ _ _ Hport Hact Hg) as Hrefs. rewrite !on_used, Ht in Hrefs.
  specialize (Hrefs eq_refl eq_refl). pose proof (srights_bounds _ _ _ _ _ _ Hport Hact) as Hsb.
  unfold release_send_entry.
  apply (send_unlink_spec _ G ea sp name c (set_ip_nsrequest nsr (set_ip_srights (ip_srights p - 1) p)) e S); ksimpl;
    try done; [apply lookup_insert_eq|by apply Hport|].
  intros dn ot e' t M' B' Hdn Hrev Hmar' Hn' Hb' Hr'. ksimpl. rewrite !insert_insert_eq. ksteps. rewrite !insert_insert_eq.
  assert (0 < ip_srights p) as Hs0.
  { rewrite (po_send _ _ _ _ _ _ Hport Hact). enough (0 < n_send G (c_obj c)) by lia.
    apply (count_pos _ _ ea _ Hg). unfold holds. simpl. by rewrite N.eqb_refl, Ht. }
  match goal with |- wp _ _ (Kernel ?Sp' ?E' ?O' _ _ _ _ _ _ _) =>
    assert (Inv (Kernel Sp' E' O' M' B' Th Km Ts Ca Cc) (<[ea := Slot sp name Held]> G)
              (upd_naked n (c_obj c) (n (c_obj c)))) as Hinv' end.
  { eapply (inv_step Sp E O M B Th Km Ts Ca Cc G n Hinv (c_obj c) p); try done.
    - by left.
    - eapply (port_ok_step Sp O G n ea sp name (Used c) Held (c_obj c) p); try done;
        rewrite ?on_used, ?Ht; cbn [on holds Nb is_send is_recv is_sonce sl_state]; try apply Haddr; try apply Hport.
      all: pose proof (po_pos _ _ _ _ _ _ Hport); psimpl; lia. }
  assert (Inv _ _ n) as Hinv'' by (eapply inv_naked_ext; [|exact Hinv']; intros a; symmetry; apply upd_naked_id).
  eapply inv_dealloc; [exact Hinv''|klookup|klookup|done|done|].
  intros K' G' HK' Hf%freed_insert Hquiet. ksteps. eapply HQ; [done|done|].
  destruct Hquiet as [Hc Hs]. ksimpl_all. split; [done|]. ksimpl. eapply same_spaces_trans; [|exact Hs].
  by eapply same_spaces_insert.
Qed.
End ReleaseSend.

(** ** A right leaves its entry and stays alive *)

Section VacateRight.
Context (Sp : gmap N (ipc_space T)) (E : gmap N ipc_entry) (O : gmap N kobject) (M : gmap N ipc_marequest).
Context (B : gmap N (list N)) (Th : gmap N ipc_thread) (Km : gmap N ipc_kmsg) (Ts : N) (Ca : list call) (Cc : gmap N C).
Context (G : gmap N eslot) (n : naked) (ea sp name : N) (c : cap) (p : ipc_port).
#[local] Abbreviation K := (Kernel Sp E O M B Th Km Ts Ca Cc).
#[local] Abbreviation G' := (<[ea := Slot sp name Held]> G).
Context (Hinv : Inv K G n) (Hg : G !! ea = Some (Slot sp name (Used c))).
Context (Hp : O !! c_obj c = Some (KPort p)) (Hact : ip_active p = true).

Lemma inv_vacate ot e' S t M' B' :
  c_type c = TSend ∨ c_type c = TSonce → ie_name e' = name →
  Sp !! sp = Some S → rev_ok G' sp t → mar_ok Sp G' M' B' → dn_ok G' (c_obj c) ot →
  Inv (Kernel (<[sp := set_is_reverse_map t S]> Sp) (<[ea := e']> E)
         (<[c_obj c := KPort (set_ip_dnrequests ot p)]> O) M' B' Th Km Ts Ca Cc)
    G' (upd_naked n (c_obj c) (add_right (c_type c) (n (c_obj c)))).
Proof.
  intros Ht Hn HS Hrev Hmar Hdn. pose proof Hinv as [Hcc Hent Hobj _ Hq]. ksimpl_all.
  destruct (oi_objects _ _ _ _ Hobj _ _ Hp) as (Haddr & _ & Hport).
  eapply (inv_step Sp E O M B Th Km Ts Ca Cc G n Hinv (c_obj c) p); try done; [by left|].
  pose proof (po_pos _ _ _ _ _ _ Hport). pose proof (po_naked _ _ _ _ _ _ Hport). pose proof (po_pd _ _ _ _ _ _ Hport).
  assert (is_recv (c_type c) = false) as Hnr by (by destruct Ht as [-> | ->]).
  assert (Nb (is_send (c_type c)) + Nb (is_sonce (c_type c)) = 1) as Hone by (by destruct Ht as [-> | ->]).
  unfold add_right. rewrite Hnr.
  eapply (port_ok_step Sp O G n ea sp name (Used c) Held (c_obj c) p); try done;
    rewrite ?on_used, ?Hnr; cbn [on holds Nb sl_state nk_refs nk_send nk_sonce nk_recv nk_pd nk_kern]; psimpl; try lia;
    first [apply Haddr | apply Hport].
Qed.

Lemma release_sonce_entry_spec Q :
  c_type c = TSonce →
  (∀ K' G1, Inv K' G1 (upd_naked n (c_obj c) (add_right TSonce (n (c_obj c)))) → freed G ea sp name G1 →
     same_spaces (k_spaces K) (k_spaces K') → Q KERN_SUCCESS K') →
  wp (release_sonce_entry sp name ea (c_obj c)) Q K.
Proof.
  intros Ht HQ. destruct (inv_port_cap _ _ _ _ _ _ _ Hinv Hg)
    as (Hwf & Haddr & p' & e & S & Hp' & He & HS & HSa & Hport & Hb & Ho & Hr & Hn & _); [congruence..|].
  pose proof Hinv as [Hcc Hent Hobj Hmar Hq]. ksimpl_all. rewrite Hp in Hp'. injection Hp' as <-.
  destruct (ei_slots _ _ _ Hent _ _ Hg) as [_ [Hn0 _] _ _]. simpl in Hn0.
  destruct (ei_spaces _ _ _ Hent _ _ HS HSa) as [_ _ Hrev _].
  unfold release_sonce_entry. kstep. eapply (dncancel_spec _ G ea sp name c Held p e); try done; [by apply Hport|].
  intros r ot e' Hdn Hn' Hb' Ho' Hr'. ksteps. rewrite insert_insert_eq.
  eapply (inv_dealloc _ (<[ea := Slot sp name Held]> G) (upd_naked n (c_obj c) (add_right TSonce (n (c_obj c)))));
    [|klookup|klookup|done|done|].
  - rewrite <- (insert_id Sp sp (set_is_reverse_map (is_reverse_map S) S)) at 1 by (by destruct S).
    rewrite <- Ht. eapply inv_vacate; [by right|cbn; congruence|done| | |done].
    + eapply rev_ok_update; [done|intros _; simpl; by rewrite Ht|done].
    + eapply mar_ok_update; [done|done|]. unfold cap_wf in Hwf. rewrite Ht in Hwf. simpl. symmetry. tauto.
  - intros [Sp1 E1 O1 M1 B1 Th1 Km1 Ts1 Ca1 Cc1] G1 HK' Hf%freed_insert [_ HSp]. ksteps.
    apply notify_port_deleted_spec. intros Ca'. ksteps. eapply HQ; [exact (inv_calls _ _ _ Ca' HK')|done|done].
Qed.
End VacateRight.

(** ** User references *)

Definition set_urefs (u : N) (c : cap) : cap := Cap (c_type c) (c_obj c) u (c_req c) (c_ma c).

(** Only the user references of an entry change. *)
Lemma inv_urefs K G n ea sp name c u e' :
  Inv K G n → G !! ea = Some (Slot sp name (Used c)) → c_type c ≠ TPset → cap_wf (set_urefs u c) →
  entry_rep e' (Slot sp name (Used (set_urefs u c))) →
  Inv (set_k_entries (<[ea := e']> (k_entries K)) K) (<[ea := Slot sp name (Used (set_urefs u c))]> G) n.
Proof.
  intros Hinv Hg Hps Hwf' He'. destruct (decide (c_type c = TDead)) as [Hd|Hd].
  { pose proof (oi_caps _ _ _ _ (inv_objs _ _ _ Hinv) _ _ _ _ Hg) as [Hwf _].
    by eapply (inv_vacant_step K G n ea sp name (Used c)). }
  destruct (inv_port_cap _ _ _ _ _ _ _ Hinv Hg Hd Hps) as (Hwf & Haddr & p & e & S & Hp & He & HS & HSa & Hport & _).
  destruct K as [Sp E O M B Th Km Ts Ca Cc]. ksimpl_all. rewrite <- (insert_id O (c_obj c) (KPort p)) by done.
  eapply inv_naked_ext; [intros a; symmetry; apply (upd_naked_id n (c_obj c))|].
  pose proof (po_naked _ _ _ _ _ _ Hport). pose proof (po_pos _ _ _ _ _ _ Hport).
  eapply (inv_step_same Sp E O M B Th Km Ts Ca Cc G n Hinv (c_obj c) p); try done; [by left|by left| | | | |].
  - intros c' [= <-]. rewrite insert_id by done. split; [done|].
    apply (oi_caps _ _ _ _ (inv_objs _ _ _ Hinv) _ _ _ _ Hg).
  - intros o Ho. by left.
  - eapply mar_ok_update; [apply (inv_mars _ _ _ Hinv)|done|done].
  - apply (inv_caches _ _ _ Hinv).
  - eapply (port_ok_step Sp O G n ea sp name (Used c)); try done; try apply Haddr; try apply Hport;
      change (c_obj c) with (c_obj (set_urefs u c)) at 1; try (rewrite !on_used; cbn [set_urefs c_type c_obj]; done).
    intros Ha. eapply dn_ok_keep; [done|by apply Hport|by right].
Qed.

(** ** [ipc_right_dealloc] *)

(** A capability as its space sees it: a dead name if its port has died. *)
Definition settle (O : gmap N kobject) (c : cap) : cap :=
  match c_type c, O !! c_obj c with
  | (TSend | TSonce), Some (KPort p) => if ip_active p then c else dead_cap c
  | _, _ => c
  end.

(** What the release of a user reference does to a capability: [None] when it
    has none, [Some None] when the name goes away. *)
Definition dealloc_cap (c : cap) : option (option cap) :=
  match c_type c with
  | TDead | TSend => Some (if c_urefs c =? 1 then None else Some (set_urefs (c_urefs c - 1) c))
  | TSonce => Some None
  | TSendRecv =>
      Some (Some (if c_urefs c =? 1 then Cap TRecv (c_obj c) 0 (c_req c) (c_ma c)
                  else set_urefs (c_urefs c - 1) c))
  | TRecv | TPset => None
  end.

Lemma entry_rep_urefs e sp name c u :
  entry_rep e (Slot sp name (Used c)) → entry_rep (set_ie_bits (cap_bits (set_urefs u c)) e) (Slot sp name (Used (set_urefs u c))).
Proof. intros (Hn & Hb & Ho & Hr). unfold entry_rep in *. simpl in *. done. Qed.

Lemma decr_cap c : cap_wf c → c_urefs c ≠ 0 → decr (cap_bits c) = cap_bits (set_urefs (c_urefs c - 1) c).
Proof.
  intros Hwf Hu. apply decr_bits; [by apply cap_urefs_lt| |done]. by destruct (c_type c), (c_ma c).
Qed.

Lemma dealloc_dead_name_spec K G n ea sp name c Q :
  Inv K G n → G !! ea = Some (Slot sp name (Used c)) → c_type c = TDead →
  (∀ K' G' oc, Inv K' G' n → dealloc_cap c = Some oc → becomes G ea sp name oc G' → quiet K K' → Q KERN_SUCCESS K') →
  wp (dealloc_dead_name sp name ea (cap_bits c)) Q K.
Proof.
  intros Hinv Hg Ht HQ. pose proof (oi_caps _ _ _ _ (inv_objs _ _ _ Hinv) _ _ _ _ Hg) as [Hwf _].
  destruct (ei_slots _ _ _ (inv_ents _ _ _ Hinv) _ _ Hg) as [_ _ _ (e & He & Hrep)].
  pose proof Hrep as (Hn & Hb & Ho & Hr). cbn [sl_name sl_state] in *.
  pose proof Hwf as Hwf0. unfold cap_wf in Hwf0. rewrite Ht in Hwf0. destruct Hwf0 as (Ho0 & [Hu0 Hu1] & Hr0 & Hma).
  unfold dealloc_dead_name. captests. rewrite (proj2 (N.eqb_neq (c_urefs c) 0)) by lia. ksteps. rewrite Hr, Ho, Ho0, Hr0, Hma. ksteps.
  destruct (N.eqb_spec (c_urefs c) 1) as [H1|H1].
  - eapply (inv_dealloc _ (<[ea := Slot sp name Held]> G)); [by eapply inv_hold|klookup|klookup|congruence|congruence|].
    intros K' G' HK' Hf%freed_insert Hqt. ksteps. apply (HQ K' G' None); try done. unfold dealloc_cap. by rewrite Ht, H1.
  - rewrite decr_cap by (done || lia). ksteps.
    eapply (HQ _ _ (Some (set_urefs (c_urefs c - 1) c))); [|unfold dealloc_cap; by rewrite Ht, (proj2 (N.eqb_neq _ _) H1)|done|by destruct K].
    eapply (inv_urefs K G n ea sp name c); [done|done|congruence| |by apply entry_rep_urefs].
    unfold cap_wf. cbn [set_urefs c_type c_obj c_urefs c_req c_ma]. rewrite Ht. split_and!; try done; lia.
Qed.

Definition dealloc_post K G n (ea sp name : N) (c : cap) (kr : N) K' : Prop :=
  ∃ G' n', Inv K' G' n' ∧ same_spaces (k_spaces K) (k_spaces K') ∧
    match dealloc_cap (settle (k_objects K) c) with
    | None => kr = KERN_INVALID_RIGHT ∧ G' = G
    | Some oc => kr = KERN_SUCCESS ∧ becomes G ea sp name oc G'
    end ∧
    n' = match c_type (settle (k_objects K) c) with
         | TSonce => upd_naked n (c_obj c) (add_right TSonce (n (c_obj c)))
         | _ => n
         end.

Lemma settle_dead O c p :
  c_type c = TSend ∨ c_type c = TSonce → O !! c_obj c = Some (KPort p) → ip_active p = false → settle O c = dead_cap c.
Proof. intros Ht Hp Hd. unfold settle. rewrite Hp, Hd. by destruct Ht as [-> | ->]. Qed.
Lemma settle_live O c p : O !! c_obj c = Some (KPort p) → ip_active p = true → settle O c = c.
Proof. intros Hp Hd. unfold settle. rewrite Hp, Hd. by destruct (c_type c). Qed.

(** The dead case, shared by send and send-once rights. *)
Lemma dealloc_dead_spec K G n ea sp name c p Q :
  Inv K G n → G !! ea = Some (Slot sp name (Used c)) → c_type c = TSend ∨ c_type c = TSonce →
  k_objects K !! c_obj c = Some (KPort p) → ip_active p = false →
  (∀ kr K', dealloc_post K G n ea sp name c kr K' → Q kr K') →
  ∀ k, wp (ipc_right_check sp (c_obj c) name ea)
         (λ dead : bool, wp (if dead then
                               e ← load_entry ea;
                               check (IE_BITS_TYPE (ie_bits e) =? MACH_PORT_TYPE_DEAD_NAME);;
                               dealloc_dead_name sp name ea (ie_bits e)
                             else k) Q) K.
Proof.
  intros Hinv Hg Ht Hp Hd HQ k.
  eapply (check_dead K G n ea sp name c p); try done; [destruct Ht; congruence..|].
  intros [Sp1 E1 O1 M1 B1 Th1 Km1 Ts1 Ca1 Cc1] HK1 [_ HSp1]. ksimpl_all.
  assert (<[ea := Slot sp name (Used (dead_cap c))]> G !! ea = Some (Slot sp name (Used (dead_cap c)))) as Hg1
    by apply lookup_insert_eq.
  pose proof (oi_caps _ _ _ _ (inv_objs _ _ _ HK1) _ _ _ _ Hg1) as [Hwf1 _].
  destruct (ei_slots _ _ _ (inv_ents _ _ _ HK1) _ _ Hg1) as [_ _ _ (e1 & He1 & _ & Hb1 & _)]. ksimpl_all.
  ksteps. rewrite Hb1. captests. ksteps. eapply (dealloc_dead_name_spec _ _ n); [done|done|done|].
  intros K' G' oc HK' Hoc Hbec [_ HSp']. apply HQ. exists G', n. rewrite (settle_dead _ _ p) by done. rewrite Hoc.
  split_and!; [done| |done| |done].
  - eapply same_spaces_trans; [exact HSp1|]. destruct K'. exact HSp'.
  - destruct oc as [c'|]; simpl in *; [by rewrite insert_insert_eq in Hbec|by eapply freed_insert].
Qed.

(** A right that an entry holds is counted in the port. *)
Lemma send_counted Sp O G n pa p ea sp name c :
  port_ok (T := T) Sp O G n pa p → ip_active p = true → G !! ea = Some (Slot sp name (Used c)) → c_obj c = pa →
  is_send (c_type c) = true → 0 < ip_srights p.
Proof.
  intros Hport Hact Hg <- Ht. rewrite (po_send _ _ _ _ _ _ Hport Hact). enough (0 < n_send G (c_obj c)) by lia.
  apply (count_pos _ _ ea _ Hg). unfold holds. simpl. by rewrite N.eqb_refl, Ht.
Qed.
Lemma sonce_counted Sp O G n pa p ea sp name c :
  port_ok (T := T) Sp O G n pa p → G !! ea = Some (Slot sp name (Used c)) → c_obj c = pa →
  is_sonce (c_type c) = true → 0 < ip_sorights p.
Proof.
  intros Hport Hg <- Ht. destruct Hport as [_ _ _ _ _ _ [Hle _] _ _ _ _ _ _ _].
  enough (0 < n_sonce G (c_obj c)) by lia. apply (count_pos _ _ ea _ Hg). unfold holds. simpl. by rewrite N.eqb_refl, Ht.
Qed.

(** The last send right in an entry that also has the receive right. *)
Lemma inv_drop_send_recv Sp E O M B Th Km Ts Ca Ca' (Cc : gmap N C) G n ea sp name c p nsr e :
  Inv (Kernel Sp E O M B Th Km Ts Ca Cc) G n → G !! ea = Some (Slot sp name (Used c)) → c_type c = TSendRecv →
  O !! c_obj c = Some (KPort p) → E !! ea = Some e →
  Inv (Kernel Sp (<[ea := set_ie_bits (N.ldiff (cap_bits c) (N.lor IE_BITS_UREFS_MASK MACH_PORT_TYPE_SEND)) e]> E)
         (<[c_obj c := KPort (set_ip_nsrequest nsr (set_ip_srights (ip_srights p - 1) p))]> O) M B Th Km Ts Ca' Cc)
    (<[ea := Slot sp name (Used (Cap TRecv (c_obj c) 0 (c_req c) (c_ma c)))]> G) n.
Proof.
  intros Hinv Hg Ht Hp He. destruct (inv_port_cap _ _ _ _ _ _ _ Hinv Hg)
    as (Hwf & Haddr & p' & e' & S & Hp' & He' & HS & HSa & Hport & Hb & Ho & Hr & Hn & Hrecv); [congruence..|].
  ksimpl_all. rewrite Hp in Hp'. injection Hp' as <-. rewrite He in He'. injection He' as <-. rewrite Ht in Hrecv.
  destruct (Hrecv eq_refl) as (Hact & Hrs & Hrn). pose proof (po_pos _ _ _ _ _ _ Hport).
  pose proof (send_counted _ _ _ _ _ _ _ _ _ _ Hport Hact Hg eq_refl) as Hs. rewrite Ht in Hs. specialize (Hs eq_refl).
  eapply inv_naked_ext; [intros a; symmetry; apply (upd_naked_id n (c_obj c))|].
  eapply (inv_step_same Sp E O M B Th Km Ts Ca Cc G n Hinv (c_obj c) p); try done; [by left|by left| | | | | | |].
  - unfold entry_rep. cbn [sl_name sl_state c_obj c_req]. split_and!; [done| |done|done].
    unfold cap_bits. rewrite Ht. cbn [set_ie_bits ie_bits c_urefs c_type c_ma].
    change (N.lor IE_BITS_UREFS_MASK MACH_PORT_TYPE_SEND) with (65535 + 2 ^ 16 * 1).
    rewrite ldiff_all by by apply cap_urefs_lt. by destruct (c_ma c).
  - intros c' [= <-]. split.
    + unfold cap_wf. cbn. unfold cap_wf in Hwf. rewrite Ht in Hwf. tauto.
    + eexists. rewrite lookup_insert_eq. split; [done|]. intros _. by split_and!.
  - intros o [= <-]. left. simpl. by rewrite Ht.
  - simpl. by rewrite Ht.
  - eapply mar_ok_update; [apply (inv_mars _ _ _ Hinv)|done|done].
  - apply (inv_caches _ _ _ Hinv).
  - eapply (port_ok_step Sp O G n ea sp name (Used c)); try done; try apply Haddr; try apply Hport;
      rewrite ?on_cap, ?on_used, ?Ht; cbn [is_recv is_send is_sonce Nb]; psimpl; try lia.
    intros _. eapply dn_ok_keep; [done|by apply Hport|by right].
Qed.

(** ** The four cases with a live port *)

Section Live.
Context (Sp : gmap N (ipc_space T)) (E : gmap N ipc_entry) (O : gmap N kobject) (M : gmap N ipc_marequest).
Context (B : gmap N (list N)) (Th : gmap N ipc_thread) (Km : gmap N ipc_kmsg) (Ts : N) (Ca : list call) (Cc : gmap N C).
Context (G : gmap N eslot) (n : naked) (ea sp name : N) (c : cap) (p : ipc_port) (e : ipc_entry).
#[local] Abbreviation K := (Kernel Sp E O M B Th Km Ts Ca Cc).
Context (Hinv : Inv K G n) (Hg : G !! ea = Some (Slot sp name (Used c))).
Context (Hp : O !! c_obj c = Some (KPort p)) (Hact : ip_active p = true) (He : E !! ea = Some e).
Context (Hrep : entry_rep e (Slot sp name (Used c))).

(** The count of user references drops to [u], which is not 0. *)
Lemma inv_keep_urefs u Ca' :
  is_send (c_type c) = true → 0 < u < MACH_PORT_UREFS_MAX →
  Inv (Kernel Sp (<[ea := set_ie_bits (cap_bits (set_urefs u c)) e]> E) O M B Th Km Ts Ca' Cc)
    (<[ea := Slot sp name (Used (set_urefs u c))]> G) n.
Proof.
  intros Ht Hu. pose proof (oi_caps _ _ _ _ (inv_objs _ _ _ Hinv) _ _ _ _ Hg) as [Hwf _].
  apply (inv_calls (Kernel _ _ _ _ _ _ _ _ Ca _) _ _ Ca').
  apply (inv_urefs K G n ea sp name c u); [done|done|by destruct (c_type c)| |by apply entry_rep_urefs].
  unfold cap_wf in *. cbn [set_urefs c_type c_obj c_urefs]. by destruct (c_type c); try done; destruct Hwf.
Qed.

(** The last user reference of a send right goes away. *)
Lemma drop_last_send_spec Q :
  c_type c = TSend →
  (∀ K' G', Inv K' G' n → freed G ea sp name G' → same_spaces Sp (k_spaces K') → Q KERN_SUCCESS K') →
  wp ('(ns, dnrequest) ← (ns ← drop_send_right (c_obj c);
                          dnrequest ← release_send_entry sp name ea (cap_bits c) (c_obj c);
                          mret (ns, dnrequest));
      notify_no_senders ns;;
      notify_port_deleted dnrequest name;;
      mret KERN_SUCCESS) Q K.
Proof.
  intros Ht HQ. destruct (inv_port_cap _ _ _ _ _ _ _ Hinv Hg)
    as (_ & _ & p' & _ & _ & Hp' & _ & _ & _ & Hport & _); [congruence..|]. ksimpl_all.
  rewrite Hp in Hp'. injection Hp' as <-. pose proof (srights_bounds _ _ _ _ _ _ Hport Hact).
  assert (0 < ip_srights p) by (eapply send_counted; [done|done|exact Hg|done|by rewrite Ht]).
  do 2 kstep. eapply drop_send_right_spec; [done|done|]. intros ns nsr. kstep.
  eapply (release_send_entry_spec Sp E O M B Th Km Ts Ca Cc); try done.
  intros dn [Sp1 E1 O1 M1 B1 Th1 Km1 Ts1 Ca1 Cc1] G' HK' Hf [_ HSp]. ksteps.
  apply notify_no_senders_spec. intros Ca2. ksteps. apply notify_port_deleted_spec. intros Ca3. ksteps.
  eapply HQ; [exact (inv_calls _ _ _ Ca3 HK')|done|done].
Qed.
End Live.

Lemma dealloc_post_intro K G n ea sp name c kr K' G' :
  settle (k_objects K) c = c → c_type c ≠ TSonce → Inv K' G' n → same_spaces (k_spaces K) (k_spaces K') →
  match dealloc_cap c with
  | None => kr = KERN_INVALID_RIGHT ∧ G' = G
  | Some oc => kr = KERN_SUCCESS ∧ becomes G ea sp name oc G'
  end → dealloc_post K G n ea sp name c kr K'.
Proof. intros Hs Ht HK' HSp Hc. exists G', n. rewrite Hs. split_and!; [done..|]. by destruct (c_type c). Qed.

Lemma settle_other O c : c_type c ≠ TSend → c_type c ≠ TSonce → settle O c = c.
Proof. unfold settle. by destruct (c_type c). Qed.

Section Cases.
Context (Sp : gmap N (ipc_space T)) (E : gmap N ipc_entry) (O : gmap N kobject) (M : gmap N ipc_marequest).
Context (B : gmap N (list N)) (Th : gmap N ipc_thread) (Km : gmap N ipc_kmsg) (Ts : N) (Ca : list call) (Cc : gmap N C).
Context (G : gmap N eslot) (n : naked) (ea sp name : N) (c : cap) (p : ipc_port) (e : ipc_entry).
#[local] Abbreviation K := (Kernel Sp E O M B Th Km Ts Ca Cc).
Context (Hinv : Inv K G n) (Hg : G !! ea = Some (Slot sp name (Used c))).
Context (Hp : O !! c_obj c = Some (KPort p)) (Hact : ip_active p = true) (He : E !! ea = Some e).
Context (Hrep : entry_rep e (Slot sp name (Used c))).

Lemma dealloc_sonce_live :
  c_type c = TSonce →
  wp (p ← load_port (c_obj c);
      check (negb (ip_sorights p =? 0));;
      release_sonce_entry sp name ea (c_obj c)) (dealloc_post K G n ea sp name c) K.
Proof.
  intros Ht. destruct (oi_objects _ _ _ _ (inv_objs _ _ _ Hinv) _ _ Hp) as (_ & _ & Hport). ksimpl_all.
  assert (0 < ip_sorights p) by (eapply sonce_counted; [done|exact Hg|done|by rewrite Ht]).
  ksteps. rewrite (proj2 (N.eqb_neq (ip_sorights p) 0)) by lia. ksteps.
  eapply release_sonce_entry_spec; try done. intros K' G1 HK' Hf HSp. exists G1. eexists.
  erewrite settle_live by done. unfold dealloc_cap. rewrite Ht. by split_and!.
Qed.

Lemma dealloc_send_live :
  c_type c = TSend →
  wp (p ← load_port (c_obj c);
      check (negb (ip_srights p =? 0));;
      '(ns, dnrequest) ←
        (if c_urefs c =? 1 then
           ns ← drop_send_right (c_obj c);
           dnrequest ← release_send_entry sp name ea (cap_bits c) (c_obj c);
           mret (ns, dnrequest)
         else upd_entry ea (set_ie_bits (decr (cap_bits c)));; mret ((IP_NULL, 0), IP_NULL));
      notify_no_senders ns;;
      notify_port_deleted dnrequest name;;
      mret KERN_SUCCESS) (dealloc_post K G n ea sp name c) K.
Proof.
  intros Ht. destruct (oi_objects _ _ _ _ (inv_objs _ _ _ Hinv) _ _ Hp) as (_ & _ & Hport). ksimpl_all.
  pose proof (oi_caps _ _ _ _ (inv_objs _ _ _ Hinv) _ _ _ _ Hg) as [Hwf _].
  assert (0 < ip_srights p) by (eapply send_counted; [done|done|exact Hg|done|by rewrite Ht]).
  assert (∀ K' G', Inv K' G' n → same_spaces Sp (k_spaces K') →
    becomes G ea sp name (if c_urefs c =? 1 then None else Some (set_urefs (c_urefs c - 1) c)) G' →
    dealloc_post K G n ea sp name c KERN_SUCCESS K') as Hfin.
  { intros K' G' HK' HSp Hbec. apply (dealloc_post_intro _ _ _ _ _ _ _ _ _ G'); [by apply (settle_live _ _ p)|congruence|done|done|].
    unfold dealloc_cap. by rewrite Ht. }
  do 2 kstep. rewrite (proj2 (N.eqb_neq (ip_srights p) 0)) by lia. do 2 kstep.
  destruct (N.eqb_spec (c_urefs c) 1) as [Hu|Hu].
  - eapply (drop_last_send_spec Sp E O M B Th Km Ts Ca Cc); try done. intros. by eapply Hfin.
  - ksteps. unfold cap_wf in Hwf. rewrite Ht in Hwf. rewrite decr_cap; [|unfold cap_wf; by rewrite Ht|lia].
    eapply Hfin; [|done|done]. eapply inv_keep_urefs; [done|done|done|by rewrite Ht|lia].
Qed.

Lemma dealloc_send_receive :
  c_type c = TSendRecv →
  wp (p ← load_port (c_obj c);
      check (ip_active p);;
      check (ip_receiver_name p =? name);;
      check (ip_receiver p =? sp);;
      check (negb (ip_srights p =? 0));;
      ns ← (if c_urefs c =? 1 then
              ns ← drop_send_right (c_obj c);
              upd_entry ea (set_ie_bits (N.ldiff (cap_bits c) (N.lor IE_BITS_UREFS_MASK MACH_PORT_TYPE_SEND)));;
              mret ns
            else upd_entry ea (set_ie_bits (decr (cap_bits c)));; mret (IP_NULL, 0));
      notify_no_senders ns;;
      mret KERN_SUCCESS) (dealloc_post K G n ea sp name c) K.
Proof.
  intros Ht. destruct (oi_objects _ _ _ _ (inv_objs _ _ _ Hinv) _ _ Hp) as (_ & _ & Hport). ksimpl_all.
  pose proof (oi_caps _ _ _ _ (inv_objs _ _ _ Hinv) _ _ _ _ Hg) as Hcap. pose proof Hcap as [Hwf _].
  assert (0 < ip_srights p) by (eapply send_counted; [done|done|exact Hg|done|by rewrite Ht]).
  pose proof (srights_bounds _ _ _ _ _ _ Hport Hact).
  destruct (cap_ok_port_of _ _ _ _ Hcap) as (p' & Hp' & Hrecv); [congruence..|]. ksimpl_all. rewrite Hp in Hp'.
  injection Hp' as <-. rewrite Ht in Hrecv. destruct (Hrecv eq_refl) as (_ & Hrs & Hrn).
  assert (∀ K' G', Inv K' G' n → same_spaces Sp (k_spaces K') →
    becomes G ea sp name (Some (if c_urefs c =? 1 then Cap TRecv (c_obj c) 0 (c_req c) (c_ma c)
                                else set_urefs (c_urefs c - 1) c)) G' →
    dealloc_post K G n ea sp name c KERN_SUCCESS K') as Hfin.
  { intros K' G' HK' HSp Hbec. apply (dealloc_post_intro _ _ _ _ _ _ _ _ _ G'); [by apply (settle_live _ _ p)|congruence|done|done|].
    unfold dealloc_cap. by rewrite Ht. }
  ksteps. keqb. ksteps. keqb. ksteps. rewrite (proj2 (N.eqb_neq (ip_srights p) 0)) by lia. ksteps.
  destruct (N.eqb_spec (c_urefs c) 1) as [Hu|Hu]; ksteps.
  - eapply drop_send_right_spec; [done|done|]. intros ns nsr. ksteps. apply notify_no_senders_spec. intros Ca'. ksteps.
    eapply Hfin; [|done|done]. by eapply inv_drop_send_recv.
  - unfold cap_wf in Hwf. rewrite Ht in Hwf. rewrite decr_cap; [|unfold cap_wf; by rewrite Ht|lia].
    apply notify_no_senders_spec. intros Ca'. ksteps.
    eapply Hfin; [|done|done]. eapply inv_keep_urefs; [done|done|done|by rewrite Ht|lia].
Qed.
End Cases.

Lemma ipc_right_dealloc_spec K G n ea sp name c :
  Inv K G n → G !! ea = Some (Slot sp name (Used c)) →
  wp (ipc_right_dealloc sp name ea) (dealloc_post K G n ea sp name c) K.
Proof.
  intros Hinv Hg. pose proof (oi_caps _ _ _ _ (inv_objs _ _ _ Hinv) _ _ _ _ Hg) as Hcap.
  pose proof Hcap as [Hwf _]. destruct (ei_slots _ _ _ (inv_ents _ _ _ Hinv) _ _ Hg) as [_ _ (S & HS & HSa) (e & He & Hrep)].
  pose proof Hrep as (Hn & Hb & Ho & Hr). cbn [sl_name sl_state sl_space] in *. pose proof Hwf as Hwf0. unfold cap_wf in Hwf0.
  destruct K as [Sp E O M B Th Km Ts Ca Cc]. ksimpl_all. unfold ipc_right_dealloc. ksteps. rewrite Hb, Ho.
  destruct (c_type c) eqn:Ht; captests.
  - eapply dealloc_dead_name_spec; try done. intros K' G' oc HK' Hoc Hbec [_ HSp].
    eapply dealloc_post_intro; [by apply settle_other; congruence|congruence|done|done|]. by rewrite Hoc.
  - ksteps. eapply dealloc_post_intro; [by apply settle_other; congruence|congruence|done|done|].
    unfold dealloc_cap. by rewrite Ht.
  - destruct (cap_ok_port_of _ _ _ _ Hcap) as (p & Hp & _); [congruence..|]. destruct Hwf0 as (Ho0 & Hu & Hma).
    rewrite Hu, Hma. ksteps. keqb. ksteps. destruct (ip_active p) eqn:Hact; [|by eapply dealloc_dead_spec; eauto].
    eapply check_live; try done; [congruence..|]. by eapply dealloc_sonce_live.
  - destruct (cap_ok_port_of _ _ _ _ Hcap) as (p & Hp & _); [congruence..|]. destruct Hwf0 as (Ho0 & Hu).
    rewrite (proj2 (N.eqb_neq (c_urefs c) 0)) by lia. ksteps. keqb. ksteps.
    destruct (ip_active p) eqn:Hact; [|by eapply dealloc_dead_spec; eauto].
    eapply check_live; try done; [congruence..|]. by eapply dealloc_send_live.
  - ksteps. eapply dealloc_post_intro; [by apply settle_other; congruence|congruence|done|done|].
    unfold dealloc_cap. by rewrite Ht.
  - destruct (cap_ok_port_of _ _ _ _ Hcap) as (p & Hp & Hrecv); [congruence..|]. destruct Hwf0 as (Ho0 & Hu).
    rewrite Ht in Hrecv. destruct (Hrecv eq_refl) as (Hact & _).
    rewrite (proj2 (N.eqb_neq (c_urefs c) 0)) by lia. ksteps. keqb. kstep. by eapply dealloc_send_receive.
Qed.
End Dealloc.
