(* ===== verification/IpcDelta.v ===== *)
(** [ipc_right_delta] for send rights, send-once rights and dead names: the
    result and the new capability as a function of the old one. *)

From S2P Require Import Prelude Kmem Rdxtree RdxtreeInv RdxtreeSpec RdxtreeMap IpcTypes IpcEntry IpcPort IpcMarequest IpcRight IpcBits IpcInv IpcUpdate IpcDn IpcMar IpcStep IpcRelease IpcCheck IpcVacate IpcDealloc.

Open Scope N_scope.

(** ** The arithmetic of user references *)

(** A signed 32-bit integer. *)
Definition is_int (delta : Z) : Prop := (- 2 ^ 31 ≤ delta < 2 ^ 31)%Z.

(** The count after the change, or the error: counts stay within [max]. *)
Definition change_urefs (max u : N) (delta : Z) : kern_return_t + N :=
  let v := (Z.of_N u + delta)%Z in
  if (v <? 0)%Z then inl KERN_INVALID_VALUE
  else if (Z.of_N max <? v)%Z then inl KERN_UREFS_OVERFLOW
  else inr (Z.to_N v).

(** The macros compute it, with 32-bit sums; [k] is the margin of send rights. *)
Lemma change_urefs_macros {A} k max u delta (x y z : A) :
  is_int delta → u ≤ max → max + k = MACH_PORT_UREFS_MAX →
  (if MACH_PORT_UREFS_UNDERFLOW u delta then x
   else if MACH_PORT_UREFS_OVERFLOW (u + k) delta then y else z) =
  match change_urefs max u delta with
  | inl kr => if kr =? KERN_INVALID_VALUE then x else y
  | inr _ => z
  end.
Proof.
  unfold is_int. intros Hd Hu Hk.
  unfold MACH_PORT_UREFS_UNDERFLOW, MACH_PORT_UREFS_OVERFLOW, change_urefs, MACH_PORT_UREFS_MAX in *.
  destruct (Z.ltb_spec delta 0) as [Hneg|Hpos]; cbn [andb].
  - rewrite (proj2 (Z.ltb_ge 0 delta)) by lia. cbn [andb].
    destruct (Z.ltb_spec (Z.of_N u) (- delta)) as [H1|H1].
    + by rewrite (proj2 (Z.ltb_lt _ 0)) by lia.
    + rewrite (proj2 (Z.ltb_ge _ 0)) by lia. by rewrite (proj2 (Z.ltb_ge (Z.of_N max) _)) by lia.
  - rewrite (proj2 (Z.ltb_ge _ 0)) by lia. unfold urefs_add. rewrite Z.mod_small by lia.
    destruct (Z.ltb_spec (Z.of_N max) (Z.of_N u + delta)) as [H1|H1].
    + rewrite (proj2 (Z.ltb_lt 0 delta)) by lia. cbn [andb].
      rewrite (proj2 (N.ltb_lt 65535 _)) by lia. by rewrite orb_true_r.
    + destruct (Z.ltb_spec 0 delta) as [H2|H2]; [|done]. cbn [andb].
      rewrite (proj2 (N.ltb_ge 65535 _)) by lia. by rewrite (proj2 (N.leb_gt _ (u + k))) by lia.
Qed.

Lemma change_urefs_add max u delta v :
  u ≤ max → max ≤ MACH_PORT_UREFS_MAX → change_urefs max u delta = inr v →
  urefs_add u delta = v ∧ v ≤ max ∧ ∀ q, q < 2 ^ 16 → urefs_add (bits_of u q) delta = bits_of v q.
Proof.
  unfold change_urefs, MACH_PORT_UREFS_MAX. intros Hu Hm. destruct (Z.ltb_spec (Z.of_N u + delta) 0); [done|].
  destruct (Z.ltb_spec (Z.of_N max) (Z.of_N u + delta)); [done|]. intros [= <-]. split_and!; [|lia|].
  - unfold urefs_add. by rewrite Z.mod_small by lia.
  - intros q Hq. apply urefs_add_bits; lia.
Qed.

(** ** The specification *)

Definition live_port (O : gmap N kobject) (c : cap) : bool :=
  match O !! c_obj c with Some (KPort p) => ip_active p | _ => false end.

(** A send right that loses [u] to become [v] references. *)
Definition send_with (c : cap) (v : N) : option cap :=
  if v =? 0 then if is_recv (c_type c) then Some (Cap TRecv (c_obj c) 0 (c_req c) (c_ma c)) else None
  else Some (set_urefs v c).

Definition delta_cap (live : bool) (right : N) (delta : Z) (c : cap) : kern_return_t * option cap :=
  if right =? MACH_PORT_RIGHT_SEND then
    if negb (is_send (c_type c)) then (KERN_INVALID_RIGHT, Some c)
    else match change_urefs (MACH_PORT_UREFS_MAX - 1) (c_urefs c) delta with
         | inl kr => (kr, Some c)
         | inr v => if live then (KERN_SUCCESS, send_with c v) else (KERN_INVALID_RIGHT, Some (dead_cap c))
         end
  else if right =? MACH_PORT_RIGHT_SEND_ONCE then
    if negb (is_sonce (c_type c)) then (KERN_INVALID_RIGHT, Some c)
    else if negb ((delta =? 0) || (delta =? -1))%Z then (KERN_INVALID_VALUE, Some c)
    else if negb live then (KERN_INVALID_RIGHT, Some (dead_cap c))
    else (KERN_SUCCESS, if (delta =? 0)%Z then Some c else None)
  else
    let c := if (is_send (c_type c) || is_sonce (c_type c)) && negb live then dead_cap c else c in
    if negb (bool_decide (c_type c = TDead)) then (KERN_INVALID_RIGHT, Some c)
    else match change_urefs MACH_PORT_UREFS_MAX (c_urefs c) delta with
         | inl kr => (kr, Some c)
         | inr v => (KERN_SUCCESS, if v =? 0 then None else Some (set_urefs v c))
         end.

Section Delta.
Context `{!Config} {T C : Type} `{!KeyMap T} `{!KmemCache C}.
Implicit Types (K : kernel T C) (G : gmap N eslot) (n : naked).

Definition delta_post K G n (ea sp name right : N) (delta : Z) (c : cap) (kr : N) K' : Prop :=
  let r := delta_cap (live_port (k_objects K) c) right delta c in
  kr = r.1 ∧ same_spaces (k_spaces K) (k_spaces K') ∧
  ∃ G', becomes G ea sp name r.2 G' ∧
    Inv K' G' (if (right =? MACH_PORT_RIGHT_SEND_ONCE) && negb (bool_decide (is_Some r.2))
               then upd_naked n (c_obj c) (add_right TSonce (n (c_obj c))) else n).

(** An operation that leaves the capability alone. *)
Lemma becomes_same G ea sp name c : G !! ea = Some (Slot sp name (Used c)) → becomes G ea sp name (Some c) G.
Proof. intros Hg. simpl. by rewrite insert_id. Qed.

(** What [ipc_right_check] finds for a capability for a port. *)
Lemma check_spec K G n ea sp name c Q :
  Inv K G n → G !! ea = Some (Slot sp name (Used c)) → c_type c ≠ TDead → c_type c ≠ TPset →
  (live_port (k_objects K) c = true → Q false K) →
  (live_port (k_objects K) c = false →
   ∀ K', Inv K' (<[ea := Slot sp name (Used (dead_cap c))]> G) n → quiet K K' → Q true K') →
  wp (ipc_right_check sp (c_obj c) name ea) Q K.
Proof.
  intros Hinv Hg Hd Hp Hlive Hdead. destruct (inv_port_cap _ _ _ _ _ _ _ Hinv Hg Hd Hp) as (_ & _ & p & _ & _ & Hpo & _).
  unfold live_port in *. rewrite Hpo in *. destruct (ip_active p) eqn:Hact; [eapply check_live|eapply check_dead]; eauto.
Qed.

Lemma change_cap max c delta v :
  cap_wf c → c_urefs c ≤ max → max ≤ MACH_PORT_UREFS_MAX → change_urefs max (c_urefs c) delta = inr v →
  urefs_add (c_urefs c) delta = v ∧ v ≤ max ∧ urefs_add (cap_bits c) delta = cap_bits (set_urefs v c).
Proof.
  intros Hwf Hu Hm Hv. destruct (change_urefs_add _ _ _ _ Hu Hm Hv) as (? & ? & Hb). split_and!; [done|done|].
  apply Hb. by destruct (c_type c), (c_ma c).
Qed.


(** The end of the dead-name case. *)
Lemma delta_dead_tail K G n ea sp name c delta Q :
  Inv K G n → G !! ea = Some (Slot sp name (Used c)) → c_type c = TDead → is_int delta →
  (∀ K' G', let r := match change_urefs MACH_PORT_UREFS_MAX (c_urefs c) delta with
                     | inl kr => (kr, Some c)
                     | inr v => (KERN_SUCCESS, if v =? 0 then None else Some (set_urefs v c))
                     end in
     Inv K' G' n → becomes G ea sp name r.2 G' → quiet K K' → Q r.1 K') →
  wp (if MACH_PORT_UREFS_UNDERFLOW (c_urefs c) delta then mret KERN_INVALID_VALUE
      else if MACH_PORT_UREFS_OVERFLOW (c_urefs c) delta then mret KERN_UREFS_OVERFLOW
      else
        (if urefs_add (c_urefs c) delta =? 0 then ipc_entry_dealloc sp name ea
         else upd_entry ea (set_ie_bits (urefs_add (cap_bits c) delta)));;
        mret KERN_SUCCESS) Q K.
Proof.
  intros Hinv Hg Ht Hd HQ. pose proof (oi_caps _ _ _ _ (inv_objs _ _ _ Hinv) _ _ _ _ Hg) as [Hwf _].
  destruct (ei_slots _ _ _ (inv_ents _ _ _ Hinv) _ _ Hg) as [_ _ _ (e & He & Hrep)].
  pose proof Hrep as (_ & _ & Ho & Hr). cbn [sl_state] in *. pose proof Hwf as Hwf0. unfold cap_wf in Hwf0. rewrite Ht in Hwf0.
  destruct Hwf0 as (Ho0 & Hu & Hr0 & Hma).
  assert (c_urefs c ≤ MACH_PORT_UREFS_MAX) as Hle by (unfold MACH_PORT_UREFS_MAX; lia).
  rewrite <- (N.add_0_r (c_urefs c)) at 2. rewrite (change_urefs_macros 0 MACH_PORT_UREFS_MAX) by done. cbv zeta in HQ.
  destruct (change_urefs _ _ _) as [kr|v] eqn:Hc.
  - specialize (HQ K G Hinv (becomes_same _ _ _ _ _ Hg) (quiet_refl K)). unfold change_urefs in Hc.
    destruct (_ <? 0)%Z; [by injection Hc as <-|]. destruct (_ <? _)%Z; [by injection Hc as <-|done].
  - destruct (change_cap _ _ _ _ Hwf Hle (N.le_refl _) Hc) as (-> & Hv & ->). kstep. destruct (N.eqb_spec v 0) as [Hv0|Hv0].
    + eapply (inv_dealloc _ (<[ea := Slot sp name Held]> G)); [by eapply inv_hold|klookup|klookup|congruence|congruence|].
      intros K' G' HK' Hf%freed_insert Hqt. kstep. by apply (HQ K' G').
    + ksteps. eapply HQ; [|done|by destruct K].
      eapply (inv_urefs K G n ea sp name c); [done|done|congruence| |by apply entry_rep_urefs].
      unfold cap_wf, MACH_PORT_UREFS_MAX in *. cbn [set_urefs c_type c_obj c_urefs c_req c_ma]. rewrite Ht.
      split_and!; try done; lia.
Qed.

Section Cases.
Context (Sp : gmap N (ipc_space T)) (E : gmap N ipc_entry) (O : gmap N kobject) (M : gmap N ipc_marequest).
Context (B : gmap N (list N)) (Th : gmap N ipc_thread) (Km : gmap N ipc_kmsg) (Ts : N) (Ca : list call) (Cc : gmap N C).
Context (G : gmap N eslot) (n : naked) (ea sp name : N) (c : cap) (e : ipc_entry) (delta : Z).
#[local] Abbreviation K := (Kernel Sp E O M B Th Km Ts Ca Cc).
Context (Hinv : Inv K G n) (Hg : G !! ea = Some (Slot sp name (Used c))) (Hwf : cap_wf c).
Context (He : E !! ea = Some e) (Hrep : entry_rep e (Slot sp name (Used c))) (Hdelta : is_int delta).

Lemma delta_post_same right kr :
  delta_cap (live_port O c) right delta c = (kr, Some c) →
  delta_post K G n ea sp name right delta c kr K.
Proof.
  intros Hr. unfold delta_post. ksimpl. rewrite Hr. split_and!; [done|done|]. exists G.
  split; [by apply becomes_same|]. by rewrite andb_false_r.
Qed.

Lemma delta_post_kept right kr oc K' G' :
  delta_cap (live_port O c) right delta c = (kr, oc) → right ≠ MACH_PORT_RIGHT_SEND_ONCE ∨ is_Some oc →
  Inv K' G' n → becomes G ea sp name oc G' → same_spaces Sp (k_spaces K') →
  delta_post K G n ea sp name right delta c kr K'.
Proof.
  intros Hr Hn HK' Hbec HSp. unfold delta_post. ksimpl. rewrite Hr. split_and!; [done|done|]. exists G'. split; [done|].
  cbn [snd]. destruct Hn as [Hn|Hn]; [by rewrite (proj2 (N.eqb_neq _ _) Hn)|]. by rewrite bool_decide_eq_true_2, andb_false_r.
Qed.

(** The dead case, when the request fails for it. *)
Lemma delta_post_dead right K' :
  delta_cap (live_port O c) right delta c = (KERN_INVALID_RIGHT, Some (dead_cap c)) →
  Inv K' (<[ea := Slot sp name (Used (dead_cap c))]> G) n → quiet K K' →
  delta_post K G n ea sp name right delta c KERN_INVALID_RIGHT K'.
Proof. intros Hr HK' [_ HSp]. eapply delta_post_kept; [done|right; by eexists|done|done|done]. Qed.

(** The entry as a dead name, after [ipc_right_check]. *)
Lemma dead_entry K' :
  Inv K' (<[ea := Slot sp name (Used (dead_cap c))]> G) n →
  ∃ e', k_entries K' !! ea = Some e' ∧ entry_rep e' (Slot sp name (Used (dead_cap c))) ∧ cap_wf (dead_cap c).
Proof.
  intros HK'. assert (<[ea := Slot sp name (Used (dead_cap c))]> G !! ea = Some (Slot sp name (Used (dead_cap c)))) as Hg1
    by apply lookup_insert_eq.
  destruct (oi_caps _ _ _ _ (inv_objs _ _ _ HK') _ _ _ _ Hg1) as [Hwf1 _].
  destruct (ei_slots _ _ _ (inv_ents _ _ _ HK') _ _ Hg1) as [_ _ _ (e1 & He1 & Hrep1)]. by exists e1.
Qed.

Lemma delta_send_once_spec :
  wp (delta_send_once sp name ea delta) (delta_post K G n ea sp name MACH_PORT_RIGHT_SEND_ONCE delta c) K.
Proof.
  pose proof Hrep as (_ & Hb & Ho & _). cbn [sl_state] in *. unfold delta_send_once. ksteps. rewrite Hb, Ho.
  destruct (is_sonce (c_type c)) eqn:Hso.
  2: { captests. rewrite Hso. ksteps. apply delta_post_same. unfold delta_cap. rewrite Hso. done. }
  assert (c_type c = TSonce) as Ht by (by destruct (c_type c)). pose proof Hwf as Hwf0. unfold cap_wf in Hwf0.
  rewrite Ht in Hwf0. destruct Hwf0 as (Ho0 & Hu & Hma). captests. rewrite Hu, Hma. ksteps.
  assert (((0 <? delta) || (delta <? -1) = negb ((delta =? 0) || (delta =? -1)))%Z) as Hval.
  { destruct (Z.ltb_spec 0 delta), (Z.ltb_spec delta (-1)), (Z.eqb_spec delta 0), (Z.eqb_spec delta (-1)); done || lia. }
  rewrite Hval. destruct (negb _) eqn:Hdv.
  { ksteps. apply delta_post_same. unfold delta_cap. rewrite Ht. cbn. by rewrite Hdv. }
  ksteps. keqb. ksteps. eapply check_spec; [done|done|congruence..| |].
  - unfold live_port. ksimpl. destruct (O !! c_obj c) as [[p|]|] eqn:Hp; try done. intros Hact.
    destruct (oi_objects _ _ _ _ (inv_objs _ _ _ Hinv) _ _ Hp) as (_ & _ & Hport). ksimpl_all.
    assert (0 < ip_sorights p) by (eapply sonce_counted; [done|exact Hg|done|by rewrite Ht]).
    ksteps. rewrite (proj2 (N.eqb_neq (ip_sorights p) 0)) by lia. ksteps.
    destruct (Z.eqb_spec delta 0) as [Hd0|Hd0].
    + ksteps. apply delta_post_same. unfold delta_cap, live_port. by rewrite Ht, Hp, Hact, Hd0.
    + eapply release_sonce_entry_spec; try done. intros K' G1 HK' Hf HSp. unfold delta_post, delta_cap, live_port. ksimpl_all.
      rewrite Hp, Hact, Ht. cbn. rewrite !(proj2 (Z.eqb_neq _ _) Hd0), Hdv. split_and!; [done|done|].
      by exists G1.
  - intros Hdead [Sp1 E1 O1 M1 B1 Th1 Km1 Ts1 Ca1 Cc1] HK' Hquiet. destruct (dead_entry _ HK') as (e1 & He1 & (_ & Hb1 & _) & Hwf1).
    cbn [sl_state] in *. ksimpl_all. ksteps. rewrite Hb1. captests. ksteps.
    eapply delta_post_dead; [|done|done]. unfold delta_cap. rewrite Ht. cbn. by rewrite Hdv, Hdead.
Qed.

Lemma delta_dead_name_spec :
  wp (delta_dead_name sp name ea delta) (delta_post K G n ea sp name MACH_PORT_RIGHT_DEAD_NAME delta c) K.
Proof.
  pose proof Hrep as (_ & Hb & Ho & Hr). cbn [sl_state] in *. unfold delta_dead_name. ksteps. rewrite Hb, Ho.
  destruct (is_send (c_type c) || is_sonce (c_type c)) eqn:Hs; captests; rewrite ?Hs.
  - assert (c_obj c ≠ 0) as Ho0 by (unfold cap_wf in Hwf; by destruct (c_type c); try done; destruct Hwf).
    assert (c_type c ≠ TDead ∧ c_type c ≠ TPset) as [Hd Hps] by (by destruct (c_type c)).
    ksteps. keqb. ksteps. eapply check_spec; [done|done|done|done| |].
    + intros Hl. ksimpl_all. ksteps. apply delta_post_same. unfold delta_cap. rewrite Hs, Hl. cbn. by rewrite bool_decide_eq_false_2.
    + intros Hl. ksimpl_all. intros [Sp1 E1 O1 M1 B1 Th1 Km1 Ts1 Ca1 Cc1] HK' [_ HSp].
      destruct (dead_entry _ HK') as (e1 & He1 & (_ & Hb1 & Ho1 & Hr1) & Hwf1). cbn [sl_state] in *. ksimpl_all.
      assert (0 < c_urefs (dead_cap c)) as Hu by (unfold cap_wf in Hwf1; cbn in Hwf1; cbn; tauto).
      cbn [negb]. ksteps. rewrite Hb1. captests. ksteps. rewrite (proj2 (N.eqb_neq (c_urefs (dead_cap c)) 0)) by lia. ksteps. rewrite Ho1, Hr1. ksteps.
      eapply (delta_dead_tail _ _ n ea sp name (dead_cap c)); [done|apply lookup_insert_eq|done|done|].
      cbv zeta. intros K' G' HK1 Hbec [_ HSp'].
      eapply delta_post_kept; [|by left|exact HK1| |by eapply same_spaces_trans].
      * unfold delta_cap. rewrite Hs, Hl. cbn. by rewrite <- surjective_pairing.
      * destruct (_ : _ * option cap).2; simpl in *; [by rewrite insert_insert_eq in Hbec|by eapply freed_insert].
  - destruct (decide (c_type c = TDead)) as [Ht|Ht].
    + pose proof Hwf as Hwf0. unfold cap_wf in Hwf0. rewrite Ht in Hwf0. destruct Hwf0 as (Ho0 & Hu & Hr0 & Hma).
      captests. ksteps. captests. ksteps. rewrite (proj2 (N.eqb_neq (c_urefs c) 0)), Hma by lia. ksteps. rewrite Ho, Ho0, Hr, Hr0. ksteps.
      eapply (delta_dead_tail _ G n ea sp name c); try done. cbv zeta. intros K' G' HK1 Hbec [_ HSp'].
      eapply delta_post_kept; [|by left|exact HK1|exact Hbec|done]. unfold delta_cap. rewrite Hs. cbn.
      rewrite bool_decide_eq_true_2 by done. by rewrite <- surjective_pairing.
    + rewrite bool_decide_eq_false_2 by done. ksteps. apply delta_post_same. unfold delta_cap. rewrite Hs. cbn.
      by rewrite bool_decide_eq_false_2.
Qed.

(** A live send right that ends up with [v] user references. *)
Lemma delta_send_live p v :
  is_send (c_type c) = true → O !! c_obj c = Some (KPort p) → ip_active p = true →
  change_urefs (MACH_PORT_UREFS_MAX - 1) (c_urefs c) delta = inr v →
  wp ('(ns, dnrequest) ←
        (if v =? 0 then
           ns ← drop_send_right (c_obj c);
           dnrequest ←
             (if is_recv (c_type c) then
                check (ip_receiver_name p =? name);;
                check (ip_receiver p =? sp);;
                check (IE_BITS_TYPE (cap_bits c) =? MACH_PORT_TYPE_SEND_RECEIVE);;
                upd_entry ea
                  (set_ie_bits (N.ldiff (cap_bits c) (N.lor IE_BITS_UREFS_MASK MACH_PORT_TYPE_SEND)));;
                mret IP_NULL
              else
                check (IE_BITS_TYPE (cap_bits c) =? MACH_PORT_TYPE_SEND);;
                release_send_entry sp name ea (cap_bits c) (c_obj c));
           mret (ns, dnrequest)
         else upd_entry ea (set_ie_bits (cap_bits (set_urefs v c)));; mret ((IP_NULL, 0), IP_NULL));
      notify_no_senders ns;;
      notify_port_deleted dnrequest name;;
      mret KERN_SUCCESS) (delta_post K G n ea sp name MACH_PORT_RIGHT_SEND delta c) K.
Proof.
  intros Hs Hp Hact Hc. destruct (oi_objects _ _ _ _ (inv_objs _ _ _ Hinv) _ _ Hp) as (_ & _ & Hport). ksimpl_all.
  assert (0 < ip_srights p) by (eapply send_counted; [done|done|exact Hg|done|done]).
  pose proof (srights_bounds _ _ _ _ _ _ Hport Hact). pose proof (oi_caps _ _ _ _ (inv_objs _ _ _ Hinv) _ _ _ _ Hg) as Hcap.
  assert (∀ K' G', Inv K' G' n → same_spaces Sp (k_spaces K') → becomes G ea sp name (send_with c v) G' →
    delta_post K G n ea sp name MACH_PORT_RIGHT_SEND delta c KERN_SUCCESS K') as Hfin.
  { intros K' G' HK' HSp Hbec. eapply delta_post_kept; [|by left|done|done|done].
    unfold delta_cap, live_port. by rewrite Hs, Hc, Hp, Hact. }
  unfold send_with in Hfin. destruct (N.eqb_spec v 0) as [Hv|Hv].
  2: { destruct (change_cap (MACH_PORT_UREFS_MAX - 1) c delta v Hwf) as (_ & Hv' & _); [|done|exact Hc|].
       { unfold cap_wf, MACH_PORT_UREFS_MAX in *. destruct (c_type c); try done; lia. }
       ksteps. eapply Hfin; [|done|done]. eapply inv_keep_urefs; [done|done|done|done|]. unfold MACH_PORT_UREFS_MAX in *. lia. }
  destruct (c_type c) eqn:Ht; try done; cbn [is_recv] in Hfin |- *; captests.
  - assert (c_type c = TSend) as Ht' by done.
    do 2 kstep. eapply drop_send_right_spec; [done|done|]. intros ns nsr. ksteps.
    eapply (release_send_entry_spec Sp E O M B Th Km Ts Ca Cc); try done.
    intros dn [Sp1 E1 O1 M1 B1 Th1 Km1 Ts1 Ca1 Cc1] G' HK' Hf [_ HSp]. ksteps.
    apply notify_no_senders_spec. intros Ca2. ksteps. apply notify_port_deleted_spec. intros Ca3. ksteps.
    eapply Hfin; [exact (inv_calls _ _ _ Ca3 HK')|done|done].
  - destruct (cap_ok_port_of _ _ _ _ Hcap) as (p' & Hp' & Hrecv); [congruence..|]. ksimpl_all. rewrite Hp in Hp'.
    injection Hp' as <-. rewrite Ht in Hrecv. destruct (Hrecv eq_refl) as (_ & Hrs & Hrn).
    do 2 kstep. eapply drop_send_right_spec; [done|done|]. intros ns nsr. ksteps. keqb. ksteps. keqb. ksteps.
    apply notify_no_senders_spec. intros Ca2. ksteps. eapply Hfin; [|done|done]. by eapply inv_drop_send_recv.
Qed.

Lemma delta_send_spec :
  wp (delta_send sp name ea delta) (delta_post K G n ea sp name MACH_PORT_RIGHT_SEND delta c) K.
Proof.
  pose proof Hrep as (_ & Hb & Ho & Hr). cbn [sl_state] in *. unfold delta_send. ksteps.
  rewrite Hb, Ho, cap_has_send, cap_urefs by done. destruct (is_send (c_type c)) eqn:Hs.
  2: { ksteps. apply delta_post_same. unfold delta_cap. by rewrite Hs. }
  assert (c_urefs c ≤ MACH_PORT_UREFS_MAX - 1 ∧ c_obj c ≠ 0) as [Hu Ho0].
  { unfold cap_wf, MACH_PORT_UREFS_MAX in *. destruct (c_type c); try done; lia. }
  assert (c_type c ≠ TDead ∧ c_type c ≠ TPset) as [Hd Hps] by (by destruct (c_type c)). cbn [negb].
  rewrite (change_urefs_macros 1 (MACH_PORT_UREFS_MAX - 1)) by done.
  destruct (change_urefs _ _ _) as [kr|v] eqn:Hc.
  { assert (delta_post K G n ea sp name MACH_PORT_RIGHT_SEND delta c kr K) as Hpost.
    { apply delta_post_same. unfold delta_cap. by rewrite Hs, Hc. }
    unfold change_urefs in Hc. destruct (_ <? 0)%Z; [by injection Hc as <-|]. destruct (_ <? _)%Z; [by injection Hc as <-|done]. }
  destruct (change_cap (MACH_PORT_UREFS_MAX - 1) c delta v Hwf Hu) as (-> & _ & ->); [done|done|].
  ksteps. keqb. ksteps. eapply check_spec; [done|done|done|done| |].
  - unfold live_port. ksimpl. destruct (O !! c_obj c) as [[p|]|] eqn:Hp; try done. intros Hact.
    destruct (oi_objects _ _ _ _ (inv_objs _ _ _ Hinv) _ _ Hp) as (_ & _ & Hport). ksimpl_all.
    assert (0 < ip_srights p) by (eapply send_counted; [done|done|exact Hg|done|done]).
    do 2 kstep. rewrite (proj2 (N.eqb_neq (ip_srights p) 0)) by lia. do 2 kstep. rewrite cap_has_receive by done.
    by apply delta_send_live.
  - intros Hl [Sp1 E1 O1 M1 B1 Th1 Km1 Ts1 Ca1 Cc1] HK' Hquiet. destruct (dead_entry _ HK') as (e1 & He1 & (_ & Hb1 & _) & Hwf1).
    cbn [sl_state] in *. ksimpl_all. ksteps. rewrite Hb1. captests. ksteps.
    eapply delta_post_dead; [|done|done]. unfold delta_cap. by rewrite Hs, Hc, Hl.
Qed.
End Cases.

Lemma ipc_right_delta_spec K G n ea sp name c right delta :
  Inv K G n → G !! ea = Some (Slot sp name (Used c)) → is_int delta →
  right = MACH_PORT_RIGHT_SEND ∨ right = MACH_PORT_RIGHT_SEND_ONCE ∨ right = MACH_PORT_RIGHT_DEAD_NAME →
  wp (ipc_right_delta sp name ea right delta) (delta_post K G n ea sp name right delta c) K.
Proof.
  intros Hinv Hg Hd Hr. pose proof (oi_caps _ _ _ _ (inv_objs _ _ _ Hinv) _ _ _ _ Hg) as [Hwf _].
  destruct (ei_slots _ _ _ (inv_ents _ _ _ Hinv) _ _ Hg) as [_ _ (S & HS & HSa) (e & He & Hrep)].
  destruct K as [Sp E O M B Th Km Ts Ca Cc]. ksimpl_all. unfold ipc_right_delta. cbn [sl_space] in *. ksteps.
  destruct Hr as [->|[->| ->]]; ksteps; [by eapply delta_send_spec|by eapply delta_send_once_spec|by eapply delta_dead_name_spec].
Qed.
End Delta.
