(* ===== verification/IpcCopyin.v ===== *)
(** [ipc_right_copyin]: the right that leaves a space and what stays behind, as
    a function of the capability. *)

From S2P Require Import Prelude Kmem Rdxtree RdxtreeInv RdxtreeSpec RdxtreeMap IpcTypes IpcEntry IpcPort IpcMarequest IpcRight IpcBits IpcInv IpcUpdate IpcDn IpcMar IpcStep IpcRelease IpcCheck IpcVacate IpcDealloc IpcDelta.

Open Scope N_scope.

(** ** The specification *)

(** Result, object, state of the entry afterwards and right handed out. *)
Definition copyin_outcome : Type := kern_return_t * N * estate * option ctype.

Definition no_right (c : cap) : copyin_outcome := (KERN_INVALID_RIGHT, IO_NULL, Used c, None).

Definition held_or (oc : option cap) : estate := match oc with Some c => Used c | None => Held end.

(** Copyin of a dead name, as [IO_DEAD]. *)
Definition dead_outcome (deadok move : bool) (c : cap) : copyin_outcome :=
  if negb deadok then no_right c
  else (KERN_SUCCESS, IO_DEAD,
        if move then if c_urefs c =? 1 then Held else Used (set_urefs (c_urefs c - 1) c) else Used c, None).

(** Copyin of a send or send-once right; [out] is the outcome for a live port. *)
Definition send_outcome (live deadok move : bool) (out : copyin_outcome) (c : cap) : copyin_outcome :=
  match c_type c with
  | TDead => dead_outcome deadok move c
  | TPset | TRecv => no_right c
  | TSonce | TSend | TSendRecv => if live then out else dead_outcome deadok move (dead_cap c)
  end.

Definition copyin_cap (live : bool) (msgt_name : N) (deadok : bool) (c : cap) : copyin_outcome :=
  let send := is_send (c_type c) in
  let recv := is_recv (c_type c) in
  if msgt_name =? MACH_MSG_TYPE_MAKE_SEND then
    if recv then (KERN_SUCCESS, c_obj c, Used c, Some TSend) else no_right c
  else if msgt_name =? MACH_MSG_TYPE_MAKE_SEND_ONCE then
    if recv then (KERN_SUCCESS, c_obj c, Used c, Some TSonce) else no_right c
  else if msgt_name =? MACH_MSG_TYPE_MOVE_RECEIVE then
    if recv then
      (KERN_SUCCESS, c_obj c, if send then Used (Cap TSend (c_obj c) (c_urefs c) (c_req c) (c_ma c)) else Held, Some TRecv)
    else no_right c
  else if msgt_name =? MACH_MSG_TYPE_COPY_SEND then
    send_outcome live deadok false
      (if send then (KERN_SUCCESS, c_obj c, Used c, Some TSend) else no_right c) c
  else if msgt_name =? MACH_MSG_TYPE_MOVE_SEND then
    send_outcome live deadok true
      (if send then (KERN_SUCCESS, c_obj c, held_or (send_with c (c_urefs c - 1)), Some TSend) else no_right c) c
  else
    send_outcome live deadok true
      (if is_sonce (c_type c) then (KERN_SUCCESS, c_obj c, Held, Some TSonce) else no_right c) c.

(** An entry taken off its name, ready for [ipc_entry_dealloc]. *)
Definition idle (e : ipc_entry) : Prop := IE_BITS_TYPE (ie_bits e) = 0 ∧ ie_object e = 0 ∧ ie_request e = 0.

Section Copyin.
Context `{!Config} {T C : Type} `{!KeyMap T} `{!KmemCache C}.
Implicit Types (K : kernel T C) (G : gmap N eslot) (n : naked).

(** The rights outside of entries, with a right handed out. *)
Definition hand_out n (pa : N) (out : option ctype) : naked :=
  match out with Some t => upd_naked n pa (add_right t (n pa)) | None => n end.

(** The receive right of the port is on its way to no port yet. *)
Definition in_limbo K (pa : N) : Prop := ∃ p, k_objects K !! pa = Some (KPort p) ∧ ip_destination p = IP_NULL.

Definition copyin_post K G n (ea sp name msgt_name : N) (deadok : bool) (c : cap) (r : kern_return_t * N * N) K' : Prop :=
  let '(kr, object, st', out) := copyin_cap (live_port (k_objects K) c) msgt_name deadok c in
  r.1 = (kr, object) ∧ same_spaces (k_spaces K) (k_spaces K') ∧
  (st' = Held → ∃ e, k_entries K' !! ea = Some e ∧ idle e) ∧ (out = Some TRecv → in_limbo K' (c_obj c)) ∧
  Inv K' (<[ea := Slot sp name st']> G) (hand_out n (c_obj c) out).

(** The port can take another reference. *)
Definition spare_ref K (pa : N) : Prop :=
  ∀ p, k_objects K !! pa = Some (KPort p) → ip_references p + 1 < 2 ^ 32.

Lemma sorights_le Sp O G n pa p :
  port_ok (T := T) Sp O G n pa p → ip_active p = true → ip_sorights p ≤ ip_references p.
Proof.
  intros [_ Hr _ Hnk _ _ _ Hso _ _ _ _ _ _] Hact. rewrite Hso, Hr by done.
  assert (n_sonce G pa ≤ n_caps G pa) as Hle; [|lia].
  apply count_mono. intros i s _. unfold holds. destruct (sl_state s); try done. by intros [-> _]%andb_true_iff.
Qed.
Lemma srights_le Sp O G n pa p :
  port_ok (T := T) Sp O G n pa p → ip_active p = true → ip_srights p ≤ ip_references p.
Proof.
  intros [_ Hr _ Hnk _ Hse _ _ _ _ _ _ _ _] Hact. rewrite Hse, Hr by done.
  assert (n_send G pa ≤ n_caps G pa) as Hle; [|lia].
  apply count_mono. intros i s _. unfold holds. destruct (sl_state s); try done. by intros [-> _]%andb_true_iff.
Qed.


(** The labels [copy_dead] and [move_dead]. *)
Lemma copyin_dead_spec K G n ea sp name c deadok move Q :
  Inv K G n → G !! ea = Some (Slot sp name (Used c)) → c_type c = TDead →
  (∀ K' kr obj st' out, dead_outcome deadok move c = (kr, obj, st', out) →
     Inv K' (<[ea := Slot sp name st']> G) n → same_spaces (k_spaces K) (k_spaces K') →
     (st' = Held → ∃ e, k_entries K' !! ea = Some e ∧ idle e) → Q (kr, obj, IP_NULL) K') →
  wp (copyin_dead ea (cap_bits c) deadok move) Q K.
Proof.
  intros Hinv Hg Ht HQ. pose proof (oi_caps _ _ _ _ (inv_objs _ _ _ Hinv) _ _ _ _ Hg) as [Hwf _].
  destruct (ei_slots _ _ _ (inv_ents _ _ _ Hinv) _ _ Hg) as [_ _ _ (e & He & Hrep)].
  pose proof Hrep as (Hn & Hb & Ho & Hr). cbn [sl_state sl_name] in *. pose proof Hwf as Hwf0. unfold cap_wf in Hwf0. rewrite Ht in Hwf0.
  destruct Hwf0 as (Ho0 & Hu & Hr0 & Hma). unfold copyin_dead. captests. rewrite (proj2 (N.eqb_neq (c_urefs c) 0)), Hma by lia.
  ksteps. rewrite Ho, Ho0, Hr, Hr0. ksteps. unfold dead_outcome in HQ. destruct deadok; cbn [negb] in HQ |- *.
  2: { ksteps. eapply HQ; [done|by rewrite insert_id|done|done]. }
  destruct move; [|ksteps; by eapply HQ; [done|by rewrite insert_id|done|done]].
  destruct (N.eqb_spec (c_urefs c) 1) as [Hu1|Hu1]; ksteps.
  - eapply HQ; [done| |by destruct K|].
    + by eapply (inv_vacant_step K G n ea sp name (Used c)).
    + intros _. destruct K. ksimpl. eexists. rewrite lookup_insert_eq. split; [done|]. unfold idle. cbn [set_ie_bits ie_bits ie_object]. rewrite Ho.
      split_and!; [|done|exact (eq_trans Hr Hr0)]. unfold cap_bits. rewrite Ht, Hma, Hu1. done.
  - rewrite decr_cap by (done || lia). eapply HQ; [done| |by destruct K|done].
    eapply (inv_urefs K G n ea sp name c); [done|done|congruence| |by apply entry_rep_urefs].
    unfold cap_wf. cbn [set_urefs c_type c_obj c_urefs c_req c_ma]. rewrite Ht. split_and!; try done; lia.
Qed.

Section Cases.
Context (Sp : gmap N (ipc_space T)) (E : gmap N ipc_entry) (O : gmap N kobject) (M : gmap N ipc_marequest).
Context (B : gmap N (list N)) (Th : gmap N ipc_thread) (Km : gmap N ipc_kmsg) (Ts : N) (Ca : list call) (Cc : gmap N C).
Context (G : gmap N eslot) (n : naked) (ea sp name : N) (c : cap) (e : ipc_entry) (deadok : bool).
#[local] Abbreviation K := (Kernel Sp E O M B Th Km Ts Ca Cc).
Context (Hinv : Inv K G n) (Hg : G !! ea = Some (Slot sp name (Used c))) (Hwf : cap_wf c).
Context (He : E !! ea = Some e) (Hrep : entry_rep e (Slot sp name (Used c))).

(** The request fails and leaves everything as it was. *)
Lemma copyin_post_same msgt_name :
  copyin_cap (live_port O c) msgt_name deadok c = no_right c →
  copyin_post K G n ea sp name msgt_name deadok c copyin_invalid_right K.
Proof. intros Hr. unfold copyin_post. ksimpl. rewrite Hr. simpl. split_and!; [done|done|done|done|by rewrite insert_id]. Qed.

(** A new right for a live port. *)
Lemma inv_make_right pa p p' t :
  O !! pa = Some (KPort p) → same_place p p' → ip_active p = true → is_recv t = false → is_send t || is_sonce t = true →
  ip_references p + 1 < 2 ^ 32 → ip_references p' = ip_references p + 1 →
  ip_srights p' = ip_srights p + Nb (is_send t) → ip_sorights p' = ip_sorights p + Nb (is_sonce t) →
  ip_dnrequests p' = ip_dnrequests p →
  Inv (Kernel Sp E (<[pa := KPort p']> O) M B Th Km Ts Ca Cc) G (upd_naked n pa (add_right t (n pa))).
Proof.
  intros Hp Hsame Hact Hnr Hone Hmax Hrefs Hs Hso Hdn.
  destruct (oi_objects _ _ _ _ (inv_objs _ _ _ Hinv) _ _ Hp) as (Haddr & _ & Hport). ksimpl_all.
  pose proof (sorights_le _ _ _ _ _ _ Hport Hact). pose proof (po_naked _ _ _ _ _ _ Hport).
  pose proof (po_pd _ _ _ _ _ _ Hport). pose proof (po_pos _ _ _ _ _ _ Hport).
  assert (Nb (is_send t) + Nb (is_sonce t) = 1) by (by destruct t).
  eapply inv_naked_step; try done; [apply (inv_caches _ _ _ Hinv)|].
  eapply (port_ok_naked Sp O G n pa p); unfold add_right; rewrite ?Hnr; cbn [nk_refs nk_send nk_sonce nk_recv nk_pd nk_kern Nb];
    rewrite ?Hdn; try done; try apply Haddr; try apply Hport; lia.
Qed.

Lemma copyin_post_made msgt_name p p' t :
  O !! c_obj c = Some (KPort p) → same_place p p' → ip_active p = true → is_recv t = false →
  is_send t || is_sonce t = true →
  ip_references p + 1 < 2 ^ 32 → ip_references p' = ip_references p + 1 →
  ip_srights p' = ip_srights p + Nb (is_send t) → ip_sorights p' = ip_sorights p + Nb (is_sonce t) →
  ip_dnrequests p' = ip_dnrequests p →
  copyin_cap true msgt_name deadok c = (KERN_SUCCESS, c_obj c, Used c, Some t) →
  copyin_post K G n ea sp name msgt_name deadok c (KERN_SUCCESS, c_obj c, IP_NULL)
    (Kernel Sp E (<[c_obj c := KPort p']> O) M B Th Km Ts Ca Cc).
Proof.
  intros Hp Hsame Hact Hnr Hone Hmax Hrefs Hs Hso Hdn Hc. unfold copyin_post, live_port. ksimpl. rewrite Hp, Hact, Hc.
  split_and!; [done|done|done|intros [= ->]; done|]. rewrite (insert_id G) by done. by eapply inv_make_right.
Qed.

(** A receive right that the space holds. *)
Lemma copyin_receive_port_spec Q :
  is_recv (c_type c) = true →
  (∀ p, O !! c_obj c = Some (KPort p) → received_at p sp name → c_obj c ≠ 0 → Q p K) →
  wp (copyin_receive_port sp name (c_obj c)) Q K.
Proof.
  intros Hr HQ. destruct (inv_port_cap _ _ _ _ _ _ _ Hinv Hg) as (_ & (Ho0 & _) & p & _ & _ & Hp & _ & _ & _ & _ & _ & _ & _ & _ & Hrecv).
  { intros Ht. by rewrite Ht in Hr. } { intros Ht. by rewrite Ht in Hr. }
  pose proof (Hrecv Hr) as (Hact & Hrs & Hrn). ksimpl_all. unfold copyin_receive_port. keqb. ksteps. keqb. ksteps. keqb. ksteps.
  by apply HQ.
Qed.

Context (Hmax : spare_ref K (c_obj c)).

Lemma copyin_make_send_spec :
  wp (copyin_make_send sp name ea) (copyin_post K G n ea sp name MACH_MSG_TYPE_MAKE_SEND deadok c) K.
Proof.
  pose proof Hrep as (_ & Hb & Ho & _). cbn [sl_state] in *. unfold copyin_make_send. ksteps.
  rewrite Hb, Ho, cap_has_receive by done. destruct (is_recv (c_type c)) eqn:Hr; cbn [negb].
  2: { ksteps. apply copyin_post_same. unfold copyin_cap. by rewrite Hr. }
  kstep. apply copyin_receive_port_spec; [done|]. intros p Hp (Hact & Hrs & Hrn) Ho0. ksteps. rewrite !insert_insert_eq.
  destruct (oi_objects _ _ _ _ (inv_objs _ _ _ Hinv) _ _ Hp) as (_ & _ & Hport). ksimpl_all.
  pose proof (srights_le _ _ _ _ _ _ Hport Hact). specialize (Hmax p Hp).
  destruct (ei_slots _ _ _ (inv_ents _ _ _ Hinv) _ _ Hg) as [_ [Hn0 _] _ _]. cbn [sl_name] in Hn0.
  eapply (copyin_post_made _ p _ TSend); try done.
  - split; try done. intros Hl. change MACH_PORT_NULL with 0 in Hl. congruence.
  - psimpl. lia.
  - psimpl. cbn [Nb is_send is_sonce]. lia.
  - psimpl. cbn [Nb is_send is_sonce]. lia.
  - unfold copyin_cap. by rewrite Hr.
Qed.

Lemma copyin_make_send_once_spec :
  wp (copyin_make_send_once sp name ea) (copyin_post K G n ea sp name MACH_MSG_TYPE_MAKE_SEND_ONCE deadok c) K.
Proof.
  pose proof Hrep as (_ & Hb & Ho & _). cbn [sl_state] in *. unfold copyin_make_send_once. ksteps.
  rewrite Hb, Ho, cap_has_receive by done. destruct (is_recv (c_type c)) eqn:Hr; cbn [negb].
  2: { ksteps. apply copyin_post_same. unfold copyin_cap. by rewrite Hr. }
  kstep. apply copyin_receive_port_spec; [done|]. intros p Hp (Hact & Hrs & Hrn) Ho0. ksteps. rewrite !insert_insert_eq.
  destruct (oi_objects _ _ _ _ (inv_objs _ _ _ Hinv) _ _ Hp) as (_ & _ & Hport). ksimpl_all.
  pose proof (sorights_le _ _ _ _ _ _ Hport Hact). specialize (Hmax p Hp).
  eapply (copyin_post_made _ p _ TSonce); try done.
  - psimpl. lia.
  - psimpl. cbn [Nb is_send is_sonce]. lia.
  - psimpl. cbn [Nb is_send is_sonce]. lia.
  - unfold copyin_cap. by rewrite Hr.
Qed.

(** The common structure of the three cases for send rights. *)
Lemma copyin_send_shell msgt_name move out F :
  (∀ live, copyin_cap live msgt_name deadok c = send_outcome live deadok move out c) →
  (∀ p, O !! c_obj c = Some (KPort p) → ip_active p = true → is_send (c_type c) || is_sonce (c_type c) = true →
     wp (F p) (copyin_post K G n ea sp name msgt_name deadok c) K) →
  wp (if has (cap_bits c) MACH_PORT_TYPE_DEAD_NAME then copyin_dead ea (cap_bits c) deadok move
      else if negb (has (cap_bits c) MACH_PORT_TYPE_SEND_RIGHTS) then mret copyin_invalid_right
      else
        r ← copyin_send_port sp name ea;
        match r with
        | (bits, None) => copyin_dead ea bits deadok move
        | (_, Some p) => F p
        end) (copyin_post K G n ea sp name msgt_name deadok c) K.
Proof.
  intros Hout HF. pose proof Hrep as (_ & Hb & Ho & _). cbn [sl_state] in *.
  rewrite cap_has_dead_name, cap_has_send_rights by done. destruct (decide (c_type c = TDead)) as [Hd|Hd].
  { rewrite bool_decide_eq_true_2 by done. eapply copyin_dead_spec; [done|done|done|].
    intros K' kr obj st' out' Heq HK' HSp Hidle. unfold copyin_post. rewrite Hout. unfold send_outcome. rewrite Hd, Heq.
    unfold dead_outcome, no_right in Heq. destruct deadok; injection Heq as <- <- <- <-; by split_and!. }
  rewrite bool_decide_eq_false_2 by done. destruct (is_send (c_type c) || is_sonce (c_type c)) eqn:Hs.
  2: { ksteps. apply copyin_post_same. rewrite Hout. unfold send_outcome. by destruct (c_type c). }
  assert (c_type c ≠ TPset ∧ c_obj c ≠ 0 ∧ 0 < c_urefs c) as (Hps & Ho0 & Hu).
  { unfold cap_wf in Hwf. destruct (c_type c); try done; split_and!; try done; lia. }
  cbn [negb]. unfold copyin_send_port. ksteps. rewrite Hb, Ho, cap_urefs by done. rewrite (proj2 (N.eqb_neq (c_urefs c) 0)) by lia.
  cbn [negb]. ksteps. keqb. ksteps. eapply check_spec; [done|done|done|done| |].
  - unfold live_port. ksimpl. destruct (O !! c_obj c) as [[p|]|] eqn:Hp; try done. intros Hact. ksteps. auto.
  - intros Hl [Sp1 E1 O1 M1 B1 Th1 Km1 Ts1 Ca1 Cc1] HK' [_ HSp1].
    assert (<[ea := Slot sp name (Used (dead_cap c))]> G !! ea = Some (Slot sp name (Used (dead_cap c)))) as Hg1
      by apply lookup_insert_eq.
    destruct (ei_slots _ _ _ (inv_ents _ _ _ HK') _ _ Hg1) as [_ _ _ (e1 & He1 & _ & Hb1 & _)]. cbn [sl_state] in *.
    ksimpl_all. ksteps. rewrite Hb1. eapply copyin_dead_spec; [done|exact Hg1|done|].
    intros K' kr obj st' out' Heq HK2 HSp Hidle. unfold copyin_post. rewrite Hout. unfold send_outcome. ksimpl_all. rewrite Hl.
    replace (match c_type c with TDead => dead_outcome deadok move c | _ => _ end) with (dead_outcome deadok move (dead_cap c))
      by (by destruct (c_type c)).
    rewrite Heq. unfold dead_outcome, no_right in Heq. rewrite insert_insert_eq in HK2.
    destruct deadok; injection Heq as <- <- <- <-; split_and!; try done; by eapply same_spaces_trans.
Qed.

(** A send-once right where a send right was asked for. *)
Lemma copyin_not_send msgt_name p :
  c_type c = TSonce → O !! c_obj c = Some (KPort p) →
  copyin_cap (live_port O c) msgt_name deadok c = no_right c →
  wp (check (IE_BITS_TYPE (cap_bits c) =? MACH_PORT_TYPE_SEND_ONCE);;
      check (negb (ip_sorights p =? 0));;
      mret copyin_invalid_right) (copyin_post K G n ea sp name msgt_name deadok c) K.
Proof.
  intros Ht Hp Hc. destruct (oi_objects _ _ _ _ (inv_objs _ _ _ Hinv) _ _ Hp) as (_ & _ & Hport). ksimpl_all.
  assert (0 < ip_sorights p) by (eapply sonce_counted; [done|exact Hg|done|by rewrite Ht]). captests.
  ksteps. rewrite (proj2 (N.eqb_neq (ip_sorights p) 0)) by lia. ksteps. by apply copyin_post_same.
Qed.

Lemma copyin_copy_send_spec :
  wp (copyin_copy_send sp name ea deadok) (copyin_post K G n ea sp name MACH_MSG_TYPE_COPY_SEND deadok c) K.
Proof.
  pose proof Hrep as (_ & Hb & Ho & _). cbn [sl_state] in *. unfold copyin_copy_send. ksteps. rewrite Hb, Ho.
  eapply copyin_send_shell; [done|]. intros p Hp Hact Hs.
  destruct (oi_objects _ _ _ _ (inv_objs _ _ _ Hinv) _ _ Hp) as (_ & _ & Hport). ksimpl_all.
  rewrite cap_has_send by done. destruct (is_send (c_type c)) eqn:Hse; cbn [negb].
  - assert (0 < ip_srights p) by (eapply send_counted; [done|done|exact Hg|done|done]).
    pose proof (srights_le _ _ _ _ _ _ Hport Hact). specialize (Hmax p Hp).
    rewrite (proj2 (N.eqb_neq (ip_srights p) 0)) by lia. ksteps. rewrite insert_insert_eq.
    eapply (copyin_post_made _ p _ TSend); try done.
    + psimpl. lia.
    + psimpl. cbn [Nb is_send is_sonce]. lia.
    + psimpl. cbn [Nb is_send is_sonce]. lia.
    + unfold copyin_cap, send_outcome. rewrite Hse. by destruct (c_type c).
  - cbn [orb] in Hs. apply copyin_not_send; [by destruct (c_type c)|done|].
    unfold copyin_cap, send_outcome, live_port. rewrite Hp, Hact. by destruct (c_type c).
Qed.

(** The right leaves its entry. *)
Lemma copyin_post_vacated msgt_name p ot e' S t M' B' so :
  c_type c = TSend ∨ c_type c = TSonce → O !! c_obj c = Some (KPort p) → ip_active p = true →
  ie_name e' = name → idle e' → Sp !! sp = Some S →
  rev_ok (<[ea := Slot sp name Held]> G) sp t → mar_ok Sp (<[ea := Slot sp name Held]> G) M' B' →
  dn_ok (<[ea := Slot sp name Held]> G) (c_obj c) ot →
  copyin_cap true msgt_name deadok c = (KERN_SUCCESS, c_obj c, Held, Some (c_type c)) →
  copyin_post K G n ea sp name msgt_name deadok c (KERN_SUCCESS, c_obj c, so)
    (Kernel (<[sp := set_is_reverse_map t S]> Sp) (<[ea := e']> E) (<[c_obj c := KPort (set_ip_dnrequests ot p)]> O)
       M' B' Th Km Ts Ca Cc).
Proof.
  intros Ht Hp Hact Hn Hidle HS Hrev Hmar Hdn Hc. unfold copyin_post, live_port. ksimpl. rewrite Hp, Hact, Hc.
  split_and!; [done|by eapply same_spaces_insert| |by destruct Ht as [-> | ->]|].
  - intros _. exists e'. by rewrite lookup_insert_eq.
  - unfold hand_out. by eapply inv_vacate.
Qed.

Lemma copyin_move_send_once_spec :
  wp (copyin_move_send_once sp name ea deadok) (copyin_post K G n ea sp name MACH_MSG_TYPE_MOVE_SEND_ONCE deadok c) K.
Proof.
  pose proof Hrep as (Hn & Hb & Ho & Hr). cbn [sl_state sl_name] in *. unfold copyin_move_send_once. ksteps. rewrite Hb, Ho.
  eapply copyin_send_shell; [done|]. intros p Hp Hact Hs.
  pose proof Hinv as [_ Hent Hobj Hmar _]. ksimpl_all. destruct (oi_objects _ _ _ _ Hobj _ _ Hp) as (_ & _ & Hport).
  destruct (ei_slots _ _ _ Hent _ _ Hg) as [_ [Hn0 _] (S & HS & HSa) _]. cbn [sl_name sl_space] in *.
  destruct (ei_spaces _ _ _ Hent _ _ HS HSa) as [_ _ Hrev _].
  rewrite cap_has_send_once by done. destruct (is_sonce (c_type c)) eqn:Hso; cbn [negb].
  - assert (c_type c = TSonce) as Ht by (by destruct (c_type c)). pose proof Hwf as Hwf0. unfold cap_wf in Hwf0.
    rewrite Ht in Hwf0. destruct Hwf0 as (Ho0 & Hu & Hma).
    assert (0 < ip_sorights p) by (eapply sonce_counted; [done|exact Hg|done|by rewrite Ht]).
    captests. rewrite Hu, Hma. ksteps. rewrite (proj2 (N.eqb_neq (ip_sorights p) 0)) by lia. ksteps.
    eapply (dncancel_spec _ G ea sp name c Held p e); try done; [by apply Hport|].
    intros r ot e' Hdn Hn' Hb' Ho' Hr'. ksteps. rewrite !insert_insert_eq.
    rewrite <- (insert_id Sp sp (set_is_reverse_map (is_reverse_map S) S)) at 2 by (by destruct S).
    eapply copyin_post_vacated; try done; [by right|by cbn; congruence| | | |].
    + split_and!; [|done|exact Hr']. cbn [set_ie_bits ie_bits]. unfold cap_bits. by rewrite Ht, Hma, Hu.
    + eapply rev_ok_update; [done|intros _; simpl; by rewrite Ht|done].
    + eapply mar_ok_update; [done|done|]. simpl. by rewrite Hma.
    + unfold copyin_cap, send_outcome. by rewrite Ht.
  - assert (is_send (c_type c) = true) as Hse by (by destruct (is_send (c_type c))).
    assert (0 < ip_srights p) by (eapply send_counted; [done|done|exact Hg|done|done]). rewrite cap_has_send, Hse by done.
    ksteps. rewrite (proj2 (N.eqb_neq (ip_srights p) 0)) by lia. ksteps.
    apply copyin_post_same. unfold copyin_cap, send_outcome, live_port. rewrite Hp, Hact. by destruct (c_type c).
Qed.

(** A send right is split off a capability that keeps its place. *)
Lemma inv_split_send p p' c' e' :
  is_send (c_type c) = true → O !! c_obj c = Some (KPort p) → same_place p p' → ip_active p = true →
  ip_references p + 1 < 2 ^ 32 → ip_references p' = ip_references p + 1 →
  ip_srights p' + Nb (is_send (c_type c)) = ip_srights p + Nb (is_send (c_type c')) + 1 →
  ip_sorights p' = ip_sorights p → ip_dnrequests p' = ip_dnrequests p →
  c_obj c' = c_obj c → c_req c' = c_req c → c_ma c' = c_ma c →
  c_type c' = c_type c ∨ c_type c = TSendRecv ∧ c_type c' = TRecv → cap_wf c' →
  entry_rep e' (Slot sp name (Used c')) →
  Inv (Kernel Sp (<[ea := e']> E) (<[c_obj c := KPort p']> O) M B Th Km Ts Ca Cc)
    (<[ea := Slot sp name (Used c')]> G) (upd_naked n (c_obj c) (add_right TSend (n (c_obj c)))).
Proof.
  intros Hse Hp Hsame Hact Hmax' Hrefs Hsr Hso Hdn Hobj' Hreq Hma Hts Hwf' Hrep'.
  destruct (oi_objects _ _ _ _ (inv_objs _ _ _ Hinv) _ _ Hp) as (Haddr & _ & Hport). ksimpl_all.
  pose proof (oi_caps _ _ _ _ (inv_objs _ _ _ Hinv) _ _ _ _ Hg) as Hcap. ksimpl_all.
  assert (is_recv (c_type c') = is_recv (c_type c) ∧ is_sonce (c_type c') = false ∧ is_sonce (c_type c) = false ∧
    c_type c' ≠ TDead ∧ c_type c' ≠ TPset ∧ c_type c ≠ TDead ∧ c_type c ≠ TPset) as (Hre & Hnso & Hnso0 & Hd' & Hps' & Hd & Hps).
  { destruct Hts as [->|[-> ->]]; by destruct (c_type c). }
  assert (∀ P, on P (c_obj c) (Used c') = Nb (P (c_type c'))) as Hon by (intros P; rewrite <- Hobj'; apply on_used).
  pose proof (po_naked _ _ _ _ _ _ Hport). pose proof (po_pd _ _ _ _ _ _ Hport). pose proof (po_pos _ _ _ _ _ _ Hport).
  eapply (inv_step_same Sp E O M B Th Km Ts Ca Cc G n Hinv (c_obj c) p); try done; [by left|by left| | | | | |].
  - intros c1 [= <-]. split; [done|]. rewrite Hobj', lookup_insert_eq.
    destruct (cap_ok_port_of _ _ _ _ Hcap Hd Hps) as (q & Hq & Hrecv). rewrite Hp in Hq. injection Hq as <-. rewrite <- Hre in Hrecv.
    destruct (c_type c'); try done; exists p'; split; try done; intros ?; by eapply same_place_received; eauto.
  - intros o Ho. left. revert Ho. simpl. rewrite Hobj'. by destruct Hts as [->|[-> ->]].
  - simpl. rewrite Hobj'. by destruct Hts as [->|[-> ->]].
  - eapply mar_ok_update; [apply (inv_mars _ _ _ Hinv)|done|]. simpl. done.
  - apply (inv_caches _ _ _ Hinv).
  - unfold add_right. eapply (port_ok_step Sp O G n ea sp name (Used c)); try done; try apply Haddr;
      rewrite ?on_used, ?Hon, ?Hre, ?Hnso, ?Hnso0, ?Hso, ?Hrefs; cbn [is_send is_recv is_sonce Nb nk_refs nk_send nk_sonce nk_recv nk_pd nk_kern];
      try lia; try apply Hport.
    intros Ha. rewrite Hdn. eapply dn_ok_keep; [done|by apply Hport|]. right. simpl. by rewrite Hobj', Hreq.
Qed.

Lemma copyin_post_split p p' c' e' :
  is_send (c_type c) = true → O !! c_obj c = Some (KPort p) → same_place p p' → ip_active p = true →
  ip_references p' = ip_references p + 1 →
  ip_srights p' + Nb (is_send (c_type c)) = ip_srights p + Nb (is_send (c_type c')) + 1 →
  ip_sorights p' = ip_sorights p → ip_dnrequests p' = ip_dnrequests p →
  send_with c (c_urefs c - 1) = Some c' → cap_wf c' → entry_rep e' (Slot sp name (Used c')) →
  copyin_post K G n ea sp name MACH_MSG_TYPE_MOVE_SEND deadok c (KERN_SUCCESS, c_obj c, IP_NULL)
    (Kernel Sp (<[ea := e']> E) (<[c_obj c := KPort p']> O) M B Th Km Ts Ca Cc).
Proof.
  intros Hse Hp Hsame Hact Hrefs Hsr Hso Hdn Hc' Hwf' Hrep'. specialize (Hmax p Hp).
  assert (copyin_cap true MACH_MSG_TYPE_MOVE_SEND deadok c = (KERN_SUCCESS, c_obj c, Used c', Some TSend)) as Hcc.
  { unfold copyin_cap, send_outcome. rewrite Hse, Hc'. by destruct (c_type c). }
  unfold copyin_post, live_port. ksimpl. rewrite Hp, Hact, Hcc.
  assert (c_obj c' = c_obj c ∧ c_req c' = c_req c ∧ c_ma c' = c_ma c ∧
    (c_type c' = c_type c ∨ c_type c = TSendRecv ∧ c_type c' = TRecv)) as (? & ? & ? & ?).
  { unfold send_with in Hc'. destruct (_ =? 0); [|injection Hc' as <-; by split_and!; [..|left]].
    destruct (c_type c); try done. injection Hc' as <-. by split_and!; [..|right]. }
  split_and!; [done|done|done|done|]. by eapply inv_split_send.
Qed.

Lemma copyin_move_send_spec :
  wp (copyin_move_send sp name ea deadok) (copyin_post K G n ea sp name MACH_MSG_TYPE_MOVE_SEND deadok c) K.
Proof.
  pose proof Hrep as (Hn & Hb & Ho & Hr). cbn [sl_state sl_name] in *. unfold copyin_move_send. ksteps. rewrite Hb, Ho.
  eapply copyin_send_shell; [done|]. intros p Hp Hact Hs.
  pose proof Hinv as [_ Hent Hobj Hmar _]. ksimpl_all. destruct (oi_objects _ _ _ _ Hobj _ _ Hp) as (_ & _ & Hport).
  destruct (ei_slots _ _ _ Hent _ _ Hg) as [_ [Hn0 _] (S & HS & HSa) _]. cbn [sl_name sl_space] in *.
  rewrite cap_has_send by done. destruct (is_send (c_type c)) eqn:Hse; cbn [negb].
  2: { cbn [orb] in Hs. apply copyin_not_send; [by destruct (c_type c)|done|].
       unfold copyin_cap, send_outcome, live_port. rewrite Hp, Hact. by destruct (c_type c). }
  assert (0 < ip_srights p) by (eapply send_counted; [done|done|exact Hg|done|done]).
  pose proof (srights_le _ _ _ _ _ _ Hport Hact). pose proof (Hmax p Hp).
  assert (0 < c_urefs c < MACH_PORT_UREFS_MAX ∧ c_obj c ≠ 0) as (Hu & Ho0).
  { pose proof Hwf as Hwf0. unfold cap_wf in Hwf0. by destruct (c_type c); try done; destruct Hwf0. }
  rewrite cap_urefs, cap_has_receive by done.
  rewrite (proj2 (N.eqb_neq (ip_srights p) 0)) by lia. do 3 kstep. destruct (N.eqb_spec (c_urefs c) 1) as [Hu1|Hu1].
  - destruct (c_type c) eqn:Ht; try done; cbn [is_recv]; rewrite cap_type, Ht by done.
    + do 3 kstep. eapply (send_unlink_spec _ G ea sp name c p e S); ksimpl; try done.
      { by apply (oi_objects _ _ _ _ Hobj _ _ Hp). } { by apply Hport. }
      intros r ot e' t M' B' Hdn Hrev Hmar' Hn' Hb' Hr'. ksteps. rewrite !insert_insert_eq.
      eapply copyin_post_vacated; try done; [by left| |].
      * split_and!; [|done|exact Hr']. cbn [set_ie_bits ie_bits]. unfold cap_bits. rewrite Ht, Hu1. by destruct (c_ma c).
      * unfold copyin_cap, send_outcome, send_with. by rewrite Ht, Hu1.
    + destruct (cap_ok_port_of _ _ _ _ (oi_caps _ _ _ _ Hobj _ _ _ _ Hg)) as (p' & Hp' & Hrecv); [congruence..|].
      rewrite Hp in Hp'. injection Hp' as <-. rewrite Ht in Hrecv. destruct (Hrecv eq_refl) as (_ & Hrs & Hrn).
      ksteps. keqb. ksteps. keqb. ksteps.
      eapply (copyin_post_split p _ (Cap TRecv (c_obj c) 0 (c_req c) (c_ma c))); try done; [by rewrite Ht| | | |].
      * psimpl. lia.
      * psimpl. rewrite Ht. cbn. lia.
      * unfold send_with. by rewrite Ht, Hu1.
      * split_and!; try done. cbn [set_ie_bits ie_bits sl_state]. unfold cap_bits. rewrite Ht, Hu1. by destruct (c_ma c).
  - ksteps. rewrite insert_insert_eq, decr_cap by (done || lia).
    eapply (copyin_post_split p _ (set_urefs (c_urefs c - 1) c)); try done.
    + psimpl. lia.
    + psimpl. cbn [set_urefs c_type]. lia.
    + unfold send_with. by rewrite (proj2 (N.eqb_neq (c_urefs c - 1) 0)) by lia.
    + unfold cap_wf in *. cbn [set_urefs c_type c_obj c_urefs]. destruct (c_type c); try done; split; try done; lia.
Qed.
End Cases.
End Copyin.
