(* ===== verification/IpcClear.v ===== *)
(** [ipc_port_clear_receiver]: the port leaves its port set, with its messages,
    and waiting receivers are woken. *)

From S2P Require Import Prelude Kmem Rdxtree RdxtreeInv RdxtreeSpec RdxtreeMap IpcTypes IpcEntry IpcPort IpcMarequest IpcRight IpcBits IpcInv IpcUpdate IpcDn IpcMar IpcStep IpcRelease.

Open Scope N_scope.

Lemma filter_ext_in {A} (P Q : A → Prop) `{!∀ x, Decision (P x), !∀ x, Decision (Q x)} (l : list A) :
  (∀ x, x ∈ l → P x ↔ Q x) → filter P l = filter Q l.
Proof.
  induction l as [|x l IH]; intros HPQ; [done|]. rewrite !filter_cons, IH by (intros y Hy; apply HPQ; by right).
  by rewrite (decide_ext (P x) (Q x)) by (apply HPQ; by left).
Qed.
Lemma filter_id {A} (P : A → Prop) `{!∀ x, Decision (P x)} (l : list A) : (∀ x, x ∈ l → P x) → filter P l = l.
Proof.
  induction l as [|x l IH]; intros HP; [done|]. rewrite filter_cons_True by (apply HP; by left).
  f_equal. apply IH. intros y Hy. apply HP. by right.
Qed.

(** Two keys written twice. *)
Lemma insert_twice {A} (m : gmap N A) i j x y x' y' :
  i ≠ j → <[i := x']> (<[j := y']> (<[i := x]> (<[j := y]> m))) = <[i := x']> (<[j := y']> m).
Proof.
  intros Hij. rewrite (insert_insert_ne _ j i y' x) by done. by rewrite insert_insert_eq, insert_insert_eq.
Qed.

Section Clear.
Context `{!Config} {T C : Type} `{!KeyMap T} `{!KmemCache C}.
Implicit Types (K : kernel T C) (O : gmap N kobject) (G : gmap N eslot) (n : naked).

(** ** Threads *)

Definition threads_kept (Th Th' : gmap N ipc_thread) : Prop := ∀ th, is_Some (Th !! th) → is_Some (Th' !! th).

Lemma threads_kept_refl Th : threads_kept Th Th.
Proof. by intros th. Qed.

Lemma wake_threads_spec ths mr K Q :
  (∀ th, th ∈ ths → is_Some (k_threads K !! th)) →
  (∀ Th' Ca', threads_kept (k_threads K) Th' → Q tt (set_k_calls Ca' (set_k_threads Th' K))) →
  wp (wake_threads ths mr) Q K.
Proof.
  revert K. induction ths as [|th ths IH]; intros K Hths HQ.
  - cbn [wake_threads]. kstep. specialize (HQ (k_threads K) (k_calls K)). destruct K. apply HQ. by intros x.
  - destruct (Hths th) as [t Ht]; [by left|]. cbn [wake_threads]. destruct K as [Sp E O M B Th Km Ts Ca Cc]. ksimpl_all. ksteps.
    assert (threads_kept Th (<[th := set_ith_state mr t]> Th)) as Hkeep.
    { intros x Hx. destruct (decide (x = th)) as [->|]; [by rewrite lookup_insert_eq|by rewrite lookup_insert_ne]. }
    apply IH; ksimpl.
    + intros x Hx. apply Hkeep, Hths. by right.
    + intros Th' Ca' HTh'. apply HQ. intros x Hx. by apply HTh', Hkeep.
Qed.

Definition no_threads (t : ipc_target) : ipc_target := set_ipt_messages (set_imq_threads [] (ipt_messages t)) t.

Lemma ipc_mqueue_changed_spec K a o mr Q :
  k_objects K !! a = Some o →
  (∀ th, th ∈ imq_threads (ipt_messages (kobj_target o)) → is_Some (k_threads K !! th)) →
  (∀ Th' Ca', threads_kept (k_threads K) Th' →
     Q tt (set_k_calls Ca' (set_k_threads Th' (set_k_objects (<[a := kobj_upd_target no_threads o]> (k_objects K)) K)))) →
  wp (ipc_mqueue_changed a mr) Q K.
Proof.
  intros Ho Hths HQ. unfold ipc_mqueue_changed. destruct K as [Sp E O M B Th Km Ts Ca Cc]. ksimpl_all. ksteps.
  apply wake_threads_spec; done.
Qed.

(** ** Messages *)

(** A queued message is for the port. *)
Definition to_port (Km : gmap N ipc_kmsg) (pa k : N) : bool :=
  match Km !! k with Some m => msgh_remote_port m =? pa | None => false end.
Definition set_msgs (l : list N) (t : ipc_target) : ipc_target :=
  set_ipt_messages (set_imq_messages l (ipt_messages t)) t.

Lemma set_msgs_id t : set_msgs (imq_messages (ipt_messages t)) t = t.
Proof. by destruct t as [o nm [ms ths]]. Qed.

(** The messages for [pa] among [msgs] go, in their order, to the end of its
    queue, on which nobody waits. *)
Lemma mqueue_move_loop_spec msgs K pa ps p s Q :
  k_objects K !! pa = Some (KPort p) → k_objects K !! ps = Some (KPset s) → pa ≠ ps →
  imq_threads (ip_messages p) = [] → (∀ k, k ∈ msgs → is_Some (k_kmsgs K !! k)) →
  (∀ lp ls, lp = imq_messages (ip_messages p) ++ filter (to_port (k_kmsgs K) pa) msgs →
     ls = filter (.∉ filter (to_port (k_kmsgs K) pa) msgs) (imq_messages (ipt_messages (ips_target s))) →
     Q tt (set_k_objects (<[pa := KPort (upd_target (set_msgs lp) p)]>
                         (<[ps := KPset (IPset (set_msgs ls (ips_target s)))]> (k_objects K))) K)) →
  wp (mqueue_move_loop msgs pa ps pa) Q K.
Proof.
  revert K p s Q. induction msgs as [|k msgs IH]; intros K p s Q Hp Hs Hne Hth Hmsgs HQ.
  - cbn [mqueue_move_loop]. kstep. specialize (HQ _ _ eq_refl eq_refl). revert HQ. cbn [filter list_filter].
    rewrite app_nil_r, filter_id by (intros ? _; apply not_elem_of_nil).
    change (upd_target ?f p) with (set_ip_target (f (ip_target p)) p). unfold ip_messages. rewrite !set_msgs_id.
    rewrite (insert_id (k_objects K) ps) by (by destruct s). rewrite insert_id by (by destruct p). by destruct K.
  - destruct (Hmsgs k) as [m Hm]; [by left|]. destruct K as [Sp E O M B Th Km Ts Ca Cc]. ksimpl_all.
    cbn [mqueue_move_loop]. kstep. unfold load_kmsg. kstep. kstep. eapply wp_deref; [done|]. kstep.
    assert (to_port Km pa k = (msgh_remote_port m =? pa)) as Hto by (unfold to_port; by rewrite Hm).
    destruct (N.eqb_spec (msgh_remote_port m) pa) as [Hpa|Hpa]; cbn [negb].
    + ksteps. cbn [kobj_target]. change (ipt_messages (ip_target p)) with (ip_messages p).
      rewrite Hth. cbn [length move_to_receiver]. unfold mqueue_dequeue_thread. ksteps. cbn [kobj_target].
      change (ipt_messages (ip_target p)) with (ip_messages p). rewrite Hth. ksteps.
      eapply IH; ksimpl; [klookup|by rewrite lookup_insert_ne, lookup_insert_eq|done| | |].
      * done.
      * intros x Hx. apply Hmsgs. by right.
      * intros lp ls Hlp Hls. cbn [kobj_upd_target]. rewrite insert_twice by done.
        apply (HQ lp ls); rewrite filter_cons_True by (by rewrite Hto).
        -- rewrite Hlp, (cons_middle k), app_assoc. done.
        -- rewrite Hls. cbn [ips_target]. etransitivity; [apply list_filter_filter|]. apply filter_ext_in.
           intros x _. rewrite not_elem_of_cons. tauto.
    + ksteps. eapply IH; try done; [intros x Hx; apply Hmsgs; by right|].
      intros lp ls -> ->. apply HQ; by rewrite filter_cons_False by (rewrite Hto; intros []).
Qed.

(** ** Queues *)

Lemma queue_ok_threads O Th Th' Km a o :
  threads_kept Th Th' → queue_ok O Th Km a o → queue_ok O Th' Km a o.
Proof.
  intros HTh [Ht Hm Hnd Hone Hp]. split; [by intros th Hth; apply HTh, Ht|done|done|done|].
  intros p Ho. destruct (Hp p Ho) as [Hb Hq]. split; [|done]. intros th Hth. by apply HTh, Hb.
Qed.

(** A port outside of port sets, with the queue [q] and nobody waiting. *)
Definition clear_port (ct : N) (q : list N) (p : ipc_port) : ipc_port :=
  set_ip_seqno 0 (set_ip_mscount 0 (set_ip_cur_target ct (set_ip_pset IPS_NULL
    (upd_target (set_ipt_messages (IMqueue q [])) p)))).
Definition leave_pset (l : list N) (s : ipc_pset) : ipc_pset := IPset (set_msgs l (upd_object io_release (ips_target s))).

Definition queues O (Th : gmap N ipc_thread) (Km : gmap N ipc_kmsg) : Prop :=
  ∀ a o, O !! a = Some o → queue_ok O Th Km a o.

Lemma queues_clear O Th Km pa p ct :
  queues O Th Km → O !! pa = Some (KPort p) → ip_pset p = IPS_NULL →
  queues (<[pa := KPort (clear_port ct (imq_messages (ip_messages p)) p)]> O) Th Km.
Proof.
  intros Hq Hp Hps a o Ha. assert (∀ k m q b, Km !! k = Some m → O !! msgh_remote_port m = Some (KPort q) →
    queue_of q (msgh_remote_port m) = b → ∃ q', <[pa := KPort (clear_port ct (imq_messages (ip_messages p)) p)]> O
      !! msgh_remote_port m = Some (KPort q') ∧ queue_of q' (msgh_remote_port m) = b) as HO.
  { intros k m q b Hm Hqp Hb. destruct (decide (msgh_remote_port m = pa)) as [Heq|Hne].
    - rewrite Heq, Hp in Hqp. injection Hqp as <-. rewrite Heq, lookup_insert_eq. eexists. split; [done|].
      rewrite Heq in Hb. unfold queue_of in *. cbn. by rewrite Hps in Hb.
    - exists q. by rewrite lookup_insert_ne. }
  apply lookup_insert_Some in Ha as [[<- <-]|[Hne Ha]].
  - destruct (Hq _ _ Hp) as [Hth Hmsg Hnd Hone Hport]. cbn [kobj_target] in *. split; cbn; [by intros th ?%elem_of_nil| |done|by right|].
    + intros k Hk. destruct (Hmsg k Hk) as (m & q & Hm & Hqp & Hof). destruct (HO k m q _ Hm Hqp Hof) as (q' & ? & ?).
      by exists m, q'.
    + intros q [= <-]. cbn. destruct (Hport p eq_refl) as [Hb Hdead]. split; [done|].
      intros [?|Hd]; [done|]. unfold ip_messages in *. by rewrite Hdead by (by right).
  - destruct (Hq _ _ Ha) as [Hth Hmsg Hnd Hone Hport]. split; [done| |done|done|done].
    intros k Hk. destruct (Hmsg k Hk) as (m & q & Hm & Hqp & Hof). destruct (HO k m q _ Hm Hqp Hof) as (q' & ? & ?).
    by exists m, q'.
Qed.

(** The port leaves the port set [ps] and takes its messages along. *)
Lemma queues_leave O O' Th Km pa p ps s ct lp ls :
  queues O Th Km → O !! pa = Some (KPort p) → O !! ps = Some (KPset s) → ip_pset p = ps → ps ≠ IPS_NULL →
  ip_active p = true →
  lp = filter (to_port Km pa) (imq_messages (ipt_messages (ips_target s))) →
  ls = filter (.∉ lp) (imq_messages (ipt_messages (ips_target s))) →
  O' !! pa = Some (KPort (clear_port ct lp p)) → (∀ b, b ≠ pa → b ≠ ps → O' !! b = O !! b) →
  O' !! ps = None ∨ O' !! ps = Some (KPset (leave_pset ls s)) →
  queues O' Th Km.
Proof.
  intros Hq Hp Hs Hpset Hps0 Hact Hlp Hls Hpa' Hother Hps'.
  assert (∀ k m q b, Km !! k = Some m → to_port Km pa k = false → O !! msgh_remote_port m = Some (KPort q) →
    queue_of q (msgh_remote_port m) = b → O' !! msgh_remote_port m = Some (KPort q)) as Hfor.
  { intros k m q b Hm Hto Hqp _. unfold to_port in Hto. rewrite Hm in Hto. apply N.eqb_neq in Hto.
    rewrite Hother; [done|done|]. intros Heq. congruence. }
  intros a o Ha. destruct (decide (a = pa)) as [->|Hap]; [|destruct (decide (a = ps)) as [->|Has]].
  - rewrite Hpa' in Ha. injection Ha as <-. destruct (Hq _ _ Hp) as [_ _ _ _ Hport].
    split; cbn; [by intros th ?%elem_of_nil| |rewrite Hlp; apply list.NoDup_filter, (qo_nodup _ _ _ _ _ (Hq _ _ Hs))|by right|].
    + intros k. rewrite Hlp, list_elem_of_filter. intros [Hto _]. unfold to_port in Hto.
      destruct (Km !! k) as [m|] eqn:Hm; [|done]. apply Is_true_true, N.eqb_eq in Hto. exists m, (clear_port ct lp p).
      by rewrite Hto.
    + intros q [= <-]. cbn. split; [by apply (Hport p)|]. intros [?|Hd]; [done|]. unfold ip_active, ip_object in *.
      cbn in Hd. congruence.
  - destruct Hps' as [Hps'|Hps']; rewrite Hps' in Ha; [done|]. injection Ha as <-.
    destruct (Hq _ _ Hs) as [Hth Hmsg Hnd Hone _]. cbn [kobj_target] in *.
    split; cbn; [done| |rewrite Hls; by apply list.NoDup_filter| |done].
    + intros k. rewrite Hls, list_elem_of_filter. intros [Hnot Hk]. destruct (Hmsg k Hk) as (m & q & Hm & Hqp & Hof).
      exists m, q. split_and!; [done| |done]. eapply Hfor; [done| |done|done].
      destruct (to_port Km pa k) eqn:Hto; [|done]. destruct Hnot. rewrite Hlp, list_elem_of_filter. by rewrite Hto.
    + destruct Hone as [Hone|Hone]; [left; by rewrite Hls, Hone|by right].
  - rewrite Hother in Ha by done. destruct (Hq _ _ Ha) as [Hth Hmsg Hnd Hone Hport]. split; [done| |done|done|done].
    intros k Hk. destruct (Hmsg k Hk) as (m & q & Hm & Hqp & Hof). exists m, q. split_and!; [done| |done].
    eapply Hfor; [done| |done|done]. unfold to_port. rewrite Hm. apply N.eqb_neq. intros Heq. rewrite Heq, Hp in Hqp.
    injection Hqp as <-. unfold queue_of in Hof. rewrite Hpset in Hof. by rewrite (proj2 (N.eqb_neq _ _) Hps0) in Hof.
Qed.

Definition pset_refs (s : ipc_pset) : N := io_references (ipt_object (ips_target s)).

(** What [ipc_port_clear_receiver] does to the objects. *)
Definition cleared O (pa : N) (p : ipc_port) O' : Prop :=
  ∃ ct q, O' !! pa = Some (KPort (clear_port ct q p)) ∧
    if ip_pset p =? IPS_NULL then ∀ b, b ≠ pa → O' !! b = O !! b
    else ∃ s, O !! ip_pset p = Some (KPset s) ∧ (∀ b, b ≠ pa → b ≠ ip_pset p → O' !! b = O !! b) ∧
      if pset_refs s =? 1 then O' !! ip_pset p = None
      else ∃ l, O' !! ip_pset p = Some (KPset (leave_pset l s)).

(** The condition on the port set: it is there and counts its member. *)
Definition in_pset O (p : ipc_port) : Prop :=
  ip_pset p ≠ IPS_NULL → ∃ s, O !! ip_pset p = Some (KPset s) ∧ 0 < pset_refs s < 2 ^ 32 ∧
    io_otype (ipt_object (ips_target s)) = IOT_PORT_SET.

Lemma pset_check_unlock_spec K ps s Q :
  k_objects K !! ps = Some (KPset s) → io_otype (ipt_object (ips_target s)) = IOT_PORT_SET →
  (∀ i, i < 6 → is_Some (k_caches K !! i)) →
  (pset_refs s ≠ 0 → Q tt K) →
  (pset_refs s = 0 → ∀ Cc', (∀ i, i < 6 → is_Some (Cc' !! i)) →
     Q tt (set_k_caches Cc' (set_k_objects (delete ps (k_objects K)) K))) →
  wp (io_check_unlock ps) Q K.
Proof.
  intros Hs Ht Hcc Hlive Hfree. unfold io_check_unlock. ksteps. cbn [kobj_target]. fold (pset_refs s).
  destruct (N.eqb_spec (pset_refs s) 0) as [H0|H0]; [|ksteps; auto].
  unfold io_free. ksteps. rewrite Ht. apply cache_free_spec; [done|reflexivity|]. intros Cc' Hcc'. by apply Hfree.
Qed.

(** The same without the counts: a port leaves its port set. *)
Definition leave_port (ct : N) (q : list N) (p : ipc_port) : ipc_port :=
  set_ip_cur_target ct (set_ip_pset IPS_NULL (upd_target (set_ipt_messages (IMqueue q [])) p)).

Lemma clear_leave ct q p : set_ip_seqno 0 (set_ip_mscount 0 (leave_port ct q p)) = clear_port ct q p.
Proof. done. Qed.

Lemma ipc_pset_leave_spec K pa p s Q :
  k_objects K !! pa = Some (KPort p) → k_objects K !! ip_pset p = Some (KPset s) → ip_active p = true → ip_pset p ≠ IPS_NULL →
  queues (k_objects K) (k_threads K) (k_kmsgs K) → 0 < pset_refs s < 2 ^ 32 → io_otype (ipt_object (ips_target s)) = IOT_PORT_SET →
  (∀ i, i < 6 → is_Some (k_caches K !! i)) →
  (∀ O' Cc' lp, O' !! pa = Some (KPort (leave_port pa lp p)) → cleared (k_objects K) pa p (<[pa := KPort (clear_port pa lp p)]> O') →
     queues (<[pa := KPort (clear_port pa lp p)]> O') (k_threads K) (k_kmsgs K) →
     (∀ i, i < 6 → is_Some (Cc' !! i)) → Q tt (set_k_caches Cc' (set_k_objects O' K))) →
  wp (ipc_pset_remove (ip_pset p) pa;; io_check_unlock (ip_pset p)) Q K.
Proof.
  destruct K as [Sp E O M B Th Km Ts Ca Cc]. ksimpl. intros Hp Hs Hact Hps Hq Hr Ht Hcc HQ. assert (pa ≠ ip_pset p) as Hne by congruence.
  destruct (Hq _ _ Hp) as [_ _ _ _ Hport]. destruct (Hport p eq_refl) as [_ Hempty]. specialize (Hempty (or_introl Hps)).
  unfold ipc_pset_remove. ksteps. rewrite N.eqb_refl. ksteps. unfold ipc_mqueue_move. ksteps. cbn [kobj_target ips_target].
  eapply mqueue_move_loop_spec; ksimpl; [by rewrite lookup_insert_ne, lookup_insert_eq by done|by rewrite lookup_insert_eq|done|
    by change (imq_threads (ip_messages p) = []); rewrite Hempty| |].
  { intros k Hk. destruct (qo_messages _ _ _ _ _ (Hq _ _ Hs) k Hk) as (m & _ & Hm & _). by exists m. }
  intros lp ls Hlp Hls. ksimpl.
  assert (lp = filter (to_port Km pa) (imq_messages (ipt_messages (ips_target s)))) as Hlp'.
  { change (lp = imq_messages (ip_messages p) ++ filter (to_port Km pa) (imq_messages (ipt_messages (ips_target s)))) in Hlp.
    by rewrite Hempty in Hlp. }
  assert (ls = filter (.∉ lp) (imq_messages (ipt_messages (ips_target s)))) as Hls' by (rewrite Hls, Hlp'; done).
  assert (upd_target (set_msgs lp) (set_ip_cur_target pa (set_ip_pset IPS_NULL p)) = leave_port pa lp p) as ->.
  { unfold ip_messages in Hempty. unfold leave_port, upd_target, set_msgs. cbn. by rewrite Hempty. }
  assert (∀ O2 Cc', (∀ i, i < 6 → is_Some (Cc' !! i)) → O2 !! pa = Some (KPort (leave_port pa lp p)) →
    (∀ b, b ≠ pa → b ≠ ip_pset p → O2 !! b = O !! b) →
    O2 !! ip_pset p = (if pset_refs s =? 1 then None else Some (KPset (leave_pset ls s))) →
    Q tt (Kernel Sp E O2 M B Th Km Ts Ca Cc')) as Htail.
  { clear Hlp Hls. intros O2 Cc' Hcc' HO2 Hother HO2s.
    assert (∀ b, b ≠ pa → b ≠ ip_pset p → <[pa := KPort (clear_port pa lp p)]> O2 !! b = O !! b) as Hother'.
    { intros b Hb Hb'. rewrite lookup_insert_ne by done. auto. }
    apply (HQ O2 Cc' lp HO2); [| |done].
    - exists pa, lp. rewrite lookup_insert_eq, (proj2 (N.eqb_neq _ _) Hps). split; [done|]. exists s. split_and!; [done|done|].
      rewrite lookup_insert_ne, HO2s by done. by destruct (pset_refs s =? 1); [|exists ls].
    - eapply queues_leave; try done; [by rewrite lookup_insert_eq|]. rewrite lookup_insert_ne, HO2s by done.
      destruct (pset_refs s =? 1); auto. }
  assert (pset_refs (leave_pset ls s) = pset_refs s - 1) as Hdec by by apply decr_pred.
  eapply (pset_check_unlock_spec _ _ (leave_pset ls s)); ksimpl; [by rewrite lookup_insert_ne, lookup_insert_eq by done|done|done| |];
    rewrite Hdec.
  - intros Hr0. apply Htail; [done|by rewrite lookup_insert_eq| |].
    + intros b Hb Hb'. by rewrite !lookup_insert_ne by done.
    + rewrite lookup_insert_ne, lookup_insert_eq by done. by rewrite (proj2 (N.eqb_neq _ 1)) by lia.
  - intros Hr0 Cc' Hcc'. ksimpl. apply Htail; [done| | |].
    + by rewrite lookup_delete_ne, lookup_insert_eq by done.
    + intros b Hb Hb'. by rewrite lookup_delete_ne, !lookup_insert_ne by done.
    + rewrite lookup_delete_eq. by rewrite (proj2 (N.eqb_eq _ 1)) by lia.
Qed.

Lemma ipc_port_clear_receiver_spec K pa p Q :
  k_objects K !! pa = Some (KPort p) → ip_active p = true → queues (k_objects K) (k_threads K) (k_kmsgs K) →
  in_pset (k_objects K) p → (∀ i, i < 6 → is_Some (k_caches K !! i)) →
  (∀ O' Th' Ca' Cc', cleared (k_objects K) pa p O' → queues O' Th' (k_kmsgs K) → (∀ i, i < 6 → is_Some (Cc' !! i)) →
     Q tt (set_k_caches Cc' (set_k_calls Ca' (set_k_threads Th' (set_k_objects O' K))))) →
  wp (ipc_port_clear_receiver pa) Q K.
Proof.
  destruct K as [Sp E O M B Th Km Ts Ca Cc]. ksimpl. intros Hp Hact Hq Hin Hcc HQ. unfold ipc_port_clear_receiver. do 5 kstep.
  destruct (N.eqb_spec (ip_pset p) IPS_NULL) as [Hps|Hps]; cbn [negb].
  - eapply ipc_mqueue_changed_spec; [done|by apply (Hq _ _ Hp)|]. intros Th' Ca' HTh. unfold ipc_port_set_mscount. ksteps.
    rewrite !insert_insert_eq. cbn [kobj_upd_target].
    assert (KPort (set_ip_seqno 0 (set_ip_mscount 0 (upd_target no_threads p))) =
      KPort (clear_port (ip_cur_target p) (imq_messages (ip_messages p)) p)) as -> by (by destruct p; cbn in Hps; subst).
    eapply (HQ _ Th' Ca' Cc); [|intros a o Ha; eapply queue_ok_threads, queues_clear; done|done].
    exists (ip_cur_target p), (imq_messages (ip_messages p)). rewrite lookup_insert_eq, Hps. split; [done|].
    intros b Hb. by rewrite lookup_insert_ne.
  - destruct (Hin Hps) as (s & Hs & Hr & Ht). eapply ipc_pset_leave_spec; ksimpl; try done.
    intros O' Cc' lp HO' Hcl Hq' Hcc'. unfold ipc_port_set_mscount. ksteps. rewrite insert_insert_eq, clear_leave.
    by apply (HQ _ Th Ca Cc').
Qed.

(** ** The invariant *)

Section Objects.
Context (Sp : gmap N (ipc_space T)) (O O' : gmap N kobject) (G : gmap N eslot) (n : naked) (pa : N) (p : ipc_port).
Context (Hinv : ObjInv Sp O G n) (Hp : O !! pa = Some (KPort p)) (Hact : ip_active p = true).
Context (Hcl : cleared O pa p O').

Lemma in_pset_ok : in_pset O p.
Proof.
  intros Hps. destruct (oi_objects _ _ _ _ Hinv _ _ Hp) as (_ & _ & Hport).
  destruct (po_pset _ _ _ _ _ _ Hport Hps) as (_ & s & Hs). exists s.
  destruct (oi_objects _ _ _ _ Hinv _ _ Hs) as (_ & _ & [Ht _ Hpos _]). done.
Qed.

(** Objects other than the port are still of the same kind. *)
Lemma cleared_port b q : b ≠ pa → O !! b = Some (KPort q) ↔ O' !! b = Some (KPort q).
Proof.
  intros Hb. destruct Hcl as (ct & l & _ & Hother). destruct (N.eqb_spec (ip_pset p) IPS_NULL); [by rewrite Hother|].
  destruct Hother as (s & Hs & Hother & Hps). destruct (decide (b = ip_pset p)) as [->|Hne]; [|by rewrite Hother].
  rewrite Hs. split; [done|]. destruct (_ =? 1); [congruence|]. destruct Hps as [? Hps]. congruence.
Qed.

Lemma cleared_count (P : kobject → bool) ct l :
  (∀ s, P (KPset s) = false) → O' !! pa = Some (KPort (clear_port ct l p)) →
  count P O' + Nb (P (KPort p)) = count P O + Nb (P (KPort (clear_port ct l p))).
Proof.
  intros HP Hpa. pose proof (count_delete P O pa _ Hp) as E1. pose proof (count_delete P O' pa _ Hpa) as E2.
  assert (∀ m m' : gmap N kobject, (∀ b q, b ≠ pa → m !! b = Some (KPort q) → m' !! b = Some (KPort q)) →
    count P (delete pa m) ≤ count P (delete pa m')) as Hsub.
  { intros m m' Hm. apply count_sub. intros i [q|s] [Hi Hx]%lookup_delete_Some HPx; [|by rewrite HP in HPx].
    exists (KPort q). split; [|done]. rewrite lookup_delete_ne by done. apply Hm; congruence. }
  assert (count P (delete pa O') ≤ count P (delete pa O)) by (apply Hsub; intros b q Hb; by apply cleared_port).
  assert (count P (delete pa O) ≤ count P (delete pa O')) by (apply Hsub; intros b q Hb; by apply cleared_port).
  lia.
Qed.

Lemma cleared_is_port b : is_port O b → is_port O' b.
Proof.
  intros [q Hq]. destruct (decide (b = pa)) as [->|Hb]; [|exists q; by apply cleared_port].
  destruct Hcl as (ct & l & Hpa & _). by eexists.
Qed.

(** The port set survives when something else refers to it. *)
Lemma cleared_pset b s :
  O !! b = Some (KPset s) → b ≠ ip_pset p ∨ 2 ≤ pset_refs s →
  ∃ s', O' !! b = Some (KPset s') ∧ ips_active s' = ips_active s ∧ ips_local_name s' = ips_local_name s.
Proof.
  intros Hs Href. assert (b ≠ pa) by congruence. destruct (oi_objects _ _ _ _ Hinv _ _ Hs) as ((Hb0 & _) & _).
  destruct Hcl as (ct & l & _ & Hother).
  destruct (N.eqb_spec (ip_pset p) IPS_NULL) as [Hp0|Hp0]; [exists s; by rewrite Hother|].
  destruct Hother as (s0 & Hs0 & Hother & Hps). destruct (decide (b = ip_pset p)) as [->|Hne]; [|exists s; by rewrite Hother].
  rewrite Hs in Hs0. injection Hs0 as <-. destruct Href as [?|Href]; [done|].
  rewrite (proj2 (N.eqb_neq (pset_refs s) 1)) in Hps by lia. destruct Hps as [l' Hps]. by exists (leave_pset l' s).
Qed.

(** Ports and port sets count the member. *)
Lemma pset_refs_member b s q :
  O !! b = Some (KPset s) → b = ip_pset p → (∃ c, c ≠ pa ∧ O !! c = Some (KPort q) ∧ ip_pset q = b) ∨ 0 < n_caps G b →
  2 ≤ pset_refs s.
Proof.
  intros Hs Hb Hother. destruct (oi_objects _ _ _ _ Hinv _ _ Hs) as (_ & _ & [_ Hr _ _]). unfold pset_refs. rewrite Hr.
  assert (member_of b (KPort p) = true) as Hm by (simpl; by apply N.eqb_eq).
  destruct Hother as [(c & Hc & Hq & Hqb)|Hcaps].
  - assert (2 ≤ n_member O b); [|lia]. apply (count_two _ _ _ _ _ _ Hp Hq); [done|done|]. simpl. by apply N.eqb_eq.
  - pose proof (count_pos _ _ _ _ Hp Hm). unfold n_member. lia.
Qed.

Lemma clear_port_ok ct l :
  O' !! pa = Some (KPort (clear_port ct l p)) → port_ok Sp O G n pa p →
  n_dest O' pa ≤ n_dest O pa → n_pd O' pa ≤ n_pd O pa →
  port_ok Sp O' G n pa (clear_port ct l p).
Proof.
  intros Hpa [Ht Hr Hpos Hnk Hpd Hse Hso Hsoa Hre Hnr Hlimbo Hpdr Hps Hdn] Hd Hpd'.
  split; try done; try lia.
  - intros _ Hl. destruct (Hlimbo Hact Hl) as (_ & _ & _ & Hdest & _). split_and!; [done|done|done| |done].
    intros Hd0. by apply cleared_is_port, Hdest.
  - intros Hq. by apply cleared_is_port, Hpdr.
Qed.

Lemma cleared_counts b :
  b ≠ 0 → n_dest O' b = n_dest O b ∧ n_pd O' b = n_pd O b ∧ n_member O' b + Nb (ip_pset p =? b) = n_member O b.
Proof.
  intros Hb. destruct Hcl as (ct & l & Hpa & _). pose proof (cleared_count (dest_is b) ct l (λ _, eq_refl) Hpa) as E1.
  pose proof (cleared_count (pdrequest_is b) ct l (λ _, eq_refl) Hpa) as E2.
  pose proof (cleared_count (member_of b) ct l (λ _, eq_refl) Hpa) as E3. unfold n_dest, n_pd, n_member.
  change (dest_is b (KPort (clear_port ct l p))) with (dest_is b (KPort p)) in E1.
  change (pdrequest_is b (KPort (clear_port ct l p))) with (pdrequest_is b (KPort p)) in E2.
  change (member_of b (KPort (clear_port ct l p))) with (0 =? b) in E3. rewrite (proj2 (N.eqb_neq 0 b)) in E3 by done.
  simpl in *. lia.
Qed.

Lemma cleared_pset_back b s' :
  b ≠ pa → O' !! b = Some (KPset s') →
  ∃ s, O !! b = Some (KPset s) ∧
    if ip_pset p =? b then ∃ l, s' = leave_pset l s ∧ pset_refs s ≠ 1 else s' = s.
Proof.
  intros Hb Hs'. destruct Hcl as (ct & l & _ & Hother).
  destruct (N.eqb_spec (ip_pset p) IPS_NULL) as [Hps0|Hps0].
  - rewrite Hother in Hs' by done. exists s'. split; [done|]. destruct (oi_objects _ _ _ _ Hinv _ _ Hs') as ((Hb0 & _) & _).
    by rewrite (proj2 (N.eqb_neq (ip_pset p) b)) by (rewrite Hps0; done).
  - destruct Hother as (s & Hs & Hother & Hps). destruct (N.eqb_spec (ip_pset p) b) as [<-|Hne].
    + exists s. split; [done|]. destruct (N.eqb_spec (pset_refs s) 1); [congruence|]. destruct Hps as [l' Hps].
      exists l'. split; [congruence|done].
    + rewrite Hother in Hs' by done. by exists s'.
Qed.

Lemma cleared_next b : next_port O' b = next_port O b.
Proof.
  unfold next_port. destruct (decide (b = pa)) as [->|Hb].
  - destruct Hcl as (ct & l & Hpa & _). by rewrite Hpa, Hp.
  - destruct (O' !! b) as [[q|s']|] eqn:E'.
    + apply cleared_port in E'; [|done]. by rewrite E'.
    + destruct (O !! b) as [[q|]|] eqn:E; [|done..]. apply cleared_port in E; [|done]. congruence.
    + destruct (O !! b) as [[q|]|] eqn:E; [|done..]. apply cleared_port in E; [|done]. congruence.
Qed.

Lemma obj_clear : ObjInv Sp O' G n.
Proof.
  pose proof Hcl as (ct & l & Hpa & Hother).
  split; [..|intros o Ho; by apply cleared_is_port, Hinv|eapply acyclic_less; [intros b; left; apply cleared_next|apply Hinv]].
  - intros eb sp name c Hc. destruct (oi_caps _ _ _ _ Hinv _ _ _ _ Hc) as [Hwf Hok]. split; [done|].
    assert (∀ q, O !! c_obj c = Some (KPort q) → (is_recv (c_type c) = true → received_at q sp name) →
      ∃ q', O' !! c_obj c = Some (KPort q') ∧ (is_recv (c_type c) = true → received_at q' sp name)) as Hports.
    { intros q Hq Hat. destruct (decide (c_obj c = pa)) as [Heq|Hne]; [|exists q; by rewrite <- cleared_port].
      rewrite Heq, Hp in Hq. injection Hq as <-. exists (clear_port ct l p). by rewrite Heq. }
    destruct (c_type c) eqn:Htc; try done; try (destruct Hok as (q & Hq & Hat); by apply (Hports q)).
    destruct Hok as (s & Hs & Ha & Hn). destruct (cleared_pset _ _ Hs) as (s' & Hs' & Ha' & Hn').
    + destruct (decide (c_obj c = ip_pset p)) as [Heq|]; [right|by left].
      apply (pset_refs_member _ _ p Hs Heq). right. apply (count_pos _ _ _ _ Hc). unfold holds. simpl. by rewrite N.eqb_refl.
    + exists s'. by rewrite Ha', Hn'.
  - apply Hinv.
  - intros b o Ho. destruct (decide (b = pa)) as [->|Hb].
    + rewrite Hpa in Ho. injection Ho as <-. destruct (oi_objects _ _ _ _ Hinv _ _ Hp) as (Haddr & HS & Hport).
      destruct (cleared_counts pa) as (? & ? & _); [apply Haddr|]. split_and!; [done|done|]. apply clear_port_ok; try done; lia.
    + destruct o as [q|s'].
      * apply cleared_port in Ho; [|done]. destruct (oi_objects _ _ _ _ Hinv _ _ Ho) as (Haddr & HS & Hport).
        destruct (cleared_counts b) as (? & ? & _); [apply Haddr|]. split_and!; [done|done|].
        apply (port_ok_frame_pset Sp O O' G G n n b q); auto; try lia.
        -- intros Hq s Hs. destruct (cleared_pset _ _ Hs) as (s' & Hs' & _); [|by exists s'].
           destruct (decide (ip_pset q = ip_pset p)) as [Heq|]; [right|by left].
           apply (pset_refs_member _ _ q Hs Heq). left. by exists b.
        -- intros _ _ _. apply cleared_is_port.
        -- intros _. apply cleared_is_port.
      * destruct (cleared_pset_back b s') as (s & Hs & Hs'); [done|done|].
        destruct (oi_objects _ _ _ _ Hinv _ _ Hs) as ((Hb0 & ?) & HS & Hok). split_and!; [done|done|].
        destruct (cleared_counts b Hb0) as (_ & _ & Hm). destruct Hok as [Ht Hr Hpos Hc]. unfold pset_refs in Hs'.
        destruct (N.eqb_spec (ip_pset p) b) as [Hpb|Hpb]; cbn [Nb] in Hm.
        -- destruct Hs' as [l' [-> H1]]. split; cbn; [done| | |done].
           ++ rewrite decr_pred by done. lia.
           ++ rewrite decr_pred by done. lia.
        -- subst s'. split; [done| |done|done]. lia.
Qed.
End Objects.
End Clear.

#[export] Hint Resolve threads_kept_refl : core.
