(* ===== verification/IpcReceive.v ===== *)
(** Receive rights that move: the case MOVE_RECEIVE of [ipc_right_copyin]. *)

From S2P Require Import Prelude Kmem Rdxtree RdxtreeInv RdxtreeSpec RdxtreeMap IpcTypes IpcEntry IpcPort IpcMarequest IpcRight IpcBits IpcInv IpcUpdate IpcDn IpcMar IpcStep IpcRelease IpcCheck IpcVacate IpcDealloc IpcDelta IpcCopyin IpcClear.

Open Scope N_scope.

(** ** The protected payload *)

Lemma io_active_testbit o : io_active o = N.testbit (io_bits o) 31.
Proof.
  unfold io_active, u32, wrap. rewrite <- (N.mod_pow2_bits_low (io_bits o) 32 31) by done.
  pose proof (N.mod_lt (io_bits o) (2 ^ 32) ltac:(lia)) as Hlt. generalize dependent (io_bits o mod 2 ^ 32). intros x Hlt.
  rewrite N.testbit_odd, N.shiftr_div_pow2. destruct (N.leb_spec (2 ^ 31) x) as [Hx|Hx].
  - replace (x / 2 ^ 31) with 1; [done|]. apply (N.div_unique x (2 ^ 31) 1 (x - 2 ^ 31)); lia.
  - by rewrite N.div_small.
Qed.

Lemma land_ldiff_disjoint b m k : N.land m k = 0 → N.land (N.ldiff b m) k = N.land b k.
Proof.
  intros Hmk. apply N.bits_inj. intros j. rewrite !N.land_spec, N.ldiff_spec.
  assert (N.testbit m j && N.testbit k j = false) as Hj by (by rewrite <- N.land_spec, Hmk, N.bits_0).
  by destruct (N.testbit b j), (N.testbit m j), (N.testbit k j).
Qed.

Lemma payload_clear_otype p : io_otype (ip_object (ipc_port_flag_protected_payload_clear p)) = io_otype (ip_object p).
Proof. unfold io_otype. f_equal. by apply (land_ldiff_disjoint (io_bits (ip_object p))). Qed.
Lemma payload_clear_active p : ip_active (ipc_port_flag_protected_payload_clear p) = ip_active p.
Proof.
  unfold ip_active. rewrite !io_active_testbit. cbn. change (io_bits (ipt_object (ip_target p))) with (ip_bits p).
  change IO_BITS_PROTECTED_PAYLOAD with (2 ^ 30). unfold ip_bits, ip_object. rewrite N.ldiff_spec, N.pow2_bits_false by done. by rewrite andb_true_r.
Qed.

Section Receive.
Context `{!Config} {T C : Type} `{!KeyMap T} `{!KmemCache C}.
Implicit Types (K : kernel T C) (O : gmap N kobject) (G : gmap N eslot) (n : naked).

(** ** The place of a receive right *)

(** The fields that tell where the receive right is, in the new state. *)
Record placed (Sp : gmap N (ipc_space T)) O (pa : N) (r' : naked_rights) (p p' : ipc_port) : Prop := {
  pl_otype : io_otype (ip_object p') = io_otype (ip_object p);
  pl_active : ip_active p' = ip_active p;
  pl_links : links_le p p';
  pl_naked : naked_recv_ok Sp r' p';
  pl_limbo : ip_active p = true → limbo_ok (<[pa := KPort p']> O) p';
  pl_pd : ip_pdrequest p' = ip_pdrequest p;
  pl_pset : ip_pset p' = ip_pset p;
}.

(** As [port_ok_step], for a port whose receive right may move. *)
Lemma port_ok_move (Sp : gmap N (ipc_space T)) O G n ea sp name st st' pa p p' r' :
  port_ok Sp O G n pa p → O !! pa = Some (KPort p) → pa ≠ 0 → placed Sp O pa r' p p' →
  0 < ip_references p' < 2 ^ 32 →
  nk_send r' + nk_sonce r' + nk_recv r' + n_dest O pa ≤ nk_refs r' → n_pd O pa ≤ nk_pd r' ≤ nk_sonce r' →
  G !! ea = Some (Slot sp name st) →
  ip_references p' + on (λ _, true) pa st + nk_refs (n pa) = ip_references p + on (λ _, true) pa st' + nk_refs r' →
  (ip_active p = true → ip_srights p' + on is_send pa st + nk_send (n pa) = ip_srights p + on is_send pa st' + nk_send r') →
  ip_sorights p' = ip_sorights p → on is_sonce pa st' + nk_sonce r' = on is_sonce pa st + nk_sonce (n pa) →
  on is_recv pa st' + nk_recv r' = on is_recv pa st + nk_recv (n pa) →
  (ip_active p = true → dn_ok (<[ea := Slot sp name st']> G) pa (ip_dnrequests p')) →
  port_ok Sp (<[pa := KPort p']> O) (<[ea := Slot sp name st']> G) (upd_naked n pa r') pa p'.
Proof.
  intros [Ht Hrefs Hpos Hnk Hnpd Hse Hson Hsona Hrecv Hnr Hlimbo Hpdr Hps Hdn] Hp Hpa [Hot Hact Hlinks Hnaked Hlim Hpdq Hpsq]
    Hpos' Hnk' Hpd' Hg Hr Hs Hso Hsor Hre Hdn'.
  pose proof (n_update (λ _, true) G ea sp name st st' pa Hg). pose proof (n_update is_send G ea sp name st st' pa Hg).
  pose proof (n_update is_sonce G ea sp name st st' pa Hg). pose proof (n_update is_recv G ea sp name st st' pa Hg).
  destruct (links_le_counts O pa p Hp p' pa Hlinks Hpa) as (Hd' & Hpd'' & _).
  split; rewrite ?upd_naked_eq, ?Hact; unfold n_caps, n_send, n_sonce, n_recv in *; try done; try lia.
  - intros Ha. specialize (Hs Ha). specialize (Hse Ha). lia.
  - intros Ha. specialize (Hsona Ha). lia.
  - rewrite Hpdq. intros Hq. destruct (Hpdr Hq) as [x Hx]. destruct (decide (ip_pdrequest p = pa)) as [->|Hne]; eexists;
      [by rewrite lookup_insert_eq|by rewrite lookup_insert_ne].
  - rewrite Hpsq. intros Hq. destruct (Hps Hq) as (? & s & Hs'). split; [done|]. exists s. rewrite lookup_insert_ne; [done|congruence].
Qed.

(** There is one receive right. *)
Lemma one_receive Sp O G n pa p ea eb s s' c c' :
  port_ok (T := T) Sp O G n pa p → G !! ea = Some s → G !! eb = Some s' → sl_state s = Used c → sl_state s' = Used c' →
  c_obj c = pa → c_obj c' = pa → is_recv (c_type c) = true → is_recv (c_type c') = true → ea = eb.
Proof.
  intros Hport Ha Hb Hs Hs' Hc Hc' Hr Hr'. destruct (decide (ea = eb)) as [|Hne]; [done|].
  pose proof (po_recv _ _ _ _ _ _ Hport) as Hone.
  assert (2 ≤ n_recv G pa).
  { apply (count_two _ _ _ _ _ _ Ha Hb Hne); unfold holds; [rewrite Hs, Hr|rewrite Hs', Hr']; subst pa;
      by rewrite ?Hc', ?N.eqb_refl. }
  destruct (ip_active p); cbn [Nb] in Hone; lia.
Qed.

(** The receiver was cleared after another change of the port. *)
Lemma cleared_after O pa p p1 O' :
  O !! pa = Some (KPort p) → ip_pset p1 = ip_pset p → cleared (<[pa := KPort p1]> O) pa p1 O' →
  ∃ ct l, O' !! pa = Some (KPort (clear_port ct l p1)) ∧ cleared O pa p (<[pa := KPort (clear_port ct l p)]> O').
Proof.
  intros Hp Hps (ct & l & Hpa & Hother). exists ct, l. split; [done|]. exists ct, l. rewrite lookup_insert_eq. split; [done|].
  rewrite Hps in Hother. destruct (ip_pset p =? IPS_NULL).
  - intros b Hb. rewrite lookup_insert_ne, Hother by done. by rewrite lookup_insert_ne.
  - destruct Hother as (s & Hs & Hother & Hrest). assert (ip_pset p ≠ pa) as Hne.
    { intros Heq. by rewrite Heq, lookup_insert_eq in Hs. }
    rewrite lookup_insert_ne in Hs by done. exists s. split_and!; [done| |].
    + intros b Hb Hb'. rewrite lookup_insert_ne, Hother by done. by rewrite lookup_insert_ne.
    + by rewrite lookup_insert_ne.
Qed.

(** A port whose receive right is in limbo. *)
Definition limbo_port (p : ipc_port) : ipc_port :=
  ipc_port_flag_protected_payload_clear (set_ip_destination IP_NULL (set_ip_receiver_name MACH_PORT_NULL p)).

(** ** A receive right leaves its entry *)

Section Take.
Context (Sp : gmap N (ipc_space T)) (O O' : gmap N kobject) (G : gmap N eslot) (n : naked) (ea sp name : N) (c : cap).
Context (st' : estate) (p p1 : ipc_port).
Context (Hinv : ObjInv Sp O G n) (Hg : G !! ea = Some (Slot sp name (Used c))) (Hr : is_recv (c_type c) = true).
Context (Hp : O !! c_obj c = Some (KPort p)) (Hact : ip_active p = true) (H0 : ¬ active_space Sp 0).
Context (Hsame : same_place p p1) (Hpos : 0 < ip_references p1 < 2 ^ 32).
Context (Hrefs : ip_references p1 = ip_references p + on (λ _, true) (c_obj c) st').
Context (Hsr : ip_srights p1 + Nb (is_send (c_type c)) = ip_srights p + on is_send (c_obj c) st').
Context (Hsor : ip_sorights p1 = ip_sorights p) (Hst : only (c_obj c) st').
Context (Hre : on is_recv (c_obj c) st' = 0) (Hso : on is_sonce (c_obj c) st' = 0).
Context (Hdn : dn_ok (<[ea := Slot sp name st']> G) (c_obj c) (ip_dnrequests p1)).
Context (Hcap : ∀ c', st' = Used c' → cap_wf c' ∧ (c_type c' = TDead ∨ c_type c' = TSend ∧ c_obj c' = c_obj c)).
Context (Hcl : cleared (<[c_obj c := KPort p1]> O) (c_obj c) p1 O').

Lemma obj_take_receive :
  ∃ ct l, O' !! c_obj c = Some (KPort (clear_port ct l p1)) ∧
    ObjInv Sp (<[c_obj c := KPort (limbo_port (clear_port ct l p1))]> O') (<[ea := Slot sp name st']> G)
      (upd_naked n (c_obj c) (add_right TRecv (n (c_obj c)))).
Proof.
  destruct (cleared_after O (c_obj c) p p1 O' Hp (sm_pset _ _ Hsame) Hcl) as (ct & l & Hpa & Hcl'). exists ct, l. split; [done|].
  pose proof (obj_clear Sp O _ G n (c_obj c) p Hinv Hp Hact Hcl') as Hinv'.
  assert (<[c_obj c := KPort (clear_port ct l p)]> O' !! c_obj c = Some (KPort (clear_port ct l p))) as Hpc
    by apply lookup_insert_eq.
  destruct (oi_objects _ _ _ _ Hinv' _ _ Hpc) as (Haddr & _ & Hport).
  rewrite <- (insert_insert_eq O' (c_obj c) (KPort (limbo_port (clear_port ct l p1))) (KPort (clear_port ct l p))).
  assert (links_le (clear_port ct l p) (limbo_port (clear_port ct l p1))) as Hlinks.
  { split; [|intros o _ Hpd|done].
    - intros o Ho. unfold dest_is. rewrite !andb_true_iff. intros [_ Hd%N.eqb_eq]. by destruct Ho.
    - revert Hpd. cbn. by rewrite (sm_pd _ _ Hsame). }
  assert (ip_active p1 = ip_active p) as Hact1 by by apply same_place_active.
  eapply (obj_update Sp _ G n (c_obj c) (clear_port ct l p) _ Hinv' Hpc ea sp name (Used c) st'); [done|by left|done| |done| | |].
  - intros o Ho. left. destruct st' as [| |c']; try done. destruct (Hcap c' eq_refl) as (_ & [Ht'|[Ht' Hc']]);
      simpl in Ho |- *; rewrite Ht' in Ho; [done|]. rewrite Hc' in Ho. by destruct (c_type c).
  - intros c' ->. destruct (Hcap c' eq_refl) as (Hwf' & [Ht'|[Ht' Hc']]); (split; [done|]); rewrite Ht'; [done|].
    rewrite Hc', lookup_insert_eq. by eexists.
  - intros eb s c' Hne Hb Hs Hc' Hr' _. destruct Hne. by eapply (one_receive _ _ _ _ _ _ eb ea).
  - pose proof (po_naked _ _ _ _ _ _ Hport) as Hnk. pose proof (po_pd _ _ _ _ _ _ Hport) as Hnpd.
    pose proof (on_used is_send c) as Ons. pose proof (on_used is_sonce c) as Onso. pose proof (on_used is_recv c) as Onr.
    pose proof (on_used (λ _, true) c) as Ona. rewrite Hr in Onr. cbn [Nb] in *.
    assert (is_sonce (c_type c) = false) as Hns by (by destruct (c_type c)). rewrite Hns in Onso. cbn [Nb] in *.
    change (ip_references p1 = ?r) with (ip_references (limbo_port (clear_port ct l p1)) = r) in Hrefs.
    apply (port_ok_move Sp _ G n ea sp name (Used c) st' (c_obj c) (clear_port ct l p)); unfold add_right;
      cbn [nk_refs nk_send nk_sonce nk_recv nk_pd nk_kern is_send is_sonce is_recv Nb]; try done; try apply Haddr; try lia.
    + split; try done.
      * unfold limbo_port. rewrite payload_clear_otype. unfold io_otype. change (ip_bits p1) with (io_bits (ip_object p1)) in *.
        pose proof (sm_bits _ _ Hsame) as Hb. unfold ip_bits in Hb. change (N.shiftr (N.land (io_bits (ip_object p1)) IO_BITS_OTYPE) 16 =
          N.shiftr (N.land (io_bits (ip_object p)) IO_BITS_OTYPE) 16). by rewrite Hb.
      * unfold limbo_port. rewrite payload_clear_active. exact Hact1.
      * destruct (po_naked_recv _ _ _ _ _ _ Hport) as [? _]. split; cbn; [lia|]. intros _. by split.
      * apply (sm_pd _ _ Hsame).
    + change (ip_references (clear_port ct l p)) with (ip_references p). lia.
    + change (ip_srights (clear_port ct l p)) with (ip_srights p).
      change (ip_srights (limbo_port (clear_port ct l p1))) with (ip_srights p1). lia.
Qed.
End Take.

(** No insertion into the reverse map of the space fails for want of memory. *)
Definition room_in K (sp : N) : Prop := ∀ S, k_spaces K !! sp = Some S → roomy (is_reverse_map S).

Lemma space_zero K G n : Inv K G n → ¬ active_space (k_spaces K) 0.
Proof. intros Hinv (S & HS & Hact). by destruct (sp_addr _ _ _ _ (ei_spaces _ _ _ (inv_ents _ _ _ Hinv) _ _ HS Hact)). Qed.

Section MoveReceive.
Context (Sp : gmap N (ipc_space T)) (E : gmap N ipc_entry) (O : gmap N kobject) (M : gmap N ipc_marequest).
Context (B : gmap N (list N)) (Th : gmap N ipc_thread) (Km : gmap N ipc_kmsg) (Ts : N) (Ca : list call) (Cc : gmap N C).
Context (G : gmap N eslot) (n : naked) (ea sp name : N) (c : cap) (e : ipc_entry) (deadok : bool).
#[local] Abbreviation K := (Kernel Sp E O M B Th Km Ts Ca Cc).
Context (Hinv : Inv K G n) (Hg : G !! ea = Some (Slot sp name (Used c))) (Hwf : cap_wf c).
Context (He : E !! ea = Some e) (Hrep : entry_rep e (Slot sp name (Used c))) (Hrecv : is_recv (c_type c) = true).

(** The end of the case, when the entry has given up the receive right. *)
Lemma move_receive_tail p p1 e1 e' S t M' B' st' (so : N) Q :
  O !! c_obj c = Some (KPort p) → ip_active p = true → same_place p p1 → 0 < ip_references p1 < 2 ^ 32 →
  ip_references p1 = ip_references p + on (λ _, true) (c_obj c) st' →
  ip_srights p1 = ip_srights p → ip_sorights p1 = ip_sorights p →
  on is_send (c_obj c) st' = Nb (is_send (c_type c)) → st' ≠ Free →
  dn_ok (<[ea := Slot sp name st']> G) (c_obj c) (ip_dnrequests p1) →
  (∀ c', st' = Used c' → c_type c' = TSend ∧ c_obj c' = c_obj c ∧ cap_wf c') →
  Sp !! sp = Some S → rev_ok (<[ea := Slot sp name st']> G) sp t → mar_ok Sp (<[ea := Slot sp name st']> G) M' B' →
  set_ie_bits (N.ldiff (cap_bits c) MACH_PORT_TYPE_RECEIVE) e1 = e' → entry_rep e' (Slot sp name st') →
  (st' = Held → idle e') →
  (∀ K', Inv K' (<[ea := Slot sp name st']> G) (upd_naked n (c_obj c) (add_right TRecv (n (c_obj c)))) →
     same_spaces Sp (k_spaces K') → (st' = Held → ∃ e, k_entries K' !! ea = Some e ∧ idle e) → in_limbo K' (c_obj c) →
     Q (KERN_SUCCESS, c_obj c, so) K') →
  wp (upd_entry ea (set_ie_bits (N.ldiff (cap_bits c) MACH_PORT_TYPE_RECEIVE));;
      ipc_port_clear_receiver (c_obj c);;
      upd_port (c_obj c) (set_ip_receiver_name MACH_PORT_NULL);;
      upd_port (c_obj c) (set_ip_destination IP_NULL);;
      upd_port (c_obj c) ipc_port_flag_protected_payload_clear;;
      mret (KERN_SUCCESS, c_obj c, so)) Q
    (Kernel (<[sp := set_is_reverse_map t S]> Sp) (<[ea := e1]> E) (<[c_obj c := KPort p1]> O) M' B' Th Km Ts Ca Cc).
Proof.
  intros Hp Hact Hsame Hpos Hrefs Hsr Hsor Hse Hfree Hdn Hcap HS Hrev Hmar He' Hrep' Hidle HQ.
  pose proof Hinv as [Hcc Hent Hobj _ Hq]. ksimpl_all. pose proof (space_zero _ _ _ Hinv) as Hz. ksimpl_all.
  assert (on is_recv (c_obj c) st' = 0 ∧ on is_sonce (c_obj c) st' = 0 ∧ only (c_obj c) st') as (Hre & Hso & Honly).
  { destruct st' as [| |c']; try done. destruct (Hcap c' eq_refl) as (Ht' & Hc' & _). rewrite <- Hc', !on_used, Ht'.
    split_and!; [done|done|]. by left. }
  do 2 kstep. rewrite insert_insert_eq, He'. kstep.
  eapply (ipc_port_clear_receiver_spec _ (c_obj c) p1); ksimpl; [by rewrite lookup_insert_eq| | | |done|].
  { by rewrite (same_place_active _ _ Hsame). } { intros a o. by eapply queues_update. }
  { intros Hps. rewrite (sm_pset _ _ Hsame) in Hps |- *. destruct (in_pset_ok _ _ _ _ _ _ Hobj Hp Hps) as (s & Hs & ?).
    exists s. rewrite lookup_insert_ne; [done|congruence]. }
  intros O' Th' Ca' Cc' Hcl Hq' Hcc'. ksimpl.
  destruct (obj_take_receive Sp O O' G n ea sp name c st' p p1) as (ct & l & Hpa & Hobj'); try done; [lia| |].
  { intros c' Hc'. destruct (Hcap c' Hc') as (? & ? & ?). auto. }
  ksteps. rewrite !insert_insert_eq. eapply HQ.
  - assert (same_spaces Sp (<[sp := set_is_reverse_map t S]> Sp)) as HSp by by eapply same_spaces_insert.
    split; ksimpl; [done|by eapply ent_update|by apply (obj_inv_spaces Sp)|by eapply mar_ok_spaces; [apply HSp|]|].
    eapply (queues_same _ _ _ _ (clear_port ct l p1)); [done|done| |done|done|done].
    unfold limbo_port. by rewrite payload_clear_active.
  - by eapply same_spaces_insert.
  - intros Hh. exists e'. ksimpl. rewrite lookup_insert_eq. auto.
  - eexists. ksimpl. by rewrite lookup_insert_eq.
Qed.

Lemma move_receive_post so K' st' :
  copyin_cap (live_port O c) MACH_MSG_TYPE_MOVE_RECEIVE deadok c = (KERN_SUCCESS, c_obj c, st', Some TRecv) →
  Inv K' (<[ea := Slot sp name st']> G) (upd_naked n (c_obj c) (add_right TRecv (n (c_obj c)))) →
  same_spaces Sp (k_spaces K') → (st' = Held → ∃ e, k_entries K' !! ea = Some e ∧ idle e) → in_limbo K' (c_obj c) →
  copyin_post K G n ea sp name MACH_MSG_TYPE_MOVE_RECEIVE deadok c (KERN_SUCCESS, c_obj c, so) K'.
Proof. intros Hc HK' HSp Hidle Hl. unfold copyin_post. ksimpl. rewrite Hc. by split_and!. Qed.

Context (Hmax : spare_ref K (c_obj c)) (Hroom : room_in K sp).

(** With a send right, which stays behind. *)
Lemma copyin_move_receive_both :
  c_type c = TSendRecv →
  wp (copyin_move_receive sp name ea) (copyin_post K G n ea sp name MACH_MSG_TYPE_MOVE_RECEIVE deadok c) K.
Proof.
  intros Ht. pose proof Hrep as (Hn & Hb & Ho & Hr). cbn [sl_state sl_name] in *. unfold copyin_move_receive. ksteps.
  pose proof Hinv as [Hcc Hent Hobj Hmar _]. ksimpl_all.
  destruct (ei_slots _ _ _ Hent _ _ Hg) as [[Hea0 Heal] [Hn0 _] (S & HS & HSa) _]. cbn [sl_space] in *.
  destruct (ei_spaces _ _ _ Hent _ _ HS HSa) as [Hsp0 _ Hrev _].
  rewrite Hb, Ho. captests. kstep. eapply copyin_receive_port_spec; try done. intros p Hp (Hact & Hrs & Hrn) Ho0.
  destruct (oi_objects _ _ _ _ Hobj _ _ Hp) as (Haddr & _ & Hport). specialize (Hmax p Hp).
  assert (0 < ip_srights p) by (eapply send_counted; [done|done|exact Hg|done|by rewrite Ht]).
  assert (c_urefs c ≠ 0) as Hu by (unfold cap_wf in Hwf; rewrite Ht in Hwf; lia).
  ksteps. keqb. ksteps. rewrite (proj2 (N.eqb_neq (ip_srights p) 0)) by lia. ksteps.
  set (c' := Cap TSend (c_obj c) (c_urefs c) (c_req c) (c_ma c)).
  eapply (ipc_reverse_insert_spec _ G ea sp name (Used c) (Used c') (c_obj c) S); try done; [by apply (Hroom S)| | |].
  { simpl. by rewrite Ht. }
  { intros eb [sp1 name1 st1] Hb1 Hsp1 Hps. cbn [sl_space sl_state] in *. subst sp1. destruct st1 as [| |c1]; try done. simpl in Hps.
    destruct (c_type c1) eqn:Ht1; try done. injection Hps as Hc1.
    assert (eb = ea) as ->; [|congruence]. eapply (oi_uniq _ _ _ _ Hobj eb ea _ _ (c_obj c) Hb1 Hg); [done| |]; simpl.
    - by rewrite Ht1, Hc1.
    - by rewrite Ht. }
  intros v t Hrev'. do 3 kstep. eapply (move_receive_tail p (ip_reference p) _ _ S t M B (Used c')); try done.
  - psimpl. lia.
  - psimpl. unfold c'. rewrite on_cap. cbn [Nb]. lia.
  - unfold c'. rewrite on_cap, Ht. done.
  - eapply dn_ok_keep; [done|by apply Hport|by right].
  - intros c1 [= <-]. split_and!; [done|done|]. unfold cap_wf in *. rewrite Ht in Hwf. exact Hwf.
  - eapply mar_ok_update; [done|done|done].
  - unfold entry_rep. cbn. split_and!; [done| |done|done]. unfold cap_bits. rewrite Ht.
    change MACH_PORT_TYPE_RECEIVE with (2 ^ 16 * 2). rewrite ldiff_high by by apply cap_urefs_lt. by destruct (c_ma c).
  - intros K' HK' HSp Hid Hl. apply (move_receive_post v K' (Used c')); try done. unfold copyin_cap. by rewrite Ht.
Qed.

(** Without one; the entry is given up. *)
Lemma copyin_move_receive_only :
  c_type c = TRecv →
  wp (copyin_move_receive sp name ea) (copyin_post K G n ea sp name MACH_MSG_TYPE_MOVE_RECEIVE deadok c) K.
Proof.
  intros Ht. pose proof Hrep as (Hn & Hb & Ho & Hr). cbn [sl_state sl_name] in *. unfold copyin_move_receive. ksteps.
  pose proof Hinv as [Hcc Hent Hobj Hmar _]. ksimpl_all.
  destruct (ei_slots _ _ _ Hent _ _ Hg) as [[Hea0 Heal] [Hn0 _] Hspa _]. pose proof Hspa as (S & HS & HSa). cbn [sl_space sl_name] in *.
  destruct (ei_spaces _ _ _ Hent _ _ HS HSa) as [Hsp0 _ Hrev _]. pose proof (ent_sole _ _ _ _ _ _ _ Hent Hg) as Hsole.
  rewrite Hb, Ho. captests. kstep. eapply copyin_receive_port_spec; try done. intros p Hp (Hact & Hrs & Hrn) Ho0.
  destruct (oi_objects _ _ _ _ Hobj _ _ Hp) as (Haddr & _ & Hport).
  assert (c_urefs c = 0) as Hu by (unfold cap_wf in Hwf; rewrite Ht in Hwf; tauto).
  ksteps. rewrite Hu. ksteps. eapply (dncancel_spec _ G ea sp name c Held p e); try done; [by apply Hport|].
  intros r ot e' Hdn Hn' Hb' Ho' Hr'. kstep.
  assert (∀ M' B', mar_ok Sp (<[ea := Slot sp name Held]> G) M' B' →
    wp (upd_entry ea (set_ie_object IO_NULL);; mret r)
      (λ dn, wp (upd_entry ea (set_ie_bits (N.ldiff (cap_bits c) MACH_PORT_TYPE_RECEIVE));;
                 ipc_port_clear_receiver (c_obj c);;
                 upd_port (c_obj c) (set_ip_receiver_name MACH_PORT_NULL);;
                 upd_port (c_obj c) (set_ip_destination IP_NULL);;
                 upd_port (c_obj c) ipc_port_flag_protected_payload_clear;;
                 mret (KERN_SUCCESS, c_obj c, dn))
                (copyin_post K G n ea sp name MACH_MSG_TYPE_MOVE_RECEIVE deadok c))
      (Kernel Sp (<[ea := e']> E) (<[c_obj c := KPort (set_ip_dnrequests ot p)]> O) M' B' Th Km Ts Ca Cc)) as Htail.
  { intros M' B' Hmar'. do 3 kstep. rewrite insert_insert_eq.
    rewrite <- (insert_id Sp sp (set_is_reverse_map (is_reverse_map S) S)) at 2 by (by destruct S).
    eapply (move_receive_tail p (set_ip_dnrequests ot p) _ _ S (is_reverse_map S) M' B' Held); try done.
    - apply Hport.
    - cbn. by rewrite N.add_0_r.
    - by rewrite Ht.
    - eapply rev_ok_update; [done|intros _; simpl; by rewrite Ht|done].
    - split; [|done]. cbn. congruence.
    - intros _. split_and!; [|done|exact Hr']. cbn [set_ie_bits ie_bits]. unfold cap_bits. rewrite Ht, Hu. by destruct (c_ma c).
    - intros K' HK' HSp Hid Hl. apply (move_receive_post r K' Held); try done. unfold copyin_cap. by rewrite Ht. }
  destruct (c_ma c) eqn:Hma.
  - by eapply (ipc_marequest_cancel_spec _ G ea sp name (Used c) Held).
  - kstep. apply Htail. eapply mar_ok_update; [done|done|]. simpl. by rewrite Hma.
Qed.

End MoveReceive.

Definition is_copyin (msgt_name : N) : Prop :=
  msgt_name ∈ [MACH_MSG_TYPE_MAKE_SEND; MACH_MSG_TYPE_MAKE_SEND_ONCE; MACH_MSG_TYPE_MOVE_RECEIVE; MACH_MSG_TYPE_COPY_SEND;
               MACH_MSG_TYPE_MOVE_SEND; MACH_MSG_TYPE_MOVE_SEND_ONCE].

Lemma ipc_right_copyin_spec K G n ea sp name msgt_name deadok c :
  Inv K G n → G !! ea = Some (Slot sp name (Used c)) → is_copyin msgt_name → spare_ref K (c_obj c) → room_in K sp →
  wp (ipc_right_copyin sp name ea msgt_name deadok) (copyin_post K G n ea sp name msgt_name deadok c) K.
Proof.
  intros Hinv Hg Hty Hmax Hroom. pose proof (oi_caps _ _ _ _ (inv_objs _ _ _ Hinv) _ _ _ _ Hg) as [Hwf _].
  destruct (ei_slots _ _ _ (inv_ents _ _ _ Hinv) _ _ Hg) as [_ _ (S & HS & HSa) (e & He & Hrep)].
  destruct K as [Sp E O M B Th Km Ts Ca Cc]. cbn [sl_space] in *. unfold ipc_right_copyin.
  eapply wp_bind, wp_load_space; [done|]. kstep. apply wp_check; [done|].
  unfold is_copyin in Hty. rewrite !elem_of_cons, elem_of_nil in Hty. destruct Hty as [->|[->|[->|[->|[->|[->|[]]]]]]]; cbn [N.eqb].
  - by eapply copyin_make_send_spec.
  - by eapply copyin_make_send_once_spec.
  - destruct (is_recv (c_type c)) eqn:Hr.
    + destruct (c_type c) eqn:Ht; try done;
        [eapply copyin_move_receive_only|eapply copyin_move_receive_both]; try done; by rewrite Ht.
    + pose proof Hrep as (_ & Hb & _). cbn [sl_state] in *. ksimpl_all.
      change (wp (copyin_move_receive sp name ea) (copyin_post (Kernel Sp E O M B Th Km Ts Ca Cc) G n ea sp name
        MACH_MSG_TYPE_MOVE_RECEIVE deadok c) (Kernel Sp E O M B Th Km Ts Ca Cc)).
      unfold copyin_move_receive. ksteps. rewrite Hb, cap_has_receive, Hr by done. ksteps. apply copyin_post_same; [done|done|]. unfold copyin_cap. by rewrite Hr.
  - by eapply copyin_copy_send_spec.
  - by eapply copyin_move_send_spec.
  - by eapply copyin_move_send_once_spec.
Qed.
End Receive.
