(* ===== verification/IpcCopyout.v ===== *)
(** [ipc_right_copyout]: a right outside of entries settles in a space. *)

From S2P Require Import Prelude Kmem Rdxtree RdxtreeInv RdxtreeSpec RdxtreeMap IpcTypes IpcEntry IpcPort IpcMarequest IpcRight IpcBits IpcInv IpcUpdate IpcDn IpcMar IpcStep IpcRelease IpcCheck IpcVacate IpcDealloc IpcDelta IpcCopyin IpcClear IpcReceive.

Open Scope N_scope.

(** ** Rights taken over *)

(** The rights of a capability of type [t], taken from those outside of entries. *)
Definition sub_right (t : ctype) (r : naked_rights) : naked_rights :=
  Naked (nk_refs r - 1) (nk_send r - Nb (is_send t)) (nk_sonce r - Nb (is_sonce t)) (nk_recv r - Nb (is_recv t)) (nk_pd r) (nk_kern r).
Definition drop_ref (r : naked_rights) : naked_rights := Naked (nk_refs r - 1) (nk_send r) (nk_sonce r) (nk_recv r) (nk_pd r) (nk_kern r).

(** A right of type [t] for the object is outside of entries, and is not the
    send-once right of a port-destroyed request. *)
Definition has_right (n : naked) (pa : N) (t : ctype) : Prop :=
  Nb (is_send t) ≤ nk_send (n pa) ∧ nk_pd (n pa) + Nb (is_sonce t) ≤ nk_sonce (n pa) ∧
  nk_kern (n pa) + Nb (is_recv t) ≤ nk_recv (n pa).

Lemma add_sub_right t r : is_send t || is_sonce t || is_recv t = true → sub_right t (add_right t r) = r.
Proof. intros _. destruct r, t; unfold sub_right, add_right; simpl; f_equal; lia. Qed.

(** ** The specification *)

(** The right that a message carries. *)
Definition right_type (t : ctype) : N :=
  match t with
  | TSonce => MACH_MSG_TYPE_PORT_SEND_ONCE
  | TSend => MACH_MSG_TYPE_PORT_SEND
  | _ => MACH_MSG_TYPE_PORT_RECEIVE
  end.

(** Result, state of the entry afterwards, and whether the right was taken over. *)
Definition copyout_state (t : ctype) (overflow : bool) (o : N) (st : estate) : kern_return_t * estate * bool :=
  match st with
  | Used c =>
      if is_send t then
        if is_send (c_type c) then
          if c_urefs c + 1 =? MACH_PORT_UREFS_MAX then
            if overflow then (KERN_SUCCESS, Used c, true) else (KERN_UREFS_OVERFLOW, Used c, false)
          else (KERN_SUCCESS, Used (set_urefs (c_urefs c + 1) c), true)
        else (KERN_SUCCESS, Used (Cap TSendRecv o 1 (c_req c) (c_ma c)), true)
      else (KERN_SUCCESS, Used (Cap TSendRecv o (c_urefs c) (c_req c) (c_ma c)), true)
  | _ => (KERN_SUCCESS, Used (Cap t o (if is_recv t then 0 else 1) 0 false), true)
  end.

(** The entry can take the right: a fresh one, or the one that holds the other
    rights for the port. *)
Definition settles (G : gmap N eslot) (sp : N) (t : ctype) (o : N) (st : estate) : Prop :=
  match st with
  | Free => False
  | Held => t = TSonce ∨ (t = TSend ∨ t = TRecv) ∧ unnamed_in G sp o
  | Used c => c_obj c = o ∧ (t = TSend ∧ is_named (c_type c) = true ∨ t = TRecv ∧ c_type c = TSend)
  end.

(** An entry that awaits its first capability. *)
Definition awaits (e : ipc_entry) (name o : N) : Prop :=
  ie_name e = name ∧ ie_bits e = 0 ∧ ie_object e = o ∧ ie_request e = 0.

(** The rights outside of entries afterwards; a receive right in transit to
    another port gives up its reference to it. *)
Definition settled (O : gmap N kobject) (n : naked) (o : N) (t : ctype) : naked :=
  let n1 := upd_naked n o (sub_right t (n o)) in
  match O !! o with
  | Some (KPort p) =>
      if is_recv t && negb (ip_destination p =? IP_NULL)
      then upd_naked n1 (ip_destination p) (drop_ref (n1 (ip_destination p))) else n1
  | _ => n1
  end.

Section Copyout.
Context `{!Config} {T C : Type} `{!KeyMap T} `{!KmemCache C}.
Implicit Types (K : kernel T C) (O : gmap N kobject) (G : gmap N eslot) (n : naked).

(** ** Release of a reference *)

Section ReleaseNaked.
Context (Sp : gmap N (ipc_space T)) (E : gmap N ipc_entry) (O : gmap N kobject) (M : gmap N ipc_marequest).
Context (B : gmap N (list N)) (Th : gmap N ipc_thread) (Km : gmap N ipc_kmsg) (Ts : N) (Ca : list call) (Cc : gmap N C).
Context (G : gmap N eslot) (n : naked) (pa : N) (p : ipc_port).
#[local] Abbreviation K := (Kernel Sp E O M B Th Km Ts Ca Cc).
Context (Hinv : Inv K G n) (Hp : O !! pa = Some (KPort p)).
Context (Hspare : nk_send (n pa) + nk_sonce (n pa) + nk_recv (n pa) + n_dest O pa < nk_refs (n pa)).

(** The last reference is not that of a live port. *)
Lemma last_ref_dead Sp' : port_ok (T := T) Sp' O G n pa p → ip_references p = 1 →
  ip_active p = false ∧ n_caps G pa = 0 ∧ n_dest O pa = 0 ∧ n_pd O pa = 0.
Proof.
  intros [_ Hr _ _ Hpd _ _ _ Hre _ _ _ _ _] H1.
  assert (n_recv G pa ≤ n_caps G pa) as Hle.
  { apply count_mono. intros i s _. unfold holds. destruct (sl_state s); try done. by intros [-> _]%andb_true_iff. }
  destruct (ip_active p); cbn [Nb] in Hre; split_and!; try done; lia.
Qed.

Lemma ipc_port_release_spec Q :
  (∀ K', Inv K' G (upd_naked n pa (drop_ref (n pa))) → k_spaces K' = Sp → k_entries K' = E → Q tt K') →
  wp (ipc_port_release pa) Q K.
Proof.
  intros HQ. pose proof Hinv as [Hcc Hent Hobj Hmar Hq]. ksimpl_all.
  destruct (oi_objects _ _ _ _ Hobj _ _ Hp) as (Haddr & _ & Hport).
  unfold ipc_port_release. eapply ipc_object_release_spec; ksimpl; [done|apply Hport|apply Hport|done| |].
  - intros H1. apply HQ; try done. pose proof (po_pos _ _ _ _ _ _ Hport).
    eapply inv_naked_step; try done. unfold drop_ref.
    eapply (port_ok_naked Sp O G n pa p); cbn [nk_refs nk_send nk_sonce nk_recv nk_pd nk_kern]; try done; psimpl; try lia;
      first [apply Haddr|apply Hport].
  - intros H1 Cc' Hcc'. apply HQ; try done. destruct (last_ref_dead _ Hport H1) as (Hdead & Hcaps & Hd & Hpd).
    split; ksimpl; [done|done| |done|].
    + eapply obj_frame_delete; try done; [|apply Hobj|apply Hobj].
      pose proof (po_refs _ _ _ _ _ _ Hport). unfold nk_rights, drop_ref. cbn [nk_send nk_sonce nk_recv]. lia.
    + eapply queues_delete; [done|done|done|]. destruct (decide (ip_pset p = IPS_NULL)) as [|Hps]; [done|].
      destruct (po_pset _ _ _ _ _ _ Hport Hps). congruence.
Qed.
End ReleaseNaked.

(** The receive right of a message is in limbo. *)
Lemma limbo_name (Sp : gmap N (ipc_space T)) O G n o p :
  port_ok Sp O G n o p → has_right n o TRecv → ip_receiver_name p = MACH_PORT_NULL.
Proof.
  intros Hport (_ & _ & Hr). cbn in Hr. pose proof (po_recv _ _ _ _ _ _ Hport). destruct (po_naked_recv _ _ _ _ _ _ Hport) as [_ Hl].
  destruct (ip_active p); cbn [Nb] in *; apply Hl; lia.
Qed.

Definition copyout_post K G n (ea sp name : N) (t : ctype) (overflow : bool) (o : N) (st : estate) (kr : N) K' : Prop :=
  let '(kr', st', taken) := copyout_state t overflow o st in
  kr = kr' ∧ same_spaces (k_spaces K) (k_spaces K') ∧
  Inv K' (<[ea := Slot sp name st']> G) (if taken then settled (k_objects K) n o t else n).

Section Cases.
Context (Sp : gmap N (ipc_space T)) (E : gmap N ipc_entry) (O : gmap N kobject) (M : gmap N ipc_marequest).
Context (B : gmap N (list N)) (Th : gmap N ipc_thread) (Km : gmap N ipc_kmsg) (Ts : N) (Ca : list call) (Cc : gmap N C).
Context (G : gmap N eslot) (n : naked) (ea sp name : N) (o : N) (p : ipc_port) (e : ipc_entry).
#[local] Abbreviation K := (Kernel Sp E O M B Th Km Ts Ca Cc).
Context (Hinv : Inv K G n) (Hp : O !! o = Some (KPort p)) (Hact : ip_active p = true) (He : E !! ea = Some e).

Lemma port_of : obj_addr o ∧ port_ok Sp O G n o p.
Proof. by destruct (oi_objects _ _ _ _ (inv_objs _ _ _ Hinv) _ _ Hp) as (? & _ & ?). Qed.

(** The rights in an entry and the port change while the receive right stays. *)
Lemma inv_settle t st c' p' e' :
  is_recv t = false → has_right n o t → G !! ea = Some (Slot sp name st) → st ≠ Free → only o st →
  same_place p p' → 0 < ip_references p' < 2 ^ 32 → is_send t || is_sonce t = true →
  ip_references p' + on (λ _, true) o st = ip_references p →
  ip_srights p' + on is_send o st + Nb (is_send t) = ip_srights p + Nb (is_send (c_type c')) →
  on is_sonce o st + Nb (is_sonce t) = Nb (is_sonce (c_type c')) → ip_sorights p' = ip_sorights p →
  on is_recv o st = Nb (is_recv (c_type c')) → ip_dnrequests p' = ip_dnrequests p →
  c_obj c' = o → cap_wf c' → entry_rep e' (Slot sp name (Used c')) →
  (is_recv (c_type c') = true → received_at p sp name) → c_type c' ≠ TDead → c_type c' ≠ TPset →
  named st = named (Used c') ∨ is_named (c_type c') = false ∨ unnamed_in G sp o →
  ma_of st = c_ma c' → req_on o st = c_req c' ∨ c_req c' = 0 →
  ∀ S rt, Sp !! sp = Some S → rev_ok (<[ea := Slot sp name (Used c')]> G) sp rt →
  Inv (Kernel (<[sp := set_is_reverse_map rt S]> Sp) (<[ea := e']> E) (<[o := KPort p']> O) M B Th Km Ts Ca Cc)
    (<[ea := Slot sp name (Used c')]> G) (upd_naked n o (sub_right t (n o))).
Proof.
  intros Hnr (Hhs & Hhso & Hhr) Hg Hfree Honly Hsame Hpos Hone Hrefs Hsr Hso Hsor Hre Hdn Hc' Hwf' Hrep' Hat Hnd Hnps Hnm Hma Hreq S rt HS Hrev.
  destruct port_of as [Haddr Hport]. pose proof (po_naked _ _ _ _ _ _ Hport). pose proof (po_pd _ _ _ _ _ _ Hport).
  pose proof (po_sonce _ _ _ _ _ _ Hport).
  assert (∀ P, on P o (Used c') = Nb (P (c_type c'))) as Hon by (intros P; rewrite <- Hc'; apply on_used).
  assert (Nb (is_send t) + Nb (is_sonce t) = 1) by (by destruct t).
  eapply (inv_step Sp E O M B Th Km Ts Ca Cc G n Hinv o p); try done.
  - by left.
  - intros c1 [= <-]. split; [done|]. rewrite Hc', lookup_insert_eq.
    destruct (c_type c'); try done; exists p'; split; try done; intros ?; by eapply same_place_received; eauto.
  - intros o' Ho'. destruct Hnm as [Hnm|[Hnm|Hnm]]; [left; congruence|simpl in Ho'; by rewrite Hnm in Ho'|].
    right. simpl in Ho'. rewrite Hc' in Ho'. destruct (is_named (c_type c')); [|done]. by injection Ho' as <-.
  - eapply mar_ok_update; [apply (inv_mars _ _ _ Hinv)|done|done].
  - apply (inv_caches _ _ _ Hinv).
  - unfold sub_right. rewrite Hnr. eapply (port_ok_step Sp O G n ea sp name st); try done; try apply Haddr;
      rewrite ?Hon; cbn [Nb nk_refs nk_send nk_sonce nk_recv nk_pd nk_kern]; try lia.
    intros Ha. rewrite Hdn. eapply dn_ok_keep; [done|by apply Hport|]. simpl. rewrite Hc', N.eqb_refl.
    destruct Hreq as [->| ->]; [by right|by left].
Qed.

Lemma same_rev st c' :
  G !! ea = Some (Slot sp name st) → pure_send (Used c') = pure_send st →
  ∃ S, Sp !! sp = Some S ∧ <[sp := set_is_reverse_map (is_reverse_map S) S]> Sp = Sp ∧
    rev_ok (<[ea := Slot sp name (Used c')]> G) sp (is_reverse_map S).
Proof.
  intros Hg Hps. pose proof (inv_ents _ _ _ Hinv) as Hent. ksimpl_all.
  destruct (ei_slots _ _ _ Hent _ _ Hg) as [_ _ (S & HS & HSa) _]. cbn [sl_space] in *. exists S.
  split_and!; [done|apply insert_id; by destruct S|]. eapply rev_ok_update; [done|done|]. apply (ei_spaces _ _ _ Hent _ _ HS HSa).
Qed.

Lemma settled_other t : is_recv t = false → settled O n o t = upd_naked n o (sub_right t (n o)).
Proof. intros Ht. unfold settled. by rewrite Hp, Ht. Qed.

(** What is left to show for a right other than a receive right. *)
Lemma copyout_post_intro t overflow st st' kr K' :
  is_recv t = false → copyout_state t overflow o st = (kr, st', true) → same_spaces Sp (k_spaces K') →
  Inv K' (<[ea := Slot sp name st']> G) (upd_naked n o (sub_right t (n o))) →
  copyout_post K G n ea sp name t overflow o st kr K'.
Proof. intros Ht Hs HSp HK'. unfold copyout_post. ksimpl. rewrite Hs, settled_other by done. by split_and!. Qed.

Lemma copyout_send_once_spec overflow :
  G !! ea = Some (Slot sp name Held) → awaits e name o → has_right n o TSonce →
  wp (copyout_send_once ea (ie_bits e) o) (copyout_post K G n ea sp name TSonce overflow o Held) K.
Proof.
  intros Hg (Hn & Hb & Ho & Hr) Hhas. destruct port_of as [Haddr Hport]. pose proof (po_sonce _ _ _ _ _ _ Hport).
  assert (0 < ip_sorights p) by (destruct Hhas as (_ & Hhso & _); cbn in Hhso; lia).
  unfold copyout_send_once. rewrite Hb. ksteps. rewrite (proj2 (N.eqb_neq (ip_sorights p) 0)) by lia. ksteps.
  eapply copyout_post_intro; [done|done|done|].
  destruct (same_rev Held (Cap TSonce o 1 0 false)) as (S & HS & <- & Hrev); [done|done|]. rewrite <- (insert_id O o (KPort p)) by done.
  eapply inv_settle; try done; [apply Hport|cbn; lia|cbn; lia| |by right; left|by right].
  split_and!; [apply Haddr|done|done].
Qed.

Lemma copyout_send_fresh overflow :
  G !! ea = Some (Slot sp name Held) → awaits e name o → has_right n o TSend → unnamed_in G sp o → room_in K sp →
  wp (copyout_send sp name ea (ie_bits e) overflow o) (copyout_post K G n ea sp name TSend overflow o Held) K.
Proof.
  intros Hg (Hn & Hb & Ho & Hr) Hhas Hun Hroom. destruct port_of as [Haddr Hport]. pose proof (inv_ents _ _ _ Hinv) as Hent. ksimpl_all.
  assert (0 < ip_srights p).
  { rewrite (po_send _ _ _ _ _ _ Hport Hact). destruct Hhas as (Hs & _). cbn in Hs. lia. }
  destruct (ei_slots _ _ _ Hent _ _ Hg) as [[Hea0 Heal] _ (S & HS & HSa) _]. cbn [sl_space] in *.
  destruct (ei_spaces _ _ _ Hent _ _ HS HSa) as [Hsp0 _ Hrev _].
  unfold copyout_send. rewrite Hb. ksteps. rewrite (proj2 (N.eqb_neq (ip_srights p) 0)) by lia. ksteps.
  change (has 0 MACH_PORT_TYPE_SEND) with false. change (has 0 MACH_PORT_TYPE_RECEIVE) with false. cbv iota. ksteps.
  eapply (ipc_reverse_insert_spec _ G ea sp name Held (Used (Cap TSend o 1 0 false)) o S); try done; [by apply (Hroom S)| |].
  { intros eb s Hs Hsp Hps. apply (Hun _ _ Hs Hsp). destruct (sl_state s) as [| |c1]; try done. simpl in *.
    by destruct (c_type c1). }
  intros v rt Hrev'. ksteps. rewrite insert_insert_eq. eapply copyout_post_intro; [done|done|by eapply same_spaces_insert|].
  rewrite <- (insert_id O o (KPort p)) by done.
  eapply inv_settle; try done; [apply Hport|cbn; lia|cbn; lia| |by right; right|by right].
  split; [apply Haddr|]. unfold MACH_PORT_UREFS_MAX. cbn. lia.
Qed.

(** The entry has send rights already. *)
Lemma copyout_send_more overflow c :
  G !! ea = Some (Slot sp name (Used c)) → c_obj c = o → is_send (c_type c) = true → has_right n o TSend →
  wp (copyout_send sp name ea (ie_bits e) overflow o) (copyout_post K G n ea sp name TSend overflow o (Used c)) K.
Proof.
  intros Hg Hc Hs Hhas. destruct port_of as [Haddr Hport]. pose proof (po_pos _ _ _ _ _ _ Hport) as Hpos.
  destruct (ei_slots _ _ _ (inv_ents _ _ _ Hinv) _ _ Hg) as [_ _ _ (e' & He' & Hrep)]. ksimpl_all. rewrite He in He'. injection He' as <-.
  pose proof Hrep as (_ & Hb & _). cbn [sl_state] in *. pose proof (oi_caps _ _ _ _ (inv_objs _ _ _ Hinv) _ _ _ _ Hg) as Hcap.
  pose proof Hcap as [Hwf _]. pose proof (srights_le _ _ _ _ _ _ Hport Hact).
  assert (1 < ip_srights p) as Hsr.
  { rewrite (po_send _ _ _ _ _ _ Hport Hact). destruct Hhas as (Hs' & _). cbn in Hs'. enough (0 < n_send G o) by lia.
    apply (count_pos _ _ ea _ Hg). unfold holds. simpl. by rewrite Hc, N.eqb_refl, Hs. }
  assert (0 < c_urefs c < MACH_PORT_UREFS_MAX) as Hu by (unfold cap_wf in Hwf; destruct (c_type c); try done; tauto).
  assert (∀ P, on P o (Used c) = Nb (P (c_type c))) as Hon by (intros P; rewrite <- Hc; apply on_used).
  assert (c_type c ≠ TDead ∧ c_type c ≠ TPset ∧ is_sonce (c_type c) = false) as (Hnd & Hnps & Hnso) by (by destruct (c_type c)).
  destruct (cap_ok_port_of _ _ _ _ Hcap Hnd Hnps) as (q & Hq & Hrecv). rewrite Hc in Hq. ksimpl_all. rewrite Hp in Hq. injection Hq as <-.
  assert (∀ c' e', c_type c' = c_type c → c_obj c' = c_obj c → c_req c' = c_req c → c_ma c' = c_ma c → cap_wf c' →
    entry_rep e' (Slot sp name (Used c')) →
    Inv (Kernel Sp (<[ea := e']> E) (<[o := KPort (ip_release (set_ip_srights (decr (ip_srights p)) p))]> O) M B Th Km Ts Ca Cc)
      (<[ea := Slot sp name (Used c')]> G) (upd_naked n o (sub_right TSend (n o)))) as Hfin.
  { intros c' e' Ht' Hc' Hr' Hm' Hwf' Hrep'. destruct (same_rev (Used c) c') as (S & HS & <- & Hrev); [done|by simpl; rewrite Ht', Hc'|].
    eapply inv_settle; try done; rewrite ?Hon, ?Ht', ?Hnso, ?Hc'; try done.
    - by left.
    - psimpl. lia.
    - psimpl. cbn. lia.
    - psimpl. rewrite Hs. cbn. lia.
    - left. simpl. by rewrite Ht', Hc'.
    - left. simpl. by rewrite Hc, N.eqb_refl, Hr'. }
  unfold copyout_send. rewrite Hb, cap_has_send, Hs, cap_urefs by done. ksteps.
  rewrite (proj2 (N.eqb_neq (ip_srights p) 0)) by lia. ksteps. rewrite (proj2 (N.ltb_lt 1 (ip_srights p))) by done.
  rewrite (proj2 (N.eqb_neq (c_urefs c) 0)), (proj2 (N.ltb_lt (c_urefs c) _)) by lia. ksteps.
  destruct (N.eqb_spec (c_urefs c + 1) MACH_PORT_UREFS_MAX) as [Hmx|Hmx].
  - destruct overflow; ksteps.
    + rewrite insert_insert_eq. eapply (copyout_post_intro TSend _ (Used c) (Used c)); [done| |done|].
      * unfold copyout_state. by rewrite Hs, Hmx, N.eqb_refl.
      * rewrite <- (insert_id E ea e) by done. by apply Hfin.
    + unfold copyout_post, copyout_state. rewrite Hs, Hmx. cbn. by rewrite insert_id.
  - ksteps. rewrite insert_insert_eq. eapply (copyout_post_intro TSend _ (Used c) (Used (set_urefs (c_urefs c + 1) c))); [done| |done|].
    + unfold copyout_state. by rewrite Hs, (proj2 (N.eqb_neq _ _) Hmx).
    + assert (incr (N.lor (cap_bits c) MACH_PORT_TYPE_SEND) = cap_bits (set_urefs (c_urefs c + 1) c)) as ->.
      { unfold cap_bits. change MACH_PORT_TYPE_SEND with (2 ^ 16 * 1). pose proof (cap_urefs_lt _ Hwf).
        unfold MACH_PORT_UREFS_MAX in *. rewrite lor_high, incr_bits by (done || lia || by destruct (c_type c), (c_ma c)).
        cbn [set_urefs c_type c_urefs c_ma]. by destruct (c_type c), (c_ma c). }
      apply Hfin; try done; [|by apply entry_rep_urefs].
      unfold cap_wf, MACH_PORT_UREFS_MAX in *. cbn [set_urefs c_type c_obj c_urefs]. destruct (c_type c); try done; split; try tauto; lia.
Qed.

(** The entry has the receive right. *)
Lemma copyout_send_receiver overflow c :
  G !! ea = Some (Slot sp name (Used c)) → c_obj c = o → c_type c = TRecv → has_right n o TSend →
  wp (copyout_send sp name ea (ie_bits e) overflow o) (copyout_post K G n ea sp name TSend overflow o (Used c)) K.
Proof.
  intros Hg Hc Ht Hhas. destruct port_of as [Haddr Hport]. pose proof (po_pos _ _ _ _ _ _ Hport) as Hpos.
  destruct (ei_slots _ _ _ (inv_ents _ _ _ Hinv) _ _ Hg) as [_ _ _ (e' & He' & Hrep)]. ksimpl_all. rewrite He in He'. injection He' as <-.
  pose proof Hrep as (Hn & Hb & Ho & Hr). cbn [sl_state sl_name] in *. pose proof (oi_caps _ _ _ _ (inv_objs _ _ _ Hinv) _ _ _ _ Hg) as Hcap.
  pose proof Hcap as [Hwf _]. assert (c_urefs c = 0) as Hu by (unfold cap_wf in Hwf; rewrite Ht in Hwf; tauto).
  assert (0 < ip_srights p).
  { rewrite (po_send _ _ _ _ _ _ Hport Hact). destruct Hhas as (Hs & _). cbn in Hs. lia. }
  assert (∀ P, on P o (Used c) = Nb (P TRecv)) as Hon by (intros P; rewrite <- Ht, <- Hc; apply on_used).
  destruct (cap_ok_port_of _ _ _ _ Hcap) as (q & Hq & Hrecv); [congruence..|]. rewrite Hc in Hq. ksimpl_all. rewrite Hp in Hq. injection Hq as <-.
  unfold copyout_send. rewrite Hb. captests. rewrite Hu. ksteps. rewrite (proj2 (N.eqb_neq (ip_srights p) 0)) by lia. ksteps.
  eapply (copyout_post_intro TSend _ (Used c)); [done|by unfold copyout_state; rewrite Ht|done|].
  destruct (same_rev (Used c) (Cap TSendRecv o 1 (c_req c) (c_ma c))) as (S & HS & <- & Hrev); [done|by simpl; rewrite Ht|].
  eapply inv_settle; try done; rewrite ?Hon; try done.
  - by left.
  - psimpl. assert (ip_references p ≠ 1); [|lia]. intros H1. destruct Hhas as (Hs & _). cbn in Hs.
    pose proof (po_naked _ _ _ _ _ _ Hport). rewrite (po_refs _ _ _ _ _ _ Hport) in H1.
    assert (0 < n_caps G o); [|lia]. apply (count_pos _ _ ea _ Hg). unfold holds. simpl. by rewrite Hc, N.eqb_refl.
  - psimpl. cbn. lia.
  - psimpl. cbn. lia.
  - split; [apply Haddr|]. unfold MACH_PORT_UREFS_MAX. cbn. lia.
  - split; [done|]. cbn. split_and!; [|congruence|done]. unfold cap_bits. rewrite Ht, Hu. by destruct (c_ma c).
  - intros _. apply Hrecv. by rewrite Ht.
  - left. simpl. by rewrite Ht, Hc.
  - left. simpl. by rewrite Hc, N.eqb_refl.
Qed.

(** A receive right in limbo settles under [name]. *)
Definition received_port (p : ipc_port) : ipc_port :=
  ipc_port_flag_protected_payload_clear (set_ip_receiver sp (set_ip_receiver_name name p)).

Lemma received_links p' :
  ip_active p' = ip_active p → ip_receiver_name p' = name → name ≠ 0 → ip_pdrequest p' = ip_pdrequest p →
  ip_pset p' = ip_pset p → links_le p p'.
Proof.
  intros Ha Hn Hn0 Hpd Hps. split; intros x _; simpl.
  - rewrite Hn. change MACH_PORT_NULL with 0. by rewrite (proj2 (N.eqb_neq name 0)), andb_false_r.
  - by rewrite Hpd.
  - by rewrite Hps.
Qed.

Lemma inv_place st c' p' e' :
  has_right n o TRecv → G !! ea = Some (Slot sp name st) → st ≠ Free → only o st →
  p' = received_port p ∧ st = Held ∨ p' = ip_release (received_port p) ∧ (∃ c, st = Used c ∧ c_obj c = o ∧ c_type c = TSend) →
  c_obj c' = o → c_type c' = (match st with Used _ => TSendRecv | _ => TRecv end) → cap_wf c' →
  entry_rep e' (Slot sp name (Used c')) →
  named st = named (Used c') ∨ unnamed_in G sp o →
  ma_of st = c_ma c' → req_on o st = c_req c' ∨ c_req c' = 0 →
  ∀ S rt, Sp !! sp = Some S → rev_ok (<[ea := Slot sp name (Used c')]> G) sp rt →
  Inv (Kernel (<[sp := set_is_reverse_map rt S]> Sp) (<[ea := e']> E) (<[o := KPort p']> O) M B Th Km Ts Ca Cc)
    (<[ea := Slot sp name (Used c')]> G) (upd_naked n o (sub_right TRecv (n o))).
Proof.
  intros (_ & _ & Hhr) Hg Hfree Honly Hst Hc' Ht' Hwf' Hrep' Hnm Hma Hreq S rt HS Hrev.
  destruct port_of as [Haddr Hport]. pose proof (po_naked _ _ _ _ _ _ Hport) as Hnk. pose proof (po_pd _ _ _ _ _ _ Hport) as Hnpd.
  pose proof (po_recv _ _ _ _ _ _ Hport) as Hre. pose proof (po_pos _ _ _ _ _ _ Hport) as Hpos. rewrite Hact in Hre. cbn [Nb is_recv] in *.
  pose proof Hinv as [Hcc Hent Hobj Hmar Hq]. ksimpl_all.
  destruct (ei_slots _ _ _ Hent _ _ Hg) as [_ [Hn0 _] _ _]. cbn [sl_name] in *.
  assert (ip_active p' = ip_active p ∧ io_otype (ip_object p') = io_otype (ip_object p) ∧ ip_receiver_name p' = name ∧
    ip_receiver p' = sp ∧ ip_pdrequest p' = ip_pdrequest p ∧ ip_pset p' = ip_pset p ∧ ip_messages p' = ip_messages p ∧
    ip_blocked p' = ip_blocked p ∧ ip_srights p' = ip_srights p ∧ ip_sorights p' = ip_sorights p ∧
    ip_dnrequests p' = ip_dnrequests p ∧ ip_references p' + on (λ _, true) o st = ip_references p)
    as (Ha' & Hot & Hrn & Hrs & Hpd & Hps & Hms & Hbl & Hsr & Hsor & Hdn & Hrefs).
  { assert (0 < ip_references p < 2 ^ 32) as Hr by done.
    destruct Hst as [[-> ->]|[-> (c & -> & Hc & _)]]; unfold received_port.
    - rewrite payload_clear_active, payload_clear_otype. split_and!; try done. cbn. apply N.add_0_r.
    - change (ip_active (ip_release ?q)) with (ip_active q). rewrite payload_clear_active.
      change (io_otype (ip_object (ip_release ?q))) with (io_otype (ip_object q)). rewrite payload_clear_otype. split_and!; try done.
      rewrite <- Hc, on_used. cbn [Nb]. change (ip_references (ip_release ?q)) with (decr (ip_references p)). rewrite decr_pred; lia. }
  assert (on is_send o st = Nb (is_send (c_type c')) ∧ on is_sonce o st = 0 ∧ on is_recv o st = 0 ∧ is_sonce (c_type c') = false ∧
    is_recv (c_type c') = true ∧ 0 < ip_references p' < 2 ^ 32) as (Hons & Honso & Honr & Hnso & Hrc & Hpos').
  { destruct Hst as [[_ ->]|[_ (c & -> & Hc & Ht)]]; rewrite Ht'.
    - split_and!; try done; cbn in Hrefs; lia.
    - rewrite <- Hc in *. rewrite !on_used, Ht in *. split_and!; try done; cbn in Hrefs; try lia.
      rewrite (po_refs _ _ _ _ _ _ Hport) in Hrefs. assert (0 < n_caps G (c_obj c)); [|lia].
      apply (count_pos _ _ ea _ Hg). unfold holds. simpl. by rewrite N.eqb_refl. }
  assert (∀ P, on P o (Used c') = Nb (P (c_type c'))) as Hon by (intros P; rewrite <- Hc'; apply on_used).
  assert (same_spaces Sp (<[sp := set_is_reverse_map rt S]> Sp)) as HSp by by eapply same_spaces_insert.
  split; ksimpl; [done|by eapply ent_update| |by eapply mar_ok_spaces; [apply HSp|]; eapply mar_ok_update|by eapply queues_same].
  apply (obj_inv_spaces Sp); [done|].
  eapply (obj_update Sp O G n o p _ Hobj Hp ea sp name st); [done|done|by left| |by apply received_links| | |].
  - intros x Hx. destruct Hnm as [->|Hun]; [by left|]. right. simpl in Hx. rewrite Hc' in Hx.
    destruct (is_named (c_type c')); [|done]. by injection Hx as <-.
  - intros c1 [= <-]. split; [done|]. rewrite Hc', lookup_insert_eq. destruct (c_type c'); try done; exists p'; split; try done;
      intros _; split_and!; congruence.
  - intros eb s c Hne Hb Hs Hc Hr. exfalso. assert (0 < n_recv G o); [|lia]. apply (count_pos _ _ eb _ Hb). unfold holds.
    by rewrite Hs, Hc, N.eqb_refl, Hr.
  - unfold sub_right. eapply port_ok_move; try done; try apply Haddr; rewrite ?Hon, ?Hnso, ?Hrc;
      cbn [is_send is_sonce is_recv Nb nk_refs nk_send nk_sonce nk_recv nk_pd nk_kern]; try lia.
    + split; try done; [by apply received_links|split; cbn; [lia|intros ?; exfalso; lia]|].
      intros _ Hl. change MACH_PORT_NULL with 0 in Hl. congruence.
    + intros _. rewrite Hdn. eapply dn_ok_keep; [done|by apply Hport|]. simpl. rewrite Hc', N.eqb_refl.
      destruct Hreq as [->| ->]; [by right|by left].
Qed.

(** The end of the case: the reference to the destination goes. *)
Lemma copyout_receive_tail overflow st st' p' Sp1 E1 G1 :
  has_right n o TRecv → ip_receiver_name p = MACH_PORT_NULL → ip_receiver_name p' ≠ 0 →
  copyout_state TRecv overflow o st = (KERN_SUCCESS, st', true) → same_spaces Sp Sp1 →
  G1 = <[ea := Slot sp name st']> G →
  Inv (Kernel Sp1 E1 (<[o := KPort p']> O) M B Th Km Ts Ca Cc) G1 (upd_naked n o (sub_right TRecv (n o))) →
  wp (if negb (ip_destination p =? IP_NULL) then ipc_port_release (ip_destination p) else mret tt)
    (λ _, wp (mret KERN_SUCCESS) (copyout_post K G n ea sp name TRecv overflow o st)) (Kernel Sp1 E1 (<[o := KPort p']> O) M B Th Km Ts Ca Cc).
Proof.
  intros (_ & _ & Hhr) Hlimbo Hn' Hst HSp -> HK1. cbn [is_recv Nb] in Hhr. destruct port_of as [Haddr Hport].
  destruct (N.eqb_spec (ip_destination p) IP_NULL) as [Hd|Hd]; cbn [negb].
  { ksteps. unfold copyout_post, settled. ksimpl. rewrite Hst, Hp, Hd. by split_and!. }
  destruct (po_limbo _ _ _ _ _ _ Hport Hact Hlimbo) as (_ & _ & _ & [q Hq]%(λ f, f Hd) & _).
  destruct (oi_objects _ _ _ _ (inv_objs _ _ _ Hinv) _ _ Hq) as ((Hd0 & _) & _ & Hqport). ksimpl_all.
  pose proof (count_update (dest_is (ip_destination p)) O o _ (KPort p') Hp) as Hcnt.
  replace (dest_is (ip_destination p) (KPort p)) with true in Hcnt by (simpl; by rewrite Hact, Hlimbo, !N.eqb_refl).
  replace (dest_is (ip_destination p) (KPort p')) with false in Hcnt.
  2: { simpl. change MACH_PORT_NULL with 0. by rewrite (proj2 (N.eqb_neq _ 0) Hn'), andb_false_r. }
  cbn [Nb] in Hcnt. pose proof (po_naked _ _ _ _ _ _ Hqport) as Hnk. unfold n_dest in Hnk.
  assert (∃ q', <[o := KPort p']> O !! ip_destination p = Some (KPort q')) as [q' Hq'].
  { destruct (decide (ip_destination p = o)) as [->|Hne]; eexists; [by rewrite lookup_insert_eq|by rewrite lookup_insert_ne]. }
  eapply ipc_port_release_spec; [exact HK1|exact Hq'| |].
  - unfold n_dest. destruct (decide (ip_destination p = o)) as [Heq|Hne].
    + rewrite Heq in *. rewrite upd_naked_eq. unfold sub_right. cbn. lia.
    + rewrite upd_naked_ne by done. lia.
  - intros K' HK' HSp' _. kstep. unfold copyout_post, settled. ksimpl. rewrite Hst, Hp. rewrite (proj2 (N.eqb_neq _ _) Hd).
    cbn [is_recv andb negb]. split_and!; [done| |done]. destruct K' as [Sp' ? ? ? ? ? ? ? ? ?]. ksimpl_all. by rewrite HSp'.
Qed.

Lemma copyout_receive_fresh overflow :
  G !! ea = Some (Slot sp name Held) → awaits e name o → has_right n o TRecv → unnamed_in G sp o →
  ip_receiver_name p = MACH_PORT_NULL →
  wp (copyout_receive sp name ea (ie_bits e) o) (copyout_post K G n ea sp name TRecv overflow o Held) K.
Proof.
  intros Hg (Hn & Hb & Ho & Hr) Hhas Hun Hlimbo. destruct port_of as [Haddr Hport].
  destruct (po_limbo _ _ _ _ _ _ Hport Hact Hlimbo) as (Hms & _ & _ & _).
  destruct (ei_slots _ _ _ (inv_ents _ _ _ Hinv) _ _ Hg) as [_ [Hn0 _] _ _]. cbn [sl_name] in Hn0. ksimpl_all.
  unfold copyout_receive. rewrite Hb. ksteps. rewrite Hms, Hlimbo. ksteps.
  change (has 0 MACH_PORT_TYPE_SEND) with false. cbv iota. ksteps. rewrite !insert_insert_eq.
  eapply (copyout_receive_tail _ Held); try done.
  destruct (same_rev Held (Cap TRecv o 0 0 false)) as (S & HS & <- & Hrev); [done|done|].
  eapply (inv_place Held); try done; [by left| |by right|by right].
  by split; [apply Haddr|].
Qed.

Lemma copyout_receive_send overflow c :
  G !! ea = Some (Slot sp name (Used c)) → c_obj c = o → c_type c = TSend → has_right n o TRecv →
  ip_receiver_name p = MACH_PORT_NULL →
  wp (copyout_receive sp name ea (ie_bits e) o) (copyout_post K G n ea sp name TRecv overflow o (Used c)) K.
Proof.
  intros Hg Hc Ht Hhas Hlimbo. destruct port_of as [Haddr Hport].
  destruct (po_limbo _ _ _ _ _ _ Hport Hact Hlimbo) as (Hms & _ & _ & _).
  pose proof (inv_ents _ _ _ Hinv) as Hent. ksimpl_all.
  destruct (ei_slots _ _ _ Hent _ _ Hg) as [_ [Hn0 _] (S & HS & HSa) (e' & He' & Hrep)]. cbn [sl_name sl_space] in *. rewrite He in He'. injection He' as <-.
  destruct (ei_spaces _ _ _ Hent _ _ HS HSa) as [Hsp0 _ Hrev _].
  pose proof Hrep as (Hn & Hb & Ho & Hr). cbn [sl_state sl_name] in *. pose proof (oi_caps _ _ _ _ (inv_objs _ _ _ Hinv) _ _ _ _ Hg) as [Hwf _].
  assert (0 < ip_srights p) by (eapply send_counted; [done|done|exact Hg|done|by rewrite Ht]).
  assert (0 < c_urefs c) by (unfold cap_wf in Hwf; rewrite Ht in Hwf; lia).
  unfold copyout_receive. rewrite Hb. captests. ksteps. rewrite Hms, Hlimbo. ksteps.
  rewrite (proj2 (N.eqb_neq (c_urefs c) 0)), (proj2 (N.eqb_neq (ip_srights p) 0)) by lia. ksteps.
  eapply (ipc_reverse_remove_spec _ G ea sp name (Used c) (Used (Cap TSendRecv o (c_urefs c) (c_req c) (c_ma c))) o S); try done.
  { simpl. by rewrite Ht, Hc. }
  intros v rt Hrev'. ksteps. rewrite !insert_insert_eq.
  eapply (copyout_receive_tail _ (Used c)); try done; [by eapply same_spaces_insert|].
  eapply (inv_place (Used c)); try done; [by left|by right; split; [|by exists c]| | | |].
  - unfold cap_wf in *. rewrite Ht, Hc in Hwf. exact Hwf.
  - split; [done|]. cbn. split_and!; [|congruence|done]. unfold cap_bits. rewrite Ht.
    change MACH_PORT_TYPE_RECEIVE with (2 ^ 16 * 2). rewrite lor_high by by apply cap_urefs_lt. by destruct (c_ma c).
  - left. simpl. by rewrite Ht, Hc.
  - left. simpl. by rewrite Hc, N.eqb_refl.
Qed.
End Cases.

Lemma obj_valid o : obj_addr o → IO_VALID o = true.
Proof.
  intros (Ho0 & Hal & _). unfold IO_VALID. rewrite (proj2 (N.eqb_neq o IO_NULL)) by done.
  rewrite (proj2 (N.eqb_neq o IO_DEAD)); [done|]. by intros ->.
Qed.

Lemma ipc_right_copyout_spec K G n ea sp name t overflow o st p :
  Inv K G n → G !! ea = Some (Slot sp name st) → settles G sp t o st →
  k_objects K !! o = Some (KPort p) → ip_active p = true →
  (st = Held → ∃ e, k_entries K !! ea = Some e ∧ awaits e name o) →
  has_right n o t → room_in K sp →
  wp (ipc_right_copyout sp name ea (right_type t) overflow o) (copyout_post K G n ea sp name t overflow o st) K.
Proof.
  intros Hinv Hg Hset Hp Hact Hawait Hhas Hroom.
  destruct (ei_slots _ _ _ (inv_ents _ _ _ Hinv) _ _ Hg) as [_ _ _ (e & He & Hrep)].
  destruct (oi_objects _ _ _ _ (inv_objs _ _ _ Hinv) _ _ Hp) as (Haddr & _ & Hport).
  assert (t = TRecv → ip_receiver_name p = MACH_PORT_NULL) as Hlimbo by (intros ->; by eapply limbo_name).
  assert (ie_object e = o) as Hobj.
  { destruct st as [| |c]; [done| |by destruct Hrep as (_ & _ & -> & _), Hset as [-> _]].
    destruct (Hawait eq_refl) as (e' & He' & _ & _ & Ho & _). congruence. }
  assert (st = Held → awaits e name o) as Haw.
  { intros Hh. destruct (Hawait Hh) as (e' & He' & ?). congruence. }
  destruct K as [Sp E O M B Th Km Ts Ca Cc]. ksimpl_all. unfold ipc_right_copyout. ksteps. rewrite obj_valid by done. ksteps.
  rewrite (po_otype _ _ _ _ _ _ Hport). ksteps. rewrite Hobj, N.eqb_refl. ksteps.
  destruct st as [| |c]; [done| |]; cbn [settles] in Hset.
  - destruct Hset as [->|[[->| ->] Hun]]; cbn [right_type].
    + by eapply copyout_send_once_spec; auto.
    + by eapply copyout_send_fresh; auto.
    + by eapply copyout_receive_fresh; auto.
  - destruct Hset as [Hc [[-> Hnm]|[-> Ht]]]; cbn [right_type].
    + destruct (is_send (c_type c)) eqn:Hs; [by eapply copyout_send_more|].
      eapply copyout_send_receiver; try done. by destruct (c_type c).
    + by eapply copyout_receive_send; auto.
Qed.
End Copyout.
