(* ===== verification/IpcDestroy.v ===== *)
(** The end of a receive right: [ipc_port_destroy] kills the port or sends it to
    its backup. *)

From S2P Require Import Prelude Kmem Rdxtree RdxtreeInv RdxtreeSpec RdxtreeMap IpcTypes IpcEntry IpcPort IpcMarequest IpcRight IpcBits IpcInv IpcUpdate IpcDn IpcMar IpcStep IpcRelease IpcCheck IpcCircular IpcVacate IpcDealloc IpcDelta IpcCopyin IpcClear IpcReceive IpcCopyout.

Open Scope N_scope.

(** The port once it is dead. *)
Definition dead_port (ts : N) (p : ipc_port) : ipc_port :=
  set_ip_dnrequests None (upd_target (set_msgs []) (set_ip_data ts
    (set_ip_bits (N.ldiff (ip_bits p) IO_BITS_ACTIVE) (set_ip_blocked [] p)))).
(** The receive right is gone; its reference waits to be released. *)
Definition kill_right (r : naked_rights) : naked_rights :=
  Naked (nk_refs r) (nk_send r) (nk_sonce r) 0 (nk_pd r) 0.

Lemma dead_port_active ts p : ip_active (dead_port ts p) = false.
Proof.
  unfold ip_active. rewrite io_active_testbit. cbn. change IO_BITS_ACTIVE with (2 ^ 31).
  unfold ip_bits, ip_object. rewrite N.ldiff_spec, N.pow2_bits_true. by rewrite andb_false_r.
Qed.
Lemma dead_port_otype ts p : io_otype (ip_object (dead_port ts p)) = io_otype (ip_object p).
Proof. unfold io_otype. f_equal. by apply (land_ldiff_disjoint (io_bits (ip_object p))). Qed.

Section Destroy.
Context `{!Config} {T C : Type} `{!KeyMap T} `{!KmemCache C}.
Implicit Types (K : kernel T C) (O : gmap N kobject) (G : gmap N eslot) (n : naked).

(** ** Messages and notifications *)

Lemma destroy_messages_spec K pa ks Q :
  NoDup ks → (∀ k, k ∈ ks → ∃ m, k_kmsgs K !! k = Some m ∧ msgh_remote_port m = pa) →
  (∀ Ca' Km', (∀ k, k ∉ ks → Km' !! k = k_kmsgs K !! k) → Q tt (set_k_calls Ca' (set_k_kmsgs Km' K))) →
  wp (destroy_messages pa ks) Q K.
Proof.
  revert K. induction ks as [|k ks IH]; intros K Hnd Hks HQ.
  { cbn [destroy_messages]. kstep. specialize (HQ (k_calls K) (k_kmsgs K)). destruct K. by apply HQ. }
  apply list.NoDup_cons in Hnd as [Hk Hnd]. destruct (Hks k) as (m & Hm & Hpa); [by left|].
  destruct K as [Sp E O M B Th Km Ts Ca Cc]. ksimpl_all. cbn [destroy_messages]. unfold upd_kmsg, load_kmsg. ksteps.
  eapply wp_deref; [done|]. kstep. rewrite Hpa, N.eqb_refl. ksteps. eapply wp_deref; [done|]. ksteps. apply IH; ksimpl; [done| |].
  - intros k' Hk'. rewrite lookup_insert_ne by congruence. apply Hks. by right.
  - intros Ca' Km' HKm'. apply HQ. intros k' [Hne Hk']%not_elem_of_cons. by rewrite HKm', lookup_insert_ne.
Qed.

Lemma dead_name_notifications_spec K slots Q :
  (∀ i r, slots !! i = Some r → ipr_name r ≠ MACH_PORT_NULL → ipr_notify r ≠ IP_NULL) →
  (∀ Ca', Q tt (set_k_calls Ca' K)) → wp (dead_name_notifications slots) Q K.
Proof.
  revert K. induction slots as [|r slots IH]; intros K Hs HQ; cbn [dead_name_notifications].
  { kstep. specialize (HQ (k_calls K)). by destruct K. }
  kstep. destruct K as [Sp E O M B Th Km Ts Ca Cc]. ksimpl_all. destruct (N.eqb_spec (ipr_name r) MACH_PORT_NULL) as [Hn|Hn].
  - kstep. apply IH; [|done]. intros i. apply (Hs (S i)).
  - pose proof (Hs 0%nat r eq_refl Hn). keqb. ksteps. apply IH; [|done]. intros i. apply (Hs (S i)).
Qed.

Lemma wp_when_later K (b : bool) c Q :
  (∀ Ca', Q tt (set_k_calls Ca' K)) → wp (if b then later c else mret tt) Q K.
Proof. intros HQ. destruct b; ksteps; [apply HQ|]. specialize (HQ (k_calls K)). by destruct K. Qed.

(** Messages on the queue of a port are for the port. *)
Lemma queued_for_port (Sp : gmap N (ipc_space T)) O G n Th Km pa p :
  ObjInv Sp O G n → O !! pa = Some (KPort p) → queues O Th Km →
  ∀ k, k ∈ imq_messages (ip_messages p) → ∃ m, Km !! k = Some m ∧ msgh_remote_port m = pa.
Proof.
  intros Hinv Hp Hq k Hk. destruct (qo_messages _ _ _ _ _ (Hq _ _ Hp) k Hk) as (m & q & Hm & Hqp & Hof). exists m. split; [done|].
  unfold queue_of in Hof. destruct (N.eqb_spec (ip_pset q) IPS_NULL) as [|Hps]; [done|].
  destruct (oi_objects _ _ _ _ Hinv _ _ Hqp) as (_ & _ & Hport). destruct (po_pset _ _ _ _ _ _ Hport Hps) as (_ & s & Hs). congruence.
Qed.

(** ** A port dies *)

(** Whom to notify is known. *)
Definition notifies (ot : option dnrequests) : Prop :=
  match ot with
  | Some t => ∀ i r, ipr_slots t !! i = Some r → ipr_name r ≠ MACH_PORT_NULL → ipr_notify r ≠ IP_NULL
  | None => True
  end.

(** The counts and the requests of send rights do not matter any more: the
    invariant may hold with others. *)
Section Dead.
Context (Sp : gmap N (ipc_space T)) (E : gmap N ipc_entry) (O : gmap N kobject) (M : gmap N ipc_marequest).
Context (B : gmap N (list N)) (Th : gmap N ipc_thread) (Km : gmap N ipc_kmsg) (Ts : N) (Ca : list call) (Cc : gmap N C).
Context (G : gmap N eslot) (n : naked) (pa : N) (p : ipc_port).
#[local] Abbreviation K := (Kernel Sp E O M B Th Km Ts Ca Cc).
Context (sr : N) (ot : option dnrequests).
#[local] Abbreviation p0 := (set_ip_srights sr (set_ip_dnrequests ot p)).
#[local] Abbreviation O0 := (<[pa := KPort (limbo_port p0)]> O).
#[local] Abbreviation K0 := (Kernel Sp E O0 M B Th Km Ts Ca Cc).
Context (Hinv : Inv K0 G n) (Hp : O !! pa = Some (KPort p)) (Hact : ip_active p = true).
Context (Hrecv : nk_recv (n pa) = 1).

Lemma limbo_live : ip_active (limbo_port p0) = true.
Proof. unfold limbo_port. by rewrite payload_clear_active. Qed.

Lemma limbo_facts : obj_addr pa ∧ port_ok Sp O0 G n pa (limbo_port p0) ∧
  ip_mscount p = 0 ∧ ip_seqno p = 0 ∧ ip_pset p = IPS_NULL ∧ imq_threads (ip_messages p) = [].
Proof.
  destruct (oi_objects _ _ _ _ (inv_objs _ _ _ Hinv) pa (KPort (limbo_port p0))) as (Haddr & _ & Hport); [apply lookup_insert_eq|].
  ksimpl_all. by destruct (po_limbo _ _ _ _ _ _ Hport limbo_live) as (? & ? & ? & _ & ?).
Qed.

Lemma dead_port_ok ts : ip_pdrequest p = IP_NULL →
  port_ok Sp (<[pa := KPort (dead_port ts p)]> O0) G (upd_naked n pa (kill_right (n pa))) pa (dead_port ts p).
Proof.
  intros Hpd. destruct limbo_facts as (Haddr & Hport & Hms & Hseq & Hps & _).
  assert (links_le (limbo_port p0) (dead_port ts p)) as Hlinks.
  { split; [|done|done]. intros o _. unfold dest_is. by rewrite dead_port_active. }
  destruct (links_le_counts O0 pa _ (lookup_insert_eq _ _ _) _ pa Hlinks) as (Hd & Hpd' & _); [apply Haddr|].
  pose proof limbo_live as Hlive. destruct Hport as [Ht Hr Hpos Hnk Hnpd Hse Hso Hsoa Hre Hnr Hlimbo Hpdr Hpset Hdn].
  assert (ip_references (dead_port ts p) = ip_references (limbo_port p0)) as Hrefs by done.
  rewrite Hlive in Hre. cbn [Nb] in Hre.
  split; rewrite ?upd_naked_eq, ?dead_port_active, ?dead_port_otype, ?Hrefs; unfold kill_right;
    cbn [nk_refs nk_send nk_sonce nk_recv nk_pd nk_kern Nb]; try done; try lia.
  unfold limbo_port in Ht. by rewrite payload_clear_otype in Ht.
Qed.

Lemma obj_dead ts : ip_pdrequest p = IP_NULL →
  ObjInv Sp (<[pa := KPort (dead_port ts p)]> O) G (upd_naked n pa (kill_right (n pa))).
Proof.
  intros Hpd. pose proof (dead_port_ok ts Hpd) as Hport. destruct limbo_facts as (Haddr & Hport0 & _).
  rewrite <- (insert_insert_eq O pa (KPort (dead_port ts p)) (KPort (limbo_port p0))).
  apply (obj_update_port Sp O0 G n pa (limbo_port p0)); [apply (inv_objs _ _ _ Hinv)|apply lookup_insert_eq| | |done].
  - split; [|done|done]. intros o _. unfold dest_is. by rewrite dead_port_active.
  - intros sp name Hn0. pose proof (po_recv _ _ _ _ _ _ Hport0) as Hre. rewrite limbo_live in Hre. cbn [Nb] in Hre. lia.
Qed.

Lemma queues_dead ts Th' Km' :
  threads_kept Th Th' → (∀ k, k ∉ imq_messages (ip_messages p) → Km' !! k = Km !! k) →
  queues (<[pa := KPort (dead_port ts p)]> O) Th' Km'.
Proof.
  intros HTh HKm. pose proof (inv_queues _ _ _ Hinv) as Hq. ksimpl_all. destruct limbo_facts as (_ & _ & _ & _ & Hps & Hths). unfold ip_messages in Hths.
  intros a o [[<- <-]|[Hne Ha]]%lookup_insert_Some.
  - split; cbn.
    + by intros th; rewrite Hths; intros ?%elem_of_nil.
    + by intros k ?%elem_of_nil.
    + by apply NoDup_nil_2.
    + by left.
    + intros q [= <-]. split; [by intros th ?%elem_of_nil|]. intros _. unfold ip_messages. cbn. unfold set_imq_messages. by rewrite Hths.
  - assert (O0 !! a = Some o) as Ha0 by by rewrite lookup_insert_ne.
    destruct (queue_ok_threads _ _ _ _ _ _ HTh (Hq _ _ Ha0)) as [Hth Hmsg Hnd Hone Hport]. split; [done| |done|done|done].
    intros k Hk. destruct (Hmsg k Hk) as (m & q & Hm & Hqp & Hof). rewrite HKm.
    2: { intros Hin. destruct (queued_for_port Sp O0 G n Th Km pa (limbo_port p0)) with k as (m' & Hm' & Hpa'); try done.
         - apply (inv_objs _ _ _ Hinv).
         - apply lookup_insert_eq.
         - rewrite Hm in Hm'. injection Hm' as <-. rewrite Hpa', lookup_insert_eq in Hqp. injection Hqp as <-.
           rewrite Hpa' in Hof. unfold queue_of in Hof. change (ip_pset (limbo_port p0)) with (ip_pset p) in Hof. rewrite Hps in Hof.
           cbn in Hof. congruence. }
    destruct (decide (msgh_remote_port m = pa)) as [Heq|Hnp].
    + exfalso. rewrite Heq, lookup_insert_eq in Hqp. injection Hqp as <-. rewrite Heq in Hof. unfold queue_of in Hof.
      change (ip_pset (limbo_port p0)) with (ip_pset p) in Hof. rewrite Hps in Hof. cbn in Hof. congruence.
    + rewrite lookup_insert_ne in Hqp by done. exists m, q. by rewrite lookup_insert_ne.
Qed.

(** What is known of the kernel after the port died. *)
Definition died K' : Prop :=
  Inv K' G (upd_naked n pa (kill_right (n pa))) ∧ k_spaces K' = Sp ∧ k_entries K' = E ∧
  k_objects K' = <[pa := KPort (dead_port Ts p)]> O.

Lemma died_intro M' B' Th' Km' Ts' Ca' Cc' :
  M' = M → B' = B → ip_pdrequest p = IP_NULL → threads_kept Th Th' →
  (∀ k, k ∉ imq_messages (ip_messages p) → Km' !! k = Km !! k) → (∀ i, i < 6 → is_Some (Cc' !! i)) →
  died (Kernel Sp E (<[pa := KPort (dead_port Ts p)]> O) M' B' Th' Km' Ts' Ca' Cc').
Proof.
  intros -> -> Hpd HTh HKm Hcc. destruct Hinv as [_ Hent _ Hmar _]. ksimpl_all.
  split_and!; [|done..]. split; ksimpl; [done|done|by apply obj_dead|done|by apply queues_dead].
Qed.

Lemma port_destroy_dead_spec Q :
  ip_pdrequest p = IP_NULL → notifies (ip_dnrequests p) → (∀ K', died K' → Q tt K') → wp (port_destroy_dead pa) Q K.
Proof.
  intros Hpd Hnot HQ. destruct limbo_facts as (_ & Hport & _ & _ & _ & Hths).
  assert (O0 !! pa = Some (KPort (limbo_port p0))) as Hp0 by apply lookup_insert_eq.
  pose proof (inv_queues _ _ _ Hinv) as Hq. pose proof (inv_caches _ _ _ Hinv) as Hcc. ksimpl_all.
  unfold port_destroy_dead. ksteps. apply wake_threads_spec; ksimpl.
  { by apply (proj1 (qo_port _ _ _ _ _ (Hq _ _ Hp0) _ eq_refl)). }
  intros Th' Ca1 HTh. unfold ipc_port_timestamp. ksteps. rewrite !insert_insert_eq.
  apply wp_when_later. intros Ca2. ksteps.
  match goal with |- context [KPort ?q] => set (p2 := q) end.
  change (ip_messages p2) with (ip_messages p). change (ip_dnrequests p2) with (ip_dnrequests p). rewrite Hths. ksteps.
  apply destroy_messages_spec; ksimpl; [apply (qo_nodup _ _ _ _ _ (Hq _ _ Hp0))|by apply (queued_for_port Sp O0 G n Th Km pa (limbo_port p0) (inv_objs _ _ _ Hinv) Hp0 Hq)|].
  intros Ca3 Km' HKm. rewrite insert_insert_eq. kstep.
  assert (∀ Ca4 Cc', (∀ i, i < 6 → is_Some (Cc' !! i)) →
    wp ((if negb (ip_kotype p2 =? IKOT_NONE) then later (call_kobject_destroy pa) else mret tt);; later (call_object_release pa)) Q
      (Kernel Sp E (<[pa := KPort (dead_port Ts p)]> O) M B Th' Km' (incr Ts) Ca4 Cc')) as Htail.
  { intros Ca4 Cc' Hcc'. kstep. apply wp_when_later. intros Ca5. ksteps. by apply HQ, died_intro. }
  destruct (ip_dnrequests p) as [t|] eqn:Ht.
  - kstep. apply dead_name_notifications_spec.
    { exact Hnot. }
    intros Ca4. ksteps. rewrite insert_insert_eq. apply cache_free_spec; [done|done|]. intros Cc' Hcc'. ksimpl. by apply Htail.
  - kstep. replace (upd_target _ p2) with (dead_port Ts p) by (by destruct p; cbn in *; subst). by apply Htail.
Qed.
End Dead.

(** ** A port is sent to another *)

Section Send.
Context (Sp : gmap N (ipc_space T)) (O : gmap N kobject) (G : gmap N eslot) (n : naked) (pa da : N) (p : ipc_port) (l : list N).
#[local] Abbreviation p' := (set_ip_destination da p).
#[local] Abbreviation O' := (<[pa := KPort (set_ip_destination da p)]> O).
Context (Hinv : ObjInv Sp O G n) (Hp : O !! pa = Some (KPort p)).
Context (Hact : ip_active p = true) (Hname : ip_receiver_name p = MACH_PORT_NULL) (Hdest : ip_destination p = IP_NULL).
Context (Hrecv : nk_recv (n pa) = 1) (Hkern : nk_kern (n pa) = 0) (Hda : is_port O da) (Hl : chain O da l) (Hpl : pa ∉ l).
Context (Hspare : nk_send (n da) + nk_sonce (n da) + nk_recv (n da) + n_dest O da < nk_refs (n da)).

Lemma send_ne : pa ≠ da.
Proof. intros Heq. apply Hpl. destruct (chain_head _ _ _ Hl) as [l' ->]. rewrite Heq. by left. Qed.

Lemma send_ports x : is_port O x → is_port O' x.
Proof. intros [q Hq]. destruct (decide (x = pa)) as [->|]; eexists; [by rewrite lookup_insert_eq|by rewrite lookup_insert_ne]. Qed.

Lemma send_counts b : b ≠ 0 → n_dest O' b = n_dest O b + Nb (b =? da) ∧ n_pd O' b = n_pd O b ∧ n_member O' b = n_member O b.
Proof.
  intros Hb. split_and!; [|by eapply count_object_eq..].
  pose proof (count_update (dest_is b) O pa _ (KPort p') Hp) as Hc. unfold n_dest.
  assert (dest_is b (KPort p) = false) as H1. { unfold dest_is. rewrite Hdest, (proj2 (N.eqb_neq IP_NULL b)) by done. by rewrite andb_false_r. }
  assert (dest_is b (KPort p') = (b =? da)) as H2.
  { unfold dest_is. change (ip_active p') with (ip_active p). change (ip_receiver_name p') with (ip_receiver_name p).
    rewrite Hact, Hname. apply N.eqb_sym. }
  rewrite H1, H2 in Hc. cbn [Nb] in Hc. lia.
Qed.

Lemma obj_send : ObjInv Sp O' G n.
Proof.
  destruct (oi_objects _ _ _ _ Hinv _ _ Hp) as (Haddr & HSpa & Hport). pose proof send_ne as Hne.
  pose proof (po_recv _ _ _ _ _ _ Hport) as Hre. rewrite Hact in Hre. cbn [Nb] in Hre. split.
  - intros eb sp name c Hc. eapply cap_ok_port; [done|by apply (oi_caps _ _ _ _ Hinv eb)|]. intros Hca Ht. exfalso.
    assert (0 < n_recv G pa); [|lia]. apply (count_pos _ _ _ _ Hc). unfold holds. cbn [sl_state]. by rewrite Hca, N.eqb_refl, Ht.
  - apply Hinv.
  - intros b o [[<- <-]|[Hb Ho]]%lookup_insert_Some.
    + split_and!; [done|done|]. destruct (send_counts pa) as (Hd & Hpd & _); [apply Haddr|].
      rewrite (proj2 (N.eqb_neq _ _) Hne) in Hd. cbn [Nb] in Hd.
      destruct Hport as [Ht Hr Hpos Hnk Hnpd Hse Hso Hsoa _ Hnr Hlimbo Hpdr Hps Hdn].
      split; try done; try lia; change (ip_active p') with (ip_active p); rewrite ?Hact; cbn [Nb]; try lia.
      * split; [lia|]. intros _. split; [|done]. destruct Hda as [q Hq]. destruct (oi_objects _ _ _ _ Hinv _ _ Hq) as (_ & HS & _).
        intros (S & HS' & _). change (Sp !! da = Some S) in HS'. congruence.
      * intros _ _. destruct (Hlimbo Hact Hname) as (? & ? & ? & _ & ?). split_and!; try done. intros _. by apply send_ports.
      * intros Hq. by apply send_ports, Hpdr.
      * intros Hq. destruct (Hps Hq) as (_ & s & Hs). split; [done|]. exists s. rewrite lookup_insert_ne; [done|].
        intros Heq. change (pa = ip_pset p) in Heq. congruence.
    + destruct (oi_objects _ _ _ _ Hinv _ _ Ho) as (Hbaddr & HS & Hok). split_and!; [done|done|].
      destruct (send_counts b) as (Hd & Hpd & Hm); [apply Hbaddr|]. destruct o as [q|s].
      * apply (port_ok_frame_dest Sp O O' G G n n b q); try done; try lia; auto using send_ports.
        -- pose proof (po_naked _ _ _ _ _ _ Hok). rewrite Hd. destruct (N.eqb_spec b da) as [->|]; cbn [Nb]; lia.
        -- intros _ s Hs. exists s. rewrite lookup_insert_ne; congruence.
      * destruct Hok as [Ht Hr Hpos Hc]. split; try done. by rewrite Hm.
  - intros o Ho. by apply send_ports, Hinv.
  - eapply (acyclic_send O); [apply Hinv|exact Hl|exact Hpl| |].
    + unfold next_port. rewrite lookup_insert_eq. change (ip_active p') with (ip_active p).
      change (ip_receiver_name p') with (ip_receiver_name p). by rewrite Hact, Hname.
    + intros b Hb. unfold next_port. by rewrite lookup_insert_ne.
Qed.
End Send.

(** ** Release of a send-once right *)

(** [pd] of the remaining rights belong to port-destroyed requests. *)
Definition drop_sonce (pd : N) (r : naked_rights) : naked_rights :=
  Naked (nk_refs r - 1) (nk_send r) (nk_sonce r - 1) (nk_recv r) pd (nk_kern r).
Definition sonce_less (p : ipc_port) : ipc_port := ip_release (set_ip_sorights (ip_sorights p - 1) p).

Section ReleaseSonce.
Context (Sp : gmap N (ipc_space T)) (E : gmap N ipc_entry) (O : gmap N kobject) (M : gmap N ipc_marequest).
Context (B : gmap N (list N)) (Th : gmap N ipc_thread) (Km : gmap N ipc_kmsg) (Ts : N) (Ca : list call) (Cc : gmap N C).
Context (G : gmap N eslot) (n : naked) (pa pd : N) (p : ipc_port).
#[local] Abbreviation K := (Kernel Sp E O M B Th Km Ts Ca Cc).
#[local] Abbreviation n' := (upd_naked n pa (drop_sonce pd (n pa))).
Context (Hinv : Inv K G n) (Hp : O !! pa = Some (KPort p)) (Hpd : n_pd O pa ≤ pd < nk_sonce (n pa)).

Lemma release_sonce_keep Ts' Ca' (Cc' : gmap N C) :
  (∀ i, i < 6 → is_Some (Cc' !! i)) → ip_references p ≠ 1 →
  Inv (Kernel Sp E (<[pa := KPort (sonce_less p)]> O) M B Th Km Ts' Ca' Cc') G n'.
Proof.
  intros Hcc' H1. destruct (oi_objects _ _ _ _ (inv_objs _ _ _ Hinv) _ _ Hp) as (Haddr & _ & Hport). ksimpl_all.
  pose proof (po_pos _ _ _ _ _ _ Hport). pose proof (po_naked _ _ _ _ _ _ Hport). pose proof (po_sonce _ _ _ _ _ _ Hport).
  eapply inv_naked_step; try done. unfold drop_sonce, sonce_less.
  eapply (port_ok_naked Sp O G n pa p); cbn [nk_refs nk_send nk_sonce nk_recv nk_pd nk_kern]; try done; psimpl; try lia;
    first [apply Haddr|apply Hport].
Qed.

Lemma release_sonce_free Ts' Ca' (Cc' : gmap N C) :
  (∀ i, i < 6 → is_Some (Cc' !! i)) → ip_active p = false → ip_references p = 1 →
  Inv (Kernel Sp E (delete pa O) M B Th Km Ts' Ca' Cc') G n'.
Proof.
  intros Hcc' Hdead H1. pose proof Hinv as [Hcc Hent Hobj Hmar Hq]. ksimpl_all.
  destruct (oi_objects _ _ _ _ Hobj _ _ Hp) as (Haddr & _ & Hport).
  pose proof (po_refs _ _ _ _ _ _ Hport). pose proof (po_naked _ _ _ _ _ _ Hport).
  split; ksimpl; [done|done| |done|].
  - eapply obj_frame_delete; try done; [|lia..|apply Hobj|apply Hobj].
    unfold nk_rights, drop_sonce. cbn [nk_send nk_sonce nk_recv]. lia.
  - eapply queues_delete; [done|done|done|]. destruct (decide (ip_pset p = IPS_NULL)) as [|Hps]; [done|].
    destruct (po_pset _ _ _ _ _ _ Hport Hps). congruence.
Qed.

Lemma ipc_port_release_sonce_spec Q :
  (∀ K', Inv K' G n' → k_spaces K' = Sp → k_entries K' = E → k_timestamp K' = Ts →
     (∀ b, b ≠ pa → k_objects K' !! b = O !! b) →
     (ip_active p = true → k_objects K' !! pa = Some (KPort (sonce_less p))) → Q tt K') →
  wp (ipc_port_release_sonce pa) Q K.
Proof.
  intros HQ. destruct (oi_objects _ _ _ _ (inv_objs _ _ _ Hinv) _ _ Hp) as (Haddr & _ & Hport). ksimpl_all.
  pose proof (inv_caches _ _ _ Hinv) as Hcc. pose proof (po_pos _ _ _ _ _ _ Hport) as Hpos. pose proof (po_sonce _ _ _ _ _ _ Hport) as Hso.
  pose proof (po_refs _ _ _ _ _ _ Hport) as Hrefs. pose proof (po_naked _ _ _ _ _ _ Hport) as Hnk. pose proof (po_recv _ _ _ _ _ _ Hport) as Hre.
  assert (n_recv G pa ≤ n_caps G pa) as Hle.
  { apply count_mono. intros i s _. unfold holds. destruct (sl_state s); try done. by intros [-> _]%andb_true_iff. }
  unfold ipc_port_release_sonce. rewrite obj_valid by done. ksteps. rewrite (proj2 (N.eqb_neq (ip_sorights p) 0)) by lia. ksteps.
  rewrite insert_insert_eq, (decr_pred (ip_sorights p)) by lia. fold (sonce_less p).
  change (ip_active (sonce_less p)) with (ip_active p). destruct (ip_active p) eqn:Hact; cbn [negb Nb] in *.
  - kstep. apply HQ; try done; [apply release_sonce_keep; [done|lia]|intros b Hb; by apply lookup_insert_ne|intros _; apply lookup_insert_eq].
  - eapply port_check_unlock_spec; ksimpl; [apply lookup_insert_eq|apply Hport|done| |].
    + change (ip_references (sonce_less p)) with (decr (ip_references p)). rewrite decr_pred by done. intros Hr1.
      apply HQ; try done; [apply release_sonce_keep; [done|lia]|intros b Hb; by apply lookup_insert_ne].
    + change (ip_references (sonce_less p)) with (decr (ip_references p)). rewrite decr_pred by done. intros Hr1 Cc' Hcc'.
      rewrite delete_insert_eq. apply HQ; try done; [apply release_sonce_free; [done|done|lia]|intros b Hb; by apply lookup_delete_ne].
Qed.
End ReleaseSonce.

Lemma obj_dest_ports (Sp : gmap N (ipc_space T)) O G n : ObjInv Sp O G n → dest_ports O.
Proof.
  intros Hinv a Hn. destruct (next_port_transit _ _ Hn) as (p & Hp & Hact & Hname & Hd).
  destruct (oi_objects _ _ _ _ Hinv _ _ Hp) as (_ & _ & Hport). destruct (po_limbo _ _ _ _ _ _ Hport Hact Hname) as (_ & _ & _ & Hdest & _).
  rewrite Hd in Hdest. by apply Hdest.
Qed.

(** A port in limbo. *)
Lemma limbo_port_idem p : limbo_port (limbo_port p) = limbo_port p.
Proof.
  destruct p as [[[refs bits] name q] ? ? ? ? ? ? ? ? ? ? ? ? ? ? ?]. unfold limbo_port, ipc_port_flag_protected_payload_clear, set_ip_bits, ip_bits.
  cbn. by rewrite N.ldiff_ldiff_l, N.lor_diag.
Qed.
Lemma limbo_port_sonce p : limbo_port (sonce_less p) = sonce_less (limbo_port p).
Proof. by destruct p as [[[refs bits] name q] ? ? ? ? ? ? ? ? ? ? ? ? ? ? ?]. Qed.

(** Rights of other ports that are in messages stay as they are. *)
Definition spares_rights (n1 n2 : naked) (a : N) : Prop :=
  ∀ b, nk_send (n2 b) = nk_send (n1 b) ∧ nk_sonce (n1 b) + nk_pd (n2 b) ≤ nk_sonce (n2 b) + nk_pd (n1 b) ∧
    (b ≠ a → nk_recv (n2 b) = nk_recv (n1 b) ∧ nk_kern (n2 b) = nk_kern (n1 b)).

Lemma spares_trans n1 n2 n3 a : spares_rights n1 n2 a → spares_rights n2 n3 a → spares_rights n1 n3 a.
Proof.
  intros H1 H2 b. destruct (H1 b) as (? & ? & Hb1), (H2 b) as (? & ? & Hb2). split_and!; [congruence|lia|].
  intros Hb. destruct (Hb1 Hb), (Hb2 Hb). split; congruence.
Qed.

Lemma spares_kill n1 a : spares_rights n1 (upd_naked n1 a (kill_right (n1 a))) a.
Proof.
  intros b. destruct (decide (b = a)) as [->|Hne]; [rewrite upd_naked_eq|by rewrite upd_naked_ne]. cbn. split_and!; [done|lia|done].
Qed.

Lemma same_counts p : set_ip_srights (ip_srights p) (set_ip_dnrequests (ip_dnrequests p) p) = p.
Proof. by destruct p. Qed.
Lemma limbo_port_active p : ip_active p = true → ip_active (limbo_port p) = true.
Proof. intros Hact. unfold limbo_port. by rewrite payload_clear_active. Qed.

(** ** Backup ports *)

Section Backup.
Context (Sp : gmap N (ipc_space T)) (E : gmap N ipc_entry) (O : gmap N kobject) (M : gmap N ipc_marequest).
Context (B : gmap N (list N)) (Th : gmap N ipc_thread) (Km : gmap N ipc_kmsg) (Ts : N) (Ca : list call) (Cc : gmap N C).
Context (G : gmap N eslot) (n : naked) (pa : N) (p : ipc_port).
#[local] Abbreviation K := (Kernel Sp E O M B Th Km Ts Ca Cc).
#[local] Abbreviation O0 := (<[pa := KPort (limbo_port p)]> O).
#[local] Abbreviation K0 := (Kernel Sp E O0 M B Th Km Ts Ca Cc).
#[local] Abbreviation bd := (ip_pdrequest p).
#[local] Abbreviation p1 := (limbo_port (set_ip_pdrequest IP_NULL p)).
#[local] Abbreviation O1 := (<[pa := KPort p1]> O).
#[local] Abbreviation K1 := (Kernel Sp E O1 M B Th Km Ts Ca Cc).
Context (Hinv : Inv K0 G n) (Hp : O !! pa = Some (KPort p)) (Hact : ip_active p = true).
Context (Hrecv : nk_recv (n pa) = 1) (Hkern : nk_kern (n pa) = 0) (Hbd : bd ≠ IP_NULL).

Lemma limbo_own : obj_addr pa ∧ port_ok Sp O0 G n pa (limbo_port p) ∧
  ip_mscount p = 0 ∧ ip_seqno p = 0 ∧ ip_pset p = IPS_NULL ∧ imq_threads (ip_messages p) = [].
Proof.
  pose proof (limbo_facts Sp E O M B Th Km Ts Ca Cc G n pa p (ip_srights p) (ip_dnrequests p)) as Hf. rewrite same_counts in Hf. auto.
Qed.

Lemma backup_active : ip_active p1 = true.
Proof. unfold limbo_port. by rewrite payload_clear_active. Qed.

Lemma backup_links : links_le (limbo_port p) p1.
Proof.
  split; [|intros o Ho|done].
  - intros o Ho. unfold dest_is. rewrite !andb_true_iff. intros [_ Hd%N.eqb_eq]. by destruct Ho.
  - unfold pdrequest_is. intros Hd%N.eqb_eq. by destruct Ho.
Qed.

(** The request is taken off the port. *)
Lemma inv_backup : Inv K1 G n.
Proof.
  destruct limbo_own as (Haddr & Hport & Hms & Hseq & Hps & Hths).
  pose proof backup_links as Hlinks. pose proof Hinv as [Hcc Hent Hobj Hmar Hq]. ksimpl_all.
  assert (O0 !! pa = Some (KPort (limbo_port p))) as Hp0 by apply lookup_insert_eq.
  rewrite <- (insert_insert_eq O pa (KPort p1) (KPort (limbo_port p))).
  destruct (links_le_counts O0 pa _ Hp0 _ pa Hlinks) as (Hd & Hpd & _); [apply Haddr|].
  split; ksimpl; [done|done| |done|by eapply queues_same].
  apply (naked_ext Sp _ G (upd_naked n pa (n pa))); [intros a; symmetry; apply upd_naked_id|].
  apply (obj_update_port Sp O0 G n pa (limbo_port p)); [done|done|done| |].
  { intros sp name Hn0. pose proof (po_recv _ _ _ _ _ _ Hport) as Hre. rewrite limbo_port_active in Hre by done. cbn [Nb] in Hre. lia. }
  destruct Hport as [Ht Hr Hpos Hnk Hnpd Hse Hso Hsoa Hre Hnr Hlimbo Hpdr Hpset Hdn].
  split; rewrite ?upd_naked_eq; try done; lia.
Qed.

Lemma backup_pd : n_pd O1 bd + 1 = n_pd O0 bd ∧ bd ≠ 0 ∧ ∃ d, O1 !! bd = Some (KPort d).
Proof.
  destruct limbo_own as (Haddr & Hport & _). split_and!; [|done|].
  - assert (O0 !! pa = Some (KPort (limbo_port p))) as Hp0 by apply lookup_insert_eq.
    pose proof (count_update (pdrequest_is bd) O0 pa _ (KPort p1) Hp0) as Hc. rewrite insert_insert_eq in Hc.
    replace (pdrequest_is bd (KPort (limbo_port p))) with true in Hc by (unfold pdrequest_is; symmetry; apply N.eqb_refl).
    replace (pdrequest_is bd (KPort p1)) with false in Hc by (symmetry; apply N.eqb_neq; intros Heq; by apply Hbd).
    cbn [Nb] in Hc. unfold n_pd. lia.
  - destruct (po_pdrequest _ _ _ _ _ _ Hport Hbd) as [d Hd]. change (ip_pdrequest (limbo_port p)) with bd in Hd.
    destruct (decide (bd = pa)) as [->|Hne]; [exists p1; apply lookup_insert_eq|]. exists d.
    rewrite lookup_insert_ne in Hd |- *; done.
Qed.

(** The port went to its backup: the message that tells so has the receive
    right, and the request's send-once right pays for it. *)
Definition sent_rights (d : N) : naked :=
  upd_naked n d (Naked (nk_refs (n d) + 1) (nk_send (n d)) (nk_sonce (n d)) (nk_recv (n d)) (nk_pd (n d) - 1) (nk_kern (n d))).

Lemma inv_sent l d :
  O1 !! bd = Some (KPort d) → ip_references d + 1 < 2 ^ 32 → chain O1 bd l → pa ∉ l →
  Inv (Kernel Sp E (put_in_transit O1 pa bd p1 d) M B Th Km Ts Ca Cc) G (sent_rights bd).
Proof.
  intros Hd Href Hl Hpl. pose proof inv_backup as Hinv1. pose proof backup_pd as (Hpd & Hbd0 & _).
  assert (pa ≠ bd) as Hne. { intros Heq. apply Hpl. destruct (chain_head _ _ _ Hl) as [l' ->]. rewrite Heq at 1. by left. }
  destruct (oi_objects _ _ _ _ (inv_objs _ _ _ Hinv1) _ _ Hd) as (Haddr & _ & Hport). ksimpl_all.
  assert (O0 !! bd = Some (KPort d)) as Hd0 by (rewrite lookup_insert_ne in Hd |- *; done).
  destruct (oi_objects _ _ _ _ (inv_objs _ _ _ Hinv) _ _ Hd0) as (_ & _ & Hport0). ksimpl_all.
  pose proof (po_pos _ _ _ _ _ _ Hport). pose proof (po_naked _ _ _ _ _ _ Hport) as Hnk. pose proof (po_pd _ _ _ _ _ _ Hport0).
  assert (Inv (Kernel Sp E (<[bd := KPort (ip_reference d)]> O1) M B Th Km Ts Ca Cc) G (sent_rights bd)) as Hinv2.
  { eapply inv_naked_step; try done; [apply Hinv|]. eapply (port_ok_naked Sp O1 G n bd d);
      cbn [nk_refs nk_send nk_sonce nk_recv nk_pd nk_kern]; try done; psimpl; try lia; apply Hport. }
  pose proof Hinv2 as [Hcc Hent Hobj Hmar Hq]. ksimpl_all. unfold put_in_transit.
  assert (<[bd := KPort (ip_reference d)]> O1 !! pa = Some (KPort p1)) as Hp1 by (rewrite lookup_insert_ne by done; apply lookup_insert_eq).
  split; ksimpl; [done|done| |done|by eapply queues_same].
  eapply obj_send; try done.
  - apply backup_active.
  - unfold sent_rights. by rewrite upd_naked_ne.
  - unfold sent_rights. by rewrite upd_naked_ne.
  - eexists. apply lookup_insert_eq.
  - eapply chain_ext; [|exact Hl]. intros b _. unfold next_port. destruct (decide (b = bd)) as [->|]; [by rewrite lookup_insert_eq, Hd|].
    by rewrite lookup_insert_ne.
  - unfold sent_rights. rewrite upd_naked_eq. cbn [nk_refs nk_send nk_sonce nk_recv]. unfold n_dest in *.
    rewrite (count_object_eq _ O1 bd d) by done. lia.
Qed.

Lemma port_send_to_backup_spec Q :
  spare_ref K bd →
  (∀ d Ca', O1 !! bd = Some (KPort d) → Inv (Kernel Sp E (put_in_transit O1 pa bd p1 d) M B Th Km Ts Ca Cc) G (sent_rights bd) →
     Q true (Kernel Sp E (put_in_transit O1 pa bd p1 d) M B Th Km Ts Ca' Cc)) →
  (∀ K2 p2, Inv K2 G (upd_naked n bd (drop_sonce (nk_pd (n bd) - 1) (n bd))) → k_spaces K2 = Sp → k_entries K2 = E →
     k_objects K2 !! pa = Some (KPort p2) → limbo_port p2 = p2 → ip_active p2 = true → ip_pdrequest p2 = IP_NULL →
     0 < nk_pd (n bd) → Q false K2) →
  wp (port_send_to_backup pa bd) Q K.
Proof.
  intros Hspare Hsent Hcirc. pose proof inv_backup as Hinv1. pose proof backup_pd as (Hpd & Hbd0 & d & Hd). pose proof backup_active as Hact1.
  destruct limbo_own as (Haddr & Hport & Hms & Hseq & Hps & Hths).
  pose proof (inv_objs _ _ _ Hinv1) as Hobj1. ksimpl_all.
  assert (0 < nk_pd (n bd) ∧ n_pd O1 bd ≤ nk_pd (n bd) - 1 < nk_sonce (n bd)) as [Hpd0 Hpds].
  { destruct (decide (bd = pa)) as [Heq|Hne].
    - rewrite Heq in *. pose proof (po_pd _ _ _ _ _ _ Hport). lia.
    - assert (O0 !! bd = Some (KPort d)) as Hd0 by (rewrite lookup_insert_ne in Hd |- *; done).
      destruct (oi_objects _ _ _ _ (inv_objs _ _ _ Hinv) _ _ Hd0) as (_ & _ & Hdport). pose proof (po_pd _ _ _ _ _ _ Hdport). ksimpl_all. lia. }
  unfold port_send_to_backup. ksteps. rewrite !insert_insert_eq. fold p1.
  eapply (ipc_port_check_circularity_spec _ _ O1 _ _ _ _ _ _ _ pa bd p1 d); try done; [apply Hobj1|by eapply obj_dest_ports| | | |].
  - apply lookup_insert_eq.
  - apply Haddr.
  - intros l Hl Hin. cbn [negb]. kstep. eapply (ipc_port_release_sonce_spec _ _ _ _ _ _ _ _ _ _ _ _ bd (nk_pd (n bd) - 1) d Hinv1 Hd Hpds).
    intros K2 HK2 HSp HE _ Hother Hsame.
    assert (∃ p2, k_objects K2 !! pa = Some (KPort p2) ∧ (p2 = p1 ∨ p2 = sonce_less p1)) as (p2 & Hp2 & Hcase).
    { destruct (decide (pa = bd)) as [Heq|Hne].
      - assert (d = p1) as -> by (rewrite <- Heq, lookup_insert_eq in Hd; congruence). exists (sonce_less p1). rewrite Heq at 1. auto.
      - exists p1. rewrite Hother, lookup_insert_eq by done. auto. }
    assert (ip_pset p2 = IPS_NULL ∧ ip_mscount p2 = 0 ∧ ip_seqno p2 = 0 ∧ ip_pdrequest p2 = IP_NULL ∧ ip_receiver_name p2 = MACH_PORT_NULL ∧
      ip_destination p2 = IP_NULL ∧ ip_active p2 = true ∧ limbo_port p2 = p2) as (H1 & H2 & H3 & H4 & H5 & H6 & H7 & H8).
    { destruct Hcase as [->| ->]; split_and!; try done; rewrite ?limbo_port_sonce, limbo_port_idem; done. }
    destruct K2 as [Sp2 E2 O2 M2 B2 Th2 Km2 Ts2 Ca2 Cc2]. ksimpl_all. ksteps. rewrite H1, H2, H3, H4, H5, H6. ksteps. by apply (Hcirc _ p2).
  - intros l Hl Hpl. cbn [negb]. ksteps. apply Hsent; [done|]. apply (inv_sent l); try done.
    destruct (decide (bd = pa)) as [Heq|Hne].
    + exfalso. apply Hpl. destruct (chain_head _ _ _ Hl) as [l' ->]. rewrite Heq at 1. by left.
    + apply Hspare. rewrite lookup_insert_ne in Hd; done.
Qed.

(** ** [ipc_port_destroy] *)

(** The port is dead, or in transit to its backup. *)
Definition destroyed K' : Prop :=
  ∃ n', Inv K' G n' ∧ k_spaces K' = Sp ∧ k_entries K' = E ∧ spares_rights n n' pa ∧
  ∃ q, k_objects K' !! pa = Some (KPort q) ∧
    (ip_active q = false ∧ nk_recv (n' pa) = 0 ∨
     bd ≠ IP_NULL ∧ ip_active q = true ∧ ip_receiver_name q = MACH_PORT_NULL ∧ ip_destination q = bd ∧ nk_recv (n' pa) = 1).
End Backup.

Lemma port_notifies (Sp : gmap N (ipc_space T)) O G n pa p :
  port_ok Sp O G n pa p → ip_active p = true → notifies (ip_dnrequests p).
Proof.
  intros Hport Hact. pose proof (po_dn _ _ _ _ _ _ Hport Hact) as Hdn. unfold notifies. destruct (ip_dnrequests p) as [t|]; [|done].
  by destruct Hdn as [[_ _ Hn] _].
Qed.

Lemma ipc_port_destroy_dead_spec K G n pa p sr ot Q :
  Inv (set_k_objects (<[pa := KPort (limbo_port (set_ip_srights sr (set_ip_dnrequests ot p)))]> (k_objects K)) K) G n →
  k_objects K !! pa = Some (KPort p) → ip_active p = true → nk_recv (n pa) = 1 → ip_pdrequest p = IP_NULL → notifies (ip_dnrequests p) →
  (∀ K', destroyed (k_spaces K) (k_entries K) G n pa p K' → Q tt K') → wp (ipc_port_destroy pa) Q K.
Proof.
  destruct K as [Sp E O M B Th Km Ts Ca Cc]. ksimpl. intros Hinv Hp Hact Hrecv Hpd Hnot HQ.
  destruct (limbo_facts Sp E O M B Th Km Ts Ca Cc G n pa p sr ot Hinv Hact) as (Haddr & Hport & Hms & Hseq & Hps & Hths).
  unfold ipc_port_destroy. ksteps. rewrite Hps, Hms, Hseq, Hpd. ksteps.
  eapply port_destroy_dead_spec; try done. intros K' (HK' & HSp & HE & HO). apply HQ.
  eexists. split_and!; [exact HK'|done|done|apply spares_kill|]. eexists. rewrite HO, lookup_insert_eq. split; [done|]. left.
  split; [apply dead_port_active|by rewrite upd_naked_eq].
Qed.

Lemma ipc_port_destroy_spec K G n pa p Q :
  Inv (set_k_objects (<[pa := KPort (limbo_port p)]> (k_objects K)) K) G n →
  k_objects K !! pa = Some (KPort p) → ip_active p = true → nk_recv (n pa) = 1 → nk_kern (n pa) = 0 →
  (ip_pdrequest p ≠ IP_NULL → spare_ref K (ip_pdrequest p)) →
  (∀ K', destroyed (k_spaces K) (k_entries K) G n pa p K' → Q tt K') → wp (ipc_port_destroy pa) Q K.
Proof.
  destruct K as [Sp E O M B Th Km Ts Ca Cc]. ksimpl. intros Hinv Hp Hact Hrecv Hkern Hspare HQ.
  destruct (limbo_own Sp E O M B Th Km Ts Ca Cc G n pa p Hinv Hact) as (Haddr & Hport & Hms & Hseq & Hps & Hths).
  destruct (decide (ip_pdrequest p = IP_NULL)) as [Hpd|Hpd].
  - apply (ipc_port_destroy_dead_spec _ G n pa p (ip_srights p) (ip_dnrequests p)); rewrite ?same_counts; try done.
    exact (port_notifies _ _ _ _ _ _ Hport (limbo_port_active _ Hact)).
  - unfold ipc_port_destroy. ksteps. rewrite Hps, Hms, Hseq. keqb. ksteps. eapply port_send_to_backup_spec; try done; [by apply Hspare| |].
    + intros d Ca' Hd HK'. kstep. apply HQ. eexists. split_and!; [by apply (inv_calls (Kernel _ _ _ _ _ _ _ _ Ca _))|done|done| |].
      * intros b. unfold sent_rights. destruct (decide (b = ip_pdrequest p)) as [->|Hne]; [rewrite upd_naked_eq|rewrite upd_naked_ne by done; split_and!; [done|lia|done]].
        cbn. split_and!; [done|lia|done].
      * eexists. ksimpl. unfold put_in_transit. rewrite lookup_insert_eq. split; [done|]. right. split_and!; try done.
        -- change (ip_active (limbo_port (set_ip_pdrequest IP_NULL p)) = true). unfold limbo_port. by rewrite payload_clear_active.
        -- unfold sent_rights. destruct (decide (pa = ip_pdrequest p)) as [Heq|Hne]; [rewrite <- Heq, upd_naked_eq|rewrite upd_naked_ne by done]; done.
    + intros [Sp2 E2 O2 M2 B2 Th2 Km2 Ts2 Ca2 Cc2] p2 HK2 HSp HE Hp2 Hl2 Hact2 Hpd2 Hpos. ksimpl_all. subst Sp2 E2.
      set (n2 := upd_naked n (ip_pdrequest p) (drop_sonce (nk_pd (n (ip_pdrequest p)) - 1) (n (ip_pdrequest p)))) in *.
      assert (spares_rights n n2 pa ∧ nk_recv (n2 pa) = 1) as [Hsp Hr2].
      { unfold n2. split.
        - intros b. destruct (decide (b = ip_pdrequest p)) as [->|Hne]; [rewrite upd_naked_eq|rewrite upd_naked_ne by done; split_and!; [done|lia|done]].
          cbn. split_and!; [done|lia|done].
        - destruct (decide (pa = ip_pdrequest p)) as [Heq|Hne]; [rewrite <- Heq, upd_naked_eq|rewrite upd_naked_ne by done]; done. }
      eapply (port_destroy_dead_spec Sp E O2 M2 B2 Th2 Km2 Ts2 Ca2 Cc2 G n2 pa p2 (ip_srights p2) (ip_dnrequests p2)); try done.
      { by rewrite same_counts, Hl2, insert_id. }
      { destruct (oi_objects _ _ _ _ (inv_objs _ _ _ HK2) _ _ Hp2) as (_ & _ & Hport2). by eapply port_notifies. }
      intros K' (HK' & HSp' & HE' & HO'). apply HQ. eexists. split_and!; [exact HK'|done|done|by eapply spares_trans; [|apply spares_kill]|].
      eexists. rewrite HO', lookup_insert_eq. split; [done|]. left. split; [apply dead_port_active|by rewrite upd_naked_eq].
Qed.
End Destroy.
