(* ===== verification/IpcEnd.v ===== *)
(** Rights that end with their object: [ipc_right_delta] for receive rights and
    port sets, [ipc_right_destroy], and rights destroyed outside of entries. *)

From S2P Require Import Prelude Kmem Rdxtree RdxtreeInv RdxtreeSpec RdxtreeMap IpcTypes IpcEntry IpcPort IpcMarequest IpcRight IpcBits IpcInv IpcUpdate IpcDn IpcMar IpcStep IpcRelease IpcCheck IpcCircular IpcVacate IpcDealloc IpcDelta IpcCopyin IpcClear IpcReceive IpcCopyout IpcDestroy.

Open Scope N_scope.

Lemma on_vacant P pa st : pa ≠ 0 → vacant st → on P pa st = 0.
Proof.
  intros Hpa Hv. destruct st as [| |c]; [done|done|]. destruct Hv as [Ht Hwf]. unfold cap_wf in Hwf. rewrite Ht in Hwf.
  unfold on, holds. simpl. destruct Hwf as (-> & _). by rewrite (proj2 (N.eqb_neq 0 pa)) by congruence.
Qed.
Lemma vacant_only pa st : vacant st → only pa st.
Proof. destruct st as [| |c]; try done. intros [Ht Hwf]. unfold cap_wf in Hwf. rewrite Ht in Hwf. right. apply Hwf. Qed.

Lemma clear_port_inj ct l p ct' l' p' : clear_port ct l p = clear_port ct' l' p' → ct = ct' ∧ l = l'.
Proof. intros H. split; [exact (f_equal ip_cur_target H)|exact (f_equal (λ q, imq_messages (ip_messages q)) H)]. Qed.

Section End_.
Context `{!Config} {T C : Type} `{!KeyMap T} `{!KmemCache C}.
Implicit Types (K : kernel T C) (O : gmap N kobject) (G : gmap N eslot) (n : naked).

(** ** The receive right of an entry *)

(** The table is that of the entry's new state, perhaps with the entry freed. *)
Definition follows G (G' : gmap N eslot) : Prop := ∀ (Sp : gmap N (ipc_space T)) O n, ObjInv Sp O G n → ObjInv Sp O G' n.

Section ReceiveEnd.
Context (Sp : gmap N (ipc_space T)) (E : gmap N ipc_entry) (O : gmap N kobject) (M : gmap N ipc_marequest).
Context (B : gmap N (list N)) (Th : gmap N ipc_thread) (Km : gmap N ipc_kmsg) (Ts : N) (Ca : list call) (Cc : gmap N C).
Context (G : gmap N eslot) (n : naked) (ea sp name : N) (c : cap) (p : ipc_port).
#[local] Abbreviation K := (Kernel Sp E O M B Th Km Ts Ca Cc).
#[local] Abbreviation pa := (c_obj c).
Context (Hinv : Inv K G n) (Hg : G !! ea = Some (Slot sp name (Used c))) (Hr : is_recv (c_type c) = true).
Context (Hp : O !! pa = Some (KPort p)) (Hact : ip_active p = true).

(** The port is dead, or in transit to its backup. *)
Definition ended (pa : N) G' n K' : Prop :=
  ∃ n', Inv K' G' n' ∧ same_spaces Sp (k_spaces K') ∧ spares_rights n n' pa ∧
  ∃ q, k_objects K' !! pa = Some (KPort q) ∧
    (ip_active q = false ∧ nk_recv (n' pa) = 0 ∨
     ip_pdrequest p ≠ IP_NULL ∧ ip_active q = true ∧ ip_receiver_name q = MACH_PORT_NULL ∧ ip_destination q = ip_pdrequest p ∧
     nk_recv (n' pa) = 1).

Lemma ended_calls (a : N) G' n0 K' Ca' : ended a G' n0 K' → ended a G' n0 (set_k_calls Ca' K').
Proof. intros (n' & HK' & Hrest). exists n'. split; [by apply inv_calls|by destruct K']. Qed.

Section Tail.
Context (st' : estate) (p0 : ipc_port) (sr : N) (ot : option dnrequests) (G' : gmap N eslot).
#[local] Abbreviation p1 := (set_ip_srights sr (set_ip_dnrequests ot p0)).
Context (Hsame : same_place p p0) (Hrefs : ip_references p0 = ip_references p) (Hsor : ip_sorights p0 = ip_sorights p).
Context (Hsr : sr + Nb (is_send (c_type c)) = ip_srights p) (Hvac : vacant st').
Context (Hdn : dn_ok (<[ea := Slot sp name st']> G) pa ot) (Hfol : follows (<[ea := Slot sp name st']> G) G').
Context (Hbackup : (sr = ip_srights p0 ∧ ot = ip_dnrequests p0 ∧ (ip_pdrequest p ≠ IP_NULL → spare_ref K (ip_pdrequest p))) ∨
  (ip_pdrequest p = IP_NULL ∧ notifies (ip_dnrequests p0))).

Lemma end_port_addr : obj_addr pa ∧ port_ok Sp O G n pa p.
Proof. by destruct (oi_objects _ _ _ _ (inv_objs _ _ _ Hinv) _ _ Hp) as (? & _ & ?). Qed.

Lemma obj_end O' : cleared (<[pa := KPort p0]> O) pa p0 O' →
  ∃ ct l, O' !! pa = Some (KPort (clear_port ct l p0)) ∧ cleared O pa p (<[pa := KPort (clear_port ct l p)]> O') ∧
    ObjInv Sp (<[pa := KPort (limbo_port (clear_port ct l p1))]> O') G' (upd_naked n pa (add_right TRecv (n pa))).
Proof.
  intros Hcl. destruct end_port_addr as [Haddr Hport]. pose proof (po_pos _ _ _ _ _ _ Hport). pose proof (space_zero _ _ _ Hinv) as Hz.
  assert (pa ≠ 0) as Hpa0 by apply Haddr. pose proof (inv_objs _ _ _ Hinv) as Hobj. ksimpl_all.
  destruct (cleared_after O pa p p0 O' Hp (sm_pset _ _ Hsame) Hcl) as (ct & l & Hpa & Hclp).
  destruct (cleared_after (<[pa := KPort p1]> O) pa p1 p0 O') as (ct' & l' & Hpa' & Hcl1);
    [apply lookup_insert_eq|done|by rewrite insert_insert_eq|]. assert (clear_port ct l p0 = clear_port ct' l' p0) as [<- <-]%clear_port_inj by congruence.
  exists ct, l. split_and!; [done|done|]. apply Hfol.
  destruct (obj_take_receive Sp O (<[pa := KPort (clear_port ct l p1)]> O') G n ea sp name c st' p p1) as (ct2 & l2 & Hpa2 & Hobj2); try done.
  - by destruct Hsame.
  - change (ip_references p1) with (ip_references p0). lia.
  - change (ip_references p1) with (ip_references p0). rewrite on_vacant by done. lia.
  - change (ip_srights p1) with sr. rewrite on_vacant by done. lia.
  - by apply vacant_only.
  - by apply on_vacant.
  - by apply on_vacant.
  - intros c' ->. destruct Hvac as [Ht' Hwf']. auto.
  - rewrite lookup_insert_eq in Hpa2. assert (clear_port ct l p1 = clear_port ct2 l2 p1) as [<- <-]%clear_port_inj by congruence.
    by rewrite insert_insert_eq in Hobj2.
Qed.

Lemma receive_end_spec Sp1 E1 M' B' Ca1 Cc1 Q :
  same_spaces Sp Sp1 → EntInv Sp1 E1 G' → mar_ok Sp1 G' M' B' → (∀ i, i < 6 → is_Some (Cc1 !! i)) →
  (∀ K', ended pa G' n K' → Q tt K') →
  wp (ipc_port_clear_receiver pa;; ipc_port_destroy pa) Q (Kernel Sp1 E1 (<[pa := KPort p0]> O) M' B' Th Km Ts Ca1 Cc1).
Proof.
  intros HSp Hent1 Hmar1 Hcc1 HQ. destruct end_port_addr as [Haddr Hport]. pose proof (inv_objs _ _ _ Hinv) as Hobj.
  pose proof (inv_queues _ _ _ Hinv) as Hq. ksimpl_all. pose proof (same_place_active _ _ Hsame) as Hact0.
  kstep. eapply (ipc_port_clear_receiver_spec _ pa p0); ksimpl; [by rewrite lookup_insert_eq|congruence|intros a o; by eapply queues_update| |done|].
  { intros Hps. rewrite (sm_pset _ _ Hsame) in Hps |- *. destruct (in_pset_ok _ _ _ _ _ _ Hobj Hp Hps) as (s & Hs & ?).
    exists s. rewrite lookup_insert_ne; [done|congruence]. }
  intros O' Th' Ca' Cc' Hcl Hq' Hcc'. ksimpl. destruct (obj_end O' Hcl) as (ct & l & Hpa & Hclp & Hobj').
  set (n1 := upd_naked n pa (add_right TRecv (n pa))) in *. set (p2 := clear_port ct l p0) in *.
  assert (nk_recv (n1 pa) = 1 ∧ nk_kern (n1 pa) = 0) as [Hr1 Hk1].
  { unfold n1. rewrite upd_naked_eq. cbn. pose proof (po_recv _ _ _ _ _ _ Hport) as Hre. rewrite Hact in Hre. cbn [Nb] in Hre.
    assert (0 < n_recv G pa). { apply (count_pos _ _ _ _ Hg). unfold holds. simpl. by rewrite N.eqb_refl, Hr. }
    destruct (po_naked_recv _ _ _ _ _ _ Hport) as [? _]. lia. }
  assert (Inv (Kernel Sp1 E1 (<[pa := KPort (limbo_port (set_ip_srights sr (set_ip_dnrequests ot p2)))]> O') M' B' Th' Km Ts Ca' Cc') G' n1) as Hlim.
  { split; ksimpl; [done|done|by apply (obj_inv_spaces Sp)|done|].
    eapply queues_same; [done|exact Hpa| |done|done|done]. unfold limbo_port. by rewrite payload_clear_active. }
  assert (∀ K', destroyed Sp1 E1 G' n1 pa p2 K' → Q tt K') as Hfin.
  { intros K' (n' & HK' & HSp' & _ & Hspare & q & Hq2 & Hcase). apply HQ. exists n'. split_and!; [done|by rewrite HSp'| |].
    - eapply spares_trans; [|exact Hspare]. intros b. unfold n1. destruct (decide (b = pa)) as [->|Hne];
        [rewrite upd_naked_eq|rewrite upd_naked_ne by done; by split_and!]. cbn. split_and!; [lia|lia|done].
    - exists q. split; [done|]. change (ip_pdrequest p2) with (ip_pdrequest p0) in Hcase. by rewrite (sm_pd _ _ Hsame) in Hcase. }
  destruct Hbackup as [(-> & -> & Hspare)|[Hpd Hnot]].
  - assert (set_ip_srights (ip_srights p0) (set_ip_dnrequests (ip_dnrequests p0) p2) = p2) as Hown by exact (same_counts p2).
    rewrite Hown in Hlim. eapply (ipc_port_destroy_spec _ G' n1 pa p2); ksimpl; try done; [exact (eq_trans Hact0 Hact)|].
    change (ip_pdrequest p2) with (ip_pdrequest p0). rewrite (sm_pd _ _ Hsame). intros Hpd d Hd. ksimpl_all.
    destruct (decide (ip_pdrequest p = pa)) as [Heq|Hne].
    + rewrite Heq in *. rewrite Hpa in Hd. injection Hd as <-. change (ip_references p2) with (ip_references p0). rewrite Hrefs.
      by apply (Hspare Hpd).
    + apply (Hspare Hpd). ksimpl. eapply (cleared_port O _ pa p); [exact Hclp|done|]. by rewrite lookup_insert_ne.
  - eapply (ipc_port_destroy_dead_spec _ G' n1 pa p2 sr ot); ksimpl; try done; [exact (eq_trans Hact0 Hact)|].
    exact (eq_trans (sm_pd _ _ Hsame) Hpd).
Qed.
End Tail.

(** The request of an entry is dropped from the table. *)
Lemma dn_ok_dropped ot st' :
  name ≠ 0 → dn_ok G pa ot → req_on pa st' = 0 → ∃ ot', dn_ok (<[ea := Slot sp name st']> G) pa ot'.
Proof.
  intros Hn Hdn Hst. destruct (decide (req_on pa (Used c) = 0)) as [H0|H0].
  - exists ot. by eapply dn_ok_keep; [| |left].
  - destruct ot as [t|].
    + destruct (dn_ok_cancel G ea sp name pa (Used c) st' Hg t) as (r & _ & _ & Hdn'); try done. by eexists.
    + rewrite dn_ok_iff in Hdn. by destruct (H0 (Hdn _ _ Hg)).
Qed.

Context (e : ipc_entry) (He : E !! ea = Some e) (Hrep : entry_rep e (Slot sp name (Used c))) (Hwf : cap_wf c).

(** A msg-accepted request of the entry is cancelled. *)
Definition no_ma (c : cap) : cap := Cap (c_type c) (c_obj c) (c_urefs c) (c_req c) false.

Lemma no_ma_wf : cap_wf (no_ma c).
Proof. unfold cap_wf in *. cbn. by destruct (c_type c). Qed.

Lemma cancel_accepted_spec st' Q :
  ma_of st' = false →
  (∀ M' B', mar_ok Sp (<[ea := Slot sp name st']> G) M' B' →
     Q (cap_bits (no_ma c)) (Kernel Sp E O M' B' Th Km Ts Ca Cc)) →
  wp (if has (cap_bits c) IE_BITS_MAREQUEST then
        ipc_marequest_cancel sp name;; mret (N.ldiff (cap_bits c) IE_BITS_MAREQUEST)
      else mret (cap_bits c)) Q K.
Proof.
  intros Hst HQ. pose proof Hinv as [_ Hent _ Hmar _]. ksimpl_all.
  destruct (ei_slots _ _ _ Hent _ _ Hg) as [_ [Hn0 _] Hspa _]. cbn [sl_name sl_space] in *.
  pose proof (ent_sole _ _ _ _ _ _ _ Hent Hg) as Hsole. rewrite cap_has_marequest by done. destruct (c_ma c) eqn:Hma.
  - kstep. eapply (ipc_marequest_cancel_spec _ G ea sp name (Used c) st'); try done. intros M' B' Hmar'. ksteps.
    replace (N.ldiff (cap_bits c) IE_BITS_MAREQUEST) with (cap_bits (no_ma c)); [by apply HQ|].
    unfold cap_bits. rewrite Hma. symmetry. change IE_BITS_MAREQUEST with (2 ^ 16 * 32). rewrite ldiff_high by by apply cap_urefs_lt.
    unfold no_ma. cbn [c_type c_urefs c_ma]. by destruct (c_type c).
  - kstep. replace (cap_bits c) with (cap_bits (no_ma c)) by (unfold cap_bits; by rewrite Hma). apply HQ.
    eapply mar_ok_update; [done|done|]. simpl. by rewrite Hma.
Qed.

Lemma follows_freed G1 G2 : freed G1 ea sp name G2 → G1 !! ea = Some (Slot sp name Held) → follows G1 G2.
Proof. intros Hf Hg1 Sp' O' n'. by apply (obj_inv_freed G1 ea sp name). Qed.

Lemma end_received : received_at p sp name.
Proof.
  pose proof (oi_caps _ _ _ _ (inv_objs _ _ _ Hinv) _ _ _ _ Hg) as Hc.
  destruct (cap_ok_port_of _ _ _ _ Hc) as (q & Hq & Hat); [by destruct (c_type c)..|]. ksimpl_all. rewrite Hp in Hq. injection Hq as <-. auto.
Qed.

(** The entry lets go of its port and is given up. *)
Lemma vacate_entry_spec {A} M' B' (k : N → Prelude.M (kernel T C) A) Q :
  mar_ok Sp (<[ea := Slot sp name Held]> G) M' B' →
  (∀ r ot Sp1 E1 Cc1 G', dn_ok (<[ea := Slot sp name Held]> G) pa ot → EntInv Sp1 E1 G' → freed G ea sp name G' →
     follows (<[ea := Slot sp name Held]> G) G' → same_spaces Sp Sp1 → (∀ i, i < 6 → is_Some (Cc1 !! i)) → mar_ok Sp1 G' M' B' →
     wp (k r) Q (Kernel Sp1 E1 (<[pa := KPort (set_ip_dnrequests ot p)]> O) M' B' Th Km Ts Ca Cc1)) →
  wp (dn ← ipc_right_dncancel_macro sp pa name ea;
      upd_entry ea (set_ie_object IO_NULL);; ipc_entry_dealloc sp name ea;; k dn) Q (Kernel Sp E O M' B' Th Km Ts Ca Cc).
Proof.
  intros Hmar' HQ. pose proof Hrep as (Hn & Hb & Ho & Hq). cbn [sl_state sl_name] in *.
  pose proof Hinv as [Hcc Hent Hobj Hmar _]. ksimpl_all. destruct end_port_addr as [Haddr Hport].
  destruct (ei_slots _ _ _ Hent _ _ Hg) as [_ [Hn0 _] _ _]. cbn [sl_name] in *.
  kstep. eapply (dncancel_spec _ G ea sp name c Held p e); try done; [by apply Hport|].
  intros r ot e' Hdn Hn' Hb' Ho' Hr'. ksteps. rewrite insert_insert_eq.
  eapply (ipc_entry_dealloc_spec _ (<[ea := Slot sp name Held]> G)); ksimpl; [|done|apply lookup_insert_eq|apply lookup_insert_eq|done|exact Hr'|].
  - eapply ent_update_same; try done; [split; [cbn; congruence|done]|]. simpl. by destruct (c_type c).
  - intros Sp1 E1 Cc1 G1 Hent1 Hf HSp Hcc1. ksimpl. eapply HQ; try done; [by eapply freed_insert|apply follows_freed; [done|apply lookup_insert_eq]|].
    eapply mar_ok_freed; [apply lookup_insert_eq|done|]. eapply mar_ok_spaces; [apply HSp|done].
Qed.

Lemma delta_receive_only Q :
  c_type c = TRecv → (ip_pdrequest p ≠ IP_NULL → spare_ref K (ip_pdrequest p)) →
  (∀ K' G', freed G ea sp name G' → ended pa G' n K' → Q KERN_SUCCESS K') →
  wp (delta_receive sp name ea (-1)) Q K.
Proof.
  intros Ht Hspare HQ. pose proof Hrep as (Hn & Hb & Ho & Hq). cbn [sl_state sl_name] in *. destruct end_port_addr as [Haddr Hport].
  destruct end_received as (_ & Hrs & Hrn). assert (pa ≠ 0) as Hpa0 by apply Haddr. pose proof no_ma_wf as Hwf'.
  assert (c_urefs c = 0) as Hu by (unfold cap_wf in Hwf; rewrite Ht in Hwf; tauto).
  unfold delta_receive. ksteps. rewrite Hb, cap_has_receive, Hr by done. change (-1 =? 0)%Z with false. change (-1 =? -1)%Z with true.
  cbn [negb]. cbv iota. kstep. apply (cancel_accepted_spec Held); [done|]. intros M' B' Hmar'. rewrite Ho. change IP_NULL with 0. keqb. ksteps.
  keqb. ksteps. rewrite cap_has_send, cap_type, cap_urefs by done. cbn [no_ma c_type c_urefs]. rewrite Ht, Hu.
  cbn [is_send]. cbv iota. change (2 ^ 16 * type_code TRecv =? MACH_PORT_TYPE_RECEIVE) with true. do 4 kstep.
  apply vacate_entry_spec; [done|]. intros r ot Sp1 E1 Cc1 G1 Hdn Hent1 Hf Hfol HSp Hcc1 Hmar1. kstep.
  apply wp_seq. eapply (receive_end_spec Held (set_ip_dnrequests ot p) (ip_srights p) ot G1); try done.
  - rewrite Ht. apply N.add_0_r.
  - left. by split_and!.
  - intros K' Hend. kstep. apply notify_port_deleted_spec. intros Ca'. ksteps. by apply (HQ _ G1 Hf), ended_calls.
Qed.

(** A send right that stays behind turns into a dead name; the port dies without
    having been told. *)
Lemma delta_receive_both Q :
  c_type c = TSendRecv → ip_pdrequest p = IP_NULL →
  (∀ K', ended pa (<[ea := Slot sp name (Used (dead_cap c))]> G) n K' → Q KERN_SUCCESS K') →
  wp (delta_receive sp name ea (-1)) Q K.
Proof.
  intros Ht Hpd HQ. pose proof Hrep as (Hn & Hb & Ho & Hq). cbn [sl_state sl_name] in *. destruct end_port_addr as [Haddr Hport].
  destruct end_received as (_ & Hrs & Hrn). assert (pa ≠ 0) as Hpa0 by apply Haddr. pose proof no_ma_wf as Hwf'.
  assert (0 < c_urefs c < MACH_PORT_UREFS_MAX) as Hu by (unfold cap_wf in Hwf; rewrite Ht in Hwf; lia).
  pose proof Hinv as [Hcc Hent Hobj Hmar _]. ksimpl_all.
  destruct (ei_slots _ _ _ Hent _ _ Hg) as [_ [Hn0 _] _ _]. cbn [sl_name] in *.
  assert (0 < ip_srights p) as Hs0 by (eapply send_counted; [done|done|exact Hg|done|by rewrite Ht]).
  assert (cap_wf (dead_cap c)) as Hdead.
  { unfold cap_wf, dead_cap, MACH_PORT_UREFS_MAX in *. cbn [c_type c_obj c_urefs c_req c_ma]. destruct (c_req c =? 0); cbn [negb Nb]; split_and!; lia. }
  unfold delta_receive. ksteps. rewrite Hb, cap_has_receive, Hr by done. change (-1 =? 0)%Z with false. change (-1 =? -1)%Z with true.
  cbn [negb]. cbv iota. kstep. apply (cancel_accepted_spec (Used (dead_cap c))); [done|]. intros M' B' Hmar'. rewrite Ho. change IP_NULL with 0. keqb. ksteps.
  keqb. ksteps. rewrite cap_has_send, cap_type, cap_urefs by done. cbn [no_ma c_type c_urefs]. rewrite Ht.
  cbn [is_send]. cbv iota. change (2 ^ 16 * type_code TSendRecv =? MACH_PORT_TYPE_SEND_RECEIVE) with true.
  rewrite (proj2 (N.eqb_neq (c_urefs c) 0)), (proj2 (N.ltb_lt (c_urefs c) _)), (proj2 (N.eqb_neq (ip_srights p) 0)) by lia. ksteps.
  replace (N.lor _ _) with (bits_of (c_urefs c) 16).
  2: { unfold cap_bits, no_ma. cbn [c_type c_urefs c_ma]. rewrite Ht. symmetry. by apply (dead_bits (c_urefs c) 3), cap_urefs_lt. }
  assert (∀ Q', (∀ e1, ie_name e1 = name → ie_request e1 = 0 →
      Q' (cap_bits (dead_cap c)) (Kernel Sp (<[ea := e1]> E) O M' B' Th Km Ts Ca Cc)) →
    wp (if negb (ie_request e =? 0) then upd_entry ea (set_ie_request 0);; mret (incr (bits_of (c_urefs c) 16))
        else mret (bits_of (c_urefs c) 16)) Q' (Kernel Sp E O M' B' Th Km Ts Ca Cc)) as Hbits.
  { intros Q' HQ'. rewrite Hq. unfold cap_bits, dead_cap in HQ'. cbn [c_type c_urefs c_ma type_code ma_code] in HQ'.
    destruct (N.eqb_spec (c_req c) 0) as [Hr0|Hr0]; cbn [negb Nb] in *.
    - kstep. rewrite <- (insert_id E ea e) by done. rewrite N.add_0_r in HQ'. apply HQ'; [done|congruence].
    - ksteps. unfold MACH_PORT_UREFS_MAX in Hu. rewrite incr_bits by lia. apply HQ'; [done|by apply set_ie_request_read]. }
  apply Hbits. clear Hbits. intros e1 Hn1 Hr1. do 5 kstep. rewrite !insert_insert_eq.
  destruct (dn_ok_dropped (ip_dnrequests p) (Used (dead_cap c))) as [ot Hdn]; [done|by apply Hport| |].
  { unfold req_on. cbn [dead_cap c_obj c_req]. by destruct (0 =? pa). }
  rewrite <- (insert_id O pa (KPort p)) by done.
  apply wp_seq. eapply (receive_end_spec (Used (dead_cap c)) p (ip_srights p - 1) ot); try done.
  - rewrite Ht. cbn [Nb is_send]. lia.
  - by intros ???.
  - right. split; [done|]. by eapply port_notifies.
  - eapply ent_update_same; try done. simpl. by rewrite Ht.
Qed.
End ReceiveEnd.

(** What [delta_receive] makes of a capability, [None] if it stays. *)
Definition receive_cap (delta : Z) (c : cap) : kern_return_t * option (option cap) :=
  if negb (is_recv (c_type c)) then (KERN_INVALID_RIGHT, None)
  else if (delta =? 0)%Z then (KERN_SUCCESS, None)
  else if negb (delta =? -1)%Z then (KERN_INVALID_VALUE, None)
  else (KERN_SUCCESS, Some (if is_send (c_type c) then Some (dead_cap c) else None)).

(** The end of the capability and of its receive right. *)
Definition receive_ended K G n (ea sp name : N) (c : cap) (oc : option cap) K' : Prop :=
  ∃ G' p, becomes G ea sp name oc G' ∧ k_objects K !! c_obj c = Some (KPort p) ∧ ended (k_spaces K) p (c_obj c) G' n K'.

Definition receive_post K G n (ea sp name : N) (c : cap) (delta : Z) (kr : kern_return_t) K' : Prop :=
  let '(kr', r) := receive_cap delta c in
  kr = kr' ∧ match r with None => K' = K | Some oc => receive_ended K G n ea sp name c oc K' end.

(** The backup of a port can take a reference. *)
Definition backup_ok K (c : cap) : Prop :=
  ∀ p, k_objects K !! c_obj c = Some (KPort p) → ip_pdrequest p ≠ IP_NULL → spare_ref K (ip_pdrequest p).
(** A port with a backup does not die, so that a send right must not turn into a
    dead name. *)
Definition lone_receive K (c : cap) : Prop :=
  ∀ p, c_type c = TSendRecv → k_objects K !! c_obj c = Some (KPort p) → ip_pdrequest p = IP_NULL.

Lemma delta_receive_spec K G n ea sp name c delta :
  Inv K G n → G !! ea = Some (Slot sp name (Used c)) → backup_ok K c → lone_receive K c →
  wp (delta_receive sp name ea delta) (receive_post K G n ea sp name c delta) K.
Proof.
  intros Hinv Hg Hback Hlone. pose proof (oi_caps _ _ _ _ (inv_objs _ _ _ Hinv) _ _ _ _ Hg) as Hcap. pose proof Hcap as [Hwf _].
  destruct (ei_slots _ _ _ (inv_ents _ _ _ Hinv) _ _ Hg) as [_ _ _ (e & He & Hrep)]. pose proof Hrep as (_ & Hb & _). cbn [sl_state] in Hb.
  destruct K as [Sp E O M B Th Km Ts Ca Cc]. ksimpl_all.
  assert (∀ kr, receive_cap delta c = (kr, None) → receive_post (Kernel Sp E O M B Th Km Ts Ca Cc) G n ea sp name c delta kr (Kernel Sp E O M B Th Km Ts Ca Cc)) as Hsame.
  { intros kr Hc. unfold receive_post. by rewrite Hc. }
  destruct (is_recv (c_type c)) eqn:Hr.
  2: { unfold delta_receive. ksteps. rewrite Hb, cap_has_receive, Hr by done. ksteps. apply Hsame. unfold receive_cap. by rewrite Hr. }
  destruct (cap_ok_port_of _ _ _ _ Hcap) as (p & Hp & Hat); [by destruct (c_type c)..|]. destruct (Hat Hr) as (Hact & _ & _).
  destruct (Z.eqb_spec delta 0) as [->|H0].
  { unfold delta_receive. ksteps. rewrite Hb, cap_has_receive, Hr by done. ksteps. apply Hsame. unfold receive_cap. by rewrite Hr. }
  destruct (Z.eqb_spec delta (-1)) as [->|H1].
  2: { unfold delta_receive. ksteps. rewrite Hb, cap_has_receive, Hr by done. rewrite (proj2 (Z.eqb_neq _ _) H0), (proj2 (Z.eqb_neq _ _) H1).
       ksteps. apply Hsame. unfold receive_cap. by rewrite Hr, (proj2 (Z.eqb_neq _ _) H0), (proj2 (Z.eqb_neq _ _) H1). }
  destruct (c_type c) eqn:Ht; try done.
  - eapply delta_receive_only; try done; [by rewrite Ht|by apply Hback|]. intros K' G' Hf Hend. unfold receive_post, receive_cap. rewrite Ht. cbn.
    split; [done|]. by exists G', p.
  - eapply delta_receive_both; try done; [by rewrite Ht|by apply Hlone|]. intros K' Hend. unfold receive_post, receive_cap. rewrite Ht. cbn.
    split; [done|]. by exists (<[ea := Slot sp name (Used (dead_cap c))]> G), p.
Qed.
End End_.
