(* ===== verification/IpcDiscard.v ===== *)
(** [ipc_object_destroy]: the rights of a message that is not received are given
    up; a receive right takes its port along. *)

From S2P Require Import Prelude Kmem Rdxtree RdxtreeInv RdxtreeSpec RdxtreeMap IpcTypes IpcEntry IpcPort IpcMarequest IpcRight IpcObject IpcBits IpcInv IpcUpdate IpcDn IpcMar IpcStep IpcRelease IpcCheck IpcCircular IpcVacate IpcDealloc IpcDelta IpcCopyin IpcClear IpcReceive IpcCopyout IpcDestroy IpcEnd.

Open Scope N_scope.

Section Discard.
Context `{!Config} {T C : Type} `{!KeyMap T} `{!KmemCache C}.
Implicit Types (K : kernel T C) (G : gmap N eslot) (n : naked).

Section Rights.
Context (Sp : gmap N (ipc_space T)) (E : gmap N ipc_entry) (O : gmap N kobject) (M : gmap N ipc_marequest).
Context (B : gmap N (list N)) (Th : gmap N ipc_thread) (Km : gmap N ipc_kmsg) (Ts : N) (Ca : list call) (Cc : gmap N C).
Context (G : gmap N eslot) (n : naked) (pa : N) (p : ipc_port).
#[local] Abbreviation K := (Kernel Sp E O M B Th Km Ts Ca Cc).
Context (Hinv : Inv K G n) (Hp : O !! pa = Some (KPort p)).

(** ** A send right *)

Lemma ipc_port_release_send_spec Q :
  0 < nk_send (n pa) →
  (∀ K', Inv K' G (upd_naked n pa (sub_right TSend (n pa))) → k_spaces K' = Sp → k_entries K' = E → Q tt K') →
  wp (ipc_port_release_send pa) Q K.
Proof.
  intros Hhas HQ. pose proof Hinv as [Hcc Hent Hobj Hmar Hq]. ksimpl_all.
  destruct (oi_objects _ _ _ _ Hobj _ _ Hp) as (Haddr & _ & Hport). pose proof (po_pos _ _ _ _ _ _ Hport) as Hpos.
  pose proof (po_refs _ _ _ _ _ _ Hport) as Hrefs. pose proof (po_naked _ _ _ _ _ _ Hport) as Hnk. pose proof (po_pd _ _ _ _ _ _ Hport) as Hpd.
  assert (∀ p' Ca', ip_references p ≠ 1 → same_place p p' → ip_references p' = ip_references p - 1 →
    (ip_active p = true → ip_srights p' + 1 = ip_srights p) → ip_sorights p' = ip_sorights p → ip_dnrequests p' = ip_dnrequests p →
    Inv (Kernel Sp E (<[pa := KPort p']> O) M B Th Km Ts Ca' Cc) G (upd_naked n pa (sub_right TSend (n pa)))) as Hkeep.
  { intros p' Ca' H1 Hsame Hr Hs Hso Hdn. eapply inv_naked_step; try done. pose proof (po_sonce _ _ _ _ _ _ Hport). unfold sub_right.
    eapply (port_ok_naked Sp O G n pa p); cbn [nk_refs nk_send nk_sonce nk_recv nk_pd nk_kern Nb is_send is_sonce is_recv]; try done;
      rewrite ?Hdn, ?Hr, ?Hso; try apply Haddr; try apply Hport; try lia. intros Ha. specialize (Hs Ha). lia. }
  unfold ipc_port_release_send. rewrite obj_valid by done. ksteps. change (ip_active (ip_release p)) with (ip_active p).
  destruct (ip_active p) eqn:Hact; cbn [negb].
  - pose proof (po_send _ _ _ _ _ _ Hport Hact) as Hsr. pose proof (po_recv _ _ _ _ _ _ Hport) as Hre. rewrite Hact in Hre. cbn [Nb] in Hre.
    assert (n_send G pa ≤ n_caps G pa ∧ n_recv G pa ≤ n_caps G pa) as [Hle1 Hle2].
    { split; apply count_mono; intros i s _; unfold holds; destruct (sl_state s); try done; by intros [-> _]%andb_true_iff. }
    change (ip_srights (ip_release p)) with (ip_srights p). rewrite (proj2 (N.eqb_neq (ip_srights p) 0)) by lia. ksteps.
    eapply drop_send_right_spec; ksimpl; [apply lookup_insert_eq|change (ip_srights (ip_release p)) with (ip_srights p); lia|].
    intros ns nsr. rewrite insert_insert_eq. apply notify_no_senders_spec. intros Ca'. apply HQ; try done.
    apply Hkeep; try done; psimpl; lia.
  - eapply port_check_unlock_spec; ksimpl; [apply lookup_insert_eq|apply Hport|done| |];
      change (ip_references (ip_release p)) with (decr (ip_references p)); rewrite decr_pred by done.
    + intros H1. apply HQ; try done. apply Hkeep; try done; psimpl; lia.
    + intros H1 Cc' Hcc'. rewrite delete_insert_eq. apply HQ; try done. split; ksimpl; [done|done| |done|].
      * eapply obj_frame_delete; try done; [|lia..|apply Hobj|apply Hobj]. unfold nk_rights, sub_right. cbn. lia.
      * eapply queues_delete; [done|done|done|]. destruct (decide (ip_pset p = IPS_NULL)) as [|Hps]; [done|].
        destruct (po_pset _ _ _ _ _ _ Hport Hps). congruence.
Qed.

(** ** A receive right *)

(** A port in transit leaves for limbo; the reference to its destination stays
    until it is released. *)
Lemma inv_limbo :
  ip_active p = true → nk_recv (n pa) = 1 → ip_receiver_name p = MACH_PORT_NULL →
  Inv (Kernel Sp E (<[pa := KPort (limbo_port p)]> O) M B Th Km Ts Ca Cc) G n.
Proof.
  intros Hact Hrecv Hname. pose proof (space_zero _ _ _ Hinv) as Hz. pose proof Hinv as [Hcc Hent Hobj Hmar Hq]. ksimpl_all.
  destruct (oi_objects _ _ _ _ Hobj _ _ Hp) as (Haddr & _ & Hport).
  assert (links_le p (limbo_port p)) as Hlinks.
  { split; [|done|done]. intros o Ho. unfold dest_is. change (ip_destination (limbo_port p)) with IP_NULL.
    rewrite (proj2 (N.eqb_neq IP_NULL o)), andb_false_r by done. done. }
  split; ksimpl; [done|done| |done|by eapply queues_same; try done; rewrite Hact; apply limbo_port_active].
  apply (naked_ext Sp _ G (upd_naked n pa (n pa))); [intros a; symmetry; apply upd_naked_id|].
  pose proof (po_recv _ _ _ _ _ _ Hport) as Hre0. rewrite Hact in Hre0. cbn [Nb] in Hre0.
  apply (obj_update_port Sp O G n pa p); [done|done|done|intros sp name Hn0; lia|].
  destruct (links_le_counts O pa p Hp _ pa Hlinks) as (Hd & Hpd & _); [apply Haddr|].
  assert (∀ x, is_port O x → is_port (<[pa := KPort (limbo_port p)]> O) x) as Hports.
  { intros x [q Hx]. destruct (decide (x = pa)) as [->|]; eexists; [by rewrite lookup_insert_eq|by rewrite lookup_insert_ne]. }
  destruct Hport as [Ht Hr Hpos Hnk Hnpd Hse Hso Hsoa Hre Hnr Hlimbo Hpdr Hpset Hdn].
  split; rewrite ?upd_naked_eq, ?(limbo_port_active p Hact); try done; try lia.
  - unfold limbo_port. by rewrite payload_clear_otype.
  - intros _. by apply Hse.
  - intros _. by apply Hsoa.
  - split; [apply Hnr|]. intros _. split; [exact Hz|done].
  - intros _ _. by destruct (Hlimbo Hact Hname) as (? & ? & ? & _ & ?).
  - intros Hpd0. apply Hports. by apply Hpdr.
  - change (ip_pset (limbo_port p)) with (ip_pset p). intros Hps. destruct (Hpset Hps) as (_ & s & Hs). split; [done|]. exists s. rewrite lookup_insert_ne; [done|congruence].
  - intros _. by apply Hdn.
Qed.

Lemma ipc_port_release_receive_spec Q :
  has_right n pa TRecv → (ip_pdrequest p ≠ IP_NULL → spare_ref K (ip_pdrequest p)) →
  (∀ K', ended Sp p pa G n K' → k_entries K' = E → Q tt K') →
  wp (ipc_port_release_receive pa) Q K.
Proof.
  intros Hhas Hspare HQ. destruct (oi_objects _ _ _ _ (inv_objs _ _ _ Hinv) _ _ Hp) as (Haddr & _ & Hport). ksimpl_all.
  pose proof (limbo_name _ _ _ _ _ _ Hport Hhas) as Hname. destruct Hhas as (_ & _ & Hr). cbn in Hr.
  pose proof (po_recv _ _ _ _ _ _ Hport) as Hre. assert (ip_active p = true ∧ nk_recv (n pa) = 1 ∧ nk_kern (n pa) = 0) as (Hact & Hn1 & Hn2).
  { destruct (ip_active p); cbn [Nb] in Hre; split_and!; lia. }
  unfold ipc_port_release_receive. rewrite obj_valid by done. ksteps. ksteps. rewrite Hname. ksteps.
  eapply (ipc_port_destroy_spec _ G n pa p); try done; [by apply inv_limbo|]. intros K' (n' & HK' & HSp & HE & Hsp & Hq).
  apply wp_when_later. intros Ca'. apply HQ; [|by destruct K'; ksimpl_all]. apply ended_calls. exists n'. split_and!; [done|rewrite HSp; done|done|done].
Qed.
End Rights.

(** ** Any right *)

(** The rights outside of entries afterwards.  The send-once right is that of the
    notification. *)
Definition discarded n (pa : N) (t : ctype) n' : Prop :=
  match t with
  | TSend => n' = upd_naked n pa (sub_right TSend (n pa))
  | TSonce => n' = n
  | _ => spares_rights n n' pa ∧ nk_kern (n' pa) ≤ nk_recv (n' pa)
  end.

Lemma ipc_object_destroy_spec K G n pa p t :
  Inv K G n → k_objects K !! pa = Some (KPort p) → t ∈ [TSonce; TSend; TRecv] → has_right n pa t → (∀ o, spare_ref K o) →
  wp (ipc_object_destroy pa (right_type t))
    (λ _ K', same_spaces (k_spaces K) (k_spaces K') ∧ ∃ n', Inv K' G n' ∧ discarded n pa t n') K.
Proof.
  destruct K as [Sp E O M B Th Km Ts Ca Cc]. ksimpl. intros Hinv Hp Ht Hhas Hspare.
  destruct (oi_objects _ _ _ _ (inv_objs _ _ _ Hinv) _ _ Hp) as (Haddr & _ & Hport).
  unfold ipc_object_destroy. rewrite obj_valid by done. ksteps. rewrite (po_otype _ _ _ _ _ _ Hport). ksteps.
  rewrite !elem_of_cons, elem_of_nil in Ht. destruct Ht as [->|[->|[->|[]]]]; cbn [right_type discarded].
  - change (MACH_MSG_TYPE_PORT_SEND_ONCE =? MACH_MSG_TYPE_PORT_SEND) with false.
    change (MACH_MSG_TYPE_PORT_SEND_ONCE =? MACH_MSG_TYPE_PORT_SEND_ONCE) with true. ksteps.
    split; [done|]. exists n. split; [by apply (inv_calls (Kernel _ _ _ _ _ _ _ _ Ca _))|done].
  - change (MACH_MSG_TYPE_PORT_SEND =? MACH_MSG_TYPE_PORT_SEND) with true. ksteps.
    eapply ipc_port_release_send_spec; try done; [destruct Hhas as (Hs & _ & _); cbn in Hs; lia|].
    intros K' HK' HSp _. split; [unfold k_spaces in HSp; by rewrite HSp|]. by eexists.
  - change (MACH_MSG_TYPE_PORT_RECEIVE =? MACH_MSG_TYPE_PORT_SEND) with false.
    change (MACH_MSG_TYPE_PORT_RECEIVE =? MACH_MSG_TYPE_PORT_SEND_ONCE) with false.
    change (MACH_MSG_TYPE_PORT_RECEIVE =? MACH_MSG_TYPE_PORT_RECEIVE) with true. ksteps.
    eapply ipc_port_release_receive_spec; try done. intros K' (n' & HK' & HSp & Hsp & q & Hq & _) _. split; [done|]. exists n'. split_and!; [done|done|].
    destruct (oi_objects _ _ _ _ (inv_objs _ _ _ HK') _ _ Hq) as (_ & _ & Hport'). apply (po_naked_recv _ _ _ _ _ _ Hport').
Qed.
End Discard.
