(* ===== verification/IpcPset.v ===== *)
(** Port sets: the end of one ([ipc_pset_destroy]). *)

From S2P Require Import Prelude Kmem Rdxtree RdxtreeInv RdxtreeSpec RdxtreeMap IpcTypes IpcEntry IpcPort IpcMarequest IpcRight IpcBits IpcInv IpcUpdate IpcDn IpcMar IpcStep IpcRelease IpcCheck IpcVacate IpcDealloc IpcDelta IpcCopyin IpcClear IpcReceive IpcCopyout IpcDestroy IpcEnd.

Open Scope N_scope.

Lemma count_pset_eq P (O O' : gmap N kobject) :
  (∀ s, P (KPset s) = false) → (∀ b q, O' !! b = Some (KPort q) ↔ O !! b = Some (KPort q)) → count P O' = count P O.
Proof.
  intros HP HO. apply N.le_antisymm; apply count_sub; intros i [q|s] Hi HPi; try (by rewrite HP in HPi); exists (KPort q); split; try done; by apply HO.
Qed.

Section Pset.
Context `{!Config} {T C : Type} `{!KeyMap T} `{!KmemCache C}.
Implicit Types (K : kernel T C) (O : gmap N kobject) (G : gmap N eslot) (n : naked).

(** ** The objects *)

Section Objects.
Context (Sp : gmap N (ipc_space T)) (O O' : gmap N kobject) (G : gmap N eslot) (n : naked) (ea sp name : N) (c : cap) (s s' : ipc_pset).
#[local] Abbreviation ps := (c_obj c).
Context (Hinv : ObjInv Sp O G n) (Hg : G !! ea = Some (Slot sp name (Used c))) (Ht : c_type c = TPset).
Context (Hs : O !! ps = Some (KPset s)) (Hother : ∀ b, b ≠ ps → O' !! b = O !! b).
Context (Hs' : O' !! ps = if pset_refs s =? 1 then None else Some (KPset s')).
Context (Hot : io_otype (ipt_object (ips_target s')) = io_otype (ipt_object (ips_target s))).
Context (Hrefs : pset_refs s' = pset_refs s - 1) (Hdead : ips_active s' = false).

Lemma pset_ports b q : O' !! b = Some (KPort q) ↔ O !! b = Some (KPort q).
Proof.
  destruct (decide (b = ps)) as [->|Hb]; [|by rewrite Hother]. rewrite Hs, Hs'. by destruct (pset_refs s =? 1).
Qed.

Lemma pset_only eb sp0 name0 c0 : G !! eb = Some (Slot sp0 name0 (Used c0)) → c_obj c0 = ps → eb = ea.
Proof.
  intros Hb Hc. destruct (decide (eb = ea)) as [|Hne]; [done|]. destruct (oi_objects _ _ _ _ Hinv _ _ Hs) as (_ & _ & [_ _ _ Hcaps]).
  assert (2 ≤ n_caps G ps).
  { apply (count_two _ _ _ _ _ _ Hb Hg Hne); unfold holds; simpl; by rewrite ?Hc, N.eqb_refl. }
  destruct (ips_active s); cbn [Nb] in Hcaps; lia.
Qed.

Lemma obj_pset_end : ObjInv Sp O' (<[ea := Slot sp name Held]> G) n.
Proof.
  destruct (oi_objects _ _ _ _ Hinv _ _ Hs) as (Haddr & HSps & Hok). pose proof Hok as [Hty Hr Hpos Hcaps].
  assert (ps ≠ 0) as Hps0 by apply Haddr. assert (only ps (Used c)) as Honly by by left.
  assert (n_caps (<[ea := Slot sp name Held]> G) ps = 0 ∧ n_caps G ps = 1) as [Hc0 Hc1].
  { pose proof (n_update (λ _, true) G ea sp name (Used c) Held ps Hg) as Hc. rewrite on_used in Hc. unfold n_caps in *. cbn in Hc.
    destruct (ips_active s); cbn [Nb] in Hcaps; lia. }
  assert (∀ P, (∀ x, P (KPset x) = false) → count P O' = count P O) as Hcount.
  { intros P HP. apply (count_pset_eq P O O' HP). apply pset_ports. }
  assert (∀ x, is_port O x → is_port O' x) as Hports by (intros x [q Hq]; exists q; by apply pset_ports).
  split.
  - intros eb sp0 name0 c0 [[<- [=]]|[Hne Hb]]%lookup_insert_Some. apply (cap_ok_objects O); [by apply (oi_caps _ _ _ _ Hinv eb)| | |].
    + intros x Hx. rewrite Hother; [done|]. intros Heq. by apply Hne, eq_sym, (pset_only _ _ _ _ Hb).
    + intros q Hq _ Hat. exists q. by rewrite pset_ports.
    + intros q Hq _. exists q. by apply pset_ports.
  - eapply uniq_update; [apply Hinv|done|done].
  - intros b o Ho. destruct (decide (b = ps)) as [->|Hb].
    + rewrite Hs' in Ho. destruct (N.eqb_spec (pset_refs s) 1) as [|Hr1]; [done|]. injection Ho as <-. split_and!; [done|done|].
      unfold pset_refs in *. split; rewrite ?Hot, ?Hrefs, ?Hdead; try done; [|lia].
      rewrite Hc0. unfold n_member. rewrite Hcount by done. unfold n_member in Hr. lia.
    + rewrite Hother in Ho by done. destruct (oi_objects _ _ _ _ Hinv _ _ Ho) as (Hbaddr & HSb & Hobj). split_and!; [done|done|].
      assert (b ≠ 0) as Hb0 by apply Hbaddr. destruct o as [q|x].
      * apply (port_ok_frame_pset Sp O O' G _ n n b q); auto.
        -- intros P. by apply (count_other G ea sp name (Used c) Held ps).
        -- intros t. by apply (dn_ok_other G ea sp name Held ps).
        -- unfold n_dest. by rewrite Hcount.
        -- unfold n_pd. by rewrite Hcount.
        -- intros Hq x Hx. destruct (decide (ip_pset q = ps)) as [Heq|]; [|exists x; by rewrite Hother].
           rewrite Heq. rewrite Hs'. destruct (N.eqb_spec (pset_refs s) 1) as [Hr1|]; [|by eexists]. exfalso.
           assert (0 < n_member O ps); [|unfold pset_refs in Hr1; lia]. apply (count_pos _ _ _ _ Ho). simpl. by apply N.eqb_eq.
      * destruct Hobj as [? Hrx ? Hcx]. split; [done| |done|]; unfold n_caps in *;
          rewrite (count_other G ea sp name (Used c) Held ps) by done; [|done]. unfold n_member. rewrite Hcount by done. exact Hrx.
  - intros o Ho. by apply Hports, Hinv.
  - eapply acyclic_less; [|apply Hinv]. intros a. left. unfold next_port. destruct (O !! a) as [[q|x]|] eqn:Ea.
    + by rewrite (proj2 (pset_ports a q) Ea).
    + destruct (O' !! a) as [[q|]|] eqn:Ea'; try done. apply pset_ports in Ea'. congruence.
    + destruct (O' !! a) as [[q|]|] eqn:Ea'; try done. apply pset_ports in Ea'. congruence.
Qed.
End Objects.

(** ** The end of a port set *)

Definition dead_pset (s : ipc_pset) : ipc_pset :=
  IPset (upd_object io_release (no_threads (upd_object (λ o, set_io_bits (N.ldiff (io_bits o) IO_BITS_ACTIVE) o) (ips_target s)))).

Lemma dead_pset_active s : ips_active (dead_pset s) = false.
Proof.
  unfold ips_active. rewrite io_active_testbit. cbn. change IO_BITS_ACTIVE with (2 ^ 31).
  rewrite N.ldiff_spec, N.pow2_bits_true. by rewrite andb_false_r.
Qed.
Lemma dead_pset_otype s : io_otype (ipt_object (ips_target (dead_pset s))) = io_otype (ipt_object (ips_target s)).
Proof. unfold io_otype. f_equal. by apply (land_ldiff_disjoint (io_bits (ipt_object (ips_target s)))). Qed.

Lemma queues_pset_end O O' Th Th' Km ps s s' :
  queues O Th Km → O !! ps = Some (KPset s) → threads_kept Th Th' → (∀ b, b ≠ ps → O' !! b = O !! b) →
  O' !! ps = None ∨ O' !! ps = Some (KPset s') →
  ipt_messages (ips_target s') = set_imq_threads [] (ipt_messages (ips_target s)) → queues O' Th' Km.
Proof.
  intros Hq Hs HTh Hother Hps Hms.
  assert (∀ b q, O !! b = Some (KPort q) → O' !! b = Some (KPort q)) as Hports by (intros b q Hb; rewrite Hother; congruence).
  intros a o Ho. destruct (decide (a = ps)) as [->|Hne].
  - destruct Hps as [Hps|Hps]; rewrite Hps in Ho; [done|]. injection Ho as <-.
    destruct (Hq _ _ Hs) as [_ Hmsg Hnd _ _]. split; cbn [kobj_target] in *; rewrite ?Hms; cbn; [by intros th ?%elem_of_nil| |done|by right|done].
    intros k Hk. destruct (Hmsg k Hk) as (m & q & Hm & Hqp & Hof). exists m, q. auto.
  - rewrite Hother in Ho by done. destruct (queue_ok_threads _ _ _ _ _ _ HTh (Hq _ _ Ho)) as [Hth Hmsg Hnd Hone Hport]. split; [done| |done|done|done].
    intros k Hk. destruct (Hmsg k Hk) as (m & q & Hm & Hqp & Hof). exists m, q. auto.
Qed.

Lemma ipc_pset_destroy_spec K ps s Q :
  k_objects K !! ps = Some (KPset s) → ips_active s = true → io_otype (ipt_object (ips_target s)) = IOT_PORT_SET →
  0 < pset_refs s < 2 ^ 32 → queues (k_objects K) (k_threads K) (k_kmsgs K) → (∀ i, i < 6 → is_Some (k_caches K !! i)) →
  (∀ O' Th' Ca' Cc', (∀ b, b ≠ ps → O' !! b = k_objects K !! b) →
     O' !! ps = (if pset_refs s =? 1 then None else Some (KPset (dead_pset s))) → queues O' Th' (k_kmsgs K) →
     (∀ i, i < 6 → is_Some (Cc' !! i)) →
     Q tt (set_k_caches Cc' (set_k_calls Ca' (set_k_threads Th' (set_k_objects O' K))))) →
  wp (ipc_pset_destroy ps) Q K.
Proof.
  destruct K as [Sp E O M B Th Km Ts Ca Cc]. ksimpl. intros Hs Hact Ht Hr Hq Hcc HQ. unfold ipc_pset_destroy. ksteps.
  eapply ipc_mqueue_changed_spec; ksimpl; [apply lookup_insert_eq|by apply (Hq _ _ Hs)|]. intros Th' Ca' HTh. cbn [kobj_upd_target ips_target].
  ksteps. rewrite !insert_insert_eq. fold (dead_pset s).
  assert (pset_refs (dead_pset s) = pset_refs s - 1) as Hdec by by apply decr_pred.
  assert (∀ O' Cc', (∀ b, b ≠ ps → O' !! b = O !! b) →
    O' !! ps = (if pset_refs s =? 1 then None else Some (KPset (dead_pset s))) → (∀ i, i < 6 → is_Some (Cc' !! i)) →
    Q tt (Kernel Sp E O' M B Th' Km Ts Ca' Cc')) as Hfin.
  { intros O' Cc' Hother Hps Hcc'. apply HQ; try done. apply (queues_pset_end O O' Th Th' Km ps s (dead_pset s)); try done. rewrite Hps. destruct (pset_refs s =? 1); auto. }
  eapply (pset_check_unlock_spec _ ps (dead_pset s)); ksimpl; [apply lookup_insert_eq|by rewrite dead_pset_otype|done| |].
  - rewrite Hdec. intros H1. apply Hfin; [intros b Hb; by apply lookup_insert_ne| |done].
    rewrite lookup_insert_eq, (proj2 (N.eqb_neq _ 1)) by lia. done.
  - rewrite Hdec. intros H1 Cc' Hcc'. rewrite delete_insert_eq. apply Hfin; [intros b Hb; by apply lookup_delete_ne| |done].
    rewrite lookup_delete_eq, (proj2 (N.eqb_eq _ 1)) by lia. done.
Qed.

(** The entry of a port set is given up, and the set with it. *)
Lemma pset_entry_end_spec K G n ea sp name c Q :
  Inv K G n → G !! ea = Some (Slot sp name (Used c)) → c_type c = TPset →
  (∀ K' G', Inv K' G' n → freed G ea sp name G' → same_spaces (k_spaces K) (k_spaces K') → Q KERN_SUCCESS K') →
  wp (upd_entry ea (set_ie_object IO_NULL);;
      ipc_entry_dealloc sp name ea;;
      ps ← load_pset (c_obj c);
      check (ips_active ps);;
      ipc_pset_destroy (c_obj c);;
      mret KERN_SUCCESS) Q K.
Proof.
  intros Hinv Hg Ht HQ. pose proof Hinv as [Hcc Hent Hobj Hmar Hq].
  destruct (ei_slots _ _ _ Hent _ _ Hg) as [_ _ _ (e & He & Hn & Hb & Ho & Hr)]. cbn [sl_state sl_name] in *.
  destruct (oi_caps _ _ _ _ Hobj _ _ _ _ Hg) as [Hwf Hcap]. rewrite Ht in Hcap. destruct Hcap as (s & Hs & Hact & _).
  unfold cap_wf in Hwf. rewrite Ht in Hwf. destruct Hwf as (_ & Hu & Hreq & Hma).
  destruct (oi_objects _ _ _ _ Hobj _ _ Hs) as (_ & _ & [Hty _ Hpos _]).
  destruct K as [Sp E O M B Th Km Ts Ca Cc]. ksimpl_all. ksteps.
  eapply (ipc_entry_dealloc_spec _ (<[ea := Slot sp name Held]> G)); ksimpl;
    [|done|apply lookup_insert_eq|apply lookup_insert_eq|done|exact (eq_trans Hr Hreq)|].
  { eapply ent_update_same; try done. simpl. by rewrite Ht. }
  intros Sp1 E1 Cc1 G1 Hent1 Hf HSp Hcc1. ksteps. eapply ipc_pset_destroy_spec; ksimpl; try done.
  intros O' Th' Ca' Cc' Hother Hps Hq' Hcc'. ksteps. apply (HQ _ G1); [|by eapply freed_insert|done].
  assert (mar_ok Sp (<[ea := Slot sp name Held]> G) M B) as Hmar1 by (eapply mar_ok_update; [done|done|simpl; by rewrite Hma]).
  split; ksimpl; [done|done| |eapply mar_ok_freed; [apply lookup_insert_eq|done|by eapply mar_ok_spaces; [apply HSp|]]|done].
  eapply obj_inv_freed; [apply lookup_insert_eq|done|]. apply (obj_inv_spaces Sp); [done|].
  eapply (obj_pset_end Sp O O' G n ea sp name c s (dead_pset s)); try done; [apply dead_pset_otype|by apply decr_pred|apply dead_pset_active].
Qed.

Lemma delta_port_set_spec K G n ea sp name c delta :
  Inv K G n → G !! ea = Some (Slot sp name (Used c)) →
  wp (delta_port_set sp name ea delta) (λ kr K',
    if negb (bool_decide (c_type c = TPset)) then kr = KERN_INVALID_RIGHT ∧ K' = K
    else if (delta =? 0)%Z then kr = KERN_SUCCESS ∧ K' = K
    else if negb (delta =? -1)%Z then kr = KERN_INVALID_VALUE ∧ K' = K
    else kr = KERN_SUCCESS ∧ same_spaces (k_spaces K) (k_spaces K') ∧ ∃ G', freed G ea sp name G' ∧ Inv K' G' n) K.
Proof.
  intros Hinv Hg. destruct (ei_slots _ _ _ (inv_ents _ _ _ Hinv) _ _ Hg) as [_ _ _ (e & He & _ & Hb & Ho & Hr)]. cbn [sl_state] in *.
  destruct (oi_caps _ _ _ _ (inv_objs _ _ _ Hinv) _ _ _ _ Hg) as [Hwf _].
  unfold delta_port_set. do 2 kstep. rewrite Hb, cap_has_port_set by done. destruct (decide (c_type c = TPset)) as [Ht|Ht].
  2: { rewrite bool_decide_eq_false_2 by done. cbn [negb]. by kstep. }
  rewrite bool_decide_eq_true_2 by done. cbn [negb]. pose proof Hwf as Hwf'. unfold cap_wf in Hwf'. rewrite Ht in Hwf'.
  destruct Hwf' as (Ho0 & Hu & Hreq & Hma). rewrite cap_type, cap_urefs, cap_has_marequest by done. rewrite Ht, Hu, Hma, Hr, Hreq, Ho.
  change (2 ^ 16 * type_code TPset =? MACH_PORT_TYPE_PORT_SET) with true. ksteps.
  destruct (delta =? 0)%Z; [by kstep|]. destruct (delta =? -1)%Z; cbn [negb]; [|by kstep]. change IPS_NULL with 0. keqb. do 2 kstep.
  eapply pset_entry_end_spec; try done. intros K' G' HK' Hf HSp. split_and!; [done|done|]. by exists G'.
Qed.
End Pset.
