(* ===== verification/IpcAlloc.v ===== *)
(** Allocation of entries: [ipc_entry_alloc]. *)

From S2P Require Import Prelude Kmem Rdxtree RdxtreeInv RdxtreeSpec RdxtreeMap IpcTypes IpcEntry IpcPort IpcMarequest IpcBits IpcInv IpcUpdate IpcDn IpcMar IpcStep IpcRelease IpcVacate IpcCopyout.

Open Scope N_scope.

Section Alloc.
Context `{!Config} {T C : Type} `{!KeyMap T} `{!KmemCache C}.
Implicit Types (K : kernel T C) (E : gmap N ipc_entry) (O : gmap N kobject) (G : gmap N eslot) (n : naked).
Implicit Types (Sp : gmap N (ipc_space T)).

(** ** An entry of the free list *)

(** A free entry whose successor is another one. *)
Definition relinked E E' G (sp x : N) : Prop :=
  ∃ e e' name, E !! x = Some e ∧ E' !! x = Some e' ∧ ie_name e' = ie_name e ∧ ie_bits e' = ie_bits e ∧ ie_object e' = ie_object e ∧
    G !! x = Some (Slot sp name Free).

Section Take.
Context Sp E E' G (ea sp name : N) (S S' : ipc_space T) (e' : ipc_entry).
Context (Hinv : EntInv Sp E G) (Hg : G !! ea = Some (Slot sp name Free)) (HS : Sp !! sp = Some S).
Context (Hact : is_active S = true) (He' : E' !! ea = Some e') (Hn : ie_name e' = name).
Context (Hrest : ∀ x, x ≠ ea → E' !! x = E !! x ∨ relinked E E' G sp x).
Context (HA : is_active S' = is_active S) (HM : is_map S' = is_map S) (HR : is_reverse_map S' = is_reverse_map S).
Context (HF : free_ok E' (<[ea := Slot sp name Held]> G) sp (is_free_list S') (is_free_list_size S')).
Context (HZ : is_size S' = u64 (is_size S + 1)).

Lemma free_ok_other sp0 f len : sp0 ≠ sp → free_ok E G sp0 f len → free_ok E' (<[ea := Slot sp name Held]> G) sp0 f len.
Proof.
  intros Hne (l & Hl & Hnd & Hlen & Hle & Hin). assert (ea ∉ l) as Hea by (intros [nm Hx]%Hin; congruence).
  exists l. split_and!; try done.
  - eapply free_chain_ext; [|exact Hl]. intros x Hx. destruct (Hrest x) as [?|(? & ? & nm & _ & _ & _ & _ & _ & Hx')]; [congruence|done|].
    apply Hin in Hx as [nm' Hx]. congruence.
  - intros x. rewrite Hin. destruct (decide (x = ea)) as [->|Hx]; [|by rewrite lookup_insert_ne].
    rewrite lookup_insert_eq, Hg. split; intros [nm Hx]; congruence.
Qed.

Lemma ent_take : EntInv (<[sp := S']> Sp) E' (<[ea := Slot sp name Held]> G).
Proof.
  destruct Hinv as [Hz Hslots Hspaces]. assert (∀ x, active_space (<[sp := S']> Sp) x ↔ active_space Sp x) as Hspace by (intros x; by eapply active_space_insert). split.
  - destruct Hz as (Hz & Hz0 & Hza & Hze). assert (zero_entry ≠ ea) as Hzea by congruence. unfold zero_ok. rewrite lookup_insert_ne by done.
    destruct (Hrest zero_entry Hzea) as [->|(? & ? & ? & _ & _ & _ & _ & _ & ?)]; [done|congruence].
  - intros a s Ha. apply (slot_ok_spaces Sp); [intros ?; by apply Hspace|]. destruct (decide (a = ea)) as [->|Hne].
    + rewrite lookup_insert_eq in Ha. injection Ha as <-. destruct (Hslots _ _ Hg) as [? ? ? _]. split; [done|done|done|]. by exists e'.
    + rewrite lookup_insert_ne in Ha by done. destruct (Hslots _ _ Ha) as [? ? ? (e0 & He0 & Hrep)]. split; try done.
      destruct (Hrest a Hne) as [->|(e1 & e2 & nm & He1 & He2 & Hn2 & Hb2 & Ho2 & Hx)]; [by exists e0|].
      assert (e1 = e0) as -> by congruence. assert (s = Slot sp nm Free) as -> by congruence. exists e2. split; [done|].
      unfold entry_rep in *. cbn in *. by rewrite Hn2, Hb2, Ho2.
  - intros a S0 Ha HS0. destruct (decide (a = sp)) as [->|Hne].
    + rewrite lookup_insert_eq in Ha. injection Ha as <-. destruct (Hspaces _ _ HS Hact) as [? Hm Hr Hf Hsz].
      split; [done| | |done|rewrite HZ; by eapply size_ok_take].
      * rewrite HM. by eapply map_ok_update.
      * rewrite HR. by eapply rev_ok_update.
    + rewrite lookup_insert_ne in Ha by done. destruct (Hspaces _ _ Ha HS0) as [? Hm Hr Hf Hsz].
      split; [done|by eapply map_ok_update|by eapply rev_ok_update|by apply free_ok_other|by eapply size_ok_update].
Qed.
End Take.

(** The entry is the first one of the list. *)
Lemma free_ok_pop E G (ea sp name : N) (e e' : ipc_entry) len :
  E !! ea = Some e → G !! ea = Some (Slot sp name Free) → free_ok E G sp ea len →
  free_ok (<[ea := e']> E) (<[ea := Slot sp name Held]> G) sp (ie_next_free e) (len - 1).
Proof.
  intros He Hg (l & Hl & Hnd & Hlen & Hle & Hin). destruct l as [|x l].
  { assert (ea ∈ []) as []%elem_of_nil by (apply Hin; eauto). }
  destruct Hl as (Hx & e0 & He0 & Hl). subst x. rewrite He in He0. injection He0 as <-.
  apply list.NoDup_cons in Hnd as [Hea Hnd]. exists l. split_and!; try done.
  - eapply free_chain_ext; [|exact Hl]. intros x' Hx'. apply lookup_insert_ne. by intros ->.
  - simpl in Hlen. lia.
  - lia.
  - intros x. destruct (decide (x = ea)) as [->|Hxe].
    + rewrite lookup_insert_eq. split; [done|]. intros [nm ?]. congruence.
    + rewrite lookup_insert_ne, <- Hin, elem_of_cons by done. tauto.
Qed.

(** ** A new entry *)

Section Add.
Context Sp E G (ea sp name : N) (S S' : ipc_space T) (e' : ipc_entry).
Context (Hinv : EntInv Sp E G) (Hnew : E !! ea = None) (HS : Sp !! sp = Some S) (Hact : is_active S = true).
Context (Hea : ea ≠ 0 ∧ aligned ea) (Hn : name ≠ 0 ∧ name < MACH_PORT_NAME_DEAD) (Hn' : ie_name e' = name).
#[local] Abbreviation G' := (<[ea := Slot sp name Held]> G).

Lemma new_slot : G !! ea = None.
Proof using Hinv Hnew.
  destruct (G !! ea) as [s|] eqn:Hs; [|done]. destruct (ei_slots _ _ _ Hinv _ _ Hs) as [_ _ _ (e & He & _)]. congruence.
Qed.

Lemma free_ok_new sp0 f len : free_ok E G sp0 f len → free_ok (<[ea := e']> E) G' sp0 f len.
Proof.
  pose proof new_slot as Hg. intros (l & Hl & Hnd & Hlen & Hle & Hin).
  assert (ea ∉ l) as Hl' by (intros [nm Hx]%Hin; congruence). exists l. split_and!; try done.
  - eapply free_chain_ext; [|exact Hl]. intros x Hx. apply lookup_insert_ne. by intros ->.
  - intros x. rewrite Hin. destruct (decide (x = ea)) as [->|Hx]; [|by rewrite lookup_insert_ne].
    rewrite lookup_insert_eq, Hg. split; intros [nm Hx]; congruence.
Qed.

Lemma rev_ok_new sp0 t : rev_ok G sp0 t → rev_ok G' sp0 t.
Proof.
  pose proof new_slot as Hg. apply rev_ok_ext. intros eb pa. split.
  - intros (s & [[<- <-]|[Hne Hs]]%lookup_insert_Some & Hsp & Hp); [done|]. by exists s.
  - intros (s & Hs & Hsp & Hp). exists s. rewrite lookup_insert_ne; [done|]. congruence.
Qed.

Lemma map_ok_new_ne sp0 t : sp0 ≠ sp → map_ok G sp0 t → map_ok G' sp0 t.
Proof.
  pose proof new_slot as Hg. intros Hne (m & Hm & H0 & Hmap). exists m. split_and!; [done|done|]. intros k a Hk. rewrite Hmap by done.
  destruct (decide (a = ea)) as [->|Ha]; [|by rewrite lookup_insert_ne].
  rewrite lookup_insert_eq, Hg. split; intros [st Hx]; congruence.
Qed.

Lemma map_ok_new t m t' :
  km_rep t m → m !! 0 = Some zero_entry → (∀ k a, k ≠ 0 → m !! k = Some a ↔ ∃ st, G !! a = Some (Slot sp k st)) →
  m !! name = None → km_rep t' (<[name := ea]> m) → map_ok G' sp t'.
Proof.
  pose proof new_slot as Hg. intros Hm H0 Hmap Hno Hm'. exists (<[name := ea]> m). destruct Hn as [Hn0 _].
  split_and!; [done|by rewrite lookup_insert_ne|]. intros k a Hk. rewrite lookup_insert_Some, Hmap by done. split.
  - intros [[<- <-]|[Hkn [st Hst]]]; [exists Held; by rewrite lookup_insert_eq|]. exists st. rewrite lookup_insert_ne; [done|congruence].
  - intros [st [[<- [= <- _]]|[Hae Hst]]%lookup_insert_Some]; [by left|]. right. split; [|by eauto]. intros <-.
    assert (m !! name = Some a) by (apply Hmap; eauto). congruence.
Qed.

Lemma ent_add :
  is_active S' = is_active S → map_ok G' sp (is_map S') → is_reverse_map S' = is_reverse_map S →
  is_free_list S' = is_free_list S → is_free_list_size S' = is_free_list_size S → is_size S' = u64 (is_size S + 1) →
  EntInv (<[sp := S']> Sp) (<[ea := e']> E) G'.
Proof.
  intros HA HM HR HF HL HZ. pose proof new_slot as Hg. destruct Hinv as [Hz Hslots Hspaces].
  assert (∀ x, active_space (<[sp := S']> Sp) x ↔ active_space Sp x) as Hspace by (intros x; by eapply active_space_insert). split.
  - destruct Hz as (Hz & Hz0 & Hza & e0 & Hze & ?). assert (zero_entry ≠ ea) by congruence. unfold zero_ok.
    rewrite !lookup_insert_ne by done. split_and!; try done. by exists e0.
  - intros a s Ha. apply (slot_ok_spaces Sp); [intros ?; by apply Hspace|]. destruct (decide (a = ea)) as [->|Hne].
    + rewrite lookup_insert_eq in Ha. injection Ha as <-. split; [done|done|by exists S|]. exists e'. by rewrite lookup_insert_eq.
    + rewrite lookup_insert_ne in Ha by done. destruct (Hslots _ _ Ha). split; try done. by rewrite lookup_insert_ne.
  - intros a S0 Ha HS0. destruct (decide (a = sp)) as [->|Hne].
    + rewrite lookup_insert_eq in Ha. injection Ha as <-. destruct (Hspaces _ _ HS Hact) as [? Hm Hr Hf Hsz].
      split; [done|done| | |]; [rewrite HR; by apply rev_ok_new|rewrite HF, HL; by apply free_ok_new|].
      pose proof (size_ok_new G ea sp name Held sp _ Hg ltac:(done) Hsz) as Hnew'. by rewrite N.eqb_refl, <- HZ in Hnew'.
    + rewrite lookup_insert_ne in Ha by done. destruct (Hspaces _ _ Ha HS0) as [? Hm Hr Hf Hsz].
      split; [done|by apply map_ok_new_ne|by apply rev_ok_new|by apply free_ok_new|].
      pose proof (size_ok_new G ea sp name Held a _ Hg ltac:(done) Hsz) as Hnew'. by rewrite (proj2 (N.eqb_neq a sp)) in Hnew'.
Qed.

Lemma obj_new O n : ObjInv Sp O G n → ObjInv Sp O G' n.
Proof using Hinv Hnew.
  clear Hn' Hn Hea. pose proof new_slot as Hg. intros [Hcaps Hu Hobjs Hnk Hac].
  assert (∀ eb s, G' !! eb = Some s → sl_state s ≠ Held → G !! eb = Some s) as Hback.
  { intros eb s [[<- <-]|[Hne Hb]]%lookup_insert_Some Hs; [by destruct Hs|done]. }
  assert (∀ P o, count (holds P o) G' = count (holds P o) G) as Hcount.
  { intros P o. rewrite count_fresh by done. simpl. lia. }
  split; [..|done|done].
  - intros eb sp0 name0 c Hb. eapply Hcaps. by apply Hback.
  - intros x y s s' o Hx Hy Hsp Hs Hs'. assert (∀ st, named st = Some o → st ≠ Held) as Hused by (by intros [| |c] ?).
    eapply (Hu x y s s' o); auto.
  - intros a o Ho. destruct (Hobjs a o Ho) as (? & ? & Hok). split_and!; [done|done|]. destruct o as [p|ps].
    + eapply (port_ok_frame Sp O O G); try done. intros [t|]; simpl.
      * intros (Ht & Hs & Hi). split_and!; [done| |].
        -- intros eb s c Hb Hc. apply (Hs eb s c); [|done]. apply Hback; [done|congruence].
        -- intros eb eb' s s' c c' Hb Hb' Hc Hc'. apply (Hi eb eb' s s' c c'); try done; apply Hback; done || congruence.
      * intros Hs eb s c Hb Hc. apply (Hs eb s c); [|done]. apply Hback; [done|congruence].
    + destruct Hok as [? Hr ? Hc]. split; [done| |done|]; unfold n_caps in *; by rewrite Hcount.
Qed.

Lemma mar_new M B : mar_ok Sp G M B → mar_ok Sp G' M B.
Proof using Hinv Hnew.
  clear Hn' Hn Hea. pose proof new_slot as Hg. apply mar_ok_table. intros sp0 name0. unfold waits_in. split.
  - intros (eb & s & [[<- <-]|[Hne Hb]]%lookup_insert_Some & Hs & Hnm & Hma); [done|]. by exists eb, s.
  - intros (eb & s & Hb & Hs & Hnm & Hma). exists eb, s. rewrite lookup_insert_ne; [done|congruence].
Qed.
End Add.

(** Only the representation of the names changes. *)
Lemma ent_map Sp E G sp S t :
  EntInv Sp E G → Sp !! sp = Some S → is_active S = true → map_ok G sp t → EntInv (<[sp := set_is_map t S]> Sp) E G.
Proof.
  intros [Hz Hslots Hspaces] HS Hact HM.
  assert (∀ x, active_space (<[sp := set_is_map t S]> Sp) x ↔ active_space Sp x) as Hspace by (intros x; by eapply active_space_insert).
  split; [done| |].
  - intros a s Ha. apply (slot_ok_spaces Sp); [intros ?; by apply Hspace|]. auto.
  - intros a S0 [[<- <-]|[Hne Ha]]%lookup_insert_Some HS0; [|auto]. destruct (Hspaces _ _ HS Hact). by split.
Qed.

(** ** [ipc_entry_alloc] *)

(** What allocation relies on: the cache hands out memory that is not in use,
    the tree of names was not emptied by hand, and there are names left. *)
Record can_alloc K (sp : N) : Prop := {
  ca_fresh c a c' : k_caches K !! ipc_entry_cache = Some c → kmem_cache_alloc c = (Some a, c') → k_entries K !! a = None;
  ca_safe S : k_spaces K !! sp = Some S → km_alloc_safe (is_map S);
  ca_names S v k t' : k_spaces K !! sp = Some S → km_insert_alloc v (is_map S) = Some ((ERR_SUCCESS, Some k), t') →
    k < MACH_PORT_NAME_DEAD;
}.

(** The name was free. *)
Definition was_free G (ea sp name : N) : Prop :=
  G !! ea = Some (Slot sp name Free) ∨ G !! ea = None ∧ ∀ eb st, G !! eb ≠ Some (Slot sp name st).

Definition same_reverse K K' : Prop :=
  ∀ sp S', k_spaces K' !! sp = Some S' → ∃ S, k_spaces K !! sp = Some S ∧ is_reverse_map S' = is_reverse_map S.

Definition alloc_post K G n (sp : N) (r : kern_return_t * option (N * N)) K' : Prop :=
  same_spaces (k_spaces K) (k_spaces K') ∧ k_objects K' = k_objects K ∧ same_reverse K K' ∧
  match r.2 with
  | None => r.1 ≠ KERN_SUCCESS ∧ Inv K' G n
  | Some (name, ea) =>
      r.1 = KERN_SUCCESS ∧ was_free G ea sp name ∧ Inv K' (<[ea := Slot sp name Held]> G) n ∧
      ∃ e, k_entries K' !! ea = Some e ∧ awaits e name 0
  end.

Lemma same_reverse_insert Sp sp S S' x X :
  Sp !! sp = Some S → is_reverse_map S' = is_reverse_map S → <[sp := S']> Sp !! x = Some X →
  ∃ Y, Sp !! x = Some Y ∧ is_reverse_map X = is_reverse_map Y.
Proof. intros HS HR [[<- <-]|[Hne HX]]%lookup_insert_Some; [by exists S|by exists X]. Qed.

(** The head of a free list that is not empty. *)
Lemma free_head E G sp S : space_ok E G sp S → is_free_list S ≠ 0 →
  ∃ name, G !! is_free_list S = Some (Slot sp name Free) ∧ 0 < is_free_list_size S ≤ IS_FREE_LIST_SIZE_LIMIT.
Proof.
  intros [_ _ _ (l & Hl & _ & Hlen & Hle & Hin)] H0. destruct l as [|x l]; [done|]. destruct Hl as [Hx _].
  destruct (proj1 (Hin x)) as [name Hname]; [by left|]. exists name. rewrite Hx. split; [done|]. simpl in Hlen. lia.
Qed.

Lemma ipc_entry_get_spec K G n sp S Q :
  Inv K G n → k_spaces K !! sp = Some S → is_active S = true →
  (is_free_list S = 0 → Q (KERN_NO_SPACE, None) K) →
  (∀ r K', alloc_post K G n sp r K' → r.1 = KERN_SUCCESS → Q r K') →
  wp (ipc_entry_get sp) Q K.
Proof.
  destruct K as [Sp E O M B Th Km Ts Ca Cc]. ksimpl. intros [Hcc Hent Hobj Hmar Hq] HS HSa Hnone Hsome. ksimpl_all.
  unfold ipc_entry_get. ksteps. change IE_NULL with 0. destruct (N.eqb_spec (is_free_list S) 0) as [H0|H0]; [ksteps; auto|].
  pose proof (ei_spaces _ _ _ Hent _ _ HS HSa) as Hsp. destruct (free_head _ _ _ _ Hsp H0) as (name & Hg & Hlen & Hlim).
  destruct (ei_slots _ _ _ Hent _ _ Hg) as [_ [Hn0 Hnd] _ (e & He & Hn & Hb & Ho)]. cbn [sl_name] in *.
  ksteps. rewrite Hb. ksteps. rewrite Hn. unfold MACH_PORT_NAME_VALID. keqb.
  rewrite (proj2 (N.eqb_neq name MACH_PORT_NAME_DEAD)) by lia. ksteps.
  rewrite !insert_insert_eq. eapply Hsome; [|done]. split_and!; [by eapply same_spaces_insert|done| |].
  { intros x X. ksimpl. by eapply same_reverse_insert. }
  cbn [fst snd]. split_and!; [done|by left| |].
  - assert (u64_sub (is_free_list_size S) 1 = is_free_list_size S - 1) as Hsub.
    { unfold u64_sub, u64, wrap, IS_FREE_LIST_SIZE_LIMIT in *. change (1 mod 2 ^ 64) with 1.
      replace (is_free_list_size S + (2 ^ 64 - 1)) with (is_free_list_size S - 1 + 1 * 2 ^ 64) by lia.
      rewrite N.Div0.mod_add. apply N.mod_small. lia. }
    split; ksimpl; [done| | | |done].
    + eapply (ent_take Sp E _ G (is_free_list S) sp name S _); [done|done|done|done|apply lookup_insert_eq|done| |done|done|done| |done].
      * intros x Hx. left. by apply lookup_insert_ne.
      * cbn [is_free_list is_free_list_size set_is_size set_is_free_list set_is_free_list_size]. rewrite Hsub. eapply (free_ok_pop E G _ _ _ e); [done|done|]. apply Hsp.
    + eapply obj_inv_spaces; [by eapply same_spaces_insert|]. by eapply (obj_vacant Sp O G n (is_free_list S) sp name Free).
    + eapply mar_ok_spaces; [intros x; by apply (active_space_insert Sp sp S)|]. by eapply mar_ok_update.
  - ksimpl. rewrite lookup_insert_eq. eexists. split; [done|]. split_and!; [done|done|done|].
    by rewrite set_ie_request_read.
Qed.

(** The cache of entries. *)
Lemma ie_alloc_spec K garbage Q :
  (∀ i, i < 6 → is_Some (k_caches K !! i)) →
  (∀ c a c', k_caches K !! ipc_entry_cache = Some c → kmem_cache_alloc c = (Some a, c') → k_entries K !! a = None) →
  (∀ Cc', (∀ i, i < 6 → is_Some (Cc' !! i)) → Q 0 (set_k_caches Cc' K)) →
  (∀ a Cc', (∀ i, i < 6 → is_Some (Cc' !! i)) → a ≠ 0 → aligned a → k_entries K !! a = None →
     Q a (set_k_entries (<[a := garbage]> (k_entries K)) (set_k_caches Cc' K))) →
  wp (ie_alloc garbage) Q K.
Proof.
  destruct K as [Sp E O M B Th Km Ts Ca Cc]. ksimpl. intros Hcc Hfresh Hnone Hsome. unfold ie_alloc, cache_alloc. ksteps.
  destruct (Hcc ipc_entry_cache ltac:(done)) as [c Hc]. eapply wp_deref; [done|]. cbv beta.
  assert (∀ c', ∀ i, i < 6 → is_Some (<[ipc_entry_cache := c']> Cc !! i)) as Hcc'.
  { intros c' i Hi. destruct (decide (i = ipc_entry_cache)) as [->|Hne]; [by rewrite lookup_insert_eq|]. rewrite lookup_insert_ne by done. auto. }
  destruct (kmem_cache_alloc c) as [[a|] c'] eqn:Ha; ksteps; cbn [default].
  - destruct (kmem_alloc_some c a c' Ha) as (_ & Ha0 & Hal & _). change IE_NULL with 0. keqb. ksteps.
    apply Hsome; [apply Hcc'|done| |by eapply Hfresh]. unfold aligned.
    transitivity (N.land (N.land a 7) 3); [by rewrite <- N.land_assoc|by rewrite Hal].
  - apply Hnone. apply Hcc'.
Qed.

Context (garbage : ipc_entry).

Lemma alloc_post_failed K G n sp kr K' :
  Inv K' G n → kr ≠ KERN_SUCCESS → k_spaces K' = k_spaces K → k_objects K' = k_objects K → alloc_post K G n sp (kr, None) K'.
Proof.
  intros HK' Hkr HSp HO. unfold alloc_post. cbn [fst snd]. rewrite HSp. split_and!; [done|done| |done|done].
  intros x X HX. rewrite HSp in HX. by exists X.
Qed.

(** The entry for a name that the tree picked. *)
Lemma alloc_post_new K G n sp S ea Cc' m k t' e' :
  Inv K G n → k_spaces K !! sp = Some S → is_active S = true → k_entries K !! ea = None → ea ≠ 0 → aligned ea →
  k < MACH_PORT_NAME_DEAD → km_rep (is_map S) m → m !! 0 = Some zero_entry →
  (∀ k a, k ≠ 0 → m !! k = Some a ↔ ∃ st, G !! a = Some (Slot sp k st)) →
  m !! k = None → km_rep t' (<[k := ea]> m) → awaits e' k 0 → (∀ i, i < 6 → is_Some (Cc' !! i)) → ∀ sz, sz = u64 (is_size S + 1) →
  alloc_post K G n sp (KERN_SUCCESS, Some (k, ea))
    (set_k_caches Cc' (set_k_entries (<[ea := e']> (k_entries K))
      (set_k_spaces (<[sp := set_is_size sz (set_is_map t' S)]> (k_spaces K)) K))).
Proof.
  destruct K as [Sp E O M B Th Km Ts Ca Cc]. intros [Hcc Hent Hobj Hmar Hq] HS HSa Hnew Hea0 Heal Hkd Hm H0 Hmap Hk Hm' Haw Hcc' sz Hsz. ksimpl_all.
  assert (k ≠ 0) as Hk0 by congruence. pose proof (new_slot _ _ _ _ Hent Hnew) as Hg.
  assert (same_spaces Sp (<[sp := set_is_size sz (set_is_map t' S)]> Sp)) as HSp by by eapply same_spaces_insert.
  split_and!; [done|done| |]; ksimpl.
  { intros x X. ksimpl. by eapply same_reverse_insert. }
  cbn [fst snd]. split_and!; [done| | |].
  - right. split; [done|]. intros eb st Heb. assert (m !! k = Some eb) by (apply Hmap; eauto). congruence.
  - split; ksimpl; [done| | | |done].
    + eapply (ent_add Sp E G ea sp k S); try done; [apply Haw|]. by eapply (map_ok_new Sp E G ea sp k) with (m := m) (t := is_map S).
    + eapply obj_inv_spaces; [done|]. by eapply (obj_new Sp E G ea sp k).
    + eapply mar_ok_spaces; [apply HSp|]. by eapply (mar_new Sp E G ea sp k).
  - exists e'. by rewrite lookup_insert_eq.
Qed.

Lemma ipc_entry_alloc_spec K G n sp S Q :
  Inv K G n → k_spaces K !! sp = Some S → can_alloc K sp →
  (∀ r K', alloc_post K G n sp r K' → Q r K') → wp (ipc_entry_alloc garbage sp) Q K.
Proof.
  intros Hinv HS [Hfresh Hsafe Hnames] HQ. pose proof Hinv as [Hcc Hent _ _ _]. unfold ipc_entry_alloc. ksteps.
  destruct (is_active S) eqn:HSa; cbn [negb]; [|kstep; apply HQ; by apply alloc_post_failed].
  destruct (ei_spaces _ _ _ Hent _ _ HS HSa) as [_ (m & Hm & H0 & Hmap) _ _]. kstep.
  eapply ipc_entry_get_spec; [done|done|done| |].
  2: { intros [kr r] K' Hpost Hkr. simpl in Hkr. subst kr. cbv beta iota.
       change (KERN_SUCCESS =? KERN_SUCCESS) with true. cbv iota. kstep. by apply HQ. }
  intros _. change (KERN_NO_SPACE =? KERN_SUCCESS) with false. cbv iota beta. kstep.
  destruct K as [Sp E O M B Th Km Ts Ca Cc]. ksimpl_all. eapply ie_alloc_spec; [done|by eauto| |].
  { intros Cc' Hcc'. ksteps. apply HQ. apply alloc_post_failed; try done. destruct Hinv; by split. }
  intros ea Cc' Hcc' Hea0 Heal Hnew. change IE_NULL with 0. keqb. kstep. ksimpl_all.
  apply (wp_on_map _ _ S); [done|]. pose proof (km_insert_alloc_law _ _ ea Hm (Hsafe _ HS) Heal Hea0) as Hlaw.
  apply wp_run in Hlaw as (r & t' & Hrun & Hres). apply wp_run. exists r, t'. split; [done|].
  destruct Hres as [(k & -> & Hk & Hk32 & Hm')|[-> Hm']].
  - ksteps. rewrite !insert_insert_eq. apply HQ.
    apply (alloc_post_new (Kernel Sp E O M B Th Km Ts Ca Cc) G n sp S ea Cc' m k t'); try done; [by eapply Hnames|].
    by split_and!; [..|apply set_ie_request_read].
  - unfold ie_free. ksteps. eapply cache_free_spec; [done|done|]. intros Cc2 Hcc2. ksteps. apply HQ.
    rewrite delete_insert_id by done.
    assert (same_spaces Sp (<[sp := set_is_map t' S]> Sp)) as HSp by by eapply same_spaces_insert.
    destruct Hinv as [_ _ Hobj Hmar Hq]. ksimpl_all. unfold alloc_post. cbn [fst snd]. ksimpl. split_and!; [done|done| |done|].
    + intros x X. ksimpl. by eapply same_reverse_insert.
    + split; ksimpl; [done| |by eapply obj_inv_spaces|by eapply mar_ok_spaces; [apply HSp|]|done].
      eapply (ent_map Sp E G sp S); try done. by exists m.
Qed.
End Alloc.
