(* ===== verification/IpcTransfer.v ===== *)
(** Transfer of rights between spaces: [ipc_object_copyin] takes a right out of
    a space by name, [ipc_object_copyout] puts it into one. *)

From S2P Require Import Prelude Kmem Rdxtree RdxtreeInv RdxtreeSpec RdxtreeMap IpcTypes IpcEntry IpcPort IpcMarequest IpcRight IpcObject IpcBits IpcInv IpcUpdate IpcDn IpcMar IpcStep IpcRelease IpcCheck IpcVacate IpcDealloc IpcDelta IpcCopyin IpcClear IpcReceive IpcCopyout IpcAlloc.

Open Scope N_scope.

Section Transfer.
Context `{!Config} {T C : Type} `{!KeyMap T} `{!KmemCache C}.
Implicit Types (K : kernel T C) (O : gmap N kobject) (G : gmap N eslot) (n : naked).

(** Between operations no entry is half in use. *)
Definition quiescent G : Prop := ∀ ea sp name, G !! ea ≠ Some (Slot sp name Held).

Lemma inv_caps_wf K G n : Inv K G n → ∀ ea sp name c, G !! ea = Some (Slot sp name (Used c)) → cap_wf c.
Proof. intros Hinv ea sp name c Hg. by apply (oi_caps _ _ _ _ (inv_objs _ _ _ Hinv) _ _ _ _ Hg). Qed.

Lemma ipc_right_lookup_write_spec K G n sp S name Q :
  Inv K G n → quiescent G → k_spaces K !! sp = Some S → is_active S = true → name < 2 ^ 32 →
  (no_cap G sp name → Q (KERN_INVALID_NAME, IE_NULL) K) →
  (∀ ea c, G !! ea = Some (Slot sp name (Used c)) → Q (KERN_SUCCESS, ea) K) →
  wp (ipc_right_lookup_write sp name) Q K.
Proof.
  intros Hinv Hqui HS HSa Hn Hnone Hsome. pose proof (inv_ents _ _ _ Hinv) as Hent.
  destruct (ei_spaces _ _ _ Hent _ _ HS HSa) as [Hsp0 _ _ _]. unfold ipc_right_lookup_write. keqb. ksteps. rewrite HSa.
  cbn [negb]. kstep. eapply ipc_entry_lookup_spec; [done|by eapply inv_caps_wf|by exists S|done|auto| |].
  - intros Hno. ksteps. by apply Hnone.
  - intros ea c Hg. destruct (ei_slots _ _ _ Hent _ _ Hg) as [[Hea0 _] _ _ _]. change IE_NULL with 0. keqb. ksteps. by apply (Hsome ea c).
Qed.

(** A port whose receiver is an active space. *)
Lemma receiver_entry K G n o p sp :
  Inv K G n → k_objects K !! o = Some (KPort p) → ip_active p = true → ip_receiver p = sp → active_space (k_spaces K) sp →
  ∃ ea c, G !! ea = Some (Slot sp (ip_receiver_name p) (Used c)) ∧ c_obj c = o ∧ is_recv (c_type c) = true.
Proof.
  intros Hinv Hp Hact Hr Hsp. destruct (oi_objects _ _ _ _ (inv_objs _ _ _ Hinv) _ _ Hp) as (_ & _ & Hport).
  pose proof (po_recv _ _ _ _ _ _ Hport) as Hre. rewrite Hact in Hre. cbn [Nb] in Hre.
  assert (nk_recv (n o) ≠ 1) as Hnr. { intros H1. apply (proj2 (po_naked_recv _ _ _ _ _ _ Hport) H1). by rewrite Hr. }
  destruct (count_some (holds is_recv o) G) as (ea & [sp' name' st] & Hg & Hh); [unfold n_recv in Hre; lia|].
  unfold holds in Hh. simpl in Hh. destruct st as [| |c]; try done. apply andb_true_iff in Hh as [Hc%N.eqb_eq Hrc].
  pose proof (oi_caps _ _ _ _ (inv_objs _ _ _ Hinv) _ _ _ _ Hg) as Hcap.
  destruct (cap_ok_port_of _ _ _ _ Hcap) as (q & Hq & Hat); [by destruct (c_type c)..|]. rewrite Hc, Hp in Hq. injection Hq as <-.
  destruct (Hat Hrc) as (_ & Hs' & Hn'). exists ea, c. by rewrite Hn', <- Hr, Hs'.
Qed.

Lemma ipc_right_reverse_spec K G n sp S o p Q :
  Inv K G n → quiescent G → k_spaces K !! sp = Some S → is_active S = true → k_objects K !! o = Some (KPort p) →
  (ip_active p = false → Q None K) → (ip_active p = true → unnamed_in G sp o → Q None K) →
  (∀ name ea c, ip_active p = true → G !! ea = Some (Slot sp name (Used c)) → c_obj c = o → is_named (c_type c) = true →
     Q (Some (name, ea)) K) →
  wp (ipc_right_reverse sp o) Q K.
Proof.
  intros Hinv Hqui HS HSa Hp Hdead Hnone Hsome. pose proof (inv_ents _ _ _ Hinv) as Hent.
  destruct (oi_objects _ _ _ _ (inv_objs _ _ _ Hinv) _ _ Hp) as (Haddr & _ & Hport).
  destruct (ei_spaces _ _ _ Hent _ _ HS HSa) as [Hsp0 _ Hrev _].
  unfold ipc_right_reverse. ksteps. rewrite (po_otype _ _ _ _ _ _ Hport). ksteps. destruct (ip_active p) eqn:Hact; cbn [negb]; [|ksteps; auto].
  destruct (N.eqb_spec (ip_receiver p) sp) as [Hr|Hr].
  - destruct (receiver_entry K G n o p sp) as (ea & c & Hg & Hc & Hrc); try done; [by exists S|].
    destruct (ei_slots _ _ _ Hent _ _ Hg) as [[Hea0 _] [Hn0 Hnd] _ (e & He & _ & Hb & Ho & _)]. cbn [sl_name sl_state] in *.
    change MACH_PORT_NULL with 0. keqb. ksteps.
    eapply ipc_entry_lookup_spec; [done|by eapply inv_caps_wf|by exists S|unfold MACH_PORT_NAME_DEAD in Hnd; lia|auto| |].
    { intros Hno. by destruct (Hno ea c). }
    intros ea' c' Hg'. assert (ea' = ea) as -> by by eapply ent_name_inj. change IE_NULL with 0. keqb. ksteps.
    pose proof (inv_caps_wf _ _ _ Hinv _ _ _ _ Hg) as Hwf. rewrite Hb, cap_has_receive, Hrc by done. ksteps. rewrite Ho, Hc, N.eqb_refl. ksteps.
    apply (Hsome (ip_receiver_name p) ea c); try done. by destruct (c_type c).
  - unfold ipc_reverse_lookup, check_key. pose proof Haddr as (Ho0 & Hal & _). rewrite Hal. keqb. ksteps.
    destruct Hrev as (r & Hrr & Hrev).
    apply (wp_on_reverse_map_read _ _ S _ (λ v, v = word r (KEY o))); [done|by apply km_lookup_law; [|apply key_lt]|].
    intros _ ->. unfold word. destruct (r !! KEY o) as [ea|] eqn:Hea; cbn [default].
    + apply Hrev in Hea as (name & c & Hg & Ht & Hc); [|done].
      destruct (ei_slots _ _ _ Hent _ _ Hg) as [[Hea0 _] _ _ (e & He & Hn & Hb & Ho & _)]. cbn [sl_name sl_state] in *.
      pose proof (inv_caps_wf _ _ _ Hinv _ _ _ _ Hg) as Hwf. change IE_NULL with 0. keqb. ksteps. rewrite Hb. captests. ksteps.
      rewrite Ho, Hc, N.eqb_refl. ksteps. rewrite Hn. apply (Hsome name ea c); try done. by rewrite Ht.
    + ksteps. apply Hnone; [done|]. intros eb [sp1 name1 st1] Hb Hs1 Hnm. simpl in *. subst sp1.
      destruct st1 as [| |c]; try done. simpl in Hnm. destruct (is_named (c_type c)) eqn:Hnc; [|done]. injection Hnm as Hc.
      pose proof (oi_caps _ _ _ _ (inv_objs _ _ _ Hinv) _ _ _ _ Hb) as Hcap. destruct (is_recv (c_type c)) eqn:Hrc.
      * destruct (cap_ok_port_of _ _ _ _ Hcap) as (q & Hq & Hat); [by destruct (c_type c)..|]. rewrite Hc, Hp in Hq. injection Hq as <-.
        destruct (Hat Hrc) as (_ & Hs' & _). done.
      * assert (r !! KEY o = Some eb); [|congruence]. apply Hrev; [done|]. exists name1, c. split_and!; [done|by destruct (c_type c)|done].
Qed.

(** ** [ipc_object_copyin] *)

Definition cap_of (st : estate) : option cap := match st with Used c => Some c | _ => None end.

Definition object_copyin_post K G n (sp name msgt_name : N) (r : kern_return_t * N) K' : Prop :=
  same_spaces (k_spaces K) (k_spaces K') ∧
  (no_cap G sp name ∧ r = (KERN_INVALID_NAME, IO_NULL) ∧ K' = K ∨
   ∃ ea c st' out G', G !! ea = Some (Slot sp name (Used c)) ∧
     copyin_cap (live_port (k_objects K) c) msgt_name true c = (r, st', out) ∧
     becomes G ea sp name (cap_of st') G' ∧ quiescent G' ∧ (out = Some TRecv → in_limbo K' (c_obj c)) ∧
     Inv K' G' (hand_out n (c_obj c) out)).

Lemma becomes_quiescent G ea sp name oc G' : quiescent G → becomes G ea sp name oc G' → quiescent G'.
Proof.
  intros Hq Hb eb sp0 name0 Heb. destruct (decide (eb = ea)) as [->|Hne].
  - destruct oc as [c|]; simpl in Hb; [|destruct Hb as [Hb|Hb]]; subst G';
      [rewrite lookup_insert_eq in Heb|rewrite lookup_insert_eq in Heb|rewrite lookup_delete_eq in Heb]; done.
  - apply (Hq eb sp0 name0). destruct oc as [c|]; simpl in Hb; [|destruct Hb as [Hb|Hb]]; subst G';
      [rewrite lookup_insert_ne in Heb by done|rewrite lookup_insert_ne in Heb by done|rewrite lookup_delete_ne in Heb by done]; done.
Qed.

Lemma copyin_cap_state live msgt_name c kr obj st' out :
  copyin_cap live msgt_name true c = (kr, obj, st', out) → st' = Held ∨ ∃ c', st' = Used c'.
Proof.
  unfold copyin_cap, send_outcome, dead_outcome, no_right, held_or. intros Hc.
  repeat match type of Hc with
  | context [if ?b then _ else _] => destruct b
  | context [match ?b with _ => _ end] => destruct b
  end; simplify_eq; eauto.
Qed.

Lemma ipc_object_copyin_spec K G n sp S name msgt_name :
  Inv K G n → quiescent G → k_spaces K !! sp = Some S → is_active S = true → name < 2 ^ 32 → is_copyin msgt_name →
  (∀ o, spare_ref K o) → room_in K sp →
  wp (ipc_object_copyin sp name msgt_name) (object_copyin_post K G n sp name msgt_name) K.
Proof.
  intros Hinv Hqui HS HSa Hn Hmsgt Hmax Hroom. unfold ipc_object_copyin. kstep.
  eapply ipc_right_lookup_write_spec; [done|done|done|done|done| |].
  { intros Hno. cbv beta iota. change (KERN_INVALID_NAME =? KERN_SUCCESS) with false. cbn [negb]. kstep. split; [done|]. by left. }
  intros ea c Hg. cbv beta iota. change (KERN_SUCCESS =? KERN_SUCCESS) with true. cbn [negb]. kstep.
  eapply wp_mono; [by eapply ipc_right_copyin_spec|]. intros [[kr obj] so] K1 Hpost. unfold copyin_post in Hpost.
  destruct (copyin_cap _ msgt_name true c) as [[[kr0 obj0] st'] out] eqn:Hcc. destruct Hpost as ([= -> ->] & HSp & Hidle & Hlimbo & HK1).
  assert (∀ K2 G2, Inv K2 G2 (hand_out n (c_obj c) out) → becomes G ea sp name (cap_of st') G2 →
    same_spaces (k_spaces K1) (k_spaces K2) → k_objects K2 = k_objects K1 →
    wp ((if (kr0 =? KERN_SUCCESS) && negb (so =? IP_NULL) then later (call_notify_port_deleted so name) else mret tt);; mret (kr0, obj0))
      (object_copyin_post K G n sp name msgt_name) K2) as Hfin.
  { intros [Sp2 E2 O2 M2 B2 Th2 Km2 Ts2 Ca2 Cc2] G2 HK2 Hbec HSp2 HO2. ksimpl_all.
    assert (∀ Ca', object_copyin_post K G n sp name msgt_name (kr0, obj0) (Kernel Sp2 E2 O2 M2 B2 Th2 Km2 Ts2 Ca' Cc2)) as Hany.
    { intros Ca'. split; [by eapply same_spaces_trans; [exact HSp|destruct K1]|]. right. exists ea, c, st', out, G2.
      split_and!; [done|done|done|by eapply becomes_quiescent| |].
      { unfold in_limbo in *. ksimpl. by rewrite HO2. }
      by apply (inv_calls (Kernel _ _ _ _ _ _ _ _ Ca2 _)). }
    destruct (_ && _); ksteps; apply Hany. }
  destruct (copyin_cap_state _ _ _ _ _ _ _ Hcc) as [->|[c' ->]].
  - destruct (Hidle eq_refl) as (e & He & Ht & Ho & Hr). kstep. eapply wp_load_entry; [done|]. rewrite Ht. kstep.
    eapply inv_dealloc_objects; [exact HK1|apply lookup_insert_eq|exact He|done|done|].
    intros K2 G2 HK2 Hf%freed_insert [_ HSp2] HO2. by eapply Hfin.
  - assert (<[ea := Slot sp name (Used c')]> G !! ea = Some (Slot sp name (Used c'))) as Hg1 by apply lookup_insert_eq.
    destruct (ei_slots _ _ _ (inv_ents _ _ _ HK1) _ _ Hg1) as [_ _ _ (e & He & _ & Hb & _)]. cbn [sl_state] in *.
    kstep. eapply wp_load_entry; [done|]. rewrite Hb. change MACH_PORT_TYPE_NONE with 0. rewrite cap_type_nonzero by by eapply inv_caps_wf.
    do 2 kstep. by eapply Hfin.
Qed.

(** ** [ipc_object_copyout] *)

(** The same capabilities under the same names. *)
Definition same_caps G G' : Prop :=
  ∀ ea sp name c, G' !! ea = Some (Slot sp name (Used c)) ↔ G !! ea = Some (Slot sp name (Used c)).

(** The state of the entry that takes the right, before. *)
Definition before G (ea sp name : N) (st : estate) : Prop :=
  match st with Held => was_free G ea sp name | _ => G !! ea = Some (Slot sp name st) end.

Definition object_copyout_post K G n (sp : N) (t : ctype) (overflow : bool) (o : N) (r : kern_return_t * N) K' : Prop :=
  same_spaces (k_spaces K) (k_spaces K') ∧
  ∃ G', quiescent G' ∧
    (r.1 ≠ KERN_SUCCESS ∧ r.2 = MACH_PORT_NAME_NULL ∧ same_caps G G' ∧ Inv K' G' n ∨
     r.1 = KERN_SUCCESS ∧ ∃ ea st st', before G ea sp r.2 st ∧ settles G sp t o st ∧
       copyout_state t overflow o st = (KERN_SUCCESS, st', true) ∧ G' = <[ea := Slot sp r.2 st']> G ∧
       Inv K' G' (settled (k_objects K) n o t)).

Section Copyout.
Context K G n (sp : N) (S : ipc_space T) (t : ctype) (overflow : bool) (o : N) (p : ipc_port) (garbage : ipc_entry).
Context (Hinv : Inv K G n) (Hqui : quiescent G) (HS : k_spaces K !! sp = Some S) (HSa : is_active S = true).
Context (Hp : k_objects K !! o = Some (KPort p)) (Ht : t ∈ [TSonce; TSend; TRecv]).
Context (Hhas : has_right n o t).
Context (Hroom : room_in K sp) (Halloc : can_alloc K sp).

(** The common end: [ipc_right_copyout] into an entry found or made. *)
Lemma object_copyout_tail K1 G1 ea name st :
  ip_active p = true → Inv K1 G1 n → same_spaces (k_spaces K) (k_spaces K1) → k_objects K1 = k_objects K → same_reverse K K1 →
  G1 !! ea = Some (Slot sp name st) → (∀ st', <[ea := Slot sp name st']> G1 = <[ea := Slot sp name st']> G) →
  before G ea sp name st → settles G sp t o st → settles G1 sp t o st →
  (st = Held → ∃ e, k_entries K1 !! ea = Some e ∧ awaits e name o) →
  wp (kr ← ipc_right_copyout sp name ea (right_type t) overflow o;
      mret (kr, if kr =? KERN_SUCCESS then name else MACH_PORT_NAME_NULL))
    (object_copyout_post K G n sp t overflow o) K1.
Proof.
  intros Hact HK1 HSp HO Hrev Hg1 HG1 Hbef Hset Hset1 Haw. kstep. eapply wp_mono.
  { apply (ipc_right_copyout_spec K1 G1 n ea sp name t overflow o st p); try done; [by rewrite HO..|].
    intros S1 HS1. destruct (Hrev _ _ HS1) as (S0 & HS0 & ->). by apply Hroom. }
  intros kr K' Hpost. unfold copyout_post in Hpost. destruct (copyout_state t overflow o st) as [[kr' st'] taken] eqn:Hst.
  destruct Hpost as (-> & HSp' & HK'). kstep. rewrite HG1, ?HO in HK'. split; [by eapply same_spaces_trans|].
  exists (<[ea := Slot sp name st']> G). split.
  { apply (becomes_quiescent G ea sp name (cap_of st')); [done|]. unfold copyout_state in Hst.
    destruct st; repeat case_match; simplify_eq; done. }
  unfold copyout_state in Hst. destruct taken.
  - right. assert (kr' = KERN_SUCCESS) as -> by (destruct st; repeat case_match; simplify_eq; done). split; [done|].
    exists ea, st, st'. by split_and!.
  - left. destruct st as [| |c]; try (by simplify_eq). repeat case_match; simplify_eq. split_and!; [done|done| |done].
    intros eb sp0 name0 c0. simpl in Hbef. by rewrite insert_id.
Qed.

(** A new entry, when the space has no other rights for the port. *)
Lemma object_copyout_new :
  ip_active p = false ∨ t = TSonce ∨ unnamed_in G sp o →
  wp ('(kr, r) ← ipc_entry_alloc garbage sp;
      match r with
      | None => mret (kr, MACH_PORT_NAME_NULL)
      | Some (name, entry) =>
          live ← copyout_prepare sp name entry o;
          if negb live then mret (KERN_INVALID_CAPABILITY, MACH_PORT_NAME_NULL)
          else
            kr ← ipc_right_copyout sp name entry (right_type t) overflow o;
            mret (kr, if kr =? KERN_SUCCESS then name else MACH_PORT_NAME_NULL)
      end) (object_copyout_post K G n sp t overflow o) K.
Proof.
  intros Hnew. kstep. eapply ipc_entry_alloc_spec; try done. intros [kr r] K1 (HSp & HO & Hrev & Hr). cbv beta iota. cbn [fst snd] in Hr.
  destruct r as [[name ea]|].
  2: { destruct Hr as [Hkr HK1]. kstep. split; [done|]. exists G. split; [done|]. by left. }
  destruct Hr as (_ & Hfree & HK1 & e & He & (Hn & Hb & Ho & Hq)). unfold copyout_prepare.
  destruct K1 as [Sp1 E1 O1 M1 B1 Th1 Km1 Ts1 Ca1 Cc1]. ksimpl_all. subst O1.
  ksteps. rewrite Hb. ksteps. rewrite Ho. ksteps. destruct (ip_active p) eqn:Hact; cbn [negb].
  - ksteps. cbn [negb]. assert (settles G sp t o Held) as Hset.
    { rewrite !elem_of_cons, elem_of_nil in Ht. destruct Hnew as [?|[?|?]]; [done|by left|].
      destruct Ht as [?|[?|[?|[]]]]; [by left|right; auto..]. }
    assert (settles (<[ea := Slot sp name Held]> G) sp t o Held) as Hset1.
    { destruct Hset as [?|[? Hun]]; [by left|right; split; [done|]]. intros eb s [[<- <-]|[_ Hs]]%lookup_insert_Some Hsp; [done|by apply (Hun eb)]. }
    apply (object_copyout_tail _ (<[ea := Slot sp name Held]> G) ea name Held); try done.
    + pose proof (inv_vacant_step _ _ n ea sp name Held Held (set_ie_object o e) HK1 (lookup_insert_eq _ _ _) I I) as Hstep.
      rewrite insert_insert_eq in Hstep. ksimpl_all. by apply Hstep.
    + apply lookup_insert_eq.
    + intros st'. apply insert_insert_eq.
    + intros _. eexists. ksimpl. rewrite lookup_insert_eq. split; [done|]. by split_and!.
  - kstep. eapply inv_dealloc; [exact HK1|apply lookup_insert_eq|exact He|done|done|]. intros K2 G2 HK2 Hf%freed_insert [_ HSp2].
    ksteps. cbn [negb]. kstep. split; [by eapply same_spaces_trans|]. exists G2. split.
    + by apply (becomes_quiescent G ea sp name None).
    + left. split_and!; [done|done| |done]. intros eb sp0 name0 c0.
      assert (∀ sp1 name1 c1, G !! ea ≠ Some (Slot sp1 name1 (Used c1))) as Hno by (destruct Hfree as [Hfree|[Hfree _]]; rewrite Hfree; done).
      destruct (decide (eb = ea)) as [->|Hne].
      * split; [|by intros ?%Hno]. destruct Hf as [->| ->]; [by rewrite lookup_insert_eq|by rewrite lookup_delete_eq].
      * destruct Hf as [->| ->]; [by rewrite lookup_insert_ne|by rewrite lookup_delete_ne].
Qed.

Lemma ipc_object_copyout_spec :
  wp (ipc_object_copyout garbage sp o (right_type t) overflow) (object_copyout_post K G n sp t overflow o) K.
Proof.
  destruct (oi_objects _ _ _ _ (inv_objs _ _ _ Hinv) _ _ Hp) as (Haddr & _ & Hport).
  unfold ipc_object_copyout. rewrite obj_valid by done. ksteps. rewrite (po_otype _ _ _ _ _ _ Hport). ksteps. rewrite HSa. cbn [negb].
  assert (t = TSonce ∨ t ≠ TSonce ∧ (t = TSend ∨ t = TRecv)) as Hty.
  { rewrite !elem_of_cons, elem_of_nil in Ht. destruct Ht as [?|[?|[?|[]]]]; subst; auto. }
  destruct Hty as [Hso|[Hnso Hty]].
  - replace (negb (right_type t =? MACH_MSG_TYPE_PORT_SEND_ONCE)) with false by (by rewrite Hso). do 2 kstep.
    apply object_copyout_new. auto.
  - replace (negb (right_type t =? MACH_MSG_TYPE_PORT_SEND_ONCE)) with true by (by destruct Hty as [->| ->]). kstep.
    eapply ipc_right_reverse_spec; try done.
    + intros Hdead. apply object_copyout_new. auto.
    + intros _ Hun. apply object_copyout_new. auto.
    + intros name ea c Hact Hg Hc Hnm. destruct (ei_slots _ _ _ (inv_ents _ _ _ Hinv) _ _ Hg) as [_ _ _ (e & He & _ & Hb & _)]. cbn [sl_state] in *.
      ksteps. rewrite Hb, cap_has_send_receive, Hnm by by eapply inv_caps_wf. kstep.
      assert (settles G sp t o (Used c)) as Hset.
      { split; [done|]. destruct Hty as [->| ->]; [by left|right; split; [done|]].
        destruct (is_recv (c_type c)) eqn:Hrc; [exfalso|by destruct (c_type c)]. destruct Hhas as (_ & _ & Hhr). cbn in Hhr.
        pose proof (po_recv _ _ _ _ _ _ Hport) as Hre. rewrite Hact in Hre. cbn [Nb] in Hre.
        assert (0 < n_recv G o); [|lia]. apply (count_pos _ _ _ _ Hg). unfold holds. simpl. by rewrite Hc, N.eqb_refl, Hrc. }
      apply (object_copyout_tail K G ea name (Used c)); try done. intros x X HX. by exists X.
Qed.
End Copyout.
End Transfer.
