(* ===== verification/IpcAllocName.v ===== *)
(** Allocation of an entry under a given name: [ipc_entry_alloc_name].  A name
    that was given up may still have its entry on the free list of the space. *)

From S2P Require Import Prelude Kmem Rdxtree RdxtreeInv RdxtreeSpec RdxtreeMap IpcTypes IpcEntry IpcPort IpcMarequest IpcBits IpcInv IpcUpdate IpcDn IpcMar IpcStep IpcRelease IpcVacate IpcCopyout IpcAlloc IpcTransfer.

Open Scope N_scope.

Section AllocName.
Context `{!Config} {T C : Type} `{!KeyMap T} `{!KmemCache C}.
Implicit Types (K : kernel T C) (E : gmap N ipc_entry) (G : gmap N eslot) (n : naked) (Sp : gmap N (ipc_space T)).

(** ** The free list *)

Lemma free_chain_relink E a la prev ea lb ep x :
  NoDup (la ++ prev :: ea :: lb) → free_chain E a (la ++ prev :: ea :: lb) → E !! prev = Some ep → E !! ea = Some x →
  free_chain (<[prev := set_ie_next_free (ie_next_free x) ep]> E) a (la ++ prev :: lb).
Proof.
  intros Hnd Hc Hep Hx. revert a Hnd Hc. induction la as [|y la IH]; cbn [app free_chain]; intros a Hnd Hc.
  - destruct Hc as (-> & e1 & He1 & _ & e2 & He2 & Hc). assert (e2 = x) as -> by congruence. split; [done|].
    eexists. rewrite lookup_insert_eq. split; [done|]. eapply free_chain_ext; [|exact Hc]. intros z Hz. apply lookup_insert_ne.
    intros <-. apply list.NoDup_cons in Hnd as [Hnd _]. apply Hnd. by right.
  - destruct Hc as (-> & e1 & He1 & Hc). split; [done|]. apply list.NoDup_cons in Hnd as [Hy Hnd]. exists e1.
    rewrite lookup_insert_ne by (intros <-; apply Hy, elem_of_app; right; by left). split; [done|]. by apply IH.
Qed.

(** The loop: a prefix of the list was passed, and [prev] is its last entry. *)
Lemma free_list_unlink_spec K sp S ea l1 l2 a fuel Q :
  k_spaces K !! sp = Some S → NoDup (l1 ++ ea :: l2) → free_chain (k_entries K) a (l1 ++ ea :: l2) →
  (length (l1 ++ ea :: l2) ≤ fuel)%nat → 0 ∉ l1 ++ ea :: l2 →
  ∀ prev,
  (∀ x, l1 = [] → k_entries K !! ea = Some x →
     wp (if prev =? 0 then upd_space sp (set_is_free_list (ie_next_free x)) else upd_entry prev (set_ie_next_free (ie_next_free x))) Q K) →
  (∀ x la p ep, l1 = la ++ [p] → k_entries K !! ea = Some x → k_entries K !! p = Some ep →
     Q tt (set_k_entries (<[p := set_ie_next_free (ie_next_free x) ep]> (k_entries K)) K)) →
  wp (free_list_unlink fuel sp ea prev a) Q K.
Proof.
  intros HS Hnd Hc Hfuel H0. revert a l1 Hnd Hc Hfuel H0. induction fuel as [|fuel IH]; intros a l1 Hnd Hc Hfuel H0 prev Hhead Htail.
  { rewrite length_app in Hfuel. cbn in Hfuel. lia. }
  cbn [free_list_unlink]. destruct l1 as [|y l1]; cbn [app free_chain] in Hc.
  - destruct Hc as (-> & x & Hx & Hc). ksteps. rewrite N.eqb_refl. by apply Hhead.
  - destruct Hc as (-> & e & He & Hc). apply list.NoDup_cons in Hnd as [Hy Hnd]. cbn [app length] in Hfuel.
    ksteps. rewrite (proj2 (N.eqb_neq y ea)) by (intros ->; apply Hy, elem_of_app; right; by left).
    apply not_elem_of_cons in H0 as [Hy0 H0]. eapply IH; [done|done|lia|done| |].
    + intros x -> Hx. keqb. ksteps. by apply (Htail x []).
    + intros x la p ep -> Hx Hep. by apply (Htail x (y :: la) p ep).
Qed.

(** An entry leaves the middle of the list. *)
Lemma free_ok_unlink E G (ea sp name p a len : N) (ep e' x : ipc_entry) la lb :
  E !! ea = Some x → G !! ea = Some (Slot sp name Free) → E !! p = Some ep →
  free_chain E a (la ++ p :: ea :: lb) → NoDup (la ++ p :: ea :: lb) → N.of_nat (length (la ++ p :: ea :: lb)) = len →
  len ≤ IS_FREE_LIST_SIZE_LIMIT → (∀ y, y ∈ la ++ p :: ea :: lb ↔ ∃ nm, G !! y = Some (Slot sp nm Free)) →
  free_ok (<[ea := e']> (<[p := set_ie_next_free (ie_next_free x) ep]> E)) (<[ea := Slot sp name Held]> G) sp a (len - 1).
Proof.
  intros Hx Hg Hep Hc Hnd Hlen Hle Hin. assert ((ea ∉ la ++ p :: lb) ∧ NoDup (la ++ p :: lb)) as [Hea Hnd'].
  { replace (la ++ p :: ea :: lb) with ((la ++ [p]) ++ ea :: lb) in Hnd by (by rewrite <- app_assoc).
    apply list.NoDup_app in Hnd as (H1 & H2 & H3). apply list.NoDup_cons in H3 as [H3 H4].
    replace (la ++ p :: lb) with ((la ++ [p]) ++ lb) by (by rewrite <- app_assoc). split.
    - intros [Hin'|Hin']%elem_of_app; [|done]. apply (H2 _ Hin'). by left.
    - apply list.NoDup_app. split_and!; [done| |done]. intros z Hz Hz'. apply (H2 _ Hz). by right. }
  exists (la ++ p :: lb). split_and!; [|done| |lia|].
  - eapply free_chain_ext; [|by eapply free_chain_relink]. intros z Hz. apply lookup_insert_ne. by intros ->.
  - rewrite !length_app in *. cbn in *. lia.
  - intros y. destruct (decide (y = ea)) as [->|Hne].
    + rewrite lookup_insert_eq. split; [done|]. intros [nm ?]. congruence.
    + rewrite lookup_insert_ne, <- Hin, !elem_of_app, !elem_of_cons by done. tauto.
Qed.

(** ** [ipc_entry_alloc_name] *)

Context (garbage : ipc_entry).

(** The name is in use, or was free. *)
Definition alloc_name_post K G n (sp name : N) (r : kern_return_t * option N) K' : Prop :=
  match r.2 with
  | None => alloc_post K G n sp (r.1, None) K'
  | Some ea =>
      r.1 = KERN_SUCCESS ∧
      ((∃ c, G !! ea = Some (Slot sp name (Used c))) ∧ K' = K ∨ alloc_post K G n sp (KERN_SUCCESS, Some (name, ea)) K')
  end.

Section Name.
Context (Sp : gmap N (ipc_space T)) (E : gmap N ipc_entry) (O : gmap N kobject) (M : gmap N ipc_marequest).
Context (B : gmap N (list N)) (Th : gmap N ipc_thread) (Km : gmap N ipc_kmsg) (Ts : N) (Ca : list call) (Cc : gmap N C).
Context (G : gmap N eslot) (n : naked) (sp name : N) (S : ipc_space T).
#[local] Abbreviation K := (Kernel Sp E O M B Th Km Ts Ca Cc).
Context (Hinv : Inv K G n) (HS : Sp !! sp = Some S) (HSa : is_active S = true) (Hname : name ≠ 0 ∧ name < MACH_PORT_NAME_DEAD).

(** A name without an entry. *)
Lemma entry_alloc_new_spec m Q :
  km_rep (is_map S) m → m !! 0 = Some zero_entry → (∀ k a, k ≠ 0 → m !! k = Some a ↔ ∃ st, G !! a = Some (Slot sp k st)) →
  m !! name = None → can_alloc K sp →
  (∀ r K', alloc_name_post K G n sp name r K' → Q r K') → wp (entry_alloc_new garbage sp name None) Q K.
Proof.
  intros Hm H0 Hmap Hno [Hfresh _ _] HQ. pose proof Hinv as [Hcc Hent Hobj Hmar Hq]. ksimpl_all.
  unfold entry_alloc_new. kstep. eapply ie_alloc_spec; [done|by eauto| |].
  { intros Cc' Hcc'. ksteps. apply HQ. apply alloc_post_failed; done. }
  intros ea Cc' Hcc' Hea0 Heal Hnew. change IE_NULL with 0. keqb. ksteps. rewrite !insert_insert_eq. ksimpl_all.
  apply (wp_on_map _ _ S); [done|]. eapply wp_mono; [apply (km_insert_law _ m); [done|unfold MACH_PORT_NAME_DEAD in *; lia|done|done]|].
  assert (∀ kr t', kr ≠ KERN_SUCCESS → km_rep t' m →
    wp (if negb (kr =? KERN_SUCCESS) then ie_free ea;; mret (kr, None) else
        upd_space sp (λ s, set_is_size (u64 (is_size s + 1)) s);; mret (KERN_SUCCESS, Some ea)) Q
      (set_k_spaces (<[sp := set_is_map t' S]> Sp)
        (Kernel Sp (<[ea := set_ie_name name (set_ie_request 0 (set_ie_object IO_NULL (set_ie_bits 0 garbage)))]> E) O M B Th Km Ts Ca Cc'))) as Hfail.
  { intros kr t' Hkr Ht'. keqb. cbn [negb]. unfold ie_free. ksteps. eapply cache_free_spec; [done|done|]. intros Cc2 Hcc2. ksteps. apply HQ.
    rewrite delete_insert_id by done. assert (same_spaces Sp (<[sp := set_is_map t' S]> Sp)) as HSp by by eapply same_spaces_insert.
    unfold alloc_name_post, alloc_post. cbn [fst snd]. ksimpl. split_and!; [done|done| |done|].
    - intros x X. ksimpl. by eapply same_reverse_insert.
    - split; ksimpl; [done| |by eapply obj_inv_spaces|by eapply mar_ok_spaces; [apply HSp|]|done].
      eapply (ent_map Sp E G sp S); try done. by exists m. }
  intros err t' [(-> & _ & Hm')|[(-> & _ & Hm')|(-> & Hm')]]; [|by apply Hfail|by apply Hfail].
  change (negb (ERR_SUCCESS =? KERN_SUCCESS)) with false. cbv iota. ksteps. rewrite insert_insert_eq. apply HQ. split; [done|]. right.
  apply (alloc_post_new K G n sp S ea Cc' m name t'); try done; [apply Hname|]. by split_and!; [..|apply set_ie_request_read].
Qed.

(** The entry was taken off the free list. *)
Lemma name_taken_spec ea x first E1 Q :
  G !! ea = Some (Slot sp name Free) → E !! ea = Some x → E1 !! ea = Some x →
  (∀ y, y ≠ ea → E1 !! y = E !! y ∨ relinked E E1 G sp y) → 0 < is_free_list_size S ≤ IS_FREE_LIST_SIZE_LIMIT →
  (∀ e', free_ok (<[ea := e']> E1) (<[ea := Slot sp name Held]> G) sp first (is_free_list_size S - 1)) →
  (∀ r K', alloc_name_post K G n sp name r K' → Q r K') →
  wp (upd_space sp (λ s, set_is_free_list_size (u64_sub (is_free_list_size s) 1) s);;
      upd_entry ea (set_ie_bits 0);;
      check (ie_object x =? IO_NULL);;
      check (ie_name x =? name);;
      upd_entry ea (set_ie_request 0);;
      upd_space sp (λ s, set_is_size (u64 (is_size s + 1)) s);;
      mret (KERN_SUCCESS, Some ea)) Q
    (Kernel (<[sp := set_is_free_list first S]> Sp) E1 O M B Th Km Ts Ca Cc).
Proof.
  intros Hg Hx Hx1 Hrest Hlen Hfree HQ. pose proof Hinv as [Hcc Hent Hobj Hmar Hq]. ksimpl_all.
  destruct (ei_slots _ _ _ Hent _ _ Hg) as [_ _ _ (e & He & Hn & Hb & Ho)]. cbn [sl_name sl_state] in *.
  assert (e = x) as -> by congruence. ksteps. rewrite Ho, Hn. ksteps. rewrite N.eqb_refl. ksteps. rewrite !insert_insert_eq. apply HQ. split; [done|]. right.
  assert (u64_sub (is_free_list_size S) 1 = is_free_list_size S - 1) as Hsub.
  { unfold u64_sub, u64, wrap, IS_FREE_LIST_SIZE_LIMIT in *. change (1 mod 2 ^ 64) with 1.
    replace (is_free_list_size S + (2 ^ 64 - 1)) with (is_free_list_size S - 1 + 1 * 2 ^ 64) by lia.
    rewrite N.Div0.mod_add. apply N.mod_small. lia. }
  unfold alloc_post. cbn [fst snd]. ksimpl. split_and!; [by eapply same_spaces_insert|done| |done|by left| |].
  - intros y Y. ksimpl. by eapply same_reverse_insert.
  - split; ksimpl; [done| | | |done].
    + eapply (ent_take Sp E _ G ea sp name S _); [done|done|done|done|apply lookup_insert_eq|done| |done|done|done| |done].
      * intros y Hy. rewrite lookup_insert_ne by done. destruct (Hrest y Hy) as [?|(e1 & e2 & nm & ? & ? & ?)]; [by left|].
        right. exists e1, e2, nm. by rewrite lookup_insert_ne.
      * cbn [is_free_list is_free_list_size set_is_size set_is_free_list set_is_free_list_size]. rewrite Hsub. apply Hfree.
    + eapply obj_inv_spaces; [by eapply same_spaces_insert|]. by eapply (obj_vacant Sp O G n ea sp name Free).
    + eapply mar_ok_spaces; [intros y; by apply (active_space_insert Sp sp S)|]. by eapply mar_ok_update.
  - eexists. rewrite lookup_insert_eq. split; [done|]. split_and!; [done|done|done|by apply set_ie_request_read].
Qed.

Lemma free_list_short l : (∀ y, y ∈ l → is_Some (E !! y)) → NoDup l → (length l ≤ size E)%nat.
Proof.
  intros Hin Hnd. rewrite <- size_dom, <- (size_list_to_set (C := gset N) l) by done. apply subseteq_size.
  intros y Hy%elem_of_list_to_set. by apply elem_of_dom, Hin.
Qed.

Lemma alloc_name_free ea Q :
  G !! ea = Some (Slot sp name Free) → (∀ r K', alloc_name_post K G n sp name r K' → Q r K') →
  wp (e ← load_entry ea;
      if negb (IE_BITS_TYPE (ie_bits e) =? 0) then mret (KERN_SUCCESS, Some ea) else
      s ← load_space sp;
      k ← get;
      free_list_unlink (Datatypes.S (size (k_entries k))) sp ea 0 (is_free_list s);;
      upd_space sp (λ s, set_is_free_list_size (u64_sub (is_free_list_size s) 1) s);;
      upd_entry ea (set_ie_bits 0);;
      check (ie_object e =? IO_NULL);;
      check (ie_name e =? name);;
      upd_entry ea (set_ie_request 0);;
      upd_space sp (λ s, set_is_size (u64 (is_size s + 1)) s);;
      mret (KERN_SUCCESS, Some ea)) Q K.
Proof.
  intros Hg HQ. pose proof (inv_ents _ _ _ Hinv) as Hent. ksimpl_all.
  destruct (ei_slots _ _ _ Hent _ _ Hg) as [[Hea0 _] _ _ (x & Hx & Hn & Hb & Ho)]. cbn [sl_name sl_state] in *.
  destruct (ei_spaces _ _ _ Hent _ _ HS HSa) as [_ _ _ (l & Hl & Hnd & Hlen & Hle & Hin) _].
  assert (∀ y, y ∈ l → is_Some (E !! y) ∧ y ≠ 0) as Hls.
  { intros y [nm Hy]%Hin. destruct (ei_slots _ _ _ Hent _ _ Hy) as [[? _] _ _ (e & He & _)]. eauto. }
  ksteps. rewrite Hb. change (negb (IE_BITS_TYPE 0 =? 0)) with false. cbv iota. ksteps.
  assert (ea ∈ l) as (l1 & l2 & ->)%list_elem_of_split by (apply Hin; eauto).
  eapply (free_list_unlink_spec _ sp S ea l1 l2); ksimpl; [done|done|done| |by intros [_ ?]%Hls| |].
  - pose proof (free_list_short _ (λ y Hy, proj1 (Hls y Hy)) Hnd). lia.
  - intros y -> Hy. assert (y = x) as -> by congruence. change (0 =? 0) with true. cbv iota. kstep. cbn [app] in *. assert (is_free_list S = ea) as Hfirst by apply Hl. rewrite Hfirst in Hl.
    eapply (name_taken_spec ea x (ie_next_free x) E); try done; [by left|cbn [length] in *; lia|].
    intros e'. eapply free_ok_pop; [done|done|]. exists (ea :: l2). split; [exact Hl|]. by split_and!.
  - intros y la p ep -> Hy Hep. assert (y = x) as -> by congruence. rewrite <- app_assoc in *. cbn [app] in *.
    assert (ea ≠ p) as Hne.
    { intros <-. apply list.NoDup_app in Hnd as (_ & _ & [Hp _]%list.NoDup_cons). apply Hp. by left. }
    assert (∃ nm, G !! p = Some (Slot sp nm Free)) as [nm Hp] by (apply Hin, elem_of_app; right; by left).
    rewrite <- (insert_id Sp sp (set_is_free_list (is_free_list S) S)) at 1 by (by destruct S).
    eapply (name_taken_spec ea x (is_free_list S)); try done.
    + by rewrite lookup_insert_ne.
    + intros y Hy'. destruct (decide (y = p)) as [->|]; [right|left; by rewrite lookup_insert_ne].
      eexists ep, _, nm. rewrite lookup_insert_eq. split_and!; try done; by destruct ep.
    + rewrite length_app in Hlen. cbn [length] in Hlen. lia.
    + intros e'. by eapply free_ok_unlink.
Qed.
End Name.

Lemma ipc_entry_alloc_name_spec K G n sp S name Q :
  Inv K G n → quiescent G → k_spaces K !! sp = Some S → name ≠ 0 → name < MACH_PORT_NAME_DEAD → can_alloc K sp →
  (∀ r K', alloc_name_post K G n sp name r K' → Q r K') → wp (ipc_entry_alloc_name garbage sp name) Q K.
Proof.
  intros Hinv Hqui HS Hn0 Hnd Halloc HQ. pose proof (inv_ents _ _ _ Hinv) as Hent.
  unfold ipc_entry_alloc_name, MACH_PORT_NAME_VALID. keqb. rewrite (proj2 (N.eqb_neq name MACH_PORT_NAME_DEAD)) by lia. ksteps.
  destruct (is_active S) eqn:HSa; cbn [negb]; [|kstep; apply HQ; by apply alloc_post_failed].
  destruct (ei_spaces _ _ _ Hent _ _ HS HSa) as [_ (m & Hm & H0 & Hmap) _ _]. kstep.
  eapply (wp_on_map_read _ sp S); [done|apply (km_lookup_slot_law _ m); [done|unfold MACH_PORT_NAME_DEAD in *; lia]|].
  intros [sl|] Hsl; kstep.
  - destruct Hsl as [[ea Hea] Hsl]. eapply (wp_on_map_read _ sp S); [done|by apply (km_slot_read_law _ m name)|]. cbv beta. intros _ ->.
    unfold word. rewrite Hea. cbn [default]. apply Hmap in Hea as [st Hg]; [|done].
    destruct (ei_slots _ _ _ Hent _ _ Hg) as [[Hea0 _] _ _ (e & He & _ & Hrep)]. change IE_NULL with 0. keqb.
    destruct st as [| |c]; [|by destruct (Hqui ea sp name)|].
    + destruct K as [Sp E O M B Th Km Ts Ca Cc]. by eapply alloc_name_free.
    + destruct Hrep as [Hb _]. kstep. eapply wp_load_entry; [done|]. rewrite Hb, cap_type_nonzero by by eapply inv_caps_wf. cbn [negb].
      kstep. apply HQ. split; [done|]. left. eauto.
  - kstep. change (IE_NULL =? IE_NULL) with true. cbv iota. destruct K as [Sp E O M B Th Km Ts Ca Cc]. by eapply entry_alloc_new_spec.
Qed.
End AllocName.
