(* ===== verification/IpcCreate.v ===== *)
(** Creation of ports, port sets and dead names: [ipc_object_alloc],
    [ipc_object_alloc_name] and what calls them. *)

From S2P Require Import Prelude Kmem Rdxtree RdxtreeInv RdxtreeSpec RdxtreeMap IpcTypes IpcEntry IpcPort IpcMarequest IpcRight IpcObject MachPort IpcBits IpcInv IpcUpdate IpcDn IpcMar IpcStep IpcRelease IpcVacate IpcDealloc IpcReceive IpcCopyout IpcAlloc IpcTransfer IpcAllocName.

Open Scope N_scope.

(** Routines that do not touch objects. *)
Create HintDb frame.

Section Create.
Context `{!Config} {T C : Type} `{!KeyMap T} `{!KmemCache C}.
Implicit Types (K : kernel T C) (O : gmap N kobject) (G : gmap N eslot) (n : naked).

(** ** Routines that do not touch objects *)

(** A routine that runs the same whatever the objects are. *)
Definition no_objects {A} (c : M (kernel T C) A) : Prop :=
  ∀ K O, c (set_k_objects O K) = prod_map id (set_k_objects O) <$> c K.

Lemma wp_no_objects {A} (c : M (kernel T C) A) K O Q :
  no_objects c → wp c (λ r K', Q r (set_k_objects O K')) K → wp c Q (set_k_objects O K).
Proof. intros Hc. unfold wp. rewrite Hc. by destruct (c K) as [[r K']|]. Qed.

Lemma no_objects_ret {A} (a : A) : no_objects (mret a).
Proof. done. Qed.
Lemma no_objects_wrong {A} : no_objects (A := A) wrong.
Proof. done. Qed.
Lemma no_objects_check b : no_objects (check b).
Proof. by destruct b. Qed.
Lemma no_objects_deref {A} (o : option A) : no_objects (deref o).
Proof. by destruct o. Qed.
Lemma no_objects_bind {A B} (c : M (kernel T C) A) (f : A → M (kernel T C) B) :
  no_objects c → (∀ a, no_objects (f a)) → no_objects (a ← c; f a).
Proof.
  intros Hc Hf K O. unfold mbind, M_bind. rewrite Hc. destruct (c K) as [[a K']|]; [|done]. cbn. apply Hf.
Qed.
Lemma no_objects_modify f : (∀ K O, f (set_k_objects O K) = set_k_objects O (f K)) → no_objects (modify f).
Proof. intros Hf K O. unfold modify. by rewrite Hf. Qed.
Lemma no_objects_get {A} (f : kernel T C → M (kernel T C) A) :
  (∀ K O, f (set_k_objects O K) = f K) → (∀ K, no_objects (f K)) → no_objects (K ← get; f K).
Proof. intros Hf Hn K O. unfold mbind, M_bind, get. rewrite Hf. apply Hn. Qed.

#[local] Ltac frame :=
  repeat match goal with
  | |- no_objects (mret _) => apply no_objects_ret
  | |- no_objects wrong => apply no_objects_wrong
  | |- no_objects (check _) => apply no_objects_check
  | |- no_objects (deref _) => apply no_objects_deref
  | |- no_objects (modify _) => apply no_objects_modify; by intros []
  | |- no_objects (mbind _ get) => apply no_objects_get; [by intros []|intros ?]
  | |- no_objects (mbind _ _) => apply no_objects_bind; [|intros ?]
  | |- no_objects (if ?b then _ else _) => destruct b
  | |- no_objects (match ?b with _ => _ end) => destruct b
  | |- _ => solve [auto with frame]
  end.

Lemma no_objects_load_space a : no_objects (load_space a).
Proof. unfold load_space. frame. Qed.
Lemma no_objects_load_entry a : no_objects (load_entry a).
Proof. unfold load_entry. frame. Qed.
#[local] Hint Resolve no_objects_load_space no_objects_load_entry : frame.
Lemma no_objects_upd_space a f : no_objects (upd_space a f).
Proof. unfold upd_space. frame. Qed.
Lemma no_objects_upd_entry a f : no_objects (upd_entry a f).
Proof. unfold upd_entry. frame. Qed.
#[local] Hint Resolve no_objects_upd_space no_objects_upd_entry : frame.
Lemma no_objects_on_map {A} sp (c : M T A) : no_objects (on_map sp c).
Proof. unfold on_map. frame. Qed.
Lemma no_objects_ie_alloc g : no_objects (ie_alloc g).
Proof. unfold ie_alloc, cache_alloc. frame. Qed.
Lemma no_objects_ie_free a : no_objects (ie_free a).
Proof. unfold ie_free, cache_free. frame. Qed.
#[local] Hint Resolve no_objects_on_map no_objects_ie_alloc no_objects_ie_free : frame.

Lemma no_objects_unlink fuel sp ea prev e : no_objects (free_list_unlink fuel sp ea prev e).
Proof. revert prev e. induction fuel as [|fuel IH]; intros prev e; cbn [free_list_unlink]; frame. Qed.
#[local] Hint Resolve no_objects_unlink : frame.
Lemma no_objects_entry_alloc garbage sp : no_objects (ipc_entry_alloc garbage sp).
Proof. unfold ipc_entry_alloc, ipc_entry_get. frame. Qed.
Lemma no_objects_entry_alloc_name garbage sp name : no_objects (ipc_entry_alloc_name garbage sp name).
Proof. unfold ipc_entry_alloc_name, entry_alloc_new. frame. Qed.

(** ** A new object *)

Definition no_rights : naked_rights := Naked 0 0 0 0 0 0.

Section Object.
Context (Sp : gmap N (ipc_space T)) (O : gmap N kobject) (G : gmap N eslot) (n : naked) (a : N).
Context (Hinv : ObjInv Sp O G n) (Hnew : O !! a = None) (Haddr : obj_addr a) (HSpa : Sp !! a = None).

(** Nothing refers to memory that is not in use. *)
Lemma fresh_caps eb sp name c : G !! eb = Some (Slot sp name (Used c)) → c_obj c ≠ a.
Proof.
  intros Hc <-. destruct (oi_caps _ _ _ _ Hinv _ _ _ _ Hc) as [Hwf Hok]. unfold cap_wf in Hwf. destruct (c_type c) eqn:Ht.
  all: try (destruct Hok as (p & Hp & _); congruence). destruct Hwf as [H0 _]. by destruct Haddr.
Qed.

Lemma fresh_n_caps P : count (holds P a) G = 0.
Proof.
  apply count_zero. intros eb [sp name [| |c]] Hc; try done. unfold holds. cbn [sl_state].
  by rewrite (proj2 (N.eqb_neq (c_obj c) a)) by by eapply fresh_caps.
Qed.

Lemma fresh_links b q : O !! b = Some (KPort q) →
  dest_is a (KPort q) = false ∧ pdrequest_is a (KPort q) = false ∧ member_of a (KPort q) = false.
Proof.
  intros Hq. destruct (oi_objects _ _ _ _ Hinv _ _ Hq) as (_ & _ & Hport). assert (a ≠ 0) as Ha0 by apply Haddr.
  assert (¬ is_port O a) as Hno by (intros [x Hx]; congruence). unfold dest_is, pdrequest_is, member_of. split_and!.
  - destruct (ip_active q) eqn:Hact; [|done]. destruct (N.eqb_spec (ip_receiver_name q) MACH_PORT_NULL) as [Hname|]; [|done]. cbn [andb].
    apply N.eqb_neq. intros Hd. apply Hno. rewrite <- Hd. apply (po_limbo _ _ _ _ _ _ Hport Hact Hname). by rewrite Hd.
  - apply N.eqb_neq. intros Hd. apply Hno. rewrite <- Hd. apply (po_pdrequest _ _ _ _ _ _ Hport). by rewrite Hd.
  - apply N.eqb_neq. intros Hd. destruct (po_pset _ _ _ _ _ _ Hport) as (_ & s & Hs); [by rewrite Hd|congruence].
Qed.

Lemma fresh_counts : n_dest O a = 0 ∧ n_pd O a = 0 ∧ n_member O a = 0.
Proof.
  split_and!; apply count_zero; intros b [q|s] Hb; try done; by destruct (fresh_links _ _ Hb) as (? & ? & ?).
Qed.

(** The object and the capability for it. *)
Lemma obj_create ea sp name c o :
  G !! ea = Some (Slot sp name Held) → c_obj c = a → cap_ok (<[a := o]> O) sp name c →
  (∀ x, x ≠ 0 → dest_is x o = false ∧ pdrequest_is x o = false ∧ member_of x o = false) → next_port (<[a := o]> O) a = 0 →
  object_ok Sp (<[a := o]> O) (<[ea := Slot sp name (Used c)]> G) (upd_naked n a no_rights) a o →
  ObjInv Sp (<[a := o]> O) (<[ea := Slot sp name (Used c)]> G) (upd_naked n a no_rights).
Proof.
  intros Hg Hc Hcap Hlinks Hnext Hok.
  assert (only a Held ∧ only a (Used c)) as [Ho1 Ho2] by (split; [done|by left]).
  apply (obj_frame Sp O _ G _ n _ a Hinv).
  - intros b Hb. by apply lookup_insert_ne.
  - intros b Hb. by apply upd_naked_ne.
  - congruence.
  - intros P b Hb Hb0. by apply (count_other G ea sp name Held (Used c) a).
  - intros b t Hb Hb0. by apply (dn_ok_other G ea sp name (Used c) a).
  - intros x Hx Hxa. destruct (Hlinks x Hx) as (H1 & H2 & H3). unfold n_dest, n_pd, n_member. rewrite !count_fresh by done.
    rewrite H1, H2, H3. cbn [Nb]. lia.
  - intros b q Hb Hq Hl. destruct (fresh_links _ _ Hq) as (H1 & H2 & _). destruct Hl; congruence.
  - intros eb sp0 name0 c0 [[<- [= <- <- <-]]|[Hne Hb]]%lookup_insert_Some; [done|]. pose proof (fresh_caps _ _ _ _ Hb) as Hca.
    apply (cap_ok_objects O); [by eapply (oi_caps _ _ _ _ Hinv)| | |].
    + intros s Hs. by rewrite lookup_insert_ne.
    + intros q Hq _ Hat. exists q. by rewrite lookup_insert_ne.
    + intros q Hq _. exists q. by rewrite lookup_insert_ne.
  - eapply uniq_update; [apply Hinv|done|]. intros x Hx. right. cbn in Hx. destruct (is_named (c_type c)); [|done]. injection Hx as <-.
    intros eb s Hs _ Hn. destruct s as [sp0 name0 [| |c0]]; try done. cbn in Hn. destruct (is_named (c_type c0)); [|done]. injection Hn as Hn.
    apply (fresh_caps _ _ _ _ Hs). congruence.
  - intros x Hx. rewrite lookup_insert_eq in Hx. by injection Hx as <-.
  - rewrite upd_naked_eq. done.
  - auto.
Qed.
End Object.

(** *** In the kernel *)

(** Memory for an object is in the kernel's part of the address space and not in
    use. *)
Definition can_create K : Prop :=
  ∀ otype c a c', otype < IOT_NUMBER → k_caches K !! ipc_object_cache otype = Some c → kmem_cache_alloc c = (Some a, c') →
    obj_addr a ∧ k_objects K !! a = None ∧ k_spaces K !! a = None.

Lemma io_alloc_spec K otype o Q :
  (∀ i, i < 6 → is_Some (k_caches K !! i)) → can_create K → otype < IOT_NUMBER →
  (∀ Cc', (∀ i, i < 6 → is_Some (Cc' !! i)) → Q 0 (set_k_caches Cc' K)) →
  (∀ a Cc', (∀ i, i < 6 → is_Some (Cc' !! i)) → Cc' !! ipc_entry_cache = k_caches K !! ipc_entry_cache →
     obj_addr a → k_objects K !! a = None → k_spaces K !! a = None →
     Q a (set_k_objects (<[a := o]> (k_objects K)) (set_k_caches Cc' K))) →
  wp (io_alloc otype o) Q K.
Proof.
  destruct K as [Sp E O M B Th Km Ts Ca Cc]. ksimpl. intros Hcc Hcreate Hty Hnone Hsome. unfold io_alloc, cache_alloc. ksteps.
  destruct (Hcc (ipc_object_cache otype)) as [c Hc]; [unfold ipc_object_cache, IOT_NUMBER in *; lia|]. eapply wp_deref; [done|]. cbv beta.
  assert (∀ c', (∀ i, i < 6 → is_Some (<[ipc_object_cache otype := c']> Cc !! i)) ∧
    <[ipc_object_cache otype := c']> Cc !! ipc_entry_cache = Cc !! ipc_entry_cache) as Hcc'.
  { intros c'. split.
    - intros i Hi. destruct (decide (i = ipc_object_cache otype)) as [->|Hne]; [by rewrite lookup_insert_eq|]. rewrite lookup_insert_ne by done. auto.
    - apply lookup_insert_ne. unfold ipc_object_cache, ipc_entry_cache. lia. }
  destruct (kmem_cache_alloc c) as [[a|] c'] eqn:Ha; ksteps; cbn [default].
  - destruct (Hcreate _ _ _ _ Hty Hc Ha) as (Haddr & Hnew & HSpa). destruct (Hcc' c') as [H1 H2]. assert (a ≠ 0) by apply Haddr.
    change IO_NULL with 0. keqb. unfold put_object. ksteps. by apply Hsome.
  - apply Hnone. apply Hcc'.
Qed.

(** An object with one reference, and the entry that holds the right for it;
    the object is still to be initialised. *)
Definition created K G n (sp : N) (t : ctype) (o : kobject) (name a : N) K' : Prop :=
  ∃ ea e K2, was_free G ea sp name ∧ Inv K2 (<[ea := Slot sp name Held]> G) n ∧
    same_spaces (k_spaces K) (k_spaces K2) ∧ k_objects K2 = k_objects K ∧
    obj_addr a ∧ k_objects K !! a = None ∧ k_spaces K !! a = None ∧ entry_rep e (Slot sp name (Used (Cap t a 0 0 false))) ∧
    K' = set_k_objects (<[a := o]> (k_objects K)) (set_k_entries (<[ea := e]> (k_entries K2)) K2).

(** What an initialised object has to be. *)
Record init_ok (sp name a : N) (t : ctype) (o : kobject) : Prop := {
  io_queue : ipt_messages (kobj_target o) = IMqueue [] [];
  io_kind : match o with
    | KPort p => t = TRecv ∧ io_otype (ip_object p) = IOT_PORT ∧ ip_references p = 1 ∧ received_at p sp name ∧ ip_srights p = 0 ∧
        ip_sorights p = 0 ∧ ip_dnrequests p = None ∧ ip_pdrequest p = IP_NULL ∧ ip_pset p = IPS_NULL ∧ ip_blocked p = []
    | KPset s => t = TPset ∧ io_otype (ipt_object (ips_target s)) = IOT_PORT_SET ∧ io_references (ipt_object (ips_target s)) = 1 ∧
        ips_active s = true ∧ ips_local_name s = name
    end;
}.

Lemma init_object_ok Sp O G n (ea sp name a : N) t o :
  ObjInv Sp O G n → O !! a = None → obj_addr a → Sp !! a = None → G !! ea = Some (Slot sp name Held) → name ≠ 0 → init_ok sp name a t o →
  object_ok (T := T) Sp (<[a := o]> O) (<[ea := Slot sp name (Used (Cap t a 0 0 false))]> G) (upd_naked n a no_rights) a o.
Proof.
  intros Hinv Hnew Haddr HSpa Hg Hname [_ Ho]. split_and!; [done|done|].
  destruct (fresh_counts _ _ _ _ _ Hinv Hnew Haddr) as (Hd & Hpd & Hm). assert (a ≠ 0) as Ha0 by apply Haddr.
  assert (∀ P, count (holds P a) (<[ea := Slot sp name (Used (Cap t a 0 0 false))]> G) = Nb (P t)) as Hcount.
  { intros P. pose proof (n_update P G ea sp name Held (Used (Cap t a 0 0 false)) a Hg) as Hu.
    rewrite (fresh_n_caps _ _ _ _ _ Hinv Hnew Haddr HSpa) in Hu.
    change (on P a Held) with 0 in Hu. pose proof (on_used P (Cap t a 0 0 false)) as Hon. cbn [c_type c_obj] in Hon. lia. }
  assert (∀ P, P o = false → count P O = 0 → count P (<[a := o]> O) = 0) as Hzero.
  { intros P HP H0. rewrite count_fresh, HP, H0 by done. done. }
  destruct o as [p|s].
  - destruct Ho as (-> & Hty & Hr & (Hact & Hrcv & Hrn) & Hsr & Hso & Hdn & Hpdr & Hps & _).
    assert (dest_is a (KPort p) = false ∧ pdrequest_is a (KPort p) = false) as [Hd1 Hd2].
    { unfold dest_is, pdrequest_is. rewrite Hrn, Hpdr. change MACH_PORT_NULL with 0. change IP_NULL with 0.
      rewrite (proj2 (N.eqb_neq name 0)), (proj2 (N.eqb_neq 0 a)) by done. by rewrite andb_false_r. }
    split; unfold n_caps, n_send, n_sonce, n_recv, n_dest, n_pd; rewrite ?upd_naked_eq, ?Hcount, ?Hr, ?Hsr, ?Hso, ?Hact, ?Hdn, ?Hps, ?Hpdr;
      cbn [no_rights nk_refs nk_send nk_sonce nk_recv nk_pd nk_kern Nb is_send is_sonce is_recv]; try done.
    + rewrite Hzero by done. done.
    + rewrite Hzero by done. done.
    + intros _ Hl. rewrite Hrn in Hl. done.
    + intros _ eb s c [[<- <-]|[Hne Hb]]%lookup_insert_Some Hs Hc; cbn in Hs; [by injection Hs as <-|].
      destruct s as [sp0 name0 st]. cbn in Hs. subst st. by destruct (fresh_caps _ _ _ _ _ Hinv Hnew Haddr HSpa _ _ _ _ Hb).
  - destruct Ho as (-> & Hty & Hr & Hact & Hln).
    split; unfold n_caps, n_member; rewrite ?upd_naked_eq, ?Hcount, ?Hr, ?Hact; cbn [no_rights nk_refs Nb]; try done.
    rewrite Hzero by done. done.
Qed.

(** The new object is empty, and the others do not know it. *)
Lemma init_queues O Th Km (sp name a : N) t o :
  (∀ b x, O !! b = Some x → queue_ok O Th Km b x) → O !! a = None → init_ok sp name a t o →
  ∀ b x, <[a := o]> O !! b = Some x → queue_ok (<[a := o]> O) Th Km b x.
Proof.
  intros Hq Hnew [Hms Ho] b x [[<- <-]|[Hne Hb]]%lookup_insert_Some.
  - split; rewrite ?Hms; cbn; [by intros ? ?%elem_of_nil|by intros ? ?%elem_of_nil|by apply NoDup_nil_2|by left|].
    intros p ->. destruct Ho as (_ & _ & _ & _ & _ & _ & _ & _ & _ & ->). split; [by intros ? ?%elem_of_nil|done].
  - eapply queue_ok_objects; [by apply Hq|]. intros k m p _ _ Hp _. exists p. split; [|done]. rewrite lookup_insert_ne; [done|congruence].
Qed.

Lemma inv_create K G n sp t o o' name a K' :
  created K G n sp t o name a K' → init_ok sp name a t o' →
  ∃ ea, was_free G ea sp name ∧ same_spaces (k_spaces K) (k_spaces K') ∧
    Inv (set_k_objects (<[a := o']> (k_objects K)) K') (<[ea := Slot sp name (Used (Cap t a 0 0 false))]> G) (upd_naked n a no_rights).
Proof.
  intros (ea & e & K2 & Hfree & HK2 & HSp & HO & Haddr & Hnew & HSpa & Hrep & ->) Hinit. exists ea. destruct K2 as [Sp2 E2 O2 M2 B2 Th2 Km2 Ts2 Ca2 Cc2].
  ksimpl_all. split_and!; [done|done|]. subst O2. destruct HK2 as [Hcc Hent Hobj Hmar Hq]. ksimpl_all.
  assert (<[ea := Slot sp name Held]> G !! ea = Some (Slot sp name Held)) as Hg by apply lookup_insert_eq.
  rewrite <- (insert_insert_eq G ea (Slot sp name (Used _)) (Slot sp name Held)).
  destruct (ei_slots _ _ _ Hent _ _ Hg) as [_ [Hn0 _] _ _]. cbn [sl_name] in Hn0.
  assert (Sp2 !! a = None) as HSpa2 by by apply HSp.
  assert (∃ p, t = TRecv ∧ o' = KPort p ∧ received_at p sp name ∧ ip_pdrequest p = IP_NULL ∧ ip_pset p = IPS_NULL ∨
    t = TPset ∧ ∃ s, o' = KPset s ∧ ips_active s = true ∧ ips_local_name s = name) as (p & Hkind).
  { destruct Hinit as [_ Ho]. destruct o' as [p|s].
    - exists p. left. by destruct Ho as (? & _ & _ & ? & _ & _ & _ & ? & ? & _).
    - destruct Ho as (? & _ & _ & ? & ?). eexists (IPort zero_target 0 0 0 0 0 0 0 0 None 0 0 0 0 [] 0). right. by eauto. }
  split; ksimpl; [done| | | |by eapply init_queues].
  - eapply ent_update_same; try done. by destruct Hkind as [[-> _]|[-> _]].
  - eapply obj_create; try done; [..|by eapply init_object_ok].
    + assert (a ≠ 0) as Ha0 by apply Haddr. destruct Hkind as [(-> & -> & Hat & _)|(-> & s & -> & Hs)]; (split; [done|]); cbn [c_type c_obj].
      * exists p. by rewrite lookup_insert_eq.
      * exists s. by rewrite lookup_insert_eq.
    + intros x Hx. destruct Hkind as [(_ & -> & (_ & _ & Hrn) & Hpd & Hps)|(_ & s & -> & _)]; [|done].
      unfold dest_is, pdrequest_is, member_of. rewrite Hrn, Hpd, Hps. change MACH_PORT_NULL with 0. change IP_NULL with 0. change IPS_NULL with 0.
      rewrite (proj2 (N.eqb_neq name 0)), (proj2 (N.eqb_neq 0 x)) by done. by rewrite andb_false_r.
    + unfold next_port. rewrite lookup_insert_eq. destruct Hkind as [(_ & -> & (_ & _ & Hrn) & _)|(_ & s & -> & _)]; [|done].
      rewrite Hrn. change MACH_PORT_NULL with 0. by rewrite (proj2 (N.eqb_neq name 0)), andb_false_r by done.
  - eapply mar_ok_update; [done|done|]. done.
Qed.

(** ** The routines *)

Context (garbage : ipc_entry).

(** An object that was allocated in vain. *)
Lemma io_free_new_spec K G n otype a o Q :
  Inv K G n → k_objects K !! a = None → otype < IOT_NUMBER →
  (∀ K', Inv K' G n → k_spaces K' = k_spaces K → k_objects K' = k_objects K → Q tt K') →
  wp (io_free otype a) Q (set_k_objects (<[a := o]> (k_objects K)) K).
Proof.
  destruct K as [Sp E O M B Th Km Ts Ca Cc]. intros [Hcc Hent Hobj Hmar Hq] Hnew Hty HQ. ksimpl_all. unfold io_free. ksteps.
  eapply cache_free_spec; [done|unfold ipc_object_cache, IOT_NUMBER in *; lia|]. intros Cc' Hcc'. rewrite delete_insert_id by done. apply HQ; done.
Qed.

Definition installed (otype : N) : kobject :=
  kobj_upd_target (upd_object (set_io_bits (io_makebits true otype 0))) (kobj_upd_target (upd_object (set_io_references 1)) (zero_object otype)).
Definition object_type (t : ctype) (otype : N) : Prop := t = TRecv ∧ otype = IOT_PORT ∨ t = TPset ∧ otype = IOT_PORT_SET.

Lemma check_object_args_spec K t otype Q : object_type t otype → Q tt K → wp (check_object_args otype (2 ^ 16 * type_code t) 0) Q K.
Proof. intros [[-> ->]|[-> ->]] HQ; unfold check_object_args; by ksteps. Qed.

Section Objects.
Context K G n (sp : N) (S : ipc_space T) (t : ctype) (otype : N).
Context (Hinv : Inv K G n) (HS : k_spaces K !! sp = Some S) (Halloc : can_alloc K sp) (Hcreate : can_create K).
Context (Htype : object_type t otype).

Lemma object_type_number : otype < IOT_NUMBER.
Proof. by destruct Htype as [[_ ->]|[_ ->]]. Qed.

(** The object is there. *)
Lemma alloc_object_spec {A} (k : N → M (kernel T C) A) (err : A) Q :
  (∀ K', Inv K' G n → same_spaces (k_spaces K) (k_spaces K') → Q err K') →
  (∀ a K1, Inv K1 G n → k_spaces K1 = k_spaces K → k_objects K1 = k_objects K → can_alloc K1 sp →
     obj_addr a → k_objects K !! a = None → k_spaces K !! a = None →
     wp (k a) Q (set_k_objects (<[a := zero_object otype]> (k_objects K)) K1)) →
  wp (object ← io_alloc otype (zero_object otype); if object =? IO_NULL then mret err else k object) Q K.
Proof.
  intros Herr Hok. pose proof object_type_number as Hnum. destruct Hinv as [Hcc Hent Hobj Hmar Hq]. destruct Halloc as [Hf Hs Hn].
  kstep. eapply io_alloc_spec; [done|done|done| |].
  - intros Cc' Hcc'. change (0 =? IO_NULL) with true. cbv iota. kstep. apply Herr; by destruct K.
  - intros a Cc' Hcc' Hcache Haddr Hnew HSpa. assert (a ≠ 0) by apply Haddr. change IO_NULL with 0. keqb.
    apply (Hok a (set_k_caches Cc' K)); try done; [by destruct K..|]. destruct K as [Sp E O M B Th Km Ts Ca Cc]. ksimpl_all.
    split; ksimpl; [|done|done]. intros c b c'. rewrite Hcache. by apply Hf.
Qed.

(** The entry is there, too. *)
Lemma install_object_spec {A} (r : A) name ea a K1 K2 Q :
  alloc_post K1 G n sp (KERN_SUCCESS, Some (name, ea)) K2 → k_spaces K1 = k_spaces K → k_objects K1 = k_objects K →
  obj_addr a → k_objects K !! a = None → k_spaces K !! a = None →
  (∀ K', created K G n sp t (installed otype) name a K' → Q r K') →
  wp (install_object ea a otype (2 ^ 16 * type_code t) 0;; mret r) Q (set_k_objects (<[a := zero_object otype]> (k_objects K)) K2).
Proof.
  intros (HSp & HO & _ & _ & Hfree & HK2 & e & He & (Hn & Hb & Ho & Hr)) HSp1 HO1 Haddr Hnew HSpa HQ.
  rewrite HSp1 in HSp. rewrite HO1 in HO.
  assert (wp (install_object ea a otype (2 ^ 16 * type_code t) 0) (λ _ K', created K G n sp t (installed otype) name a K')
    (set_k_objects (<[a := zero_object otype]> (k_objects K)) K2)) as Hwp.
  2: { kstep. eapply wp_mono; [exact Hwp|]. intros u K' HK'. kstep. by apply HQ. }
  destruct K2 as [Sp2 E2 O2 M2 B2 Th2 Km2 Ts2 Ca2 Cc2]. cbn [k_spaces k_objects k_entries set_k_objects] in *.
  unfold install_object, upd_object_target, put_object. ksteps. rewrite !insert_insert_eq. eexists ea, _, _.
  split; [exact Hfree|]. split; [exact HK2|]. cbn [k_spaces k_objects k_entries set_k_objects set_k_entries].
  split_and!; try done. split_and!; cbn; try done. rewrite Hb. unfold cap_bits, bits_of. by destruct Htype as [[-> _]|[-> _]].
Qed.

Context (Q : kern_return_t * option (N * N) → kernel T C → Prop).
Context (Hfail : ∀ kr K', kr ≠ KERN_SUCCESS → Inv K' G n → same_spaces (k_spaces K) (k_spaces K') → Q (kr, None) K').

Lemma ipc_object_alloc_spec :
  (∀ name a K', created K G n sp t (installed otype) name a K' → Q (KERN_SUCCESS, Some (name, a)) K') →
  wp (ipc_object_alloc garbage sp otype (2 ^ 16 * type_code t) 0) Q K.
Proof.
  intros Hok. unfold ipc_object_alloc. kstep. apply check_object_args_spec; [done|]. apply alloc_object_spec; [intros; by apply Hfail|].
  intros a K1 HK1 HSp1 HO1 Halloc1 Haddr Hnew HSpa. apply wp_bind, wp_no_objects; [apply no_objects_entry_alloc|].
  eapply ipc_entry_alloc_spec; [done|by rewrite HSp1|done|]. intros [kr [[name ea]|]] K2 Hpost; cbv beta iota.
  - by eapply install_object_spec; [destruct Hpost as (? & ? & ? & ? & ?)|..|apply Hok].
  - destruct Hpost as (HSp & HO & _ & Hkr & HK2). cbn [fst snd] in Hkr. apply wp_bind. rewrite <- HO1, <- HO.
    eapply (io_free_new_spec K2 G n); [done|by rewrite HO, HO1|apply object_type_number|]. intros K3 HK3 HSp3 _. kstep. apply Hfail; [done|done|].
    rewrite HSp3. by rewrite <- HSp1.
Qed.
End Objects.

Lemma ipc_object_alloc_name_spec K G n sp S t otype name Q :
  Inv K G n → k_spaces K !! sp = Some S → can_alloc K sp → can_create K → object_type t otype →
  quiescent G → name ≠ 0 → name < MACH_PORT_NAME_DEAD →
  (∀ kr K', kr ≠ KERN_SUCCESS → Inv K' G n → same_spaces (k_spaces K) (k_spaces K') → Q (kr, None) K') →
  (∀ a K', created K G n sp t (installed otype) name a K' → Q (KERN_SUCCESS, Some a) K') →
  wp (ipc_object_alloc_name garbage sp otype (2 ^ 16 * type_code t) 0 name) Q K.
Proof.
  intros Hinv HS Halloc Hcreate Htype Hqui Hn0 Hnd Hfail Hok. unfold ipc_object_alloc_name. kstep.
  apply check_object_args_spec; [done|]. eapply alloc_object_spec; try done; [intros; by apply Hfail|].
  intros a K1 HK1 HSp1 HO1 Halloc1 Haddr Hnew HSpa.
  assert (∀ kr K2, Inv K2 G n → same_spaces (k_spaces K1) (k_spaces K2) → k_objects K2 = k_objects K1 → kr ≠ KERN_SUCCESS →
    wp (io_free otype a;; mret (kr, None)) Q (set_k_objects (<[a := zero_object otype]> (k_objects K)) K2)) as Hfree.
  { intros kr K2 HK2 HSp2 HO2 Hkr. apply wp_bind. rewrite <- HO1, <- HO2. eapply (io_free_new_spec K2 G n); [done|by rewrite HO2, HO1|by eapply object_type_number|].
    intros K3 HK3 HSp3 _. kstep. apply Hfail; [done|done|]. rewrite HSp3. by rewrite <- HSp1. }
  apply wp_bind, wp_no_objects; [apply no_objects_entry_alloc_name|].
  eapply ipc_entry_alloc_name_spec; [done|done|by rewrite HSp1|done|done|done|]. intros [kr [ea|]] K2 Hpost; cbv beta iota.
  - destruct Hpost as [Hkr [[[c Hg] ->]|Hpost]]; cbn [fst] in Hkr; subst kr.
    + destruct (ei_slots _ _ _ (inv_ents _ _ _ HK1) _ _ Hg) as [_ _ _ (e & He & _ & Hb & _)]. cbn [sl_state] in Hb.
      unfold ipc_right_inuse. do 2 kstep. eapply wp_load_entry; [by destruct K1|]. kstep. rewrite Hb. change MACH_PORT_TYPE_NONE with 0.
      rewrite cap_type_nonzero by by eapply inv_caps_wf. cbn [negb]. by apply Hfree.
    + pose proof Hpost as (_ & _ & _ & _ & _ & _ & e & He & (_ & Hb & _)).
      unfold ipc_right_inuse. do 2 kstep. eapply wp_load_entry; [by destruct K2|]. kstep. rewrite Hb.
      change (negb (IE_BITS_TYPE 0 =? MACH_PORT_TYPE_NONE)) with false. cbv iota. eapply install_object_spec; try done. by apply Hok.
  - destruct Hpost as (HSp & HO & _ & Hkr & HK2). by apply Hfree.
Qed.

(** *** Ports, port sets and dead names *)

Definition init_port (port space name : N) (p : ipc_port) : ipc_port :=
  IPort (ITarget (IObject (ip_references p) (N.ldiff (ip_bits p) IO_BITS_PROTECTED_PAYLOAD)) name (IMqueue [] [])) port space (ip_kobject p)
    0 0 0 IP_NULL IP_NULL None IPS_NULL 0 0 MACH_PORT_QLIMIT_DEFAULT [] 0.

Lemma ipc_port_init_spec K port space name p Q :
  k_objects K !! port = Some (KPort p) →
  Q tt (set_k_objects (<[port := KPort (init_port port space name p)]> (k_objects K)) K) → wp (ipc_port_init port space name) Q K.
Proof.
  destruct K as [Sp E O M B Th Km Ts Ca Cc]. intros Hp HQ. ksimpl_all. unfold ipc_port_init. ksteps. rewrite !insert_insert_eq. exact HQ.
Qed.

(** What a call that creates a right makes of the capabilities: a new one under a
    name that was free. *)
Definition new_cap K n (right : N) (c : cap) (n' : naked) : Prop :=
  (right = MACH_PORT_RIGHT_RECEIVE ∧ c = Cap TRecv (c_obj c) 0 0 false ∨ right = MACH_PORT_RIGHT_PORT_SET ∧ c = Cap TPset (c_obj c) 0 0 false) ∧
    k_objects K !! c_obj c = None ∧ n' = upd_naked n (c_obj c) no_rights ∨
  right = MACH_PORT_RIGHT_DEAD_NAME ∧ c = Cap TDead 0 1 0 false ∧ n' = n.
Definition allocated K G n (sp right : N) (kr : kern_return_t) (name : N) K' : Prop :=
  same_spaces (k_spaces K) (k_spaces K') ∧
  if kr =? KERN_SUCCESS
  then ∃ ea c n', was_free G ea sp name ∧ new_cap K n right c n' ∧ Inv K' (<[ea := Slot sp name (Used c)]> G) n'
  else Inv K' G n.

Lemma failed K G n sp right kr name K' :
  kr ≠ KERN_SUCCESS → Inv K' G n → same_spaces (k_spaces K) (k_spaces K') → allocated K G n sp right kr name K'.
Proof. intros Hkr HK' HSp. split; [done|]. by rewrite (proj2 (N.eqb_neq kr KERN_SUCCESS)). Qed.

Section Allocate.
Context K G n (sp : N) (S : ipc_space T).
Context (Hinv : Inv K G n) (HS : k_spaces K !! sp = Some S) (Halloc : can_alloc K sp) (Hcreate : can_create K).

(** A new object, initialised. *)
Lemma created_port name a K' Q :
  created K G n sp TRecv (installed IOT_PORT) name a K' →
  (∀ K2, allocated K G n sp MACH_PORT_RIGHT_RECEIVE KERN_SUCCESS name K2 → Q tt K2) → wp (ipc_port_init a sp name) Q K'.
Proof.
  intros Hcr HQ. pose proof Hcr as (ea & e & K2 & _ & _ & _ & HO & _ & Hnew & _ & _ & HK'). eapply ipc_port_init_spec.
  { rewrite HK'. destruct K2; ksimpl. apply lookup_insert_eq. }
  apply HQ. set (o' := KPort (init_port a sp name _)).
  destruct (inv_create _ _ _ _ _ _ o' _ _ _ Hcr) as (ea' & Hfree & HSp & Hinv'); [by split|].
  split; [by destruct K'|]. exists ea', (Cap TRecv a 0 0 false), (upd_naked n a no_rights). split_and!; [done|by left; split_and!; [left|..]|].
  replace (k_objects K') with (<[a := installed IOT_PORT]> (k_objects K)) by (rewrite HK'; by destruct K2). by rewrite insert_insert_eq.
Qed.

Lemma created_pset name a K' Q :
  created K G n sp TPset (installed IOT_PORT_SET) name a K' →
  (∀ K2, allocated K G n sp MACH_PORT_RIGHT_PORT_SET KERN_SUCCESS name K2 → Q tt K2) → wp (upd_pset a (ipc_target_init name)) Q K'.
Proof.
  intros Hcr HQ. pose proof Hcr as (ea & e & K2 & _ & _ & _ & HO & _ & Hnew & _ & _ & HK'). unfold upd_pset, load_pset.
  assert (k_objects K' !! a = Some (installed IOT_PORT_SET)) as Ha by (rewrite HK'; destruct K2; ksimpl; apply lookup_insert_eq).
  do 2 apply wp_bind. eapply wp_load_object; [done|].
  change (installed IOT_PORT_SET) with (KPset (IPset (ITarget (IObject 1 (io_makebits true IOT_PORT_SET 0)) 0 (IMqueue [] [])))).
  apply wp_ret. unfold put_object. apply wp_modify.
  apply HQ. set (o' := KPset _).
  destruct (inv_create _ _ _ _ _ _ o' _ _ _ Hcr) as (ea' & Hfree & HSp & Hinv'); [by split|].
  split; [by destruct K'|]. exists ea', (Cap TPset a 0 0 false), (upd_naked n a no_rights). split_and!; [done|by left; split_and!; [right|..]|].
  replace (k_objects K') with (<[a := installed IOT_PORT_SET]> (k_objects K)) by (rewrite HK'; by destruct K2). by rewrite insert_insert_eq.
Qed.

(** A new entry becomes a dead name. *)
Lemma alloc_dead_spec {A} (r : A) name ea K2 Q :
  alloc_post K G n sp (KERN_SUCCESS, Some (name, ea)) K2 →
  (∀ K', allocated K G n sp MACH_PORT_RIGHT_DEAD_NAME KERN_SUCCESS name K' → Q r K') →
  wp (e ← load_entry ea;
      check (ie_object e =? IO_NULL);;
      upd_entry ea (λ e, set_ie_bits (N.lor (ie_bits e) (N.lor MACH_PORT_TYPE_DEAD_NAME 1)) e);;
      mret r) Q K2.
Proof.
  intros (HSp & HO & _ & _ & Hfree & HK2 & e & He & (Hn & Hb & Ho & Hr)) HQ. destruct K2 as [Sp2 E2 O2 M2 B2 Th2 Km2 Ts2 Ca2 Cc2]. ksimpl_all.
  ksteps. rewrite Ho. ksteps. apply HQ. split; [done|]. exists ea, (Cap TDead 0 1 0 false), n. split_and!; [done|by right|].
  rewrite <- (insert_insert_eq G ea (Slot sp name (Used _)) (Slot sp name Held)).
  eapply (inv_vacant_step (Kernel Sp2 E2 O2 M2 B2 Th2 Km2 Ts2 Ca2 Cc2) _ n ea sp name Held); try done; [apply lookup_insert_eq|].
  split; [done|]. cbn [sl_state]. split_and!; [by cbn; rewrite Hb|done|done].
Qed.

Lemma mach_port_allocate_spec right :
  wp (mach_port_allocate garbage sp right) (λ '(kr, name) K', allocated K G n sp right kr name K') K.
Proof.
  unfold mach_port_allocate. destruct (sp =? IS_NULL); [kstep; by apply failed|].
  destruct (N.eqb_spec right MACH_PORT_RIGHT_RECEIVE) as [->|Hr1].
  { unfold ipc_port_alloc. apply wp_bind, wp_bind. eapply (ipc_object_alloc_spec K G n sp S TRecv IOT_PORT); try done; [by left| |].
    - intros kr K' Hkr HK' HSp. ksteps. by apply failed.
    - intros name a K' Hcr. kstep. eapply created_port; [done|]. intros K2 HK2. by ksteps. }
  destruct (N.eqb_spec right MACH_PORT_RIGHT_PORT_SET) as [->|Hr2].
  { unfold ipc_pset_alloc. apply wp_bind, wp_bind. eapply (ipc_object_alloc_spec K G n sp S TPset IOT_PORT_SET); try done; [by right| |].
    - intros kr K' Hkr HK' HSp. ksteps. by apply failed.
    - intros name a K' Hcr. kstep. eapply created_pset; [done|]. intros K2 HK2. by ksteps. }
  destruct (N.eqb_spec right MACH_PORT_RIGHT_DEAD_NAME) as [->|Hr3]; [|kstep; by apply failed].
  unfold ipc_object_alloc_dead. kstep. eapply ipc_entry_alloc_spec; try done. intros [kr [[name ea]|]] K2 Hpost; cbv beta iota.
  - eapply alloc_dead_spec; [by destruct Hpost as (? & ? & ? & ? & ?)|done].
  - destruct Hpost as (HSp & _ & _ & Hkr & HK2). kstep. by apply failed.
Qed.

Lemma mach_port_allocate_name_spec right name :
  quiescent G → name < 2 ^ 32 →
  wp (mach_port_allocate_name garbage sp right name) (λ kr K', allocated K G n sp right kr name K') K.
Proof.
  intros Hqui Hname. unfold mach_port_allocate_name. destruct (sp =? IS_NULL); [kstep; by apply failed|].
  destruct (MACH_PORT_NAME_VALID name) eqn:Hv; cbn [negb]; [|kstep; by apply failed].
  assert (name ≠ 0 ∧ name < MACH_PORT_NAME_DEAD) as [Hn0 Hnd].
  { unfold MACH_PORT_NAME_VALID in Hv. apply andb_true_iff in Hv as [H0%negb_true_iff%N.eqb_neq H1%negb_true_iff%N.eqb_neq].
    unfold MACH_PORT_NAME_DEAD, MACH_PORT_NAME_NULL in *. split; [done|lia]. }
  destruct (N.eqb_spec right MACH_PORT_RIGHT_RECEIVE) as [->|Hr1].
  { unfold ipc_port_alloc_name. apply wp_bind, wp_bind. eapply (ipc_object_alloc_name_spec K G n sp S TRecv IOT_PORT); try done; [by left| |].
    - intros kr K' Hkr HK' HSp. ksteps. by apply failed.
    - intros a K' Hcr. kstep. eapply created_port; [done|]. intros K2 HK2. by ksteps. }
  destruct (N.eqb_spec right MACH_PORT_RIGHT_PORT_SET) as [->|Hr2].
  { unfold ipc_pset_alloc_name. apply wp_bind, wp_bind. eapply (ipc_object_alloc_name_spec K G n sp S TPset IOT_PORT_SET); try done; [by right| |].
    - intros kr K' Hkr HK' HSp. ksteps. by apply failed.
    - intros a K' Hcr. kstep. eapply created_pset; [done|]. intros K2 HK2. by ksteps. }
  destruct (N.eqb_spec right MACH_PORT_RIGHT_DEAD_NAME) as [->|Hr3]; [|kstep; by apply failed].
  unfold ipc_object_alloc_dead_name. kstep. eapply ipc_entry_alloc_name_spec; try done. intros [kr [ea|]] K2 Hpost; cbv beta iota.
  - destruct Hpost as [_ [[[c Hg] ->]|Hpost]]; unfold ipc_right_inuse.
    + destruct (ei_slots _ _ _ (inv_ents _ _ _ Hinv) _ _ Hg) as [_ _ _ (e & He & _ & Hb & _)]. cbn [sl_state] in Hb.
      do 2 kstep. eapply wp_load_entry; [done|]. kstep. rewrite Hb. change MACH_PORT_TYPE_NONE with 0.
      rewrite cap_type_nonzero by by eapply inv_caps_wf. cbn [negb]. kstep. by apply failed.
    + pose proof Hpost as (_ & _ & _ & _ & _ & _ & e & He & (_ & Hb & _)).
      do 2 kstep. eapply wp_load_entry; [done|]. kstep. rewrite Hb. change (negb (IE_BITS_TYPE 0 =? MACH_PORT_TYPE_NONE)) with false. cbv iota.
      by eapply alloc_dead_spec.
  - destruct Hpost as (HSp & _ & _ & Hkr & HK2). kstep. by apply failed.
Qed.
End Allocate.
End Create.
