(* ===== verification/IpcRightEnd.v ===== *)
(** [ipc_right_destroy]: whatever an entry holds is given up, and a port or a
    port set dies with its receive right or its entry. *)

From S2P Require Import Prelude Kmem Rdxtree RdxtreeInv RdxtreeSpec RdxtreeMap IpcTypes IpcEntry IpcPort IpcMarequest IpcRight IpcObject IpcBits IpcInv IpcUpdate IpcDn IpcMar IpcStep IpcRelease IpcCheck IpcVacate IpcDealloc IpcDelta IpcCopyin IpcClear IpcReceive IpcCopyout IpcDestroy IpcEnd IpcPset IpcAlloc IpcTransfer.

Open Scope N_scope.

Section RightEnd.
Context `{!Config} {T C : Type} `{!KeyMap T} `{!KmemCache C}.
Implicit Types (K : kernel T C) (O : gmap N kobject) (G : gmap N eslot) (n : naked).

(** The rights outside of entries once the entry is gone. *)
Definition destroy_post K G n (ea sp name : N) (c : cap) (kr : kern_return_t) K' : Prop :=
  kr = KERN_SUCCESS ∧
  if is_recv (c_type c) then receive_ended K G n ea sp name c None K'
  else same_spaces (k_spaces K) (k_spaces K') ∧ ∃ G', freed G ea sp name G' ∧
    Inv K' G' (if is_sonce (c_type c) && live_port (k_objects K) c then upd_naked n (c_obj c) (add_right TSonce (n (c_obj c))) else n).

Section Cases.
Context (Sp : gmap N (ipc_space T)) (E : gmap N ipc_entry) (O : gmap N kobject) (M : gmap N ipc_marequest).
Context (B : gmap N (list N)) (Th : gmap N ipc_thread) (Km : gmap N ipc_kmsg) (Ts : N) (Ca : list call) (Cc : gmap N C).
Context (G : gmap N eslot) (n : naked) (ea sp name : N) (c : cap) (p : ipc_port) (e : ipc_entry).
#[local] Abbreviation K := (Kernel Sp E O M B Th Km Ts Ca Cc).
#[local] Abbreviation GH := (<[ea := Slot sp name Held]> G).
#[local] Abbreviation pa := (c_obj c).
Context (Hinv : Inv K G n) (Hg : G !! ea = Some (Slot sp name (Used c))) (Hwf : cap_wf c).
Context (He : E !! ea = Some e) (Hrep : entry_rep e (Slot sp name (Used c))).
Context (Hp : O !! pa = Some (KPort p)) (Hty : is_named (c_type c) || is_sonce (c_type c) = true).

Lemma destroy_cancel_spec Q :
  (∀ M' B', mar_ok Sp GH M' B' → Q tt (Kernel Sp E O M' B' Th Km Ts Ca Cc)) →
  wp (if has (cap_bits c) IE_BITS_MAREQUEST then
        check (has (IE_BITS_TYPE (cap_bits c)) MACH_PORT_TYPE_SEND_RECEIVE);; ipc_marequest_cancel sp name
      else mret tt) Q K.
Proof.
  intros HQ. pose proof Hinv as [_ Hent _ Hmar _]. ksimpl_all. destruct (ei_slots _ _ _ Hent _ _ Hg) as [_ [Hn0 _] Hspa _]. cbn [sl_name sl_space] in *.
  pose proof (ent_sole _ _ _ _ _ _ _ Hent Hg) as Hsole. rewrite cap_has_marequest, cap_type by done. destruct (c_ma c) eqn:Hma.
  - kstep. apply wp_check. { unfold cap_wf in Hwf. rewrite Hma in Hwf. destruct (c_type c); destruct_and?; done. }
    eapply (ipc_marequest_cancel_spec _ G ea sp name (Used c) Held); try done.
  - kstep. apply HQ. eapply mar_ok_update; [done|done|]. simpl. by rewrite Hma.
Qed.

Lemma destroy_reverse_spec M' B' Q :
  (∀ S t, Sp !! sp = Some S → rev_ok GH sp t → Q tt (Kernel (<[sp := set_is_reverse_map t S]> Sp) E O M' B' Th Km Ts Ca Cc)) →
  wp (if IE_BITS_TYPE (cap_bits c) =? MACH_PORT_TYPE_SEND then _ ← ipc_reverse_remove sp pa; mret tt else mret tt) Q
    (Kernel Sp E O M' B' Th Km Ts Ca Cc).
Proof.
  intros HQ. pose proof Hinv as [_ Hent Hobj _ _]. ksimpl_all. destruct (ei_slots _ _ _ Hent _ _ Hg) as [_ _ (S & HS & HSa) _]. cbn [sl_space] in *.
  destruct (ei_spaces _ _ _ Hent _ _ HS HSa) as [Hsp0 _ Hrev _]. destruct (oi_objects _ _ _ _ Hobj _ _ Hp) as (Haddr & _ & _).
  rewrite cap_type by done. destruct (decide (c_type c = TSend)) as [Ht|Ht].
  - rewrite Ht. change (2 ^ 16 * type_code TSend =? MACH_PORT_TYPE_SEND) with true. cbv iota. kstep.
    assert (pure_send (Used c) = Some pa) as Hpure by (simpl; by rewrite Ht).
    eapply (ipc_reverse_remove_spec _ G ea sp name (Used c) Held); try done. intros v t Ht'. kstep. by apply HQ.
  - replace (2 ^ 16 * type_code (c_type c) =? MACH_PORT_TYPE_SEND) with false by (by destruct (c_type c)). kstep.
    rewrite <- (insert_id Sp sp (set_is_reverse_map (is_reverse_map S) S)) at 1 by (by destruct S). apply (HQ S); [done|].
    eapply rev_ok_update; [done| |done]. intros _. simpl. by destruct (c_type c).
Qed.

(** The port is dead: only a reference goes. *)
Lemma destroy_dead_spec S t M' B' Q :
  ip_active p = false → Sp !! sp = Some S → rev_ok GH sp t → mar_ok Sp GH M' B' →
  (∀ K' G', Inv K' G' n → freed G ea sp name G' → same_spaces Sp (k_spaces K') → Q KERN_SUCCESS K') →
  wp (upd_port pa ip_release;;
      io_check_unlock pa;;
      upd_entry ea (set_ie_request 0);;
      upd_entry ea (set_ie_object IO_NULL);;
      ipc_entry_dealloc sp name ea;;
      mret KERN_SUCCESS) Q (Kernel (<[sp := set_is_reverse_map t S]> Sp) E O M' B' Th Km Ts Ca Cc).
Proof.
  intros Hdead HS Hrev Hmar HQ. pose proof (inv_caches _ _ _ Hinv) as Hcc. pose proof Hrep as (Hn & _). cbn [sl_name] in Hn.
  destruct (oi_objects _ _ _ _ (inv_objs _ _ _ Hinv) _ _ Hp) as (_ & _ & Hport). ksimpl_all.
  assert (c_type c = TSend ∨ c_type c = TSonce) as Ht.
  { pose proof (oi_caps _ _ _ _ (inv_objs _ _ _ Hinv) _ _ _ _ Hg) as Hcap. destruct (c_type c) eqn:Ht; auto; try done;
      (destruct (cap_ok_port_of _ _ _ _ Hcap) as (q & Hq & Hat); [congruence..|]); ksimpl_all; rewrite Hp in Hq; injection Hq as <-;
      destruct Hat as [? _]; [by rewrite Ht|congruence|by rewrite Ht|congruence]. }
  assert (∀ O' Cc', (ip_references p ≠ 1 ∧ O' = <[pa := KPort (ip_release p)]> O ∨ ip_references p = 1 ∧ O' = delete pa O) →
    (∀ i, i < 6 → is_Some (Cc' !! i)) →
    wp (upd_entry ea (set_ie_request 0);; upd_entry ea (set_ie_object IO_NULL);; ipc_entry_dealloc sp name ea;; mret KERN_SUCCESS) Q
      (Kernel (<[sp := set_is_reverse_map t S]> Sp) E O' M' B' Th Km Ts Ca Cc')) as Htail.
  { intros O' Cc' HO' Hcc'. ksteps. rewrite insert_insert_eq.
    eapply (inv_dealloc _ GH n); [by eapply inv_drop_dead|apply lookup_insert_eq|apply lookup_insert_eq|done|by apply (set_ie_request_read 0 e)|].
    intros K' G' HK' Hf%freed_insert [_ HSp]. ksteps. eapply HQ; [done|done|]. ksimpl_all.
    eapply same_spaces_trans; [|exact HSp]. by eapply same_spaces_insert. }
  kstep. kstep. kstep. eapply port_check_unlock_spec; ksimpl; [apply lookup_insert_eq|apply Hport|done| |];
    rewrite ip_release_refs by apply Hport; pose proof (po_pos _ _ _ _ _ _ Hport).
  - intros H1. apply Htail; [left; split; [lia|done]|done].
  - intros H1 Cc' Hcc'. ksimpl. rewrite delete_insert_eq. apply Htail; [right; split; [lia|done]|done].
Qed.

(** A live port. *)
Context (Hact : ip_active p = true).

Lemma destroy_vacate_spec {A} S t M' B' (k : N → Prelude.M (kernel T C) A) Q :
  c_type c = TSend ∨ c_type c = TSonce → Sp !! sp = Some S → rev_ok GH sp t → mar_ok Sp GH M' B' →
  (∀ r ot K' G', Inv K' G' (upd_naked n pa (add_right (c_type c) (n pa))) → freed G ea sp name G' → same_spaces Sp (k_spaces K') →
     k_objects K' !! pa = Some (KPort (set_ip_dnrequests ot p)) → wp (k r) Q K') →
  wp (dn ← ipc_right_dncancel_macro sp pa name ea;
      upd_entry ea (set_ie_object IO_NULL);; ipc_entry_dealloc sp name ea;; k dn) Q
    (Kernel (<[sp := set_is_reverse_map t S]> Sp) E O M' B' Th Km Ts Ca Cc).
Proof.
  intros Ht HS Hrev Hmar HQ. pose proof Hrep as (Hn & Hb & Ho & Hq). cbn [sl_state sl_name] in *. pose proof (inv_ents _ _ _ Hinv) as Hent.
  destruct (oi_objects _ _ _ _ (inv_objs _ _ _ Hinv) _ _ Hp) as (_ & _ & Hport). ksimpl_all.
  destruct (ei_slots _ _ _ Hent _ _ Hg) as [_ [Hn0 _] _ _]. cbn [sl_name] in *.
  kstep. eapply (dncancel_spec _ G ea sp name c Held p e); try done; [by apply Hport|].
  intros r ot e' Hdn Hn' Hb' Ho' Hr'. do 3 kstep. rewrite insert_insert_eq.
  eapply (inv_dealloc_objects _ GH); [eapply inv_vacate; try done|apply lookup_insert_eq|apply lookup_insert_eq|done|exact Hr'|].
  { cbn. congruence. }
  intros K' G' HK' Hf%freed_insert [_ HSp] HO. eapply HQ; [done|done| |].
  - ksimpl_all. eapply same_spaces_trans; [|exact HSp]. by eapply same_spaces_insert.
  - destruct K'. ksimpl_all. rewrite HO. apply lookup_insert_eq.
Qed.

Lemma destroy_sonce_spec r K' G' ot Q :
  c_type c = TSonce → Inv K' G' (upd_naked n pa (add_right TSonce (n pa))) → k_objects K' !! pa = Some (KPort (set_ip_dnrequests ot p)) →
  (∀ Ca', Q tt (set_k_calls Ca' K')) → wp (right_release sp name pa (IE_BITS_TYPE (cap_bits c)) r false) Q K'.
Proof.
  intros Ht HK' Hp' HQ. destruct (oi_objects _ _ _ _ (inv_objs _ _ _ HK') _ _ Hp') as (_ & _ & Hport).
  pose proof (po_sonce _ _ _ _ _ _ Hport) as Hso. rewrite upd_naked_eq in Hso. cbn [add_right nk_sonce is_sonce Nb] in Hso.
  destruct K' as [Sp1 E1 O1 M1 B1 Th1 Km1 Ts1 Ca1 Cc1]. ksimpl_all. rewrite cap_type, Ht by done. unfold right_release.
  change (has (2 ^ 16 * type_code TSonce) MACH_PORT_TYPE_SEND) with false.
  change (has (2 ^ 16 * type_code TSonce) MACH_PORT_TYPE_RECEIVE) with false.
  change (has (2 ^ 16 * type_code TSonce) MACH_PORT_TYPE_SEND_ONCE) with true. cbv iota. ksteps.
  rewrite (proj2 (N.eqb_neq _ 0)) by lia. ksteps. apply notify_no_senders_spec. intros Ca2.
  apply notify_port_deleted_spec. intros Ca3. apply HQ.
Qed.

(** The space of a pure send right is not that of the receive right. *)
Lemma send_elsewhere : c_type c = TSend → ip_receiver p ≠ sp.
Proof.
  intros Ht Hrs. destruct (ei_slots _ _ _ (inv_ents _ _ _ Hinv) _ _ Hg) as [_ _ Hspa _]. cbn [sl_space] in Hspa.
  destruct (receiver_entry K G n pa p sp Hinv Hp Hact Hrs Hspa) as (eb & cb & Hb & Hcb & Hrb).
  assert (eb = ea) as ->.
  { eapply (oi_uniq _ _ _ _ (inv_objs _ _ _ Hinv) eb ea _ _ pa Hb Hg); [done| |]; simpl; [|by rewrite Ht].
    rewrite Hcb. by destruct (c_type cb). }
  rewrite Hg in Hb. injection Hb as _ <-. by rewrite Ht in Hrb.
Qed.

Lemma destroy_send_spec r K' G' ot Q :
  c_type c = TSend → Inv K' G' (upd_naked n pa (add_right TSend (n pa))) → k_objects K' !! pa = Some (KPort (set_ip_dnrequests ot p)) →
  (∀ K2, Inv K2 G' n → k_spaces K2 = k_spaces K' → Q tt K2) → wp (right_release sp name pa (IE_BITS_TYPE (cap_bits c)) r false) Q K'.
Proof.
  intros Ht HK' Hp' HQ. pose proof (send_elsewhere Ht) as Hrs.
  destruct (oi_objects _ _ _ _ (inv_objs _ _ _ HK') _ _ Hp') as (Haddr & _ & Hport). pose proof (po_pos _ _ _ _ _ _ Hport) as Hpos.
  pose proof (po_send _ _ _ _ _ _ Hport Hact) as Hse. pose proof (srights_bounds _ _ _ _ _ _ Hport Hact) as Hsb.
  pose proof (po_naked _ _ _ _ _ _ Hport) as Hnk. pose proof (po_refs _ _ _ _ _ _ Hport) as Hrefs. pose proof (po_recv _ _ _ _ _ _ Hport) as Hre.
  pose proof (po_pd _ _ _ _ _ _ Hport) as Hpd.
  assert (n_recv G' pa ≤ n_caps G' pa) as Hle.
  { apply count_mono. intros i s _. unfold holds. destruct (sl_state s); try done. by intros [-> _]%andb_true_iff. }
  rewrite upd_naked_eq in *. change (ip_active (set_ip_dnrequests ot p)) with (ip_active p) in Hre. rewrite Hact in Hre.
  cbn [add_right nk_refs nk_send nk_sonce nk_recv nk_pd nk_kern is_send is_sonce is_recv Nb] in *.
  destruct K' as [Sp1 E1 O1 M1 B1 Th1 Km1 Ts1 Ca1 Cc1]. ksimpl_all. rewrite cap_type, Ht by done. unfold right_release.
  change (has (2 ^ 16 * type_code TSend) MACH_PORT_TYPE_SEND) with true.
  change (has (2 ^ 16 * type_code TSend) MACH_PORT_TYPE_RECEIVE) with false.
  change (has (2 ^ 16 * type_code TSend) MACH_PORT_TYPE_SEND_ONCE) with false. cbv iota. ksteps.
  rewrite (proj2 (N.eqb_neq _ 0)) by lia. ksteps. eapply drop_send_right_spec; [done|lia|]. intros ns nsr. ksteps. keqb. ksteps.
  rewrite insert_insert_eq. apply notify_no_senders_spec. intros Ca2. apply notify_port_deleted_spec. intros Ca3.
  apply HQ; [|done]. apply (inv_calls (Kernel _ _ _ _ _ _ _ _ Ca1 _)). eapply inv_naked_ext.
  2: { eapply (inv_naked_step Sp1 E1 O1 M1 B1 Th1 Km1 Ts1 Ca1 Cc1 G' _ HK' pa _ _ (n pa)); [exact Hp'|done|apply HK'|].
       change (ip_references (set_ip_dnrequests ot p)) with (ip_references p) in *.
       change (ip_srights (set_ip_dnrequests ot p)) with (ip_srights p) in *.
       eapply (port_ok_naked Sp1 O1 G' _ pa _ _ (n pa) Hport); try done; rewrite ?upd_naked_eq;
         cbn [add_right nk_refs nk_send nk_sonce nk_recv nk_pd nk_kern is_send is_sonce is_recv Nb]; psimpl; try lia; first [apply Haddr|apply Hport]. }
  intros a. destruct (decide (a = pa)) as [->|Hne]; [by rewrite upd_naked_eq|by rewrite !upd_naked_ne].
Qed.

(** The receive right, alone or with send rights. *)
Lemma destroy_receive_spec M' B' Q :
  is_recv (c_type c) = true → mar_ok Sp GH M' B' → (ip_pdrequest p ≠ IP_NULL → spare_ref K (ip_pdrequest p)) →
  (∀ K' G', freed G ea sp name G' → ended Sp p pa G' n K' → Q KERN_SUCCESS K') →
  wp (dn ← ipc_right_dncancel_macro sp pa name ea;
      upd_entry ea (set_ie_object IO_NULL);; ipc_entry_dealloc sp name ea;;
      right_release sp name pa (IE_BITS_TYPE (cap_bits c)) dn false;; mret KERN_SUCCESS) Q (Kernel Sp E O M' B' Th Km Ts Ca Cc).
Proof.
  intros Hr Hmar Hspare HQ. destruct (end_port_addr Sp E O M B Th Km Ts Ca Cc G n c p Hinv Hp) as [Haddr Hport].
  destruct (end_received Sp E O M B Th Km Ts Ca Cc G n ea sp name c p Hinv Hg Hr Hp) as (_ & Hrs & Hrn).
  eapply vacate_entry_spec; try done. intros r ot Sp1 E1 Cc1 G1 Hdn Hent1 Hf Hfol HSp Hcc1 Hmar1. kstep. unfold right_release.
  assert (∀ p0 Q', same_place p p0 → ip_references p0 = ip_references p → ip_sorights p0 = ip_sorights p →
    ip_srights p0 + Nb (is_send (c_type c)) = ip_srights p → ip_dnrequests p0 = ot → (∀ K', ended Sp p pa G1 n K' → Q' tt K') →
    wp (check (ip_active p0);; check (ip_receiver p0 =? sp);; ipc_port_clear_receiver pa;; ipc_port_destroy pa) Q'
      (Kernel Sp1 E1 (<[pa := KPort p0]> O) M' B' Th Km Ts Ca Cc1)) as Hend.
  { intros p0 Q' Hsame H1 H2 H3 H4 HQ'. kstep. apply wp_check; [by rewrite (same_place_active _ _ Hsame)|]. kstep.
    apply wp_check; [unfold ip_receiver in *; rewrite (sm_data _ _ Hsame); by apply N.eqb_eq|].
    eapply (receive_end_spec Sp E O M B Th Km Ts Ca Cc G n ea sp name c p Hinv Hg Hr Hp Hact Held p0 (ip_srights p0) ot G1); try done.
    left. by split_and!. }
  assert (∀ ns K', ended Sp p pa G1 n K' → wp (notify_no_senders ns;; notify_port_deleted r name) (λ _, wp (mret KERN_SUCCESS) Q) K') as Hnot.
  { intros ns K' HK'. kstep. apply notify_no_senders_spec. intros Ca2. apply notify_port_deleted_spec. intros Ca3. kstep.
    by apply (HQ _ G1 Hf), ended_calls. }
  rewrite cap_type by done. destruct (c_type c) eqn:Ht; try done.
  - change (has (2 ^ 16 * type_code TRecv) MACH_PORT_TYPE_SEND) with false.
    change (has (2 ^ 16 * type_code TRecv) MACH_PORT_TYPE_RECEIVE) with true. cbv iota. do 5 kstep.
    apply Hend; try done; [apply N.add_0_r|]. intros K' HK'. by apply Hnot.
  - change (has (2 ^ 16 * type_code TSendRecv) MACH_PORT_TYPE_SEND) with true.
    change (has (2 ^ 16 * type_code TSendRecv) MACH_PORT_TYPE_RECEIVE) with true. cbv iota.
    assert (0 < ip_srights p) as Hs0 by (eapply send_counted; [done|done|exact Hg|done|by rewrite Ht]).
    pose proof (srights_bounds _ _ _ _ _ _ Hport Hact) as Hsb.
    do 4 kstep. change (ip_srights (set_ip_dnrequests ot p)) with (ip_srights p). rewrite (proj2 (N.eqb_neq (ip_srights p) 0)) by lia. kstep.
    eapply drop_send_right_spec; ksimpl; [apply lookup_insert_eq|cbn; lia|]. intros ns nsr. ksimpl. rewrite insert_insert_eq. do 3 kstep.
    apply Hend; try done; [cbn; lia|]. intros K' HK'. by apply Hnot.
Qed.
End Cases.

(** The branch of [ipc_right_destroy] for the rights of ports. *)
Lemma destroy_port_spec K G n ea sp name c p :
  Inv K G n → G !! ea = Some (Slot sp name (Used c)) → backup_ok K c → is_named (c_type c) || is_sonce (c_type c) = true →
  k_objects K !! c_obj c = Some (KPort p) → (is_recv (c_type c) = true → ip_active p = true) →
  wp ((if has (cap_bits c) IE_BITS_MAREQUEST then
         check (has (IE_BITS_TYPE (cap_bits c)) MACH_PORT_TYPE_SEND_RECEIVE);; ipc_marequest_cancel sp name
       else mret tt);;
      (if IE_BITS_TYPE (cap_bits c) =? MACH_PORT_TYPE_SEND then _ ← ipc_reverse_remove sp (c_obj c); mret tt else mret tt);;
      p ← load_port (c_obj c);
      if negb (ip_active p) then
        check (negb (has (IE_BITS_TYPE (cap_bits c)) MACH_PORT_TYPE_RECEIVE));;
        upd_port (c_obj c) ip_release;;
        io_check_unlock (c_obj c);;
        upd_entry ea (set_ie_request 0);;
        upd_entry ea (set_ie_object IO_NULL);;
        ipc_entry_dealloc sp name ea;;
        mret KERN_SUCCESS
      else
      dnrequest ← ipc_right_dncancel_macro sp (c_obj c) name ea;
      upd_entry ea (set_ie_object IO_NULL);;
      ipc_entry_dealloc sp name ea;;
      right_release sp name (c_obj c) (IE_BITS_TYPE (cap_bits c)) dnrequest false;;
      mret KERN_SUCCESS) (destroy_post K G n ea sp name c) K.
Proof.
  intros Hinv Hg Hback Hty Hp Hlive. pose proof (inv_caps_wf _ _ _ Hinv _ _ _ _ Hg) as Hwf.
  destruct (ei_slots _ _ _ (inv_ents _ _ _ Hinv) _ _ Hg) as [_ _ _ (e & He & Hrep)]. destruct K as [Sp E O M B Th Km Ts Ca Cc]. ksimpl_all.
  kstep. eapply destroy_cancel_spec; try done. intros M' B' Hmar. destruct (is_recv (c_type c)) eqn:Hr.
  { rewrite (cap_type c Hwf) at 1. replace (2 ^ 16 * type_code (c_type c) =? MACH_PORT_TYPE_SEND) with false by (by destruct (c_type c)).
    do 4 kstep. rewrite (Hlive eq_refl). cbn [negb]. eapply destroy_receive_spec; try done; [by apply Hlive|by apply Hback|].
    intros K' G' Hf Hend. split; [done|]. rewrite Hr. by exists G', p. }
  kstep. eapply destroy_reverse_spec; try done. intros S t HS Hrev. do 2 kstep. destruct (ip_active p) eqn:Hact; cbn [negb].
  - assert (c_type c = TSend ∨ c_type c = TSonce) as Ht by (destruct (c_type c); auto; done).
    eapply destroy_vacate_spec; try done. intros r ot K' G' HK' Hf HSp Hp'. kstep.
    assert (live_port O c = true) as Hl by (unfold live_port; by rewrite Hp). destruct Ht as [Ht|Ht]; rewrite Ht in HK'.
    + eapply destroy_send_spec; try done. intros K2 HK2 HSp2. kstep. split; [done|]. rewrite Hr, Ht. split; [by rewrite HSp2|]. by exists G'.
    + eapply destroy_sonce_spec; try done. intros Ca'. kstep. split; [done|]. rewrite Hr, Ht. ksimpl. rewrite Hl. split; [by destruct K'|].
      exists G'. split; [done|]. by apply inv_calls.
  - kstep. apply wp_check. { rewrite cap_type by done. by destruct (c_type c). }
    eapply destroy_dead_spec; try done. intros K' G' HK' Hf HSp. split; [done|]. rewrite Hr. split; [done|]. exists G'. split; [done|].
    assert (live_port O c = false) as Hl by (unfold live_port; by rewrite Hp). ksimpl. by rewrite Hl, andb_false_r.
Qed.

Lemma ipc_right_destroy_spec K G n ea sp name c :
  Inv K G n → G !! ea = Some (Slot sp name (Used c)) → backup_ok K c →
  wp (ipc_right_destroy sp name ea) (destroy_post K G n ea sp name c) K.
Proof.
  intros Hinv Hg Hback. pose proof (oi_caps _ _ _ _ (inv_objs _ _ _ Hinv) _ _ _ _ Hg) as Hcap. pose proof Hcap as [Hwf _].
  destruct (ei_slots _ _ _ (inv_ents _ _ _ Hinv) _ _ Hg) as [_ _ (S0 & HS0 & HSa) (e & He & Hn & Hb & Ho & Hr)]. cbn [sl_state sl_name sl_space] in *.
  unfold ipc_right_destroy. do 4 kstep. rewrite Hb, Ho, Hr. kstep. apply wp_check; [done|].
  destruct (is_named (c_type c) || is_sonce (c_type c)) eqn:Hty.
  - destruct (cap_ok_port_of _ _ _ _ Hcap) as (p & Hp & Hat); [by destruct (c_type c)..|].
    assert (c_obj c ≠ IP_NULL) as Ho0 by (by apply (oi_objects _ _ _ _ (inv_objs _ _ _ Hinv) _ _ Hp)).
    assert ((IE_BITS_TYPE (cap_bits c) =? MACH_PORT_TYPE_DEAD_NAME) = false ∧ (IE_BITS_TYPE (cap_bits c) =? MACH_PORT_TYPE_PORT_SET) = false ∧
      (IE_BITS_TYPE (cap_bits c) =? MACH_PORT_TYPE_SEND) || (IE_BITS_TYPE (cap_bits c) =? MACH_PORT_TYPE_RECEIVE) ||
      (IE_BITS_TYPE (cap_bits c) =? MACH_PORT_TYPE_SEND_RECEIVE) || (IE_BITS_TYPE (cap_bits c) =? MACH_PORT_TYPE_SEND_ONCE) = true)
      as (-> & -> & ->) by (rewrite cap_type by done; by destruct (c_type c)).
    keqb. do 2 kstep. eapply destroy_port_spec; try done. intros Hrc. by apply Hat.
  - destruct (c_type c) eqn:Ht; try done; rewrite cap_type, Ht by done; unfold cap_wf in Hwf; rewrite Ht in Hwf.
    + destruct Hwf as (Ho0 & Hu & Hreq & Hma). change (2 ^ 16 * type_code TDead =? MACH_PORT_TYPE_DEAD_NAME) with true. cbv iota.
      rewrite Ho0, Hreq, cap_has_marequest, Hma by (unfold cap_wf; rewrite Ht; done). do 7 kstep.
      eapply (inv_dealloc _ (<[ea := Slot sp name Held]> G) n); [by eapply inv_hold|apply lookup_insert_eq|done|congruence|congruence|].
      intros K' G' HK' Hf%freed_insert [_ HSp]. kstep. split; [done|]. rewrite Ht. split; [done|]. by exists G'.
    + destruct Hwf as (Ho0 & Hu & Hreq & Hma). change (2 ^ 16 * type_code TPset =? MACH_PORT_TYPE_DEAD_NAME) with false.
      change (2 ^ 16 * type_code TPset =? MACH_PORT_TYPE_PORT_SET) with true. cbv iota. rewrite Hreq. change IPS_NULL with 0. keqb. do 4 kstep.
      eapply pset_entry_end_spec; try done. intros K' G' HK' Hf HSp. split; [done|]. rewrite Ht. split; [done|]. by exists G'.
Qed.
End RightEnd.
