(* ===== verification/IpcDemo.v ===== *)
(** A concrete kernel on which the theorems about IPC can be evaluated: finite
    maps as the trees of the spaces, two spaces, three ports and the rights for
    them, and the proof that it satisfies the invariant. *)

From S2P Require Import Prelude Kmem Rdxtree RdxtreeInv RdxtreeSpec RdxtreeMap IpcTypes IpcEntry IpcPort IpcMarequest IpcBits IpcInv IpcUpdate IpcCopyin IpcReceive IpcAlloc.

Open Scope N_scope.

(** ** Finite maps as trees *)

(** Keys 1 to 63 can be allocated. *)
Definition demo_key (t : gmap N N) : option N :=
  list_find (λ k, t !! k = None) (N.of_nat <$> seq 1 63) ≫= λ x, Some x.2.

Lemma demo_key_spec t k : demo_key t = Some k → t !! k = None ∧ 0 < k < 64.
Proof.
  unfold demo_key. intros ([i0 x] & (Hl & Hk & _)%list_find_Some & [= <-])%bind_Some. split; [done|].
  apply list_elem_of_lookup_2, list_elem_of_fmap in Hl as (i & -> & Hi%elem_of_seq). lia.
Qed.

Definition demo_insert (k v : N) : M (gmap N N) N :=
  t ← get;
  match t !! k with
  | Some _ => mret ERR_BUSY
  | None => modify (λ t, <[k := v]> t);; mret ERR_SUCCESS
  end.
Definition demo_insert_alloc (v : N) : M (gmap N N) (N * option N) :=
  t ← get;
  match demo_key t with
  | Some k => modify (λ t, <[k := v]> t);; mret (ERR_SUCCESS, Some k)
  | None => mret (ERR_NOMEM, None)
  end.
Definition demo_walk (k : N) : M (gmap N N) (N * N) :=
  t ← get;
  match list_find (λ j, k ≤ j ∧ is_Some (t !! j)) (N.of_nat <$> seq 0 64) with
  | Some (_, j) => mret (default 0 (t !! j), j + 1)
  | None => mret (0, k)
  end.

#[export] Program Instance demo_keymap : KeyMap (gmap N N) := {|
  km_slot := N;
  km_iter := N;
  km_init := modify (λ _, ∅);
  km_lookup k := t ← get; mret (default 0 (t !! k));
  km_lookup_slot k := t ← get; mret ((λ _, k) <$> t !! k);
  km_slot_read k := t ← get; mret (default 0 (t !! k));
  km_replace_slot k v := t ← get; modify (λ t, <[k := v]> t);; mret (default 0 (t !! k));
  km_insert := demo_insert;
  km_insert_alloc := demo_insert_alloc;
  km_remove k := t ← get; modify (λ t, delete k t);; mret (default 0 (t !! k));
  km_iter_init := 0;
  km_walk := demo_walk;
  km_remove_all := modify (λ _, ∅);
  km_fresh t := True;
  km_rep t m := t = m;
  km_holds t m k sl := sl = k;
  km_iter_at t m it k := it = k;
  km_alloc_safe t := True;
  km_walk_safe t := map_Forall (λ k v, k < 64 ∧ v ≠ 0) t;
|}.
Next Obligation. done. Qed.
Next Obligation. intros t m k <- Hk. by wp_steps. Qed.
Next Obligation.
  intros t m k <- Hk. wp_steps. split; [done|]. destruct (t !! k) eqn:E; [|done]. by eauto.
Qed.
Next Obligation. intros t m k sl <- ->. by wp_steps. Qed.
Next Obligation. intros t m k sl v <- -> Hw Hv Hv0. by wp_steps. Qed.
Next Obligation.
  intros t m k v <- Hk Hv Hv0. unfold demo_insert. wp_steps. destruct (t !! k) eqn:E; wp_steps; [right; left|left]; by eauto.
Qed.
Next Obligation.
  intros t m v <- _ Hv Hv0. unfold demo_insert_alloc. wp_steps. destruct (demo_key t) as [k|] eqn:E; wp_steps; [left|by right].
  apply demo_key_spec in E as [? ?]. exists k. split_and!; [done|done|lia|done].
Qed.
Next Obligation. intros t m k <- Hk. by wp_steps. Qed.
Next Obligation. done. Qed.
Next Obligation.
  intros t m it from <- Hsafe ->. unfold demo_walk. wp_steps.
  destruct (list_find _ _) as [[i j]|] eqn:E; wp_steps; (split; [done|]).
  - right. apply list_find_Some in E as (Hi & [Hle [v Hv]] & Hno). exists j. rewrite Hv. cbn [default fst snd].
    destruct (Hsafe _ _ Hv) as [Hj Hv0]. split_and!; try done. intros j' [Hle' Hlt']. destruct (t !! j') as [w|] eqn:Hw; [|done].
    apply list_lookup_fmap_Some in Hi as (x & -> & Hx). apply lookup_seq in Hx as [-> Hi].
    destruct (Hno (N.to_nat j') j'); [|lia|by rewrite Hw; eauto]. rewrite list_lookup_fmap, lookup_seq_lt by lia. cbn. f_equal. lia.
  - left. split; [done|]. intros k Hk. destruct (t !! k) as [w|] eqn:Hw; [|done]. destruct (Hsafe _ _ Hw) as [Hk64 _].
    apply list_find_None in E. rewrite list.Forall_forall in E. destruct (E k); [|by rewrite Hw; eauto].
    apply list_elem_of_fmap. exists (N.to_nat k). split; [lia|]. apply elem_of_seq. lia.
Qed.

Lemma demo_roomy (t : gmap N N) : roomy t.
Proof. intros k v err t'. cbn [km_insert demo_keymap]. unfold demo_insert, mbind, M_bind, get. destruct (t !! k); by intros [= <- <-]. Qed.

(** ** The kernel *)

#[export] Instance demo_config : Config := {|
  VM_MIN_KERNEL_ADDRESS := 0xc0000000;
  zero_entry := 8;
  ipc_space_kernel := 0x3000;
  ipc_marequest_mask := 3;
  ipc_table_dnrequests := ipc_table_init 16 4096;
|}.

(** Two spaces. *)
Definition spA : N := 0x1000.
Definition spB : N := 0x2000.
(** A port whose receive right is in [spA], one without send rights, a dead one,
    and a port set that the second belongs to. *)
Definition p1 : N := 0xc0000040.
Definition p2 : N := 0xc0000080.
Definition p3 : N := 0xc00000c0.
Definition ps4 : N := 0xc0000100.

Definition demo_table : gmap N eslot :=
  <[16 := Slot spA 1 (Used (Cap TSendRecv p1 2 0 false))]> $
  <[24 := Slot spA 2 (Used (Cap TRecv p2 0 0 false))]> $
  <[32 := Slot spB 1 (Used (Cap TSend p1 3 0 false))]> $
  <[40 := Slot spB 2 (Used (Cap TSonce p1 1 0 false))]> $
  <[48 := Slot spB 3 (Used (Cap TSend p3 2 0 false))]> $
  <[56 := Slot spB 4 Free]> $
  <[64 := Slot spA 3 (Used (Cap TPset ps4 0 0 false))]> ∅.

(** A send right for [p1] is in a message. *)
Definition demo_naked : naked := upd_naked (λ _, Naked 0 0 0 0 0 0) p1 (Naked 1 1 0 0 0 0).

Definition demo_port (refs bits name data srights sorights pset : N) : kobject :=
  KPort (IPort (ITarget (IObject refs bits) name (IMqueue [] [])) 0 data 0 0 srights sorights
    IP_NULL IP_NULL None pset 0 0 MACH_PORT_QLIMIT_DEFAULT [] 0).
Definition demo_pset (refs name : N) (msgs : list N) : kobject :=
  KPset (IPset (ITarget (IObject refs (io_makebits true IOT_PORT_SET 0)) name (IMqueue msgs []))).

Definition demo_spaces : gmap N (ipc_space (gmap N N)) :=
  <[spA := ISpace 1 true (<[1 := 16]> $ <[2 := 24]> $ <[3 := 64]> $ <[0 := 8]> ∅) 4 ∅ 0 0]> $
  <[spB := ISpace 1 true (<[1 := 32]> $ <[2 := 40]> $ <[3 := 48]> $ <[4 := 56]> $ <[0 := 8]> ∅) 4
             (<[KEY p1 := 32]> $ <[KEY p3 := 48]> ∅) 56 1]> ∅.

Definition demo_entries : gmap N ipc_entry :=
  <[8 := IEntry 0 0 0 0]> $
  <[16 := IEntry 1 (bits_of 2 3) p1 0]> $
  <[24 := IEntry 2 (bits_of 0 2) p2 0]> $
  <[32 := IEntry 1 (bits_of 3 1) p1 0]> $
  <[40 := IEntry 2 (bits_of 1 4) p1 0]> $
  <[48 := IEntry 3 (bits_of 2 1) p3 0]> $
  <[56 := IEntry 4 0 0 0]> $
  <[64 := IEntry 3 (bits_of 0 8) ps4 0]> ∅.

Definition demo_objects : gmap N kobject :=
  <[p1 := demo_port 4 IO_BITS_ACTIVE 1 spA 3 1 IPS_NULL]> $
  <[p2 := demo_port 1 IO_BITS_ACTIVE 2 spA 0 0 ps4]> $
  <[p3 := demo_port 1 0 0 7 0 0 IPS_NULL]> $
  <[ps4 := demo_pset 2 3 []]> ∅.

Definition demo_kernel : kernel (gmap N N) free_list :=
  Kernel demo_spaces demo_entries demo_objects ∅ (<[0 := []]> $ <[1 := []]> $ <[2 := []]> $ <[3 := []]> ∅) ∅ ∅ 9 []
    (<[0 := fl_init 8]> $ <[1 := FreeList [0x300000; 0x300001; 0x300002] ∅]> $ <[2 := FreeList [0x300008; 0x300009] ∅]> $ <[3 := fl_init 4]> $ <[4 := fl_init 4]> $
     <[5 := fl_init 4]> ∅).

(** The elements of a map written out as insertions. *)
Ltac each H :=
  repeat (apply lookup_insert_Some in H as [[? ?]|[_ H]]; [simplify_eq|]); try (by rewrite lookup_empty in H).

Lemma demo_active a : active_space demo_spaces a ↔ a = spA ∨ a = spB.
Proof.
  split.
  - intros (S & HS & _). unfold demo_spaces in HS. apply lookup_insert_Some in HS as [[<- _]|[_ HS]]; [by left|].
    apply lookup_insert_Some in HS as [[<- _]|[_ HS]]; [by right|]. by rewrite lookup_empty in HS.
  - intros [->| ->]; eexists; by split.
Qed.

Lemma demo_map_ok sp S : demo_spaces !! sp = Some S → map_ok demo_table sp (is_map S).
Proof.
  intros HS. eexists. split; [done|]. split; [unfold demo_spaces in HS; by each HS|]. intros name ea Hn. split.
  - intros Hm. unfold demo_spaces in HS. each HS; cbn [is_map] in Hm; each Hm; eexists; done.
  - intros (st & Hst). unfold demo_table in Hst. unfold demo_spaces in HS. each HS; each Hst; done.
Qed.

Lemma demo_rev_ok sp S : demo_spaces !! sp = Some S → rev_ok demo_table sp (is_reverse_map S).
Proof.
  intros HS. eexists. split; [done|]. intros pa ea Hpa. split.
  - intros Hr. unfold demo_spaces in HS. each HS; cbn [is_reverse_map] in Hr.
    repeat (apply lookup_insert_Some in Hr as [[Hk <-]|[_ Hr]]; [apply key_inj in Hk as <-; [eexists _, _; done|done|done]|]).
    by rewrite lookup_empty in Hr.
  - intros (name & c & Hg & Ht & <-). unfold demo_table in Hg. unfold demo_spaces in HS. each HS; each Hg; done.
Qed.

Lemma demo_ents : EntInv demo_spaces demo_entries demo_table.
Proof.
  split.
  - split_and!; [done|done|done|]. eexists. by split_and!.
  - intros ea s Hs. unfold demo_table in Hs. each Hs; (split; [done|done|apply demo_active; auto|eexists; by split_and!]).
  - intros sp S HS _. split; [by unfold demo_spaces in HS; each HS|by apply demo_map_ok|by apply demo_rev_ok| |].
    2: { unfold demo_spaces in HS. each HS; vm_compute; reflexivity. }
    unfold demo_spaces in HS. each HS; cbn [is_free_list is_free_list_size].
    + exists []. split_and!; [done|by apply NoDup_nil_2|done|done|]. intros ea. split; [by intros ?%elem_of_nil|].
      intros (name & Hg). unfold demo_table in Hg. each Hg.
    + exists [56]. split_and!; [split; [done|]; eexists; by split|by apply NoDup_singleton|done|done|]. intros ea. split.
      * intros ->%list_elem_of_singleton. by eexists.
      * intros (name & Hg). unfold demo_table in Hg. each Hg. by left.
Qed.

Lemma demo_uniq : uniq demo_table.
Proof.
  intros ea ea' s s' o Hs Hs'. unfold demo_table in Hs, Hs'. each Hs; each Hs'; intros Hsp Hn Hn'; cbn in *; by simplify_eq.
Qed.

Lemma demo_addr pa o : demo_objects !! pa = Some o → obj_addr pa ∧ demo_spaces !! pa = None.
Proof. intros Ho. unfold demo_objects in Ho. by each Ho. Qed.

Lemma demo_object_ok a o :
  demo_objects !! a = Some o → object_ok demo_spaces demo_objects demo_table demo_naked a o.
Proof.
  intros Ho. destruct (demo_addr _ _ Ho) as [Ha Hs]. split_and!; [done|done|]. unfold demo_objects, demo_port, demo_pset in Ho.
  each Ho; split.
  all: try (vm_compute; done).
  all: try (intros _ Hl; vm_compute in Hl; done).
  all: try (by split; [|eexists]).
  all: intros _ ea s c Hs' Hst _; unfold demo_table in Hs'; each Hs'; cbn in Hst; by simplify_eq.
Qed.

Lemma demo_mars : mar_ok demo_spaces demo_table (k_marequests demo_kernel) (k_buckets demo_kernel).
Proof.
  assert (∀ i l, k_buckets demo_kernel !! i = Some l → l = []) as Hnil.
  { intros i l Hl. cbn [k_buckets demo_kernel] in Hl. by each Hl. }
  split.
  - intros sp name. unfold IMAR_HASH. generalize (u32 (N.shiftr (u32 sp) 4 + name)). intros x.
    cbn [ipc_marequest_mask demo_config]. change 3 with (N.ones 2). rewrite N.land_ones.
    assert (x mod 2 ^ 2 < 4) as Hlt by (apply N.mod_lt; done). revert Hlt. generalize (x mod 2 ^ 2). intros y Hy.
    assert (y = 0 ∨ y = 1 ∨ y = 2 ∨ y = 3) as [->|[->|[->| ->]]] by lia; eexists; done.
  - intros i l a ->%Hnil []%elem_of_nil.
  - intros i l ->%Hnil. by apply NoDup_nil_2.
  - intros i l sp name a a' ->%Hnil [[]%elem_of_nil _].
  - intros sp name l _ ->%Hnil. split; [intros (a & []%elem_of_nil & _)|]. intros (ea & s & Hs & _ & _ & Hm).
    unfold demo_table in Hs. each Hs.
Qed.

Lemma demo_inv : Inv demo_kernel demo_table demo_naked.
Proof.
  split.
  - intros i Hi. assert (i = 0 ∨ i = 1 ∨ i = 2 ∨ i = 3 ∨ i = 4 ∨ i = 5) as [->|[->|[->|[->|[->| ->]]]]] by lia; eexists; done.
  - exact demo_ents.
  - split.
    + intros ea sp name c Hg. unfold demo_table in Hg. each Hg; (split; [done|]); try (eexists; split; done); eexists; by split_and!.
    + exact demo_uniq.
    + exact demo_object_ok.
    + intros o. unfold demo_naked, upd_naked. destruct (N.eqb_spec o p1) as [->|_]; [|done]. intros _. eexists. done.
    + intros a. exists 1%nat. cbn [Nat.iter nat_rect]. unfold next_port. destruct (_ !! a) as [o|] eqn:Ho; [|done].
      cbn [k_objects demo_kernel] in Ho. unfold demo_objects in Ho. by each Ho.
  - exact demo_mars.
  - intros a o Ho. unfold k_objects, demo_kernel, demo_objects in Ho. each Ho; (split; cbn).
    all: try (intros ? []%elem_of_nil). all: try (by left). all: try (by apply NoDup_nil_2). all: intros q [= <-]; (split; [intros ? []%elem_of_nil|done]).
Qed.

Lemma demo_spare o : spare_ref demo_kernel o.
Proof. intros p Hp. cbn [k_objects demo_kernel] in Hp. unfold demo_objects, demo_port in Hp. each Hp; cbn; lia. Qed.

Lemma demo_room {C} (K : kernel (gmap N N) C) sp : room_in K sp.
Proof. intros S _. apply demo_roomy. Qed.

(** Names can be allocated when the cache of entries has fresh memory. *)
Lemma demo_can_alloc (K : kernel (gmap N N) free_list) sp c :
  k_caches K !! ipc_entry_cache = Some c →
  match fl_alloc c with (Some a, _) => k_entries K !! a = None | _ => True end → can_alloc K sp.
Proof.
  intros Hc Hf. split; [|done|].
  - intros c' a c'' Hc' Ha. rewrite Hc in Hc'. injection Hc' as <-. cbn in Ha. by rewrite Ha in Hf.
  - intros S v k t' _. cbn [km_insert_alloc demo_keymap]. unfold demo_insert_alloc, mbind, M_bind, get. cbn -[demo_key].
    destruct (demo_key (is_map S)) as [k'|] eqn:E; cbn -[demo_key]; [|by intros [=]].
    intros [= <- _]. apply demo_key_spec in E as [_ ?]. unfold MACH_PORT_NAME_DEAD. lia.
Qed.

Lemma demo_quiescent ea sp name : demo_table !! ea ≠ Some (Slot sp name Held).
Proof. intros Hs. unfold demo_table in Hs. each Hs. Qed.
