(* ===== verification/IpcClaims.v ===== *)
(** The theorems about rights, stated on runs: an operation on a kernel that
    satisfies the invariant returns, without a failed assertion or a dangling
    pointer, and its effect is that of a function on capabilities. *)

From S2P Require Import Prelude Kmem Rdxtree RdxtreeInv RdxtreeSpec RdxtreeMap IpcTypes IpcEntry IpcPort IpcMarequest IpcRight IpcObject IpcBits IpcInv IpcUpdate IpcDn IpcMar IpcStep IpcRelease IpcCheck IpcVacate IpcDealloc IpcDelta IpcCopyin IpcClear IpcReceive IpcCopyout IpcAlloc IpcTransfer IpcDemo.

Open Scope N_scope.

(** ** Rights in transit *)

Section Transit.
Context `{!Config} {T C : Type} `{!KeyMap T} `{!KmemCache C}.
Implicit Types (K : kernel T C) (G : gmap N eslot) (n : naked).

(** A right that was just handed out can be copied out. *)
Lemma hand_out_right n o t r : nk_pd (n o) ≤ nk_sonce (n o) → nk_kern (n o) ≤ nk_recv (n o) →
  hand_out n o (Some t) = r → has_right r o t.
Proof.
  intros Hpd Hk <-. unfold hand_out, has_right. rewrite upd_naked_eq. unfold add_right. destruct (n o). cbn in *. lia.
Qed.

Lemma cap_object K G n ea sp name c :
  Inv K G n → G !! ea = Some (Slot sp name (Used c)) → is_send (c_type c) || is_sonce (c_type c) || is_recv (c_type c) = true →
  ∃ p, k_objects K !! c_obj c = Some (KPort p) ∧ nk_pd (n (c_obj c)) ≤ nk_sonce (n (c_obj c)) ∧
    nk_kern (n (c_obj c)) ≤ nk_recv (n (c_obj c)).
Proof.
  intros Hinv Hg Ht. pose proof (oi_caps _ _ _ _ (inv_objs _ _ _ Hinv) _ _ _ _ Hg) as Hcap.
  destruct (cap_ok_port_of _ _ _ _ Hcap) as (p & Hp & _); [by destruct (c_type c)..|]. exists p. split; [done|].
  destruct (oi_objects _ _ _ _ (inv_objs _ _ _ Hinv) _ _ Hp) as (_ & _ & Hport).
  pose proof (po_pd _ _ _ _ _ _ Hport). destruct (po_naked_recv _ _ _ _ _ _ Hport) as [? _]. lia.
Qed.

(** What leaves a space is a right for a port, of the type that the message
    will name. *)
Lemma copyin_cap_out live msgt_name deadok c kr obj st' t :
  is_copyin msgt_name → copyin_cap live msgt_name deadok c = (kr, obj, st', Some t) →
  kr = KERN_SUCCESS ∧ obj = c_obj c ∧ t ∈ [TSonce; TSend; TRecv] ∧
  is_send (c_type c) || is_sonce (c_type c) || is_recv (c_type c) = true ∧
  ∀ K, ipc_object_copyin_type msgt_name K = Some (right_type t, K).
Proof.
  unfold is_copyin. rewrite !elem_of_cons, elem_of_nil. intros Hm Hc.
  destruct Hm as [->|[->|[->|[->|[->|[->|[]]]]]]]; unfold copyin_cap in Hc; cbn [N.eqb Pos.eqb] in Hc;
    unfold send_outcome, dead_outcome, no_right in Hc; destruct (c_type c); cbn in Hc;
    repeat case_match; simplify_eq; (split_and!; [done|done|set_solver|done|done]).
Qed.

Lemma settled_back K n o t :
  (t = TRecv → in_limbo K o) → t ∈ [TSonce; TSend; TRecv] → ∀ a, n a = settled (k_objects K) (hand_out n o (Some t)) o t a.
Proof.
  intros Hl Ht a. unfold settled, hand_out. rewrite upd_naked_eq, add_sub_right.
  2: { rewrite !elem_of_cons, elem_of_nil in Ht. by destruct Ht as [->|[->|[->|[]]]]. }
  assert (n a = upd_naked (upd_naked n o (add_right t (n o))) o (n o) a) as Hn.
  { destruct (decide (a = o)) as [->|Hne]; [by rewrite upd_naked_eq|by rewrite !upd_naked_ne]. }
  destruct (is_recv t) eqn:Hr; [|by repeat case_match].
  assert (t = TRecv) as Htr. { rewrite !elem_of_cons, elem_of_nil in Ht. by destruct Ht as [->|[->|[->|[]]]]. }
  destruct (Hl Htr) as (p & -> & ->). done.
Qed.


(** ** Single operations *)

(** C4.  [ipc_object_copyin] returns.  For a name without a capability it
    reports KERN_INVALID_NAME and changes nothing; otherwise result, object,
    remaining capability and right handed out are those of [copyin_cap], the
    entry is kept, freed or made a dead name accordingly, and all counts of the
    kernel match the new holders. *)
Theorem ipc_object_copyin_correct K G n sp S name msgt_name :
  Inv K G n → quiescent G → k_spaces K !! sp = Some S → is_active S = true → name < 2 ^ 32 → is_copyin msgt_name →
  (∀ o, spare_ref K o) → room_in K sp →
  ∃ r K', ipc_object_copyin sp name msgt_name K = Some (r, K') ∧ object_copyin_post K G n sp name msgt_name r K'.
Proof. intros. eapply wp_run, ipc_object_copyin_spec; done. Qed.


(** C6.  [ipc_right_dealloc] gives up one user reference: it returns, and the
    capability becomes [dealloc_cap] of the one that was there (of a dead name,
    if the port had died); with the last reference of a send right the port
    loses a sender, and a send-once right goes to its notification. *)
Theorem ipc_right_dealloc_correct K G n ea sp name c :
  Inv K G n → G !! ea = Some (Slot sp name (Used c)) →
  ∃ kr K', ipc_right_dealloc sp name ea K = Some (kr, K') ∧ dealloc_post K G n ea sp name c kr K'.
Proof. intros. eapply wp_run, ipc_right_dealloc_spec; done. Qed.

(** C7.  [ipc_right_delta] on send, send-once and dead-name rights returns, for
    every 32-bit delta, and does what [delta_cap] says: no user reference count
    leaves its bounds, underflow is KERN_INVALID_VALUE and overflow
    KERN_UREFS_OVERFLOW, both without a change. *)
Theorem ipc_right_delta_correct K G n ea sp name c right delta :
  Inv K G n → G !! ea = Some (Slot sp name (Used c)) → is_int delta →
  right = MACH_PORT_RIGHT_SEND ∨ right = MACH_PORT_RIGHT_SEND_ONCE ∨ right = MACH_PORT_RIGHT_DEAD_NAME →
  ∃ kr K', ipc_right_delta sp name ea right delta K = Some (kr, K') ∧ delta_post K G n ea sp name right delta c kr K'.
Proof. intros. eapply wp_run, ipc_right_delta_spec; done. Qed.

(** [ipc_right_copyin] returns for all six kinds of copyin, for entries
    of every type, live or dead, with the outcome of [copyin_cap]. *)
Theorem ipc_right_copyin_correct K G n ea sp name msgt_name deadok c :
  Inv K G n → G !! ea = Some (Slot sp name (Used c)) → is_copyin msgt_name → spare_ref K (c_obj c) → room_in K sp →
  ∃ r K', ipc_right_copyin sp name ea msgt_name deadok K = Some (r, K') ∧
    copyin_post K G n ea sp name msgt_name deadok c r K'.
Proof. intros. eapply wp_run, ipc_right_copyin_spec; done. Qed.


(** C14.  [ipc_right_reverse] finds, without changing anything, exactly the
    entry that holds send or receive rights for a live port in the space. *)
Theorem ipc_right_reverse_correct K G n sp S o p :
  Inv K G n → quiescent G → k_spaces K !! sp = Some S → is_active S = true → k_objects K !! o = Some (KPort p) →
  ∃ r, ipc_right_reverse sp o K = Some (r, K) ∧
    ∀ name ea, r = Some (name, ea) ↔
      ip_active p = true ∧ ∃ c, G !! ea = Some (Slot sp name (Used c)) ∧ c_obj c = o ∧ is_named (c_type c) = true.
Proof.
  intros Hinv Hqui HS HSa Hp.
  assert (wp (ipc_right_reverse sp o) (λ r K', K' = K ∧ ∀ name ea, r = Some (name, ea) ↔
    ip_active p = true ∧ ∃ c, G !! ea = Some (Slot sp name (Used c)) ∧ c_obj c = o ∧ is_named (c_type c) = true) K) as Hwp.
  { eapply ipc_right_reverse_spec; try done.
    - intros Hd. split; [done|]. intros name ea. split; [done|]. intros [? _]. congruence.
    - intros _ Hun. split; [done|]. intros name ea. split; [done|]. intros (_ & c & Hg & Hc & Hn). exfalso.
      apply (Hun _ _ Hg); [done|]. simpl. by rewrite Hn, Hc.
    - intros name ea c Ha Hg Hc Hn. split; [done|]. intros name' ea'. split.
      + intros [= <- <-]. split; [done|]. by exists c.
      + intros (_ & c' & Hg' & Hc' & Hn'). assert (ea' = ea) as ->; [|congruence].
        eapply (oi_uniq _ _ _ _ (inv_objs _ _ _ Hinv) _ _ _ _ o Hg' Hg); [done| |]; simpl; [by rewrite Hn', Hc'|by rewrite Hn, Hc]. }
  apply wp_run in Hwp as (r & K' & Hrun & -> & Hr). eauto.
Qed.

(** C15.  [ipc_mqueue_move], from a port set to a member that nobody receives
    from, appends the messages for the port to its queue in their order, and
    leaves the others in the set. *)
Theorem ipc_mqueue_move_order K pa ps p s :
  k_objects K !! pa = Some (KPort p) → k_objects K !! ps = Some (KPset s) → pa ≠ ps →
  imq_threads (ip_messages p) = [] →
  (∀ k, k ∈ imq_messages (ipt_messages (ips_target s)) → is_Some (k_kmsgs K !! k)) →
  let msgs := imq_messages (ipt_messages (ips_target s)) in
  let mine := filter (to_port (k_kmsgs K) pa) msgs in
  ipc_mqueue_move pa ps pa K =
    Some (tt, set_k_objects
      (<[pa := KPort (upd_target (set_msgs (imq_messages (ip_messages p) ++ mine)) p)]>
        (<[ps := KPset (IPset (set_msgs (filter (.∉ mine) msgs) (ips_target s)))]> (k_objects K))) K).
Proof.
  intros Hp Hs Hne Hth Hk msgs mine.
  assert (wp (ipc_mqueue_move pa ps pa) (λ _ K', K' = set_k_objects
      (<[pa := KPort (upd_target (set_msgs (imq_messages (ip_messages p) ++ mine)) p)]>
        (<[ps := KPset (IPset (set_msgs (filter (.∉ mine) msgs) (ips_target s)))]> (k_objects K))) K) K) as Hwp.
  { unfold ipc_mqueue_move. kstep. eapply wp_load_object; [done|]. cbn [kobj_target].
    eapply mqueue_move_loop_spec; try done. by intros lp ls -> ->. }
  apply wp_run in Hwp as ([] & K' & -> & ->). done.
Qed.
End Transit.

(** ** The theorems at work *)

(** The kernel after [spA] has made a send right for [p2]. *)
Definition demo_sent : kernel (gmap N N) free_list :=
  match ipc_object_copyin spA 2 MACH_MSG_TYPE_MAKE_SEND demo_kernel with Some (_, K) => K | None => demo_kernel end.
Definition demo_garbage : ipc_entry := IEntry 99 99 99 99.


Lemma ipc_object_copyin_correct_witness :
  ∃ r K', ipc_object_copyin spB 1 MACH_MSG_TYPE_MOVE_SEND demo_kernel = Some (r, K') ∧
    object_copyin_post demo_kernel demo_table demo_naked spB 1 MACH_MSG_TYPE_MOVE_SEND r K'.
Proof.
  eapply ipc_object_copyin_correct;
    [exact demo_inv|exact demo_quiescent|reflexivity|reflexivity|done|by do 4 right; left|exact demo_spare|apply demo_room].
Defined.


Lemma ipc_right_dealloc_correct_witness :
  ∃ kr K', ipc_right_dealloc spB 3 48 demo_kernel = Some (kr, K') ∧
    dealloc_post demo_kernel demo_table demo_naked 48 spB 3 (Cap TSend p3 2 0 false) kr K'.
Proof. apply ipc_right_dealloc_correct; [exact demo_inv|reflexivity]. Defined.

Lemma ipc_right_delta_correct_witness :
  ∃ kr K', ipc_right_delta spA 1 16 MACH_PORT_RIGHT_SEND (-2) demo_kernel = Some (kr, K') ∧
    delta_post demo_kernel demo_table demo_naked 16 spA 1 MACH_PORT_RIGHT_SEND (-2) (Cap TSendRecv p1 2 0 false) kr K'.
Proof. apply ipc_right_delta_correct; [exact demo_inv|reflexivity|by vm_compute|by left]. Defined.

Lemma ipc_right_copyin_correct_witness :
  ∃ r K', ipc_right_copyin spA 1 16 MACH_MSG_TYPE_MOVE_RECEIVE true demo_kernel = Some (r, K') ∧
    copyin_post demo_kernel demo_table demo_naked 16 spA 1 MACH_MSG_TYPE_MOVE_RECEIVE true (Cap TSendRecv p1 2 0 false) r K'.
Proof.
  apply ipc_right_copyin_correct; [exact demo_inv|reflexivity|by do 2 right; left|apply demo_spare|apply demo_room].
Defined.


Lemma ipc_right_reverse_correct_witness : ipc_right_reverse spB p1 demo_kernel = Some (Some (1, 32), demo_kernel).
Proof.
  destruct (ipc_right_reverse_correct demo_kernel demo_table demo_naked spB _ p1 _ demo_inv demo_quiescent eq_refl eq_refl eq_refl)
    as (r & Hr & Hex).
  rewrite Hr, (proj2 (Hex 1 32)); [reflexivity|]. split; [reflexivity|]. eexists. by split_and!.
Defined.

(** A port, member of a port set whose queue holds two messages for it and one
    for another. *)
Definition demo_pset_objects : gmap N kobject :=
  <[p1 := demo_port 2 IO_BITS_ACTIVE 1 spA 0 0 IPS_NULL]> $
  <[p2 := demo_pset 2 5 [11; 12; 13]]> ∅.
Definition demo_pset_kernel : kernel (gmap N N) free_list :=
  set_k_kmsgs (<[11 := IKmsg p1 0]> $ <[12 := IKmsg p3 0]> $ <[13 := IKmsg p1 0]> ∅)
    (set_k_objects demo_pset_objects demo_kernel).

Lemma ipc_mqueue_move_order_witness : ∃ K', ipc_mqueue_move p1 p2 p1 demo_pset_kernel = Some (tt, K').
Proof.
  eexists. eapply (ipc_mqueue_move_order demo_pset_kernel p1 p2); [reflexivity|reflexivity|done|reflexivity|].
  intros k Hk. change (k ∈ [11; 12; 13]) in Hk. rewrite !elem_of_cons, elem_of_nil in Hk. destruct Hk as [->|[->|[->|[]]]]; eexists; reflexivity.
Defined.

(** ** Without memory for the reverse map *)

(** A space on radix trees, whose reverse map has no memory for nodes, and a
    live port with two send rights in messages. *)
#[local] Instance short_keymap : KeyMap (store free_list) := rdxtree_keymap 0.
Definition short_space : ipc_space (store free_list) :=
  ISpace 1 true (Store (RTree 0 8) ∅ (fl_init 8)) 1 (rdx_empty (fl_init 0)) 0 0.
Definition short_kernel : kernel (store free_list) free_list :=
  Kernel (<[spA := short_space]> ∅) (<[8 := IEntry 0 0 0 0]> ∅)
    (<[p1 := demo_port 3 IO_BITS_ACTIVE 1 spB 2 0 IPS_NULL]> ∅) ∅ ∅ ∅ ∅ 0 [] (<[0 := fl_init 8]> ∅).

(** C40.  [ipc_right_copyout] ignores the result of [ipc_reverse_insert].  When
    the reverse map is short of memory, a second send right for the same port
    does not find the entry of the first: the space gets two names with a send
    right for one port. *)
Theorem copyout_two_names :
  let copyout := ipc_object_copyout demo_garbage spA p1 MACH_MSG_TYPE_PORT_SEND true in
  (r1 ← copyout; r2 ← copyout;
   e1 ← ipc_entry_lookup spA 1; e2 ← ipc_entry_lookup spA 2; x1 ← load_entry e1; x2 ← load_entry e2;
   mret (r1, r2, (ie_object x1, ie_object x2))) short_kernel ≫= (λ x, Some x.1)
  = Some ((KERN_SUCCESS, 1), (KERN_SUCCESS, 2), (p1, p1)).
Proof. vm_compute. reflexivity. Qed.
