(* ===== verification/IpcAttr.v ===== *)
(** The calls on receive rights that change attributes of the port: the
    make-send count, the sequence number, the queue limit, the protected payload
    and the requests for notifications. *)

From S2P Require Import Prelude Kmem Rdxtree RdxtreeInv RdxtreeSpec RdxtreeMap IpcTypes IpcEntry IpcPort IpcMarequest IpcRight IpcObject MachPort IpcBits IpcInv IpcUpdate IpcDn IpcMar IpcStep IpcRelease IpcVacate IpcDealloc IpcClear IpcReceive IpcCopyout IpcAlloc IpcTransfer.

Open Scope N_scope.

Section Attr.
Context `{!Config} {T C : Type} `{!KeyMap T} `{!KmemCache C}.
Implicit Types (K : kernel T C) (O : gmap N kobject) (G : gmap N eslot) (n : naked).

(** ** Translation of names *)

(** The kind of a right. *)
Definition has_right_type (right : N) (t : ctype) : bool :=
  if right =? MACH_PORT_RIGHT_SEND then is_send t
  else if right =? MACH_PORT_RIGHT_RECEIVE then is_recv t
  else if right =? MACH_PORT_RIGHT_SEND_ONCE then is_sonce t
  else if right =? MACH_PORT_RIGHT_PORT_SET then bool_decide (t = TPset)
  else bool_decide (t = TDead).

Lemma cap_has_right c right : cap_wf c → right < MACH_PORT_RIGHT_NUMBER →
  (N.land (cap_bits c) (MACH_PORT_TYPE right) =? 0) = negb (has_right_type right (c_type c)).
Proof.
  intros Hc Hr. rewrite <- (negb_involutive (_ =? 0)). fold (has (cap_bits c) (MACH_PORT_TYPE right)). f_equal.
  assert (right = 0 ∨ right = 1 ∨ right = 2 ∨ right = 3 ∨ right = 4) as Hcase by (unfold MACH_PORT_RIGHT_NUMBER in Hr; lia).
  destruct Hcase as [->|[->|[->|[->| ->]]]];
    [apply cap_has_send|apply cap_has_receive|apply cap_has_send_once|apply cap_has_port_set|apply cap_has_dead_name]; done.
Qed.

(** What a pointer that a right translates to points to. *)
Definition points_to O (sp name right a : N) : Prop :=
  if right =? MACH_PORT_RIGHT_RECEIVE then ∃ p, O !! a = Some (KPort p) ∧ received_at p sp name
  else if right =? MACH_PORT_RIGHT_PORT_SET then ∃ s, O !! a = Some (KPset s) ∧ ips_active s = true ∧ ips_local_name s = name
  else ∃ p, O !! a = Some (KPort p).

Section Translate.
Context K G n (sp : N) (S : ipc_space T) (name right : N).
Context (Hinv : Inv K G n) (Hqui : quiescent G) (HS : k_spaces K !! sp = Some S) (Hsp : sp ≠ 0) (Hname : name < 2 ^ 32).
Context (Hright : right < MACH_PORT_RIGHT_DEAD_NAME).

Lemma ipc_object_translate_spec Q :
  (∀ kr, kr ≠ KERN_SUCCESS → Q (kr, IO_NULL) K) →
  (∀ ea c, is_active S = true → G !! ea = Some (Slot sp name (Used c)) → has_right_type right (c_type c) = true →
     points_to (k_objects K) sp name right (c_obj c) → Q (KERN_SUCCESS, c_obj c) K) →
  wp (ipc_object_translate sp name right) Q K.
Proof.
  intros Herr Hok. unfold ipc_object_translate. kstep. destruct (is_active S) eqn:HSa.
  2: { unfold ipc_right_lookup_write. keqb. ksteps. rewrite HSa. cbn [negb]. kstep. cbv beta iota.
       change (KERN_INVALID_TASK =? KERN_SUCCESS) with false. cbn [negb]. kstep. by apply Herr. }
  eapply ipc_right_lookup_write_spec; try done.
  { intros _. cbv beta iota. change (KERN_INVALID_NAME =? KERN_SUCCESS) with false. cbn [negb]. kstep. by apply Herr. }
  intros ea c Hg. cbv beta iota. change (KERN_SUCCESS =? KERN_SUCCESS) with true. cbn [negb]. kstep.
  pose proof (oi_caps _ _ _ _ (inv_objs _ _ _ Hinv) _ _ _ _ Hg) as Hcap. pose proof Hcap as [Hwf Hobj].
  destruct (ei_slots _ _ _ (inv_ents _ _ _ Hinv) _ _ Hg) as [_ _ _ (e & He & _ & Hb & Ho & _)]. cbn [sl_state] in *.
  unfold MACH_PORT_RIGHT_DEAD_NAME in Hright. eapply wp_load_entry; [done|]. rewrite Hb, Ho, cap_has_right by (done || unfold MACH_PORT_RIGHT_NUMBER; lia).
  destruct (has_right_type right (c_type c)) eqn:Ht; cbn [negb]; [|kstep; by apply Herr].
  assert (right = 0 ∨ right = 1 ∨ right = 2 ∨ right = 3) as Hcase by lia.
  assert (c_obj c ≠ IO_NULL ∧ points_to (k_objects K) sp name right (c_obj c)) as [H0 Hpt].
  { unfold cap_wf in Hwf. destruct Hcase as [->|[->|[->| ->]]]; cbn in Ht; destruct (c_type c); try done;
      (split; [apply Hwf|]); cbn; first [destruct Hobj as (p & Hp & Hat); eauto|done]. }
  keqb. ksteps. by eapply Hok.
Qed.

End Translate.

(** ** Attributes *)

(** A port with other attributes; its message queue, counts of rights and place
    are the same, and no thread is new on its queue of blocked senders. *)
Record other_attr (p p' : ipc_port) : Prop := {
  oa_active : ip_active p' = ip_active p;
  oa_otype : io_otype (ip_object p') = io_otype (ip_object p);
  oa_refs : ip_references p' = ip_references p;
  oa_receiver : ip_receiver p' = ip_receiver p ∧ ip_receiver_name p' = ip_receiver_name p;
  oa_rights : ip_srights p' = ip_srights p ∧ ip_sorights p' = ip_sorights p;
  oa_dnrequests : ip_dnrequests p' = ip_dnrequests p;
  oa_pset : ip_pset p' = ip_pset p;
  oa_messages : ip_messages p' = ip_messages p;
  oa_blocked th : th ∈ ip_blocked p' → th ∈ ip_blocked p;
}.

(** The same rights outside of entries, but for whom the send-once rights belong
    to. *)
Definition same_but_pd n n' : Prop :=
  ∀ o, nk_refs (n' o) = nk_refs (n o) ∧ nk_send (n' o) = nk_send (n o) ∧ nk_sonce (n' o) = nk_sonce (n o) ∧
    nk_recv (n' o) = nk_recv (n o) ∧ nk_kern (n' o) = nk_kern (n o).

Section Port.
Context (Sp : gmap N (ipc_space T)) (O : gmap N kobject) (G : gmap N eslot) (n n' : naked) (pa : N) (p p' : ipc_port).
#[local] Abbreviation O' := (<[pa := KPort p']> O).
Context (Hinv : ObjInv Sp O G n) (Hp : O !! pa = Some (KPort p)) (Hattr : other_attr p p') (Hact : ip_active p = true).
Context (Hname : ip_receiver_name p ≠ MACH_PORT_NULL) (Hn' : same_but_pd n n').
Context (Hpds : ∀ o q, O !! o = Some (KPort q) → n_pd O' o ≤ nk_pd (n' o) ≤ nk_sonce (n o)).
Context (Hpd' : ip_pdrequest p' ≠ IP_NULL → is_port O (ip_pdrequest p')).

Lemma attr_dest o : n_dest O' o = n_dest O o.
Proof.
  apply (count_object_eq _ O pa p p' Hp). destruct Hattr as [_ _ _ [_ Hrn] _ _ _ _ _].
  unfold dest_is. by rewrite Hrn, (proj2 (N.eqb_neq _ _) Hname), !andb_false_r.
Qed.
Lemma attr_member o : n_member O' o = n_member O o.
Proof. apply (count_object_eq _ O pa p p' Hp). unfold member_of. by rewrite (oa_pset _ _ Hattr). Qed.
Lemma attr_is_port o : is_port O o → is_port O' o.
Proof. intros [q Hq]. destruct (decide (o = pa)) as [->|Hne]; eexists; [apply lookup_insert_eq|by rewrite lookup_insert_ne]. Qed.
Lemma attr_pset o s : O !! o = Some (KPset s) → O' !! o = Some (KPset s).
Proof. intros Hs. rewrite lookup_insert_ne; [done|congruence]. Qed.

Lemma attr_port_ok b q q' :
  O !! b = Some (KPort q) → other_attr q q' → ip_pdrequest q' = ip_pdrequest q ∨ b = pa ∧ q' = p' →
  (ip_receiver_name q = MACH_PORT_NULL → q' = q) → port_ok Sp O' G n' b q'.
Proof.
  intros Hq [Ha Hot Hrefs [Hrc Hrn] [Hsr Hso] Hdn Hps Hms Hbl] Hpd Hlim. destruct (oi_objects _ _ _ _ Hinv _ _ Hq) as (_ & _ & Hport).
  destruct (Hn' b) as (Hr1 & Hr2 & Hr3 & Hr4 & Hr5). specialize (Hpds _ _ Hq).
  destruct Hport as [Ht Hr Hpos Hnk Hnpd Hse Hson Hsoa Hre Hnr Hlimbo Hpdr0 Hpset Hdnr].
  split; rewrite ?Ha, ?Hot, ?Hrefs, ?Hr1, ?Hr2, ?Hr3, ?Hr4, ?Hr5, ?attr_dest, ?Hsr, ?Hso, ?Hps, ?Hdn; try done.
  - unfold naked_recv_ok in *. by rewrite Hr4, Hr5, Hrc, Hrn.
  - intros Hqa Hl. rewrite Hrn in Hl. rewrite (Hlim Hl). destruct (Hlimbo Hqa Hl) as (? & ? & ? & Hdest & ?). split_and!; try done.
    intros Hd0. by apply attr_is_port, Hdest.
  - intros Hq0. apply attr_is_port. destruct Hpd as [Hpd|[-> ->]]; [rewrite Hpd in *; auto|auto].
  - intros Hq0. destruct (Hpset Hq0) as (? & x & Hx). split; [done|]. exists x. by apply attr_pset.
Qed.

Lemma obj_attr : ObjInv Sp O' G n'.
Proof.
  assert (∀ sp name, received_at p sp name → received_at p' sp name) as Hat.
  { intros sp name (H1 & H2 & H3). destruct Hattr as [Ha _ _ [Hr Hrn] _ _ _ _ _]. by split_and!; [rewrite Ha|rewrite Hr|rewrite Hrn]. }
  split.
  - intros eb sp name c Hc. eapply cap_ok_port; [done|by eapply (oi_caps _ _ _ _ Hinv)|]. intros _ _. apply Hat.
  - apply Hinv.
  - intros b o [[<- <-]|[Hne Hb]]%lookup_insert_Some.
    + destruct (oi_objects _ _ _ _ Hinv _ _ Hp) as (Haddr & HSpa & _). split_and!; [done|done|]. by eapply attr_port_ok; [done|done|by right|].
    + destruct (oi_objects _ _ _ _ Hinv _ _ Hb) as (Haddr & HSpa & Hok). split_and!; [done|done|]. destruct o as [q|s].
      * by eapply (attr_port_ok b q q); [done|by split|by left|].
      * destruct Hok as [Ht Hr Hpos Hc]. destruct (Hn' b) as (Hr1 & _). split; [done| |done|done]. by rewrite attr_member, Hr1.
  - intros o Ho. apply attr_is_port, (oi_naked _ _ _ _ Hinv). destruct (Hn' o) as (_ & H1 & H2 & H3 & _). unfold nk_rights in *. by rewrite <- H1, <- H2, <- H3.
  - eapply acyclic_frame; [apply Hinv|intros b Hb; by apply lookup_insert_ne|]. right. unfold next_port. rewrite lookup_insert_eq.
    destruct Hattr as [_ _ _ [_ Hrn] _ _ _ _ _]. by rewrite Hrn, (proj2 (N.eqb_neq _ _) Hname), andb_false_r.
Qed.

Lemma queues_attr Th Th' Km :
  threads_kept Th Th' → queues O Th Km → queues O' Th' Km.
Proof.
  intros HTh Hq a o Ha. eapply queue_ok_threads; [done|]. destruct Hattr as [Hac _ _ _ _ _ Hps Hms Hbl].
  assert (∀ b x, queue_ok O Th Km b x → queue_ok O' Th Km b x) as Hmono.
  { intros b x Hx. eapply queue_ok_objects; [exact Hx|]. intros k m q _ _ Hqp _. destruct (decide (msgh_remote_port m = pa)) as [Heq|Hne].
    - exists p'. rewrite Heq in *. rewrite lookup_insert_eq. split; [done|]. congruence.
    - exists q. by rewrite lookup_insert_ne. }
  apply lookup_insert_Some in Ha as [[<- <-]|[Hne Ha]]; [|by apply Hmono, Hq]. destruct (Hmono _ _ (Hq _ _ Hp)) as [H1 H2 H3 H4 H5].
  cbn [kobj_target] in *. change (ipt_messages (ip_target p')) with (ip_messages p'). change (ipt_messages (ip_target p)) with (ip_messages p) in *.
  split; cbn [kobj_target]; change (ipt_messages (ip_target p')) with (ip_messages p'); rewrite ?Hms; try done.
  intros q [= <-]. destruct (H5 p eq_refl) as [H6 H7]. rewrite Hps, Hac, Hms. split; [|done]. intros th Hth. by apply H6, Hbl.
Qed.
End Port.

(** The attributes of a port change; its requests do not. *)
Lemma inv_attr K G n pa p p' Th' Ca' :
  Inv K G n → k_objects K !! pa = Some (KPort p) → other_attr p p' → ip_active p = true → ip_receiver_name p ≠ MACH_PORT_NULL →
  ip_pdrequest p' = ip_pdrequest p → threads_kept (k_threads K) Th' →
  Inv (set_k_calls Ca' (set_k_threads Th' (set_k_objects (<[pa := KPort p']> (k_objects K)) K))) G n.
Proof.
  destruct K as [Sp E O M B Th Km Ts Ca Cc]. intros [Hcc Hent Hobj Hmar Hq] Hp Hattr Hact Hname Hpd HTh. ksimpl_all.
  split; ksimpl; [done|done| |done|by eapply queues_attr].
  eapply obj_attr; try done.
  - intros o q Hq0. destruct (oi_objects _ _ _ _ Hobj _ _ Hq0) as (_ & _ & Hport).
    replace (n_pd (<[pa := KPort p']> O) o) with (n_pd O o); [apply Hport|]. symmetry. apply (count_object_eq _ O pa p p' Hp).
    unfold pdrequest_is. by rewrite Hpd.
  - rewrite Hpd. destruct (oi_objects _ _ _ _ Hobj _ _ Hp) as (_ & _ & Hport). apply Hport.
Qed.

(** ** Operations on a port that is received in a space *)

Definition port_op (change : N → M (kernel T C) unit) : Prop :=
  ∀ K G n pa p, Inv K G n → k_objects K !! pa = Some (KPort p) → ip_active p = true → ip_receiver_name p ≠ MACH_PORT_NULL →
    wp (change pa) (λ _ K', Inv K' G n ∧ k_spaces K' = k_spaces K) K.

(** A dead port set is left first. *)
Lemma ipc_port_lock_mqueue_spec K G n pa p Q :
  Inv K G n → k_objects K !! pa = Some (KPort p) → ip_active p = true → ip_receiver_name p ≠ MACH_PORT_NULL →
  (∀ mq K' p', Inv K' G n → k_spaces K' = k_spaces K → k_objects K' !! pa = Some (KPort p') → ip_active p' = true →
     ip_receiver_name p' = ip_receiver_name p → Q mq K') →
  wp (ipc_port_lock_mqueue pa) Q K.
Proof.
  destruct K as [Sp E O M B Th Km Ts Ca Cc]. intros Hinv Hp Hact Hname HQ. pose proof Hinv as [Hcc Hent Hobj Hmar Hq]. ksimpl_all.
  unfold ipc_port_lock_mqueue. ksteps. destruct (N.eqb_spec (ip_pset p) IPS_NULL) as [Hps|Hps]; cbn [negb]; [ksteps; by eapply HQ|].
  destruct (in_pset_ok _ _ _ _ _ _ Hobj Hp Hps) as (s & Hs & Hr & Ht). unfold load_pset. ksteps.
  destruct (ips_active s); [ksteps; by eapply HQ|].
  apply (wp_seq (ipc_pset_remove (ip_pset p) pa) (λ _, io_check_unlock (ip_pset p)) (λ _, mret pa)).
  eapply (ipc_pset_leave_spec _ pa p s); ksimpl; try done. intros O' Cc' lp HO' Hcl Hq' Hcc'. kstep.
  apply (HQ pa _ (leave_port pa lp p)); ksimpl; try done.
  assert (O' = <[pa := KPort (leave_port pa lp p)]> (<[pa := KPort (clear_port pa lp p)]> O')) as HO by by rewrite insert_insert_eq, insert_id.
  assert (<[pa := KPort (clear_port pa lp p)]> O' !! pa = Some (KPort (clear_port pa lp p))) as Hp' by apply lookup_insert_eq.
  pose proof (obj_clear _ _ _ _ _ _ _ Hobj Hp Hact Hcl) as Hobj'.
  assert (other_attr (clear_port pa lp p) (leave_port pa lp p)) as Hattr by by split.
  split; ksimpl; [done|done| |done|rewrite HO; eapply queues_attr; [done|done|by intros th|done]].
  rewrite HO. eapply obj_attr; try done.
  - intros o q Hq0. destruct (oi_objects _ _ _ _ Hobj' _ _ Hq0) as (_ & _ & Hport).
    unfold n_pd. rewrite (count_object_eq (pdrequest_is o) _ pa _ _ Hp') by done. apply Hport.
  - destruct (oi_objects _ _ _ _ Hobj' _ _ Hp') as (_ & _ & Hport). apply (po_pdrequest _ _ _ _ _ _ Hport).
Qed.

(** *** The operations *)

Lemma attr_op (f : ipc_port → ipc_port) K G n pa p :
  Inv K G n → k_objects K !! pa = Some (KPort p) → ip_active p = true → ip_receiver_name p ≠ MACH_PORT_NULL →
  other_attr p (f p) → ip_pdrequest (f p) = ip_pdrequest p →
  wp (upd_port pa f) (λ _ K', Inv K' G n ∧ k_spaces K' = k_spaces K) K.
Proof.
  intros Hinv Hp Hact Hname Hattr Hpd. destruct K as [Sp E O M B Th Km Ts Ca Cc]. ksteps. split; [|done].
  by apply (inv_attr (Kernel Sp E O M B Th Km Ts Ca Cc) G n pa p (f p) Th Ca).
Qed.

Lemma set_mscount_op mscount : port_op (λ port, ipc_port_set_mscount port mscount).
Proof. intros K G n pa p Hinv Hp Hact Hname. unfold ipc_port_set_mscount. do 4 kstep. by eapply attr_op; [..|split|]. Qed.

Lemma set_seqno_op seqno : port_op (λ port, ipc_port_set_seqno port seqno).
Proof.
  intros K G n pa p Hinv Hp Hact Hname. unfold ipc_port_set_seqno. apply wp_bind. eapply ipc_port_lock_mqueue_spec; try done.
  intros mq K' p' HK' HSp Hp' Hact' Hrn. rewrite <- HSp. eapply attr_op; [done|done|done|congruence|by split|done].
Qed.

Lemma payload_set_active p : ip_active (ipc_port_flag_protected_payload_set p) = ip_active p.
Proof.
  unfold ip_active. rewrite !io_active_testbit. cbn. unfold ip_bits, ip_object. change IO_BITS_PROTECTED_PAYLOAD with (2 ^ 30).
  rewrite N.lor_spec, N.pow2_bits_false by done. by rewrite orb_false_r.
Qed.
Lemma payload_set_otype p : io_otype (ip_object (ipc_port_flag_protected_payload_set p)) = io_otype (ip_object p).
Proof.
  unfold io_otype. f_equal. cbn. unfold ip_bits. rewrite N.land_lor_distr_l. change (N.land IO_BITS_PROTECTED_PAYLOAD IO_BITS_OTYPE) with 0.
  apply N.lor_0_r.
Qed.

Lemma clear_payload_op : port_op ipc_port_clear_protected_payload.
Proof.
  intros K G n pa p Hinv Hp Hact Hname. unfold ipc_port_clear_protected_payload. apply wp_bind. eapply ipc_port_lock_mqueue_spec; try done.
  intros mq K' p' HK' HSp Hp' Hact' Hrn. rewrite <- HSp. eapply attr_op; [done|done|done|congruence| |done].
  split; try done; [apply payload_clear_active|apply payload_clear_otype].
Qed.

Lemma set_payload_op payload : port_op (λ port, ipc_port_set_protected_payload port payload).
Proof.
  intros K G n pa p Hinv Hp Hact Hname. unfold ipc_port_set_protected_payload. apply wp_bind. eapply ipc_port_lock_mqueue_spec; try done.
  intros mq K' p' HK' HSp Hp' Hact' Hrn. rewrite <- HSp. destruct K' as [Sp E O M B Th Km Ts Ca Cc]. ksimpl_all. ksteps. rewrite insert_insert_eq.
  split; [|done]. apply (inv_attr (Kernel Sp E O M B Th Km Ts Ca Cc) G n pa p' _ Th Ca); try done; [|congruence].
  split; try done; [rewrite payload_set_active; done|rewrite payload_set_otype; done].
Qed.

(** Blocked senders are woken from the front of the queue. *)
Lemma set_qlimit_op qlimit : port_op (λ port, ipc_port_set_qlimit port qlimit).
Proof.
  intros K G n pa p Hinv Hp Hact Hname. destruct K as [Sp E O M B Th Km Ts Ca Cc]. pose proof (inv_queues _ _ _ Hinv) as Hq. ksimpl_all.
  unfold ipc_port_set_qlimit. do 5 kstep. destruct (ip_qlimit p <? qlimit).
  - do 2 kstep. destruct (Hq _ _ Hp) as [_ _ _ _ Hport]. destruct (Hport p eq_refl) as [Hbl _]. apply wake_threads_spec; ksimpl.
    + intros th Hth. apply Hbl. by eapply subseteq_take.
    + intros Th' Ca' HTh. ksteps. rewrite insert_insert_eq. split; [|done].
      apply (inv_attr (Kernel Sp E O M B Th Km Ts Ca Cc) G n pa p _ Th' Ca'); try done.
      split; try done. intros th Hth. exact (subseteq_drop _ _ _ Hth).
  - kstep. eapply (attr_op (set_ip_qlimit qlimit) (Kernel Sp E O M B Th Km Ts Ca Cc)); try done.
Qed.

(** ** Requests *)

Lemma ipc_port_nsrequest_spec K G n pa p sync notify :
  Inv K G n → k_objects K !! pa = Some (KPort p) → ip_active p = true → ip_receiver_name p ≠ MACH_PORT_NULL →
  wp (ipc_port_nsrequest pa sync notify) (λ _ K', Inv K' G n ∧ k_spaces K' = k_spaces K) K.
Proof.
  intros Hinv Hp Hact Hname. destruct K as [Sp E O M B Th Km Ts Ca Cc]. unfold ipc_port_nsrequest. ksimpl_all. do 5 kstep.
  assert (∀ nsr Ca', Inv (Kernel Sp E (<[pa := KPort (set_ip_nsrequest nsr p)]> O) M B Th Km Ts Ca' Cc) G n) as Hset.
  { intros nsr Ca'. by apply (inv_attr (Kernel Sp E O M B Th Km Ts Ca Cc) G n pa p _ Th Ca'); [..|by split|]. }
  destruct (_ && _); ksteps; by split.
Qed.

(** The send-once right of a request for [new] now belongs to the port, and that
    of the previous one does not any more. *)
Definition swap_pd n (prev new : N) : naked := λ o,
  Naked (nk_refs (n o)) (nk_send (n o)) (nk_sonce (n o)) (nk_recv (n o))
    (nk_pd (n o) + Nb (negb (new =? 0) && (new =? o)) - Nb (negb (prev =? 0) && (prev =? o))) (nk_kern (n o)).

Lemma ipc_port_pdrequest_spec K G n pa p notify Q :
  Inv K G n → k_objects K !! pa = Some (KPort p) → ip_active p = true → ip_receiver_name p ≠ MACH_PORT_NULL →
  (notify ≠ IP_NULL → is_port (k_objects K) notify ∧ nk_pd (n notify) < nk_sonce (n notify)) →
  (∀ K', Inv K' G (swap_pd n (ip_pdrequest p) notify) → k_spaces K' = k_spaces K →
     (ip_pdrequest p ≠ IP_NULL → 0 < nk_pd (n (ip_pdrequest p))) → Q (ip_pdrequest p) K') →
  wp (ipc_port_pdrequest pa notify) Q K.
Proof.
  destruct K as [Sp E O M B Th Km Ts Ca Cc]. intros Hinv Hp Hact Hname Hnew HQ. pose proof Hinv as [Hcc Hent Hobj Hmar Hq]. ksimpl_all.
  destruct (oi_objects _ _ _ _ Hobj _ _ Hp) as (_ & _ & Hport).
  assert (∀ o, n_pd (<[pa := KPort (set_ip_pdrequest notify p)]> O) o + Nb (ip_pdrequest p =? o) = n_pd O o + Nb (notify =? o)) as Hcount.
  { intros o. apply (count_update (pdrequest_is o) O pa _ (KPort (set_ip_pdrequest notify p)) Hp). }
  assert (∀ o q, O !! o = Some (KPort q) → n_pd O o ≤ nk_pd (n o) ≤ nk_sonce (n o) ∧ o ≠ 0) as Hpds.
  { intros o q Hq0. destruct (oi_objects _ _ _ _ Hobj _ _ Hq0) as ((? & _) & _ & Hport0). split; [apply Hport0|done]. }
  assert (ip_pdrequest p ≠ IP_NULL → 0 < nk_pd (n (ip_pdrequest p))) as Hprev.
  { intros H0. destruct (po_pdrequest _ _ _ _ _ _ Hport H0) as [q Hq0]. destruct (Hpds _ _ Hq0) as [? _].
    assert (0 < n_pd O (ip_pdrequest p)); [|lia]. apply (count_pos _ _ _ _ Hp). apply N.eqb_refl. }
  unfold ipc_port_pdrequest. ksteps. apply HQ; [|done|done].
  split; ksimpl; [done|done| |done|eapply queues_attr; [done|by split|done|done]].
  apply (obj_attr Sp O G n _ pa p); try done.
  - intros o q Hq0. destruct (Hpds _ _ Hq0) as [Hle H0]. specialize (Hcount o). unfold swap_pd. cbn [nk_pd].
    assert (negb (notify =? 0) && (notify =? o) = (notify =? o)) as -> by (destruct (N.eqb_spec notify 0), (N.eqb_spec notify o); try done; lia).
    assert (negb (ip_pdrequest p =? 0) && (ip_pdrequest p =? o) = (ip_pdrequest p =? o)) as ->
      by (destruct (N.eqb_spec (ip_pdrequest p) 0), (N.eqb_spec (ip_pdrequest p) o); try done; lia).
    assert (notify = o → nk_pd (n o) < nk_sonce (n o)) by (intros <-; by apply Hnew).
    destruct (N.eqb_spec notify o), (N.eqb_spec (ip_pdrequest p) o); cbn [Nb] in *; lia.
  - intros Hn0. by apply Hnew.
Qed.

(** ** The calls *)

Section Calls.
Context K G n (sp : N) (S : ipc_space T) (name : N).
Context (Hinv : Inv K G n) (Hqui : quiescent G) (HS : k_spaces K !! sp = Some S) (Hname : name < 2 ^ 32).

(** A receive right and its port. *)
Lemma translate_receive_spec {A} (err : kern_return_t → A) (f : N → M (kernel T C) A) Q :
  sp ≠ 0 → (∀ kr, kr ≠ KERN_SUCCESS → Q (err kr) K) →
  (∀ pa p, k_objects K !! pa = Some (KPort p) → ip_active p = true → ip_receiver_name p ≠ MACH_PORT_NULL → wp (f pa) Q K) →
  wp ('(kr, port) ← ipc_port_translate_receive sp name; if negb (kr =? KERN_SUCCESS) then mret (err kr) else f port) Q K.
Proof.
  intros Hsp Herr Hok. kstep. eapply ipc_object_translate_spec; try done.
  - intros kr Hkr. cbv beta iota. rewrite (proj2 (N.eqb_neq kr KERN_SUCCESS)) by done. cbn [negb]. kstep. by apply Herr.
  - intros ea c _ Hg _ (p & Hp & Hact & _ & Hrn). cbv beta iota. change (KERN_SUCCESS =? KERN_SUCCESS) with true. cbn [negb].
    apply (Hok _ p); try done. rewrite Hrn. by destruct (ei_slots _ _ _ (inv_ents _ _ _ Hinv) _ _ Hg) as [_ [? _] _ _].
Qed.

Lemma on_receive_right_spec change : port_op change →
  wp (on_receive_right sp name change) (λ _ K', Inv K' G n ∧ k_spaces K' = k_spaces K) K.
Proof.
  intros Hop. unfold on_receive_right. destruct (N.eqb_spec sp IS_NULL) as [->|Hsp]; [by kstep|].
  eapply (translate_receive_spec (λ kr, kr)); [done|done|]. intros pa p Hp Hact Hrn. kstep. eapply wp_mono; [by eapply Hop|].
  intros u K' HK'. by kstep.
Qed.
End Calls.
End Attr.
