(* ===== verification/MachPortSpec.v ===== *)
(** What the calls of ipc/mach_port.c do to capabilities. *)

From S2P Require Import Prelude Kmem Rdxtree RdxtreeInv RdxtreeSpec RdxtreeMap IpcTypes IpcEntry IpcPort IpcMarequest IpcRight IpcObject MachPort IpcBits IpcInv IpcUpdate IpcDn IpcMar IpcStep IpcRelease IpcCheck IpcVacate IpcDealloc IpcDelta IpcCopyin IpcClear IpcReceive IpcCopyout IpcAlloc IpcTransfer.

Open Scope N_scope.

(** ** Information *)

(** The type that is reported for a capability. *)
Definition info_type (c : cap) : N :=
  let type := 2 ^ 16 * type_code (c_type c) in
  let type := if negb (c_req c =? 0) then N.lor type MACH_PORT_TYPE_DNREQUEST else type in
  if c_ma c then N.lor type MACH_PORT_TYPE_MAREQUEST else type.

(** The user references for a right. *)
Definition info_refs (c : cap) (right : N) : N :=
  if right =? MACH_PORT_RIGHT_SEND then if is_send (c_type c) then c_urefs c else 0
  else if right =? MACH_PORT_RIGHT_RECEIVE then Nb (is_recv (c_type c))
  else if right =? MACH_PORT_RIGHT_SEND_ONCE then Nb (is_sonce (c_type c))
  else if right =? MACH_PORT_RIGHT_PORT_SET then Nb (bool_decide (c_type c = TPset))
  else if bool_decide (c_type c = TDead) then c_urefs c else 0.

(** The high bits of a type are those of the requests. *)
Lemma info_type_has c right : right < MACH_PORT_RIGHT_NUMBER →
  has (info_type c) (MACH_PORT_TYPE right) = negb (N.land (type_code (c_type c)) (2 ^ right) =? 0).
Proof.
  intros Hr. assert (right = 0 ∨ right = 1 ∨ right = 2 ∨ right = 3 ∨ right = 4) as Hc by (unfold MACH_PORT_RIGHT_NUMBER in Hr; lia).
  unfold info_type. destruct (c_req c =? 0), (c_ma c), (c_type c), Hc as [->|[->|[->|[->| ->]]]]; reflexivity.
Qed.

Section Info.
Context `{!Config} {T C : Type} `{!KeyMap T} `{!KmemCache C}.
Implicit Types (K : kernel T C) (G : gmap N eslot) (n : naked).

(** Receive rights are for live ports. *)
Lemma settle_not_live K G n ea sp name c :
  Inv K G n → G !! ea = Some (Slot sp name (Used c)) → c_type c ≠ TDead → c_type c ≠ TPset → live_port (k_objects K) c = false →
  settle (k_objects K) c = dead_cap c.
Proof.
  intros Hinv Hg Hnd Hps Hd. pose proof (oi_caps _ _ _ _ (inv_objs _ _ _ Hinv) _ _ _ _ Hg) as Hcap.
  destruct (cap_ok_port_of _ _ _ _ Hcap) as (p & Hp & Hat); [done..|]. unfold live_port in Hd. rewrite Hp in Hd.
  destruct (is_recv (c_type c)) eqn:Hr; [by destruct (Hat eq_refl); congruence|].
  eapply settle_dead; [|done|done]. destruct (c_type c); auto; done.
Qed.

(** A look at the capability; a send right for a dead port becomes a dead name. *)
Lemma ipc_right_info_spec K G n ea sp name c Q :
  Inv K G n → G !! ea = Some (Slot sp name (Used c)) →
  (∀ K' c', c' = settle (k_objects K) c → Inv K' (<[ea := Slot sp name (Used c')]> G) n → quiet K K' → cap_wf c' →
     Q (KERN_SUCCESS, info_type c', c_urefs c') K') →
  wp (ipc_right_info sp name ea) Q K.
Proof.
  intros Hinv Hg HQ. pose proof (inv_caps_wf _ _ _ Hinv _ _ _ _ Hg) as Hwf.
  assert (∀ K1 c1 Q', Inv K1 (<[ea := Slot sp name (Used c1)]> G) n → Q' (KERN_SUCCESS, info_type c1, c_urefs c1) K1 →
    wp (e ← load_entry ea;
        let type := IE_BITS_TYPE (cap_bits c1) in
        let type := if negb (ie_request e =? 0) then N.lor type MACH_PORT_TYPE_DNREQUEST else type in
        let type := if has (cap_bits c1) IE_BITS_MAREQUEST then N.lor type MACH_PORT_TYPE_MAREQUEST else type in
        mret (KERN_SUCCESS, type, IE_BITS_UREFS (cap_bits c1))) Q' K1) as Hend.
  { intros K1 c1 Q' HK1 HQ'. assert (<[ea := Slot sp name (Used c1)]> G !! ea = Some (Slot sp name (Used c1))) as Hg1 by apply lookup_insert_eq.
    pose proof (inv_caps_wf _ _ _ HK1 _ _ _ _ Hg1) as Hwf1.
    destruct (ei_slots _ _ _ (inv_ents _ _ _ HK1) _ _ Hg1) as [_ _ _ (e & He & _ & Hb & _ & Hr)]. cbn [sl_state] in *.
    kstep. eapply wp_load_entry; [done|]. cbv zeta. kstep. rewrite Hr, cap_type, cap_urefs, cap_has_marequest by done. exact HQ'. }
  destruct (ei_slots _ _ _ (inv_ents _ _ _ Hinv) _ _ Hg) as [_ _ _ (e & He & _ & Hb & Ho & _)]. cbn [sl_state] in *.
  unfold ipc_right_info. kstep. eapply wp_load_entry; [done|]. kstep. rewrite Hb, Ho, cap_has_send_rights by done.
  assert (settle (k_objects K) c = c → wp (mret (cap_bits c)) (λ bits, wp (e ← load_entry ea;
        let type := IE_BITS_TYPE bits in
        let type := if negb (ie_request e =? 0) then N.lor type MACH_PORT_TYPE_DNREQUEST else type in
        let type := if has bits IE_BITS_MAREQUEST then N.lor type MACH_PORT_TYPE_MAREQUEST else type in
        mret (KERN_SUCCESS, type, IE_BITS_UREFS bits)) Q) K) as Hsame.
  { intros Hset. kstep. apply Hend; [by rewrite insert_id|]. apply HQ; [done|by rewrite insert_id|apply quiet_refl|done]. }
  destruct (is_send (c_type c) || is_sonce (c_type c)) eqn:Hs.
  2: { apply Hsame, settle_other; by destruct (c_type c). }
  kstep. eapply check_spec; [done|done|by destruct (c_type c)|by destruct (c_type c)| |].
  - unfold live_port. intros Hl. apply Hsame. destruct (k_objects K !! c_obj c) as [[p|]|] eqn:Hp; try done. by eapply settle_live.
  - intros Hd K' HK' Hq. assert (<[ea := Slot sp name (Used (dead_cap c))]> G !! ea = Some (Slot sp name (Used (dead_cap c)))) as Hg1 by apply lookup_insert_eq.
    pose proof (inv_caps_wf _ _ _ HK' _ _ _ _ Hg1) as Hwf1.
    destruct (ei_slots _ _ _ (inv_ents _ _ _ HK') _ _ Hg1) as [_ _ _ (e1 & He1 & _ & Hb1 & _)]. cbn [sl_state] in *.
    cbv iota. kstep. eapply wp_load_entry; [done|]. rewrite Hb1, cap_type by done. kstep.
    apply wp_check; [done|]. kstep. apply Hend; [done|]. apply HQ; try done.
    symmetry. by eapply settle_not_live; [..|done]; [done|done|destruct (c_type c)..].
Qed.

(** ** Calls on names *)

(** The start of every call: the space may be dead and the name without a
    capability. *)
Lemma lookup_call_spec {A} K G n sp S name (err : kern_return_t → A) (f : N → M (kernel T C) A) Q :
  Inv K G n → quiescent G → k_spaces K !! sp = Some S → sp ≠ 0 → name < 2 ^ 32 →
  (∀ kr, kr ≠ KERN_SUCCESS → is_active S = false ∨ no_cap G sp name → Q (err kr) K) →
  (is_active S = true → ∀ ea c, G !! ea = Some (Slot sp name (Used c)) → wp (f ea) Q K) →
  wp ('(kr, entry) ← ipc_right_lookup_write sp name; if negb (kr =? KERN_SUCCESS) then mret (err kr) else f entry) Q K.
Proof.
  intros Hinv Hqui HS Hsp Hn Herr Hf. kstep. destruct (is_active S) eqn:HSa.
  - eapply ipc_right_lookup_write_spec; try done.
    + intros Hno. cbv beta iota. change (KERN_INVALID_NAME =? KERN_SUCCESS) with false. cbn [negb]. kstep. apply Herr; [done|auto].
    + intros ea c Hg. cbv beta iota. change (KERN_SUCCESS =? KERN_SUCCESS) with true. cbn [negb]. by apply (Hf eq_refl ea c).
  - unfold ipc_right_lookup_write. keqb. ksteps. rewrite HSa. cbn [negb]. kstep. cbv beta iota.
    change (KERN_INVALID_TASK =? KERN_SUCCESS) with false. cbn [negb]. kstep. apply Herr; [done|auto].
Qed.

(** After a look at a capability. *)
Definition looked K G n (ea sp name : N) (c : cap) K' : Prop :=
  Inv K' (<[ea := Slot sp name (Used (settle (k_objects K) c))]> G) n ∧ quiet K K'.

Section Calls.
Context K G n (sp : N) (S : ipc_space T) (name : N).
Context (Hinv : Inv K G n) (Hqui : quiescent G) (HS : k_spaces K !! sp = Some S) (Hname : name < 2 ^ 32).

Lemma mach_port_type_spec Q :
  (∀ kr, kr ≠ KERN_SUCCESS → sp = 0 ∨ is_active S = false ∨ no_cap G sp name → Q (kr, 0) K) →
  (∀ ea c K', is_active S = true → G !! ea = Some (Slot sp name (Used c)) → looked K G n ea sp name c K' →
     Q (KERN_SUCCESS, info_type (settle (k_objects K) c)) K') →
  wp (mach_port_type sp name) Q K.
Proof.
  intros Herr Hok. unfold mach_port_type. destruct (N.eqb_spec sp IS_NULL) as [->|Hsp]; [kstep; apply Herr; [done|auto]|].
  eapply (lookup_call_spec K G n sp S name (λ kr, (kr, 0))); try done; [auto|]. intros HSa ea c Hg. kstep.
  eapply ipc_right_info_spec; [done|done|]. intros K' c' -> HK' Hq _. cbv beta iota. kstep. by apply (Hok ea c).
Qed.

Lemma mach_port_get_refs_spec rt Q :
  (∀ kr, kr ≠ KERN_SUCCESS → MACH_PORT_RIGHT_NUMBER ≤ rt ∨ sp = 0 ∨ is_active S = false ∨ no_cap G sp name → Q (kr, 0) K) →
  (∀ ea c K', is_active S = true → rt < MACH_PORT_RIGHT_NUMBER → G !! ea = Some (Slot sp name (Used c)) → looked K G n ea sp name c K' →
     Q (KERN_SUCCESS, info_refs (settle (k_objects K) c) rt) K') →
  wp (mach_port_get_refs sp name rt) Q K.
Proof.
  intros Herr Hok. unfold mach_port_get_refs. destruct (N.eqb_spec sp IS_NULL) as [->|Hsp]; [kstep; apply Herr; [done|auto]|].
  destruct (N.leb_spec MACH_PORT_RIGHT_NUMBER rt) as [?|Hrt]; [kstep; apply Herr; [done|auto]|].
  eapply (lookup_call_spec K G n sp S name (λ kr, (kr, 0))); try done; [auto|]. intros HSa ea c Hg. kstep.
  eapply ipc_right_info_spec; [done|done|]. intros K' c' Hc' HK' Hq Hwf. cbv beta iota.
  change (KERN_SUCCESS =? KERN_SUCCESS) with true. cbn [negb]. rewrite info_type_has by done.
  assert (Q (KERN_SUCCESS, info_refs c' rt) K') as HQ by (subst c'; by apply (Hok ea c)). clear Hok Herr Hc'.
  assert (rt = 0 ∨ rt = 1 ∨ rt = 2 ∨ rt = 3 ∨ rt = 4) as Hr by (unfold MACH_PORT_RIGHT_NUMBER in Hrt; lia).
  unfold cap_wf in Hwf. destruct (c_type c') eqn:Ht, Hr as [->|[->|[->|[->| ->]]]]; unfold info_refs in HQ; rewrite Ht in HQ; cbn in HQ.
  all: match goal with |- context [negb (N.land ?a ?b =? 0)] =>
         let v := eval vm_compute in (negb (N.land a b =? 0)) in change (negb (N.land a b =? 0)) with v end; cbv iota.
  all: unfold MACH_PORT_RIGHT_SEND_ONCE, MACH_PORT_RIGHT_PORT_SET, MACH_PORT_RIGHT_RECEIVE, MACH_PORT_RIGHT_DEAD_NAME,
         MACH_PORT_RIGHT_SEND; cbn [N.eqb Pos.eqb orb].
  all: try (kstep; exact HQ).
  all: kstep; apply wp_check; [|kstep; exact HQ].
  all: first [by rewrite (proj2 (N.eqb_neq (c_urefs c') 0)) by lia|apply N.eqb_eq; tauto].
Qed.

(** [mach_port_get_refs] returns, for every right of a name that is in use,
    the user references of that right (1 for receive rights and port sets, 0 for
    rights that the name does not denote); a send right whose port has died is
    reported, and from then on kept, as a dead name. *)
Theorem mach_port_get_refs_correct ea c rt :
  is_active S = true → G !! ea = Some (Slot sp name (Used c)) → rt < MACH_PORT_RIGHT_NUMBER →
  ∃ K', mach_port_get_refs sp name rt K = Some ((KERN_SUCCESS, info_refs (settle (k_objects K) c) rt), K') ∧
    looked K G n ea sp name c K'.
Proof.
  intros HSa Hg Hrt.
  assert (wp (mach_port_get_refs sp name rt) (λ r K', r = (KERN_SUCCESS, info_refs (settle (k_objects K) c) rt) ∧
    looked K G n ea sp name c K') K) as Hwp.
  { eapply mach_port_get_refs_spec.
    - intros kr _ [?|[?|[?|Hno]]]; [lia| |congruence|by destruct (Hno _ _ Hg)].
      destruct (ei_spaces _ _ _ (inv_ents _ _ _ Hinv) _ _ HS HSa) as [? _ _ _]. congruence.
    - intros ea' c' K' _ _ Hg' Hl. assert (ea' = ea) as -> by by eapply ent_name_inj; [exact (inv_ents _ _ _ Hinv)|..].
      rewrite Hg in Hg'. by injection Hg' as <-. }
  apply wp_run in Hwp as (r & K' & He & -> & Hl). eauto.
Qed.
End Calls.
End Info.
