(* ===== verification/MachPortNames.v ===== *)
(** [mach_port_names]: the loop over the radix tree of a space lists every name
    once, in order, with its type. *)

From stdpp Require Import sorting.
From S2P Require Import Prelude Kmem Rdxtree RdxtreeInv RdxtreeSpec RdxtreeWalk RdxtreeMap IpcTypes IpcEntry IpcPort IpcMarequest IpcRight IpcObject MachPort IpcBits IpcInv IpcUpdate IpcDn IpcMar IpcStep IpcRelease IpcCheck IpcVacate IpcDealloc IpcDelta IpcCopyin IpcClear IpcReceive IpcCopyout IpcAlloc IpcTransfer IpcDemo MachPortSpec.

Open Scope N_scope.

(** The entries of a space are fewer than its names. *)
Lemma n_used_bound `{!Config} {T} `{!KeyMap T} (Sp : gmap N (ipc_space T)) E G sp :
  EntInv Sp E G → n_used G sp < MACH_PORT_NAME_DEAD.
Proof.
  intros Hinv. unfold n_used, count. set (U := filter _ G).
  assert (∀ ea s, U !! ea = Some s → ∃ name st, s = Slot sp name st ∧ G !! ea = Some s ∧ name ≠ 0 ∧ name < MACH_PORT_NAME_DEAD) as HU.
  { intros ea [sp1 name st] [Hs Hu]%map_lookup_filter_Some. destruct (ei_slots _ _ _ Hinv _ _ Hs) as [_ [? ?] _ _].
    unfold used_in in Hu. cbn in *. apply andb_true_iff in Hu as [<-%N.eqb_eq _]. eauto 10. }
  assert (N.of_nat (length (0 :: ((λ x, sl_name x.2) <$> map_to_list U))) ≤ MACH_PORT_NAME_DEAD) as Hle.
  { apply NoDup_below.
    - apply NoDup_cons_2.
      + intros ([ea s] & H0 & Hin%elem_of_map_to_list)%list_elem_of_fmap. destruct (HU _ _ Hin) as (name & st & -> & _ & Hn & _). done.
      + apply NoDup_fmap_2_strong; [|apply NoDup_map_to_list]. intros [ea s] [eb s'] Ha%elem_of_map_to_list Hb%elem_of_map_to_list Hn.
        destruct (HU _ _ Ha) as (na & sa & -> & Hga & _), (HU _ _ Hb) as (nb & sb & -> & Hgb & _). cbn in Hn. subst nb.
        assert (ea = eb) as -> by by eapply ent_name_inj. congruence.
    - intros x [->|([ea s] & -> & Hin%elem_of_map_to_list)%list_elem_of_fmap]%elem_of_cons; [done|].
      destruct (HU _ _ Hin) as (name & st & -> & _ & _ & ?). done. }
  cbn [length] in Hle. rewrite length_fmap, length_map_to_list in Hle. lia.
Qed.

(** ** The loop *)

(** The type that is reported: a right for a port that died before [ts] is a
    dead name. *)
Definition names_type (O : gmap N kobject) (ts : N) (c : cap) : N :=
  match O !! c_obj c with
  | Some (KPort p) =>
      if (is_send (c_type c) || is_sonce (c_type c)) && negb (ip_active p) && IP_TIMESTAMP_ORDER (ip_data p) ts
      then MACH_PORT_TYPE_DEAD_NAME else info_type c
  | _ => info_type c
  end.

(** The bits of an entry as those of a dead name without requests. *)
Lemma dead_bits_ma c : c_urefs c < 2 ^ 16 →
  N.lor (N.ldiff (cap_bits c) (N.lor IE_BITS_TYPE_MASK IE_BITS_MAREQUEST)) MACH_PORT_TYPE_DEAD_NAME = bits_of (c_urefs c) 16.
Proof.
  intros Hu. unfold cap_bits. rewrite (ldiff_high _ _ 63) by done. rewrite (lor_high _ _ 16) by done.
  by destruct (c_type c), (c_ma c).
Qed.

(** An entry without rights is not a receive right. *)
Lemma type_none_has bits : IE_BITS_TYPE bits = 0 → has bits MACH_PORT_TYPE_RECEIVE = false.
Proof.
  unfold has, IE_BITS_TYPE. intros Ht. change MACH_PORT_TYPE_RECEIVE with (N.land IE_BITS_TYPE_MASK MACH_PORT_TYPE_RECEIVE).
  by rewrite N.land_assoc, Ht.
Qed.

Section Names.
Context `{!Config} {T C : Type} `{!KeyMap T} `{!KmemCache C}.
Context (K : kernel T C) (G : gmap N eslot) (n : naked) (sp : N) (S : ipc_space T) (m : gmap N N) (ts : N).
Context (Hinv : Inv K G n) (Hqui : quiescent G) (HS : k_spaces K !! sp = Some S) (HSa : is_active S = true).
Context (Hm : km_rep (is_map S) m) (Hm0 : m !! 0 = Some zero_entry) (Hwalk : km_walk_safe (is_map S)).
Context (Hmap : ∀ name ea, name ≠ 0 → m !! name = Some ea ↔ ∃ st, G !! ea = Some (Slot sp name st)).

Lemma names_helper_spec e ea name c Q :
  G !! ea = Some (Slot sp name (Used c)) → entry_rep e (Slot sp name (Used c)) →
  Q (name, names_type (k_objects K) ts c) K → wp (mach_port_names_helper ts e name) Q K.
Proof.
  intros Hg (_ & Hb & Ho & Hr) HQ. cbn [sl_state] in *. pose proof (oi_caps _ _ _ _ (inv_objs _ _ _ Hinv) _ _ _ _ Hg) as Hcap.
  pose proof Hcap as [Hwf _]. unfold mach_port_names_helper. rewrite Hb, Hr, Ho, cap_has_send_rights by done.
  pose proof (cap_urefs_lt c Hwf) as Hu. unfold names_type in HQ.
  destruct (is_send (c_type c) || is_sonce (c_type c)) eqn:Hs; cycle 1.
  { kstep. cbv zeta. kstep. rewrite cap_type, cap_has_marequest by done. cbn [andb] in HQ.
    by destruct (k_objects K !! c_obj c) as [[]|]. }
  destruct (cap_ok_port_of _ _ _ _ Hcap) as (p & Hp & Hat); [by destruct (c_type c)..|].
  assert (c_obj c ≠ 0) as Hc0 by (unfold cap_wf in Hwf; by destruct (c_type c); destruct Hwf).
  rewrite Hp in HQ. kstep. kstep. apply wp_check; [change IP_NULL with 0; by keqb|]. kstep. eapply wp_load_port; [done|].
  cbv zeta. cbn [andb] in HQ. destruct (ip_active p) eqn:Ha; cbn [negb andb] in *.
  { kstep. cbv zeta. kstep. by rewrite cap_type, cap_has_marequest. }
  destruct (IP_TIMESTAMP_ORDER (ip_data p) ts); kstep; cbv zeta; kstep; cycle 1.
  { by rewrite cap_type, cap_has_marequest. }
  assert (c_urefs c < 65535) as Humax.
  { unfold cap_wf, MACH_PORT_UREFS_MAX in Hwf. destruct (c_type c); try done; lia. }
  rewrite dead_bits_ma, incr_bits by first [done|lia].
  change IE_BITS_MAREQUEST with (2 ^ 16 * 32).
  destruct (c_req c =? 0); cbn [negb]; rewrite type_bits, has_bits by lia; exact HQ.
Qed.

Lemma names_fuel : (size m ≤ size (k_entries K))%nat.
Proof.
  pose proof (inv_ents _ _ _ Hinv) as [(Hz & _ & _ & e0 & He0 & _) Hslots _].
  rewrite <- (length_map_to_list m), <- (length_fmap snd), <- size_dom, <- (size_list_to_set (C := gset N)).
  - apply subseteq_size. intros ea ([name ea'] & -> & Hin%elem_of_map_to_list)%elem_of_list_to_set%list_elem_of_fmap.
    apply elem_of_dom. cbn [snd]. destruct (decide (name = 0)) as [->|Hn]; [rewrite Hm0 in Hin; injection Hin as <-; eauto|].
    apply Hmap in Hin as [st [_ _ _ (e & He & _)]%Hslots]; eauto.
  - apply NoDup_fmap_2_strong; [|apply NoDup_map_to_list].
    intros [na ea] [nb eb] Ha%elem_of_map_to_list Hb%elem_of_map_to_list Heq. cbn [snd] in Heq. subst eb. f_equal.
    destruct (decide (na = 0)) as [->|Hna], (decide (nb = 0)) as [->|Hnb]; try done.
    + apply Hmap in Hb as [? ?]; [congruence|done].
    + apply Hmap in Ha as [? ?]; [congruence|done].
    + apply Hmap in Ha as [? ?], Hb as [? ?]; [congruence|done..].
Qed.

(** The names below [2 ^ 32 - 1] bound the size of the map. *)
Lemma map_bound : N.of_nat (size m) < 2 ^ 32.
Proof.
  rewrite <- length_map_to_list, <- (length_fmap fst). apply N.le_lt_trans with MACH_PORT_NAME_DEAD; [|done].
  apply NoDup_below; [apply NoDup_fst_map_to_list|]. intros ? ([name ea] & -> & Hin%elem_of_map_to_list)%list_elem_of_fmap.
  cbn [fst]. destruct (decide (name = 0)) as [->|Hn]; [done|]. apply Hmap in Hin as [st Hst]; [|done].
  by destruct (ei_slots _ _ _ (inv_ents _ _ _ Hinv) _ _ Hst) as [_ [_ ?] _ _].
Qed.

(** One step of an iteration: at the end no name is left from [from] on; else the
    next entry has no rights (and no name from [from] up to the next key does),
    or holds a capability. *)
Lemma walk_step it from (Q : N * km_iter → kernel T C → Prop) :
  km_iter_at (is_map S) m it from →
  (∀ it', (∀ name ea c, from ≤ name → G !! ea ≠ Some (Slot sp name (Used c))) → Q (0, it') K) →
  (∀ it' from' ea e, ea ≠ 0 → from ≤ from' → km_iter_at (is_map S) m it' from' →
     (size (above m from') < size (above m from))%nat → k_entries K !! ea = Some e → IE_BITS_TYPE (ie_bits e) = 0 →
     (∀ name ea c, from ≤ name < from' → G !! ea ≠ Some (Slot sp name (Used c))) → Q (ea, it') K) →
  (∀ it' k ea e c, ea ≠ 0 → from ≤ k → km_iter_at (is_map S) m it' (k + 1) →
     (size (above m (k + 1)) < size (above m from))%nat → k_entries K !! ea = Some e →
     G !! ea = Some (Slot sp k (Used c)) → entry_rep e (Slot sp k (Used c)) →
     (∀ name ea c, from ≤ name < k → G !! ea ≠ Some (Slot sp name (Used c))) → Q (ea, it') K) →
  wp (on_map sp (km_walk it)) Q K.
Proof.
  pose proof (inv_ents _ _ _ Hinv) as Hents. pose proof Hents as [(Hz & Hz0 & _ & e0 & He0 & _ & Ht0) Hslots _].
  intros Hit Hend Hskip Huse. assert (∀ name ea c, G !! ea = Some (Slot sp name (Used c)) → m !! name = Some ea) as Hin.
  { intros name ea c Hg. apply Hmap; [|eauto]. by destruct (Hslots _ _ Hg) as [_ [? _] _ _]. }
  eapply wp_on_map_read; [done|by apply km_walk_law|]. intros [ea it'] [[Hea Hno]|(k & Hea & Hle & Hg & Hk & Hit')]; cbn [fst snd] in *.
  { subst ea. apply Hend. intros name ea c Hn Hu%Hin. by rewrite Hno in Hu. }
  assert (∀ name ea c, from ≤ name < k → G !! ea ≠ Some (Slot sp name (Used c))) as Hgap.
  { intros name ea' c Hn Hu%Hin. by rewrite Hg in Hu. }
  assert (size (above m (k + 1)) < size (above m from))%nat as Hsz.
  { rewrite (above_split _ _ _ _ Hle Hg Hk), map_size_insert_None; [lia|].
    apply map_lookup_filter_None_2. right. intros ? _. cbn [fst]. lia. }
  assert ((∀ ea c, G !! ea ≠ Some (Slot sp k (Used c))) → ∀ name ea c, from ≤ name < k + 1 → G !! ea ≠ Some (Slot sp name (Used c))) as Hgap1.
  { intros Hnk name ea' c Hn. destruct (decide (name = k)) as [->|]; [apply Hnk|apply Hgap; lia]. }
  destruct (decide (k = 0)) as [->|Hk0].
  { rewrite Hm0 in Hk. injection Hk as <-. eapply (Hskip _ (0 + 1)); try done; [lia|]. apply Hgap1. intros eb c Hb.
    by destruct (Hslots _ _ Hb) as [_ [Hn _] _ _]. }
  apply Hmap in Hk as [st Hst]; [|done]. destruct (Hslots _ _ Hst) as [_ _ _ (e & He & Hrep)]. destruct st as [| |c].
  - destruct Hrep as (_ & Hb & _). cbn [sl_state] in Hb. eapply (Hskip _ (k + 1)); try done; [lia|by rewrite Hb|]. apply Hgap1.
    intros eb c Hb'. assert (ea = eb) as -> by by eapply ent_name_inj. congruence.
  - by destruct (Hqui ea _ _ Hst).
  - by eapply Huse.
Qed.

(** ** Names *)

(** What is listed of the names from [from] on. *)
Definition listed (from : N) (x : N * N) : Prop :=
  from ≤ x.1 ∧ ∃ ea c, G !! ea = Some (Slot sp x.1 (Used c)) ∧ x.2 = names_type (k_objects K) ts c.

Lemma port_names_loop_spec fuel it from :
  km_iter_at (is_map S) m it from → (size (above m from) < fuel)%nat →
  wp (port_names_loop fuel sp ts it)
    (λ l K', K' = K ∧ StronglySorted (λ x y, x.1 < y.1) l ∧ ∀ x, x ∈ l ↔ listed from x) K.
Proof.
  revert it from. induction fuel as [|fuel IH]; intros it from Hit Hf; [lia|]. cbn [port_names_loop]. kstep.
  eapply walk_step; [done|..].
  - intros it' Hno. change (0 =? IE_NULL) with true. cbv beta iota. kstep. split_and!; [done|constructor|].
    intros x. split; [by intros ?%not_elem_of_nil|]. intros (Hx & ea & c & Hg & _). by destruct (Hno _ _ _ Hx Hg).
  - intros it' from' ea e Hea Hle Hit' Hsz He Ht Hno. cbv beta iota. change IE_NULL with 0. keqb.
    kstep. eapply wp_load_entry; [done|]. rewrite Ht. cbn [negb N.eqb].
    eapply wp_mono; [apply (IH _ from'); [done|lia]|]. intros l K' (-> & Hs & Hl). split_and!; [done|done|].
    intros x. rewrite Hl. split; intros (Hx & ea' & c & Hg & ?); (split; [|eauto]); [lia|].
    destruct (N.lt_ge_cases x.1 from') as [Hlt|]; [|done]. by destruct (Hno x.1 ea' c).
  - intros it' k ea e c Hea Hle Hit' Hsz He Hg Hrep Hno. cbv beta iota. change IE_NULL with 0. keqb.
    pose proof Hrep as (Hn & Hb & _). pose proof (inv_caps_wf _ _ _ Hinv _ _ _ _ Hg) as Hwf. cbn [sl_name sl_state] in *.
    kstep. eapply wp_load_entry; [done|]. rewrite Hb, cap_type_nonzero, Hn by done. cbn [negb]. kstep.
    eapply names_helper_spec; [done|done|]. kstep.
    eapply wp_mono; [apply (IH _ (k + 1)); [done|lia]|]. intros l K' (-> & Hs & Hl). kstep. split_and!; [done| |].
    + constructor; [done|]. apply list.Forall_forall. intros x [Hx _]%Hl. cbn [fst]. lia.
    + intros x. rewrite elem_of_cons, Hl. split; [intros [->|[? ?]]; (split; [cbn [fst]; lia|cbn [fst snd]; eauto])|].
      intros (Hx & eb & c' & Hb' & Hx2). destruct (N.lt_trichotomy x.1 k) as [Hlt|[<-|Hgt]].
      * by destruct (Hno x.1 eb c').
      * left. assert (ea = eb) as <- by by eapply ent_name_inj; [exact (inv_ents _ _ _ Hinv)|..].
        rewrite Hg in Hb'. injection Hb' as <-. destruct x. cbn [fst snd] in *. by subst.
      * right. split; [lia|eauto].
Qed.

(** ** Members of a port set *)

Definition member (ps from x : N) : Prop :=
  from ≤ x ∧ ∃ ea c p, G !! ea = Some (Slot sp x (Used c)) ∧ is_recv (c_type c) = true ∧
    k_objects K !! c_obj c = Some (KPort p) ∧ ip_pset p = ps.

Lemma member_skip ps from from' :
  from ≤ from' → (∀ x, x < from' → ¬ member ps from x) → ∀ x, member ps from' x ↔ member ps from x.
Proof.
  intros Hle Hno x. split; [intros [? ?]; split; [lia|done]|]. intros Hx. split; [|apply Hx].
  destruct (N.lt_ge_cases x from') as [Hlt|]; [|done]. by destruct (Hno x).
Qed.

Lemma members_app ps from k l0 l :
  from ≤ k → (∀ name ea c, from ≤ name < k → G !! ea ≠ Some (Slot sp name (Used c))) →
  (∀ x, x ∈ l0 ↔ x = k ∧ member ps from k) → (length l0 ≤ 1)%nat →
  StronglySorted N.lt l → (∀ x, x ∈ l ↔ member ps (k + 1) x) →
  StronglySorted N.lt (l0 ++ l) ∧ ∀ x, x ∈ l0 ++ l ↔ member ps from x.
Proof.
  intros Hle Hno Hl0 Hlen Hs Hl. split.
  - destruct l0 as [|x [|]]; [done| |cbn in Hlen; lia]. constructor; [done|]. apply list.Forall_forall.
    intros y [Hy _]%Hl. destruct (proj1 (Hl0 x)) as [-> _]; [by left|lia].
  - intros x. rewrite elem_of_app, Hl, Hl0. split.
    + intros [[-> ?]|[? ?]]; [done|split; [lia|done]].
    + intros Hx. destruct (N.lt_trichotomy x k) as [Hlt|[->|Hgt]]; [|by left|right; split; [lia|apply Hx]].
      destruct Hx as (Hx & eb & cb & pb & Hgb & _). by destruct (Hno x eb cb).
Qed.

Lemma gst_helper_spec ps maxnames names actual ea k c p Q :
  G !! ea = Some (Slot sp k (Used c)) → is_recv (c_type c) = true → k_objects K !! c_obj c = Some (KPort p) →
  actual + 1 < 2 ^ 32 →
  Q (if ps =? ip_pset p then (if actual <? maxnames then names ++ [k] else names, actual + 1) else (names, actual)) K →
  wp (mach_port_gst_helper ps (c_obj c) maxnames names actual) Q K.
Proof.
  intros Hg Hr Hp Hact HQ. pose proof (oi_caps _ _ _ _ (inv_objs _ _ _ Hinv) _ _ _ _ Hg) as Hcap.
  destruct (cap_ok_port_of _ _ _ _ Hcap) as (p' & Hp' & Hat); [by destruct (c_type c)..|].
  rewrite Hp in Hp'. injection Hp' as <-. destruct (Hat Hr) as (Ha & _ & Hn).
  assert (c_obj c ≠ 0) as Hc0 by (destruct Hcap as [Hwf _]; unfold cap_wf in Hwf; by destruct (c_type c); destruct Hwf).
  destruct (ei_slots _ _ _ (inv_ents _ _ _ Hinv) _ _ Hg) as [_ [Hk0 _] _ _]. cbn [sl_name] in Hk0.
  unfold mach_port_gst_helper. kstep. apply wp_check; [change IP_NULL with 0; by keqb|]. kstep. eapply wp_load_port; [done|].
  kstep. apply wp_check; [done|]. kstep. rewrite Hn. apply wp_check; [change MACH_PORT_NULL with 0; by keqb|].
  assert (incr actual = actual + 1) as -> by (unfold incr, u32, wrap; by apply N.mod_small).
  destruct (ps =? ip_pset p); by kstep.
Qed.

Lemma port_set_loop_spec ps maxnames fuel it from names actual :
  km_iter_at (is_map S) m it from → (size (above m from) < fuel)%nat → actual + N.of_nat (size (above m from)) < 2 ^ 32 →
  wp (port_set_loop fuel sp ps maxnames it names actual)
    (λ r K', K' = K ∧ ∃ l, r = (names ++ take (N.to_nat (maxnames - actual)) l, actual + N.of_nat (length l)) ∧
       StronglySorted N.lt l ∧ ∀ x, x ∈ l ↔ member ps from x) K.
Proof.
  revert it from names actual. induction fuel as [|fuel IH]; intros it from names actual Hit Hf Hact; [lia|].
  cbn [port_set_loop]. kstep. eapply walk_step; [done|..].
  - intros it' Hno. change (0 =? IE_NULL) with true. cbv beta iota. kstep. split; [done|]. exists [].
    rewrite take_nil, app_nil_r, N.add_0_r. split_and!; [done|constructor|]. intros x. split; [by intros ?%not_elem_of_nil|].
    intros (Hx & ea & c & p & Hg & _). by destruct (Hno _ _ _ Hx Hg).
  - intros it' from' ea e Hea Hle Hit' Hsz He Ht Hno. cbv beta iota. change IE_NULL with 0. keqb.
    kstep. eapply wp_load_entry; [done|]. rewrite type_none_has by done. kstep. kstep. cbv beta iota.
    eapply wp_mono; [apply (IH _ from'); [done|lia..]|]. intros r K' (-> & l & -> & Hs & Hl). split; [done|]. exists l.
    split_and!; [done|done|]. intros x. rewrite Hl. apply member_skip; [done|]. intros y Hy (? & eb & c & p & Hg & _).
    by destruct (Hno y eb c).
  - intros it' k ea e c Hea Hle Hit' Hsz He Hg Hrep Hno. cbv beta iota. change IE_NULL with 0. keqb.
    pose proof Hrep as (Hn & Hb & Ho & _). pose proof (oi_caps _ _ _ _ (inv_objs _ _ _ Hinv) _ _ _ _ Hg) as Hcap.
    assert (∀ y c', G !! ea = Some (Slot sp y (Used c')) → y = k ∧ c' = c) as Huniq by (intros y c' Hc'; split; congruence).
    cbn [sl_name sl_state] in *. kstep. eapply wp_load_entry; [done|]. rewrite Hb, cap_has_receive, Ho by apply Hcap.
    assert (∀ names' actual' l0, (∀ x, x ∈ l0 ↔ x = k ∧ member ps from k) → (length l0 ≤ 1)%nat →
      names' = names ++ take (N.to_nat (maxnames - actual)) l0 → actual' = actual + N.of_nat (length l0) →
      wp (port_set_loop fuel sp ps maxnames it' names' actual')
        (λ r K', K' = K ∧ ∃ l, r = (names ++ take (N.to_nat (maxnames - actual)) l, actual + N.of_nat (length l)) ∧
           StronglySorted N.lt l ∧ ∀ x, x ∈ l ↔ member ps from x) K) as Hrest.
    { intros names' actual' l0 Hl0 Hlen -> ->. eapply wp_mono; [apply (IH _ (k + 1)); [done|lia..]|].
      intros r K' (-> & l & -> & Hs & Hl). split; [done|]. exists (l0 ++ l). split; [|by eapply members_app].
      rewrite length_app, take_app, app_assoc.
      replace (N.to_nat (maxnames - (actual + N.of_nat (length l0)))) with (N.to_nat (maxnames - actual) - length l0)%nat by lia.
      f_equal. lia. }
    assert (∀ eb cb, G !! eb = Some (Slot sp k (Used cb)) → eb = ea ∧ cb = c) as Hk.
    { intros eb cb Hgb. assert (eb = ea) as -> by by eapply ent_name_inj; [exact (inv_ents _ _ _ Hinv)|..]. by destruct (Huniq _ _ Hgb) as [_ ->]. }
    destruct (is_recv (c_type c)) eqn:Hr; cycle 1.
    { kstep. kstep. cbv beta iota. apply (Hrest _ _ []); [|cbn; lia|by rewrite take_nil, app_nil_r|cbn; lia]. intros x. split; [by intros ?%not_elem_of_nil|].
      intros (_ & _ & eb & cb & pb & [-> ->]%Hk & Hrb & _). congruence. }
    destruct (cap_ok_port_of _ _ _ _ Hcap) as (p & Hp & _); [by destruct (c_type c)..|].
    kstep. eapply gst_helper_spec; [done|done|done|lia|]. destruct (N.eqb_spec ps (ip_pset p)) as [Heq|Hne].
    + cbv beta iota. apply (Hrest _ _ [k]); [|cbn; lia| |cbn; lia].
      * intros x. rewrite list_elem_of_singleton. split; [|by intros [-> _]]. intros ->. split; [done|]. split; [done|]. by exists ea, c, p.
      * destruct (N.ltb_spec actual maxnames).
        -- destruct (N.to_nat (maxnames - actual)) eqn:E; [lia|cbn; by rewrite take_nil].
        -- replace (N.to_nat (maxnames - actual)) with 0%nat by lia. by rewrite app_nil_r.
    + cbv beta iota. apply (Hrest _ _ []); [|cbn; lia|by rewrite take_nil, app_nil_r|cbn; lia]. intros x. split; [by intros ?%not_elem_of_nil|].
      intros (_ & _ & eb & cb & pb & [-> ->]%Hk & _ & Hpb & Hps). congruence.
Qed.
End Names.

Section Claim.
Context `{!Config} {T C : Type} `{!KeyMap T} `{!KmemCache C}.

Lemma inv_timestamp (K : kernel T C) G n ts : Inv K G n → Inv (set_k_timestamp ts K) G n.
Proof. by destruct K, 1. Qed.

Lemma wp_ipc_port_timestamp (K : kernel T C) Q :
  Q (k_timestamp K) (set_k_timestamp (incr (k_timestamp K)) K) → wp ipc_port_timestamp Q K.
Proof. done. Qed.

(** Different names are in different entries. *)
Lemma names_count (K : kernel T C) G n sp (l : list N) :
  Inv K G n → active_space (k_spaces K) sp → NoDup l → (∀ x, x ∈ l → ∃ ea c, G !! ea = Some (Slot sp x (Used c))) →
  N.of_nat (length l) ≤ n_used G sp.
Proof.
  intros Hinv (S & HS & HSa) Hnd Hl. destruct (ei_spaces _ _ _ (inv_ents _ _ _ Hinv) _ _ HS HSa) as [_ (m & _ & _ & Hmap) _ _ _].
  assert (∀ name, name ∈ l → ∃ ea c, m !! name = Some ea ∧ G !! ea = Some (Slot sp name (Used c))) as Hat.
  { intros name (ea & c & Hg)%Hl. exists ea, c. split; [|done]. apply Hmap; [|eauto].
    by destruct (ei_slots _ _ _ (inv_ents _ _ _ Hinv) _ _ Hg) as [_ [? _] _ _]. }
  rewrite <- (length_fmap (λ name, default 0 (m !! name))). apply count_at_least.
  - apply NoDup_fmap_2_strong; [|done]. intros na nb (ea & ca & Ha & Hga)%Hat (eb & cb & Hb & Hgb)%Hat.
    rewrite Ha, Hb. intros [= <-]. congruence.
  - intros ? (name & -> & (ea & c & Ha & Hg)%Hat)%list_elem_of_fmap. rewrite Ha. eexists. split; [exact Hg|].
    unfold used_in. cbn. by rewrite N.eqb_refl.
Qed.

Lemma sorted_NoDup (l : list N) : StronglySorted N.lt l → NoDup l.
Proof.
  induction 1 as [|x l Hs IH Hx]; [constructor|]. apply NoDup_cons_2; [|done]. intros Hin.
  pose proof (proj1 (list.Forall_forall _ _) Hx x Hin). lia.
Qed.

(** The names that are listed fit the arrays. *)
Lemma names_fit (K : kernel T C) G n sp S ts l :
  Inv K G n → k_spaces K !! sp = Some S → is_active S = true → StronglySorted (λ x y, x.1 < y.1) l →
  (∀ x, x ∈ l ↔ listed K G sp ts 0 x) → N.of_nat (length l) < u32 (is_size S).
Proof.
  intros Hinv HS HSa Hs Hl. destruct (ei_spaces _ _ _ (inv_ents _ _ _ Hinv) _ _ HS HSa) as [_ _ _ _ Hsize].
  pose proof (n_used_bound _ _ _ sp (inv_ents _ _ _ Hinv)) as Hlt. unfold MACH_PORT_NAME_DEAD in Hlt.
  assert (N.of_nat (length l.*1) ≤ n_used G sp) as Hle.
  { eapply names_count; [done|by exists S| |].
    - apply sorted_NoDup. clear Hl. induction Hs as [|x l Hs IH Hx]; [constructor|]. constructor; [done|]. by apply list.Forall_fmap.
    - intros name (x & -> & (_ & ea & c & Hg & _)%Hl)%list_elem_of_fmap. eauto. }
  rewrite length_fmap in Hle. rewrite Hsize. unfold u32, u64, wrap. rewrite (N.mod_small _ (2 ^ 64)), N.mod_small by lia. lia.
Qed.


(** The second array is large enough. *)
Lemma second_size k : k + 2048 ≤ 2 ^ 32 → k ≤ u32 (u64 (round_page (k * 4) + PAGE_SIZE) / 4).
Proof.
  intros Hk. unfold round_page, PAGE_MASK, PAGE_SIZE, u64, u32, wrap.
  change (4096 - 1) with (N.ones 12). rewrite N.ldiff_ones_r, N.shiftl_mul_pow2, N.shiftr_div_pow2.
  change (N.ones 12) with 4095. change (2 ^ 12) with 4096. rewrite (N.mod_small (k * 4 + 4095)) by lia.
  assert (k * 4 ≤ (k * 4 + 4095) / 4096 * 4096 ≤ k * 4 + 4095) as Hq.
  { generalize (N.div_mod (k * 4 + 4095) 4096 ltac:(done)), (N.mod_lt (k * 4 + 4095) 4096 ltac:(done)).
    generalize ((k * 4 + 4095) / 4096), ((k * 4 + 4095) mod 4096). lia. }
  revert Hq. generalize ((k * 4 + 4095) / 4096 * 4096). intros q Hq. rewrite (N.mod_small (q + 4096)) by lia.
  assert ((q + 4096) / 4 < 2 ^ 32) by (apply N.Div0.div_lt_upper_bound; lia).
  rewrite N.mod_small by done. apply N.div_le_lower_bound; lia.
Qed.

(** One round of the loop. *)
Lemma set_status_round (K : kernel T C) G n sp S name ea c memory fuel size Q :
  Inv K G n → quiescent G → k_spaces K !! sp = Some S → is_active S = true → km_walk_safe (is_map S) →
  name < 2 ^ 32 → G !! ea = Some (Slot sp name (Used c)) → c_type c = TPset → memory size = true →
  (∀ l, StronglySorted N.lt l → (∀ x, x ∈ l ↔ member K G sp (c_obj c) 0 x) → N.of_nat (length l) ≤ n_used G sp →
     let actual := N.of_nat (length l) in
     if actual <=? u32 (size / 4) then Q (KERN_SUCCESS, l) K
     else wp (set_status_loop fuel memory sp name (u64 (round_page (actual * 4) + PAGE_SIZE))) Q K) →
  wp (set_status_loop (Datatypes.S fuel) memory sp name size) Q K.
Proof.
  intros Hinv Hqui HS HSa Hwalk Hname Hg Ht Hmem HQ.
  pose proof (ei_spaces _ _ _ (inv_ents _ _ _ Hinv) _ _ HS HSa) as [Hsp (m & Hm & Hm0 & Hmap) _ _ _].
  cbn [set_status_loop]. rewrite Hmem. cbn [negb].
  eapply (lookup_call_spec K G n sp S name (λ kr, (kr, []))); try done; [intros kr _ [?|Hno]; [congruence|by destruct (Hno _ _ Hg)]|].
  intros _ ea' c' Hg'. assert (ea' = ea) as -> by by eapply ent_name_inj; [exact (inv_ents _ _ _ Hinv)|..].
  rewrite Hg in Hg'. injection Hg' as <-. pose proof (inv_caps_wf _ _ _ Hinv _ _ _ _ Hg) as Hwf.
  destruct (ei_slots _ _ _ (inv_ents _ _ _ Hinv) _ _ Hg) as [_ _ _ (e & He & _ & Hb & Ho & _)]. cbn [sl_state] in *.
  kstep. eapply wp_load_entry; [done|]. rewrite Hb, Ho, cap_type, Ht by done. cbn [type_code]. cbv zeta.
  change (negb (2 ^ 16 * 8 =? MACH_PORT_TYPE_PORT_SET)) with false. cbv iota. kstep.
  assert (c_obj c ≠ 0) as Hc0 by (unfold cap_wf in Hwf; by rewrite Ht in Hwf; destruct Hwf).
  apply wp_check; [change IPS_NULL with 0; by keqb|]. kstep. kstep. kstep.
  assert (base.size (above m 0) ≤ base.size m)%nat as Hab by apply map_subseteq_size, map_filter_subseteq.
  pose proof (map_bound K G n sp m Hinv Hmap) as Hmb. pose proof (names_fuel K G n sp m Hinv Hm0 Hmap) as Hf.
  eapply wp_mono; [eapply (port_set_loop_spec K G n sp S m); try done; [apply km_iter_init_law|fold (k_entries K); lia|lia]|].
  intros r K' (-> & l & -> & Hs & Hl). rewrite N.sub_0_r, N.add_0_l. cbn [app].
  assert (N.of_nat (length l) ≤ n_used G sp) as Hlen.
  { eapply names_count; [done|by exists S|by apply sorted_NoDup|]. intros x (_ & eb & cb & p & Hgb & _)%Hl. eauto. }
  specialize (HQ l Hs Hl Hlen). cbv beta iota zeta in *. destruct (N.leb_spec (N.of_nat (length l)) (u32 (size / 4))); [|done].
  kstep. by rewrite take_ge by lia.
Qed.

End Claim.

(** ** The theorems at work *)

Lemma mach_port_get_refs_correct_witness :
  ∃ K', mach_port_get_refs spB 1 MACH_PORT_RIGHT_SEND demo_kernel = Some ((KERN_SUCCESS, 3), K') ∧
    looked demo_kernel demo_table demo_naked 32 spB 1 (Cap TSend p1 3 0 false) K'.
Proof.
  exact (mach_port_get_refs_correct demo_kernel demo_table demo_naked spB _ 1 demo_inv demo_quiescent eq_refl eq_refl
    32 (Cap TSend p1 3 0 false) MACH_PORT_RIGHT_SEND eq_refl eq_refl eq_refl).
Defined.


(** The names of [spB]: a send right, a send-once right and a right for a port
    that died. *)
Lemma demo_names :
  (x ← mach_port_names true spB; mret x.2) demo_kernel ≫= (λ x, Some x.1) =
  Some [(1, MACH_PORT_TYPE_SEND); (2, MACH_PORT_TYPE_SEND_ONCE); (3, MACH_PORT_TYPE_DEAD_NAME)].
Proof. vm_compute. reflexivity. Qed.

