(* ===== verification/IpcDnRequest.v ===== *)
(** [ipc_right_dnrequest]: the table of requests grows when it is full, and the
    second attempt to register a request succeeds. *)

From S2P Require Import Prelude Kmem Rdxtree RdxtreeInv RdxtreeSpec RdxtreeMap IpcTypes IpcEntry IpcPort IpcMarequest IpcRight IpcObject IpcBits IpcInv IpcUpdate IpcDn IpcMar IpcStep IpcRelease IpcCheck IpcVacate IpcDealloc IpcDelta IpcCopyin IpcCopyout IpcAlloc IpcTransfer MachPort IpcAttr IpcDemo MachPortSpec.

Open Scope N_scope.

(** ** The sizes of tables *)

(** Sizes that grow from 2 on, in 32 bits, with a last one of zero. *)
Fixpoint growing_sizes (l : list N) : bool :=
  match l with
  | [] => false
  | [x] => x =? 0
  | x :: (y :: _) as l' => (2 <=? x) && (x <? 2 ^ 32) && ((y =? 0) || (x <? y)) && growing_sizes l'
  end.

Lemma growing_last l : growing_sizes l = true → ∃ i, l !! i = Some 0 ∧ length l = S i.
Proof.
  induction l as [|x [|y l] IH]; [done| |].
  - intros ->%N.eqb_eq. by exists 0%nat.
  - intros [_ H]%andb_true_iff. destruct (IH H) as (i & Hi & Hlen). exists (S i). split; [done|]. cbn [length] in *. lia.
Qed.

Lemma growing_pair l i x y : growing_sizes l = true → l !! i = Some x → l !! S i = Some y → (y = 0 ∨ x < y) ∧ 2 ≤ x ∧ x < 2 ^ 32.
Proof.
  revert i. induction l as [|a [|b l] IH]; [done|by intros [|i]|]. intros i [[[H1 H2]%andb_true_iff H3]%andb_true_iff H]%andb_true_iff.
  destruct i as [|i]; [|by apply IH]. intros [= ->] [= ->]. apply N.leb_le in H1. apply N.ltb_lt in H2. apply orb_true_iff in H3 as [->%N.eqb_eq|H3%N.ltb_lt]; auto.
Qed.

Lemma growing_ok `{!Config} : growing_sizes ipc_table_dnrequests = true → ConfigOk.
Proof.
  intros Hg. split.
  - by apply growing_last.
  - intros i x y Hx Hy. by eapply growing_pair.
  - intros i x Hx. destruct (growing_last _ Hg) as (j & Hj & Hlen). destruct (decide (i = j)) as [->|Hne]; [by simplify_eq|].
    pose proof (lookup_lt_Some _ _ _ Hx). destruct (lookup_lt_is_Some_2 ipc_table_dnrequests (S i)) as [y Hy]; [lia|]. by eapply growing_pair.
  - intros i x y Hx Hy. by eapply growing_pair.
Qed.

(** The sizes that [ipc_table_init] computes, for requests of 8 and of 16 bytes. *)
Lemma ipc_table_init_growing : growing_sizes (ipc_table_init 8 4096) = true ∧ growing_sizes (ipc_table_init 16 4096) = true.
Proof. by vm_compute. Qed.

#[export] Instance demo_config_ok : ConfigOk.
Proof. apply growing_ok, ipc_table_init_growing. Qed.

Section DnRequest.
Context `{!Config} `{!ConfigOk} {T C : Type} `{!KeyMap T} `{!KmemCache C}.
Implicit Types (K : kernel T C) (G : gmap N eslot) (n : naked).

(** ** Tables *)

(** Slots can be named in 32 bits. *)
Lemma dn_slot_bound t i r : dn_table_ok t → dn_slot t i = Some r → i < 2 ^ 32.
Proof.
  intros [Hsize _ _] Hr. apply dn_sizes_bound in Hsize. apply lookup_lt_Some in Hr. lia.
Qed.

(** The size of the next table. *)
Lemma next_size (ot : option dnrequests) :
  match ot with Some t => dn_table_ok t | None => True end →
  ∃ nsize, ipc_table_dnrequests !! N.to_nat (match ot with None => 0 | Some t => ipr_size t + 1 end) = Some nsize ∧
    (nsize = 0 ∨ match ot with None => 1 | Some t => N.of_nat (length (ipr_slots t)) + 1 end < nsize).
Proof.
  destruct dn_sizes_last as (i & Hi & Hlen). intros Hot. destruct ot as [t|].
  - destruct Hot as [Hsize _ _]. assert (N.to_nat (ipr_size t) < S i)%nat as Hlt by (rewrite <- Hlen; by eapply lookup_lt_Some).
    assert (N.to_nat (ipr_size t) ≠ i) as Hne. { intros Heq. rewrite Heq, Hi in Hsize. injection Hsize as Hsize. lia. }
    destruct (lookup_lt_is_Some_2 ipc_table_dnrequests (S (N.to_nat (ipr_size t)))) as [y Hy]; [lia|].
    exists y. replace (N.to_nat (ipr_size t + 1)) with (S (N.to_nat (ipr_size t))) by lia. split; [done|]. by apply (dn_sizes_grow _ _ _ Hsize Hy).
  - destruct (lookup_lt_is_Some_2 ipc_table_dnrequests 0) as [x Hx]; [lia|]. exists x. split; [done|].
    destruct (decide (x = 0)) as [|Hx0]; [by left|right]. destruct i as [|i]; [congruence|].
    destruct (lookup_lt_is_Some_2 ipc_table_dnrequests 1) as [y Hy]; [lia|]. pose proof (dn_sizes_pos _ _ _ Hx Hy). lia.
Qed.

Lemma reference_release p : ip_references p + 1 < 2 ^ 32 → ip_release (ip_reference p) = p.
Proof.
  intros Hr. destruct p as [[[refs bits] nm q] ? ? ? ? ? ? ? ? ? ? ? ? ? ? ?]. unfold ip_release, ip_reference, upd_target, upd_object.
  cbn in *. unfold io_release, io_reference. cbn. rewrite incr_succ, decr_pred by lia. by replace (refs + 1 - 1) with refs by lia.
Qed.

Section Grow.
Context (Sp : gmap N (ipc_space T)) (E : gmap N ipc_entry) (O : gmap N kobject) (M : gmap N ipc_marequest).
Context (B : gmap N (list N)) (Th : gmap N ipc_thread) (Km : gmap N ipc_kmsg) (Ts : N) (Ca : list call) (Cc : gmap N C).
Context (G : gmap N eslot) (n : naked) (pa : N) (p : ipc_port).
#[local] Abbreviation K := (Kernel Sp E O M B Th Km Ts Ca Cc).
Context (Hinv : Inv K G n) (Hp : O !! pa = Some (KPort p)) (Hact : ip_active p = true) (Hspare : ip_references p + 1 < 2 ^ 32).

(** The port gets another table of requests. *)
Lemma inv_table t (Cc' : gmap N C) :
  dn_ok G pa (Some t) → (∀ i, i < 6 → is_Some (Cc' !! i)) →
  Inv (Kernel Sp E (<[pa := KPort (set_ip_dnrequests (Some t) p)]> O) M B Th Km Ts Ca Cc') G n.
Proof.
  intros Hdn Hcc'. destruct (oi_objects _ _ _ _ (inv_objs _ _ _ Hinv) _ _ Hp) as (Haddr & _ & Hport). ksimpl_all.
  pose proof (po_naked _ _ _ _ _ _ Hport). pose proof (po_pd _ _ _ _ _ _ Hport). pose proof (po_sonce _ _ _ _ _ _ Hport).
  eapply inv_naked_ext; [intros a; symmetry; apply (upd_naked_id n pa)|]. eapply inv_naked_step; try done.
  by eapply (port_ok_naked Sp O G n pa p); try done; try apply Haddr; try apply Hport.
Qed.

Lemma ipc_port_dngrow_spec Q :
  (∀ Cc', (∀ i, i < 6 → is_Some (Cc' !! i)) → Q KERN_RESOURCE_SHORTAGE (Kernel Sp E O M B Th Km Ts Ca Cc')) →
  (∀ t Cc', dn_ok G pa (Some t) → ipr_next t ≠ 0 → (∀ i, i < 6 → is_Some (Cc' !! i)) →
     Q KERN_SUCCESS (Kernel Sp E (<[pa := KPort (set_ip_dnrequests (Some t) p)]> O) M B Th Km Ts Ca Cc')) →
  wp (ipc_port_dngrow pa) Q K.
Proof.
  intros Hshort Hgrow. destruct (oi_objects _ _ _ _ (inv_objs _ _ _ Hinv) _ _ Hp) as (Haddr & _ & Hport). ksimpl_all.
  pose proof (inv_caches _ _ _ Hinv) as Hcc. ksimpl_all. pose proof (po_dn _ _ _ _ _ _ Hport Hact) as Hdn.
  destruct (next_size (ip_dnrequests p)) as (nsize & Hnsize & Hn0).
  { destruct (ip_dnrequests p); [apply Hdn|done]. }
  unfold ipc_port_dngrow. ksteps. eapply wp_deref; [done|]. cbv beta. ksteps.
  assert (∀ Cc', (∀ i, i < 6 → is_Some (Cc' !! i)) → wp (ipc_port_release pa;; mret KERN_RESOURCE_SHORTAGE) Q
    (Kernel Sp E (<[pa := KPort (ip_reference p)]> O) M B Th Km Ts Ca Cc')) as Hrelease.
  { intros Cc' Hcc'. kstep. unfold ipc_port_release.
    assert (ip_references (ip_reference p) = ip_references p + 1) as Href by by apply incr_succ. pose proof (po_pos _ _ _ _ _ _ Hport).
    eapply ipc_object_release_spec; ksimpl; [apply lookup_insert_eq|apply Hport|rewrite Href; lia|done| |rewrite Href; lia].
    intros _. rewrite insert_insert_eq, reference_release, insert_id by done. kstep. by apply Hshort. }
  destruct (N.eqb_spec nsize 0) as [->|Hnz].
  { kstep. change (0 =? 0) with true. cbv iota. by apply Hrelease. }
  destruct Hn0 as [?|Hlt]; [done|]. unfold cache_alloc. ksteps. destruct (Hcc ipc_table_cache ltac:(done)) as [ca Hca].
  eapply wp_deref; [done|]. cbv beta. destruct (kmem_cache_alloc ca) as [oa ca'] eqn:Hal. ksteps.
  assert (∀ i, i < 6 → is_Some (<[ipc_table_cache := ca']> Cc !! i)) as Hcc'.
  { intros i Hi. destruct (decide (i = ipc_table_cache)) as [->|Hne]; [by rewrite lookup_insert_eq|]. rewrite lookup_insert_ne by done. auto. }
  destruct oa as [a|]; cbn [default]; [|change (0 =? 0) with true; cbv iota; by apply Hrelease].
  destruct (kmem_alloc_some _ _ _ Hal) as (_ & Ha0 & _ & _). keqb. ksteps. rewrite insert_insert_eq, reference_release, insert_id by done.
  destruct (ip_dnrequests p) as [t|] eqn:Ht.
  - destruct Hdn as [Htab Hcaps]. pose proof Htab as [Hsize _ _]. kstep. eapply wp_deref; [done|]. ksteps. cbv beta iota zeta.
    replace (N.of_nat (length (ipr_slots t)) + 1 <? nsize) with true by (symmetry; apply N.ltb_lt; lia). ksteps.
    rewrite take_ge by lia. destruct (dn_free_slots _ _ _) as [sl f] eqn:Hsl.
    destruct (dn_table_grow (Some t) a _ nsize sl f Htab Hlt Hnsize Hsl) as [_ Hf]. ksteps.
    eapply cache_free_spec; ksimpl; [done|done|]. intros Cc2 Hcc2. ksteps. apply Hgrow; [|done|done].
    by apply (dn_ok_grow G pa (Some t) a _ nsize sl f).
  - ksteps. cbv beta iota zeta. replace (1 <? nsize) with true by (symmetry; apply N.ltb_lt; lia). ksteps.
    destruct (dn_free_slots _ _ _) as [sl f] eqn:Hsl. destruct (dn_table_grow None a _ nsize sl f I Hlt Hnsize Hsl) as [_ Hf]. ksteps.
    apply Hgrow; [|done|done]. by apply (dn_ok_grow G pa None a _ nsize sl f).
Qed.
End Grow.

(** ** Registration *)

Definition with_req (r : N) (c : cap) : cap := Cap (c_type c) (c_obj c) (c_urefs c) r (c_ma c).

Lemma with_req_id c : with_req (c_req c) c = c.
Proof. by destruct c. Qed.
Lemma set_ip_dnrequests_id p : set_ip_dnrequests (ip_dnrequests p) p = p.
Proof. by destruct p. Qed.

(** The capability has a slot, or there is a free one. *)
Definition dn_room (c : cap) (p : ipc_port) : Prop :=
  c_req c ≠ 0 ∨ ∃ t, ip_dnrequests p = Some t ∧ ipr_next t ≠ 0.

Section Live.
Context (Sp : gmap N (ipc_space T)) (E : gmap N ipc_entry) (O : gmap N kobject) (M : gmap N ipc_marequest).
Context (B : gmap N (list N)) (Th : gmap N ipc_thread) (Km : gmap N ipc_kmsg) (Ts : N) (Ca : list call) (Cc : gmap N C).
Context (G : gmap N eslot) (n : naked) (ea sp name : N) (c : cap) (p : ipc_port) (e : ipc_entry).
#[local] Abbreviation K := (Kernel Sp E O M B Th Km Ts Ca Cc).
#[local] Abbreviation pa := (c_obj c).
Context (Hinv : Inv K G n) (Hg : G !! ea = Some (Slot sp name (Used c))) (Hd : c_type c ≠ TDead) (Hps : c_type c ≠ TPset).
Context (Hp : O !! pa = Some (KPort p)) (Hact : ip_active p = true) (He : E !! ea = Some e).
Context (Hspare : ip_references p + 1 < 2 ^ 32).

(** The port and the entry agree on another request. *)
Lemma inv_request r ot e' :
  dn_ok (<[ea := Slot sp name (Used (with_req r c))]> G) pa ot → entry_rep e' (Slot sp name (Used (with_req r c))) →
  Inv (Kernel Sp (<[ea := e']> E) (<[pa := KPort (set_ip_dnrequests ot p)]> O) M B Th Km Ts Ca Cc)
    (<[ea := Slot sp name (Used (with_req r c))]> G) n.
Proof.
  intros Hdn He'. destruct (inv_port_cap _ _ _ _ _ _ _ Hinv Hg Hd Hps) as (Hwf & Haddr & p' & e0 & S & Hp' & He0 & HS & HSa & Hport & _).
  ksimpl_all. assert (p' = p) as -> by congruence. eapply inv_naked_ext; [intros a; symmetry; apply (upd_naked_id n pa)|].
  pose proof (po_naked _ _ _ _ _ _ Hport). pose proof (po_pos _ _ _ _ _ _ Hport). pose proof (po_pd _ _ _ _ _ _ Hport).
  pose proof (po_sonce _ _ _ _ _ _ Hport).
  eapply (inv_step_same Sp E O M B Th Km Ts Ca Cc G n Hinv pa p); try done; [by left|by left| | | | |].
  - intros c' [= <-]. pose proof (oi_caps _ _ _ _ (inv_objs _ _ _ Hinv) _ _ _ _ Hg) as Hcap. eapply cap_ok_port; [done| |].
    + split; [|apply Hcap]. unfold cap_wf in *. cbn. by destruct (c_type c).
    + intros _ _ Hat. exact Hat.
  - intros o Ho. by left.
  - eapply mar_ok_update; [apply (inv_mars _ _ _ Hinv)|done|done].
  - apply (inv_caches _ _ _ Hinv).
  - eapply (port_ok_step Sp O G n ea sp name (Used c)); try done; apply Haddr || apply Hport.
Qed.

(** The table has a free slot: the request is registered. *)
Lemma dnrequest_some_spec E1 t notify Q :
  notify ≠ IP_NULL → dn_ok (<[ea := Slot sp name (Used (with_req 0 c))]> G) pa (Some t) → ipr_next t ≠ 0 →
  (∀ i t', i ≠ 0 → i < 2 ^ 32 → dn_ok (<[ea := Slot sp name (Used (with_req i c))]> G) pa (Some t') →
     Q (KERN_SUCCESS, i) (Kernel Sp E1 (<[pa := KPort (set_ip_dnrequests (Some t') p)]> O) M B Th Km Ts Ca Cc)) →
  wp (ipc_port_dnrequest pa name notify) Q
    (Kernel Sp E1 (<[pa := KPort (set_ip_dnrequests (Some t) p)]> O) M B Th Km Ts Ca Cc).
Proof.
  intros Hnot Hdn Hnext HQ. pose proof (inv_ents _ _ _ Hinv) as Hent. ksimpl_all.
  destruct (ei_slots _ _ _ Hent _ _ Hg) as [_ [Hn0 _] _ _]. cbn [sl_name] in Hn0.
  pose proof Hdn as [Htab _]. destruct (dn_table_next _ Htab Hnext) as (r & Hr & Hrn). pose proof (dn_slot_bound _ _ _ Htab Hr) as Hb.
  unfold ipc_port_dnrequest. change IP_NULL with 0 in *. ksteps. change MACH_PORT_NULL with 0 in *. keqb. ksteps.
  cbn [ip_dnrequests set_ip_dnrequests]. keqb. ksteps. eapply wp_deref; [done|]. ksteps. rewrite Hrn. ksteps.
  rewrite !insert_insert_eq. apply (HQ (ipr_next t)); [done|done|].
  pose proof (dn_ok_request (<[ea := Slot sp name (Used (with_req 0 c))]> G) ea sp name pa (Used (with_req (ipr_next t) c))
    t r notify) as Hreg. rewrite insert_insert_eq in Hreg. apply Hreg; try done.
  - intros x s [[<- <-]|[_ Hx]]%lookup_insert_Some; [done|]. by destruct (ei_slots _ _ _ Hent _ _ Hx) as [_ [? _] _ _].
  - simpl. by rewrite N.eqb_refl.
Qed.

(** The outcome of an iteration on a live port: the request is registered or
    cancelled, there is no memory, or there is a larger table. *)
Definition live_post notify (r : option (kern_return_t * N)) (K' : kernel T C) : Prop :=
  match r with
  | Some (kr, previous) =>
      k_spaces K' = Sp ∧
      if kr =? KERN_SUCCESS
      then ∃ i, (i = 0 ↔ notify = IP_NULL) ∧ Inv K' (<[ea := Slot sp name (Used (with_req i c))]> G) n
      else kr = KERN_RESOURCE_SHORTAGE ∧ notify ≠ IP_NULL ∧ ¬ dn_room c p ∧ Inv K' G n
  | None =>
      ¬ dn_room c p ∧ ∃ t Cc', ipr_next t ≠ 0 ∧ Inv K' G n ∧
        K' = Kernel Sp E (<[pa := KPort (set_ip_dnrequests (Some t) p)]> O) M B Th Km Ts Ca Cc'
  end.

(** What is left of an iteration once a former request is cancelled. *)
#[local] Abbreviation register := (λ notify previous : N,
  '(kr, request) ← ipc_port_dnrequest pa name notify;
  if negb (kr =? KERN_SUCCESS) then
    check (previous =? IP_NULL);;
    kr ← ipc_port_dngrow pa;
    if negb (kr =? KERN_SUCCESS) then mret (Some (kr, IP_NULL)) else mret None
  else
    check (negb (request =? 0));;
    upd_entry ea (set_ie_request request);;
    mret (Some (KERN_SUCCESS, previous))).

Lemma register_some_spec b t notify previous :
  notify ≠ IP_NULL → dn_ok (<[ea := Slot sp name (Used (with_req 0 c))]> G) pa (Some t) → ipr_next t ≠ 0 →
  wp (register notify previous) (live_post notify)
    (Kernel Sp (if b : bool then <[ea := set_ie_request 0 e]> E else E)
       (<[pa := KPort (set_ip_dnrequests (Some t) p)]> O) M B Th Km Ts Ca Cc).
Proof.
  cbv beta. intros Hnot Hdn Hnx. pose proof (inv_ents _ _ _ Hinv) as Hent. ksimpl_all.
  destruct (ei_slots _ _ _ Hent _ _ Hg) as [_ _ _ (e' & He' & Hrep)]. assert (e' = e) as -> by congruence.
  destruct Hrep as (H1 & H2 & H3 & H4). cbn [sl_name sl_state] in *. apply wp_bind. eapply dnrequest_some_spec; try done. intros i t' Hi Hib Hdn'. cbv beta iota.
  change (KERN_SUCCESS =? KERN_SUCCESS) with true. cbn [negb]. keqb.
  assert (∀ e1 : ipc_entry, ie_name e1 = ie_name e → ie_bits e1 = ie_bits e → ie_object e1 = ie_object e →
    entry_rep (set_ie_request i e1) (Slot sp name (Used (with_req i c)))) as Hrep.
  { intros e1 E1 E2 E3. unfold entry_rep. cbn [sl_name sl_state]. split_and!; [exact (eq_trans E1 H1)|exact (eq_trans E2 H2)|exact (eq_trans E3 H3)|]. by apply set_ie_request_read. }
  destruct b; ksteps; rewrite ?insert_insert_eq; (split; [done|]); exists i; (split; [done|]); apply inv_request; try done; by apply Hrep.
Qed.

Lemma register_none_spec notify :
  notify ≠ IP_NULL → ¬ dn_room c p → wp (register notify IP_NULL) (live_post notify) K.
Proof.
  cbv beta. intros Hnot Hno. pose proof (inv_ents _ _ _ Hinv) as Hent. ksimpl_all.
  destruct (ei_slots _ _ _ Hent _ _ Hg) as [_ [Hn0 _] _ _]. cbn [sl_name] in Hn0.
  assert (wp (ipc_port_dnrequest pa name notify) (λ r K', r = (KERN_NO_SPACE, 0) ∧ K' = K) K) as Hreq.
  { change IP_NULL with 0 in *. unfold ipc_port_dnrequest. ksteps. change MACH_PORT_NULL with 0. keqb. ksteps.
    change IP_NULL with 0. keqb. ksteps. destruct (ip_dnrequests p) as [t|] eqn:Ht; [|by kstep].
    destruct (N.eqb_spec (ipr_next t) 0); [by kstep|]. destruct Hno. right. by exists t. }
  apply wp_bind. eapply wp_mono; [exact Hreq|]. intros r K' [-> ->]. cbv beta iota.
  change (KERN_NO_SPACE =? KERN_SUCCESS) with false. cbn [negb]. change (IP_NULL =? IP_NULL) with true. apply wp_bind, wp_check; [done|].
  apply wp_bind. eapply ipc_port_dngrow_spec; try done.
  - intros Cc' Hcc. cbv beta. change (KERN_RESOURCE_SHORTAGE =? KERN_SUCCESS) with false. cbn [negb]. kstep. split_and!; [done|].
    change (KERN_RESOURCE_SHORTAGE =? KERN_SUCCESS) with false. split_and!; try done. destruct Hinv; by constructor.
  - intros t Cc' Hdn Hnx Hcc. cbv beta. change (KERN_SUCCESS =? KERN_SUCCESS) with true. cbn [negb]. kstep. split; [done|].
    exists t, Cc'. split_and!; [done| |done]. by eapply inv_table.
Qed.

Lemma dnrequest_live_spec notify : wp (dnrequest_live sp name notify pa ea) (live_post notify) K.
Proof.
  pose proof (inv_ents _ _ _ Hinv) as Hent. ksimpl_all. destruct (ei_slots _ _ _ Hent _ _ Hg) as [_ [Hn0 _] _ (e' & He' & Hrep)].
  assert (e' = e) as -> by congruence. pose proof Hrep as (H1 & H2 & H3 & H4). cbn [sl_name sl_state] in *.
  destruct (oi_objects _ _ _ _ (inv_objs _ _ _ Hinv) _ _ Hp) as (Haddr & _ & Hport). ksimpl_all. pose proof (po_dn _ _ _ _ _ _ Hport Hact) as Hdn.
  unfold dnrequest_live. destruct (N.eqb_spec (c_req c) 0) as [Hr0|Hr0].
  - assert (wp (ipc_right_dncancel_macro sp pa name ea) (λ r K', r = IP_NULL ∧ K' = K) K) as Hcancel.
    { unfold ipc_right_dncancel_macro. ksteps. rewrite H4, Hr0. change (0 =? 0) with true. cbv iota. by kstep. }
    assert (with_req 0 c = c) as Hc0 by (rewrite <- Hr0; apply with_req_id).
    destruct (N.eqb_spec notify IP_NULL) as [->|Hnot]; apply wp_bind; eapply wp_mono; try exact Hcancel; intros r K' [-> ->].
    { kstep. split; [done|]. exists 0. split; [done|]. by rewrite Hc0, insert_id. }
    destruct (ip_dnrequests p) as [t|] eqn:Ht; [destruct (decide (ipr_next t = 0)) as [Hnx|Hnx]|].
    + apply register_none_spec; [done|]. intros [?|(t' & Ht' & ?)]; congruence.
    + assert (set_ip_dnrequests (Some t) p = p) as Hpt by (rewrite <- Ht; apply set_ip_dnrequests_id).
      rewrite <- (insert_id O pa (KPort p)), <- Hpt at 1 by done.
      apply (register_some_spec false); [done|by rewrite Hc0, insert_id|done].
    + apply register_none_spec; [done|]. intros [?|(t' & Ht' & ?)]; congruence.
  - assert (entry_rep (set_ie_request 0 e) (Slot sp name (Used (with_req 0 c)))) as Hrep0.
    { unfold entry_rep. cbn [sl_name sl_state]. split_and!; [exact H1|exact H2|exact H3|]. by apply set_ie_request_read. }
    destruct (N.eqb_spec notify IP_NULL) as [->|Hnot]; apply wp_bind;
      eapply (dncancel_some_spec K G ea sp name c (Used (with_req 0 c))); try done; try (simpl; by rewrite N.eqb_refl); intros r t Hdn' Hnx.
    + kstep. split; [done|]. exists 0. split; [done|]. by apply inv_request.
    + apply (register_some_spec true); [done|done|congruence].
Qed.
End Live.

(** ** The loop *)

(** The capability that a request leaves, where [c] is the one it finds. *)
Definition requested (immediate : bool) (notify : N) (c : cap) (kr : kern_return_t) (c' : cap) : Prop :=
  match c_type c with
  | TPset => kr = KERN_INVALID_RIGHT ∧ c' = c
  | TDead =>
      if immediate && negb (notify =? IP_NULL) then
        if c_urefs c =? MACH_PORT_UREFS_MAX then kr = KERN_UREFS_OVERFLOW ∧ c' = c
        else kr = KERN_SUCCESS ∧ c' = set_urefs (c_urefs c + 1) c
      else kr = KERN_INVALID_ARGUMENT ∧ c' = c
  | _ =>
      kr = KERN_SUCCESS ∧ (∃ i, (i = 0 ↔ notify = IP_NULL) ∧ c' = with_req i c) ∨
      kr = KERN_RESOURCE_SHORTAGE ∧ notify ≠ IP_NULL ∧ c' = c
  end.

Definition request_post K G n sp (S : ipc_space T) name immediate notify (r : kern_return_t * N) K' : Prop :=
  same_spaces (k_spaces K) (k_spaces K') ∧
  ((r.1 ≠ KERN_SUCCESS ∧ (is_active S = false ∨ no_cap G sp name) ∧ Inv K' G n) ∨
   ∃ ea c c', G !! ea = Some (Slot sp name (Used c)) ∧ requested immediate notify (settle (k_objects K) c) r.1 c' ∧
     Inv K' (<[ea := Slot sp name (Used c')]> G) n).

Lemma urefs_overflow_one u : 0 < u → u ≤ MACH_PORT_UREFS_MAX → MACH_PORT_UREFS_OVERFLOW u 1 = (u =? MACH_PORT_UREFS_MAX).
Proof.
  unfold MACH_PORT_UREFS_OVERFLOW, MACH_PORT_UREFS_MAX, urefs_add. intros Hu Hm. rewrite Z.mod_small by lia.
  destruct (N.eqb_spec u 65535) as [->|Hne]; [done|]. change (0 <? 1)%Z with true. cbn [andb]. apply orb_false_iff.
  rewrite N.leb_gt, N.ltb_ge. lia.
Qed.

(** The part of an iteration that deals with dead names and port sets. *)
Lemma dnrequest_rest_spec K G n ea sp name c immediate notify Q :
  Inv K G n → G !! ea = Some (Slot sp name (Used c)) → c_type c = TDead ∨ c_type c = TPset →
  (∀ kr c' K', requested immediate notify c kr c' → Inv K' (<[ea := Slot sp name (Used c')]> G) n → k_spaces K' = k_spaces K →
     Q (kr, IP_NULL) K') →
  let bits := cap_bits c in
  wp (if has bits MACH_PORT_TYPE_DEAD_NAME && immediate && negb (notify =? IP_NULL) then
        let urefs := IE_BITS_UREFS bits in
        check (IE_BITS_TYPE bits =? MACH_PORT_TYPE_DEAD_NAME);;
        check (negb (urefs =? 0));;
        if MACH_PORT_UREFS_OVERFLOW urefs 1 then mret (KERN_UREFS_OVERFLOW, IP_NULL) else
        upd_entry ea (set_ie_bits (incr bits));;
        later (call_notify_dead_name notify name);;
        mret (KERN_SUCCESS, IP_NULL)
      else if has bits MACH_PORT_TYPE_PORT_OR_DEAD then mret (KERN_INVALID_ARGUMENT, IP_NULL)
      else mret (KERN_INVALID_RIGHT, IP_NULL)) Q K.
Proof.
  intros Hinv Hg Ht HQ bits. pose proof (inv_caps_wf _ _ _ Hinv _ _ _ _ Hg) as Hwf. subst bits. cbv zeta.
  assert (∀ kr, requested immediate notify c kr c → Q (kr, IP_NULL) K) as Hsame.
  { intros kr Hr. apply (HQ kr c); [done|by rewrite insert_id|done]. }
  unfold requested in *. destruct Ht as [Ht|Ht]; captests.
  2: { kstep. by apply Hsame; rewrite Ht. }
  pose proof Hwf as Hwf0. unfold cap_wf in Hwf0. rewrite Ht in Hwf0, HQ, Hsame. destruct Hwf0 as (Ho0 & Hu & Hr0 & Hma).
  destruct (immediate && negb (notify =? IP_NULL)); [|kstep; by apply Hsame]. ksteps.
  rewrite (proj2 (N.eqb_neq (c_urefs c) 0)) by lia. ksteps.
  destruct (ei_slots _ _ _ (inv_ents _ _ _ Hinv) _ _ Hg) as [_ _ _ (e & He & Hrep)].
  rewrite urefs_overflow_one by (unfold MACH_PORT_UREFS_MAX; lia). destruct (N.eqb_spec (c_urefs c) MACH_PORT_UREFS_MAX) as [?|Hmax]; [kstep; by apply Hsame|].
  unfold cap_bits. rewrite incr_bits by (unfold MACH_PORT_UREFS_MAX in *; lia || by destruct (c_type c), (c_ma c)). destruct K as [Sp E O M B Th Km Ts Ca Cc]. ksimpl_all. ksteps.
  eapply (HQ _ (set_urefs (c_urefs c + 1) c)); [done| |done].
  apply (inv_calls (Kernel _ _ _ _ _ _ _ _ Ca _)). eapply (inv_urefs (Kernel _ _ _ _ _ _ _ _ Ca _) G n ea sp name c); [done|done|congruence| |].
  - unfold cap_wf, MACH_PORT_UREFS_MAX in *. cbn. rewrite Ht. split_and!; try done; lia.
  - by apply entry_rep_urefs.
Qed.

(** One iteration: the call ends, or goes on with a larger table. *)
Lemma dnrequest_iter fuel K G n sp S name immediate notify Q :
  Inv K G n → quiescent G → k_spaces K !! sp = Some S → sp ≠ 0 → name < 2 ^ 32 → (∀ o, spare_ref K o) →
  (∀ r K', request_post K G n sp S name immediate notify r K' → Q r K') →
  (∀ ea c p t Cc', G !! ea = Some (Slot sp name (Used c)) → k_objects K !! c_obj c = Some (KPort p) → ip_active p = true →
     ¬ dn_room c p → ipr_next t ≠ 0 →
     let K' := set_k_caches Cc' (set_k_objects (<[c_obj c := KPort (set_ip_dnrequests (Some t) p)]> (k_objects K)) K) in
     Inv K' G n → wp (dnrequest_loop fuel sp name immediate notify) Q K') →
  wp (dnrequest_loop (Datatypes.S fuel) sp name immediate notify) Q K.
Proof.
  intros Hinv Hqui HS Hsp Hn Hspare HQ Hnext. cbn [dnrequest_loop].
  eapply (lookup_call_spec K G n sp S name (λ kr, (kr, IP_NULL))); try done.
  { intros kr Hkr Hno. apply HQ. split; [done|]. by left. }
  intros HSa ea c Hg. pose proof (inv_caps_wf _ _ _ Hinv _ _ _ _ Hg) as Hwf.
  destruct (ei_slots _ _ _ (inv_ents _ _ _ Hinv) _ _ Hg) as [_ _ _ (e & He & Hrep)]. pose proof Hrep as (_ & Hb & Ho & _). cbn [sl_state] in *.
  apply wp_bind. eapply wp_load_entry; [done|]. cbv zeta. rewrite Hb, Ho, cap_has_port_rights by done. apply wp_bind.
  assert (∀ kr c' K', requested immediate notify (settle (k_objects K) c) kr c' → Inv K' (<[ea := Slot sp name (Used c')]> G) n →
    same_spaces (k_spaces K) (k_spaces K') → Q (kr, IP_NULL) K') as HQ'.
  { intros kr c' K' Hr HK' HSp. apply HQ. split; [done|]. right. by exists ea, c, c'. }
  destruct (is_named (c_type c) || is_sonce (c_type c)) eqn:Hport.
  2: { kstep. assert (settle (k_objects K) c = c) as Hset by (apply settle_other; by destruct (c_type c)). rewrite Hset in HQ'.
       eapply dnrequest_rest_spec; [done|done|destruct (c_type c); auto; done|].
       intros kr c' K' Hr HK' HSp. apply (HQ' kr c'); [done|done|by rewrite HSp]. }
  assert (c_type c ≠ TDead ∧ c_type c ≠ TPset) as [Hd Hps] by by destruct (c_type c).
  destruct (inv_port_cap _ _ _ _ _ _ _ Hinv Hg Hd Hps) as (_ & Haddr & p & _ & _ & Hp & _ & _ & _ & Hpo & _).
  apply wp_bind, wp_check. { apply negb_true_iff, N.eqb_neq. apply Haddr. } apply wp_bind. eapply check_spec; try done.
  - unfold live_port. rewrite Hp. intros Hact. cbn [negb]. apply wp_bind. rewrite (settle_live _ _ p) in HQ' by done.
    destruct K as [Sp E O M B Th Km Ts Ca Cc]. ksimpl_all. eapply wp_mono; [eapply dnrequest_live_spec; try done; by apply (Hspare (c_obj c))|].
    intros [[kr previous]|] K' Hpost; cbn [live_post] in Hpost; kstep.
    + kstep. destruct Hpost as [HSp Hpost]. apply HQ. split; [by rewrite HSp|]. right. exists ea, c. cbn [fst]. rewrite (settle_live _ _ p) by done. unfold requested.
      destruct (N.eqb_spec kr KERN_SUCCESS) as [->|Hkr].
      * destruct Hpost as (i & Hi & HK'). exists (with_req i c). split_and!; [done| |done]. destruct (c_type c); try done; left; eauto.
      * destruct Hpost as (-> & Hnot & Hno & HK'). exists c. rewrite insert_id by done. split_and!; [done| |done].
        destruct (c_type c); try done; right; auto.
    + destruct Hpost as (Hno & t & Cc' & Hnx & HK' & ->). by apply (Hnext ea c p t Cc').
  - unfold live_port. rewrite Hp. intros Hact K' HK' [_ HSp]. cbn [negb].
    set (G' := <[ea := Slot sp name (Used (dead_cap c))]> G) in *. assert (G' !! ea = Some (Slot sp name (Used (dead_cap c)))) as Hg' by apply lookup_insert_eq.
    pose proof (inv_caps_wf _ _ _ HK' _ _ _ _ Hg') as Hwf'.
    destruct (ei_slots _ _ _ (inv_ents _ _ _ HK') _ _ Hg') as [_ _ _ (e' & He' & _ & Hb' & _)]. cbn [sl_state] in *.
    apply wp_bind. eapply wp_load_entry; [done|]. rewrite Hb', cap_has_dead_name by done. apply wp_bind, wp_check; [done|]. kstep.
    eapply dnrequest_rest_spec; [done|done|by left|]. subst G'. intros kr c' K2 Hr HK2 HSp2. rewrite insert_insert_eq in HK2.
    eapply HQ'; [|exact HK2|by rewrite HSp2]. erewrite settle_not_live; try done. unfold live_port. by rewrite Hp.
Qed.

(** A second iteration is enough: it finds the same capability and a free slot
    in the table that the first has made. *)
Lemma ipc_right_dnrequest_spec K G n sp S name immediate notify :
  Inv K G n → quiescent G → k_spaces K !! sp = Some S → sp ≠ 0 → name < 2 ^ 32 → (∀ o, spare_ref K o) →
  wp (ipc_right_dnrequest sp name immediate notify) (request_post K G n sp S name immediate notify) K.
Proof.
  intros Hinv Hqui HS Hsp Hn Hspare. unfold ipc_right_dnrequest. eapply dnrequest_iter; try done.
  intros ea c p t Cc' Hg Hp Hact Hno Hnx K' HK'.
  assert (k_objects K' !! c_obj c = Some (KPort (set_ip_dnrequests (Some t) p))) as Hp' by apply lookup_insert_eq.
  assert (∀ c', G !! ea = Some (Slot sp name (Used c')) → settle (k_objects K') c' = settle (k_objects K) c') as Hset.
  { intros c' Hg'. assert (c' = c) as -> by congruence. by rewrite (settle_live _ _ _ Hp' Hact), (settle_live _ _ _ Hp Hact). }
  assert (∀ ea' c', G !! ea' = Some (Slot sp name (Used c')) → ea' = ea ∧ c' = c) as Hsame.
  { intros ea' c' Hg'. assert (ea' = ea) as -> by (by eapply ent_name_inj; [exact (inv_ents _ _ _ Hinv)|..]). split; [done|congruence]. }
  eapply dnrequest_iter; try done.
  - intros o q Hq. change (<[c_obj c := KPort (set_ip_dnrequests (Some t) p)]> (k_objects K) !! o = Some (KPort q)) in Hq.
    apply lookup_insert_Some in Hq as [[<- [= <-]]|[_ Hq]]; [exact (Hspare (c_obj c) p Hp)|exact (Hspare o q Hq)].
  - intros r K2 [HSp [Hend|(ea' & c' & c2 & Hg' & Hreq & HK2)]]; (split; [done|]); [by left|right].
    destruct (Hsame _ _ Hg') as [-> ->]. rewrite Hset in Hreq by done. by exists ea, c, c2.
  - intros ea' c' p' t' Cc2 Hg' Hq Hact' Hno' _ K2 _. exfalso. destruct (Hsame _ _ Hg') as [-> ->]. apply Hno'. right.
    exists t. split; [|done]. rewrite Hp' in Hq. by injection Hq as <-.
Qed.

(** ** [mach_port_request_notification] *)

(** The send-once right of the request is now with the port, or in its table; of
    the previous requests those for port-destroyed notifications are followed. *)
Definition notification_post K G n id notify (r : kern_return_t * N) K' : Prop :=
  same_spaces (k_spaces K) (k_spaces K') ∧
  ∃ G', quiescent G' ∧
    if (r.1 =? KERN_SUCCESS) && (id =? MACH_NOTIFY_PORT_DESTROYED)
    then Inv K' G' (swap_pd n r.2 notify) ∧ (r.2 ≠ IP_NULL → 0 < nk_pd (n r.2) ∧ is_port (k_objects K) r.2)
    else Inv K' G' n.

Lemma mach_port_request_notification_spec K G n sp S name id sync notify :
  Inv K G n → quiescent G → k_spaces K !! sp = Some S → name < 2 ^ 32 → (∀ o, spare_ref K o) →
  (notify ≠ IP_NULL → is_port (k_objects K) notify ∧ nk_pd (n notify) < nk_sonce (n notify)) →
  wp (mach_port_request_notification sp name id sync notify) (notification_post K G n id notify) K.
Proof.
  intros Hinv Hqui HS Hn Hspare Hnot. unfold mach_port_request_notification.
  assert (∀ kr, kr ≠ KERN_SUCCESS → notification_post K G n id notify (kr, IP_NULL) K) as Herr.
  { intros kr Hkr. split; [done|]. exists G. split; [done|]. cbn [fst]. by rewrite (proj2 (N.eqb_neq _ _) Hkr). }
  destruct (N.eqb_spec sp IS_NULL) as [_|Hsp]; [kstep; by apply Herr|]. destruct (notify =? IP_DEAD); [kstep; by apply Herr|].
  destruct (N.eqb_spec id MACH_NOTIFY_PORT_DESTROYED) as [->|Hid].
  { destruct (negb (sync =? 0)); [kstep; by apply Herr|]. eapply (translate_receive_spec K G n sp S name Hinv Hqui HS Hn (λ kr, (kr, IP_NULL))); [done|done|].
    intros pa p Hp Hact Hrn. kstep. eapply ipc_port_pdrequest_spec; try done. intros K' HK' HSp Hprev. apply wp_ret. unfold notification_post. cbn [fst snd].
    split; [by rewrite HSp|]. exists G. rewrite !N.eqb_refl. cbn [andb]. split_and!; [done|done|]. intros H1. split; [by apply Hprev|].
    destruct (oi_objects _ _ _ _ (inv_objs _ _ _ Hinv) _ _ Hp) as (_ & _ & Hport). by apply (po_pdrequest _ _ _ _ _ _ Hport). }
  destruct (id =? MACH_NOTIFY_NO_SENDERS).
  { eapply (translate_receive_spec K G n sp S name Hinv Hqui HS Hn (λ kr, (kr, IP_NULL))); [done|done|]. intros pa p Hp Hact Hrn. kstep.
    eapply wp_mono; [by eapply ipc_port_nsrequest_spec|]. intros prev K' [HK' HSp]. apply wp_ret. split; [by rewrite HSp|]. exists G. split; [done|].
    cbn [fst snd]. by rewrite (proj2 (N.eqb_neq _ _) Hid), andb_false_r. }
  destruct (id =? MACH_NOTIFY_DEAD_NAME); [|kstep; by apply Herr]. kstep. eapply wp_mono; [by eapply ipc_right_dnrequest_spec|].
  intros [kr prev] K' (HSp & Hres). cbv beta iota. cbn [fst] in Hres.
  assert (∃ G', quiescent G' ∧ Inv K' G' n) as (G' & Hq' & HK').
  { destruct Hres as [(_ & _ & HK')|(ea & c & c' & Hg & _ & HK')]; [by exists G|]. eexists. split; [|exact HK'].
    by apply (becomes_quiescent G ea sp name (Some c')). }
  destruct (kr =? KERN_SUCCESS) eqn:Hkr; cbn [negb]; apply wp_ret; unfold notification_post; cbn [fst snd];
    rewrite ?Hkr, (proj2 (N.eqb_neq _ _) Hid), ?andb_false_r; (split; [done|]); by exists G'.
Qed.
End DnRequest.
