(* ===== verification/IpcSystem.v ===== *)
(** Whole runs of IPC calls.  A system is a kernel and the rights that are in
    messages; tasks examine, modify and give up the rights they have names for,
    send rights away and receive them.  No run fails an assertion, follows a
    dangling pointer or lets a count go wrong. *)

From S2P Require Import Prelude Kmem Rdxtree RdxtreeInv RdxtreeSpec RdxtreeMap IpcTypes IpcEntry IpcPort IpcMarequest IpcRight IpcObject MachPort IpcBits IpcInv IpcUpdate IpcDn IpcMar IpcStep IpcRelease IpcCheck IpcVacate IpcDealloc IpcDelta IpcCopyin IpcClear IpcReceive IpcCopyout IpcDestroy IpcEnd IpcDiscard IpcPset IpcAlloc IpcTransfer IpcAllocName IpcCreate IpcRightEnd IpcDemo IpcClaims IpcAttr MachPortSpec IpcDnRequest.

Open Scope N_scope.

(** ** Calls *)

(** The attributes of a port that its receiver sets. *)
Inductive attribute :=
  | AttrMscount (v : N)
  | AttrQlimit (v : N)
  | AttrSeqno (v : N)
  | AttrPayload (v : N)
  | AttrNoPayload.

(** [CallSend] is the copyin of a message that carries a right, as done by
    [mach_port_extract_right]; [CallReceive i] the copyout of the [i]th right in
    transit, and [CallDiscard i] the end of the message it is in.  [CallRequest]
    is a request for a notification with a send-once right in transit, or without
    one to cancel the request; a previous request for port-destroyed
    notifications is a right in transit again. *)
Inductive sys_call :=
  | CallType (space name : N)
  | CallGetRefs (space name rt : N)
  | CallAllocate (space rt : N)
  | CallAllocateName (space rt name : N)
  | CallDeallocate (space name : N)
  | CallDestroy (space name : N)
  | CallModRefs (space name rt : N) (delta : Z)
  | CallAttr (space name : N) (a : attribute)
  | CallRequest (space name id sync : N) (i : option nat)
  | CallSend (space name msgt_name : N)
  | CallReceive (space : N) (i : nat) (overflow : bool)
  | CallDiscard (i : nat).

Definition call_space (c : sys_call) : option N :=
  match c with
  | CallType sp _ | CallGetRefs sp _ _ | CallAllocate sp _ | CallAllocateName sp _ _ | CallDeallocate sp _ | CallDestroy sp _
  | CallModRefs sp _ _ _ | CallAttr sp _ _ | CallRequest sp _ _ _ _ | CallSend sp _ _ | CallReceive sp _ _ => Some sp
  | CallDiscard _ => None
  end.

(** The arguments have the types of the C functions. *)
Definition call_args (c : sys_call) : Prop :=
  match c with
  | CallType _ name | CallDeallocate _ name | CallDestroy _ name | CallSend _ name _ => name < 2 ^ 32
  | CallGetRefs _ name _ | CallAllocateName _ _ name | CallAttr _ name _ | CallRequest _ name _ _ _ => name < 2 ^ 32
  | CallModRefs _ name _ delta => name < 2 ^ 32 ∧ is_int delta
  | CallAllocate _ _ | CallReceive _ _ _ | CallDiscard _ => True
  end.

Record sys (T C : Type) := Sys {
  sys_kernel : kernel T C;
  sys_transit : list (N * N);
}.
Arguments Sys {T C} _ _.
Arguments sys_kernel {T C} _.
Arguments sys_transit {T C} _.

Section System.
Context `{!Config} `{Hsizes : !ConfigOk} {T C : Type} `{!KeyMap T} `{!KmemCache C} (garbage : ipc_entry).
Implicit Types (K : kernel T C) (G : gmap N eslot) (n : naked) (s : sys T C) (L : list (N * N)).

Definition on_kernel {A} (c : M (kernel T C) A) : M (sys T C) A := λ s,
  match c (sys_kernel s) with Some (a, K) => Some (a, Sys K (sys_transit s)) | None => None end.
Definition set_transit L : M (sys T C) unit := modify (λ s, Sys (sys_kernel s) L).

Definition set_attribute (space name : N) (a : attribute) : M (kernel T C) kern_return_t :=
  match a with
  | AttrMscount v => mach_port_set_mscount space name v
  | AttrQlimit v => mach_port_set_qlimit space name v
  | AttrSeqno v => mach_port_set_seqno space name v
  | AttrPayload v => mach_port_set_protected_payload space name v
  | AttrNoPayload => mach_port_clear_protected_payload space name
  end.

(** The request and what it leaves in transit. *)
Definition sys_request (space name id sync notify : N) (rest : list (N * N)) : M (sys T C) kern_return_t :=
  '(kr, previous) ← on_kernel (mach_port_request_notification space name id sync notify);
  (if kr =? KERN_SUCCESS
   then set_transit (if (id =? MACH_NOTIFY_PORT_DESTROYED) && negb (previous =? IP_NULL)
                     then (previous, MACH_MSG_TYPE_PORT_SEND_ONCE) :: rest else rest)
   else mret tt);;
  mret kr.

Definition sys_exec (c : sys_call) : M (sys T C) kern_return_t :=
  match c with
  | CallType sp name => '(kr, _) ← on_kernel (mach_port_type sp name); mret kr
  | CallGetRefs sp name rt => '(kr, _) ← on_kernel (mach_port_get_refs sp name rt); mret kr
  | CallAllocate sp rt => '(kr, _) ← on_kernel (mach_port_allocate garbage sp rt); mret kr
  | CallAllocateName sp rt name => on_kernel (mach_port_allocate_name garbage sp rt name)
  | CallDeallocate sp name => on_kernel (mach_port_deallocate sp name)
  | CallDestroy sp name => on_kernel (mach_port_destroy sp name)
  | CallModRefs sp name rt delta => on_kernel (mach_port_mod_refs sp name rt delta)
  | CallAttr sp name a => on_kernel (set_attribute sp name a)
  | CallRequest sp name id sync i =>
      s ← get;
      match i with
      | None => sys_request sp name id sync IP_NULL (sys_transit s)
      | Some i =>
          match sys_transit s !! i with
          | Some (port, type) =>
              if type =? MACH_MSG_TYPE_PORT_SEND_ONCE then sys_request sp name id sync port (delete i (sys_transit s))
              else mret KERN_INVALID_VALUE
          | None => mret KERN_INVALID_VALUE
          end
      end
  | CallSend sp name msgt_name =>
      '(kr, port, type) ← on_kernel (mach_port_extract_right sp name msgt_name);
      (if (kr =? KERN_SUCCESS) && IO_VALID port
       then s ← get; set_transit ((port, type) :: sys_transit s) else mret tt);;
      mret kr
  | CallReceive sp i overflow =>
      s ← get;
      match sys_transit s !! i with
      | None => mret KERN_INVALID_VALUE
      | Some (port, type) =>
          '(kr, _) ← on_kernel (ipc_object_copyout garbage sp port type overflow);
          (if kr =? KERN_SUCCESS then set_transit (delete i (sys_transit s)) else mret tt);;
          mret kr
      end
  | CallDiscard i =>
      s ← get;
      match sys_transit s !! i with
      | None => mret KERN_INVALID_VALUE
      | Some (port, type) =>
          on_kernel (ipc_object_destroy port type);; set_transit (delete i (sys_transit s));; mret KERN_SUCCESS
      end
  end.

(** The name of a receive right, with send rights, for a port that has a backup:
    see [IpcFinding]. *)
Definition backed_up K (sp name : N) : bool :=
  match ipc_right_lookup_write sp name K with
  | Some ((kr, ea), _) =>
      match k_entries K !! ea with
      | Some e =>
          match k_objects K !! ie_object e with
          | Some (KPort p) => (IE_BITS_TYPE (ie_bits e) =? MACH_PORT_TYPE_SEND_RECEIVE) && negb (ip_pdrequest p =? IP_NULL)
          | _ => false
          end
      | None => false
      end
  | None => false
  end.

(** ** The invariant *)

Definition in_transit L (o : N) (t : ctype) : N := N.of_nat (length (filter (λ x, x = (o, right_type t)) L)).

(** The rights outside of entries include those in transit. *)
Definition carries n L : Prop :=
  Forall (λ x, ∃ t, t ∈ [TSonce; TSend; TRecv] ∧ x.2 = right_type t) L ∧
  ∀ o, in_transit L o TSend ≤ nk_send (n o) ∧ nk_pd (n o) + in_transit L o TSonce ≤ nk_sonce (n o) ∧
    nk_kern (n o) + in_transit L o TRecv ≤ nk_recv (n o).

Definition sys_ok s : Prop :=
  ∃ G n, Inv (sys_kernel s) G n ∧ quiescent G ∧ carries n (sys_transit s).

(** References can be counted, and there is memory for the reverse maps and for
    objects and names for new entries. *)
Definition plenty K : Prop := (∀ o, spare_ref K o) ∧ can_create K ∧ ∀ sp, room_in K sp ∧ can_alloc K sp.

Lemma in_transit_cons L o t x : in_transit (x :: L) o t = Nb (bool_decide (x = (o, right_type t))) + in_transit L o t.
Proof.
  unfold in_transit. destruct (decide (x = (o, right_type t))) as [Hx|Hx].
  - rewrite filter_cons_True, bool_decide_eq_true_2 by done. cbn [length Nb]. lia.
  - rewrite filter_cons_False, bool_decide_eq_false_2 by done. cbn [Nb]. lia.
Qed.

Lemma in_transit_delete L i x o t : L !! i = Some x →
  in_transit (delete i L) o t + Nb (bool_decide (x = (o, right_type t))) = in_transit L o t.
Proof.
  intros Hi. assert (in_transit L o t = in_transit (take i L) o t + in_transit (x :: drop (S i) L) o t) as ->.
  { rewrite <- (take_drop_middle L i x Hi) at 1. unfold in_transit. rewrite list.filter_app, length_app. lia. }
  rewrite in_transit_cons, delete_take_drop. unfold in_transit. rewrite list.filter_app, length_app. lia.
Qed.

Lemma carries_mono n n' L : carries n L →
  (∀ o, nk_send (n o) ≤ nk_send (n' o) ∧ nk_sonce (n o) ≤ nk_sonce (n' o) ∧ nk_recv (n o) ≤ nk_recv (n' o) ∧
     nk_pd (n' o) = nk_pd (n o) ∧ nk_kern (n' o) = nk_kern (n o)) → carries n' L.
Proof. intros [Hall Hc] Hn. split; [done|]. intros o. specialize (Hc o). specialize (Hn o). lia. Qed.

Lemma carries_add n o t L : carries n L → carries (upd_naked n o (add_right t (n o))) L.
Proof.
  intros Hc. eapply carries_mono; [done|]. intros a. destruct (decide (a = o)) as [->|Hne].
  - rewrite upd_naked_eq. cbn. lia.
  - rewrite upd_naked_ne by done. lia.
Qed.

Lemma carries_push n o t L : t ∈ [TSonce; TSend; TRecv] → carries n L → carries (hand_out n o (Some t)) ((o, right_type t) :: L).
Proof.
  intros Ht [Hall Hc]. split; [constructor; [by exists t|done]|]. intros a. specialize (Hc a). rewrite !in_transit_cons.
  rewrite !elem_of_cons, elem_of_nil in Ht. unfold hand_out. destruct (decide (a = o)) as [->|Hne].
  - rewrite upd_naked_eq. destruct Ht as [->|[->|[->|[]]]]; unfold bool_decide; repeat case_decide; simplify_eq; cbn; lia.
  - rewrite upd_naked_ne by done. unfold bool_decide. repeat case_decide; simplify_eq; cbn; lia.
Qed.

Lemma carries_pop n o t L i (O : gmap N kobject) : t ∈ [TSonce; TSend; TRecv] → carries n L → L !! i = Some (o, right_type t) →
  has_right n o t ∧ carries (settled O n o t) (delete i L).
Proof.
  intros Ht [Hall Hc] Hi. pose proof (λ a t', in_transit_delete L i _ a t' Hi) as Hd.
  rewrite !elem_of_cons, elem_of_nil in Ht.
  assert (has_right n o t) as Hhas.
  { specialize (Hc o). pose proof (Hd o t) as Hdt. rewrite bool_decide_eq_true_2 in Hdt by done. cbn [Nb] in Hdt. unfold has_right.
    destruct Ht as [->|[->|[->|[]]]]; cbn; lia. }
  split; [done|]. split; [by apply Forall_delete|]. intros a.
  assert (∀ a, nk_send (settled O n o t a) = nk_send (upd_naked n o (sub_right t (n o)) a) ∧
    nk_sonce (settled O n o t a) = nk_sonce (upd_naked n o (sub_right t (n o)) a) ∧
    nk_recv (settled O n o t a) = nk_recv (upd_naked n o (sub_right t (n o)) a) ∧
    nk_pd (settled O n o t a) = nk_pd (n a) ∧ nk_kern (settled O n o t a) = nk_kern (n a)) as Hset.
  { intros b. assert (nk_pd (upd_naked n o (sub_right t (n o)) b) = nk_pd (n b) ∧ nk_kern (upd_naked n o (sub_right t (n o)) b) = nk_kern (n b)) as [Hp Hk].
    { destruct (decide (b = o)) as [->|Hne]; [by rewrite upd_naked_eq|by rewrite upd_naked_ne]. }
    unfold settled. destruct (O !! o) as [[p|]|]; try (by split_and!). destruct (is_recv t && _); [|by split_and!].
    destruct (decide (b = ip_destination p)) as [->|Hne]; [rewrite upd_naked_eq|rewrite upd_naked_ne by done]; by split_and!. }
  destruct (Hset a) as (-> & -> & -> & -> & ->). specialize (Hc a). pose proof (Hd a TSend) as H1. pose proof (Hd a TSonce) as H2.
  pose proof (Hd a TRecv) as H3. destruct Hhas as (Hh1 & Hh2 & Hh3). destruct (decide (a = o)) as [->|Hne].
  - rewrite upd_naked_eq. unfold sub_right. cbn.
    destruct Ht as [->|[->|[->|[]]]]; unfold bool_decide in *; repeat case_decide; simplify_eq; cbn in *; lia.
  - rewrite upd_naked_ne by done. unfold bool_decide in *. repeat case_decide; simplify_eq; cbn in *; lia.
Qed.

Lemma in_transit_none n L o t : carries n L → nk_rights (n o) = 0 → t ∈ [TSonce; TSend; TRecv] → in_transit L o t = 0.
Proof.
  intros [_ Hc] H0 Ht. specialize (Hc o). unfold nk_rights in H0. rewrite !elem_of_cons, elem_of_nil in Ht.
  destruct Ht as [->|[->|[->|[]]]]; lia.
Qed.

(** An object comes into being. *)
Lemma carries_create n L a : carries n L → nk_rights (n a) = 0 → carries (upd_naked n a no_rights) L.
Proof.
  intros Hc H0. pose proof (λ t, in_transit_none n L a t Hc H0) as Hno. destruct Hc as [Hall Hc]. split; [done|]. intros o.
  destruct (decide (o = a)) as [->|Hne]; [rewrite upd_naked_eq|rewrite upd_naked_ne by done; apply Hc].
  rewrite !Hno by (rewrite !elem_of_cons; auto). done.
Qed.

(** A port dies or moves on. *)
Lemma carries_spares n n' a L :
  spares_rights n n' a → carries n L → in_transit L a TRecv = 0 → nk_kern (n' a) ≤ nk_recv (n' a) → carries n' L.
Proof.
  intros Hsp [Hall Hc] H0 Hk. split; [done|]. intros o. specialize (Hc o). destruct (Hsp o) as (Hs & Hso & Hr).
  destruct (decide (o = a)) as [->|Hne]; [|destruct (Hr Hne)]; lia.
Qed.

(** A right in transit is used up, or becomes that of a port-destroyed request. *)
Lemma carries_delete n L i x : L !! i = Some x → carries n L → carries n (delete i L).
Proof.
  intros Hi [Hall Hc]. pose proof (λ o t, in_transit_delete L i x o t Hi) as Hdel. split; [by apply Forall_delete|]. intros o. specialize (Hc o).
  pose proof (Hdel o TSend). pose proof (Hdel o TSonce). pose proof (Hdel o TRecv). lia.
Qed.

Lemma carries_swap n L L' prev new :
  carries n L → (∀ o t, in_transit L' o t ≤ in_transit L o t) → Forall (λ x, ∃ t, t ∈ [TSonce; TSend; TRecv] ∧ x.2 = right_type t) L' →
  (new ≠ 0 → in_transit L' new TSonce < in_transit L new TSonce) → (prev ≠ 0 → 0 < nk_pd (n prev)) →
  carries (swap_pd n prev new) (if negb (prev =? IP_NULL) then (prev, MACH_MSG_TYPE_PORT_SEND_ONCE) :: L' else L').
Proof.
  intros [_ Hc] HL Hall Hnew Hprev. split.
  { destruct (negb _); [|done]. constructor; [|done]. exists TSonce. split; [by left|done]. }
  intros o. specialize (Hc o). pose proof (HL o TSend). pose proof (HL o TSonce). pose proof (HL o TRecv). unfold swap_pd.
  cbn [nk_send nk_pd nk_sonce nk_kern nk_recv]. change IP_NULL with 0.
  assert (∀ t, in_transit (if negb (prev =? 0) then (prev, MACH_MSG_TYPE_PORT_SEND_ONCE) :: L' else L') o t =
    Nb (negb (prev =? 0) && (prev =? o) && is_sonce t) + in_transit L' o t) as Hpush.
  { intros t. destruct (prev =? 0); cbn [negb andb Nb]; [lia|]. rewrite in_transit_cons. f_equal. f_equal.
    unfold bool_decide. case_decide as Hd; destruct (N.eqb_spec prev o); destruct t; cbn [is_sonce right_type andb] in *; simplify_eq; done. }
  rewrite !Hpush. cbn [is_sonce]. rewrite !andb_false_r, !andb_true_r. cbn [Nb].
  destruct (N.eqb_spec new 0), (N.eqb_spec new o), (N.eqb_spec prev 0), (N.eqb_spec prev o); subst; cbn [negb andb Nb]; try specialize (Hprev ltac:(done));
    try specialize (Hnew ltac:(done)); lia.
Qed.

(** ** One call *)

Lemma wp_on_kernel {A} (c : M (kernel T C) A) K L Q : wp c (λ a K', Q a (Sys K' L)) K → wp (on_kernel c) Q (Sys K L).
Proof. unfold wp, on_kernel. cbn [sys_kernel sys_transit]. by destruct (c K) as [[a K']|]. Qed.

Section Call.
Context K L G n (Hinv : Inv K G n) (Hqui : quiescent G) (Hcar : carries n L) (Hplenty : plenty K).

Lemma ok_becomes K' G' n' ea sp name oc :
  becomes G ea sp name oc G' → Inv K' G' n' → carries n' L → sys_ok (Sys K' L).
Proof. intros Hb HK' Hc. exists G', n'. split_and!; [done|by eapply becomes_quiescent|done]. Qed.

Lemma ok_looked ea sp name c K' : looked K G n ea sp name c K' → sys_ok (Sys K' L).
Proof. intros [HK' _]. by eapply (ok_becomes K' _ n ea sp name (Some _)). Qed.

Context (sp : N) (S : ipc_space T) (HS : k_spaces K !! sp = Some S).
#[local] Abbreviation done_ok := (λ (_ : kern_return_t) (K' : kernel T C), sys_ok (Sys K' L) ∧ same_spaces (k_spaces K) (k_spaces K')).

Lemma ok_same : sys_ok (Sys K L) ∧ same_spaces (k_spaces K) (k_spaces K).
Proof. split; [by exists G, n|done]. Qed.

Lemma call_deallocate name : name < 2 ^ 32 → wp (mach_port_deallocate sp name) done_ok K.
Proof.
  intros Hn. unfold mach_port_deallocate. destruct (N.eqb_spec sp IS_NULL) as [->|Hsp]; [kstep; apply ok_same|].
  eapply (lookup_call_spec K G n sp S name (λ kr, kr)); try done; [intros _ _ _; apply ok_same|].
  intros HSa ea c Hg. eapply wp_mono; [by eapply ipc_right_dealloc_spec|]. intros kr K' (G' & n' & HK' & HSp & Hres & ->). split; [|done].
  assert (carries (match c_type (settle (k_objects K) c) with
    | TSonce => upd_naked n (c_obj c) (add_right TSonce (n (c_obj c))) | _ => n end) L) as Hc'.
  { destruct (c_type (settle (k_objects K) c)); try done. by apply carries_add. }
  destruct (dealloc_cap (settle (k_objects K) c)) as [oc|]; destruct Hres as [_ Hres].
  - by eapply ok_becomes.
  - subst G'. by eexists _, _.
Qed.

(** The receive right of an entry ended. *)
Lemma ok_ended ea name c oc K' :
  G !! ea = Some (Slot sp name (Used c)) → is_recv (c_type c) = true → receive_ended K G n ea sp name c oc K' → done_ok KERN_SUCCESS K'.
Proof.
  intros Hg Hr (G' & p & Hb & Hp & n' & HK' & HSp & Hsp & q & Hq & _). split; [|done]. eapply ok_becomes; [done|done|].
  destruct (oi_objects _ _ _ _ (inv_objs _ _ _ Hinv) _ _ Hp) as (_ & _ & Hport).
  destruct (oi_objects _ _ _ _ (inv_objs _ _ _ HK') _ _ Hq) as (_ & _ & Hport').
  eapply carries_spares; [done|done| |apply (po_naked_recv _ _ _ _ _ _ Hport')].
  assert (0 < n_recv G (c_obj c)). { apply (count_pos _ _ _ _ Hg). unfold holds. cbn [sl_state]. by rewrite N.eqb_refl, Hr. }
  pose proof (po_recv _ _ _ _ _ _ Hport) as Hre. pose proof (proj2 Hcar (c_obj c)). destruct (ip_active p); cbn [Nb] in Hre; lia.
Qed.

Lemma plenty_backup c : backup_ok K c.
Proof. intros p _ _. apply Hplenty. Qed.

Lemma call_destroy name : name < 2 ^ 32 → wp (mach_port_destroy sp name) done_ok K.
Proof.
  intros Hn. unfold mach_port_destroy. destruct (N.eqb_spec sp IS_NULL) as [->|Hsp]; [kstep; apply ok_same|].
  eapply (lookup_call_spec K G n sp S name (λ kr, kr)); try done; [intros _ _ _; apply ok_same|].
  intros HSa ea c Hg. eapply wp_mono; [eapply ipc_right_destroy_spec; [done|done|apply plenty_backup]|]. intros kr K' [_ Hpost].
  destruct (is_recv (c_type c)) eqn:Hr; [by eapply ok_ended|]. destruct Hpost as (HSp & G' & Hf & HK'). split; [|done].
  eapply (ok_becomes K' G' _ ea sp name None); [done|done|]. case_match; [by apply carries_add|done].
Qed.

(** The guard of [mach_port_mod_refs] for receive rights. *)
Lemma not_backed_up ea name c : is_active S = true → name < 2 ^ 32 → G !! ea = Some (Slot sp name (Used c)) →
  backed_up K sp name = false → lone_receive K c.
Proof.
  intros HSa Hn Hg Hb p Ht Hp. unfold backed_up in Hb.
  assert (wp (ipc_right_lookup_write sp name) (λ r K', r = (KERN_SUCCESS, ea) ∧ K' = K) K) as Hwp.
  { eapply ipc_right_lookup_write_spec; try done; [intros Hno; by destruct (Hno _ _ Hg)|].
    intros ea' c' Hg'. split; [|done]. f_equal. by eapply ent_name_inj; [exact (inv_ents _ _ _ Hinv)|..]. }
  apply wp_run in Hwp as (r & K' & Hrun & -> & ->). rewrite Hrun in Hb.
  destruct (ei_slots _ _ _ (inv_ents _ _ _ Hinv) _ _ Hg) as [_ _ _ (e & He & _ & Hbits & Ho & _)]. cbn [sl_state] in *.
  rewrite He, Ho, Hp, Hbits, cap_type, Ht in Hb by by eapply inv_caps_wf.
  change (2 ^ 16 * type_code TSendRecv =? MACH_PORT_TYPE_SEND_RECEIVE) with true in Hb. cbn [andb] in Hb.
  by apply negb_false_iff, N.eqb_eq in Hb.
Qed.

Lemma call_mod_refs name rt delta :
  name < 2 ^ 32 → is_int delta → (rt = MACH_PORT_RIGHT_RECEIVE → backed_up K sp name = false) →
  wp (mach_port_mod_refs sp name rt delta) done_ok K.
Proof.
  intros Hn Hd Hback. unfold mach_port_mod_refs. destruct (N.eqb_spec sp IS_NULL) as [->|Hsp]; [kstep; apply ok_same|].
  destruct (N.leb_spec MACH_PORT_RIGHT_NUMBER rt) as [?|Hrt]; [kstep; apply ok_same|].
  eapply (lookup_call_spec K G n sp S name (λ kr, kr)); try done; [intros _ _ _; apply ok_same|]. intros HSa ea c Hg.
  destruct (decide (rt = MACH_PORT_RIGHT_RECEIVE)) as [->|Hr1].
  { unfold ipc_right_delta. do 6 kstep. change (MACH_PORT_RIGHT_RECEIVE =? MACH_PORT_RIGHT_PORT_SET) with false. rewrite N.eqb_refl. cbv iota.
    eapply wp_mono; [eapply delta_receive_spec; [done|done|apply plenty_backup|]; by eapply not_backed_up; eauto|].
    intros kr K' Hpost. unfold receive_post, receive_cap in Hpost. destruct (is_recv (c_type c)) eqn:Hr; cbn [negb] in Hpost.
    - destruct (delta =? 0)%Z; [destruct Hpost as [_ ->]; apply ok_same|].
      destruct (negb (delta =? -1)%Z); [destruct Hpost as [_ ->]; apply ok_same|]. destruct Hpost as [-> Hpost]. by eapply ok_ended.
    - destruct Hpost as [_ ->]. apply ok_same. }
  destruct (decide (rt = MACH_PORT_RIGHT_PORT_SET)) as [->|Hr2].
  { unfold ipc_right_delta. do 6 kstep. rewrite N.eqb_refl. cbv iota. eapply wp_mono; [by eapply delta_port_set_spec|]. cbv beta. intros kr K'.
    destruct (negb (bool_decide _)); [intros [_ ->]; apply ok_same|]. destruct (delta =? 0)%Z; [intros [_ ->]; apply ok_same|].
    destruct (negb _); [intros [_ ->]; apply ok_same|]. intros (_ & HSp & G' & Hf & HK'). split; [|done].
    by eapply (ok_becomes K' G' n ea sp name None). }
  eapply wp_mono; [eapply ipc_right_delta_spec; try done|].
  { unfold MACH_PORT_RIGHT_SEND, MACH_PORT_RIGHT_SEND_ONCE, MACH_PORT_RIGHT_DEAD_NAME, MACH_PORT_RIGHT_NUMBER,
      MACH_PORT_RIGHT_RECEIVE, MACH_PORT_RIGHT_PORT_SET in *. lia. }
  intros kr K' (_ & HSp & G' & Hb & HK'). split; [|done]. eapply ok_becomes; [done|done|]. case_match; [by apply carries_add|done].
Qed.

(** A new right. *)
Lemma ok_allocated rt kr name K' : allocated K G n sp rt kr name K' → done_ok kr K'.
Proof.
  intros [HSp Hres]. split; [|done]. destruct (kr =? KERN_SUCCESS); [|by exists G, n].
  destruct Hres as (ea & c & n' & Hfree & Hnew & HK'). exists (<[ea := Slot sp name (Used c)]> G), n'. split_and!; [done| |].
  - by apply (becomes_quiescent G ea sp name (Some c)).
  - destruct Hnew as [(_ & Hno & ->)|(_ & _ & ->)]; [|done]. apply carries_create; [done|].
    destruct (decide (nk_rights (n (c_obj c)) = 0)) as [|Hne]; [done|]. apply (oi_naked _ _ _ _ (inv_objs _ _ _ Hinv)) in Hne as [q Hq]. congruence.
Qed.

Lemma call_allocate rt : wp (mach_port_allocate garbage sp rt) (λ '(kr, _) K', done_ok kr K') K.
Proof. eapply wp_mono; [eapply mach_port_allocate_spec; try done; apply Hplenty|]. intros [kr name] K'. apply ok_allocated. Qed.
Lemma call_allocate_name rt name : name < 2 ^ 32 → wp (mach_port_allocate_name garbage sp rt name) done_ok K.
Proof. intros Hn. eapply wp_mono; [eapply mach_port_allocate_name_spec; try done; apply Hplenty|]. intros kr K'. apply ok_allocated. Qed.

Lemma copyin_none msgt_name c kr obj st' :
  copyin_cap (live_port (k_objects K) c) msgt_name true c = (kr, obj, st', None) → (kr =? KERN_SUCCESS) && IO_VALID obj = false.
Proof.
  unfold copyin_cap, send_outcome, dead_outcome, no_right. intros Hc. repeat case_match; simplify_eq; done.
Qed.

Lemma copyin_type_total msgt_name : is_copyin msgt_name → ∃ ty, ∀ K1 : kernel T C, ipc_object_copyin_type msgt_name K1 = Some (ty, K1).
Proof.
  unfold is_copyin. rewrite !elem_of_cons, elem_of_nil. intros [->|[->|[->|[->|[->|[->|[]]]]]]]; eexists; intros K1; reflexivity.
Qed.

Lemma call_send name msgt_name : name < 2 ^ 32 →
  wp (mach_port_extract_right sp name msgt_name)
    (λ '(kr, port, type) K', same_spaces (k_spaces K) (k_spaces K') ∧
       sys_ok (Sys K' (if (kr =? KERN_SUCCESS) && IO_VALID port then (port, type) :: L else L))) K.
Proof.
  intros Hn. unfold mach_port_extract_right. destruct (N.eqb_spec sp IS_NULL) as [->|Hsp]; [kstep; split; [done|apply ok_same]|].
  destruct (MACH_MSG_TYPE_PORT_ANY msgt_name) eqn:Hm; cbn [negb]; [|kstep; split; [done|apply ok_same]].
  assert (is_copyin msgt_name) as Hcopy.
  { apply andb_true_iff in Hm as [H1%N.leb_le H2%N.leb_le]. unfold is_copyin. rewrite !elem_of_cons, elem_of_nil.
    unfold MACH_MSG_TYPE_MOVE_RECEIVE, MACH_MSG_TYPE_MAKE_SEND, MACH_MSG_TYPE_MAKE_SEND_ONCE, MACH_MSG_TYPE_COPY_SEND,
      MACH_MSG_TYPE_MOVE_SEND, MACH_MSG_TYPE_MOVE_SEND_ONCE in *. lia. }
  destruct (is_active S) eqn:HSa.
  2: { unfold ipc_object_copyin, ipc_right_lookup_write. keqb. ksteps. rewrite HSa. cbn [negb]. ksteps. cbn [negb]. ksteps.
       split; [done|apply ok_same]. }
  kstep. eapply wp_mono; [eapply ipc_object_copyin_spec; try done; [apply Hplenty|apply Hplenty]|].
  intros [kr port] K' (HSp & Hres). cbv beta iota. destruct Hres as [(_ & [= -> ->] & ->)|(ea & c & st' & out & G' & Hg & Hc & Hb & Hq' & _ & HK')].
  { change (KERN_INVALID_NAME =? KERN_SUCCESS) with false. cbv iota. kstep. split; [done|]. apply ok_same. }
  destruct out as [t|].
  - destruct (copyin_cap_out (T := T) (C := C) _ _ _ _ _ _ _ _ Hcopy Hc) as (-> & -> & Ht & Hcap & Htype).
    change (KERN_SUCCESS =? KERN_SUCCESS) with true. cbv iota. kstep. unfold wp at 1. rewrite Htype. kstep. split; [done|].
    destruct (cap_object _ _ _ _ _ _ _ Hinv Hg Hcap) as (p & Hp & _).
    destruct (oi_objects _ _ _ _ (inv_objs _ _ _ Hinv) _ _ Hp) as (Haddr & _). rewrite obj_valid by done.
    cbn [andb]. exists G', (hand_out n (c_obj c) (Some t)). split_and!; [done|done|]. by apply carries_push.
  - pose proof (copyin_none _ _ _ _ _ Hc) as Hno. assert (sys_ok (Sys K' L)) as Hok by (by exists G', n).
    destruct (kr =? KERN_SUCCESS) eqn:Hkr; [|kstep; by rewrite Hkr].
    kstep. cbn [andb] in Hno. destruct (copyin_type_total _ Hcopy) as [ty Hty]. unfold wp at 1. rewrite Hty. kstep. by rewrite Hkr, Hno.
Qed.

(** A right in transit is one for a port. *)
Lemma transit_port i port type : L !! i = Some (port, type) →
  ∃ t p, t ∈ [TSonce; TSend; TRecv] ∧ type = right_type t ∧ k_objects K !! port = Some (KPort p) ∧ has_right n port t.
Proof.
  intros Hi. pose proof Hcar as [Hall _]. rewrite list.Forall_forall in Hall.
  destruct (Hall _ (list_elem_of_lookup_2 _ _ _ Hi)) as (t & Ht & Hty). cbn [snd] in Hty. subst type.
  destruct (carries_pop n port t L i (k_objects K) Ht Hcar Hi) as [Hhas _].
  destruct (oi_naked _ _ _ _ (inv_objs _ _ _ Hinv) port) as [p Hp]; [|by exists t, p]. destruct Hhas as (? & ? & ?).
  rewrite !elem_of_cons, elem_of_nil in Ht. unfold nk_rights. destruct Ht as [->|[->|[->|[]]]]; cbn in *; lia.
Qed.

Lemma call_receive i port type overflow : L !! i = Some (port, type) →
  wp (ipc_object_copyout garbage sp port type overflow)
    (λ '(kr, _) K', same_spaces (k_spaces K) (k_spaces K') ∧
       sys_ok (Sys K' (if kr =? KERN_SUCCESS then delete i L else L))) K.
Proof.
  intros Hi. destruct (transit_port i port type Hi) as (t & p & Ht & -> & Hp & Hhas).
  destruct (carries_pop n port t L i (k_objects K) Ht Hcar Hi) as [_ Hcar'].
  destruct (is_active S) eqn:HSa.
  2: { destruct (oi_objects _ _ _ _ (inv_objs _ _ _ Hinv) _ _ Hp) as (Haddr & _ & Hport).
       unfold ipc_object_copyout. rewrite obj_valid by done. ksteps. rewrite (po_otype _ _ _ _ _ _ Hport). ksteps. rewrite HSa. cbn [negb].
       kstep. split; [done|apply ok_same]. }
  eapply wp_mono; [eapply (ipc_object_copyout_spec K G n sp S t overflow port p garbage); try done; apply Hplenty|].
  intros [kr name] K' (HSp & G' & Hq' & Hres). cbn [fst snd] in Hres. split; [done|]. exists G'.
  destruct Hres as [(Hkr & _ & _ & HK')|(-> & _ & _ & _ & _ & _ & _ & _ & HK')].
  - rewrite (proj2 (N.eqb_neq kr KERN_SUCCESS)) by done. by exists n.
  - eexists. split_and!; [exact HK'|done|exact Hcar'].
Qed.

Lemma call_discard i port type : L !! i = Some (port, type) →
  wp (ipc_object_destroy port type) (λ _ K', same_spaces (k_spaces K) (k_spaces K') ∧ sys_ok (Sys K' (delete i L))) K.
Proof.
  intros Hi. destruct (transit_port i port type Hi) as (t & p & Ht & -> & Hp & Hhas).
  eapply wp_mono; [eapply (ipc_object_destroy_spec K G n port p t); try done; apply Hplenty|].
  intros _ K' (HSp & n' & HK' & Hd). split; [done|]. exists G, n'. split_and!; [done|done|].
  pose proof (λ o t', in_transit_delete L i _ o t' Hi) as Hdel. pose proof (carries_delete n L i _ Hi Hcar) as Hcar'.
  rewrite !elem_of_cons, elem_of_nil in Ht. destruct Ht as [->|[->|[->|[]]]]; cbn [discarded] in Hd; [by subst n'| |].
  - destruct (carries_pop n port TSend L i (k_objects K)) as [_ Hpop]; [by right; left|done|done|]. unfold settled in Hpop. by rewrite Hp in Hpop; subst n'.
  - destruct Hd as [Hsp Hk]. eapply carries_spares; [done|done| |done]. cbn [sys_transit].
    pose proof (Hdel port TRecv) as H1. rewrite bool_decide_eq_true_2 in H1 by done. cbn [Nb] in H1. pose proof (proj2 Hcar port).
    destruct (oi_objects _ _ _ _ (inv_objs _ _ _ Hinv) _ _ Hp) as (_ & _ & Hport). pose proof (po_recv _ _ _ _ _ _ Hport) as Hre.
    destruct (ip_active p); cbn [Nb] in Hre; lia.
Qed.

Lemma call_attribute name a : name < 2 ^ 32 → wp (set_attribute sp name a) done_ok K.
Proof.
  intros Hn. assert (∀ change, port_op change → wp (on_receive_right sp name change) done_ok K) as Hop.
  { intros change Hc. eapply wp_mono; [by eapply on_receive_right_spec|]. intros kr K' [HK' HSp]. split; [by exists G, n|by rewrite HSp]. }
  destruct a as [v|v|v|v|]; cbn [set_attribute].
  - apply Hop, set_mscount_op.
  - unfold mach_port_set_qlimit. destruct (sp =? IS_NULL); [kstep; apply ok_same|]. destruct (_ <? v); [kstep; apply ok_same|]. apply Hop, set_qlimit_op.
  - apply Hop, set_seqno_op.
  - apply Hop, set_payload_op.
  - apply Hop, clear_payload_op.
Qed.

(** The request is made with a right that is in [L] and not in [L']. *)
Lemma call_request name id sync notify L' :
  name < 2 ^ 32 → carries n L' → (notify ≠ IP_NULL → is_port (k_objects K) notify) →
  (∀ o t, in_transit L' o t ≤ in_transit L o t) → (notify ≠ IP_NULL → in_transit L' notify TSonce < in_transit L notify TSonce) →
  wp (sys_request sp name id sync notify L')
    (λ _ s', sys_ok s' ∧ same_spaces (k_spaces K) (k_spaces (sys_kernel s'))) (Sys K L).
Proof.
  intros Hn Hcar' Hport HL Hnew. unfold sys_request. apply wp_bind, wp_on_kernel.
  eapply wp_mono; [eapply (mach_port_request_notification_spec K G n sp S name id sync notify); [done|done|done|done|apply Hplenty|]|].
  { intros H1. split; [by apply Hport|]. pose proof (Hnew H1). pose proof (proj2 Hcar notify). lia. }
  intros [kr prev] K' (HSp & G' & Hq' & Hres). cbv beta iota. cbn [fst snd] in Hres. destruct (kr =? KERN_SUCCESS).
  - unfold set_transit. cbn [andb] in Hres. apply wp_bind, wp_modify, wp_ret. cbv beta. cbn [sys_kernel sys_transit]. destruct (id =? MACH_NOTIFY_PORT_DESTROYED); cbn [andb] in *.
    + destruct Hres as [HK' Hprev]. split; [|done]. exists G', (swap_pd n prev notify). split_and!; [done|done|].
      cbn [sys_transit]. apply (carries_swap n L L' prev notify); [done|done|apply Hcar'|done|]. intros H1. by apply Hprev.
    + split; [|done]. by exists G', n.
  - apply wp_bind, wp_ret, wp_ret. split; [|done]. by exists G', n.
Qed.
End Call.

(** The arguments of a call, the space it is made on, and what it must not be
    applied to. *)
Definition call_ok s (c : sys_call) : Prop :=
  call_args c ∧
  match call_space c with Some sp => is_Some (k_spaces (sys_kernel s) !! sp) | None => True end ∧
  match c with
  | CallModRefs sp name rt _ => rt = MACH_PORT_RIGHT_RECEIVE → backed_up (sys_kernel s) sp name = false
  | _ => True
  end.

Lemma sys_exec_spec s c :
  sys_ok s → plenty (sys_kernel s) → call_ok s c →
  wp (sys_exec c) (λ _ s', sys_ok s' ∧ same_spaces (k_spaces (sys_kernel s)) (k_spaces (sys_kernel s'))) s.
Proof.
  destruct s as [K L]. intros (G & n & Hinv & Hqui & Hcar) Hplenty (Hargs & Hspace & Hguard). cbn [sys_kernel sys_transit] in *.
  assert (∀ K' X, looked K G n X.1.1.1 X.1.1.2 X.1.2 X.2 K' →
    sys_ok (Sys K' L) ∧ same_spaces (k_spaces K) (k_spaces K')) as Hlook.
  { intros K' X Hl. split; [by eapply ok_looked|by destruct Hl as [_ [_ ?]]]. }
  destruct c as [sp name|sp name rt|sp rt|sp rt name|sp name|sp name|sp name rt delta|sp name a|sp name id sync oi|sp name m|sp i o|i];
    cbn [sys_exec call_space call_args] in *.
  all: try match type of Hspace with is_Some _ => destruct Hspace as [S HS] end.
  - kstep. apply wp_on_kernel. eapply mach_port_type_spec; try done; [intros; kstep; by eapply ok_same|].
    intros ea c K' _ Hg Hl. kstep. apply (Hlook K' (ea, sp, name, c) Hl).
  - kstep. apply wp_on_kernel. eapply mach_port_get_refs_spec; try done; [intros; kstep; by eapply ok_same|].
    intros ea c K' _ _ Hg Hl. kstep. apply (Hlook K' (ea, sp, name, c) Hl).
  - kstep. apply wp_on_kernel. eapply wp_mono; [by eapply call_allocate|]. intros [kr name] K' Hok. by kstep.
  - apply wp_on_kernel. by eapply call_allocate_name.
  - apply wp_on_kernel. by eapply call_deallocate.
  - apply wp_on_kernel. by eapply call_destroy.
  - apply wp_on_kernel. destruct Hargs as (? & ?). by eapply call_mod_refs.
  - apply wp_on_kernel. by eapply call_attribute.
  - ksteps. cbn [sys_transit]. destruct oi as [i|]; [|by eapply call_request].
    destruct (L !! i) as [[port type]|] eqn:Hi; [|kstep; by eapply ok_same].
    destruct (N.eqb_spec type MACH_MSG_TYPE_PORT_SEND_ONCE) as [->|_]; [|kstep; by eapply ok_same].
    pose proof (λ o t, in_transit_delete L i _ o t Hi) as Hdel. eapply call_request; try done; [by eapply carries_delete| | |].
    + intros _. destruct (transit_port K L G n Hinv Hcar i port _ Hi) as (t & p & _ & _ & Hp & _). by exists p.
    + intros o t. specialize (Hdel o t). lia.
    + intros _. specialize (Hdel port TSonce). rewrite bool_decide_eq_true_2 in Hdel by done. cbn [Nb] in Hdel. lia.
  - kstep. apply wp_on_kernel. eapply wp_mono; [by eapply call_send|]. intros [[kr port] type] K' [HSp Hok].
    cbv beta iota. kstep. destruct ((kr =? KERN_SUCCESS) && IO_VALID port); ksteps; unfold set_transit; ksteps; done.
  - ksteps. cbn [sys_transit]. destruct (L !! i) as [[port type]|] eqn:Hi; [|kstep; by eapply ok_same].
    kstep. apply wp_on_kernel. eapply wp_mono; [by eapply call_receive|]. intros [kr name] K' [HSp Hok].
    cbv beta iota. kstep. destruct (kr =? KERN_SUCCESS); ksteps; unfold set_transit; ksteps; done.
  - ksteps. cbn [sys_transit]. destruct (L !! i) as [[port type]|] eqn:Hi; [|kstep; by eapply ok_same].
    kstep. apply wp_on_kernel. eapply wp_mono; [by eapply call_discard|]. intros u K' [HSp Hok]. unfold set_transit. by ksteps.
Qed.

(** ** Runs *)

(** A run makes calls while there is memory. *)
Inductive sys_run : sys T C → list sys_call → sys T C → Prop :=
  | run_done s : sys_run s [] s
  | run_call s c kr s1 cs s2 :
      plenty (sys_kernel s) → call_ok s c → sys_exec c s = Some (kr, s1) → sys_run s1 cs s2 → sys_run s (c :: cs) s2.

Lemma sys_run_ok s cs s' : sys_ok s → sys_run s cs s' → sys_ok s'.
Proof.
  intros Hok Hrun. induction Hrun as [|s c kr s1 cs s2 Hp Hc He _ IH]; [done|]. apply IH.
  pose proof (sys_exec_spec s c Hok Hp Hc) as Hwp. unfold wp in Hwp. rewrite He in Hwp. apply Hwp.
Qed.

End System.

(** ** A run *)

Definition demo_sys : sys (gmap N N) free_list := Sys demo_kernel [(p1, MACH_MSG_TYPE_PORT_SEND)].

(** [spA] sends a send right for [p2], [spB] receives both rights and asks for a
    dead-name notification for [p1]; [spA] makes [p2] the backup of [p1].  [spB]
    gives up a dead name and all its references to [p1].  Then [spB] makes a port and a port
    set, and its receive right dies in a message; [spA] destroys [p1] and the
    port set, and gives up [p2]. *)
Definition demo_calls : list sys_call :=
  [CallSend spA 2 MACH_MSG_TYPE_MAKE_SEND; CallReceive spB 0 true; CallReceive spB 0 true;
   CallAttr spA 1 (AttrQlimit 16); CallSend spA 2 MACH_MSG_TYPE_MAKE_SEND_ONCE; CallRequest spB 1 MACH_NOTIFY_DEAD_NAME 0 (Some 0%nat);
   CallSend spA 2 MACH_MSG_TYPE_MAKE_SEND_ONCE; CallRequest spA 1 MACH_NOTIFY_PORT_DESTROYED 0 (Some 0%nat);
   CallDeallocate spB 3; CallModRefs spB 1 MACH_PORT_RIGHT_SEND (-4); CallType spA 1;
   CallAllocate spB MACH_PORT_RIGHT_RECEIVE; CallAllocateName spB MACH_PORT_RIGHT_PORT_SET 9;
   CallSend spB 1 MACH_MSG_TYPE_MOVE_RECEIVE; CallDiscard 0;
   CallDestroy spA 1; CallModRefs spA 3 MACH_PORT_RIGHT_PORT_SET (-1); CallModRefs spA 2 MACH_PORT_RIGHT_RECEIVE (-1)].

Definition demo_exec (s : sys (gmap N N) free_list) (c : sys_call) : sys (gmap N N) free_list :=
  match sys_exec demo_garbage c s with Some (_, s') => s' | None => s end.

(** Enough memory, checked on a concrete kernel. *)
Definition refs_low (o : kobject) : bool := match o with KPort p => ip_references p + 1 <? 2 ^ 32 | KPset _ => true end.
Definition fresh_object (K : kernel (gmap N N) free_list) (a : N) : bool :=
  negb (a =? 0) && (N.land a 7 =? 0) && (VM_MIN_KERNEL_ADDRESS <=? a) && (a <? VM_MIN_KERNEL_ADDRESS + 2 ^ 35) && (a <? 2 ^ 64) &&
  bool_decide (k_objects K !! a = None) && bool_decide (k_spaces K !! a = None).
Definition fresh_objects (K : kernel (gmap N N) free_list) (otype : N) : bool :=
  match k_caches K !! ipc_object_cache otype with
  | Some c => match fl_alloc c with (Some a, _) => fresh_object K a | _ => true end
  | None => true
  end.
Definition demo_memory (K : kernel (gmap N N) free_list) : bool :=
  forallb (λ x, refs_low x.2) (map_to_list (k_objects K)) && fresh_objects K IOT_PORT && fresh_objects K IOT_PORT_SET &&
  match k_caches K !! ipc_entry_cache with
  | Some c => match fl_alloc c with (Some a, _) => bool_decide (k_entries K !! a = None) | _ => true end
  | None => false
  end.

Lemma demo_create K : fresh_objects K IOT_PORT = true → fresh_objects K IOT_PORT_SET = true → can_create K.
Proof.
  intros H1 H2 otype c a c' Hty Hc Ha. assert (fresh_objects K otype = true) as Hf.
  { assert (otype = IOT_PORT ∨ otype = IOT_PORT_SET) as [->| ->] by (unfold IOT_NUMBER, IOT_PORT, IOT_PORT_SET in *; lia); done. }
  unfold fresh_objects in Hf. rewrite Hc in Hf. cbn [kmem_cache_alloc free_list_cache] in Ha. rewrite Ha in Hf.
  unfold fresh_object in Hf. rewrite !andb_true_iff in Hf. destruct Hf as [[[[[[H3 H4] H5] H6] H7] H8] H9].
  apply negb_true_iff, N.eqb_neq in H3. apply N.eqb_eq in H4. apply N.leb_le in H5. apply N.ltb_lt in H6, H7.
  apply bool_decide_eq_true in H8, H9. by split_and!.
Qed.

Lemma demo_plenty K : demo_memory K = true → plenty K.
Proof.
  unfold demo_memory. intros [[[Ho H1]%andb_true_iff H2]%andb_true_iff Hc]%andb_true_iff. rewrite List.forallb_forall in Ho. split_and!.
  - intros o p Hp. assert (refs_low (KPort p) = true) as Hr%N.ltb_lt; [|done].
    apply (Ho (o, KPort p)), list_elem_of_In, elem_of_map_to_list. done.
  - by apply demo_create.
  - intros sp. split; [apply demo_room|]. destruct (k_caches K !! ipc_entry_cache) as [c|] eqn:Hk; [|done].
    eapply demo_can_alloc; [done|]. destruct (fl_alloc c) as [[a|] c']; [|done]. by apply bool_decide_eq_true in Hc.
Qed.

Lemma demo_sys_ok : sys_ok demo_sys.
Proof.
  exists demo_table, demo_naked. split_and!; [exact demo_inv|exact demo_quiescent|]. split.
  - constructor; [|constructor]. exists TSend. split; [by right; left|done].
  - intros o. unfold demo_naked, upd_naked. destruct (N.eqb_spec o p1) as [->|Hne]; [by vm_compute|].
    cbn [sys_transit demo_sys]. rewrite !in_transit_cons, !bool_decide_eq_false_2 by congruence. done.
Qed.

(** A run whose steps are all fine is a run. *)
Definition demo_guard (K : kernel (gmap N N) free_list) (c : sys_call) : bool :=
  match call_space c with Some sp => bool_decide (is_Some (k_spaces K !! sp)) | None => true end &&
  match c with CallModRefs sp name rt _ => negb ((rt =? MACH_PORT_RIGHT_RECEIVE) && backed_up K sp name) | _ => true end.
Fixpoint demo_run (s : sys (gmap N N) free_list) (cs : list sys_call) : bool :=
  match cs with
  | [] => true
  | c :: cs =>
      demo_memory (sys_kernel s) && demo_guard (sys_kernel s) c &&
      match sys_exec demo_garbage c s with Some (_, s') => demo_run s' cs | None => false end
  end.

Lemma demo_guard_spec s c : call_args c → demo_guard (sys_kernel s) c = true → call_ok s c.
Proof.
  intros Hargs [Hs Hb]%andb_true_iff. split_and!; [done| |].
  - destruct (call_space c); [by apply bool_decide_eq_true in Hs|done].
  - destruct c as [| | | | | |sp name rt delta| | | | |]; try done. intros ->. by apply negb_true_iff in Hb.
Qed.

Lemma demo_run_spec cs s : Forall call_args cs → demo_run s cs = true → sys_run demo_garbage s cs (foldl demo_exec s cs).
Proof.
  revert s. induction cs as [|c cs IH]; intros s Hargs Hrun; cbn [foldl demo_run] in *; [constructor|].
  apply list.Forall_cons in Hargs as [Hc Hargs]. apply andb_true_iff in Hrun as [[Hm Hs]%andb_true_iff Hrun].
  unfold demo_exec at 2. destruct (sys_exec demo_garbage c s) as [[kr s1]|] eqn:He; [|done].
  eapply (run_call _ _ _ kr); [by apply demo_plenty|by apply demo_guard_spec|done|by apply IH].
Qed.

