(* ===== verification/IpcTheorems.v ===== *)
(** What the operations that translate, make, request and end rights do, with
    the kernel of [IpcDemo] as an example of each. *)

From S2P Require Import Prelude Kmem Rdxtree RdxtreeInv RdxtreeSpec RdxtreeMap IpcTypes IpcEntry IpcPort IpcMarequest IpcRight IpcObject MachPort IpcBits IpcInv IpcUpdate IpcStep IpcCircular IpcVacate IpcDealloc IpcDelta IpcCopyin IpcAlloc IpcTransfer IpcEnd IpcAllocName IpcCreate IpcRightEnd IpcDemo IpcClaims IpcAttr MachPortSpec IpcDnRequest IpcSystem.

Open Scope N_scope.

Section Theorems.
Context `{!Config} {T C : Type} `{!KeyMap T} `{!KmemCache C}.
Implicit Types (K : kernel T C) (G : gmap N eslot) (n : naked).

(** C12.  Types of translated rights: for every kind of right but a dead name,
    [ipc_object_translate] returns and changes nothing, and when it succeeds the
    pointer it returns points to an object of the kind of that right: a port for
    send and send-once rights, an active port received under that name for
    receive rights, and an active port set of that name for port sets. *)
Theorem ipc_object_translate_type K G n sp S name right :
  Inv K G n → quiescent G → k_spaces K !! sp = Some S → sp ≠ 0 → name < 2 ^ 32 → right < MACH_PORT_RIGHT_DEAD_NAME →
  ∃ kr a, ipc_object_translate sp name right K = Some ((kr, a), K) ∧
    (if kr =? KERN_SUCCESS then points_to (k_objects K) sp name right a else a = IO_NULL).
Proof.
  intros Hinv Hqui HS Hsp Hname Hright. assert (wp (ipc_object_translate sp name right) (λ r K', K' = K ∧
    if r.1 =? KERN_SUCCESS then points_to (k_objects K) sp name right r.2 else r.2 = IO_NULL) K) as Hwp.
  { eapply ipc_object_translate_spec; try done. intros kr Hkr. cbn [fst snd]. by rewrite (proj2 (N.eqb_neq kr KERN_SUCCESS)). }
  apply wp_run in Hwp as ([kr a] & K' & Hrun & -> & Hr). eauto.
Qed.

(** C10.  Circularity: where no receive right is in a message to itself,
    [ipc_port_check_circularity] terminates, for chains of destinations of any
    length.  It reports a circularity, and changes nothing, exactly when the port
    is on the chain of destinations from [da] on; otherwise the port is in
    transit to [da], which has another reference, and still no receive right is
    in a message to itself. *)
Theorem ipc_port_check_circularity_correct K pa da p d :
  acyclic (k_objects K) → dest_ports (k_objects K) → k_objects K !! pa = Some (KPort p) → k_objects K !! da = Some (KPort d) →
  pa ≠ 0 → da ≠ 0 → ip_active p = true → ip_receiver_name p = MACH_PORT_NULL → ip_destination p = IP_NULL →
  ∃ r K' l, ipc_port_check_circularity pa da K = Some (r, K') ∧ chain (k_objects K) da l ∧ (r = true ↔ pa ∈ l) ∧
    K' = (if r then K else set_k_objects (put_in_transit (k_objects K) pa da p d) K) ∧ acyclic (k_objects K').
Proof.
  destruct K as [Sp E O M B Th Km Ts Ca Cc]. ksimpl. intros Hac Hports Hp Hd Hpa Hda Hact Hname Hdest.
  assert (wp (ipc_port_check_circularity pa da) (λ r K', ∃ l, chain O da l ∧ (r = true ↔ pa ∈ l) ∧
    K' = (if r then Kernel Sp E O M B Th Km Ts Ca Cc else Kernel Sp E (put_in_transit O pa da p d) M B Th Km Ts Ca Cc) ∧
    acyclic (k_objects K')) (Kernel Sp E O M B Th Km Ts Ca Cc)) as Hwp.
  { eapply (ipc_port_check_circularity_spec _ _ _ _ _ _ _ _ _ _ pa da p d); try done.
    - intros l Hl Hin. by exists l.
    - intros l Hl Hno. exists l. split_and!; try done. assert (pa ≠ da) as Hne. { intros ->. apply Hno. destruct (chain_head _ _ _ Hl) as [l' ->]. by left. }
      pose proof (transit_next O pa da p d Hd Hact Hname) as Hnext. eapply (acyclic_send O); try done; ksimpl.
      + by rewrite Hnext, N.eqb_refl.
      + intros b Hb. by rewrite Hnext, (proj2 (N.eqb_neq _ _) Hb). }
  apply wp_run in Hwp as (r & K' & Hrun & l & Hl & Hr & HK' & Hac'). exists r, K', l. split_and!; try done.
Qed.


(** C11.  [mach_port_allocate_name] returns.  When it succeeds the name was free,
    and it denotes a new receive right or port set, whose object did not exist,
    or a dead name with one reference; when it fails no right has changed. *)
Theorem mach_port_allocate_name_correct garbage K G n sp S right name :
  Inv K G n → quiescent G → k_spaces K !! sp = Some S → name < 2 ^ 32 → can_alloc K sp → can_create K →
  ∃ kr K', mach_port_allocate_name garbage sp right name K = Some (kr, K') ∧ allocated K G n sp right kr name K'.
Proof. intros. eapply wp_run, mach_port_allocate_name_spec; done. Qed.

(** C9.  [ipc_right_dnrequest] terminates within two iterations: when the table
    of requests is full the first makes a larger one, and the second registers
    the request.  The capability and the table agree on the request afterwards,
    for rights of every type; a dead name gets another reference when the
    notification is due at once, unless it has as many as there can be. *)
Theorem ipc_right_dnrequest_correct `{!ConfigOk} K G n sp S name immediate notify :
  Inv K G n → quiescent G → k_spaces K !! sp = Some S → sp ≠ 0 → name < 2 ^ 32 → (∀ o, spare_ref K o) →
  ∃ r K', ipc_right_dnrequest sp name immediate notify K = Some (r, K') ∧ request_post K G n sp S name immediate notify r K'.
Proof. intros. eapply wp_run, ipc_right_dnrequest_spec; done. Qed.
End Theorems.

(** ** Examples *)

Lemma ipc_object_translate_type_witness :
  ∃ kr a, ipc_object_translate spA 3 MACH_PORT_RIGHT_PORT_SET demo_kernel = Some ((kr, a), demo_kernel) ∧
    (if kr =? KERN_SUCCESS then points_to (k_objects demo_kernel) spA 3 MACH_PORT_RIGHT_PORT_SET a else a = IO_NULL).
Proof. eapply ipc_object_translate_type; [exact demo_inv|exact demo_quiescent|reflexivity|done|done|done]. Defined.

(** A port that is sent to one whose receive right is in a message to it. *)
Definition circle_objects : gmap N kobject :=
  <[p1 := demo_port 1 (io_makebits true IOT_PORT 0) MACH_PORT_NULL IP_NULL 0 0 IPS_NULL]> $
  <[p2 := demo_port 1 (io_makebits true IOT_PORT 0) MACH_PORT_NULL p1 0 0 IPS_NULL]> ∅.

Lemma circle_next a : next_port circle_objects a = if a =? p2 then p1 else 0.
Proof.
  unfold next_port, circle_objects. destruct (N.eqb_spec a p2) as [->|H2]; [by vm_compute|].
  destruct (decide (a = p1)) as [->|H1]; [by vm_compute|]. by rewrite !lookup_insert_ne, lookup_empty by done.
Qed.

Lemma ipc_port_check_circularity_correct_witness :
  ∃ r K' l, ipc_port_check_circularity p1 p2 (set_k_objects circle_objects demo_kernel) = Some (r, K') ∧ chain circle_objects p2 l ∧
    (r = true ↔ p1 ∈ l) ∧
    K' = (if r then set_k_objects circle_objects demo_kernel
          else set_k_objects (put_in_transit circle_objects p1 p2
            (IPort (ITarget (IObject 1 (io_makebits true IOT_PORT 0)) 0 (IMqueue [] [])) 0 0 0 0 0 0 0 0 None 0 0 0 MACH_PORT_QLIMIT_DEFAULT [] 0)
            (IPort (ITarget (IObject 1 (io_makebits true IOT_PORT 0)) 0 (IMqueue [] [])) 0 p1 0 0 0 0 0 0 None 0 0 0 MACH_PORT_QLIMIT_DEFAULT [] 0))
            (set_k_objects circle_objects demo_kernel)) ∧
    acyclic (k_objects K').
Proof.
  apply (ipc_port_check_circularity_correct (set_k_objects circle_objects demo_kernel) p1 p2); try done.
  - intros a. exists 2%nat. cbn. rewrite !circle_next. by destruct (a =? p2).
  - intros a. cbn. rewrite circle_next. destruct (a =? p2); [|done]. intros _. eexists. reflexivity.
Defined.


Lemma mach_port_allocate_name_correct_witness :
  ∃ kr K', mach_port_allocate_name demo_garbage spB MACH_PORT_RIGHT_RECEIVE 9 demo_kernel = Some (kr, K') ∧
    allocated demo_kernel demo_table demo_naked spB MACH_PORT_RIGHT_RECEIVE kr 9 K'.
Proof.
  eapply mach_port_allocate_name_correct; [exact demo_inv|exact demo_quiescent|reflexivity|done| |].
  - eapply demo_can_alloc; vm_compute; reflexivity.
  - apply demo_create; by vm_compute.
Defined.

Lemma ipc_right_dnrequest_correct_witness :
  ∃ S r K', k_spaces demo_kernel !! spB = Some S ∧ ipc_right_dnrequest spB 1 false p2 demo_kernel = Some (r, K') ∧
    request_post demo_kernel demo_table demo_naked spB S 1 false p2 r K'.
Proof.
  destruct (ipc_right_dnrequest_correct demo_kernel demo_table demo_naked spB _ 1 false p2 demo_inv demo_quiescent eq_refl
    ltac:(done) ltac:(done) demo_spare) as (r & K' & Hrun & Hpost).
  eexists _, r, K'. split_and!; [reflexivity|exact Hrun|exact Hpost].
Defined.
