(* ===== verification/IpcFinding.v ===== *)
(** The receive right of a port that has a backup, released under a name that
    also holds send rights.  [ipc_right_delta] turns the send rights into a dead
    name and leaves [ip_srights] alone, since the port is destroyed at once; but
    [ipc_port_destroy] gives the port to its backup instead, and the port goes on
    with a send right that nobody has. *)

From S2P Require Import Prelude Kmem Rdxtree RdxtreeInv RdxtreeSpec RdxtreeMap IpcTypes IpcEntry IpcPort IpcMarequest IpcRight IpcObject MachPort IpcBits IpcInv IpcUpdate IpcStep IpcTransfer IpcDemo IpcClaims MachPortSpec IpcDnRequest IpcSystem.

Open Scope N_scope.

(** ** Rights and references *)

Section Rights.
Context `{!Config} {T C : Type} `{!KeyMap T} `{!KmemCache C}.
Implicit Types (K : kernel T C) (G : gmap N eslot) (n : naked).

(** Capabilities hold one right each, but for those with send and receive rights. *)
Lemma caps_rights G o :
  (∀ ea s, G !! ea = Some s → holds (λ t, bool_decide (t = TSendRecv)) o s = false) → n_send G o + n_sonce G o + n_recv G o ≤ n_caps G o.
Proof.
  unfold n_send, n_sonce, n_recv, n_caps. induction G as [|ea s G Hea IH] using map_ind; intros Hno; [by rewrite !count_empty|].
  rewrite !count_fresh by done.
  assert (Nb (holds is_send o s) + Nb (holds is_sonce o s) + Nb (holds is_recv o s) ≤ Nb (holds (λ _, true) o s)).
  { specialize (Hno ea s (lookup_insert_eq _ _ _)). unfold holds in *. destruct (sl_state s) as [| |c]; try done.
    destruct (c_obj c =? o), (c_type c); done. }
  assert (∀ eb s', G !! eb = Some s' → holds (λ t, bool_decide (t = TSendRecv)) o s' = false) as Hno'.
  { intros eb s' Hb. apply (Hno eb). rewrite lookup_insert_ne; [done|congruence]. }
  specialize (IH Hno'). lia.
Qed.

(** Every right comes with a reference. *)
Lemma inv_rights_refs K G n pa p :
  Inv K G n → k_objects K !! pa = Some (KPort p) → ip_active p = true →
  (∀ ea e, k_entries K !! ea = Some e → ie_object e = pa →
     has (ie_bits e) MACH_PORT_TYPE_SEND && has (ie_bits e) MACH_PORT_TYPE_RECEIVE = false) →
  ip_srights p + ip_sorights p + 1 ≤ ip_references p.
Proof.
  intros Hinv Hp Hact Hno. destruct (oi_objects _ _ _ _ (inv_objs _ _ _ Hinv) _ _ Hp) as (_ & _ & [_ Hrefs _ Hnk _ Hsend _ Hsonce Hrecv _ _ _ _ _]).
  specialize (Hsend Hact). specialize (Hsonce Hact). rewrite Hact in Hrecv. cbn [Nb] in Hrecv.
  assert (n_send G pa + n_sonce G pa + n_recv G pa ≤ n_caps G pa); [|lia]. apply caps_rights. intros ea s Hs.
  destruct (ei_slots _ _ _ (inv_ents _ _ _ Hinv) _ _ Hs) as [_ _ _ (e & He & _ & Hrep)]. unfold holds.
  destruct s as [sp name [| |c]]; try done. cbn [sl_state] in *. destruct Hrep as (Hb & Ho & _). apply andb_false_iff.
  destruct (N.eqb_spec (c_obj c) pa) as [Heq|]; [|by left]. right. apply bool_decide_eq_false. intros Ht.
  assert (ie_object e = pa) as Hoe by congruence. specialize (Hno ea e He Hoe).
  by rewrite Hb, cap_has_send, cap_has_receive, Ht in Hno by (by eapply inv_caps_wf).
Qed.
End Rights.

(** ** The run *)

(** [p2] becomes the backup of [p1], and the no-senders notification of [p1] goes
    to [p2].  Then [spA] releases the receive right of [p1] and [spB] its send
    rights. *)
Definition finding_requests : list sys_call :=
  [CallReceive spB 0 true; CallSend spA 2 MACH_MSG_TYPE_MAKE_SEND_ONCE; CallRequest spA 1 MACH_NOTIFY_PORT_DESTROYED 0 (Some 0%nat);
   CallSend spA 2 MACH_MSG_TYPE_MAKE_SEND_ONCE; CallRequest spA 1 MACH_NOTIFY_NO_SENDERS 0 (Some 0%nat)].
Definition finding_release : list sys_call := [CallModRefs spA 1 MACH_PORT_RIGHT_RECEIVE (-1); CallModRefs spB 1 MACH_PORT_RIGHT_SEND (-4)].
(** The same, but [spA] first releases its send rights. *)
Definition finding_orderly : list sys_call := CallModRefs spA 1 MACH_PORT_RIGHT_SEND (-2) :: finding_release.

(** The system after calls that all succeed. *)
Fixpoint run_calls (s : sys (gmap N N) free_list) (cs : list sys_call) : option (sys (gmap N N) free_list) :=
  match cs with
  | [] => Some s
  | c :: cs =>
      match sys_exec demo_garbage c s with
      | Some (kr, s') => if kr =? KERN_SUCCESS then run_calls s' cs else None
      | None => None
      end
  end.

Definition finding_before : sys (gmap N N) free_list := foldl demo_exec demo_sys finding_requests.
Definition finding_after : sys (gmap N N) free_list := foldl demo_exec finding_before finding_release.

(** The requests are calls like any others. *)
Lemma finding_before_ok : sys_ok finding_before.
Proof.
  eapply (sys_run_ok demo_garbage); [exact demo_sys_ok|]. apply demo_run_spec; [|by vm_compute]. repeat constructor; try done; vm_compute; done.
Qed.

Lemma finding_no_send ea e :
  k_entries (sys_kernel finding_after) !! ea = Some e → ie_object e = p1 → has (ie_bits e) MACH_PORT_TYPE_SEND = false.
Proof.
  assert (map_Forall (λ _ e, ie_object e = p1 → has (ie_bits e) MACH_PORT_TYPE_SEND = false) (k_entries (sys_kernel finding_after))) as Hall.
  { apply (bool_decide_eq_true_1 _). vm_compute. done. }
  exact (Hall ea e).
Qed.

Lemma finding_port : ∃ p, k_objects (sys_kernel finding_after) !! p1 = Some (KPort p) ∧
  ip_active p = true ∧ ip_srights p = 1 ∧ ip_nsrequest p = p2 ∧ ip_sorights p = 1 ∧ ip_references p = 2.
Proof. eexists. split; [vm_compute; reflexivity|]. by vm_compute. Qed.

(** C39.  A send right that nobody has: from a state that satisfies the invariant,
    [mach_port_mod_refs] releases a receive right whose name also holds send
    rights and whose port has a backup.  The send right of the name is gone but
    [ip_srights] still counts it: when the last other send right is released no
    no-senders notification is made, the port stays with one send right and none
    exists, and no choice of capabilities satisfies the invariant.  The
    notification is made when the send rights of the name are released first. *)
Theorem delta_receive_send_lost :
  sys_ok finding_before ∧ run_calls finding_before finding_release = Some finding_after ∧
  (∃ p, k_objects (sys_kernel finding_after) !! p1 = Some (KPort p) ∧ ip_active p = true ∧ ip_srights p = 1 ∧ ip_nsrequest p = p2) ∧
  (∀ ea e, k_entries (sys_kernel finding_after) !! ea = Some e → ie_object e = p1 → has (ie_bits e) MACH_PORT_TYPE_SEND = false) ∧
  sys_transit finding_after = [] ∧ k_calls (sys_kernel finding_after) = [call_notify_port_destroyed p2 p1] ∧
  ¬ sys_ok finding_after ∧
  ∃ s, run_calls finding_before finding_orderly = Some s ∧
    k_calls (sys_kernel s) = [call_notify_port_destroyed p2 p1; call_notify_no_senders p2 0].
Proof.
  split_and!; [exact finding_before_ok|by vm_compute| |exact finding_no_send|by vm_compute|by vm_compute| |].
  - destruct finding_port as (p & Hp & Ha & Hs & Hns & _). exact (ex_intro _ p (conj Hp (conj Ha (conj Hs Hns)))).
  - intros (G & n & Hinv & _). destruct finding_port as (p & Hp & Ha & Hs & _ & Hso & Hr).
    assert (ip_srights p + ip_sorights p + 1 ≤ ip_references p); [|lia]. eapply (inv_rights_refs _ G n p1); [exact Hinv|exact Hp|exact Ha|].
    intros ea e He Ho. by rewrite (finding_no_send ea e He Ho).
  - eexists. split; [vm_compute; reflexivity|]. by vm_compute.
Qed.
